(* ===== verification/_CoqProject ===== *)
-Q . S2P
Prelude.v
ListH.v
Kernel.v
Timer.v
Thread.v
SchedInv.v
KernelInv.v
SchedOps.v
ThreadLife.v
System.v
SchedRun.v
SchedSpec.v
Fair.v
TimerSpec.v
Sync.v
MutexSpec.v
SemSpec.v
EventSpec.v
Bits.v
Bytes.v
Pmm.v
PmmInv.v
PmmSpec.v
PmmRange.v
Vmm.v
VmmSpec.v
VmmAlloc.v
VmmAllocSpec.v
Vm.v
Ring.v
Port.v
PortBuf.v
PortInv.v
PortSafe.v
PortWrite.v
PortRead.v
PortClose.v
PortSystem.v
Cbuf.v
CbufRing.v
CbufSpec.v
Bio.v
BioSpec.v
BioBytes.v
BioApi.v
BioReg.v
BioRun.v
Bcache.v
BcacheData.v
BcacheSpec.v
BcacheOps.v
BcacheSeq.v
BcacheRun.v
Miniheap.v
MiniheapSpec.v
MiniheapSys.v
MiniheapRun.v
Novm.v
NovmRun.v
Mem.v
Libc.v
LibcMem.v
LibcStr.v
LibcRun.v
Strto.v
StrtoSpec.v
Printf.v
PrintfSim.v
PrintfSpec.v
PrintfDouble.v
PrintfRun.v
Sort.v
SortSpec.v
SortLoops.v
SortRun.v
Net.v
NetSpec.v
Tcp.v
TcpSpec.v
TcpRun.v
