(* ===== verification/Prelude.v ===== *)
(** * A verification development for the micro-kernel

    This library models the core of the kernel under [src/mk], and some of the
    libraries it is built with, the network stack among them, as executable functions
    and proves what its parts promise.  Function and field names are those of the C
    code; where two parts of a C function are separate here (the body of a loop, what
    happens after a switch) the comment at the definition says which part it is.

    ** How the code is represented

    - A C function that changes state is a computation of type [M S A], that is
      [S → option (A * S)].  [None] stands for every way the C program goes wrong: a
      failed [ASSERT], [DEBUG_ASSERT] or [panic], a NULL or dangling pointer, an
      access outside an array, a lock taken twice.  [wp m Q s] says that [m] started
      in [s] returns, and in a state and with a result of which [Q] holds; it is
      total correctness, so every theorem about [wp] also says that none of these
      failures happens.
    - Integers are [Z], wrapped by [u32], [u64], [s32], ... of this file wherever the
      C type can wrap.
    - A pointer is a key of a finite map ([thread_ptr], [wq_ptr], [timer_ptr],
      addresses of type [positive]).  Queues of threads and timers are lists;
      [ListH] proves that the pointer code of [lk/list.h] implements them.
    - A call that blocks or reschedules ends at the switch with [Switched] and with
      [thread_lock] held, as in the code; what the thread does when it is scheduled
      again is a second function whose name ends in [_resume].  Any number of calls
      of other threads may come in between, so interleavings are sequences of calls.
    - The build modelled is SMP with dynamic timers and kernel address spaces.

    ** The parts

    The scheduler is at the bottom: threads, wait queues and timers share one state
    [kstate], protected by [thread_lock].  Mutexes, semaphores and events are wait
    queues with a few fields; ports and circular buffers are built on wait queues
    and events; the memory managers are separate.  The heap takes its pages from a
    page allocator; the block cache stands on the block devices and on the lists.

    - [ListH] - [top/include/lk/list.h].  Nodes in a heap; every operation refines
      the one on sequences ([list_add_refines], [list_remove_refines]), traversal
      terminates.
    - [Kernel], [Timer], [Thread] - the state; [kernel/timer.c]; [kernel/thread.c]
      and [kernel/mp.c].
    - [SchedInv], [KernelInv] - the invariant: run queues, bitmap, wait queues,
      thread states, current threads and timer queues agree ([kinv]).
      [SchedOps], [ThreadLife] - every operation keeps it and has the effect stated.
      [System] - the transition system of all calls; [reachable_safe] and
      [reachable_consistent] hold in every state reachable from boot.
      [SchedRun] - executable runs, which also serve as witnesses.
    - [SchedSpec], [Fair], [TimerSpec] - which thread runs next, in which order
      waiters are served, that a ready thread is not starved by its peers
      ([round_robin_live]), and that [timer_tick] runs exactly the due timers.
    - [Sync] - [kernel/mutex.c], [semaphore.c], [event.c].  [MutexSpec] and [SemSpec]
      refine them to small abstract machines, [EventSpec] gives the contract of
      events and evaluates interleavings with timeouts that the code does not handle.
    - [Bits] - [include/align.h], [top/include/lk/pow2.h].
    - [Pmm] - [kernel/vm/pmm.c].  [PmmInv] is its invariant; [PmmSpec] and
      [PmmRange] say which pages each call takes and gives back, soundness and
      completeness of the search for a contiguous run included.
    - [Vmm] - [kernel/vm/vmm.c].  [VmmSpec]: regions never overlap and [alloc_spot]
      is a correct first fit, also at the end of the address space; [VmmAlloc] and
      [VmmAllocSpec]: allocation is all or nothing and freeing gives everything
      back.  [Vm] - [kernel/vm/vm.c] and [bootalloc.c].
    - [Ring] - ring arrays as sequences, shared by ports and circular buffers.
    - [Port] - [kernel/port.c].  [PortBuf]: its packet buffers refine a bounded
      queue.  [PortInv], [PortSafe], [PortSystem]: the links between ports, groups
      and buffers stay consistent and no call on a valid handle goes wrong
      ([ports_reachable_safe]).  [PortWrite], [PortRead], [PortClose]: what each
      call does.
    - [Cbuf] - [lib/cbuf/cbuf.c].  [CbufRing]: the block copies agree with copying
      byte by byte; [CbufSpec]: the buffer is a queue of bytes, and no reader sleeps
      while there is data.
    - [Bytes] - copies between arrays of bytes, shared by what follows.
    - [Bio] - [lib/bio/bio.c], [subdev.c] and [mem.c].  [BioSpec] says what a device
      stands for, an interval of the bytes of the driver at the bottom of its
      parents, and the class of laws a driver obeys.  [BioBytes], [BioApi]: reads and
      writes of any offset and length, through any nesting of sub-devices, move
      exactly those bytes and leave other devices alone ([bio_write_isolated]);
      [BioReg]: publication of sub-devices, erasure, memory devices.
      [BioRun]: a driver that is an array, runs and limits.
    - [Bcache] - [lib/bcache/bcache.c], on the pointer lists of [ListH] and on [Bio].
      [BcacheData]: each block is on one of the two lists, no block
      number is cached twice, and a clean block agrees with the device.
      [BcacheSpec], [BcacheOps]: every operation keeps this.  [BcacheSeq]: the
      cache is transparent ([bcache_refines]).  [BcacheRun]: runs and limits.
    - [Miniheap] - [lib/heap/miniheap/miniheap.c] and the calls of
      [lib/heap/heap_wrapper.c] on it.  [MiniheapSpec]: every byte of the heap is
      free or allocated, once, and what each operation does to it.  [MiniheapSys]: the transition system of [malloc],
      [free] and the others ([heap_reachable_safe]).  [MiniheapRun]: the contracts,
      runs and limits.
    - [Novm] - [kernel/novm/novm.c].  [NovmRun]: the search for pages is sound and
      complete, the set-up of an arena, and that it is a page allocator for the heap
      ([novm_feeds_heap]).
    - [Mem] - a flat memory of bytes, with words read and written at aligned
      addresses only, under everything that follows.
    - [Libc] - [lib/libc/string] and [ctype.c].  [LibcMem]: the copies and fills that
      move words where they can move the bytes for every alignment and overlap.
      [LibcStr]: the functions on strings against lists of characters.  [LibcRun]:
      theorems, runs and limits.
    - [Strto] - [strtol.c], [strtoll.c], [atoi.c].  [StrtoSpec]: they read the numeral
      there is, for every base, and clamp it.
    - [Printf] - [printf.c].  [PrintfSim]: the digits of numbers, and that [vsnprintf]
      only truncates; [PrintfSpec]: what the engine prints for the formats of
      integers; [PrintfDouble]: the text of a double fits its buffer; [PrintfRun]:
      theorems, the round trip through [strtol], runs and limits.
    - [Sort] - [qsort.c], [bsearch.c], [rand.c].  [SortSpec], [SortLoops]: exchange of
      elements, insertion, choice of the pivot, partition.  [SortRun]: [qsort] sorts
      and [bsearch] finds, runs and limits.
    - [Net] - [lib/minip]: [pktbuf.c], [chksum.c], [arp.c], [udp.c], the sending side of
      [minip.c], and [lib/iovec/iovec.c].  [NetSpec]: checksums, packets, the pool they
      come from, the way of a packet to the driver, and UDP.
    - [Tcp] - [lib/minip/tcp.c], [net_timer.c] and the receiving side of [minip.c].
      [TcpSpec]: segments, and what each handler, timer and call does to an established
      connection, whose stream is ghost state.  [TcpRun]: two hosts and a network that
      loses, repeats and reorders frames; what one end reads is a prefix of what the other
      wrote and nothing that was written is lost ([connection_streams],
      [connection_kept]), events do not go wrong but for the overlap that
      [overlap_panics] describes ([connection_safe]); a connection set up by the code
      itself, runs and limits.

    ** Parameters, bounds and fuel

    What [malloc] returns is an argument of the functions that call it, so that
    failure is covered.  The page-table code of the architecture is a parameter of
    [Vmm] that answers the calls made to it, which are recorded; the hardware timer,
    inter-processor interrupts and context switches are recorded as events.
    Timer callbacks are a parameter of [timer_tick], instantiated in [Thread].
    Drivers of block devices are a class whose laws the theorems on [Bio] assume and
    [BioRun] proves of an array.  The pages the heap asks for are an argument of its
    calls, with the hypothesis that they are fresh, which [NovmRun] proves.  The
    comparison that [qsort] and [bsearch] call is a parameter with the hypotheses that
    it reads the two elements and implements a total order.  The network driver is a list
    of the frames given to it and calls the stack with the frames that arrive; the answers
    that come while an address is being resolved are part of the state of [Net], and the
    initial sequence numbers arguments of [Tcp].  The theorems on connections assume
    that 32 objects of the packet pool are free before an event, which its size of 256
    provides, and streams of less than 2^30 bytes, so that sequence numbers compare as
    the positions they stand for; the initial numbers are arbitrary, so they may wrap.
    In the C library [char] is
    unsigned, [long] and pointers have 64 bits, and integers are stored lowest byte
    first.

    Loops that are not structural have fuel, and running out of it is [None]; since
    [wp] excludes [None], the theorems also show that the fuel is enough: 32 rounds
    for the priorities in [get_top_thread], twice the length of the queue in
    [timer_tick], the pages of an arena or the length of the list in [Pmm], two
    passes over the array in [cbuf_write] and [cbuf_read], two rounds of
    [cbuf_read] between two waits, the number of blocks of a transfer in [Bio], the
    number of blocks of the cache in [Bcache], the pages of an arena in [Novm], the
    bytes of the memory in the loops over strings, the number of elements in [qsort],
    one more than the bits of that number in [bsearch], one more than the due timers in
    [net_timer_work_routine], the pending bytes in [tcp_write_pending_data].  The argument [bound] of the
    functions of [Printf] bounds the conversions of a format.  The argument [n] of the
    calls on block devices is a bound on the nesting of sub-devices, and any bound that
    is at least the depth will do.

    ** Not modelled

    Assembly, page tables and register access ([arch], [dev], [platform],
    [target]) are hardware.  The allocator [cmpctmalloc], the streams of the C library,
    file systems, the DHCP and TFTP clients, the console, and the C++ libraries are not
    modelled; neither are tracing and the dump commands of the modelled files.  The
    theorems on connections are about established ones; how they are set up and closed is
    modelled and evaluated on runs.  Memory ordering
    is not modelled: the calls of a component are atomic between its lock operations,
    as its lock makes them. *)

From stdpp Require Export ssreflect.
From stdpp Require Export prelude gmap strings list fin_maps sorting.
From Stdlib Require Export ZArith Lia.

#[global] Open Scope Z_scope.

(** ** Machine integers

    A [w]-bit integer is a [Z]; every arithmetic operation of the source that
    can leave the range is followed by the wrap of its type. *)

Definition u8 (z : Z) : Z := z mod 2 ^ 8.

Definition u16 (z : Z) : Z := z mod 2 ^ 16.

Definition u32 (z : Z) : Z := z mod 2 ^ 32.

Definition u64 (z : Z) : Z := z mod 2 ^ 64.

Definition s8 (z : Z) : Z := (z + 2 ^ 7) mod 2 ^ 8 - 2 ^ 7.

Definition s32 (z : Z) : Z := (z + 2 ^ 31) mod 2 ^ 32 - 2 ^ 31.

Definition s64 (z : Z) : Z := (z + 2 ^ 63) mod 2 ^ 64 - 2 ^ 63.

(** ** Status codes, [src/mk/top/include/lk/err.h] *)

Definition NO_ERROR : Z := 0.
Definition ERR_GENERIC : Z := -1.
Definition ERR_NOT_FOUND : Z := -2.
Definition ERR_NOT_READY : Z := -3.
Definition ERR_NO_MSG : Z := -4.
Definition ERR_NO_MEMORY : Z := -5.
Definition ERR_INVALID_ARGS : Z := -8.
Definition ERR_NOT_ENOUGH_BUFFER : Z := -9.
Definition ERR_OBJECT_DESTROYED : Z := -11.
Definition ERR_NOT_BLOCKED : Z := -12.
Definition ERR_TIMED_OUT : Z := -13.
Definition ERR_ALREADY_EXISTS : Z := -14.
Definition ERR_NOT_ALLOWED : Z := -17.
Definition ERR_TOO_BIG : Z := -25.
Definition ERR_CANCELLED : Z := -26.
Definition ERR_BUSY : Z := -33.
Definition ERR_THREAD_DETACHED : Z := -34.
Definition ERR_OUT_OF_RANGE : Z := -37.
Definition ERR_BAD_HANDLE : Z := -42.
Definition ERR_PARTIAL_WRITE : Z := -44.

(** ** The state and failure monad

    [M S A] is a computation on a state [S] that returns an [A] or stops:
    [None] is a failed [DEBUG_ASSERT], a [panic] or the dereference of a
    pointer that names no object. *)

Definition M (S A : Type) : Type := S → option (A * S).

#[global] Instance M_ret S : MRet (M S) := λ A a s, Some (a, s).

#[global] Instance M_bind S : MBind (M S) :=
  λ A B k m s, match m s with Some (a, s') => k a s' | None => None end.

Definition gets {S A} (f : S → A) : M S A := λ s, Some (f s, s).

Definition modify {S} (f : S → S) : M S unit := λ s, Some ((), f s).

Definition fail {S A} : M S A := λ _, None.

(** [DEBUG_ASSERT(b)] *)
Definition assert {S} (b : bool) : M S unit := if b then mret () else fail.

(** [if (b) { m }] with no [else] *)
Definition when {S} (b : bool) (m : M S unit) : M S unit := if b then m else mret ().

(** Dereference of an object found by a partial lookup. *)
Definition deref {S A} (f : S → option A) : M S A :=
  λ s, match f s with Some a => Some (a, s) | None => None end.

(** [wp m Q s]: from [s] the computation [m] does not fail, and its result and
    final state satisfy [Q]. *)
Definition wp {S A} (m : M S A) (Q : A → S → Prop) (s : S) : Prop :=
  match m s with Some (a, s') => Q a s' | None => False end.

Create HintDb mk.

Section wp_rules.
Context {S A B : Type}.
Implicit Types (Q : A → S → Prop) (s : S).

Lemma wp_ret (a : A) Q s : Q a s → wp (mret a) Q s.
Proof. done. Qed.

Lemma wp_bind (m : M S A) (k : A → M S B) (Q : B → S → Prop) s :
  wp m (λ a, wp (k a) Q) s → wp (m ≫= k) Q s.
Proof. rw /wp /mbind /M_bind. by destruct (m s) as [[a s']|]. Qed.

Lemma wp_bind_inv (m : M S A) (k : A → M S B) (Q : B → S → Prop) s :
  wp (m ≫= k) Q s → wp m (λ a, wp (k a) Q) s.
Proof. rw /wp /mbind /M_bind. by destruct (m s) as [[a s']|]. Qed.

Lemma wp_mono (m : M S A) Q Q' s :
  wp m Q s → (∀ a s', Q a s' → Q' a s') → wp m Q' s.
Proof. rw /wp. destruct (m s) as [[a s']|]; naive_solver. Qed.

Lemma wp_gets (f : S → A) Q s : Q (f s) s → wp (gets f) Q s.
Proof. done. Qed.

Lemma wp_deref (f : S → option A) a Q s : f s = Some a → Q a s → wp (deref f) Q s.
Proof. rw /wp /deref. by intros ->. Qed.

Lemma wp_modify (f : S → S) (Q : unit → S → Prop) s : Q () (f s) → wp (modify f) Q s.
Proof. done. Qed.

Lemma wp_assert b (Q : unit → S → Prop) s : b = true → Q () s → wp (assert b) Q s.
Proof. by intros ->. Qed.

Lemma wp_when (b : bool) (m : M S unit) (Q : unit → S → Prop) s :
  (b = true → wp m Q s) → (b = false → Q () s) → wp (when b m) Q s.
Proof. destruct b; intros H1 H2; [by apply H1 | by apply H2]. Qed.

Lemma wp_if (b : bool) (m1 m2 : M S A) Q s :
  (b = true → wp m1 Q s) → (b = false → wp m2 Q s) → wp (if b then m1 else m2) Q s.
Proof. destruct b; auto. Qed.

Lemma wp_run (m : M S A) Q s :
  wp m Q s ↔ ∃ a s', m s = Some (a, s') ∧ Q a s'.
Proof.
  rw /wp. split.
  - destruct (m s) as [[a s']|]; [|done]. by exists a, s'.
  - by intros (a & s' & -> & HQ).
Qed.
End wp_rules.

Lemma wp_seq_assoc {S A} (m1 m2 : M S unit) (k : M S A) (Q : A → S → Prop) (s : S) :
  wp (m1;; m2) (λ _, wp k Q) s → wp (m1;; m2;; k) Q s.
Proof. intros W. apply wp_bind. apply wp_bind_inv in W. eapply wp_mono; [exact W|]. intros u s'. apply wp_bind. Qed.

(** One symbolic-execution step; the side conditions of asserts and
    dereferences are left as goals when [auto] does not close them. *)
Ltac wp_step :=
  lazymatch goal with
  | |- wp (mbind _ _) _ _ => apply wp_bind
  | |- wp (mret _) _ _ => apply wp_ret
  | |- wp (gets _) _ _ => apply wp_gets
  | |- wp (modify _) _ _ => apply wp_modify
  | |- wp (assert _) _ _ => apply wp_assert
  | |- wp (deref _) _ _ => eapply wp_deref
  end; cbv beta.

Ltac wp_steps := repeat (wp_step; try (by eauto with mk)).

(** Case analysis on the scrutinee of a match or a conditional. *)
Ltac case_scrut :=
  match goal with
  | |- context [match ?x with _ => _ end] => destruct x eqn:?
  | |- context [if ?x then _ else _] => destruct x eqn:?
  end.

(** Boolean tests of the source as propositions, in every hypothesis. *)
Ltac to_prop :=
  repeat match goal with
  | H : (_ && _)%bool = true |- _ => apply andb_true_iff in H as [? ?]
  | H : (_ || _)%bool = false |- _ => apply orb_false_iff in H as [? ?]
  | H : negb _ = true |- _ => apply negb_true_iff in H
  | H : negb _ = false |- _ => apply negb_false_iff in H
  | H : (_ <? _) = true |- _ => apply Z.ltb_lt in H
  | H : (_ <? _) = false |- _ => apply Z.ltb_ge in H
  | H : (_ <=? _) = true |- _ => apply Z.leb_le in H
  | H : (_ <=? _) = false |- _ => apply Z.leb_gt in H
  | H : (_ =? _) = true |- _ => apply Z.eqb_eq in H
  | H : (_ =? _) = false |- _ => apply Z.eqb_neq in H
  | H : (_ >? _) = _ |- _ => rw Z.gtb_ltb in H
  | H : (_ >=? _) = _ |- _ => rw Z.geb_leb in H
  | H : bool_decide _ = true |- _ => apply bool_decide_eq_true in H
  | H : bool_decide _ = false |- _ => apply bool_decide_eq_false in H
  end.

(** ** Integer lemmas *)

Lemma u32_small z : 0 ≤ z < 2 ^ 32 → u32 z = z.
Proof. apply Z.mod_small. Qed.

Lemma u32_range z : 0 ≤ u32 z < 2 ^ 32.
Proof. by apply Z.mod_pos_bound. Qed.

Lemma u64_small z : 0 ≤ z < 2 ^ 64 → u64 z = z.
Proof. apply Z.mod_small. Qed.

Lemma u64_range z : 0 ≤ u64 z < 2 ^ 64.
Proof. by apply Z.mod_pos_bound. Qed.

Lemma s32_small z : - 2 ^ 31 ≤ z < 2 ^ 31 → s32 z = z.
Proof. intros. rw /s32 Z.mod_small; lia. Qed.

Lemma s32_range z : - 2 ^ 31 ≤ s32 z < 2 ^ 31.
Proof. rw /s32. pose proof (Z.mod_pos_bound (z + 2 ^ 31) (2 ^ 32) eq_refl). lia. Qed.

Lemma s64_small z : - 2 ^ 63 ≤ z < 2 ^ 63 → s64 z = z.
Proof. intros. rw /s64 Z.mod_small; lia. Qed.

#[export] Hint Resolve u32_small u64_small s32_small s64_small u32_range u64_range s32_range : mk.

(** Masking with an all-ones mask is reduction modulo a power of two. *)
Lemma land_ones_mod z n : 0 ≤ n → Z.land z (2 ^ n - 1) = z mod 2 ^ n.
Proof. intros. by rw -Z.land_ones // Z.ones_equiv -Z.sub_1_r. Qed.

(** Clearing the low [n] bits rounds down to a multiple of [2 ^ n]. *)
Lemma ldiff_ones_div z n : 0 ≤ n → Z.ldiff z (2 ^ n - 1) = z / 2 ^ n * 2 ^ n.
Proof.
  intros. replace (2 ^ n - 1) with (Z.ones n) by (rw Z.ones_equiv; lia).
  by rw Z.ldiff_ones_r // Z.shiftl_mul_pow2 // Z.shiftr_div_pow2.
Qed.

(** ** Lists of nodes *)

(** A list without one node. *)
Definition list_without {A} `{EqDecision A} (x : A) (l : list A) : list A :=
  filter (λ y, y ≠ x) l.

Lemma list_without_elem {A} `{EqDecision A} (x y : A) l :
  y ∈ list_without x l ↔ y ≠ x ∧ y ∈ l.
Proof. by rw /list_without list_elem_of_filter. Qed.

Lemma list_without_nodup {A} `{EqDecision A} (x : A) l : NoDup l → NoDup (list_without x l).
Proof. apply NoDup_filter. Qed.

Lemma list_without_id {A} `{EqDecision A} (x : A) l : x ∉ l → list_without x l = l.
Proof.
  induction l as [|y l IH]; [done|]. intros [? ?]%not_elem_of_cons.
  rw /list_without filter_cons_True //. f_equal. by apply IH.
Qed.

Lemma list_without_head {A} `{EqDecision A} (x : A) l : NoDup (x :: l) → list_without x (x :: l) = l.
Proof.
  intros [? _]%NoDup_cons. rw /list_without filter_cons_False; [by apply list_without_id|by intros []].
Qed.

Lemma list_without_perm {A} `{EqDecision A} (x : A) l : NoDup l → x ∈ l → x :: list_without x l ≡ₚ l.
Proof.
  intros Hnd Hin. apply list_elem_of_split in Hin as (l1 & l2 & ->).
  apply NoDup_app in Hnd as (_ & Hd & [Hn2 _]%NoDup_cons).
  rw /list_without filter_app filter_cons_False; [|by intros []].
  fold (list_without x l1) (list_without x l2). rw !list_without_id //; [by rw Permutation_middle|].
  intros Hx. apply (Hd _ Hx). apply elem_of_cons. auto.
Qed.

Lemma list_without_length {A} `{EqDecision A} (x : A) l :
  NoDup l → x ∈ l → Z.of_nat (length (list_without x l)) = Z.of_nat (length l) - 1.
Proof. intros Hnd Hin. pose proof (Permutation_length (list_without_perm x l Hnd Hin)) as E. simpl in E. lia. Qed.

Lemma elem_of_take_list {A} n (x : A) l : x ∈ take n l → x ∈ l.
Proof. intros Hx. rw -(take_drop n l) elem_of_app. by left. Qed.
