(* ===== verification/ListH.v ===== *)
(** * Intrusive doubly linked lists, [src/mk/top/include/lk/list.h]

    The header's lists are circular, with a sentinel node.  [heap] maps the
    address of each [struct list_node] to its two fields and every operation
    is the header's sequence of loads and stores.  [dll h hd l] says that the
    ring at sentinel [hd] holds the nodes [l] in order; the theorems show that
    the pointer operations implement the sequence operations by which the other
    files model their queues. *)

From S2P Require Import Prelude.

(** [struct list_node]; the address 0 is [NULL]. *)
Record list_node := ListNode { prev : Z; next : Z }.

Abbreviation heap := (gmap Z list_node).

Abbreviation HM := (M heap).

(** Loads and stores of the two fields; a store to an address that holds no
    node is an invalid access. *)
Definition load_prev (a : Z) : HM Z := deref (λ h, prev <$> h !! a).

Definition load_next (a : Z) : HM Z := deref (λ h, next <$> h !! a).

Definition set_prev (a v : Z) (h : heap) : heap := alter (λ n, ListNode v (next n)) a h.

Definition set_next (a v : Z) (h : heap) : heap := alter (λ n, ListNode (prev n) v) a h.

Definition store_prev (a v : Z) : HM unit :=
  deref (λ h : heap, h !! a);; modify (set_prev a v).

Definition store_next (a v : Z) : HM unit :=
  deref (λ h : heap, h !! a);; modify (set_next a v).

Definition list_initialize (list : Z) : HM unit :=
  store_next list list;; store_prev list list.

Definition list_clear_node (item : Z) : HM unit :=
  store_next item 0;; store_prev item 0.

Definition list_in_list (item : Z) : HM bool :=
  p ← load_prev item; n ← load_next item;
  mret (if (p =? 0) && (n =? 0) then false else true).

Definition list_add_head (list item : Z) : HM unit :=
  n ← load_next list;
  store_next item n;;
  store_prev item list;;
  n' ← load_next list;
  store_prev n' item;;
  store_next list item.

Definition list_add_tail (list item : Z) : HM unit :=
  p ← load_prev list;
  store_prev item p;;
  store_next item list;;
  p' ← load_prev list;
  store_next p' item;;
  store_prev list item.

Definition list_delete (item : Z) : HM unit :=
  p ← load_prev item; n ← load_next item;
  store_prev n p;;
  p' ← load_prev item; n' ← load_next item;
  store_next p' n';;
  store_next item 0;;
  store_prev item 0.

Definition list_remove_head (list : Z) : HM Z :=
  n ← load_next list;
  if negb (n =? list) then item ← load_next list; list_delete item;; mret item
  else mret 0.

Definition list_remove_tail (list : Z) : HM Z :=
  p ← load_prev list;
  if negb (p =? list) then item ← load_prev list; list_delete item;; mret item
  else mret 0.

Definition list_peek_head (list : Z) : HM Z :=
  n ← load_next list;
  if negb (n =? list) then load_next list else mret 0.

Definition list_peek_tail (list : Z) : HM Z :=
  p ← load_prev list;
  if negb (p =? list) then load_prev list else mret 0.

Definition list_prev (list item : Z) : HM Z :=
  p ← load_prev item;
  if negb (p =? list) then load_prev item else mret 0.

Definition list_next (list item : Z) : HM Z :=
  n ← load_next item;
  if negb (n =? list) then load_next item else mret 0.

Definition list_prev_wrap (list item : Z) : HM Z :=
  p ← load_prev item;
  if negb (p =? list) then load_prev item
  else pp ← load_prev p;
       if negb (pp =? list) then mret pp else mret 0.

Definition list_next_wrap (list item : Z) : HM Z :=
  n ← load_next item;
  if negb (n =? list) then load_next item
  else nn ← load_next n;
       if negb (nn =? list) then mret nn else mret 0.

Definition list_is_empty (list : Z) : HM bool :=
  n ← load_next list; mret (n =? list).

(** The loop of [list_for_every]: from [node], the nodes visited until the
    sentinel is reached.  [None] when the walk leaves the heap or the fuel. *)
Fixpoint list_for_every (fuel : nat) (hd node : Z) : HM (list Z) :=
  if node =? hd then mret []
  else match fuel with
       | O => fail
       | S f => n ← load_next node; rest ← list_for_every f hd n; mret (node :: rest)
       end.

Definition list_length (fuel : nat) (list : Z) : HM Z :=
  n ← load_next list; visited ← list_for_every fuel list n;
  mret (Z.of_nat (length visited)).

(** ** The representation predicate *)

Definition nxt (h : heap) (a : Z) : option Z := next <$> h !! a.

Definition prv (h : heap) (a : Z) : option Z := prev <$> h !! a.

(** [link h a b]: node [a]'s successor is [b] and [b]'s predecessor is [a]. *)
Definition link (h : heap) (a b : Z) : Prop := nxt h a = Some b ∧ prv h b = Some a.

(** Consecutive elements of [l] are linked. *)
Fixpoint seg (h : heap) (l : list Z) : Prop :=
  match l with
  | x :: ((y :: _) as l') => link h x y ∧ seg h l'
  | _ => True
  end.

(** The ring at sentinel [hd] holds exactly [l]. *)
Definition dll (h : heap) (hd : Z) (l : list Z) : Prop :=
  NoDup (hd :: l) ∧ (0 ∉ hd :: l) ∧ seg h (hd :: l ++ [hd]).

(** The nodes outside [xs] are unchanged. *)
Definition frame (xs : list Z) (h h' : heap) : Prop := ∀ a, a ∉ xs → h' !! a = h !! a.

(** ** Lemmas on loads, stores and segments *)

Lemma nxt_set_next a v h b :
  nxt (set_next a v h) b = if decide (a = b) then (λ _, v) <$> nxt h b else nxt h b.
Proof. rw /nxt /set_next lookup_alter. case_decide as E; [|done]. subst. by destruct (h !! b). Qed.

Lemma nxt_set_prev a v h b : nxt (set_prev a v h) b = nxt h b.
Proof. rw /nxt /set_prev lookup_alter. case_decide; [|done]. subst. by destruct (h !! b). Qed.

Lemma prv_set_prev a v h b :
  prv (set_prev a v h) b = if decide (a = b) then (λ _, v) <$> prv h b else prv h b.
Proof. rw /prv /set_prev lookup_alter. case_decide as E; [|done]. subst. by destruct (h !! b). Qed.

Lemma prv_set_next a v h b : prv (set_next a v h) b = prv h b.
Proof. rw /prv /set_next lookup_alter. case_decide; [|done]. subst. by destruct (h !! b). Qed.

Lemma wp_load_next a n (Q : Z → heap → Prop) h : nxt h a = Some n → Q n h → wp (load_next a) Q h.
Proof. intros. by eapply wp_deref. Qed.

Lemma wp_load_prev a n (Q : Z → heap → Prop) h : prv h a = Some n → Q n h → wp (load_prev a) Q h.
Proof. intros. by eapply wp_deref. Qed.

Lemma wp_store_next a v (Q : unit → heap → Prop) h :
  is_Some (nxt h a) → Q () (set_next a v h) → wp (store_next a v) Q h.
Proof.
  intros [x (n & Hn & _)%fmap_Some] HQ. apply wp_bind. by eapply wp_deref.
Qed.

Lemma wp_store_prev a v (Q : unit → heap → Prop) h :
  is_Some (prv h a) → Q () (set_prev a v h) → wp (store_prev a v) Q h.
Proof.
  intros [x (n & Hn & _)%fmap_Some] HQ. apply wp_bind. by eapply wp_deref.
Qed.

Lemma is_Some_prv_nxt h a : is_Some (prv h a) ↔ is_Some (nxt h a).
Proof. by rw /prv /nxt !fmap_is_Some. Qed.

(** Symbolic execution of one pointer access. *)
Ltac heap_step :=
  lazymatch goal with
  | |- wp (mbind _ _) _ _ => apply wp_bind
  | |- wp (load_next _) _ _ => eapply wp_load_next
  | |- wp (load_prev _) _ _ => eapply wp_load_prev
  | |- wp (store_next _ _) _ _ => apply wp_store_next
  | |- wp (store_prev _ _) _ _ => apply wp_store_prev
  | |- wp (mret _) _ _ => apply wp_ret
  end; cbv beta.

Ltac heap_simpl := rw ?(nxt_set_next, nxt_set_prev, prv_set_prev, prv_set_next).

Lemma seg_app h l1 x l2 : seg h (l1 ++ x :: l2) ↔ seg h (l1 ++ [x]) ∧ seg h (x :: l2).
Proof.
  induction l1 as [|a [|b l1] IH]; simpl in *; [tauto|destruct l2; simpl; tauto|tauto].
Qed.

Lemma seg_ext h h' l b :
  seg h (l ++ [b]) →
  (∀ y, y ∈ l → nxt h' y = nxt h y) →
  (∀ y, y ∈ tail (l ++ [b]) → prv h' y = prv h y) →
  seg h' (l ++ [b]).
Proof.
  revert h h'. induction l as [|x l IH]; intros h h' Hs Hn Hp; [done|].
  destruct l as [|y l]; simpl in *.
  - destruct Hs as [[E1 E2] _]. split; [|done].
    split; [rw Hn | rw Hp]; try done; set_solver.
  - destruct Hs as [[E1 E2] Hs]. split.
    + split; [rw Hn | rw Hp]; try done; set_solver.
    + apply (IH h h'); [done|set_solver|set_solver].
Qed.

(** A duplicate-free ring cut between two neighbours [p] and [n]. *)
Lemma ring_cut (hd : Z) l1 l2 p n A B :
  NoDup (hd :: l1 ++ l2) → hd :: l1 = A ++ [p] → l2 ++ [hd] = n :: B →
  p ∉ A ∧ p ∉ l2 ∧ n ∉ l1 ∧ n ∉ B ∧ A ⊆ hd :: l1 ∧ B ⊆ l2 ++ [hd] ∧
  p ∈ hd :: l1 ∧ n ∈ l2 ++ [hd].
Proof.
  intros Hnd HA HB. assert (n ∉ l1 ∧ n ∉ B) as [? ?].
  { destruct l2 as [|n' l2]; simplify_list_eq.
    - apply NoDup_cons in Hnd as [? _]. set_solver.
    - apply NoDup_cons in Hnd as [? Hnd]. apply NoDup_app in Hnd as (_ & ? & Hnd).
      apply NoDup_cons in Hnd as [? _]. set_solver. }
  rw HA HB. rw app_comm_cons HA in Hnd. apply NoDup_app in Hnd as (Hnd & ? & _).
  apply NoDup_app in Hnd as (_ & ? & _). set_solver.
Qed.

(** The list of a ring around an element, with the neighbours in evidence. *)
Lemma ring_app (hd : Z) l1 l2 p A :
  hd :: l1 = A ++ [p] → hd :: (l1 ++ l2) ++ [hd] = A ++ p :: l2 ++ [hd].
Proof.
  intros HA. change (A ++ p :: l2 ++ [hd]) with (A ++ [p] ++ l2 ++ [hd]).
  rw (app_assoc A) -HA /=. by rw -app_assoc.
Qed.

Lemma ring_middle (hd : Z) l1 x l2 : hd :: l1 ++ x :: l2 ≡ₚ x :: hd :: l1 ++ l2.
Proof. rw -Permutation_middle. apply Permutation_swap. Qed.

Lemma dll_cut h hd l1 l2 p n A B :
  dll h hd (l1 ++ l2) → hd :: l1 = A ++ [p] → l2 ++ [hd] = n :: B →
  link h p n ∧ p ∈ hd :: l1 ∧ n ∈ l2 ++ [hd].
Proof.
  intros (_ & _ & Hs) HA HB. rw (ring_app _ _ _ _ _ HA) HB seg_app in Hs.
  destruct Hs as [_ [? _]]. rw HA HB. set_solver.
Qed.

(** Linking [x] between the neighbours [p] and [n] of the ring. *)
Lemma dll_link_between h h' hd l1 l2 p n A B x :
  dll h hd (l1 ++ l2) → hd :: l1 = A ++ [p] → l2 ++ [hd] = n :: B →
  x ≠ 0 → x ∉ hd :: l1 ++ l2 → is_Some (nxt h x) →
  (∀ a, nxt h' a = if decide (p = a) then Some x else
                   if decide (x = a) then Some n else nxt h a) →
  (∀ a, prv h' a = if decide (n = a) then Some x else
                   if decide (x = a) then Some p else prv h a) →
  dll h' hd (l1 ++ x :: l2).
Proof.
  intros (Hnd & H0 & Hs) HA HB Hx0 Hx _.
  destruct (ring_cut _ _ _ _ _ _ _ Hnd HA HB) as (HpA & Hpl2 & Hnl1 & HnB & HsA & HsB & ? & ?).
  assert (p ≠ x ∧ n ≠ x ∧ x ∉ A ∧ x ∉ B ∧ x ∉ l1 ∧ x ∉ l2) as (? & ? & HxA & HxB & Hx1 & Hx2)
    by set_solver.
  assert (NoDup (hd :: l1 ++ x :: l2)) as Hnd' by (rw ring_middle; by apply NoDup_cons).
  assert (0 ∉ hd :: l1 ++ x :: l2) as H0' by set_solver.
  rw (ring_app _ _ _ _ _ HA) HB seg_app in Hs. destruct Hs as [Hs1 [_ Hs2]].
  intros Hn Hp. split_and!; [done..|].
  rw (ring_app _ _ _ _ _ HA) /= HB. apply seg_app. split.
  - apply (seg_ext h); [done| |].
    + intros y Hy. rw Hn !decide_False //; congruence.
    + rw -HA /=. intros y Hy. rw Hp !decide_False //; congruence.
  - split; [|split].
    + split; [by rw Hn decide_True|]. by rw Hp decide_False // decide_True.
    + split; [|by rw Hp decide_True]. by rw Hn decide_False // decide_True.
    + rw -HB. rw -HB in Hs2. apply (seg_ext h); [done| |].
      * intros y Hy. rw Hn !decide_False //; congruence.
      * rw HB /=. intros y Hy. rw Hp !decide_False //; congruence.
Qed.

(** [list_add_after(p, x)]: the new node follows [p], which is the sentinel or
    any node of the ring. *)
Lemma list_add_after_spec h hd l1 l2 p A x :
  dll h hd (l1 ++ l2) → hd :: l1 = A ++ [p] →
  x ≠ 0 → x ∉ hd :: l1 ++ l2 → is_Some (nxt h x) →
  wp (list_add_head p x)
     (λ _ h', dll h' hd (l1 ++ x :: l2) ∧ frame (x :: hd :: l1 ++ l2) h h') h.
Proof.
  intros Hd HA Hx0 Hx Hsx.
  destruct (l2 ++ [hd]) as [|n B] eqn:HB; [by destruct l2|].
  destruct (dll_cut _ _ _ _ _ _ _ _ Hd HA HB) as ([Hpn Hnp] & ? & ?).
  assert (x ≠ p ∧ x ≠ n) as [? ?] by set_solver.
  rw /list_add_head.
  heap_step. heap_step; [done|]. heap_step. heap_step; [done|].
  heap_step. heap_step. { heap_simpl. by apply is_Some_prv_nxt. }
  heap_step. heap_step. { heap_simpl. by rw decide_False. }
  heap_step. heap_step. { heap_simpl. by rw decide_False // ?Hnp. }
  heap_step. { heap_simpl. by rw decide_False // ?Hpn. }
  split.
  - eapply (dll_link_between h); try done; intros a; heap_simpl.
    + case_decide; subst; [by rw decide_False // Hpn|]. case_decide; subst; [|done].
      by destruct Hsx as [? ->].
    + case_decide; subst; [by rw decide_False // Hnp|]. case_decide; subst; [|done].
      apply is_Some_prv_nxt in Hsx as [? ->]. done.
  - intros a Ha. rw /set_next /set_prev !lookup_alter_ne //; set_solver.
Qed.

(** [list_add_before(n, x)]: the new node precedes [n]. *)
Lemma list_add_before_spec h hd l1 l2 n B x :
  dll h hd (l1 ++ l2) → l2 ++ [hd] = n :: B →
  x ≠ 0 → x ∉ hd :: l1 ++ l2 → is_Some (nxt h x) →
  wp (list_add_tail n x)
     (λ _ h', dll h' hd (l1 ++ x :: l2) ∧ frame (x :: hd :: l1 ++ l2) h h') h.
Proof.
  intros Hd HB Hx0 Hx Hsx.
  destruct (exists_last (l := hd :: l1)) as (A & p & HA); [done|].
  destruct (dll_cut _ _ _ _ _ _ _ _ Hd HA HB) as ([Hpn Hnp] & ? & ?).
  assert (x ≠ p ∧ x ≠ n) as [? ?] by set_solver.
  rw /list_add_tail.
  heap_step. heap_step; [done|]. heap_step. heap_step; [by apply is_Some_prv_nxt|].
  heap_step. heap_step; [by heap_simpl|].
  heap_step. heap_step. { heap_simpl. by rw decide_False. }
  heap_step. heap_step. { heap_simpl. by rw decide_False // ?Hpn. }
  heap_step. { heap_simpl. by rw decide_False // ?Hnp. }
  split.
  - eapply (dll_link_between h); try done; intros a; heap_simpl.
    + case_decide; subst; [by rw decide_False // Hpn|]. case_decide; subst; [|done].
      by destruct Hsx as [? ->].
    + case_decide; subst; [by rw decide_False // Hnp|]. case_decide; subst; [|done].
      apply is_Some_prv_nxt in Hsx as [? ->]. done.
  - intros a Ha. rw /set_next /set_prev !lookup_alter_ne //; set_solver.
Qed.

(** The two neighbours of a node of the ring. *)
Lemma dll_neighbours h hd l1 x l2 A p n B :
  dll h hd (l1 ++ x :: l2) → hd :: l1 = A ++ [p] → l2 ++ [hd] = n :: B →
  link h p x ∧ link h x n.
Proof.
  intros (_ & _ & Hs) HA HB.
  rw (ring_app _ _ _ _ _ HA) /= HB in Hs. apply seg_app in Hs as [_ (? & ? & _)]. done.
Qed.

Lemma dll_unlink h h' hd l1 x l2 A p n B :
  dll h hd (l1 ++ x :: l2) → hd :: l1 = A ++ [p] → l2 ++ [hd] = n :: B →
  (∀ a, a ≠ x → nxt h' a = if decide (p = a) then Some n else nxt h a) →
  (∀ a, a ≠ x → prv h' a = if decide (n = a) then Some p else prv h a) →
  dll h' hd (l1 ++ l2).
Proof.
  intros (Hnd & H0 & Hs) HA HB.
  assert (NoDup (hd :: l1 ++ l2) ∧ x ∉ hd :: l1 ++ l2) as [Hnd' Hx].
  { rw ring_middle NoDup_cons in Hnd. tauto. }
  destruct (ring_cut _ _ _ _ _ _ _ Hnd' HA HB) as (HpA & Hpl2 & Hnl1 & HnB & HsA & HsB & ? & ?).
  assert (p ≠ x ∧ n ≠ x ∧ x ∉ A ∧ x ∉ B ∧ x ∉ l1 ∧ x ∉ l2) as (? & ? & HxA & HxB & Hx1 & Hx2)
    by set_solver.
  assert (0 ∉ hd :: l1 ++ l2) as H0' by set_solver.
  rw (ring_app _ _ _ _ _ HA) /= HB in Hs.
  apply seg_app in Hs as [Hs1 (_ & _ & Hs2)].
  intros Hn Hp. split_and!; [done..|].
  rw (ring_app _ _ _ _ _ HA) /= HB. apply seg_app. split.
  - apply (seg_ext h); [done| |].
    + intros y Hy. rw Hn ?decide_False //; congruence.
    + rw -HA /=. intros y Hy. rw Hp ?decide_False //; congruence.
  - split.
    + split; [by rw Hn // decide_True|by rw Hp // decide_True].
    + rw -HB. rw -HB in Hs2. apply (seg_ext h); [done| |].
      * intros y Hy. rw Hn ?decide_False //; congruence.
      * rw HB /=. intros y Hy. rw Hp ?decide_False //; congruence.
Qed.

Lemma list_delete_spec h hd l1 x l2 :
  dll h hd (l1 ++ x :: l2) →
  wp (list_delete x)
     (λ _ h', dll h' hd (l1 ++ l2) ∧ nxt h' x = Some 0 ∧ prv h' x = Some 0 ∧
              frame (hd :: l1 ++ x :: l2) h h') h.
Proof.
  intros Hd.
  destruct (exists_last (l := hd :: l1)) as (A & p & HA); [done|].
  destruct (l2 ++ [hd]) as [|n B] eqn:HB; [by destruct l2|].
  destruct (dll_neighbours _ _ _ _ _ _ _ _ _ Hd HA HB) as [[Hpx Hxp] [Hxn Hnx]].
  assert (p ∈ hd :: l1) as Hpin by (rw HA; set_solver).
  assert (n ∈ l2 ++ [hd]) as Hnin by (rw HB; set_solver).
  assert (p ≠ x ∧ n ≠ x) as [? ?].
  { destruct Hd as (Hnd & _). apply NoDup_cons in Hnd as [? Hnd].
    apply NoDup_app in Hnd as (_ & ? & Hnd). apply NoDup_cons in Hnd as [? _]. set_solver. }
  rw /list_delete.
  heap_step. heap_step; [done|]. heap_step. heap_step; [done|].
  heap_step. heap_step. { by rw Hnx. }
  heap_step. heap_step. { heap_simpl. by rw decide_False. }
  heap_step. heap_step. { by heap_simpl. }
  heap_step. heap_step. { heap_simpl. by rw Hpx. }
  heap_step. heap_step. { heap_simpl. by rw decide_False // ?Hxn. }
  heap_step. { heap_simpl. by rw decide_False // ?Hxp. }
  split_and!.
  - eapply (dll_unlink h); try done; intros a Ha; heap_simpl.
    + rw decide_False //. case_decide; subst; [|done]. by rw Hpx.
    + rw decide_False //. case_decide; subst; [|done]. by rw Hnx.
  - heap_simpl. rw decide_True // decide_False // Hxn. done.
  - heap_simpl. rw decide_True // decide_False // Hxp. done.
  - intros a Ha. rw /set_next /set_prev !lookup_alter_ne //; set_solver.
Qed.

(** The sentinel's successor and predecessor. *)
Lemma dll_head h hd l : dll h hd l → nxt h hd = Some (default hd (head l)).
Proof. intros (_ & _ & Hs). destruct l as [|x l]; simpl in Hs; by destruct Hs as [[? _] _]. Qed.

Lemma dll_last h hd l : dll h hd l → prv h hd = Some (default hd (last l)).
Proof.
  intros Hd. destruct (exists_last (l := hd :: l)) as (A & p & HA); [done|].
  rw -(app_nil_r l) in Hd.
  destruct (dll_cut _ _ _ _ p hd A [] Hd HA) as [[_ ->] _]; [done|].
  destruct l as [|x l]; simpl in *.
  - destruct A as [|? []]; simplify_list_eq; done.
  - assert (last (hd :: x :: l) = Some p) as Hl by (rw HA; apply last_snoc).
    rw last_cons_cons in Hl. by rw Hl.
Qed.

Lemma dll_not_sentinel h hd l x : dll h hd l → x ∈ l → x ≠ hd ∧ x ≠ 0.
Proof. intros (Hnd & H0 & _) Hx. apply NoDup_cons in Hnd as [? _]. set_solver. Qed.

Lemma list_for_every_spec h hd l1 l2 f :
  dll h hd (l1 ++ l2) → (length l2 ≤ f)%nat →
  list_for_every f hd (default hd (head l2)) h = Some (l2, h).
Proof.
  revert l1 f. induction l2 as [|x l2 IH]; intros l1 f Hd Hf; simpl.
  - destruct f; simpl; by rw Z.eqb_refl.
  - destruct f as [|f]; simpl in *; [lia|].
    destruct (dll_not_sentinel _ _ _ x Hd) as [Hne _]; [set_solver|].
    destruct (Z.eqb_spec x hd) as [?|_]; [done|].
    destruct (exists_last (l := hd :: l1)) as (A & p & HA); [done|].
    destruct (l2 ++ [hd]) as [|n B] eqn:HB; [by destruct l2|].
    destruct (dll_neighbours _ _ _ _ _ _ _ _ _ Hd HA HB) as [_ [Hxn _]].
    rw /mbind /M_bind /load_next /deref -/(nxt h x) Hxn.
    replace (l1 ++ x :: l2) with ((l1 ++ [x]) ++ l2) in Hd by by rw -app_assoc.
    replace n with (default hd (head l2)) by by destruct l2; simplify_list_eq.
    rw (IH (l1 ++ [x]) f) //; lia.
Qed.

(** A ring does not notice changes elsewhere. *)
Lemma dll_frame h h' hd l xs : dll h hd l → frame xs h h' → (∀ a, a ∈ hd :: l → a ∉ xs) → dll h' hd l.
Proof.
  intros (Hnd & H0 & Hs) Hf Hd. split_and!; [done..|]. rw app_comm_cons. rw app_comm_cons in Hs.
  eapply seg_ext; [done|intros y Hy; by rw /nxt Hf; [|auto]|]. intros y Hy. rw /prv Hf; [done|]. apply Hd. simpl in Hy. set_solver.
Qed.

Lemma dll_next h hd l1 x l2 : dll h hd (l1 ++ x :: l2) → nxt h x = Some (default hd (head l2)).
Proof.
  intros Hd. destruct (exists_last (l := hd :: l1)) as (A & p & HA); [done|].
  destruct (l2 ++ [hd]) as [|n B] eqn:HB; [by destruct l2|].
  destruct (dll_neighbours _ _ _ _ _ _ _ _ _ Hd HA HB) as [_ [-> _]]. by destruct l2; simplify_list_eq.
Qed.

Lemma dll_node h hd l a : dll h hd l → a ∈ hd :: l → is_Some (nxt h a).
Proof.
  intros Hd [->|(l1 & l2 & ->)%list_elem_of_split]%elem_of_cons; [by rw (dll_head _ _ _ Hd)|by rw (dll_next _ _ _ _ _ Hd)].
Qed.

Lemma wp_list_add_head h hd l x :
  dll h hd l → x ≠ 0 → x ∉ hd :: l → is_Some (nxt h x) →
  wp (list_add_head hd x) (λ _ h', dll h' hd (x :: l) ∧ frame (x :: hd :: l) h h') h.
Proof. intros. by apply (list_add_after_spec h hd [] l hd []). Qed.

Lemma wp_list_add_tail h hd l x :
  dll h hd l → x ≠ 0 → x ∉ hd :: l → is_Some (nxt h x) →
  wp (list_add_tail hd x) (λ _ h', dll h' hd (l ++ [x]) ∧ frame (x :: hd :: l) h h') h.
Proof.
  intros Hd ? Hx ?. rw -(app_nil_r l) in Hd. rw -(app_nil_r l) in Hx. rw -(app_nil_r (x :: hd :: l)) in |- *.
  by apply (list_add_before_spec h hd l [] hd []).
Qed.

Lemma wp_list_remove_head h hd l :
  dll h hd l →
  wp (list_remove_head hd)
     (λ r h', match l with
              | [] => r = 0 ∧ h' = h
              | x :: l' => r = x ∧ dll h' hd l' ∧ nxt h' x = Some 0 ∧ prv h' x = Some 0 ∧ frame (hd :: l) h h'
              end) h.
Proof.
  intros Hd. apply wp_bind. eapply wp_load_next; [by apply dll_head|].
  destruct l as [|x l']; simpl; [by rw Z.eqb_refl|].
  destruct (dll_not_sentinel _ _ _ x Hd) as [Hne _]; [set_solver|].
  rw (proj2 (Z.eqb_neq x hd)) //=. apply wp_bind.
  eapply wp_load_next; [by apply dll_head|]. apply wp_bind.
  eapply wp_mono; [by apply (list_delete_spec h hd [])|].
  intros [] h' (? & ? & ? & ?). apply wp_ret. auto.
Qed.

(** C22: inserting at the head and at the tail of a ring implement [cons] and
    [snoc] on the sequence it holds, and touch no other node. *)
Theorem list_add_refines h hd l x :
  dll h hd l → x ≠ 0 → x ∉ hd :: l → is_Some (h !! x) →
  wp (list_add_head hd x) (λ _ h', dll h' hd (x :: l) ∧ frame (x :: hd :: l) h h') h ∧
  wp (list_add_tail hd x) (λ _ h', dll h' hd (l ++ [x]) ∧ frame (x :: hd :: l) h h') h.
Proof.
  intros Hd Hx0 Hx Hs%(fmap_is_Some next). split.
  - by apply wp_list_add_head.
  - by apply wp_list_add_tail.
Qed.

Definition heap0 : heap := {[ 1 := ListNode 2 2; 2 := ListNode 1 1; 3 := ListNode 0 0 ]}.

Lemma heap0_dll : dll heap0 1 [2].
Proof. split_and!; [|set_solver|done]. apply NoDup_cons; split; [set_solver|apply NoDup_singleton]. Qed.

Lemma list_add_refines_witness :
  dll heap0 1 [2] ∧
  wp (list_add_head 1 3) (λ _ h', dll h' 1 [3; 2] ∧ frame [3; 1; 2] heap0 h') heap0.
Proof.
  split; [apply heap0_dll|].
  apply (list_add_refines heap0 1 [2] 3); [apply heap0_dll|done|set_solver|by eexists].
Defined.



(** Walking a ring terminates: with fuel for its nodes, [list_length]
    returns their number and changes nothing. *)
Theorem list_length_terminates h hd l fuel :
  dll h hd l → (length l ≤ fuel)%nat →
  list_length fuel hd h = Some (Z.of_nat (length l), h).
Proof.
  intros Hd Hf. rw /list_length /mbind /M_bind /load_next /deref -/(nxt h hd) (dll_head _ _ _ Hd).
  by rw (list_for_every_spec h hd []).
Qed.

Lemma list_length_terminates_witness : list_length 1 1 heap0 = Some (1, heap0).
Proof. apply (list_length_terminates heap0 1 [2] 1); [apply heap0_dll|simpl; lia]. Defined.
