(* ===== verification/Kernel.v ===== *)
(** * Kernel objects and kernel state

    The data of the scheduler ([src/mk/include/kernel/thread.h], [wait.h],
    [timer.h], [mp.h] and the static variables of [src/mk/kernel/thread.c] and
    [timer.c]) for an SMP build with dynamic timers and kernel address spaces
    ([WITH_SMP], [PLATFORM_HAS_DYNAMIC_TIMER], [WITH_KERNEL_VM]) whose
    [DEBUG_ASSERT]s are compiled in.

    Intrusive lists are sequences of the containing objects, which [ListH]
    shows the pointer operations to implement; an object pointer is a value of
    an inductive type with one constructor per way the kernel allocates the
    object.  The [THREAD_STATS] counters, the event log and trace output are
    left out. *)

From S2P Require Import Prelude.

(** [&_idle_threads[cpu]] and the threads whose structure the caller or
    [malloc] provides. *)
Inductive thread_ptr :=
| IdleThread (cpu : nat)
| HeapThread (a : positive).

#[global] Instance thread_ptr_eq_dec : EqDecision thread_ptr.
Proof. solve_decision. Defined.

#[global] Instance thread_ptr_countable : Countable thread_ptr.
Proof.
  apply (inj_countable'
    (λ t, match t with IdleThread c => inl c | HeapThread a => inr a end)
    (λ x : nat + positive, match x with inl c => IdleThread c | inr a => HeapThread a end)).
  by intros [].
Defined.

(** [&t->retcode_wait_queue] and the wait queues embedded in other objects
    (mutexes, semaphores, events, ports). *)
Inductive wq_ptr :=
| RetcodeWq (t : thread_ptr)
| ObjWq (a : positive).

#[global] Instance wq_ptr_eq_dec : EqDecision wq_ptr.
Proof. solve_decision. Defined.

#[global] Instance wq_ptr_countable : Countable wq_ptr.
Proof.
  apply (inj_countable'
    (λ t, match t with RetcodeWq c => inl c | ObjWq a => inr a end)
    (λ x : thread_ptr + positive, match x with inl c => RetcodeWq c | inr a => ObjWq a end)).
  by intros [].
Defined.

(** [&preempt_timer[cpu]], the timer a blocked or sleeping thread has on its
    own stack, and the timers of other code. *)
Inductive timer_ptr :=
| PreemptTimer (cpu : nat)
| StackTimer (t : thread_ptr)
| ObjTimer (a : positive).

#[global] Instance timer_ptr_eq_dec : EqDecision timer_ptr.
Proof. solve_decision. Defined.

#[global] Instance timer_ptr_countable : Countable timer_ptr.
Proof.
  apply (inj_countable'
    (λ t, match t with
          | PreemptTimer c => inl c | StackTimer t => inr (inl t) | ObjTimer a => inr (inr a) end)
    (λ x : nat + (thread_ptr + positive),
       match x with
       | inl c => PreemptTimer c | inr (inl t) => StackTimer t | inr (inr a) => ObjTimer a end)).
  by intros [].
Defined.

Inductive thread_state :=
| THREAD_SUSPENDED
| THREAD_READY
| THREAD_RUNNING
| THREAD_BLOCKED
| THREAD_SLEEPING
| THREAD_DEATH.

#[global] Instance thread_state_eq_dec : EqDecision thread_state.
Proof. solve_decision. Defined.

Definition THREAD_FLAG_DETACHED : Z := Z.shiftl 1 0.
Definition THREAD_FLAG_FREE_STACK : Z := Z.shiftl 1 1.
Definition THREAD_FLAG_FREE_STRUCT : Z := Z.shiftl 1 2.
Definition THREAD_FLAG_REAL_TIME : Z := Z.shiftl 1 3.
Definition THREAD_FLAG_IDLE : Z := Z.shiftl 1 4.
Definition THREAD_FLAG_DEBUG_STACK_BOUNDS_CHECK : Z := Z.shiftl 1 5.

Definition THREAD_MAGIC : Z := 0x74687264.
Definition WAIT_QUEUE_MAGIC : Z := 0x77616974.
Definition TIMER_MAGIC : Z := 0x74696D72.

Definition NUM_PRIORITIES : Z := 32.
Definition LOWEST_PRIORITY : Z := 0.
Definition HIGHEST_PRIORITY : Z := NUM_PRIORITIES - 1.
Definition IDLE_PRIORITY : Z := LOWEST_PRIORITY.
Definition DEFAULT_PRIORITY : Z := NUM_PRIORITIES / 2.

Definition INFINITE_TIME : Z := 2 ^ 32 - 1.

Definition MP_CPU_ALL_BUT_LOCAL : Z := 2 ^ 32 - 1.

Definition MP_RESCHEDULE_FLAG_REALTIME : Z := 1.

(** [thread_t]; [retcode_wait_queue] is the wait queue [RetcodeWq t] of the state, the
    [arch] part is not modelled. *)
Record thread := Thread {
  magic : Z;
  priority : Z;
  state : thread_state;
  remaining_quantum : Z;
  flags : Z;
  curr_cpu : Z;
  pinned_cpu : Z;
  aspace : option positive;
  blocking_wait_queue : option wq_ptr;
  wait_queue_block_ret : Z;
  stack : option positive;
  stack_size : Z;
  entry : Z;
  arg : Z;
  retcode : Z;
  tls : list Z;
  name : string;
}.

Definition set_magic (v : Z) (t0 : thread) : thread :=
  Thread v (priority t0) (state t0) (remaining_quantum t0) (flags t0) (curr_cpu t0) (pinned_cpu
    t0) (aspace t0) (blocking_wait_queue t0) (wait_queue_block_ret t0) (stack t0) (stack_size
    t0) (entry t0) (arg t0) (retcode t0) (tls t0) (name t0).

Definition set_priority (v : Z) (t0 : thread) : thread :=
  Thread (magic t0) v (state t0) (remaining_quantum t0) (flags t0) (curr_cpu t0) (pinned_cpu t0)
    (aspace t0) (blocking_wait_queue t0) (wait_queue_block_ret t0) (stack t0) (stack_size t0)
    (entry t0) (arg t0) (retcode t0) (tls t0) (name t0).

Definition set_state (v : thread_state) (t0 : thread) : thread :=
  Thread (magic t0) (priority t0) v (remaining_quantum t0) (flags t0) (curr_cpu t0) (pinned_cpu
    t0) (aspace t0) (blocking_wait_queue t0) (wait_queue_block_ret t0) (stack t0) (stack_size
    t0) (entry t0) (arg t0) (retcode t0) (tls t0) (name t0).

Definition set_remaining_quantum (v : Z) (t0 : thread) : thread :=
  Thread (magic t0) (priority t0) (state t0) v (flags t0) (curr_cpu t0) (pinned_cpu t0) (aspace
    t0) (blocking_wait_queue t0) (wait_queue_block_ret t0) (stack t0) (stack_size t0) (entry t0)
    (arg t0) (retcode t0) (tls t0) (name t0).

Definition set_flags (v : Z) (t0 : thread) : thread :=
  Thread (magic t0) (priority t0) (state t0) (remaining_quantum t0) v (curr_cpu t0) (pinned_cpu
    t0) (aspace t0) (blocking_wait_queue t0) (wait_queue_block_ret t0) (stack t0) (stack_size
    t0) (entry t0) (arg t0) (retcode t0) (tls t0) (name t0).

Definition set_curr_cpu (v : Z) (t0 : thread) : thread :=
  Thread (magic t0) (priority t0) (state t0) (remaining_quantum t0) (flags t0) v (pinned_cpu t0)
    (aspace t0) (blocking_wait_queue t0) (wait_queue_block_ret t0) (stack t0) (stack_size t0)
    (entry t0) (arg t0) (retcode t0) (tls t0) (name t0).

Definition set_pinned_cpu (v : Z) (t0 : thread) : thread :=
  Thread (magic t0) (priority t0) (state t0) (remaining_quantum t0) (flags t0) (curr_cpu t0) v
    (aspace t0) (blocking_wait_queue t0) (wait_queue_block_ret t0) (stack t0) (stack_size t0)
    (entry t0) (arg t0) (retcode t0) (tls t0) (name t0).

Definition set_aspace (v : option positive) (t0 : thread) : thread :=
  Thread (magic t0) (priority t0) (state t0) (remaining_quantum t0) (flags t0) (curr_cpu t0)
    (pinned_cpu t0) v (blocking_wait_queue t0) (wait_queue_block_ret t0) (stack t0) (stack_size
    t0) (entry t0) (arg t0) (retcode t0) (tls t0) (name t0).

Definition set_blocking_wait_queue (v : option wq_ptr) (t0 : thread) : thread :=
  Thread (magic t0) (priority t0) (state t0) (remaining_quantum t0) (flags t0) (curr_cpu t0)
    (pinned_cpu t0) (aspace t0) v (wait_queue_block_ret t0) (stack t0) (stack_size t0) (entry
    t0) (arg t0) (retcode t0) (tls t0) (name t0).

Definition set_wait_queue_block_ret (v : Z) (t0 : thread) : thread :=
  Thread (magic t0) (priority t0) (state t0) (remaining_quantum t0) (flags t0) (curr_cpu t0)
    (pinned_cpu t0) (aspace t0) (blocking_wait_queue t0) v (stack t0) (stack_size t0) (entry t0)
    (arg t0) (retcode t0) (tls t0) (name t0).

Definition set_stack (v : option positive) (t0 : thread) : thread :=
  Thread (magic t0) (priority t0) (state t0) (remaining_quantum t0) (flags t0) (curr_cpu t0)
    (pinned_cpu t0) (aspace t0) (blocking_wait_queue t0) (wait_queue_block_ret t0) v (stack_size
    t0) (entry t0) (arg t0) (retcode t0) (tls t0) (name t0).

Definition set_stack_size (v : Z) (t0 : thread) : thread :=
  Thread (magic t0) (priority t0) (state t0) (remaining_quantum t0) (flags t0) (curr_cpu t0)
    (pinned_cpu t0) (aspace t0) (blocking_wait_queue t0) (wait_queue_block_ret t0) (stack t0) v
    (entry t0) (arg t0) (retcode t0) (tls t0) (name t0).

Definition set_entry (v : Z) (t0 : thread) : thread :=
  Thread (magic t0) (priority t0) (state t0) (remaining_quantum t0) (flags t0) (curr_cpu t0)
    (pinned_cpu t0) (aspace t0) (blocking_wait_queue t0) (wait_queue_block_ret t0) (stack t0)
    (stack_size t0) v (arg t0) (retcode t0) (tls t0) (name t0).

Definition set_arg (v : Z) (t0 : thread) : thread :=
  Thread (magic t0) (priority t0) (state t0) (remaining_quantum t0) (flags t0) (curr_cpu t0)
    (pinned_cpu t0) (aspace t0) (blocking_wait_queue t0) (wait_queue_block_ret t0) (stack t0)
    (stack_size t0) (entry t0) v (retcode t0) (tls t0) (name t0).

Definition set_retcode (v : Z) (t0 : thread) : thread :=
  Thread (magic t0) (priority t0) (state t0) (remaining_quantum t0) (flags t0) (curr_cpu t0)
    (pinned_cpu t0) (aspace t0) (blocking_wait_queue t0) (wait_queue_block_ret t0) (stack t0)
    (stack_size t0) (entry t0) (arg t0) v (tls t0) (name t0).

Definition set_tls (v : list Z) (t0 : thread) : thread :=
  Thread (magic t0) (priority t0) (state t0) (remaining_quantum t0) (flags t0) (curr_cpu t0)
    (pinned_cpu t0) (aspace t0) (blocking_wait_queue t0) (wait_queue_block_ret t0) (stack t0)
    (stack_size t0) (entry t0) (arg t0) (retcode t0) v (name t0).

Definition set_name (v : string) (t0 : thread) : thread :=
  Thread (magic t0) (priority t0) (state t0) (remaining_quantum t0) (flags t0) (curr_cpu t0)
    (pinned_cpu t0) (aspace t0) (blocking_wait_queue t0) (wait_queue_block_ret t0) (stack t0)
    (stack_size t0) (entry t0) (arg t0) (retcode t0) (tls t0) v.

(** [wait_queue_t] *)
Record wait_queue := WaitQueue {
  wq_magic : Z;
  wq_list : list thread_ptr;
  wq_count : Z;
}.

Definition set_wq_magic (v : Z) (w0 : wait_queue) : wait_queue :=
  WaitQueue v (wq_list w0) (wq_count w0).

Definition set_wq_list (v : list thread_ptr) (w0 : wait_queue) : wait_queue :=
  WaitQueue (wq_magic w0) v (wq_count w0).

Definition set_wq_count (v : Z) (w0 : wait_queue) : wait_queue :=
  WaitQueue (wq_magic w0) (wq_list w0) v.

(** The functions the kernel passes as [timer_callback]; [CbOther] is the
    callback of code outside the scheduler. *)
Inductive timer_callback :=
| thread_sleep_handler_cb
| wait_queue_timeout_handler_cb
| thread_timer_tick_cb
| CbOther (n : Z).

Inductive handler_return :=
| INT_NO_RESCHEDULE
| INT_RESCHEDULE.

(** [timer_t]; whether [node] is in a list is membership in a timer queue. *)
Record timer := Timer {
  tm_magic : Z;
  scheduled_time : Z;
  periodic_time : Z;
  callback : option timer_callback;
  tm_arg : option thread_ptr;
}.

Definition set_tm_magic (v : Z) (t0 : timer) : timer :=
  Timer v (scheduled_time t0) (periodic_time t0) (callback t0) (tm_arg t0).

Definition set_scheduled_time (v : Z) (t0 : timer) : timer :=
  Timer (tm_magic t0) v (periodic_time t0) (callback t0) (tm_arg t0).

Definition set_periodic_time (v : Z) (t0 : timer) : timer :=
  Timer (tm_magic t0) (scheduled_time t0) v (callback t0) (tm_arg t0).

Definition set_callback (v : option timer_callback) (t0 : timer) : timer :=
  Timer (tm_magic t0) (scheduled_time t0) (periodic_time t0) v (tm_arg t0).

Definition set_tm_arg (v : option thread_ptr) (t0 : timer) : timer :=
  Timer (tm_magic t0) (scheduled_time t0) (periodic_time t0) (callback t0) v.

(** [struct mp_state] *)
Record mp_state := MpState {
  active_cpus : Z;
  idle_cpus : Z;
  realtime_cpus : Z;
}.

Definition set_active_cpus (v : Z) (m0 : mp_state) : mp_state :=
  MpState v (idle_cpus m0) (realtime_cpus m0).

Definition set_idle_cpus (v : Z) (m0 : mp_state) : mp_state :=
  MpState (active_cpus m0) v (realtime_cpus m0).

Definition set_realtime_cpus (v : Z) (m0 : mp_state) : mp_state :=
  MpState (active_cpus m0) (idle_cpus m0) v.

(** What the scheduler asks of the platform, in order: an interprocessor
    interrupt, programming and stopping the one-shot hardware timer of a cpu,
    loading an address space, and returning a thread's stack or structure to
    the heap. *)
Inductive hw_event :=
| EvIpi (target : Z)
| EvSetOneshot (cpu : nat) (delay : Z)
| EvStopTimer (cpu : nat)
| EvMmuSwitch (cpu : nat) (a : option positive)
| EvFreeStack (t : thread_ptr)
| EvFreeStruct (t : thread_ptr).

(** The scheduler's global state. *)
Record kstate := KState {
  threads : gmap thread_ptr thread;  (** the thread structures *)
  thread_list : list thread_ptr;  (** [thread_list] *)
  run_queue : list (list thread_ptr);  (** [run_queue[NUM_PRIORITIES]] *)
  run_queue_bitmap : Z;  (** [run_queue_bitmap] *)
  wait_queues : gmap wq_ptr wait_queue;  (** the wait queues *)
  current : gmap nat thread_ptr;  (** the current thread of each cpu *)
  timers : gmap timer_ptr timer;  (** the timer structures *)
  timer_queue : gmap nat (list timer_ptr);  (** [timers[cpu].timer_queue] *)
  mp : mp_state;  (** [mp] *)
  thread_lock : bool;  (** [thread_lock] is held *)
  now : Z;  (** [current_time()] *)
  events : list hw_event;  (** what the platform was asked, newest first *)
}.

Definition set_threads (v : gmap thread_ptr thread) (k0 : kstate) : kstate :=
  KState v (thread_list k0) (run_queue k0) (run_queue_bitmap k0) (wait_queues k0) (current k0)
    (timers k0) (timer_queue k0) (mp k0) (thread_lock k0) (now k0) (events k0).

Definition set_thread_list (v : list thread_ptr) (k0 : kstate) : kstate :=
  KState (threads k0) v (run_queue k0) (run_queue_bitmap k0) (wait_queues k0) (current k0)
    (timers k0) (timer_queue k0) (mp k0) (thread_lock k0) (now k0) (events k0).

Definition set_run_queue (v : list (list thread_ptr)) (k0 : kstate) : kstate :=
  KState (threads k0) (thread_list k0) v (run_queue_bitmap k0) (wait_queues k0) (current k0)
    (timers k0) (timer_queue k0) (mp k0) (thread_lock k0) (now k0) (events k0).

Definition set_run_queue_bitmap (v : Z) (k0 : kstate) : kstate :=
  KState (threads k0) (thread_list k0) (run_queue k0) v (wait_queues k0) (current k0) (timers
    k0) (timer_queue k0) (mp k0) (thread_lock k0) (now k0) (events k0).

Definition set_wait_queues (v : gmap wq_ptr wait_queue) (k0 : kstate) : kstate :=
  KState (threads k0) (thread_list k0) (run_queue k0) (run_queue_bitmap k0) v (current k0)
    (timers k0) (timer_queue k0) (mp k0) (thread_lock k0) (now k0) (events k0).

Definition set_current (v : gmap nat thread_ptr) (k0 : kstate) : kstate :=
  KState (threads k0) (thread_list k0) (run_queue k0) (run_queue_bitmap k0) (wait_queues k0) v
    (timers k0) (timer_queue k0) (mp k0) (thread_lock k0) (now k0) (events k0).

Definition set_timers (v : gmap timer_ptr timer) (k0 : kstate) : kstate :=
  KState (threads k0) (thread_list k0) (run_queue k0) (run_queue_bitmap k0) (wait_queues k0)
    (current k0) v (timer_queue k0) (mp k0) (thread_lock k0) (now k0) (events k0).

Definition set_timer_queue (v : gmap nat (list timer_ptr)) (k0 : kstate) : kstate :=
  KState (threads k0) (thread_list k0) (run_queue k0) (run_queue_bitmap k0) (wait_queues k0)
    (current k0) (timers k0) v (mp k0) (thread_lock k0) (now k0) (events k0).

Definition set_mp (v : mp_state) (k0 : kstate) : kstate :=
  KState (threads k0) (thread_list k0) (run_queue k0) (run_queue_bitmap k0) (wait_queues k0)
    (current k0) (timers k0) (timer_queue k0) v (thread_lock k0) (now k0) (events k0).

Definition set_thread_lock (v : bool) (k0 : kstate) : kstate :=
  KState (threads k0) (thread_list k0) (run_queue k0) (run_queue_bitmap k0) (wait_queues k0)
    (current k0) (timers k0) (timer_queue k0) (mp k0) v (now k0) (events k0).

Definition set_now (v : Z) (k0 : kstate) : kstate :=
  KState (threads k0) (thread_list k0) (run_queue k0) (run_queue_bitmap k0) (wait_queues k0)
    (current k0) (timers k0) (timer_queue k0) (mp k0) (thread_lock k0) v (events k0).

Definition set_events (v : list hw_event) (k0 : kstate) : kstate :=
  KState (threads k0) (thread_list k0) (run_queue k0) (run_queue_bitmap k0) (wait_queues k0)
    (current k0) (timers k0) (timer_queue k0) (mp k0) (thread_lock k0) (now k0) v.

Abbreviation K := (M kstate).

(** ** Access to objects *)

Definition get_thread (t : thread_ptr) : K thread := deref (λ s, threads s !! t).

Definition upd_thread (t : thread_ptr) (f : thread → thread) : K unit :=
  get_thread t;; modify (λ s, set_threads (alter f t (threads s)) s).

Definition get_wq (w : wq_ptr) : K wait_queue := deref (λ s, wait_queues s !! w).

Definition upd_wq (w : wq_ptr) (f : wait_queue → wait_queue) : K unit :=
  get_wq w;; modify (λ s, set_wait_queues (alter f w (wait_queues s)) s).

Definition get_timer (x : timer_ptr) : K timer := deref (λ s, timers s !! x).

Definition upd_timer (x : timer_ptr) (f : timer → timer) : K unit :=
  get_timer x;; modify (λ s, set_timers (alter f x (timers s)) s).

Definition emit (e : hw_event) : K unit := modify (λ s, set_events (e :: events s) s).

(** [get_current_thread()] on cpu [cpu] *)
Definition get_current_thread (cpu : nat) : K thread_ptr := deref (λ s, current s !! cpu).

Definition set_current_thread (cpu : nat) (t : thread_ptr) : K unit :=
  modify (λ s, set_current (<[cpu := t]> (current s)) s).

(** [THREAD_LOCK]: the spin lock is free when the critical section starts. *)
Definition THREAD_LOCK : K unit :=
  b ← gets thread_lock; assert (negb b);; modify (set_thread_lock true).

Definition THREAD_UNLOCK : K unit := modify (set_thread_lock false).

(** [DEBUG_ASSERT(arch_ints_disabled()); DEBUG_ASSERT(spin_lock_held(&thread_lock))]:
    the lock is taken with interrupts saved and disabled. *)
Definition assert_locked : K unit := b ← gets thread_lock; assert b.

(** [list_in_list(&t->queue_node)]: the thread is on a run queue or on a wait
    queue. *)
Definition in_run_queue (t : thread_ptr) (s : kstate) : bool :=
  existsb (λ q, bool_decide (t ∈ q)) (run_queue s).

Definition in_wait_queue (t : thread_ptr) (s : kstate) : bool :=
  bool_decide (map_Exists (λ _ w, t ∈ wq_list w) (wait_queues s)).

Definition queue_node_in_list (t : thread_ptr) (s : kstate) : bool :=
  in_run_queue t s || in_wait_queue t s.

(** [list_in_list(&timer->node)] *)
Definition timer_in_list (x : timer_ptr) (s : kstate) : bool :=
  bool_decide (map_Exists (λ _ q, x ∈ q) (timer_queue s)).
