(* ===== verification/Timer.v ===== *)
(** * Timers, [src/mk/kernel/timer.c]

    Per-cpu queues of pending timers ordered by expiry, with the one-shot
    hardware timer programmed for the head of the queue.  Times are 32-bit
    milliseconds compared by the sign of their difference, so the order is the
    real one for times less than [2 ^ 31] apart.  The critical sections of
    [timer_lock] are atomic here. *)

From S2P Require Import Prelude Kernel.

(** [TIME_GT], [TIME_LT]: comparison of the wrapped difference as [int32_t]. *)
Definition TIME_GT (a b : Z) : bool := 0 <? s32 (a - b).

Definition TIME_LT (a b : Z) : bool := s32 (a - b) <? 0.

(** [TIMER_INITIAL_VALUE] *)
Definition TIMER_INITIAL_VALUE : timer := Timer TIMER_MAGIC 0 0 None None.

Definition timer_initialize (x : timer_ptr) : K unit :=
  modify (λ s, set_timers (<[x := TIMER_INITIAL_VALUE]> (timers s)) s).

(** [entry->scheduled_time] *)
Definition sched_of (s : kstate) (x : timer_ptr) : Z :=
  match timers s !! x with Some t => scheduled_time t | None => 0 end.

Definition get_timer_queue (cpu : nat) : K (list timer_ptr) := deref (λ s, timer_queue s !! cpu).

Definition put_timer_queue (cpu : nat) (q : list timer_ptr) : K unit :=
  modify (λ s, set_timer_queue (<[cpu := q]> (timer_queue s)) s).

(** The walk of [insert_timer_in_queue]: [x] goes before the first entry whose
    time is greater, or at the tail. *)
Fixpoint insert_by_time (sched : timer_ptr → Z) (x : timer_ptr) (q : list timer_ptr) :
    list timer_ptr :=
  match q with
  | [] => [x]
  | entry :: q' =>
      if TIME_GT (sched entry) (sched x) then x :: entry :: q'
      else entry :: insert_by_time sched x q'
  end.

Definition insert_timer_in_queue (cpu : nat) (x : timer_ptr) : K unit :=
  sched ← gets sched_of;
  q ← get_timer_queue cpu;
  put_timer_queue cpu (insert_by_time sched x q).

(** [list_delete(&timer->node)]: the node leaves whichever queue holds it. *)
Definition timer_list_delete (x : timer_ptr) : K unit :=
  modify (λ s, set_timer_queue (list_without x <$> timer_queue s) s).

Definition timer_set (cpu : nat) (x : timer_ptr) (delay period : Z) (cb : timer_callback)
    (a : option thread_ptr) : K unit :=
  tm ← get_timer x;
  assert (tm_magic tm =? TIMER_MAGIC);;
  queued ← gets (timer_in_list x);
  assert (negb queued);; (* panic("timer already in list") *)
  time ← gets now;
  upd_timer x (λ t, set_tm_arg a (set_callback (Some cb) (set_periodic_time period
                      (set_scheduled_time (u32 (time + delay)) t))));;
  insert_timer_in_queue cpu x;;
  q ← get_timer_queue cpu;
  when (bool_decide (head q = Some x)) (emit (EvSetOneshot cpu delay)).

Definition timer_set_oneshot (cpu : nat) (x : timer_ptr) (delay : Z) (cb : timer_callback)
    (a : option thread_ptr) : K unit :=
  timer_set cpu x (if delay =? 0 then 1 else delay) 0 cb a.

Definition timer_set_periodic (cpu : nat) (x : timer_ptr) (period : Z) (cb : timer_callback)
    (a : option thread_ptr) : K unit :=
  let period := if period =? 0 then 1 else period in
  timer_set cpu x period period cb a.

Definition timer_cancel (cpu : nat) (x : timer_ptr) : K unit :=
  tm ← get_timer x;
  assert (tm_magic tm =? TIMER_MAGIC);;
  q ← get_timer_queue cpu;
  let oldhead := head q in
  queued ← gets (timer_in_list x);
  when queued (timer_list_delete x);;
  upd_timer x (λ t, set_tm_arg None (set_callback None (set_periodic_time 0 t)));;
  q' ← get_timer_queue cpu;
  match head q' with
  | None => emit (EvStopTimer cpu)
  | Some newhead =>
      if bool_decide (oldhead = Some newhead) then mret ()
      else
        time ← gets now;
        nh ← get_timer newhead;
        emit (EvSetOneshot cpu (if TIME_LT (scheduled_time nh) time then 0
                                else u32 (scheduled_time nh - time)))
  end.

Section tick.
(** What the callbacks do; those of the scheduler are in [Thread]. *)
Context (run_callback : nat → timer_callback → timer_ptr → Z → option thread_ptr → K handler_return).

(** One pass of the loop of [timer_tick] after the head [x] is found expired:
    dequeue, run the callback, requeue a periodic timer that the callback
    neither cancelled nor requeued. *)
Definition timer_fire (cpu : nat) (time : Z) (x : timer_ptr) : K handler_return :=
  tm ← get_timer x;
  assert (tm_magic tm =? TIMER_MAGIC);;
  timer_list_delete x;;
  let periodic := 0 <? periodic_time tm in
  r ← match callback tm with
      | Some cb => run_callback cpu cb x time (tm_arg tm)
      | None => fail
      end;
  tm' ← get_timer x;
  queued ← gets (timer_in_list x);
  when (periodic && negb queued && (0 <? periodic_time tm'))
    (let sched := u32 (scheduled_time tm' + periodic_time tm') in
     upd_timer x (set_scheduled_time
       (if TIME_LT sched time then u32 (time + periodic_time tm') else sched));;
     insert_timer_in_queue cpu x);;
  mret r.

Fixpoint timer_tick_loop (fuel : nat) (cpu : nat) (time : Z) (ret : handler_return) :
    K handler_return :=
  q ← get_timer_queue cpu;
  match head q with
  | None => mret ret
  | Some x =>
      tm ← get_timer x;
      if TIME_LT time (scheduled_time tm) then mret ret
      else match fuel with
           | O => fail
           | S f =>
               r ← timer_fire cpu time x;
               timer_tick_loop f cpu time
                 (match r with INT_RESCHEDULE => INT_RESCHEDULE | INT_NO_RESCHEDULE => ret end)
           end
  end.

Definition timer_tick (fuel : nat) (cpu : nat) (time : Z) : K handler_return :=
  ret ← timer_tick_loop fuel cpu time INT_NO_RESCHEDULE;
  q ← get_timer_queue cpu;
  match head q with
  | None => mret ret
  | Some x =>
      tm ← get_timer x;
      assert (TIME_GT (scheduled_time tm) time);;
      emit (EvSetOneshot cpu (u32 (scheduled_time tm - time)));;
      mret ret
  end.
End tick.

(** [timer_init] for [SMP_MAX_CPUS] cpus *)
Definition timer_init (smp_max_cpus : nat) : K unit :=
  modify (λ s, set_timer_queue
    (list_to_map ((λ c, (c, [])) <$> seq 0 smp_max_cpus)) s).
