(* ===== verification/Thread.v ===== *)
(** * Threads and wait queues, [src/mk/kernel/thread.c] and [src/mk/kernel/mp.c]

    Every function is a computation on [kstate] that runs on a cpu.  A context
    switch happens inside [thread_resched]: the definition of a function that
    calls it ends there, with [thread_lock] held and the new thread current;
    what the function does when its thread is scheduled again is a definition
    of its own ([.._resume]) when it is more than releasing the lock. *)

From stdpp Require Import pretty.
From S2P Require Import Prelude Kernel Timer.

(** The result of a call that may switch away: it returned, or the thread is
    off the cpu and the call goes on when it is scheduled again. *)
Inductive call (A : Type) :=
| Returned (a : A)
| Switched.
Arguments Returned {A} a.
Arguments Switched {A}.

(** ** [mp.c] and [mp.h] *)

(** [1U << cpu] *)
Definition cpu_bit (cpu : nat) : Z := Z.shiftl 1 (Z.of_nat cpu).

Definition arch_mp_send_ipi (target : Z) : K unit := emit (EvIpi target).

Definition mp_reschedule (cpu : nat) (target fl : Z) : K unit :=
  m ← gets mp;
  let target := Z.land target (active_cpus m) in
  let target := if Z.land fl MP_RESCHEDULE_FLAG_REALTIME =? 0
                then Z.ldiff target (realtime_cpus m) else target in
  arch_mp_send_ipi (Z.ldiff target (u32 (cpu_bit cpu))).

Definition mp_set_curr_cpu_active (cpu : nat) : K unit :=
  modify (λ s, set_mp (set_active_cpus (Z.lor (active_cpus (mp s)) (u32 (cpu_bit cpu))) (mp s)) s).

Definition mp_mbx_reschedule_irq (cpu : nat) : K handler_return :=
  m ← gets mp;
  mret (if Z.land (active_cpus m) (u32 (cpu_bit cpu)) =? 0
        then INT_NO_RESCHEDULE else INT_RESCHEDULE).

Definition mp_set_cpu_idle (cpu : nat) : K unit :=
  modify (λ s, set_mp (set_idle_cpus (u32 (Z.lor (idle_cpus (mp s)) (cpu_bit cpu))) (mp s)) s).

Definition mp_set_cpu_busy (cpu : nat) : K unit :=
  modify (λ s, set_mp (set_idle_cpus (u32 (Z.ldiff (idle_cpus (mp s)) (cpu_bit cpu))) (mp s)) s).

Definition mp_set_cpu_realtime (cpu : nat) : K unit :=
  modify (λ s, set_mp (set_realtime_cpus (u32 (Z.lor (realtime_cpus (mp s)) (cpu_bit cpu))) (mp s)) s).

Definition mp_set_cpu_non_realtime (cpu : nat) : K unit :=
  modify (λ s, set_mp (set_realtime_cpus (u32 (Z.ldiff (realtime_cpus (mp s)) (cpu_bit cpu))) (mp s)) s).

(** ** Run queues *)

Definition get_run_queue (p : Z) : K (list thread_ptr) :=
  deref (λ s, if 0 <=? p then run_queue s !! Z.to_nat p else None).

Definition put_run_queue (p : Z) (q : list thread_ptr) : K unit :=
  modify (λ s, set_run_queue (<[Z.to_nat p := q]> (run_queue s)) s).

(** The assertions shared by the two insertions. *)
Definition assert_insertable (t : thread_ptr) (th : thread) : K unit :=
  assert (magic th =? THREAD_MAGIC);;
  assert (bool_decide (state th = THREAD_READY));;
  queued ← gets (queue_node_in_list t);
  assert (negb queued);;
  assert_locked.

Definition set_bitmap_bit (p : Z) : K unit :=
  modify (λ s, set_run_queue_bitmap (Z.lor (run_queue_bitmap s) (u32 (Z.shiftl 1 p))) s).

Definition insert_in_run_queue_head (t : thread_ptr) : K unit :=
  th ← get_thread t;
  assert_insertable t th;;
  q ← get_run_queue (priority th);
  put_run_queue (priority th) (t :: q);;
  set_bitmap_bit (priority th).

Definition insert_in_run_queue_tail (t : thread_ptr) : K unit :=
  th ← get_thread t;
  assert_insertable t th;;
  q ← get_run_queue (priority th);
  put_run_queue (priority th) (q ++ [t]);;
  set_bitmap_bit (priority th).

Definition wakeup_cpu_for_thread (cpu : nat) (t : thread_ptr) : K unit :=
  th ← get_thread t;
  if pinned_cpu th <? 0 then mp_reschedule cpu MP_CPU_ALL_BUT_LOCAL 0
  else mp_reschedule cpu (u32 (Z.shiftl 1 (pinned_cpu th))) 0.

(** ** Thread structures *)

(** [memset(t, 0, sizeof(thread_t))] and the fields the function then sets; the
    name is cut to the 32-byte array. *)
Definition init_thread_struct (t : thread_ptr) (nm : string) : K unit :=
  modify (λ s, set_threads
    (<[t := Thread THREAD_MAGIC 0 THREAD_SUSPENDED 0 0 0 (-1) None None 0 None 0 0 0 0 []
              (String.substring 0 31 nm)]> (threads s)) s).

Definition wait_queue_init (w : wq_ptr) : K unit :=
  modify (λ s, set_wait_queues (<[w := WaitQueue WAIT_QUEUE_MAGIC [] 0]> (wait_queues s)) s).

Definition thread_is_realtime (th : thread) : bool :=
  negb (Z.land (flags th) THREAD_FLAG_REAL_TIME =? 0) && (DEFAULT_PRIORITY <? priority th).

Definition thread_is_idle (th : thread) : bool :=
  negb (Z.land (flags th) THREAD_FLAG_IDLE =? 0).

Definition thread_is_real_time_or_idle (th : thread) : bool :=
  negb (Z.land (flags th) (Z.lor THREAD_FLAG_REAL_TIME THREAD_FLAG_IDLE) =? 0).

Definition has_flag (th : thread) (f : Z) : bool := negb (Z.land (flags th) f =? 0).

Definition THREAD_STACK_PADDING_SIZE : Z := 256.

(** [malloc_struct] and [malloc_stack] are what the two [malloc] calls return. *)
Definition thread_create_etc (cpu : nat) (malloc_struct malloc_stack : option positive)
    (t : option thread_ptr) (nm : string) (ent ar prio : Z) (stk : option positive)
    (stk_size : Z) : K (option thread_ptr) :=
  match (match t with
         | Some t => Some (t, 0)
         | None => match malloc_struct with
                   | Some a => Some (HeapThread a, THREAD_FLAG_FREE_STRUCT)
                   | None => None
                   end
         end) with
  | None => mret None
  | Some (t, fl) =>
      init_thread_struct t nm;;
      upd_thread t (λ th,
        set_curr_cpu (-1) (set_wait_queue_block_ret NO_ERROR (set_blocking_wait_queue None
          (set_state THREAD_SUSPENDED (set_priority prio (set_arg ar (set_entry ent th)))))));;
      upd_thread t (set_retcode 0);;
      wait_queue_init (RetcodeWq t);;
      upd_thread t (set_aspace None);;
      let fl1 := match stk with
                 | None => Z.lor fl THREAD_FLAG_DEBUG_STACK_BOUNDS_CHECK
                 | Some _ => fl
                 end in
      let size1 := match stk with
                   | None => u64 (stk_size + THREAD_STACK_PADDING_SIZE)
                   | Some _ => stk_size
                   end in
      match (match stk with
             | Some a => Some (a, fl1)
             | None => match malloc_stack with
                       | Some a => Some (a, Z.lor fl1 THREAD_FLAG_FREE_STACK)
                       | None => None
                       end
             end) with
      | None =>
          when (negb (Z.land fl1 THREAD_FLAG_FREE_STRUCT =? 0)) (emit (EvFreeStruct t));;
          mret None
      | Some (a, fl2) =>
          upd_thread t (λ th, set_flags fl2 (set_stack_size size1 (set_stack (Some a) th)));;
          cur ← get_current_thread cpu;
          curth ← get_thread cur;
          upd_thread t (set_tls (tls curth));;
          THREAD_LOCK;;
          modify (λ s, set_thread_list (t :: thread_list s) s);;
          THREAD_UNLOCK;;
          mret (Some t)
      end
  end.

Definition thread_create (cpu : nat) (malloc_struct malloc_stack : option positive)
    (nm : string) (ent ar prio stk_size : Z) : K (option thread_ptr) :=
  thread_create_etc cpu malloc_struct malloc_stack None nm ent ar prio None stk_size.

Definition thread_set_real_time (cpu : nat) (t : option thread_ptr) : K Z :=
  match t with
  | None => mret ERR_INVALID_ARGS
  | Some t =>
      th ← get_thread t;
      assert (magic th =? THREAD_MAGIC);;
      THREAD_LOCK;;
      cur ← get_current_thread cpu;
      when (bool_decide (t = cur)) (timer_cancel cpu (PreemptTimer cpu));;
      upd_thread t (λ th, set_flags (Z.lor (flags th) THREAD_FLAG_REAL_TIME) th);;
      THREAD_UNLOCK;;
      mret NO_ERROR
  end.

(** ** Picking and switching threads *)

(** The threads of a queue a cpu may run. *)
Definition runnable_on (s : kstate) (cpu : nat) (t : thread_ptr) : bool :=
  match threads s !! t with
  | Some th => (pinned_cpu th <? 0) || (pinned_cpu th =? Z.of_nat cpu)
  | None => false
  end.

Definition clz32 (x : Z) : Z := 31 - Z.log2 x.

Fixpoint get_top_thread_loop (fuel : nat) (cpu : nat) (local_run_queue_bitmap : Z) :
    K thread_ptr :=
  if local_run_queue_bitmap =? 0 then mret (IdleThread cpu)
  else match fuel with
       | O => fail
       | S f =>
           let next_queue := 4 * 8 - 1 - clz32 local_run_queue_bitmap in
           q ← get_run_queue next_queue;
           ok ← gets (λ s, runnable_on s cpu);
           match List.find ok q with
           | Some newthread =>
               let q' := list_without newthread q in
               put_run_queue next_queue q';;
               when (bool_decide (q' = []))
                 (modify (λ s, set_run_queue_bitmap
                    (Z.ldiff (run_queue_bitmap s) (Z.shiftl 1 next_queue)) s));;
               mret newthread
           | None =>
               get_top_thread_loop f cpu
                 (Z.ldiff local_run_queue_bitmap (Z.shiftl 1 next_queue))
           end
       end.

(** At most one pass per priority level. *)
Definition get_top_thread (cpu : nat) : K thread_ptr :=
  bitmap ← gets run_queue_bitmap;
  get_top_thread_loop 32 cpu bitmap.

Definition vmm_context_switch (cpu : nat) (newaspace : option positive) : K unit :=
  assert_locked;; emit (EvMmuSwitch cpu newaspace).

(** The part of [thread_resched] after the early return. *)
Definition switch_to (cpu : nat) (oldthread newthread : thread_ptr) : K unit :=
  upd_thread newthread (λ th, if remaining_quantum th <=? 0 then set_remaining_quantum 5 th else th);;
  upd_thread oldthread (set_curr_cpu (-1));;
  upd_thread newthread (set_curr_cpu (Z.of_nat cpu));;
  nth ← get_thread newthread;
  (if thread_is_idle nth then mp_set_cpu_idle cpu else mp_set_cpu_busy cpu);;
  (if thread_is_realtime nth then mp_set_cpu_realtime cpu else mp_set_cpu_non_realtime cpu);;
  oth ← get_thread oldthread;
  (if thread_is_real_time_or_idle nth then
     when (negb (thread_is_real_time_or_idle oth)) (timer_cancel cpu (PreemptTimer cpu))
   else
     when (thread_is_real_time_or_idle oth)
       (timer_set_periodic cpu (PreemptTimer cpu) 10 thread_timer_tick_cb None));;
  set_current_thread cpu newthread;;
  when (negb (bool_decide (aspace nth = aspace oth))) (vmm_context_switch cpu (aspace nth)).

Definition thread_resched (cpu : nat) : K unit :=
  cur ← get_current_thread cpu;
  cth ← get_thread cur;
  assert_locked;;
  assert (negb (bool_decide (state cth = THREAD_RUNNING)));;
  newthread ← get_top_thread cpu;
  upd_thread newthread (set_state THREAD_RUNNING);;
  if bool_decide (newthread = cur) then mret () else switch_to cpu cur newthread.

Definition thread_yield (cpu : nat) : K unit :=
  cur ← get_current_thread cpu;
  cth ← get_thread cur;
  assert (magic cth =? THREAD_MAGIC);;
  assert (bool_decide (state cth = THREAD_RUNNING));;
  THREAD_LOCK;;
  upd_thread cur (λ th, set_remaining_quantum 0 (set_state THREAD_READY th));;
  when (negb (thread_is_idle cth)) (insert_in_run_queue_tail cur);;
  thread_resched cpu.

Definition thread_preempt (cpu : nat) : K unit :=
  cur ← get_current_thread cpu;
  cth ← get_thread cur;
  assert (magic cth =? THREAD_MAGIC);;
  assert (bool_decide (state cth = THREAD_RUNNING));;
  THREAD_LOCK;;
  upd_thread cur (set_state THREAD_READY);;
  when (negb (thread_is_idle cth))
    (if 0 <? remaining_quantum cth then insert_in_run_queue_head cur
     else insert_in_run_queue_tail cur);;
  thread_resched cpu.

Definition thread_block (cpu : nat) : K unit :=
  cur ← get_current_thread cpu;
  cth ← get_thread cur;
  assert (magic cth =? THREAD_MAGIC);;
  assert (bool_decide (state cth = THREAD_BLOCKED));;
  assert_locked;;
  assert (negb (thread_is_idle cth));;
  thread_resched cpu.

Definition thread_unblock (cpu : nat) (t : thread_ptr) (resched : bool) : K unit :=
  th ← get_thread t;
  assert (magic th =? THREAD_MAGIC);;
  assert (bool_decide (state th = THREAD_BLOCKED));;
  assert_locked;;
  assert (negb (thread_is_idle th));;
  upd_thread t (set_state THREAD_READY);;
  insert_in_run_queue_head t;;
  wakeup_cpu_for_thread cpu t;;
  when resched (thread_resched cpu).

Definition thread_resume (cpu : nat) (ints_disabled : bool) (t : thread_ptr) : K Z :=
  th ← get_thread t;
  assert (magic th =? THREAD_MAGIC);;
  assert (negb (bool_decide (state th = THREAD_DEATH)));;
  THREAD_LOCK;;
  let suspended := bool_decide (state th = THREAD_SUSPENDED) in
  when suspended (upd_thread t (set_state THREAD_READY);; insert_in_run_queue_head t);;
  wakeup_cpu_for_thread cpu t;;
  THREAD_UNLOCK;;
  when (suspended && negb ints_disabled) (thread_yield cpu);;
  mret NO_ERROR.

Definition thread_set_priority (cpu : nat) (prio : Z) : K unit :=
  cur ← get_current_thread cpu;
  THREAD_LOCK;;
  let prio := if prio <=? IDLE_PRIORITY then IDLE_PRIORITY + 1 else prio in
  let prio := if HIGHEST_PRIORITY <? prio then HIGHEST_PRIORITY else prio in
  upd_thread cur (λ th, set_state THREAD_READY (set_priority prio th));;
  insert_in_run_queue_head cur;;
  thread_resched cpu.

Definition thread_set_name (cpu : nat) (nm : string) : K unit :=
  cur ← get_current_thread cpu;
  upd_thread cur (set_name (String.substring 0 31 nm)).

(** ** Wait queues *)

(** [wait_queue_block] up to the context switch. *)
Definition wait_queue_block (cpu : nat) (w : wq_ptr) (timeout : Z) : K (call Z) :=
  cur ← get_current_thread cpu;
  wq ← get_wq w;
  cth ← get_thread cur;
  assert (wq_magic wq =? WAIT_QUEUE_MAGIC);;
  assert (bool_decide (state cth = THREAD_RUNNING));;
  assert_locked;;
  if timeout =? 0 then mret (Returned ERR_TIMED_OUT)
  else
    upd_wq w (λ q, set_wq_count (wq_count q + 1) (set_wq_list (wq_list q ++ [cur]) q));;
    upd_thread cur (λ th,
      set_wait_queue_block_ret NO_ERROR (set_blocking_wait_queue (Some w)
        (set_state THREAD_BLOCKED th)));;
    when (negb (timeout =? INFINITE_TIME))
      (timer_initialize (StackTimer cur);;
       timer_set_oneshot cpu (StackTimer cur) timeout wait_queue_timeout_handler_cb (Some cur));;
    thread_resched cpu;;
    mret Switched.

(** [wait_queue_block] from the return of [thread_resched]. *)
Definition wait_queue_block_resume (cpu : nat) (timeout : Z) : K Z :=
  cur ← get_current_thread cpu;
  when (negb (timeout =? INFINITE_TIME)) (timer_cancel cpu (StackTimer cur));;
  th ← get_thread cur;
  mret (wait_queue_block_ret th).

Definition wait_queue_wake_one (cpu : nat) (w : wq_ptr) (reschedule : bool)
    (wait_queue_error : Z) : K Z :=
  cur ← get_current_thread cpu;
  wq ← get_wq w;
  assert (wq_magic wq =? WAIT_QUEUE_MAGIC);;
  assert_locked;;
  match wq_list wq with
  | [] => mret 0
  | t :: rest =>
      upd_wq w (λ q, set_wq_count (wq_count q - 1) (set_wq_list rest q));;
      th ← get_thread t;
      assert (bool_decide (state th = THREAD_BLOCKED));;
      upd_thread t (λ th,
        set_blocking_wait_queue None (set_wait_queue_block_ret wait_queue_error
          (set_state THREAD_READY th)));;
      when reschedule
        (upd_thread cur (set_state THREAD_READY);; insert_in_run_queue_head cur);;
      insert_in_run_queue_head t;;
      wakeup_cpu_for_thread cpu t;;
      when reschedule (thread_resched cpu);;
      mret 1
  end.

(** The loop of [wait_queue_wake_all]; [ts] is what is left on the queue. *)
Fixpoint wake_all_loop (w : wq_ptr) (wait_queue_error : Z) (ts : list thread_ptr)
    (ret cpu_mask : Z) : K (Z * Z) :=
  match ts with
  | [] => mret (ret, cpu_mask)
  | t :: rest =>
      upd_wq w (λ q, set_wq_count (wq_count q - 1) (set_wq_list rest q));;
      th ← get_thread t;
      assert (bool_decide (state th = THREAD_BLOCKED));;
      upd_thread t (λ th,
        set_blocking_wait_queue None (set_wait_queue_block_ret wait_queue_error
          (set_state THREAD_READY th)));;
      insert_in_run_queue_head t;;
      wake_all_loop w wait_queue_error rest (ret + 1)
        (if pinned_cpu th <? 0 then MP_CPU_ALL_BUT_LOCAL
         else Z.lor cpu_mask (u32 (Z.shiftl 1 (pinned_cpu th))))
  end.

Definition wait_queue_wake_all (cpu : nat) (w : wq_ptr) (reschedule : bool)
    (wait_queue_error : Z) : K Z :=
  cur ← get_current_thread cpu;
  wq ← get_wq w;
  assert (wq_magic wq =? WAIT_QUEUE_MAGIC);;
  assert_locked;;
  when (reschedule && (0 <? wq_count wq))
    (upd_thread cur (set_state THREAD_READY);; insert_in_run_queue_head cur);;
  '(ret, cpu_mask) ← wake_all_loop w wait_queue_error (wq_list wq) 0 0;
  wq' ← get_wq w;
  assert (wq_count wq' =? 0);;
  when (0 <? ret)
    (mp_reschedule cpu cpu_mask 0;;
     when reschedule (thread_resched cpu));;
  mret ret.

(** [wait->magic = 0], the end of [wait_queue_destroy]; it runs after the
    switch when threads were woken with a reschedule. *)
Definition wait_queue_destroy_resume (w : wq_ptr) : K unit := upd_wq w (set_wq_magic 0).

Definition wait_queue_destroy (cpu : nat) (w : wq_ptr) (reschedule : bool) : K (call unit) :=
  wq ← get_wq w;
  assert (wq_magic wq =? WAIT_QUEUE_MAGIC);;
  assert_locked;;
  n ← wait_queue_wake_all cpu w reschedule ERR_OBJECT_DESTROYED;
  if reschedule && (0 <? n) then mret Switched
  else wait_queue_destroy_resume w;; mret (Returned ()).

(** [list_delete(&t->queue_node)] of a thread on a wait queue *)
Definition queue_node_delete (t : thread_ptr) : K unit :=
  modify (λ s, set_wait_queues
    ((λ q, set_wq_list (list_without t (wq_list q)) q) <$> wait_queues s) s).

Definition thread_unblock_from_wait_queue (cpu : nat) (t : thread_ptr)
    (wait_queue_error : Z) : K Z :=
  th ← get_thread t;
  assert (magic th =? THREAD_MAGIC);;
  assert_locked;;
  if negb (bool_decide (state th = THREAD_BLOCKED)) then mret ERR_NOT_BLOCKED
  else
    match blocking_wait_queue th with
    | None => fail (* DEBUG_ASSERT(t->blocking_wait_queue != NULL) *)
    | Some w =>
        wq ← get_wq w;
        assert (wq_magic wq =? WAIT_QUEUE_MAGIC);;
        queued ← gets (queue_node_in_list t);
        assert queued;;
        queue_node_delete t;;
        upd_wq w (λ q, set_wq_count (wq_count q - 1) q);;
        upd_thread t (λ th,
          set_wait_queue_block_ret wait_queue_error (set_state THREAD_READY
            (set_blocking_wait_queue None th)));;
        insert_in_run_queue_head t;;
        wakeup_cpu_for_thread cpu t;;
        mret NO_ERROR
    end.

(** ** Timer callbacks *)

Definition thread_timer_tick (cpu : nat) : K handler_return :=
  cur ← get_current_thread cpu;
  th ← get_thread cur;
  if thread_is_real_time_or_idle th then mret INT_NO_RESCHEDULE
  else
    upd_thread cur (λ th, set_remaining_quantum (s32 (remaining_quantum th - 1)) th);;
    mret (if s32 (remaining_quantum th - 1) <=? 0 then INT_RESCHEDULE else INT_NO_RESCHEDULE).

Definition thread_sleep_handler (t : thread_ptr) : K handler_return :=
  th ← get_thread t;
  assert (magic th =? THREAD_MAGIC);;
  assert (bool_decide (state th = THREAD_SLEEPING));;
  THREAD_LOCK;;
  upd_thread t (set_state THREAD_READY);;
  insert_in_run_queue_head t;;
  THREAD_UNLOCK;;
  mret INT_RESCHEDULE.

Definition wait_queue_timeout_handler (cpu : nat) (t : thread_ptr) : K handler_return :=
  th ← get_thread t;
  assert (magic th =? THREAD_MAGIC);;
  THREAD_LOCK;;
  r ← thread_unblock_from_wait_queue cpu t ERR_TIMED_OUT;
  THREAD_UNLOCK;;
  mret (if NO_ERROR <=? r then INT_RESCHEDULE else INT_NO_RESCHEDULE).

(** The callbacks of the scheduler; [other] stands for the rest of the kernel's. *)
Definition run_callback
    (other : Z → timer_ptr → Z → option thread_ptr → K handler_return)
    (cpu : nat) (cb : timer_callback) (x : timer_ptr) (time : Z) (a : option thread_ptr) :
    K handler_return :=
  match cb, a with
  | thread_sleep_handler_cb, Some t => thread_sleep_handler t
  | wait_queue_timeout_handler_cb, Some t => wait_queue_timeout_handler cpu t
  | thread_timer_tick_cb, _ => thread_timer_tick cpu
  | CbOther n, _ => other n x time a
  | _, None => fail
  end.

Definition thread_sleep (cpu : nat) (delay : Z) : K unit :=
  cur ← get_current_thread cpu;
  cth ← get_thread cur;
  assert (magic cth =? THREAD_MAGIC);;
  assert (bool_decide (state cth = THREAD_RUNNING));;
  assert (negb (thread_is_idle cth));;
  timer_initialize (StackTimer cur);;
  THREAD_LOCK;;
  timer_set_oneshot cpu (StackTimer cur) delay thread_sleep_handler_cb (Some cur);;
  upd_thread cur (set_state THREAD_SLEEPING);;
  thread_resched cpu.

(** ** Join, detach and exit *)

(** [thread_join] once the thread is known to be dead. *)
Definition thread_join_reap (t : thread_ptr) : K Z :=
  th ← get_thread t;
  assert (magic th =? THREAD_MAGIC);;
  assert (bool_decide (state th = THREAD_DEATH));;
  assert (bool_decide (blocking_wait_queue th = None));;
  queued ← gets (queue_node_in_list t);
  assert (negb queued);;
  modify (λ s, set_thread_list (list_without t (thread_list s)) s);;
  upd_thread t (set_magic 0);;
  THREAD_UNLOCK;;
  when (has_flag th THREAD_FLAG_FREE_STACK && bool_decide (is_Some (stack th)))
    (emit (EvFreeStack t));;
  when (has_flag th THREAD_FLAG_FREE_STRUCT) (emit (EvFreeStruct t));;
  mret (retcode th).

(** The result is the status and, on success, [*retcode]. *)
Definition thread_join (cpu : nat) (t : thread_ptr) (timeout : Z) : K (call (Z * option Z)) :=
  th ← get_thread t;
  assert (magic th =? THREAD_MAGIC);;
  THREAD_LOCK;;
  if has_flag th THREAD_FLAG_DETACHED then
    THREAD_UNLOCK;; mret (Returned (ERR_THREAD_DETACHED, None))
  else if negb (bool_decide (state th = THREAD_DEATH)) then
    r ← wait_queue_block cpu (RetcodeWq t) timeout;
    match r with
    | Switched => mret Switched
    | Returned err => THREAD_UNLOCK;; mret (Returned (err, None))
    end
  else
    rc ← thread_join_reap t; mret (Returned (NO_ERROR, Some rc)).

(** [thread_join] when the joiner runs again. *)
Definition thread_join_resume (cpu : nat) (t : thread_ptr) (timeout : Z) : K (Z * option Z) :=
  err ← wait_queue_block_resume cpu timeout;
  if err <? 0 then THREAD_UNLOCK;; mret (err, None)
  else rc ← thread_join_reap t; mret (NO_ERROR, Some rc).

Definition thread_detach (cpu : nat) (t : thread_ptr) : K Z :=
  th ← get_thread t;
  assert (magic th =? THREAD_MAGIC);;
  THREAD_LOCK;;
  wait_queue_wake_all cpu (RetcodeWq t) false ERR_THREAD_DETACHED;;
  th' ← get_thread t;
  if bool_decide (state th' = THREAD_DEATH) then
    upd_thread t (λ th, set_flags (Z.ldiff (flags th) THREAD_FLAG_DETACHED) th);;
    THREAD_UNLOCK;;
    r ← thread_join cpu t 0;
    match r with
    | Returned (err, _) => mret err
    | Switched => fail
    end
  else
    upd_thread t (λ th, set_flags (Z.lor (flags th) THREAD_FLAG_DETACHED) th);;
    THREAD_UNLOCK;;
    mret NO_ERROR.

Definition thread_detach_and_resume (cpu : nat) (ints_disabled : bool) (t : thread_ptr) : K Z :=
  err ← thread_detach cpu t;
  if err <? 0 then mret err else thread_resume cpu ints_disabled t.

Definition thread_exit (cpu : nat) (rc : Z) : K unit :=
  cur ← get_current_thread cpu;
  cth ← get_thread cur;
  assert (magic cth =? THREAD_MAGIC);;
  assert (bool_decide (state cth = THREAD_RUNNING));;
  assert (negb (thread_is_idle cth));;
  THREAD_LOCK;;
  upd_thread cur (λ th, set_retcode rc (set_state THREAD_DEATH th));;
  (if has_flag cth THREAD_FLAG_DETACHED then
     modify (λ s, set_thread_list (list_without cur (thread_list s)) s);;
     upd_thread cur (set_magic 0);;
     when (has_flag cth THREAD_FLAG_FREE_STACK && bool_decide (is_Some (stack cth)))
       (emit (EvFreeStack cur);;
        upd_thread cur (λ th,
          set_flags (Z.ldiff (flags th) THREAD_FLAG_DEBUG_STACK_BOUNDS_CHECK) th));;
     when (has_flag cth THREAD_FLAG_FREE_STRUCT) (emit (EvFreeStruct cur))
   else wait_queue_wake_all cpu (RetcodeWq cur) false 0;; mret ());;
  thread_resched cpu.

(** ** Boot *)

(** A kernel state before any initialisation: zeroed statics. *)
Definition kstate_zero : kstate :=
  KState ∅ [] [] 0 ∅ ∅ ∅ ∅ (MpState 0 0 0) false 0 [].

Definition thread_init_early : K unit :=
  modify (set_run_queue (replicate (Z.to_nat NUM_PRIORITIES) []));;
  modify (set_thread_list []);;
  let t := IdleThread 0 in
  init_thread_struct t "bootstrap";;
  upd_thread t (λ th, set_pinned_cpu 0 (set_curr_cpu 0 (set_flags THREAD_FLAG_DETACHED
    (set_state THREAD_RUNNING (set_priority HIGHEST_PRIORITY th)))));;
  wait_queue_init (RetcodeWq t);;
  modify (λ s, set_thread_list (t :: thread_list s) s);;
  set_current_thread 0 t.

Fixpoint thread_init (smp_max_cpus : nat) : K unit :=
  match smp_max_cpus with
  | O => mret ()
  | S n => thread_init n;; timer_initialize (PreemptTimer n)
  end.

Definition thread_become_idle (cpu : nat) : K unit :=
  t ← get_current_thread cpu;
  thread_set_name cpu ("idle " +:+ pretty (Z.of_nat cpu));;
  upd_thread t (λ th, set_pinned_cpu (Z.of_nat cpu)
    (set_flags (Z.lor (flags th) THREAD_FLAG_IDLE) (set_priority IDLE_PRIORITY th)));;
  mp_set_curr_cpu_active cpu;;
  mp_set_cpu_idle cpu;;
  thread_yield cpu.

Definition thread_secondary_cpu_init_early (cpu : nat) : K unit :=
  let t := IdleThread cpu in
  init_thread_struct t ("idle " +:+ pretty (Z.of_nat cpu));;
  upd_thread t (λ th, set_pinned_cpu (Z.of_nat cpu) (set_curr_cpu (Z.of_nat cpu)
    (set_flags (Z.lor THREAD_FLAG_DETACHED THREAD_FLAG_IDLE)
      (set_state THREAD_RUNNING (set_priority HIGHEST_PRIORITY th)))));;
  wait_queue_init (RetcodeWq t);;
  THREAD_LOCK;;
  modify (λ s, set_thread_list (t :: thread_list s) s);;
  set_current_thread cpu t;;
  THREAD_UNLOCK.

Definition thread_secondary_cpu_entry (cpu : nat) : K unit :=
  t ← get_current_thread cpu;
  upd_thread t (set_priority IDLE_PRIORITY);;
  mp_set_curr_cpu_active cpu;;
  mp_set_cpu_idle cpu;;
  thread_yield cpu.

Definition thread_state_to_str (st : thread_state) : string :=
  match st with
  | THREAD_SUSPENDED => "susp"
  | THREAD_READY => "rdy"
  | THREAD_RUNNING => "run"
  | THREAD_BLOCKED => "blok"
  | THREAD_SLEEPING => "slep"
  | THREAD_DEATH => "deth"
  end.
