(* ===== verification/SchedInv.v ===== *)
(** * The scheduler's data-structure invariant

    [queue_inv X s] says how threads, run queues, the run-queue bitmap and wait
    queues of [s] agree; [X] is the set of threads that are between queues in
    the middle of an operation.  The file shows that each primitive step of
    [Thread] preserves it and meets the assertions of the code. *)

From S2P Require Import Prelude Kernel Timer Thread.

(** States with one object updated in place. *)
Abbreviation st_upd_thread t f s := (set_threads (alter f t (threads s)) s).

Abbreviation st_upd_wq w f s := (set_wait_queues (alter f w (wait_queues s)) s).

Section invariant.
Implicit Types (s : kstate) (t : thread_ptr) (th : thread) (X : gset thread_ptr).

(** What holds of a thread that sits on the run queue of priority [i]. *)
Definition ready_at s (i : nat) t : Prop :=
  ∃ th, threads s !! t = Some th ∧ magic th = THREAD_MAGIC ∧ state th = THREAD_READY ∧
        priority th = Z.of_nat i ∧ thread_is_idle th = false.

(** What holds of a thread that sits on wait queue [w]. *)
Definition blocked_on s (w : wq_ptr) t : Prop :=
  ∃ th, threads s !! t = Some th ∧ magic th = THREAD_MAGIC ∧ state th = THREAD_BLOCKED ∧
        blocking_wait_queue th = Some w ∧ thread_is_idle th = false.

Definition on_run_queue s t : Prop := ∃ i q, run_queue s !! i = Some q ∧ t ∈ q.

Definition on_wait_queue s t : Prop := ∃ w wq, wait_queues s !! w = Some wq ∧ t ∈ wq_list wq.

Record queue_inv X s : Prop := {
  qi_len : length (run_queue s) = 32%nat;
  qi_bitmap_range : 0 ≤ run_queue_bitmap s < 2 ^ 32;
  qi_bitmap i q : run_queue s !! i = Some q →
    Z.testbit (run_queue_bitmap s) (Z.of_nat i) = negb (bool_decide (q = []));
  qi_ready i q t : run_queue s !! i = Some q → t ∈ q → ready_at s i t;
  qi_rq_nodup i q : run_queue s !! i = Some q → NoDup q;
  qi_blocked w wq t : wait_queues s !! w = Some wq → t ∈ wq_list wq → blocked_on s w t;
  qi_wq_nodup w wq : wait_queues s !! w = Some wq → NoDup (wq_list wq);
  qi_wq_count w wq : wait_queues s !! w = Some wq → wq_count wq = Z.of_nat (length (wq_list wq));
  qi_wq_magic w wq : wait_queues s !! w = Some wq → wq_list wq ≠ [] → wq_magic wq = WAIT_QUEUE_MAGIC;
  qi_priority t th : threads s !! t = Some th → 0 ≤ priority th < 32;
  qi_ready_queued t th : threads s !! t = Some th → t ∉ X →
    state th = THREAD_READY → thread_is_idle th = false → on_run_queue s t;
  qi_blocked_queued t th : threads s !! t = Some th → t ∉ X →
    state th = THREAD_BLOCKED → on_wait_queue s t;
  qi_hole t : t ∈ X → ¬ on_run_queue s t ∧ ¬ on_wait_queue s t
}.

(** ** Projections of updated states *)

Definition same_sched (f : thread → thread) : Prop :=
  ∀ th, magic (f th) = magic th ∧ priority (f th) = priority th ∧ state (f th) = state th ∧
        thread_is_idle (f th) = thread_is_idle th ∧ blocking_wait_queue (f th) = blocking_wait_queue th.

Lemma wp_get_thread t th (Q : thread → kstate → Prop) s :
  threads s !! t = Some th → Q th s → wp (get_thread t) Q s.
Proof. intros. by eapply wp_deref. Qed.

Lemma wp_upd_thread t th f (Q : unit → kstate → Prop) s :
  threads s !! t = Some th → Q () (st_upd_thread t f s) → wp (upd_thread t f) Q s.
Proof. intros. apply wp_bind. by eapply wp_deref. Qed.

Lemma wp_get_wq w wq (Q : wait_queue → kstate → Prop) s :
  wait_queues s !! w = Some wq → Q wq s → wp (get_wq w) Q s.
Proof. intros. by eapply wp_deref. Qed.

Lemma wp_upd_wq w wq f (Q : unit → kstate → Prop) s :
  wait_queues s !! w = Some wq → Q () (st_upd_wq w f s) → wp (upd_wq w f) Q s.
Proof. intros. apply wp_bind. by eapply wp_deref. Qed.

(** ** Membership *)

Lemma in_run_queue_spec t s : in_run_queue t s = true ↔ on_run_queue s t.
Proof.
  rw /in_run_queue existsb_exists. split.
  - intros (q & Hq & Ht%bool_decide_eq_true). apply list_elem_of_In, list_elem_of_lookup in Hq.
    destruct Hq as [i Hi]. by exists i, q.
  - intros (i & q & Hi & Ht). exists q. split; [|by apply bool_decide_eq_true].
    apply list_elem_of_In, list_elem_of_lookup. eauto.
Qed.

Lemma in_wait_queue_spec t s : in_wait_queue t s = true ↔ on_wait_queue s t.
Proof.
  rw /in_wait_queue bool_decide_eq_true /map_Exists. unfold on_wait_queue. naive_solver.
Qed.

Lemma queue_node_in_list_spec t s :
  queue_node_in_list t s = true ↔ on_run_queue s t ∨ on_wait_queue s t.
Proof. by rw /queue_node_in_list orb_true_iff in_run_queue_spec in_wait_queue_spec. Qed.

Lemma queue_node_not_in_list t s :
  ¬ on_run_queue s t → ¬ on_wait_queue s t → queue_node_in_list t s = false.
Proof.
  intros. destruct (queue_node_in_list t s) eqn:E; [|done].
  apply queue_node_in_list_spec in E. tauto.
Qed.

Lemma hole_diff X t t' : t' ∉ X ∖ {[t]} → t' ≠ t → t' ∉ X.
Proof. set_solver. Qed.

Lemma hole_union X t t' : t' ∉ X ∪ {[t]} → t' ≠ t ∧ t' ∉ X.
Proof. set_solver. Qed.

(** ** Steps of the invariant *)

(** A thread that is not queued may be taken between queues. *)
Lemma queue_inv_open X s t th :
  queue_inv X s → threads s !! t = Some th →
  state th ≠ THREAD_READY ∨ thread_is_idle th = true → state th ≠ THREAD_BLOCKED →
  queue_inv (X ∪ {[t]}) s.
Proof.
  intros I Ht Hr Hb. destruct I. split; try done.
  - intros t' th' Ht' HX. apply (qi_ready_queued0 t'); set_solver.
  - intros t' th' Ht' HX. apply (qi_blocked_queued0 t'); set_solver.
  - intros t' [HX| ->%elem_of_singleton]%elem_of_union; [by apply qi_hole0|]. split.
    + intros (i & q & Hq & Hin). destruct (qi_ready0 _ _ _ Hq Hin) as (th' & ? & _ & ? & _ & ?).
      destruct Hr; congruence.
    + intros (w & wq & Hw & Hin). destruct (qi_blocked0 _ _ _ Hw Hin) as (th' & ? & _ & ? & _).
      congruence.
Qed.

(** A thread between queues may stay off the queues in these states. *)
Lemma queue_inv_close X s t th :
  queue_inv X s → t ∈ X → threads s !! t = Some th →
  state th ≠ THREAD_READY ∨ thread_is_idle th = true → state th ≠ THREAD_BLOCKED →
  queue_inv (X ∖ {[t]}) s.
Proof.
  intros I HX Ht Hr Hb. destruct I. split; try done.
  - intros t' th' Ht' HX' ? ?. destruct (decide (t' = t)) as [->|].
    + destruct Hr; congruence.
    + apply (qi_ready_queued0 t' th'); set_solver.
  - intros t' th' Ht' HX' ?. destruct (decide (t' = t)) as [->|]; [congruence|].
    apply (qi_blocked_queued0 t' th'); set_solver.
  - intros t' HX'. apply qi_hole0. set_solver.
Qed.

(** A thread between queues may change its fields freely. *)
Lemma queue_inv_upd_hole X s t th f :
  queue_inv X s → t ∈ X → threads s !! t = Some th → 0 ≤ priority (f th) < 32 →
  queue_inv X (st_upd_thread t f s).
Proof.
  intros I HX Ht Hp. destruct (qi_hole _ _ I t HX) as [Hnr Hnw].
  destruct I. split; try done; simpl.
  - intros i q t' Hq Hin. destruct (qi_ready0 _ _ _ Hq Hin) as (th' & ? & ?).
    exists th'. rw lookup_alter_ne //. intros ->. apply Hnr. by exists i, q.
  - intros w wq t' Hw Hin. destruct (qi_blocked0 _ _ _ Hw Hin) as (th' & ? & ?).
    exists th'. rw lookup_alter_ne //. intros ->. apply Hnw. by exists w, wq.
  - intros t' th'. rw lookup_alter. case_decide; subst; [|by apply qi_priority0].
    rw Ht /=. by intros [= <-].
  - intros t' th' Ht' HX'. rw lookup_alter_ne in Ht'; [|set_solver]. by apply qi_ready_queued0.
  - intros t' th' Ht' HX'. rw lookup_alter_ne in Ht'; [|set_solver]. by apply (qi_blocked_queued0 t' th').
Qed.

(** Fields the queues do not depend on. *)
Lemma queue_inv_upd_same X s t f :
  queue_inv X s → same_sched f → queue_inv X (st_upd_thread t f s).
Proof.
  intros I Hf.
  assert (∀ t' th', alter f t (threads s) !! t' = Some th' →
    ∃ th0, threads s !! t' = Some th0 ∧ magic th' = magic th0 ∧ priority th' = priority th0 ∧
      state th' = state th0 ∧ thread_is_idle th' = thread_is_idle th0 ∧
      blocking_wait_queue th' = blocking_wait_queue th0) as Hback.
  { intros t' th'. rw lookup_alter. case_decide; subst; [|by eexists].
    intros (th0 & Ht & ->)%fmap_Some. exists th0. split; [done|apply Hf]. }
  assert (∀ t' th0, threads s !! t' = Some th0 → ∃ th', alter f t (threads s) !! t' = Some th' ∧
      magic th' = magic th0 ∧ priority th' = priority th0 ∧
      state th' = state th0 ∧ thread_is_idle th' = thread_is_idle th0 ∧
      blocking_wait_queue th' = blocking_wait_queue th0) as Hfwd.
  { intros t' th0 Ht. rw lookup_alter. case_decide; subst; [|by eexists].
    exists (f th0). rw Ht. split; [done|apply Hf]. }
  destruct I. split; try done; simpl.
  - intros i q t' Hq Hin. destruct (qi_ready0 _ _ _ Hq Hin) as (th0 & (th' & ? & ? & ? & ? & E & ?)%Hfwd & ?).
    exists th'. rw E. intuition congruence.
  - intros w wq t' Hw Hin. destruct (qi_blocked0 _ _ _ Hw Hin) as (th0 & (th' & ? & ? & ? & ? & E & ?)%Hfwd & ?).
    exists th'. rw E. intuition congruence.
  - intros t' th' (th0 & ? & _ & -> & _)%Hback. eauto.
  - intros t' th' (th0 & ? & _ & ? & ? & E & _)%Hback. rw E.
    intros ? ? ?. apply (qi_ready_queued0 t' th0); [done..|congruence|done].
  - intros t' th' (th0 & ? & _ & ? & ? & E & _)%Hback ? ?.
    apply (qi_blocked_queued0 t' th0); [done..|congruence].
Qed.

(** The state after a thread joins the queue of priority [p], which becomes [q]. *)
Definition st_enqueue (p : Z) (q : list thread_ptr) s : kstate :=
  set_run_queue_bitmap (Z.lor (run_queue_bitmap s) (u32 (Z.shiftl 1 p)))
    (set_run_queue (<[Z.to_nat p := q]> (run_queue s)) s).

(** The state after a thread leaves the queue of priority [p], which becomes [q]. *)
Definition st_dequeue (p : Z) (q : list thread_ptr) s : kstate :=
  let s' := set_run_queue (<[Z.to_nat p := q]> (run_queue s)) s in
  if bool_decide (q = []) then
    set_run_queue_bitmap (Z.ldiff (run_queue_bitmap s') (Z.shiftl 1 p)) s'
  else s'.

Lemma u32_bit p : 0 ≤ p < 32 → u32 (Z.shiftl 1 p) = 2 ^ p.
Proof.
  intros. rw Z.shiftl_1_l. apply u32_small. split; [lia|]. apply Z.pow_lt_mono_r; lia.
Qed.

Lemma testbit_set bm p i :
  0 ≤ p → 0 ≤ i → Z.testbit (Z.lor bm (2 ^ p)) i = Z.testbit bm i || (p =? i).
Proof. intros. by rw Z.lor_spec Z.pow2_bits_eqb. Qed.

Lemma testbit_clear bm p i :
  0 ≤ p → 0 ≤ i → Z.testbit (Z.ldiff bm (2 ^ p)) i = Z.testbit bm i && negb (p =? i).
Proof. intros. by rw Z.ldiff_spec Z.pow2_bits_eqb. Qed.

Lemma lor_u32_range a b : 0 ≤ a < 2 ^ 32 → 0 ≤ b < 2 ^ 32 → 0 ≤ Z.lor a b < 2 ^ 32.
Proof.
  intros [? Ha] [? Hb]. assert (0 ≤ Z.lor a b) by by apply Z.lor_nonneg. split; [done|].
  rw Z.bounded_iff_bits_nonneg in Ha; [|done..]. rw Z.bounded_iff_bits_nonneg in Hb; [|done..].
  apply Z.bounded_iff_bits_nonneg; [done..|]. intros l ?. by rw Z.lor_spec Ha ?Hb.
Qed.

Lemma ldiff_u32_range a b : 0 ≤ a < 2 ^ 32 → 0 ≤ Z.ldiff a b < 2 ^ 32.
Proof.
  intros [? Ha]. assert (0 ≤ Z.ldiff a b) by (apply Z.ldiff_nonneg; auto). split; [done|].
  rw Z.bounded_iff_bits_nonneg in Ha; [|done..].
  apply Z.bounded_iff_bits_nonneg; [done..|]. intros l ?. by rw Z.ldiff_spec Ha.
Qed.

Lemma queue_inv_enqueue X s t th q q' :
  queue_inv X s → t ∈ X → threads s !! t = Some th → magic th = THREAD_MAGIC →
  state th = THREAD_READY → thread_is_idle th = false →
  run_queue s !! Z.to_nat (priority th) = Some q → q' ≡ₚ t :: q →
  queue_inv (X ∖ {[t]}) (st_enqueue (priority th) q' s).
Proof.
  intros I HX Ht Hm Hr Hidle Hq HP. destruct (qi_hole _ _ I t HX) as [Hnr Hnw].
  pose proof (qi_priority _ _ I _ _ Ht) as Hp.
  assert (t ∉ q) as Htq by (intros ?; apply Hnr; by exists (Z.to_nat (priority th)), q).
  assert (∀ t', t' ≠ t → on_run_queue s t' → on_run_queue (st_enqueue (priority th) q' s) t') as Hmono.
  { intros t' ? (i & q0 & Hq0 & Hin). destruct (decide (i = Z.to_nat (priority th))) as [->|].
    - exists (Z.to_nat (priority th)), q'. simplify_eq. split; [|rw HP; by apply elem_of_cons; auto].
      simpl. apply list_lookup_insert_eq. by apply lookup_lt_Some in Hq.
    - exists i, q0. split; [|done]. simpl. by rw list_lookup_insert_ne. }
  assert (∀ i q0, <[Z.to_nat (priority th):=q']> (run_queue s) !! i = Some q0 →
    (i = Z.to_nat (priority th) ∧ q0 = q') ∨ (i ≠ Z.to_nat (priority th) ∧ run_queue s !! i = Some q0)) as Hlk.
  { intros i q0. destruct (decide (i = Z.to_nat (priority th))) as [->|].
    - rw list_lookup_insert_eq; [|by apply lookup_lt_Some in Hq]. naive_solver.
    - rw list_lookup_insert_ne //. naive_solver. }
  destruct I. split; simpl; try done.
  - by rw length_insert.
  - rw u32_bit //. apply lor_u32_range; [done|]. split; [lia|]. apply Z.pow_lt_mono_r; lia.
  - intros i q0 [[-> ->]|[Hne Hi]]%Hlk; rw u32_bit // testbit_set; try lia.
    + rw Z2Nat.id; [|lia]. rw Z.eqb_refl orb_true_r. rw bool_decide_eq_false_2 //.
      intros ->. by apply Permutation_nil_cons in HP.
    + rw (qi_bitmap0 _ _ Hi). rw (proj2 (Z.eqb_neq _ _)) ?orb_false_r //. lia.
  - intros i q0 t' [[-> ->]|[Hne Hi]]%Hlk Hin; [|by eapply qi_ready0].
    rw HP in Hin. apply elem_of_cons in Hin as [->|Hin]; [|by eapply qi_ready0].
    exists th. split_and!; try done. lia.
  - intros i q0 [[-> ->]|[Hne Hi]]%Hlk; [|by eapply qi_rq_nodup0].
    rw HP. apply NoDup_cons. eauto.
  - intros t' th' Ht' HX' ? ?. destruct (decide (t' = t)) as [->|].
    + exists (Z.to_nat (priority th)), q'. split; [|rw HP; by apply elem_of_cons; auto].
      simpl. apply list_lookup_insert_eq. by apply lookup_lt_Some in Hq.
    + apply Hmono; [done|]. apply (qi_ready_queued0 _ _ Ht'); [by eapply hole_diff|done..].
  - intros t' th' Ht' HX' Hb. destruct (decide (t' = t)) as [->|]; [congruence|].
    apply (qi_blocked_queued0 _ _ Ht'); [by eapply hole_diff|done].
  - intros t' [HX' Hne%not_elem_of_singleton]%elem_of_difference. split; [|by apply qi_hole0].
    intros (i & q0 & [[-> ->]|[_ Hi]]%Hlk & Hin); apply (proj1 (qi_hole0 t' HX')).
    + rw HP in Hin. apply elem_of_cons in Hin as [->|?]; [done|]. by exists (Z.to_nat (priority th)), q.
    + by exists i, q0.
Qed.

Lemma queue_inv_dequeue X s p q t :
  queue_inv X s → run_queue s !! p = Some q → t ∈ q →
  queue_inv (X ∪ {[t]}) (st_dequeue (Z.of_nat p) (list_without t q) s).
Proof.
  intros I Hq Hin. destruct (qi_ready _ _ I _ _ _ Hq Hin) as (th & Ht & Hm & Hr & Hp & Hidle).
  set (q' := list_without t q).
  assert (p < 32)%nat as Hp32 by (rw -(qi_len _ _ I); by eapply lookup_lt_Some).
  assert (∀ i q0, <[p:=q']> (run_queue s) !! i = Some q0 →
    (i = p ∧ q0 = q') ∨ (i ≠ p ∧ run_queue s !! i = Some q0)) as Hlk.
  { intros i q0. destruct (decide (i = p)) as [->|].
    - rw list_lookup_insert_eq; [|by apply lookup_lt_Some in Hq]. naive_solver.
    - rw list_lookup_insert_ne //. naive_solver. }
  assert (run_queue (st_dequeue (Z.of_nat p) q' s) = <[p:=q']> (run_queue s)) as Erq.
  { rw /st_dequeue. case_bool_decide; simpl; by rw Nat2Z.id. }
  assert (threads (st_dequeue (Z.of_nat p) q' s) = threads s ∧
          wait_queues (st_dequeue (Z.of_nat p) q' s) = wait_queues s) as [Eth Ewq].
  { rw /st_dequeue. by case_bool_decide. }
  assert (∀ i q0, run_queue s !! i = Some q0 → t ∈ q0 → i = p) as Hone.
  { intros i q0 Hi Hin'. destruct (qi_ready _ _ I _ _ _ Hi Hin') as (? & ? & _ & _ & ? & _).
    simplify_eq. lia. }
  destruct I. split; rw /ready_at /blocked_on /on_run_queue /on_wait_queue ?Erq ?Eth ?Ewq; try done.
  - by rw length_insert.
  - rw /st_dequeue. case_bool_decide; simpl; [by apply ldiff_u32_range|done].
  - intros i q0 [[-> ->]|[Hne Hi]]%Hlk; rw /st_dequeue; case_bool_decide; simpl.
    + rw Z.shiftl_1_l testbit_clear; [|lia..]. by rw Z.eqb_refl andb_false_r.
    + rw (qi_bitmap0 _ _ Hq). rw bool_decide_eq_false_2 //. intros ->. by apply not_elem_of_nil in Hin.
    + rw Z.shiftl_1_l testbit_clear; [|lia..]. rw (qi_bitmap0 _ _ Hi).
      rw (proj2 (Z.eqb_neq _ _)) ?andb_true_r //. lia.
    + by apply qi_bitmap0.
  - intros i q0 t' [[-> ->]|[Hne Hi]]%Hlk Hin'; [|by eapply qi_ready0].
    apply list_without_elem in Hin' as [_ ?]. by eapply qi_ready0.
  - intros i q0 [[-> ->]|[Hne Hi]]%Hlk; [|by eapply qi_rq_nodup0].
    apply list_without_nodup. eauto.
  - intros t' th' Ht' [??]%hole_union ? ?.
    destruct (qi_ready_queued0 _ _ Ht') as (i & q0 & Hi & Hin'); [done..|].
    destruct (decide (i = p)) as [->|].
    + exists p, q'. split; [apply list_lookup_insert_eq; by apply lookup_lt_Some in Hq|].
      simplify_eq. by apply list_without_elem.
    + exists i, q0. by rw list_lookup_insert_ne.
  - intros t' th' Ht' [_ ?]%hole_union. by apply (qi_blocked_queued0 _ _ Ht').
  - intros t' [HX'| ->%elem_of_singleton]%elem_of_union.
    + split; [|by apply qi_hole0]. intros (i & q0 & [[-> ->]|[_ Hi]]%Hlk & Hin'); apply (proj1 (qi_hole0 t' HX')).
      * apply list_without_elem in Hin' as [_ ?]. by exists p, q.
      * by exists i, q0.
    + split.
      * intros (i & q0 & [[-> ->]|[Hne Hi]]%Hlk & Hin'); [apply list_without_elem in Hin'; tauto|].
        by apply (Hone i) in Hi.
      * intros (w & wq & Hw & Hin'). destruct (qi_blocked0 _ _ _ Hw Hin') as (? & ? & _ & ? & _).
        congruence.
Qed.

Lemma alter_lookup_cases {K V} `{Countable K} (m : gmap K V) (f : V → V) k v k' v' :
  m !! k = Some v → alter f k m !! k' = Some v' →
  (k' = k ∧ v' = f v) ∨ (k' ≠ k ∧ m !! k' = Some v').
Proof.
  intros Hk Hk'. destruct (decide (k' = k)) as [->|].
  - rw lookup_alter_eq Hk in Hk'. by simplify_eq/=; left.
  - rw lookup_alter_ne // in Hk'. by right.
Qed.

(** A blocked thread that is between queues joins its wait queue. *)
Lemma queue_inv_wq_add X s t th w wq f :
  queue_inv X s → t ∈ X → threads s !! t = Some th → magic th = THREAD_MAGIC →
  state th = THREAD_BLOCKED → blocking_wait_queue th = Some w → thread_is_idle th = false →
  wait_queues s !! w = Some wq → wq_magic (f wq) = WAIT_QUEUE_MAGIC →
  wq_count (f wq) = wq_count wq + 1 → wq_list (f wq) ≡ₚ t :: wq_list wq →
  queue_inv (X ∖ {[t]}) (st_upd_wq w f s).
Proof.
  intros I HX Ht Hm Hb Hbw Hidle Hw Hfm Hfc Hfl. destruct (qi_hole _ _ I t HX) as [Hnr Hnw].
  assert (∀ t', t' = t ∨ on_wait_queue s t' → on_wait_queue (st_upd_wq w f s) t') as Hmono.
  { intros t' [->|(w' & wq' & Hw' & Hin)]; simpl.
    - exists w, (f wq). simpl. rw lookup_alter_eq Hw Hfl. split; [done|by apply elem_of_cons; auto].
    - destruct (decide (w' = w)) as [->|].
      + exists w, (f wq). simpl. rw lookup_alter_eq Hw Hfl. simplify_eq.
        split; [done|by apply elem_of_cons; auto].
      + exists w', wq'. simpl. by rw lookup_alter_ne. }
  destruct I. split; simpl; try done.
  - intros w' wq' t' [[-> ->]|[_ ?]]%(alter_lookup_cases _ _ _ _ _ _ Hw) Hin; [|by eapply qi_blocked0].
    rw Hfl in Hin. apply elem_of_cons in Hin as [->|?]; [by exists th|by eapply qi_blocked0].
  - intros w' wq' [[-> ->]|[_ ?]]%(alter_lookup_cases _ _ _ _ _ _ Hw); [|by eapply qi_wq_nodup0].
    rw Hfl. apply NoDup_cons. split; [|eauto]. intros ?. apply Hnw. by exists w, wq.
  - intros w' wq' [[-> ->]|[_ ?]]%(alter_lookup_cases _ _ _ _ _ _ Hw); [|by eapply qi_wq_count0].
    rw Hfc Hfl (qi_wq_count0 _ _ Hw) /=. lia.
  - intros w' wq' [[-> ->]|[_ ?]]%(alter_lookup_cases _ _ _ _ _ _ Hw); [done|by eapply qi_wq_magic0].
  - intros t' th' Ht' HX' ? ?. apply (qi_ready_queued0 _ _ Ht'); [|done..].
    eapply hole_diff; [done|]. intros ->. congruence.
  - intros t' th' Ht' HX' ?. apply Hmono. destruct (decide (t' = t)); [by left|right].
    apply (qi_blocked_queued0 _ _ Ht'); [by eapply hole_diff|done].
  - intros t' [HX' Hne%not_elem_of_singleton]%elem_of_difference.
    destruct (qi_hole0 t' HX') as [? Hnw']. split; [done|].
    intros (w' & wq' & [[-> ->]|[_ ?]]%(alter_lookup_cases _ _ _ _ _ _ Hw) & Hin); apply Hnw'.
    + rw Hfl in Hin. apply elem_of_cons in Hin as [?|?]; [done|by exists w, wq].
    + by exists w', wq'.
Qed.

(** A thread leaves its wait queue. *)
Lemma queue_inv_wq_remove X s t w wq f :
  queue_inv X s → wait_queues s !! w = Some wq → t ∈ wq_list wq →
  wq_magic (f wq) = wq_magic wq → wq_count (f wq) = wq_count wq - 1 →
  t :: wq_list (f wq) ≡ₚ wq_list wq →
  queue_inv (X ∪ {[t]}) (st_upd_wq w f s).
Proof.
  intros I Hw Hin Hfm Hfc Hfl.
  destruct (qi_blocked _ _ I _ _ _ Hw Hin) as (th & Ht & Hm & Hb & Hbw & Hidle).
  assert (NoDup (t :: wq_list (f wq))) as [Hnin Hnd]%NoDup_cons.
  { rw Hfl. by eapply qi_wq_nodup. }
  assert (∀ t', t' ∈ wq_list (f wq) → t' ∈ wq_list wq) as Hsub.
  { intros t' ?. rw -Hfl. apply elem_of_cons. auto. }
  destruct I. split; simpl; try done.
  - intros w' wq' t' [[-> ->]|[_ ?]]%(alter_lookup_cases _ _ _ _ _ _ Hw) ?; eauto.
  - intros w' wq' [[-> ->]|[_ ?]]%(alter_lookup_cases _ _ _ _ _ _ Hw); eauto.
  - intros w' wq' [[-> ->]|[_ ?]]%(alter_lookup_cases _ _ _ _ _ _ Hw); [|by eapply qi_wq_count0].
    rw Hfc (qi_wq_count0 _ _ Hw) -Hfl /=. lia.
  - intros w' wq' [[-> ->]|[_ ?]]%(alter_lookup_cases _ _ _ _ _ _ Hw); [|by eapply qi_wq_magic0].
    intros _. rw Hfm. apply (qi_wq_magic0 _ _ Hw). intros E. rw E in Hin. by apply not_elem_of_nil in Hin.
  - intros t' th' Ht' [_ ?]%hole_union. by apply (qi_ready_queued0 _ _ Ht').
  - intros t' th' Ht' [Hne ?]%hole_union ?.
    destruct (qi_blocked_queued0 _ _ Ht') as (w' & wq' & Hw' & Hin'); [done..|].
    destruct (decide (w' = w)) as [->|].
    + exists w, (f wq). simpl. rw lookup_alter_eq Hw. split; [done|]. simplify_eq.
      rw -Hfl in Hin'. by apply elem_of_cons in Hin' as [?|?].
    + exists w', wq'. simpl. by rw lookup_alter_ne.
  - intros t' [HX'| ->%elem_of_singleton]%elem_of_union.
    + destruct (qi_hole0 t' HX') as [? Hnw']. split; [done|].
      intros (w' & wq' & [[-> ->]|[_ ?]]%(alter_lookup_cases _ _ _ _ _ _ Hw) & Hin'); apply Hnw'.
      * exists w, wq. eauto.
      * by exists w', wq'.
    + split.
      * intros (i & q & Hq & Hi). destruct (qi_ready0 _ _ _ Hq Hi) as (? & ? & _ & ? & _). congruence.
      * intros (w' & wq' & [[-> ->]|[? Hw']]%(alter_lookup_cases _ _ _ _ _ _ Hw) & Hin'); [done|].
        destruct (qi_blocked0 _ _ _ Hw' Hin') as (? & ? & _ & _ & ? & _). congruence.
Qed.

(** ** [get_top_thread] *)

(** The reference search: the first runnable thread of the queues [n-1], ..., [0]. *)
Fixpoint top_scan s (cpu n : nat) : option (nat * thread_ptr) :=
  match n with
  | O => None
  | S m => match List.find (runnable_on s cpu) (default [] (run_queue s !! m)) with
           | Some t => Some (m, t)
           | None => top_scan s cpu m
           end
  end.

Lemma find_first {A} (f : A → bool) l x :
  List.find f l = Some x →
  ∃ pre post, l = pre ++ x :: post ∧ f x = true ∧ ∀ y, y ∈ pre → f y = false.
Proof.
  induction l as [|y l IH]; [done|]. simpl. destruct (f y) eqn:E.
  - intros [= ->]. exists [], l. split_and!; try done. by intros ? ?%not_elem_of_nil.
  - intros (pre & post & -> & ? & Hpre)%IH. exists (y :: pre), post. split_and!; try done.
    intros z [->|?]%elem_of_cons; auto.
Qed.

Lemma find_none {A} (f : A → bool) l x : List.find f l = None → x ∈ l → f x = false.
Proof. intros H ?. eapply List.find_none; [done|]. by apply list_elem_of_In. Qed.

Lemma top_scan_some s cpu n p t :
  top_scan s cpu n = Some (p, t) →
  (p < n)%nat ∧ ∃ pre post, run_queue s !! p = Some (pre ++ t :: post) ∧
    runnable_on s cpu t = true ∧ (∀ t', t' ∈ pre → runnable_on s cpu t' = false) ∧
    ∀ i q t', (p < i < n)%nat → run_queue s !! i = Some q → t' ∈ q → runnable_on s cpu t' = false.
Proof.
  induction n as [|n IH]; [done|]. simpl.
  destruct (List.find _ _) as [t0|] eqn:E.
  - intros [= -> ->]. split; [lia|]. destruct (run_queue s !! p) as [q|] eqn:Hq; [|done].
    apply find_first in E as (pre & post & Eq & ? & ?). simpl in Eq. subst q.
    exists pre, post. split_and!; try done. intros i ? ? ?; lia.
  - intros (? & pre & post & ? & ? & ? & Hi)%IH. split; [lia|]. exists pre, post. split_and!; try done.
    intros i q t' ? Hq Hin. destruct (decide (i = n)) as [->|].
    + rw Hq in E. by eapply find_none.
    + eapply (Hi i); [lia|done..].
Qed.

Lemma top_scan_none s cpu n :
  top_scan s cpu n = None → ∀ i q t', (i < n)%nat → run_queue s !! i = Some q → t' ∈ q →
  runnable_on s cpu t' = false.
Proof.
  induction n as [|n IH]; simpl; [lia|]. destruct (List.find _ _) eqn:E; [done|].
  intros Hn i q t' ? Hq Hin. destruct (decide (i = n)) as [->|].
  - rw Hq in E. by eapply find_none.
  - eapply (IH Hn i); [lia|done..].
Qed.

Lemma mod_pow2_succ b (n : nat) :
  b mod 2 ^ Z.of_nat (S n) =
  b mod 2 ^ Z.of_nat n + (if Z.testbit b (Z.of_nat n) then 2 ^ Z.of_nat n else 0).
Proof.
  rw Nat2Z.inj_succ. assert (0 < 2 ^ Z.of_nat n) by lia.
  rw Z.pow_succ_r; [|lia]. rw Z.mul_comm Z.rem_mul_r; [|lia..].
  rw -(Z.testbit_spec' b (Z.of_nat n)); [|lia]. destruct (Z.testbit b _); simpl; lia.
Qed.

Lemma top_bit b (n : nat) : 0 ≤ b < 2 ^ Z.of_nat n → Z.log2 (b + 2 ^ Z.of_nat n) = Z.of_nat n.
Proof. intros. apply Z.log2_unique; [lia|]. rw Z.pow_succ_r; lia. Qed.

Lemma clear_top_bit b (n : nat) :
  0 ≤ b < 2 ^ Z.of_nat n → Z.ldiff (b + 2 ^ Z.of_nat n) (Z.shiftl 1 (Z.of_nat n)) = b.
Proof.
  intros [? Hb]. rw Z.shiftl_1_l. apply Z.bits_inj'. intros i Hi.
  rw Z.ldiff_spec Z.pow2_bits_eqb; [|lia]. destruct (Z.lt_trichotomy i (Z.of_nat n)) as [Hlt|[->|Hgt]].
  - rw -(Z.mod_pow2_bits_low _ (Z.of_nat n)); [|lia]. rw -{1}(Z.mul_1_l (2 ^ _)) Z_mod_plus_full.
    rw Z.mod_small; [|lia]. rw (proj2 (Z.eqb_neq _ _)) ?andb_true_r //. lia.
  - rw Z.eqb_refl andb_false_r. symmetry. by apply (Z.bounded_iff_bits_nonneg (Z.of_nat n)); [lia..|].
  - rw (proj1 (Z.bounded_iff_bits_nonneg (Z.succ (Z.of_nat n)) _ _ _)); try lia.
    + symmetry. apply (Z.bounded_iff_bits_nonneg (Z.of_nat n)); [lia..|done|lia].
    + rw Z.pow_succ_r; lia.
Qed.

Definition queue_at s (p : nat) : list thread_ptr := default [] (run_queue s !! p).

(** What [get_top_thread] returns, and the state it leaves. *)
Definition chosen s (cpu : nat) : thread_ptr :=
  match top_scan s cpu 32 with Some (_, t) => t | None => IdleThread cpu end.

Definition dequeued s (cpu : nat) : kstate :=
  match top_scan s cpu 32 with
  | Some (p, t) => st_dequeue (Z.of_nat p) (list_without t (queue_at s p)) s
  | None => s
  end.

Lemma wp_get_run_queue s (p : nat) q (Q : list thread_ptr → kstate → Prop) :
  run_queue s !! p = Some q → Q q s → wp (get_run_queue (Z.of_nat p)) Q s.
Proof.
  intros. eapply wp_deref; [|done]. rw (proj2 (Z.leb_le _ _)); [by rw Nat2Z.id|lia].
Qed.

Lemma get_top_thread_loop_wp X s cpu (Q : thread_ptr → kstate → Prop) n fuel :
  queue_inv X s → (n ≤ 32)%nat → (n ≤ fuel)%nat →
  match top_scan s cpu n with
  | Some (p, t) => Q t (st_dequeue (Z.of_nat p) (list_without t (queue_at s p)) s)
  | None => Q (IdleThread cpu) s
  end →
  wp (get_top_thread_loop fuel cpu (run_queue_bitmap s mod 2 ^ Z.of_nat n)) Q s.
Proof.
  intros I. revert fuel. induction n as [|n IH]; intros fuel Hn Hf HQ.
  { replace (run_queue_bitmap s mod 2 ^ Z.of_nat 0) with 0 by (by rw Z.mod_1_r). by destruct fuel. }
  destruct (lookup_lt_is_Some_2 (run_queue s) n) as [q Hq]; [rw (qi_len _ _ I); lia|].
  rw mod_pow2_succ (qi_bitmap _ _ I n q Hq). simpl in HQ. rw Hq /= in HQ.
  set (b := run_queue_bitmap s mod 2 ^ Z.of_nat n).
  assert (0 ≤ b < 2 ^ Z.of_nat n) as Hb by (apply Z.mod_pos_bound; lia).
  case_bool_decide as Eq; simpl.
  { subst q. simpl in HQ. rw Z.add_0_r. apply IH; [lia..|done]. }
  destruct fuel as [|fuel]; [lia|]. cbn [get_top_thread_loop].
  rw (proj2 (Z.eqb_neq _ _)); [|lia].
  replace (4 * 8 - 1 - clz32 (b + 2 ^ Z.of_nat n)) with (Z.of_nat n)
    by (rw /clz32 top_bit; lia).
  apply wp_bind, (wp_get_run_queue _ _ q); [done|]. apply wp_bind, wp_gets.
  destruct (List.find _ q) as [t|].
  - apply wp_bind, wp_modify, wp_bind. rw /queue_at Hq /st_dequeue /= in HQ.
    apply wp_when; intros; to_prop.
    + apply wp_modify, wp_ret. simpl. by rw bool_decide_eq_true_2 in HQ.
    + apply wp_ret. by rw bool_decide_eq_false_2 in HQ.
  - rw clear_top_bit //. apply IH; [lia..|done].
Qed.

Lemma wp_get_top_thread X s cpu (Q : thread_ptr → kstate → Prop) :
  queue_inv X s → Q (chosen s cpu) (dequeued s cpu) → wp (get_top_thread cpu) Q s.
Proof.
  intros I HQ. apply wp_bind, wp_gets.
  rw -(Z.mod_small (run_queue_bitmap s) (2 ^ Z.of_nat 32)).
  - eapply get_top_thread_loop_wp; [done..|]. rw /chosen /dequeued in HQ.
    by destruct (top_scan s cpu 32) as [[p t]|].
  - apply (qi_bitmap_range _ _ I).
Qed.

Lemma queue_inv_dequeued X s cpu :
  queue_inv X s → chosen s cpu ∉ X →
  queue_inv (if top_scan s cpu 32 then X ∪ {[chosen s cpu]} else X) (dequeued s cpu).
Proof.
  intros I HX. rw /dequeued /chosen. destruct (top_scan s cpu 32) as [[p t]|] eqn:E; [|done].
  apply top_scan_some in E as (_ & pre & post & Hq & _). rw /queue_at Hq.
  apply queue_inv_dequeue; [done..|]. set_solver.
Qed.

(** ** The two insertions *)

Lemma wp_assert_insertable X s t th (Q : unit → kstate → Prop) :
  queue_inv X s → t ∈ X → magic th = THREAD_MAGIC → state th = THREAD_READY →
  thread_lock s = true → Q () s → wp (assert_insertable t th) Q s.
Proof.
  intros I HX Hm Hr Hl HQ. destruct (qi_hole _ _ I t HX).
  apply wp_bind, wp_assert; [by rw Hm|]. apply wp_bind, wp_assert; [by rw Hr|].
  apply wp_bind, wp_gets. apply wp_bind, wp_assert; [by rw queue_node_not_in_list|].
  apply wp_bind, wp_gets. by apply wp_assert.
Qed.

Lemma wp_insert_in_run_queue X s t th (head : bool) (Q : unit → kstate → Prop) :
  queue_inv X s → t ∈ X → threads s !! t = Some th → magic th = THREAD_MAGIC →
  state th = THREAD_READY → thread_is_idle th = false → thread_lock s = true →
  (let q := queue_at s (Z.to_nat (priority th)) in
   let s' := st_enqueue (priority th) (if head then t :: q else q ++ [t]) s in
   queue_inv (X ∖ {[t]}) s' → Q () s') →
  wp (if head then insert_in_run_queue_head t else insert_in_run_queue_tail t) Q s.
Proof.
  intros I HX Ht Hm Hr Hidle Hl HQ. pose proof (qi_priority _ _ I _ _ Ht) as Hp.
  destruct (lookup_lt_is_Some_2 (run_queue s) (Z.to_nat (priority th))) as [q Hq].
  { rw (qi_len _ _ I). lia. }
  simpl in HQ. rw /queue_at Hq /= in HQ.
  assert (wp (get_run_queue (priority th)) (λ q' s', q' = q ∧ s' = s) s) as Hget.
  { rw -{1}(Z2Nat.id (priority th)); [|lia]. by eapply wp_get_run_queue. }
  destruct head.
  all: apply wp_bind; eapply wp_get_thread; [done|]; apply wp_bind.
  all: eapply wp_assert_insertable; [done..|].
  all: apply wp_bind; eapply wp_mono; [exact Hget|]; intros ? ? [-> ->].
  all: apply wp_bind, wp_modify, wp_modify, HQ; eapply queue_inv_enqueue; try done.
  by rw Permutation_app_comm.
Qed.
End invariant.
