(* ===== verification/KernelInv.v ===== *)
(** * The kernel invariant: queues, cpus and timers

    [cpu_inv E s] relates the current threads, the states of threads and the
    idle threads; [E] is the set of cpus that are in the middle of giving up
    their current thread.  [timer_inv E s] relates the timer queues, the timers
    and the threads their callbacks act on; the cpus of [E] may have a real-time
    current thread with a preemption timer still queued.  [kinv] puts both together with
    [queue_inv]; the file ends with the theorem about [thread_resched]. *)

From S2P Require Import Prelude Kernel Timer Thread SchedInv.

Section kinv.
Implicit Types (s : kstate) (t : thread_ptr) (th : thread) (X : gset thread_ptr) (E : gset nat).

Record cpu_inv E s : Prop := {
  ci_current c t : current s !! c = Some t → ∃ th, threads s !! t = Some th ∧
    curr_cpu th = Z.of_nat c ∧ (c ∉ E → state th = THREAD_RUNNING ∧ magic th = THREAD_MAGIC);
  ci_running t th : threads s !! t = Some th → state th = THREAD_RUNNING →
    ∃ c, current s !! c = Some t;
  ci_idle_ptr t th : threads s !! t = Some th → thread_is_idle th = true → ∃ c, t = IdleThread c;
  ci_idle_flag c th : threads s !! IdleThread c = Some th → thread_is_idle th = true ∧
    (state th = THREAD_READY ∨ state th = THREAD_RUNNING);
  ci_blocking t th : threads s !! t = Some th → state th ≠ THREAD_BLOCKED →
    blocking_wait_queue th = None;
  ci_idle c : is_Some (current s !! c) → ∃ th, threads s !! IdleThread c = Some th ∧
    thread_is_idle th = true ∧ magic th = THREAD_MAGIC ∧
    (current s !! c ≠ Some (IdleThread c) ∨ c ∈ E → state th = THREAD_READY);
  ci_idle_home c c' : current s !! c = Some (IdleThread c') → c' = c;
  ci_dead t th : threads s !! t = Some th → magic th ≠ THREAD_MAGIC → state th = THREAD_DEATH;
  ci_retcode t th : threads s !! t = Some th → magic th = THREAD_MAGIC →
    ∃ wq, wait_queues s !! RetcodeWq t = Some wq ∧ wq_magic wq = WAIT_QUEUE_MAGIC
}.

(** What a queued timer's callback relies on. *)
Definition timer_ok s (x : timer_ptr) (tm : timer) : Prop :=
  tm_magic tm = TIMER_MAGIC ∧
  match callback tm with
  | None => False
  | Some thread_sleep_handler_cb => periodic_time tm = 0 ∧ ∃ t th, x = StackTimer t ∧ tm_arg tm = Some t ∧
      threads s !! t = Some th ∧ magic th = THREAD_MAGIC ∧ state th = THREAD_SLEEPING
  | Some wait_queue_timeout_handler_cb => periodic_time tm = 0 ∧ ∃ t th, x = StackTimer t ∧ tm_arg tm = Some t ∧
      threads s !! t = Some th ∧ magic th = THREAD_MAGIC ∧ state th ≠ THREAD_DEATH
  | Some thread_timer_tick_cb => ∃ c, x = PreemptTimer c
  | Some (CbOther _) => ∃ a, x = ObjTimer a
  end.

Definition timer_queued s (x : timer_ptr) : Prop := ∃ c q, timer_queue s !! c = Some q ∧ x ∈ q.

Record timer_inv E s : Prop := {
  ti_queue c : is_Some (current s !! c) → is_Some (timer_queue s !! c);
  ti_member x : timer_queued s x → ∃ tm, timers s !! x = Some tm ∧ timer_ok s x tm;
  ti_preempt c : is_Some (current s !! c) →
    ∃ tm, timers s !! PreemptTimer c = Some tm ∧ tm_magic tm = TIMER_MAGIC;
  ti_quiet c t th : c ∉ E → current s !! c = Some t → threads s !! t = Some th →
    thread_is_real_time_or_idle th = true → ¬ timer_queued s (PreemptTimer c)
}.

Record kinv X E s : Prop := {
  k_queue : queue_inv X s;
  k_cpu : cpu_inv E s;
  k_timer : timer_inv ∅ s
}.

(** ** Frames: the parts of the state each invariant depends on *)

Lemma queue_inv_ext X s s' :
  threads s' = threads s → run_queue s' = run_queue s →
  run_queue_bitmap s' = run_queue_bitmap s → wait_queues s' = wait_queues s →
  queue_inv X s → queue_inv X s'.
Proof.
  intros E1 E2 E3 E4 []. split; unfold ready_at, blocked_on, on_run_queue, on_wait_queue in *;
    by rw ?E1 ?E2 ?E3 ?E4.
Qed.

Lemma cpu_inv_ext E s s' :
  threads s' = threads s → current s' = current s → wait_queues s' = wait_queues s →
  cpu_inv E s → cpu_inv E s'.
Proof. intros E1 E2 E3 []. split; by rw ?E1 ?E2 ?E3. Qed.

Lemma timer_inv_ext E s s' :
  threads s' = threads s → current s' = current s → timers s' = timers s →
  timer_queue s' = timer_queue s → timer_inv E s → timer_inv E s'.
Proof.
  intros E1 E2 E3 E4 []. split; unfold timer_queued, timer_ok in *; by rw ?E1 ?E2 ?E3 ?E4.
Qed.

(** Components no invariant looks at: events, the multiprocessor masks, the
    lock, the clock and the list of all threads. *)
Lemma kinv_ext X E s s' :
  threads s' = threads s → run_queue s' = run_queue s →
  run_queue_bitmap s' = run_queue_bitmap s → wait_queues s' = wait_queues s →
  current s' = current s → timers s' = timers s → timer_queue s' = timer_queue s →
  kinv X E s → kinv X E s'.
Proof.
  intros ? ? ? ? ? ? ? []. split; [by eapply queue_inv_ext|by eapply cpu_inv_ext|by eapply timer_inv_ext].
Qed.

(** ** Updates of a thread *)

Lemma cpu_inv_upd E s t th f :
  cpu_inv E s → threads s !! t = Some th →
  (∀ c, current s !! c = Some t → curr_cpu (f th) = curr_cpu th ∧
     (c ∉ E → state (f th) = state th ∧ magic (f th) = magic th)) →
  (state (f th) = THREAD_RUNNING → state th = THREAD_RUNNING) →
  thread_is_idle (f th) = thread_is_idle th →
  (thread_is_idle th = true → state (f th) = state th ∧ magic (f th) = magic th) →
  (magic (f th) = THREAD_MAGIC → magic th = THREAD_MAGIC) →
  (magic (f th) ≠ THREAD_MAGIC → state (f th) = THREAD_DEATH) →
  (state (f th) ≠ THREAD_BLOCKED → blocking_wait_queue (f th) = None) →
  cpu_inv E (st_upd_thread t f s).
Proof.
  intros I Ht Hcur Hrun Hid Hidst Hm1 Hm2 Hbl.
  assert (∀ t' th', alter f t (threads s) !! t' = Some th' → 
    (t' = t ∧ th' = f th) ∨ (t' ≠ t ∧ threads s !! t' = Some th')) as Hlk.
  { intros. by eapply alter_lookup_cases. }
  destruct I. split; simpl.
  - intros c t' Hc. destruct (ci_current0 _ _ Hc) as (th0 & ? & Ecpu & Hr).
    destruct (decide (t' = t)) as [->|]; [|by exists th0; rw lookup_alter_ne].
    rw lookup_alter_eq Ht. exists (f th). simplify_eq/=. destruct (Hcur _ Hc) as [-> Hs].
    split_and!; [done..|]. intros Hc'. destruct (Hs Hc') as [-> ->]. auto.
  - intros t' th' [[-> ->]|[? ?]]%Hlk ?; eauto.
  - intros t' th' [[-> ->]|[? ?]]%Hlk ?; [|eauto]. apply (ci_idle_ptr0 _ _ Ht). congruence.
  - intros c th' [[<- ->]|[? ?]]%Hlk; [|eauto]. destruct (ci_idle_flag0 _ _ Ht) as [Hi ?].
    destruct (Hidst Hi) as [-> _]. by rw Hid.
  - intros t' th' [[-> ->]|[? ?]]%Hlk ?; eauto.
  - intros c Hc. destruct (ci_idle0 c Hc) as (th0 & ? & ? & ? & ?).
    destruct (decide (IdleThread c = t)) as [<-|]; [|by exists th0; rw lookup_alter_ne].
    rw lookup_alter_eq Ht. exists (f th). simplify_eq/=. destruct Hidst as [-> ->]; [done|].
    by rw Hid.
  - done.
  - intros t' th' [[-> ->]|[? ?]]%Hlk ?; eauto.
  - intros t' th' [[-> ->]|[? ?]]%Hlk ?; eauto.
Qed.

(** The current thread of [cpu] stops running. *)
Lemma cpu_inv_leave s t th f cpu :
  cpu_inv ∅ s → current s !! cpu = Some t → threads s !! t = Some th →
  curr_cpu (f th) = curr_cpu th → thread_is_idle (f th) = thread_is_idle th →
  (thread_is_idle th = true → state (f th) = THREAD_READY ∧ magic (f th) = magic th) →
  state (f th) ≠ THREAD_RUNNING →
  (magic (f th) ≠ THREAD_MAGIC → state (f th) = THREAD_DEATH) →
  (state (f th) ≠ THREAD_BLOCKED → blocking_wait_queue (f th) = None) →
  cpu_inv {[cpu]} (st_upd_thread t f s).
Proof.
  intros I Hcur Ht Hcc Hid Hidst Hnr Hdead Hbl.
  assert (∀ t' th', alter f t (threads s) !! t' = Some th' → 
    (t' = t ∧ th' = f th) ∨ (t' ≠ t ∧ threads s !! t' = Some th')) as Hlk.
  { intros. by eapply alter_lookup_cases. }
  assert (curr_cpu th = Z.of_nat cpu ∧ state th = THREAD_RUNNING ∧ magic th = THREAD_MAGIC) as (Ec & ? & Hm).
  { destruct (ci_current _ _ I _ _ Hcur) as (? & ? & ? & []); [set_solver|]. by simplify_eq. }
  destruct I. split; simpl.
  - intros c t' Hc. destruct (ci_current0 _ _ Hc) as (th0 & ? & Ecpu & Hr).
    destruct (decide (t' = t)) as [->|].
    + rw lookup_alter_eq Ht. exists (f th). simplify_eq/=. rw Hcc. split_and!; [done..|].
      intros []%not_elem_of_singleton. lia.
    + exists th0. rw lookup_alter_ne //. split_and!; try done. intros _. by apply Hr.
  - intros t' th' [[-> ->]|[? ?]]%Hlk ?; [done|eauto].
  - intros t' th' [[-> ->]|[? ?]]%Hlk ?; [|eauto]. apply (ci_idle_ptr0 _ _ Ht). congruence.
  - intros c th' [[<- ->]|[? ?]]%Hlk; [|eauto]. destruct (ci_idle_flag0 _ _ Ht) as [Hi ?].
    destruct (Hidst Hi) as [-> _]. rw Hid. by auto.
  - intros t' th' [[-> ->]|[? ?]]%Hlk ?; eauto.
  - intros c Hc. destruct (ci_idle0 c Hc) as (th0 & ? & ? & ? & Hst).
    destruct (decide (IdleThread c = t)) as [<-|].
    + rw lookup_alter_eq Ht. exists (f th). simplify_eq/=. destruct Hidst as [-> ->]; [done|].
      by rw Hid.
    + exists th0. rw lookup_alter_ne //. split_and!; try done.
      intros [?| ->%elem_of_singleton]; apply Hst; left; congruence.
  - done.
  - intros t' th' [[-> ->]|[? ?]]%Hlk ?; eauto.
  - intros t' th' [[-> ->]|[? ?]]%Hlk ?; eauto.
Qed.

Lemma timer_inv_upd E s t th f :
  timer_inv E s → threads s !! t = Some th →
  (timer_queued s (StackTimer t) → magic (f th) = magic th ∧
    (state th = THREAD_SLEEPING → state (f th) = THREAD_SLEEPING) ∧
    (state th ≠ THREAD_DEATH → state (f th) ≠ THREAD_DEATH)) →
  (thread_is_real_time_or_idle (f th) = true → thread_is_real_time_or_idle th = true) →
  timer_inv E (st_upd_thread t f s).
Proof.
  intros I Ht Hst Hrt. destruct I. split; simpl; try done.
  - intros x Hx. destruct (ti_member0 x Hx) as (tm & ? & ? & Hcb). exists tm. split; [done|].
    split; [done|]. destruct (callback tm) as [[]|]; try done.
    all: destruct Hcb as (? & t' & th' & -> & ? & ? & ? & ?); split; [done|]; exists t'; simpl.
    all: destruct (decide (t' = t)) as [->|]; [|exists th'; by rw lookup_alter_ne].
    all: exists (f th); simplify_eq; rw lookup_alter_eq Ht; destruct (Hst Hx) as (-> & ? & ?);
      split_and!; auto.
  - intros c t' th' Hc Hcur [[-> ->]|[? ?]]%(alter_lookup_cases _ _ _ _ _ _ Ht) ?; eauto.
Qed.


(** ** Timer operations *)

Lemma timer_in_list_spec x s : timer_in_list x s = true ↔ timer_queued s x.
Proof. rw /timer_in_list bool_decide_eq_true /map_Exists /timer_queued. naive_solver. Qed.

Lemma timer_not_in_list x s : ¬ timer_queued s x → timer_in_list x s = false.
Proof. intros. apply not_true_is_false. by rw timer_in_list_spec. Qed.

Lemma insert_by_time_perm sched x q : insert_by_time sched x q ≡ₚ x :: q.
Proof.
  induction q as [|y q IH]; simpl; [done|]. case_match; [done|]. rw IH. constructor.
Qed.

(** The state after [timer_set] queues [x] and after [timer_cancel]. *)
Definition st_timer_set (cpu : nat) (x : timer_ptr) (f : timer → timer) (q : list timer_ptr)
    (ev : list hw_event) s : kstate :=
  set_events ev (set_timer_queue (<[cpu := q]> (timer_queue s)) (set_timers (alter f x (timers s)) s)).

Definition st_timer_cancel (x : timer_ptr) (f : timer → timer) (ev : list hw_event) s : kstate :=
  set_events ev (set_timers (alter f x (timers s))
    (set_timer_queue (list_without x <$> timer_queue s) s)).

Definition timer_program time delay period cb a (t : timer) : timer :=
  set_tm_arg a (set_callback (Some cb) (set_periodic_time period
    (set_scheduled_time (u32 (time + delay)) t))).

Definition timer_clear (t : timer) : timer :=
  set_tm_arg None (set_callback None (set_periodic_time 0 t)).

Lemma wp_timer_set s cpu x tm q delay period cb a (Q : unit → kstate → Prop) :
  timers s !! x = Some tm → tm_magic tm = TIMER_MAGIC → ¬ timer_queued s x →
  timer_queue s !! cpu = Some q →
  (let f := timer_program (now s) delay period cb a in
   let sched := sched_of (set_timers (alter f x (timers s)) s) in
   ∀ ev, Q () (st_timer_set cpu x f (insert_by_time sched x q) ev s)) →
  wp (timer_set cpu x delay period cb a) Q s.
Proof.
  intros Hx Hm Hnq Hq HQ. apply wp_bind. eapply wp_deref; [done|].
  apply wp_bind, wp_assert; [by rw Hm|]. apply wp_bind, wp_gets.
  apply wp_bind, wp_assert; [by rw timer_not_in_list|]. apply wp_bind, wp_gets.
  apply wp_bind, wp_bind. eapply wp_deref; [done|]. apply wp_modify.
  apply wp_bind, wp_bind, wp_gets, wp_bind. eapply wp_deref; [done|]. apply wp_modify.
  apply wp_bind. eapply wp_deref; [by apply lookup_insert_eq|].
  apply wp_when; intros; [apply wp_modify|]; apply HQ.
Qed.

Lemma list_without_queues x s :
  ¬ timer_queued s x → list_without x <$> timer_queue s = timer_queue s.
Proof.
  intros Hnq. apply map_eq. intros c. rw lookup_fmap.
  destruct (timer_queue s !! c) as [q|] eqn:E; [|done]. simpl. f_equal. apply list_without_id.
  intros ?. apply Hnq. by exists c, q.
Qed.

Lemma timer_queued_without x y s s' :
  timer_queue s' = list_without x <$> timer_queue s →
  timer_queued s' y ↔ y ≠ x ∧ timer_queued s y.
Proof.
  intros Es. rw /timer_queued Es. split.
  - intros (c & q & Hc & Hin). rw lookup_fmap in Hc. destruct (timer_queue s !! c) as [q0|] eqn:E; [|done].
    simplify_eq/=. apply list_without_elem in Hin as [? ?]. eauto.
  - intros (Hne & c & q & Hc & Hin). exists c, (list_without x q). rw lookup_fmap Hc.
    split; [done|]. by apply list_without_elem.
Qed.

Lemma wp_timer_cancel E s cpu x tm (Q : unit → kstate → Prop) :
  timer_inv E s → timers s !! x = Some tm → tm_magic tm = TIMER_MAGIC →
  is_Some (timer_queue s !! cpu) →
  (∀ ev, Q () (st_timer_cancel x timer_clear ev s)) →
  wp (timer_cancel cpu x) Q s.
Proof.
  intros I Hx Hm [q Hq] HQ. apply wp_bind. eapply wp_deref; [done|].
  apply wp_bind, wp_assert; [by rw Hm|]. apply wp_bind. eapply wp_deref; [done|].
  apply wp_bind, wp_gets, wp_bind.
  set (s1 := set_timer_queue (list_without x <$> timer_queue s) s).
  enough (∀ s2, s2 = s1 → wp (upd_timer x timer_clear;; q' ← get_timer_queue cpu;
    match head q' with None => emit (EvStopTimer cpu)
    | Some newhead => if bool_decide (head q = Some newhead) then mret ()
      else time ← gets now; nh ← get_timer newhead;
        emit (EvSetOneshot cpu (if TIME_LT (scheduled_time nh) time then 0
          else u32 (scheduled_time nh - time))) end) Q s2) as Hrest.
  { apply wp_when; intros Hin.
    - apply wp_modify. by apply Hrest.
    - apply Hrest. rw /s1 list_without_queues; [by destruct s|].
      intros ?%timer_in_list_spec. congruence. }
  intros ? ->. apply wp_bind, wp_bind. eapply wp_deref; [done|]. apply wp_modify.
  apply wp_bind. eapply wp_deref; [simpl; by rw lookup_fmap Hq|].
  destruct (head (list_without x q)) as [nh|] eqn:Eh; [|by apply wp_modify, HQ].
  case_bool_decide; [apply wp_ret, (HQ (events s))|].
  apply wp_bind, wp_gets, wp_bind.
  destruct (ti_member _ _ I nh) as (tmh & ? & _).
  { destruct (list_without x q) as [|y l] eqn:El; [done|]. simplify_eq/=.
    assert (nh ∈ list_without x q) as [_ ?]%list_without_elem by (rw El; apply elem_of_cons; auto).
    by exists cpu, q. }
  destruct (decide (nh = x)) as [->|].
  - eapply wp_deref; [simpl; by rw lookup_alter_eq Hx|]. apply wp_modify, HQ.
  - eapply wp_deref; [simpl; by rw lookup_alter_ne|]. apply wp_modify, HQ.
Qed.

Lemma timer_inv_cancel E s x f ev :
  timer_inv E s → (∀ tm, tm_magic (f tm) = tm_magic tm) → timer_inv E (st_timer_cancel x f ev s).
Proof.
  intros I Hf.
  assert (∀ y, timer_queued (st_timer_cancel x f ev s) y → y ≠ x ∧ timer_queued s y) as Hq.
  { intros y. by rw (timer_queued_without x). }
  destruct I. split; simpl.
  - intros c Hc. rw lookup_fmap fmap_is_Some. auto.
  - intros y [Hne Hy]%Hq. destruct (ti_member0 y Hy) as (tm & ? & ?). exists tm.
    by rw lookup_alter_ne.
  - intros c Hc. destruct (ti_preempt0 c Hc) as (tm & Hc' & ?).
    destruct (decide (PreemptTimer c = x)) as [<-|].
    + exists (f tm). by rw lookup_alter_eq Hc' Hf.
    + exists tm. by rw lookup_alter_ne.
  - intros c t th Hc Hcur Ht Hrt [_ ?]%Hq. by eapply ti_quiet0.
Qed.

Lemma timer_queued_set cpu x f q q0 ev s y :
  timer_queue s !! cpu = Some q0 → q ≡ₚ x :: q0 →
  timer_queued (st_timer_set cpu x f q ev s) y → y = x ∨ timer_queued s y.
Proof.
  intros Hq0 Hq (c & q' & Hc & Hin). simpl in Hc. destruct (decide (c = cpu)) as [->|].
  - rw lookup_insert_eq in Hc. simplify_eq. rw Hq in Hin. apply elem_of_cons in Hin as [->|?]; [by left|].
    right. by exists cpu, q0.
  - rw lookup_insert_ne // in Hc. right. by exists c, q'.
Qed.

Lemma timer_inv_set E s x tm f cpu q0 q ev :
  timer_inv E s → timers s !! x = Some tm → timer_queue s !! cpu = Some q0 → q ≡ₚ x :: q0 →
  timer_ok s x (f tm) → tm_magic (f tm) = tm_magic tm →
  (∀ c t th, x = PreemptTimer c → c ∉ E → current s !! c = Some t → threads s !! t = Some th →
    thread_is_real_time_or_idle th = false) →
  timer_inv E (st_timer_set cpu x f q ev s).
Proof.
  intros I Hx Hq0 Hq Hok Hm Hpre. destruct I. split; simpl.
  - intros c Hc. destruct (decide (c = cpu)) as [->|]; [by rw lookup_insert_eq|].
    rw lookup_insert_ne //. auto.
  - intros y Hy. destruct (decide (y = x)) as [->|].
    + exists (f tm). by rw lookup_alter_eq Hx.
    + apply (timer_queued_set _ _ _ _ q0) in Hy as [?|Hy]; [done| |done..].
      destruct (ti_member0 y Hy) as (tm' & ? & ?). exists tm'. by rw lookup_alter_ne.
  - intros c Hc. destruct (ti_preempt0 c Hc) as (tm' & Hc' & ?).
    destruct (decide (PreemptTimer c = x)) as [<-|].
    + exists (f tm). rw lookup_alter_eq Hx. simplify_eq. by rw Hm.
    + exists tm'. by rw lookup_alter_ne.
  - intros c t th Hc Hcur Ht Hrt Hy. apply (timer_queued_set _ _ _ _ q0) in Hy as [?|Hy]; [|by eapply ti_quiet0|done..].
    by rw (Hpre c t th) in Hrt.
Qed.

(** Steps that keep everything the invariants say about a thread. *)
Definition same_kinv (f : thread → thread) : Prop :=
  same_sched f ∧ ∀ th, curr_cpu (f th) = curr_cpu th ∧ flags (f th) = flags th.

Lemma kinv_upd_same X E s t th f :
  kinv X E s → threads s !! t = Some th → same_kinv f → kinv X E (st_upd_thread t f s).
Proof.
  intros [] Ht [Hf Hc]. destruct (Hf th) as (Em & _ & Es & Ei & Eb). destruct (Hc th) as [Ec Ef].
  split.
  - by eapply queue_inv_upd_same.
  - eapply cpu_inv_upd; rw ?Em ?Es ?Ec ?Eb //; intros ?.
    + by apply (ci_dead _ _ k_cpu0 _ _ Ht).
    + by apply (ci_blocking _ _ k_cpu0 _ _ Ht).
  - eapply timer_inv_upd; rw ?Em ?Es //. by rw /thread_is_real_time_or_idle Ef.
Qed.

(** ** The context switch *)

Definition requantum (th : thread) : thread :=
  if remaining_quantum th <=? 0 then set_remaining_quantum 5 th else th.

(** A thread after [cpu] has switched from [cur] to [new]. *)
Definition switched (cpu : nat) (cur new t : thread_ptr) (th : thread) : thread :=
  if decide (t = new) then
    set_curr_cpu (Z.of_nat cpu) ((if decide (new = cur) then id else requantum) (set_state THREAD_RUNNING th))
  else if decide (t = cur) then set_curr_cpu (-1) th
  else th.

Lemma requantum_same : same_kinv requantum.
Proof. split; [intros th|intros th]; rw /requantum; by case_match. Qed.

Lemma switched_fields cpu cur new t th :
  let th' := switched cpu cur new t th in
  magic th' = magic th ∧ flags th' = flags th ∧ priority th' = priority th ∧
  blocking_wait_queue th' = blocking_wait_queue th ∧
  wait_queue_block_ret th' = wait_queue_block_ret th ∧
  state th' = (if decide (t = new) then THREAD_RUNNING else state th) ∧
  curr_cpu th' = (if decide (t = new) then Z.of_nat cpu else if decide (t = cur) then -1 else curr_cpu th).
Proof.
  simpl. rw /switched /requantum. repeat case_decide; simpl; try done. by case_match.
Qed.

Lemma timer_inv_set_current s cpu new nth :
  timer_inv {[cpu]} s → is_Some (current s !! cpu) → threads s !! new = Some nth →
  (thread_is_real_time_or_idle nth = true → ¬ timer_queued s (PreemptTimer cpu)) →
  timer_inv ∅ (set_current (<[cpu := new]> (current s)) s).
Proof.
  intros I Hcpu Hnew Hq.
  assert (∀ c, is_Some (<[cpu:=new]> (current s) !! c) → is_Some (current s !! c)) as Hsome.
  { intros c. destruct (decide (c = cpu)) as [->|]; [done|]. by rw lookup_insert_ne. }
  destruct I. split; simpl; eauto.
  intros c t th _ Hc Ht Hrt. destruct (decide (c = cpu)) as [->|].
  - rw lookup_insert_eq in Hc. simplify_eq. by apply Hq.
  - rw lookup_insert_ne // in Hc. eapply ti_quiet0; [|done..]. by apply not_elem_of_singleton.
Qed.

Lemma timer_inv_weaken E E' s : timer_inv E s → E ⊆ E' → timer_inv E' s.
Proof. intros [] ?. split; try done. intros c t th ?. apply ti_quiet0. set_solver. Qed.

Lemma cpu_inv_switch s s' cpu cur new cth nth :
  cpu_inv {[cpu]} s → current s !! cpu = Some cur → threads s !! cur = Some cth →
  state cth ≠ THREAD_RUNNING → threads s !! new = Some nth → state nth = THREAD_READY →
  magic nth = THREAD_MAGIC → (thread_is_idle nth = true → new = IdleThread cpu) →
  (∀ t, threads s' !! t = switched cpu cur new t <$> threads s !! t) →
  current s' = <[cpu := new]> (current s) → wait_queues s' = wait_queues s →
  cpu_inv ∅ s'.
Proof.
  intros I Hcpu Hcur Hcs Hnew Hns Hnm Hnid Hth Hcurr Hwq.
  assert (∀ t th', threads s' !! t = Some th' → ∃ th, threads s !! t = Some th ∧ th' = switched cpu cur new t th) as Hinv.
  { intros t th'. rw Hth. destruct (threads s !! t); [|done]. naive_solver. }
  assert (curr_cpu cth = Z.of_nat cpu) as Hcc.
  { destruct (ci_current _ _ I _ _ Hcpu) as (? & ? & ? & _). by simplify_eq. }
  assert (∀ c t, c ≠ cpu → current s !! c = Some t → t ≠ new ∧ t ≠ cur) as Hother.
  { intros c t Hne Hc. destruct (ci_current _ _ I _ _ Hc) as (th & ? & ? & []); [set_solver|].
    split; intros ->; simplify_eq; first [congruence|lia]. }
  assert (∀ t th, thread_is_idle (switched cpu cur new t th) = thread_is_idle th) as Hidle.
  { intros. rw /thread_is_idle. by destruct (switched_fields cpu cur new t th) as (_ & -> & _). }
  destruct I. split.
  - intros c t. rw Hcurr Hth. destruct (decide (c = cpu)) as [->|Hne].
    + rw lookup_insert_eq. intros [= <-]. rw Hnew. eexists; split; [done|].
      destruct (switched_fields cpu cur new new nth) as (-> & _ & _ & _ & _ & -> & ->).
      by rw !decide_True.
    + rw lookup_insert_ne //. intros Hc. destruct (Hother _ _ Hne Hc).
      destruct (ci_current0 _ _ Hc) as (th & -> & ? & Hr). exists th.
      rw /= /switched !decide_False //. split_and!; [done..|]. intros _. apply Hr. set_solver.
  - intros t th' (th & Ht & ->)%Hinv. destruct (switched_fields cpu cur new t th) as (_ & _ & _ & _ & _ & -> & _).
    rw Hcurr. case_decide as Hn; [subst; exists cpu; by rw lookup_insert_eq|].
    intros Hr. destruct (ci_running0 _ _ Ht Hr) as [c Hc]. exists c. rw lookup_insert_ne //.
    intros <-. congruence.
  - intros t th' (th & Ht & ->)%Hinv. rw Hidle. by apply ci_idle_ptr0.
  - intros c th' (th & Ht & ->)%Hinv. rw Hidle. destruct (ci_idle_flag0 _ _ Ht).
    destruct (switched_fields cpu cur new (IdleThread c) th) as (_ & _ & _ & _ & _ & -> & _).
    split; [done|]. case_decide; auto.
  - intros t th' (th & Ht & ->)%Hinv.
    destruct (switched_fields cpu cur new t th) as (_ & _ & _ & -> & _ & -> & _).
    case_decide as En; [|by eapply ci_blocking0]. intros _. subst. apply (ci_blocking0 _ _ Ht). congruence.
  - intros c Hc. destruct (ci_idle0 c) as (th & Ht & ? & ? & Hr).
    { rw Hcurr in Hc. destruct (decide (c = cpu)) as [->|]; [done|]. by rw lookup_insert_ne in Hc. }
    rw Hth Ht. eexists; split; [done|]. rw Hidle.
    destruct (switched_fields cpu cur new (IdleThread c) th) as (-> & _ & _ & _ & _ & -> & _).
    split_and!; [done..|]. intros [Hn|]; [|set_solver]. rw Hcurr in Hn.
    destruct (decide (c = cpu)) as [->|Hne].
    + rw lookup_insert_eq in Hn. rw decide_False; [apply Hr; set_solver|congruence].
    + rw lookup_insert_ne // in Hn. rw decide_False; [apply Hr; by left|].
      intros <-. simplify_eq. by specialize (Hnid ltac:(done)); simplify_eq.
  - intros c c'. rw Hcurr. destruct (decide (c = cpu)) as [->|Hne].
    + rw lookup_insert_eq. intros [= ->]. apply ci_idle_flag0 in Hnew as [Hf _]. apply Hnid in Hf. by simplify_eq.
    + rw lookup_insert_ne //. apply ci_idle_home0.
  - intros t th' (th & Ht & ->)%Hinv.
    destruct (switched_fields cpu cur new t th) as (-> & _ & _ & _ & _ & -> & _). intros Hm.
    rw decide_False; [by eapply ci_dead0|]. intros ->. congruence.
  - intros t th' (th & Ht & ->)%Hinv. destruct (switched_fields cpu cur new t th) as (-> & _).
    rw Hwq. by apply ci_retcode0.
Qed.

(** The two mask updates of [switch_to]. *)
Lemma wp_mp_idle cpu (b : bool) (Q : unit → kstate → Prop) s :
  (∀ m, Q () (set_mp m s)) → wp (if b then mp_set_cpu_idle cpu else mp_set_cpu_busy cpu) Q s.
Proof. intros HQ. by destruct b; apply wp_modify. Qed.

Lemma wp_mp_realtime cpu (b : bool) (Q : unit → kstate → Prop) s :
  (∀ m, Q () (set_mp m s)) →
  wp (if b then mp_set_cpu_realtime cpu else mp_set_cpu_non_realtime cpu) Q s.
Proof. intros HQ. by destruct b; apply wp_modify. Qed.

(** The preemption timer when [cpu] goes from [oth] to [nth]. *)
Lemma wp_switch_timer s cpu cur oth nth (Q : unit → kstate → Prop) :
  timer_inv ∅ s → current s !! cpu = Some cur → threads s !! cur = Some oth →
  (∀ tms tq ev, let s' := set_events ev (set_timer_queue tq (set_timers tms s)) in
    timer_inv {[cpu]} s' →
    (thread_is_real_time_or_idle nth = true → ¬ timer_queued s' (PreemptTimer cpu)) → Q () s') →
  wp (if thread_is_real_time_or_idle nth then
        when (negb (thread_is_real_time_or_idle oth)) (timer_cancel cpu (PreemptTimer cpu))
      else
        when (thread_is_real_time_or_idle oth)
          (timer_set_periodic cpu (PreemptTimer cpu) 10 thread_timer_tick_cb None)) Q s.
Proof.
  intros I Hcpu Hcur HQ. destruct (ti_preempt _ _ I cpu) as (tm & Htm & Hm); [by rw Hcpu|].
  destruct (ti_queue _ _ I cpu) as [q Hq]; [by rw Hcpu|].
  assert (timer_inv {[cpu]} s) as Iw by (eapply timer_inv_weaken; [done|set_solver]).
  assert (thread_is_real_time_or_idle oth = true → ¬ timer_queued s (PreemptTimer cpu)) as Hquiet.
  { intros. by apply (ti_quiet _ _ I cpu cur oth); [apply not_elem_of_empty|..]. }
  assert (s = set_events (events s) (set_timer_queue (timer_queue s) (set_timers (timers s) s))) as Es
    by by destruct s.
  destruct (thread_is_real_time_or_idle nth); apply wp_when; intros Ho; to_prop.
  - eapply wp_timer_cancel; [done..| |]; [done|]. intros ev.
    apply (HQ (alter timer_clear (PreemptTimer cpu) (timers s)) (list_without (PreemptTimer cpu) <$> timer_queue s) ev).
    + by apply (timer_inv_cancel _ s (PreemptTimer cpu) timer_clear ev).
    + intros _. rw (timer_queued_without (PreemptTimer cpu) _ s) //. tauto.
  - rw Es. apply HQ; by rw -Es; auto.
  - eapply wp_timer_set; [done..|by apply Hquiet|done|]. intros f sched ev. eapply HQ; [|done].
    eapply (timer_inv_set _ s _ tm f cpu q); try done; [apply insert_by_time_perm|split; [done|by exists cpu]|].
    intros c ? ? [= ->] ?. set_solver.
  - rw Es. apply HQ; by rw -Es.
Qed.

Lemma wp_switch_to s cpu cur new oth nth (Q : unit → kstate → Prop) :
  timer_inv ∅ s → current s !! cpu = Some cur → threads s !! cur = Some oth →
  threads s !! new = Some nth → cur ≠ new → thread_lock s = true →
  (∀ s', threads s' = alter (set_curr_cpu (Z.of_nat cpu)) new
           (alter (set_curr_cpu (-1)) cur (alter requantum new (threads s))) →
    run_queue s' = run_queue s → run_queue_bitmap s' = run_queue_bitmap s →
    wait_queues s' = wait_queues s → current s' = <[cpu := new]> (current s) →
    thread_lock s' = true → timer_inv ∅ s' → Q () s') →
  wp (switch_to cpu cur new) Q s.
Proof.
  intros I Hcpu Hcur Hnew Hne Hl HQ. set (T := alter (set_curr_cpu (Z.of_nat cpu)) new
           (alter (set_curr_cpu (-1)) cur (alter requantum new (threads s)))).
  assert (∃ nth', T !! new = Some nth' ∧ flags nth' = flags nth) as (nth' & Hn & Hnf).
  { rw /T lookup_alter_eq lookup_alter_ne // lookup_alter_eq Hnew. eexists; split; [done|].
    simpl. by destruct (proj2 requantum_same nth) as [_ ->]. }
  assert (T !! cur = Some (set_curr_cpu (-1) oth)) as Ho.
  { by rw /T lookup_alter_ne // lookup_alter_eq lookup_alter_ne // Hcur. }
  apply wp_bind. eapply wp_upd_thread; [done|].
  apply wp_bind. eapply wp_upd_thread; [simpl; by rw lookup_alter_ne|].
  apply wp_bind. eapply wp_upd_thread; [simpl; by rw lookup_alter_ne // lookup_alter_eq Hnew|]. simpl.
  apply wp_bind. eapply wp_get_thread; [exact Hn|].
  assert (timer_inv ∅ (set_threads T s)) as IT.
  { change (timer_inv ∅ (st_upd_thread new (set_curr_cpu (Z.of_nat cpu))
      (st_upd_thread cur (set_curr_cpu (-1)) (st_upd_thread new requantum s)))).
    eapply timer_inv_upd; [|simpl; by rw lookup_alter_ne // lookup_alter_eq Hnew|done..].
    eapply timer_inv_upd; [|simpl; by rw lookup_alter_ne|done..].
    destruct (proj1 requantum_same nth) as (Em & _ & Es & _). destruct (proj2 requantum_same nth) as [_ Ef].
    eapply timer_inv_upd; [done..| |]; rw ?Em ?Es //. by rw /thread_is_real_time_or_idle Ef. }
  set (sT := set_threads T s) in IT.
  apply wp_bind, wp_mp_idle. intros m1. apply wp_bind, wp_mp_realtime. intros m2.
  apply wp_bind. eapply wp_get_thread; [exact Ho|].
  apply wp_bind. eapply wp_switch_timer; [eapply timer_inv_ext; [..|exact IT]; done|done|exact Ho|].
  intros tms tq ev s' I' Hq'. apply wp_bind, wp_modify.
  eapply timer_inv_set_current in I'; [|by rw /= Hcpu|exact Hn|done].
  apply wp_when; intros _; [|by apply HQ].
  apply wp_bind, wp_bind, wp_gets, wp_assert; [done|]. apply wp_modify.
  apply HQ; try done. by eapply timer_inv_ext; [..|exact I'].
Qed.

Lemma dequeued_other s cpu :
  threads (dequeued s cpu) = threads s ∧ wait_queues (dequeued s cpu) = wait_queues s ∧
  current (dequeued s cpu) = current s ∧ timers (dequeued s cpu) = timers s ∧
  timer_queue (dequeued s cpu) = timer_queue s ∧ thread_lock (dequeued s cpu) = thread_lock s.
Proof.
  rw /dequeued /st_dequeue. destruct (top_scan s cpu 32) as [[p t]|]; [|done]. by case_bool_decide.
Qed.

(** The thread [get_top_thread] picks is ready; it is the idle thread of the
    cpu exactly when no queued thread may run there. *)
Lemma chosen_ready X E s cpu :
  queue_inv X s → cpu_inv E s → cpu ∈ E → is_Some (current s !! cpu) →
  ∃ nth, threads s !! chosen s cpu = Some nth ∧ magic nth = THREAD_MAGIC ∧
    state nth = THREAD_READY ∧ thread_is_idle nth = negb (bool_decide (is_Some (top_scan s cpu 32))) ∧
    (thread_is_idle nth = true → chosen s cpu = IdleThread cpu).
Proof.
  intros I C HE Hc. rw /chosen. destruct (top_scan s cpu 32) as [[p t]|] eqn:Es.
  - apply top_scan_some in Es as (_ & pre & post & Hq & _).
    destruct (qi_ready _ _ I _ _ t Hq) as (th & ? & ? & ? & _ & Hid); [set_solver|].
    exists th. by rw Hid bool_decide_true.
  - destruct (ci_idle _ _ C cpu Hc) as (th & ? & Hid & ? & Hr). exists th.
    rw bool_decide_false; [|by intros []]. rw Hr; auto.
Qed.

(** What a reschedule does: the chosen thread is dequeued and becomes current. *)
Record resched_post (cpu : nat) (cur : thread_ptr) s s' : Prop := {
  rp_current : current s' = <[cpu := chosen s cpu]> (current s);
  rp_run_queue : run_queue s' = run_queue (dequeued s cpu);
  rp_wait_queues : wait_queues s' = wait_queues s;
  rp_threads t : threads s' !! t = switched cpu cur (chosen s cpu) t <$> threads s !! t;
  rp_lock : thread_lock s' = true
}.

(** The chosen thread may be marked running. *)
Lemma queue_inv_run s cpu nth f :
  queue_inv ∅ s → threads s !! chosen s cpu = Some nth → state nth = THREAD_READY →
  thread_is_idle nth = negb (bool_decide (is_Some (top_scan s cpu 32))) →
  state (f nth) = THREAD_RUNNING → priority (f nth) = priority nth →
  queue_inv ∅ (st_upd_thread (chosen s cpu) f (dequeued s cpu)).
Proof.
  intros I Hn Hr Hid Hf Hp. set (new := chosen s cpu) in *.
  assert (queue_inv (∅ ∪ {[new]}) (dequeued s cpu)) as I'.
  { pose proof (queue_inv_dequeued ∅ s cpu I (not_elem_of_empty _)) as Id.
    destruct (top_scan s cpu 32) eqn:Es; [done|].
    destruct (dequeued_other s cpu) as (Et & _). eapply queue_inv_open; [done|by rw Et| |congruence].
    right. by rw Hid bool_decide_false. }
  destruct (dequeued_other s cpu) as (Et & _). pose proof (qi_priority _ _ I _ _ Hn).
  apply (queue_inv_upd_hole _ _ new nth f) in I'; [|set_solver|by rw Et|lia].
  apply (queue_inv_close _ _ new (f nth)) in I';
    [|set_solver|by rw /= lookup_alter_eq Et Hn|rw Hf; by auto|by rw Hf].
  by replace ((∅ ∪ {[new]}) ∖ {[new]}) with (∅ : gset thread_ptr) in I' by set_solver.
Qed.

Lemma switched_alter cpu cur new (m : gmap thread_ptr thread) t :
  cur ≠ new →
  alter (set_curr_cpu (Z.of_nat cpu)) new (alter (set_curr_cpu (-1)) cur
    (alter requantum new (alter (set_state THREAD_RUNNING) new m))) !! t =
  switched cpu cur new t <$> m !! t.
Proof.
  intros Hne. rw /switched. destruct (decide (t = new)) as [->|].
  - rw lookup_alter_eq lookup_alter_ne // !lookup_alter_eq -!option_fmap_compose.
    destruct (m !! new); [|done]. simpl. by rw decide_False.
  - rw lookup_alter_ne //. destruct (decide (t = cur)) as [->|].
    + rw lookup_alter_eq !lookup_alter_ne //.
    + rw !lookup_alter_ne //. by destruct (m !! t).
Qed.

Lemma wp_thread_resched s cpu cur cth (Q : unit → kstate → Prop) :
  kinv ∅ {[cpu]} s → current s !! cpu = Some cur → threads s !! cur = Some cth →
  state cth ≠ THREAD_RUNNING → thread_lock s = true →
  (∀ s', resched_post cpu cur s s' → kinv ∅ ∅ s' → Q () s') →
  wp (thread_resched cpu) Q s.
Proof.
  intros [I C T] Hcpu Hcur Hcs Hl HQ.
  destruct (chosen_ready _ _ s cpu I C) as (nth & Hn & Hm & Hr & Hid & Hidle); [set_solver|by rw Hcpu|].
  destruct (dequeued_other s cpu) as (Et & Ew & Ec & Etm & Etq & El).
  apply wp_bind. eapply wp_deref; [done|]. apply wp_bind. eapply wp_get_thread; [done|].
  apply wp_bind, wp_bind, wp_gets, wp_assert; [done|].
  apply wp_bind, wp_assert; [by rw bool_decide_false|].
  apply wp_bind. eapply wp_get_top_thread; [done|].
  apply wp_bind. eapply wp_upd_thread; [by rw Et|]. set (new := chosen s cpu) in *.
  assert (timer_inv ∅ (st_upd_thread new (set_state THREAD_RUNNING) (dequeued s cpu))) as T'.
  { eapply timer_inv_upd; [by eapply timer_inv_ext; [..|exact T]|by rw Et| |done].
    intros _. simpl. rw Hr. done. }
  assert (queue_inv ∅ (st_upd_thread new (set_state THREAD_RUNNING) (dequeued s cpu))) as I'
    by by eapply queue_inv_run.
  destruct (decide (new = cur)) as [Enew|Enew]; [rw bool_decide_true //|rw bool_decide_false //].
  - assert (∀ t, alter (set_state THREAD_RUNNING) new (threads s) !! t =
      switched cpu cur new t <$> threads s !! t) as Hsw.
    { intros t. destruct (ci_current _ _ C _ _ Hcpu) as (th0 & Hth0 & Hcc & _).
      assert (th0 = nth) as -> by congruence.
      rw /switched. destruct (decide (t = new)) as [->|].
      - rw lookup_alter_eq Hn /= decide_True //. simpl. f_equal. destruct nth. by simplify_eq/=.
      - rw lookup_alter_ne //. destruct (decide (t = cur)); [congruence|]. by destruct (threads s !! t). }
    assert (current (dequeued s cpu) = <[cpu := new]> (current s)) as Ec' by by rw Ec insert_id // Enew.
    apply wp_ret, HQ; [split; simpl; rw ?Et ?El //|]. split; [done| |done].
    eapply cpu_inv_switch; rw /= ?Et ?Ec' ?Ew //.
  - eapply wp_switch_to; [done|by rw /= Ec|simpl; rw lookup_alter_ne; [by rw Et|done]| |done|by rw /= El|].
    { simpl. by rw lookup_alter_eq Et Hn. }
    intros s' HT HR HB HW HC HL HTi. simpl in *.
    assert (∀ t, threads s' !! t = switched cpu cur new t <$> threads s !! t) as Hsw.
    { intros t. rw HT Et switched_alter //. }
    apply HQ; [split; rw ?HC ?Ec ?HW ?Ew //|]. split; [| |done].
    + apply (queue_inv_upd_same _ _ new requantum) in I'; [|apply requantum_same].
      apply (queue_inv_upd_same _ _ cur (set_curr_cpu (-1))) in I'; [|done].
      apply (queue_inv_upd_same _ _ new (set_curr_cpu (Z.of_nat cpu))) in I'; [|done].
      by eapply queue_inv_ext; [..|exact I'].
    + eapply cpu_inv_switch; rw ?HC ?Ec ?HW ?Ew //.
Qed.
End kinv.

(** Closes [kinv X E s'] from [kinv X E s] when [s'] is [s] with such components
    changed. *)
Ltac kinv_frame := eapply kinv_ext; [..|eassumption]; reflexivity.

#[export] Hint Extern 1 (kinv _ _ (set_events _ _)) => kinv_frame : mk.
#[export] Hint Extern 1 (kinv _ _ (set_mp _ _)) => kinv_frame : mk.
#[export] Hint Extern 1 (kinv _ _ (set_thread_lock _ _)) => kinv_frame : mk.
#[export] Hint Extern 1 (kinv _ _ (set_thread_list _ _)) => kinv_frame : mk.
