(* ===== verification/SchedOps.v ===== *)
(** * The operations of [Thread] against the kernel invariant

    For every operation of [src/mk/kernel/thread.c]: it meets the assertions of
    the code, preserves [kinv], and has the functional effect stated. *)

From S2P Require Import Prelude Kernel Timer Thread SchedInv KernelInv.

Section ops.
Implicit Types (s : kstate) (t : thread_ptr) (th : thread) (X : gset thread_ptr) (E : gset nat).

(** ** Steps of [kinv] *)

(** The current thread stops running and is between queues. *)
Lemma kinv_leave X s cpu cur cth f :
  kinv X ∅ s → current s !! cpu = Some cur → threads s !! cur = Some cth →
  curr_cpu (f cth) = curr_cpu cth → flags (f cth) = flags cth → magic (f cth) = magic cth →
  0 ≤ priority (f cth) < 32 →
  state (f cth) ≠ THREAD_RUNNING → state (f cth) ≠ THREAD_DEATH →
  (thread_is_idle cth = true → state (f cth) = THREAD_READY) →
  state (f cth) = THREAD_BLOCKED ∨ blocking_wait_queue (f cth) = blocking_wait_queue cth →
  kinv (X ∪ {[cur]}) {[cpu]} (st_upd_thread cur f s).
Proof.
  intros [I C T] Hcpu Hcur Hcc Hfl Hm Hp Hnr Hnd Hid Hbl.
  destruct (ci_current _ _ C _ _ Hcpu) as (? & ? & _ & [Hrun Hmag]); [set_solver|]. simplify_eq.
  assert (thread_is_idle (f cth) = thread_is_idle cth) by by rw /thread_is_idle Hfl.
  split.
  - eapply queue_inv_upd_hole; [|set_solver|done..].
    eapply queue_inv_open; [done..| |]; [left|]; by rw Hrun.
  - eapply cpu_inv_leave; eauto; try congruence.
    intros Hb. destruct Hbl as [?|Hbl]; [done|]. rw Hbl. apply (ci_blocking _ _ C _ _ Hcur). by rw Hrun.
  - eapply timer_inv_upd; [done..| |].
    + intros _. by rw Hm Hrun.
    + by rw /thread_is_real_time_or_idle Hfl.
Qed.

(** A thread that is between queues and off the cpus becomes ready. *)
Lemma kinv_ready X E s t th f :
  kinv X E s → t ∈ X → threads s !! t = Some th → state th ≠ THREAD_RUNNING →
  thread_is_idle th = false → magic th = THREAD_MAGIC →
  curr_cpu (f th) = curr_cpu th → flags (f th) = flags th → magic (f th) = magic th →
  priority (f th) = priority th → state (f th) = THREAD_READY →
  (state th = THREAD_SLEEPING → ¬ timer_queued s (StackTimer t)) →
  blocking_wait_queue (f th) = None →
  kinv X E (st_upd_thread t f s).
Proof.
  intros [I C T] HX Ht Hnr Hid Hmag Hcc Hfl Hm Hp Hr Hsl Hbl.
  pose proof (qi_priority _ _ I _ _ Ht).
  split.
  - eapply queue_inv_upd_hole; [done..|lia].
  - eapply cpu_inv_upd; try done; rw ?Hr ?Hm //.
    + intros c Hc. split; [done|]. intros HE.
      destruct (ci_current _ _ C _ _ Hc) as (? & ? & _ & []); [done|]. by simplify_eq.
    + by rw /thread_is_idle Hfl.
    + by rw Hid.
  - eapply timer_inv_upd; [done..| |].
    + intros Hq. rw Hm Hr. split_and!; [done| |done]. intros Hs. by destruct (Hsl Hs).
    + by rw /thread_is_real_time_or_idle Hfl.
Qed.

Lemma cpu_inv_upd_wq E s w f :
  (∀ wq, wq_magic (f wq) = wq_magic wq) → cpu_inv E s → cpu_inv E (st_upd_wq w f s).
Proof.
  intros Hf C. split; try apply C. intros t th Ht Hm. simpl.
  destruct (ci_retcode _ _ C _ _ Ht Hm) as (wq & Hw & ?). destruct (decide (RetcodeWq t = w)) as [<-|].
  - exists (f wq). by rw lookup_alter_eq Hw Hf.
  - exists wq. by rw lookup_alter_ne.
Qed.

Lemma timer_inv_wq E s m : timer_inv E s → timer_inv E (set_wait_queues m s).
Proof. by apply timer_inv_ext. Qed.

Lemma kinv_wq_add X E s t th w wq f :
  kinv X E s → t ∈ X → threads s !! t = Some th → magic th = THREAD_MAGIC →
  state th = THREAD_BLOCKED → blocking_wait_queue th = Some w → thread_is_idle th = false →
  wait_queues s !! w = Some wq → wq_magic wq = WAIT_QUEUE_MAGIC →
  (∀ q, wq_magic (f q) = wq_magic q) →
  wq_count (f wq) = wq_count wq + 1 → wq_list (f wq) ≡ₚ t :: wq_list wq →
  kinv (X ∖ {[t]}) E (st_upd_wq w f s).
Proof.
  intros [I C T] HX Ht ? ? ? ? ? Hwm Hfm ? ?. split.
  - eapply queue_inv_wq_add; try done. by rw Hfm.
  - by apply cpu_inv_upd_wq.
  - by apply timer_inv_wq.
Qed.

Lemma kinv_wq_remove X E s t w wq f :
  kinv X E s → wait_queues s !! w = Some wq → t ∈ wq_list wq →
  (∀ q, wq_magic (f q) = wq_magic q) → wq_count (f wq) = wq_count wq - 1 →
  t :: wq_list (f wq) ≡ₚ wq_list wq → kinv (X ∪ {[t]}) E (st_upd_wq w f s).
Proof.
  intros [I C T] ? ? Hfm ? ?. split.
  - by eapply queue_inv_wq_remove.
  - by apply cpu_inv_upd_wq.
  - by apply timer_inv_wq.
Qed.

Lemma kinv_close X E s t th :
  kinv X E s → t ∈ X → threads s !! t = Some th →
  state th ≠ THREAD_READY ∨ thread_is_idle th = true → state th ≠ THREAD_BLOCKED →
  kinv (X ∖ {[t]}) E s.
Proof. intros [I C T] ? ? ? ?. split; [by eapply queue_inv_close|done..]. Qed.

Lemma wp_insert_kinv X E s t th (head : bool) (Q : unit → kstate → Prop) :
  kinv X E s → t ∈ X → threads s !! t = Some th → magic th = THREAD_MAGIC →
  state th = THREAD_READY → thread_is_idle th = false → thread_lock s = true →
  (let q := queue_at s (Z.to_nat (priority th)) in
   let s' := st_enqueue (priority th) (if head then t :: q else q ++ [t]) s in
   kinv (X ∖ {[t]}) E s' → Q () s') →
  wp (if head then insert_in_run_queue_head t else insert_in_run_queue_tail t) Q s.
Proof.
  intros [I C T] ? ? ? ? ? ? HQ. eapply wp_insert_in_run_queue; try done.
  intros q s' I'. apply HQ. split; [done|by eapply cpu_inv_ext; [..|exact C]|by eapply timer_inv_ext; [..|exact T]].
Qed.

Lemma wp_wakeup s cpu t th (Q : unit → kstate → Prop) :
  threads s !! t = Some th → (∀ ev, Q () (set_events ev s)) → wp (wakeup_cpu_for_thread cpu t) Q s.
Proof.
  intros Ht HQ. apply wp_bind. eapply wp_get_thread; [done|].
  by apply wp_if; intros _; apply wp_bind, wp_gets, wp_modify.
Qed.

Lemma wp_thread_lock s (Q : unit → kstate → Prop) :
  thread_lock s = false → Q () (set_thread_lock true s) → wp THREAD_LOCK Q s.
Proof. intros Hl HQ. apply wp_bind, wp_gets, wp_bind, wp_assert; [by rw Hl|]. by apply wp_modify. Qed.

Lemma wp_assert_locked s (Q : unit → kstate → Prop) :
  thread_lock s = true → Q () s → wp assert_locked Q s.
Proof. intros Hl HQ. apply wp_bind, wp_gets. by apply wp_assert. Qed.

(** What is known of the current thread of a cpu. *)
Lemma kinv_current X E s cpu cur :
  kinv X E s → current s !! cpu = Some cur → cpu ∉ E →
  ∃ cth, threads s !! cur = Some cth ∧ state cth = THREAD_RUNNING ∧ magic cth = THREAD_MAGIC ∧
    curr_cpu cth = Z.of_nat cpu ∧ 0 ≤ priority cth < 32.
Proof.
  intros [I C T] Hc HE. destruct (ci_current _ _ C _ _ Hc) as (cth & ? & ? & []); [done|].
  exists cth. split_and!; try done; by eapply (qi_priority _ _ I).
Qed.

Lemma union_diff_self X t : t ∉ X → (X ∪ {[t]}) ∖ {[t]} = X.
Proof. set_solver. Qed.

Lemma elem_of_hole X t : t ∈ X ∪ {[t]}.
Proof. set_solver. Qed.

(** ** Giving up the cpu *)

(** The state in which [thread_resched] runs once the ready current thread is
    back on its queue; the idle thread is never queued. *)
Definition st_requeue (head : bool) (cur : thread_ptr) (f : thread → thread) (cth : thread) s : kstate :=
  let s1 := st_upd_thread cur f s in
  let q := queue_at s (Z.to_nat (priority (f cth))) in
  if thread_is_idle cth then s1
  else st_enqueue (priority (f cth)) (if head then cur :: q else q ++ [cur]) s1.

Lemma wp_requeue_insert X s cpu cur cth f (head : bool) (Q : unit → kstate → Prop) :
  kinv X ∅ s → cur ∉ X → current s !! cpu = Some cur → threads s !! cur = Some cth →
  thread_lock s = true → curr_cpu (f cth) = curr_cpu cth → flags (f cth) = flags cth →
  magic (f cth) = magic cth → 0 ≤ priority (f cth) < 32 → state (f cth) = THREAD_READY →
  blocking_wait_queue (f cth) = blocking_wait_queue cth →
  (let s1 := st_requeue head cur f cth s in
   kinv X {[cpu]} s1 → current s1 !! cpu = Some cur → thread_lock s1 = true →
   threads s1 = alter f cur (threads s) → Q () s1) →
  wp (upd_thread cur f;; when (negb (thread_is_idle cth))
       (if head then insert_in_run_queue_head cur else insert_in_run_queue_tail cur)) Q s.
Proof.
  intros I HX Hcpu Hcur Hl Hcc Hfl Hm Hp Hr Hbl HQ.
  destruct (kinv_current _ _ _ _ _ I Hcpu) as (? & ? & ? & Hmag & _); [set_solver|]. simplify_eq.
  assert (threads (st_upd_thread cur f s) !! cur = Some (f cth)) as Ht by by rw /= lookup_alter_eq Hcur.
  apply wp_bind. eapply wp_upd_thread; [done|].
  assert (kinv (X ∪ {[cur]}) {[cpu]} (st_upd_thread cur f s)) as I'.
  { eapply kinv_leave; try done; rw ?Hr //. by right. }
  rw /st_requeue in HQ. apply wp_when; intros Hid; to_prop; rw Hid in HQ.
  - eapply wp_insert_kinv; [done|apply elem_of_hole|done|congruence|done| |done|].
    + by rw /thread_is_idle Hfl.
    + intros q s' I''. rw union_diff_self // in I''. by apply HQ.
  - apply HQ; try done. rw -(union_diff_self X cur) //.
    eapply kinv_close; [done|apply elem_of_hole|done| |by rw Hr]. right. by rw /thread_is_idle Hfl.
Qed.

Lemma wp_thread_yield s cpu cur cth (Q : unit → kstate → Prop) :
  kinv ∅ ∅ s → current s !! cpu = Some cur → threads s !! cur = Some cth → thread_lock s = false →
  (∀ s', resched_post cpu cur (st_requeue false cur (λ th, set_remaining_quantum 0 (set_state THREAD_READY th))
            cth (set_thread_lock true s)) s' → kinv ∅ ∅ s' → Q () s') →
  wp (thread_yield cpu) Q s.
Proof.
  intros I Hcpu Hcur Hl HQ.
  destruct (kinv_current _ _ _ _ _ I Hcpu) as (? & ? & Hrun & Hmag & _ & ?); [set_solver|]. simplify_eq.
  apply wp_bind. eapply wp_deref; [done|]. apply wp_bind. eapply wp_get_thread; [done|].
  apply wp_bind, wp_assert; [by rw Hmag|]. apply wp_bind, wp_assert; [by rw Hrun|].
  apply wp_bind, wp_thread_lock; [done|].
  apply wp_seq_assoc, (wp_requeue_insert ∅ _ cpu cur cth _ false); try done; [kinv_frame|].
  intros s1 I1 Hc1 Hl1 Ht1. eapply wp_thread_resched; [done|done| | |done|done];
    [by rw Ht1 lookup_alter_eq Hcur|done].
Qed.

Lemma wp_thread_preempt s cpu cur cth (Q : unit → kstate → Prop) :
  kinv ∅ ∅ s → current s !! cpu = Some cur → threads s !! cur = Some cth → thread_lock s = false →
  (∀ s', resched_post cpu cur (st_requeue (0 <? remaining_quantum cth) cur (set_state THREAD_READY)
            cth (set_thread_lock true s)) s' → kinv ∅ ∅ s' → Q () s') →
  wp (thread_preempt cpu) Q s.
Proof.
  intros I Hcpu Hcur Hl HQ.
  destruct (kinv_current _ _ _ _ _ I Hcpu) as (? & ? & Hrun & Hmag & _ & ?); [set_solver|]. simplify_eq.
  apply wp_bind. eapply wp_deref; [done|]. apply wp_bind. eapply wp_get_thread; [done|].
  apply wp_bind, wp_assert; [by rw Hmag|]. apply wp_bind, wp_assert; [by rw Hrun|].
  apply wp_bind, wp_thread_lock; [done|].
  apply wp_seq_assoc, (wp_requeue_insert ∅ _ cpu cur cth); try done; [kinv_frame|].
  intros s1 I1 Hc1 Hl1 Ht1. eapply wp_thread_resched; [done|done| | |done|done];
    [by rw Ht1 lookup_alter_eq Hcur|done].
Qed.

(** ** Making threads ready *)

Lemma kinv_open X E s t th :
  kinv X E s → threads s !! t = Some th →
  state th ≠ THREAD_READY ∨ thread_is_idle th = true → state th ≠ THREAD_BLOCKED →
  kinv (X ∪ {[t]}) E s.
Proof. intros [I C T] ? ? ?. split; [by eapply queue_inv_open|done..]. Qed.

(** The state after [t] is made ready by [f] and put at the head of its queue. *)
Definition st_ready (t : thread_ptr) (f : thread → thread) (th : thread) s : kstate :=
  st_enqueue (priority th) (t :: queue_at s (Z.to_nat (priority th))) (st_upd_thread t f s).

Lemma wp_ready_insert X E s t th f (Q : unit → kstate → Prop) :
  kinv (X ∪ {[t]}) E s → t ∉ X → threads s !! t = Some th → state th ≠ THREAD_RUNNING →
  thread_is_idle th = false → magic th = THREAD_MAGIC → thread_lock s = true →
  curr_cpu (f th) = curr_cpu th → flags (f th) = flags th → magic (f th) = magic th →
  priority (f th) = priority th → state (f th) = THREAD_READY →
  (state th = THREAD_SLEEPING → ¬ timer_queued s (StackTimer t)) →
  blocking_wait_queue (f th) = None →
  (kinv X E (st_ready t f th s) → Q () (st_ready t f th s)) →
  wp (upd_thread t f;; insert_in_run_queue_head t) Q s.
Proof.
  intros I HX Ht Hnr Hid Hmag Hl Hcc Hfl Hm Hp Hr Hsl Hbl HQ.
  apply wp_bind. eapply wp_upd_thread; [done|].
  assert (threads (st_upd_thread t f s) !! t = Some (f th)) as Ht' by by rw /= lookup_alter_eq Ht.
  assert (kinv (X ∪ {[t]}) E (st_upd_thread t f s)) as I' by (eapply kinv_ready; eauto using elem_of_hole).
  apply (wp_insert_kinv _ _ _ _ _ true _ I' (elem_of_hole _ _) Ht'); [congruence|done| |done|].
  - by rw /thread_is_idle Hfl.
  - rw union_diff_self // Hp. done.
Qed.

Lemma alter_other_lookup t f (m : gmap thread_ptr thread) t' th' :
  m !! t' = Some th' → is_Some (alter f t m !! t').
Proof. intros Hm. rw lookup_alter_is_Some. eauto. Qed.

Lemma wp_thread_resume s cpu cur ints t th (Q : Z → kstate → Prop) :
  kinv ∅ ∅ s → current s !! cpu = Some cur → threads s !! t = Some th → thread_lock s = false →
  magic th = THREAD_MAGIC → state th ≠ THREAD_DEATH → thread_is_idle th = false →
  (∀ s', kinv ∅ ∅ s' → Q NO_ERROR s') →
  wp (thread_resume cpu ints t) Q s.
Proof.
  intros I Hcpu Ht Hl Hm Hnd Hid HQ.
  apply wp_bind. eapply wp_get_thread; [done|]. apply wp_bind, wp_assert; [by rw Hm|].
  apply wp_bind, wp_assert; [by rw bool_decide_false|]. apply wp_bind, wp_thread_lock; [done|].
  assert (∀ s1, kinv ∅ ∅ s1 → current s1 !! cpu = Some cur → is_Some (threads s1 !! t) →
    wp (wakeup_cpu_for_thread cpu t;; THREAD_UNLOCK;;
      when (bool_decide (state th = THREAD_SUSPENDED) && negb ints) (thread_yield cpu);;
      mret NO_ERROR) Q s1) as Hrest.
  { intros s1 I1 Hc1 [th1 Ht1]. apply wp_bind. eapply wp_wakeup; [done|]. intros ev.
    apply wp_bind, wp_modify, wp_bind.
    assert (kinv ∅ ∅ (set_thread_lock false (set_events ev s1))) as I2 by kinv_frame.
    apply wp_when; intros _; [|by apply wp_ret, HQ].
    destruct (kinv_current _ _ _ _ _ I2 Hc1) as (cth & ? & _); [set_solver|].
    eapply wp_thread_yield; [done..|]. intros s' _ I'. by apply wp_ret, HQ. }
  apply wp_bind, wp_when; intros Hs; to_prop.
  - apply (wp_ready_insert ∅ ∅ _ _ th); try done; [|by rw Hs|by rw Hs|..].
    + eapply kinv_open; [kinv_frame|done| |by rw Hs]. left. by rw Hs.
    + apply (ci_blocking _ _ (k_cpu _ _ _ I) _ _ Ht). by rw Hs.
    + intros I1. apply Hrest; [done..|]. by eapply alter_other_lookup.
  - apply Hrest; [kinv_frame|done|by rw /= Ht].
Qed.

Lemma wp_thread_set_priority s cpu cur cth prio (Q : unit → kstate → Prop) :
  kinv ∅ ∅ s → current s !! cpu = Some cur → threads s !! cur = Some cth → thread_lock s = false →
  thread_is_idle cth = false → (∀ s', kinv ∅ ∅ s' → Q () s') →
  wp (thread_set_priority cpu prio) Q s.
Proof.
  intros I Hcpu Hcur Hl Hid HQ. apply wp_bind. eapply wp_deref; [done|].
  apply wp_bind, wp_thread_lock; [done|]. cbv zeta.
  set (p := if HIGHEST_PRIORITY <? _ then _ else _).
  assert (1 ≤ p < 32) as Hp.
  { rw /p /HIGHEST_PRIORITY /IDLE_PRIORITY /NUM_PRIORITIES /LOWEST_PRIORITY. repeat case_match; to_prop; lia. }
  pose proof (wp_requeue_insert ∅ (set_thread_lock true s) cpu cur cth
    (λ th, set_state THREAD_READY (set_priority p th)) true (λ _, wp (thread_resched cpu) Q)) as W.
  rw Hid in W. apply wp_seq_assoc, W; try done; [kinv_frame|simpl; lia|].
  intros s1 I1 Hc1 Hl1 Ht1. eapply wp_thread_resched; [done|done| | |done|by auto];
    [by rw Ht1 lookup_alter_eq Hcur|done].
Qed.

Lemma wp_thread_set_name s cpu cur nm (Q : unit → kstate → Prop) :
  kinv ∅ ∅ s → current s !! cpu = Some cur →
  (∀ s', kinv ∅ ∅ s' → thread_lock s' = thread_lock s → Q () s') →
  wp (thread_set_name cpu nm) Q s.
Proof.
  intros I Hcpu HQ. destruct (kinv_current _ _ _ _ _ I Hcpu) as (cth & Hcur & _); [set_solver|].
  apply wp_bind. eapply wp_deref; [done|]. eapply wp_upd_thread; [done|].
  apply HQ; [|done]. by eapply kinv_upd_same.
Qed.

(** ** Real-time threads *)

Lemma idle_set_rt th : thread_is_idle (set_flags (Z.lor (flags th) THREAD_FLAG_REAL_TIME) th) = thread_is_idle th.
Proof.
  rw /thread_is_idle /= Z.land_lor_distr_l.
  replace (Z.land THREAD_FLAG_REAL_TIME THREAD_FLAG_IDLE) with 0 by done. by rw Z.lor_0_r.
Qed.

Lemma kinv_set_rt X E s t th :
  kinv X E s → threads s !! t = Some th →
  (∀ c, current s !! c = Some t → ¬ timer_queued s (PreemptTimer c)) →
  kinv X E (st_upd_thread t (λ th, set_flags (Z.lor (flags th) THREAD_FLAG_REAL_TIME) th) s).
Proof.
  intros [I C T] Ht Hq. set (f := λ th, set_flags _ th). pose proof (idle_set_rt th) as Hid. split.
  - apply queue_inv_upd_same; [done|]. intros th'. by rw /f idle_set_rt.
  - eapply cpu_inv_upd; try done; intros ?;
      [by apply (ci_dead _ _ C _ _ Ht)|by apply (ci_blocking _ _ C _ _ Ht)].
  - split; simpl; [by apply T| |by apply T|].
    + intros x Hx. destruct (ti_member _ _ T x Hx) as (tm & ? & ? & Hcb). exists tm. split; [done|].
      split; [done|]. destruct (callback tm) as [[]|]; try done.
      all: destruct Hcb as (? & t' & th' & -> & ? & Ht' & ? & ?); split; [done|]; exists t'; simpl.
      all: destruct (decide (t' = t)) as [->|]; [|exists th'; by rw lookup_alter_ne].
      all: exists (f th'); by rw lookup_alter_eq Ht'.
    + intros c t' th' HE Hc Ht' Hrt. destruct (decide (t' = t)) as [->|]; [by apply Hq|].
      rw lookup_alter_ne // in Ht'. by apply (ti_quiet _ _ T c t' th').
Qed.

Lemma kinv_timers X E s tms tq ev :
  let s' := set_events ev (set_timer_queue tq (set_timers tms s)) in
  kinv X E s → timer_inv ∅ s' → kinv X E s'.
Proof.
  intros s' [I C T] T'. split; [|by eapply cpu_inv_ext; [..|exact C]|done].
  by eapply queue_inv_ext; [..|exact I].
Qed.

Lemma wp_timer_cancel_kinv X E s cpu x tm (Q : unit → kstate → Prop) :
  kinv X E s → is_Some (current s !! cpu) → timers s !! x = Some tm → tm_magic tm = TIMER_MAGIC →
  (∀ ev, let s' := st_timer_cancel x timer_clear ev s in
    kinv X E s' → ¬ timer_queued s' x → Q () s') →
  wp (timer_cancel cpu x) Q s.
Proof.
  intros [I C T] Hc Hx Hm HQ. eapply wp_timer_cancel; [done..|by eapply ti_queue|].
  intros ev. apply HQ.
  - apply kinv_timers; [done|]. by apply timer_inv_cancel.
  - rw (timer_queued_without x _ s) //. tauto.
Qed.

Lemma wp_thread_set_real_time s cpu cur t th (Q : Z → kstate → Prop) :
  kinv ∅ ∅ s → current s !! cpu = Some cur → threads s !! t = Some th → thread_lock s = false →
  magic th = THREAD_MAGIC → (∀ c, current s !! c = Some t → c = cpu) →
  (∀ s', kinv ∅ ∅ s' → thread_lock s' = false → Q NO_ERROR s') →
  wp (thread_set_real_time cpu (Some t)) Q s.
Proof.
  intros I Hcpu Ht Hl Hm Hcur HQ.
  apply wp_bind. eapply wp_get_thread; [done|]. apply wp_bind, wp_assert; [by rw Hm|].
  apply wp_bind, wp_thread_lock; [done|]. apply wp_bind. eapply wp_deref; [done|].
  assert (∀ s1, kinv ∅ ∅ s1 → threads s1 = threads s →
    (∀ c, current s1 !! c = Some t → ¬ timer_queued s1 (PreemptTimer c)) →
    wp (upd_thread t (λ th, set_flags (Z.lor (flags th) THREAD_FLAG_REAL_TIME) th);;
      THREAD_UNLOCK;; mret NO_ERROR) Q s1) as Hrest.
  { intros s1 I1 Et Hq. apply wp_bind. eapply wp_upd_thread; [by rw Et|].
    apply wp_bind, wp_modify, wp_ret, HQ; [|done].
    assert (kinv ∅ ∅ (st_upd_thread t (λ th, set_flags (Z.lor (flags th) THREAD_FLAG_REAL_TIME) th) s1))
      by (eapply kinv_set_rt; [done|by rw Et|done]).
    kinv_frame. }
  apply wp_bind, wp_when; intros Hb; to_prop.
  - destruct (ti_preempt _ _ (k_timer _ _ _ I) cpu) as (tm & ? & ?); [by rw Hcpu|].
    eapply wp_timer_cancel_kinv; [kinv_frame|by rw /= Hcpu|done..|].
    intros ev s' I' Hnq. apply Hrest; [done..|]. intros c Hc. by rw (Hcur c Hc).
  - apply Hrest; [kinv_frame|done|]. intros c Hc. specialize (Hcur c Hc). by simplify_eq/=.
Qed.

(** ** Blocking *)

(** [timer_initialize] and [timer_set_oneshot] of a thread's own stack timer. *)
Lemma kinv_stack_timer X E s t :
  kinv X E s → ¬ timer_queued s (StackTimer t) →
  kinv X E (set_timers (<[StackTimer t := TIMER_INITIAL_VALUE]> (timers s)) s).
Proof.
  intros [I C T] Hnq. split; [by eapply queue_inv_ext; [..|exact I]|by eapply cpu_inv_ext; [..|exact C]|].
  split; simpl; [by apply T| | |by apply T].
  - intros x Hx. rw lookup_insert_ne; [by apply T|]. by intros <-.
  - intros c Hc'. rw lookup_insert_ne //. by apply T.
Qed.

Lemma wp_stack_timer_set X E s cpu t th delay cb (Q : unit → kstate → Prop) :
  kinv X E s → is_Some (current s !! cpu) → ¬ timer_queued s (StackTimer t) →
  timers s !! StackTimer t = Some TIMER_INITIAL_VALUE →
  threads s !! t = Some th → magic th = THREAD_MAGIC → state th ≠ THREAD_DEATH →
  cb = wait_queue_timeout_handler_cb ∨ cb = thread_sleep_handler_cb ∧ state th = THREAD_SLEEPING →
  (∀ tms tq ev, let s' := set_events ev (set_timer_queue tq (set_timers tms s)) in
    kinv X E s' → Q () s') →
  wp (timer_set_oneshot cpu (StackTimer t) delay cb (Some t)) Q s.
Proof.
  intros I Hc Hnq Htm Ht Hm Hnd Hcb HQ. destruct I as [I C T]. destruct (ti_queue _ _ T cpu Hc) as [q Hq].
  eapply wp_timer_set; [done..|]. intros f sched ev. eapply HQ. apply kinv_timers; [done|].
  eapply (timer_inv_set _ s _ TIMER_INITIAL_VALUE f _ q); try done.
  - apply insert_by_time_perm.
  - split; [done|]. destruct Hcb as [->|[-> ?]]; (split; [done|]); by exists t, th.
Qed.

(** The thread of [cpu] as [wait_queue_block] leaves it. *)
Definition block_on (w : wq_ptr) (th : thread) : thread :=
  set_wait_queue_block_ret NO_ERROR (set_blocking_wait_queue (Some w) (set_state THREAD_BLOCKED th)).

Lemma wp_wait_queue_block s cpu cur cth w wq timeout (Q : call Z → kstate → Prop) :
  kinv ∅ ∅ s → current s !! cpu = Some cur → threads s !! cur = Some cth → thread_lock s = true →
  wait_queues s !! w = Some wq → wq_magic wq = WAIT_QUEUE_MAGIC → thread_is_idle cth = false →
  ¬ timer_queued s (StackTimer cur) →
  (timeout = 0 → Q (Returned ERR_TIMED_OUT) s) →
  (∀ s1 s', timeout ≠ 0 → threads s1 = alter (block_on w) cur (threads s) →
    wait_queues s1 = alter (λ q, set_wq_count (wq_count q + 1) (set_wq_list (wq_list q ++ [cur]) q)) w (wait_queues s) →
    run_queue s1 = run_queue s → current s1 = current s →
    resched_post cpu cur s1 s' → kinv ∅ ∅ s' → Q Switched s') →
  wp (wait_queue_block cpu w timeout) Q s.
Proof.
  intros I Hcpu Hcur Hl Hw Hwm Hid Hnq HQ0 HQ.
  destruct (kinv_current _ _ _ _ _ I Hcpu) as (? & ? & Hrun & Hmag & _ & ?); [set_solver|]. simplify_eq.
  apply wp_bind. eapply wp_deref; [done|]. apply wp_bind. eapply wp_get_wq; [done|].
  apply wp_bind. eapply wp_get_thread; [done|].
  apply wp_bind, wp_assert; [by rw Hwm|]. apply wp_bind, wp_assert; [by rw Hrun|].
  apply wp_bind, wp_assert_locked; [done|].
  apply wp_if; intros Hto; to_prop; [by apply wp_ret, HQ0|].
  apply wp_bind. eapply wp_upd_wq; [done|]. apply wp_bind. eapply wp_upd_thread; [done|].
  fold (block_on w). set (g := λ q, set_wq_count _ _).
  set (s1 := st_upd_wq w g (st_upd_thread cur (block_on w) s)).
  change (set_threads _ _) with s1.
  assert (threads s1 !! cur = Some (block_on w cth)) as Ht1 by by rw /= lookup_alter_eq Hcur.
  assert (kinv ∅ {[cpu]} s1) as I1.
  { rw -(union_diff_self ∅ cur); [|set_solver].
    eapply (kinv_wq_add _ _ (st_upd_thread cur (block_on w) s)); try done.
    - eapply kinv_leave; try done; [by rw Hid|by left].
    - apply elem_of_hole.
    - simpl. by rw Permutation_app_comm. }
  assert (∀ tms tq ev, let s2 := set_events ev (set_timer_queue tq (set_timers tms s1)) in
    kinv ∅ {[cpu]} s2 → wp (thread_resched cpu;; mret Switched) Q s2) as Hrest.
  { intros tms tq ev s2 I2. apply wp_bind. eapply wp_thread_resched; [done|done|exact Ht1|done|done|].
    intros s' Hp I'. apply wp_ret. by apply (HQ s2 s'). }
  apply wp_bind, wp_when; intros Hinf; to_prop.
  - apply wp_bind, wp_modify. eapply wp_stack_timer_set; [by apply kinv_stack_timer|by rw /= Hcpu|done| |done..|by left|].
    + by apply lookup_insert_eq.
    + intros tms tq ev s2. apply (Hrest tms tq ev).
  - replace s1 with (set_events (events s1) (set_timer_queue (timer_queue s1) (set_timers (timers s1) s1)))
      by by destruct s.
    by apply Hrest.
Qed.

Lemma wp_wait_queue_block_resume s cpu cur cth timeout (Q : Z → kstate → Prop) :
  kinv ∅ ∅ s → current s !! cpu = Some cur → threads s !! cur = Some cth →
  (timeout ≠ INFINITE_TIME → ∃ tm, timers s !! StackTimer cur = Some tm ∧ tm_magic tm = TIMER_MAGIC) →
  (∀ s', kinv ∅ ∅ s' → threads s' = threads s → thread_lock s' = thread_lock s →
    wait_queues s' = wait_queues s → current s' = current s →
    (timeout ≠ INFINITE_TIME → ¬ timer_queued s' (StackTimer cur)) → Q (wait_queue_block_ret cth) s') →
  wp (wait_queue_block_resume cpu timeout) Q s.
Proof.
  intros I Hcpu Hcur Htm HQ. apply wp_bind. eapply wp_deref; [done|].
  apply wp_bind, wp_when; intros Hto; to_prop.
  - destruct (Htm Hto) as (tm & ? & ?). eapply wp_timer_cancel_kinv; [done|by rw Hcpu|done..|].
    intros ev s' I' Hnq. apply wp_bind. eapply wp_get_thread; [done|]. by apply wp_ret, HQ.
  - apply wp_bind. eapply wp_get_thread; [done|]. by apply wp_ret, HQ.
Qed.

(** ** Waking *)

(** A thread as the wake-up functions leave it. *)
Definition wake_with (err : Z) (th : thread) : thread :=
  set_blocking_wait_queue None (set_wait_queue_block_ret err (set_state THREAD_READY th)).

Definition st_wake (t : thread_ptr) (f : thread → thread) (w : wq_ptr) (rest : list thread_ptr) s : kstate :=
  st_upd_thread t f (st_upd_wq w (λ q, set_wq_count (wq_count q - 1) (set_wq_list rest q)) s).

(** Taking one thread off its wait queue and marking it ready. *)
Lemma kinv_wake X E s t f w wq rest :
  kinv X E s → wait_queues s !! w = Some wq → t :: rest ≡ₚ wq_list wq →
  (∀ th, curr_cpu (f th) = curr_cpu th ∧ flags (f th) = flags th ∧ magic (f th) = magic th ∧
    priority (f th) = priority th ∧ state (f th) = THREAD_READY ∧ blocking_wait_queue (f th) = None) →
  ∃ th, threads s !! t = Some th ∧ magic th = THREAD_MAGIC ∧ state th = THREAD_BLOCKED ∧
    thread_is_idle th = false ∧ t ∉ X ∧ kinv (X ∪ {[t]}) E (st_wake t f w rest s).
Proof.
  intros I Hw Hl Hf. assert (t ∈ wq_list wq) as Hin by (rw -Hl; apply elem_of_cons; auto).
  destruct (qi_blocked _ _ (k_queue _ _ _ I) _ _ _ Hw Hin) as (th & Ht & Hm & Hb & _ & Hid).
  exists th. split_and!; [done..| |].
  - intros HX. destruct (qi_hole _ _ (k_queue _ _ _ I) t HX) as [_ []]. by exists w, wq.
  - destruct (Hf th) as (? & ? & ? & ? & ? & ?). eapply kinv_ready; try done; rw ?Hb //.
    + by eapply kinv_wq_remove.
    + apply elem_of_hole.
Qed.

(** What is left of a woken thread whatever the callers of the scheduler do next. *)
Definition woken (t : thread_ptr) (err : Z) s : Prop :=
  ∃ th, threads s !! t = Some th ∧ wait_queue_block_ret th = err ∧ blocking_wait_queue th = None ∧
    (state th = THREAD_READY ∨ state th = THREAD_RUNNING).

Lemma resched_woken cpu cur s s' t err : resched_post cpu cur s s' → woken t err s → woken t err s'.
Proof.
  intros Hp (th & Ht & Hr & Hb & Hs). exists (switched cpu cur (chosen s cpu) t th).
  rw (rp_threads _ _ _ _ Hp) Ht.
  destruct (switched_fields cpu cur (chosen s cpu) t th) as (_ & _ & _ & -> & -> & -> & _).
  split_and!; try done. case_decide; auto.
Qed.

(** The fields of a thread that belong to its waiting. *)
Definition same_wait (th th' : thread) : Prop :=
  wait_queue_block_ret th' = wait_queue_block_ret th ∧ blocking_wait_queue th' = blocking_wait_queue th.

Lemma same_wait_refl o : option_Forall2 same_wait o o.
Proof. destruct o; by constructor. Qed.

Lemma same_wait_trans o o' o'' :
  option_Forall2 same_wait o o' → option_Forall2 same_wait o' o'' → option_Forall2 same_wait o o''.
Proof.
  intros [? ? [? ?]|] H'; inversion H' as [? ? [? ?]|]; subst; constructor. split; congruence.
Qed.

Lemma same_wait_alter (m : gmap thread_ptr thread) t f t' :
  (∀ th, same_wait th (f th)) → option_Forall2 same_wait (m !! t') (alter f t m !! t').
Proof.
  intros Hf. rw lookup_alter. case_decide as E; [|apply same_wait_refl]. subst. destruct (m !! t'); by constructor.
Qed.

Lemma resched_same_wait cpu cur s s' t :
  resched_post cpu cur s s' → option_Forall2 same_wait (threads s !! t) (threads s' !! t).
Proof.
  intros Hp. rw (rp_threads _ _ _ _ Hp). destruct (threads s !! t) as [th|]; constructor.
  by destruct (switched_fields cpu cur (chosen s cpu) t th) as (_ & _ & _ & ? & ? & _).
Qed.

Lemma wp_wait_queue_wake_one s cpu cur cth w wq reschedule err (Q : Z → kstate → Prop) :
  kinv ∅ ∅ s → current s !! cpu = Some cur → threads s !! cur = Some cth → thread_lock s = true →
  wait_queues s !! w = Some wq → wq_magic wq = WAIT_QUEUE_MAGIC →
  (reschedule = true → thread_is_idle cth = false) →
  (wq_list wq = [] → Q 0 s) →
  (∀ t rest s', wq_list wq = t :: rest →
    wait_queues s' = alter (λ q, set_wq_count (wq_count q - 1) (set_wq_list rest q)) w (wait_queues s) →
    woken t err s' → thread_lock s' = true → kinv ∅ ∅ s' → (reschedule = false → current s' = current s) →
    (∀ t', t' ≠ t → option_Forall2 same_wait (threads s !! t') (threads s' !! t')) →
    Q 1 s') →
  wp (wait_queue_wake_one cpu w reschedule err) Q s.
Proof.
  intros I Hcpu Hcur Hl Hw Hwm Hid HQ0 HQ.
  apply wp_bind. eapply wp_deref; [done|]. apply wp_bind. eapply wp_get_wq; [done|].
  apply wp_bind, wp_assert; [by rw Hwm|]. apply wp_bind, wp_assert_locked; [done|].
  destruct (wq_list wq) as [|t rest] eqn:El; [by apply wp_ret, HQ0|].
  destruct (kinv_wake ∅ ∅ s t (wake_with err) w wq rest) as (th & Ht & Hm & Hb & Hidt & HX & I2); [done..|by rw El|done|].
  destruct (kinv_current _ _ _ _ _ I Hcpu) as (? & ? & Hrun & Hmag & _ & ?); [set_solver|]. simplify_eq.
  assert (cur ≠ t) as Hne by (intros ->; congruence).
  apply wp_bind. eapply wp_upd_wq; [done|]. apply wp_bind. eapply wp_get_thread; [done|].
  apply wp_bind, wp_assert; [by rw Hb|]. apply wp_bind. eapply wp_upd_thread; [done|].
  fold (wake_with err) (st_wake t (wake_with err) w rest s). set (s2 := st_wake t (wake_with err) w rest s) in *.
  assert (∀ E s3, kinv (∅ ∪ {[t]}) E s3 → threads s3 !! t = Some (wake_with err th) → thread_lock s3 = true →
    wait_queues s3 = wait_queues s2 → current s3 !! cpu = Some cur →
    (∀ t', t' ≠ t → option_Forall2 same_wait (threads s !! t') (threads s3 !! t')) →
    (if reschedule then E = {[cpu]} ∧ threads s3 !! cur = Some (set_state THREAD_READY cth)
     else E = ∅ ∧ current s3 = current s) →
    wp (insert_in_run_queue_head t;; wakeup_cpu_for_thread cpu t;; when reschedule (thread_resched cpu);; mret 1) Q s3) as Hrest.
  { intros E s3 I3 Ht3 Hl3 Hw3 Hc3 Hsw Hif. apply wp_bind.
    apply (wp_insert_kinv _ _ _ _ _ true _ I3 (elem_of_hole _ _) Ht3); [done..|]. intros q s4 I4.
    rw union_diff_self // in I4. apply wp_bind. eapply wp_wakeup; [exact Ht3|]. intros ev.
    assert (woken t err s4) as Hwk by (exists (wake_with err th); by auto).
    apply wp_bind, wp_when; intros ->; destruct Hif as [-> Hif].
    - eapply wp_thread_resched; [kinv_frame|exact Hc3|exact Hif|done|exact Hl3|].
      intros s' Hp I'. apply wp_ret. apply (HQ t rest s'); [done| | | |done|done|].
      + by rw (rp_wait_queues _ _ _ _ Hp) /= Hw3.
      + eapply resched_woken; [done|]. done.
      + apply Hp.
      + intros t' Ht'. eapply same_wait_trans; [by apply Hsw|]. by apply (resched_same_wait _ _ _ _ t' Hp).
    - apply wp_ret. apply (HQ t rest); [done|by rw /= Hw3|done|done|kinv_frame|done|done]. }
  assert (∀ t', t' ≠ t → option_Forall2 same_wait (threads s !! t') (threads s2 !! t')) as Hsw2.
  { intros t' ?. simpl. rw lookup_alter_ne //. apply same_wait_refl. }
  apply wp_bind, wp_when; intros ->.
  - pose proof (wp_requeue_insert (∅ ∪ {[t]}) s2 cpu cur cth (set_state THREAD_READY) true) as W.
    rw Hid // in W. apply W; try done; [set_solver|simpl; by rw lookup_alter_ne|].
    intros s3 I3 Hc3 Hl3 Ht3. apply (Hrest {[cpu]}); try done; rw ?Ht3.
    + by rw lookup_alter_ne // /= lookup_alter_eq Ht.
    + by rw /s3 /st_requeue Hid.
    + intros t' ?. eapply same_wait_trans; [by apply Hsw2|]. by apply same_wait_alter.
    + by rw lookup_alter_eq /= lookup_alter_ne // Hcur.
  - apply (Hrest ∅); try done. by rw /= lookup_alter_eq Ht.
Qed.

(** How a state relates to the one before all of [ts] were woken from [w]. *)
Record all_woken (w : wq_ptr) (err : Z) (ts : list thread_ptr) s s' : Prop := {
  aw_empty : ∃ wq wq', wait_queues s !! w = Some wq ∧ wait_queues s' !! w = Some wq' ∧
    wq_list wq' = [] ∧ wq_count wq' = 0 ∧ wq_magic wq' = wq_magic wq;
  aw_others w' : w' ≠ w → wait_queues s' !! w' = wait_queues s !! w';
  aw_woken t : t ∈ ts → woken t err s';
  aw_threads t : t ∉ ts → threads s' !! t = threads s !! t;
  aw_current : current s' = current s;
  aw_lock : thread_lock s' = thread_lock s
}.

Lemma wp_wake_all_loop E w err ts ret mask s wq (Q : Z * Z → kstate → Prop) :
  kinv ∅ E s → thread_lock s = true → wait_queues s !! w = Some wq → wq_list wq = ts →
  (∀ mask' s', kinv ∅ E s' → all_woken w err ts s s' → Q (ret + Z.of_nat (length ts), mask') s') →
  wp (wake_all_loop w err ts ret mask) Q s.
Proof.
  revert ret mask s wq. induction ts as [|t ts IH]; intros ret mask s wq I Hl Hw Hts HQ.
  { apply wp_ret. simpl in HQ. rw Z.add_0_r in HQ. apply HQ; [done|]. split; try done.
    - exists wq, wq. split_and!; try done. by rw (qi_wq_count _ _ (k_queue _ _ _ I) _ _ Hw) Hts.
    - by intros ? ?%not_elem_of_nil. }
  destruct (kinv_wake ∅ E s t (wake_with err) w wq ts) as (th & Ht & Hm & Hb & Hid & HX & I2); [done..|by rw Hts|done|].
  assert (NoDup (t :: ts)) as [Hnin _]%NoDup_cons
    by (rw -Hts; by apply (qi_wq_nodup _ _ (k_queue _ _ _ I) w)).
  apply wp_bind. eapply wp_upd_wq; [done|]. apply wp_bind. eapply wp_get_thread; [done|].
  apply wp_bind, wp_assert; [by rw Hb|]. apply wp_bind. eapply wp_upd_thread; [done|].
  fold (wake_with err) (st_wake t (wake_with err) w ts s). set (s2 := st_wake t (wake_with err) w ts s) in *.
  assert (threads s2 !! t = Some (wake_with err th)) as Ht2 by by rw /= lookup_alter_eq Ht.
  apply wp_bind, (wp_insert_kinv _ _ _ _ _ true _ I2 (elem_of_hole _ _) Ht2); [done..|].
  intros q s3 I3. rw union_diff_self // in I3.
  eapply IH; [done|done|by rw /= lookup_alter_eq Hw|done|]. intros mask' s' I' Haw.
  replace (ret + 1 + Z.of_nat (length ts)) with (ret + Z.of_nat (length (t :: ts))) by (simpl; lia).
  apply HQ; [done|]. destruct Haw. split; try done.
  - destruct aw_empty0 as (wq1 & wq' & H1 & ? & ? & ? & Hm'). exists wq, wq'. split_and!; try done.
    simpl in H1. rw lookup_alter_eq Hw in H1. by simplify_eq/=.
  - intros w' Hne. rw aw_others0 //. simpl. by rw lookup_alter_ne.
  - intros t' [->|Hin]%elem_of_cons; [|auto]. exists (wake_with err th). rw aw_threads0 //. by auto.
  - intros t' [Hne ?]%not_elem_of_cons. rw aw_threads0 //. simpl. by rw lookup_alter_ne.
Qed.

Lemma all_woken_queue w err ts s s' wq :
  all_woken w err ts s s' → wait_queues s !! w = Some wq → wq_magic wq = WAIT_QUEUE_MAGIC →
  wait_queues s' !! w = Some (WaitQueue WAIT_QUEUE_MAGIC [] 0).
Proof. intros Haw ? ?. destruct (aw_empty _ _ _ _ _ Haw) as (? & [] & ? & ? & ? & ? & ?). simplify_eq/=. congruence. Qed.

Lemma wp_wait_queue_wake_all s cpu cur cth w wq reschedule err (Q : Z → kstate → Prop) :
  kinv ∅ ∅ s → current s !! cpu = Some cur → threads s !! cur = Some cth → thread_lock s = true →
  wait_queues s !! w = Some wq → wq_magic wq = WAIT_QUEUE_MAGIC →
  (reschedule = true → thread_is_idle cth = false) →
  (∀ s', kinv ∅ ∅ s' → thread_lock s' = true →
    (∀ w', w' ≠ w → wait_queues s' !! w' = wait_queues s !! w') →
    wait_queues s' !! w = Some (WaitQueue WAIT_QUEUE_MAGIC [] 0) →
    (∀ t, t ∈ wq_list wq → woken t err s') →
    (reschedule = false → current s' = current s ∧
       ∀ t, t ∉ wq_list wq → threads s' !! t = threads s !! t) →
    Q (Z.of_nat (length (wq_list wq))) s') →
  wp (wait_queue_wake_all cpu w reschedule err) Q s.
Proof.
  intros I Hcpu Hcur Hl Hw Hwm Hid HQ.
  apply wp_bind. eapply wp_deref; [done|]. apply wp_bind. eapply wp_get_wq; [done|].
  apply wp_bind, wp_assert; [by rw Hwm|]. apply wp_bind, wp_assert_locked; [done|].
  destruct (kinv_current _ _ _ _ _ I Hcpu) as (? & ? & Hrun & Hmag & _ & ?); [set_solver|]. simplify_eq.
  pose proof (qi_wq_count _ _ (k_queue _ _ _ I) _ _ Hw) as Hcnt.
  set (n := Z.of_nat (length (wq_list wq))) in *.
  assert (∀ s1 E mask, kinv ∅ E s1 → thread_lock s1 = true → wait_queues s1 = wait_queues s →
    (∀ mask' s2, kinv ∅ E s2 → all_woken w err (wq_list wq) s1 s2 →
      wait_queues s2 !! w = Some (WaitQueue WAIT_QUEUE_MAGIC [] 0) →
      wp (when (0 <? n) (mp_reschedule cpu mask' 0;; when reschedule (thread_resched cpu));; mret n) Q s2) →
    wp ('(ret, cpu_mask) ← wake_all_loop w err (wq_list wq) 0 mask; wq' ← get_wq w;
        assert (wq_count wq' =? 0);;
        when (0 <? ret) (mp_reschedule cpu cpu_mask 0;; when reschedule (thread_resched cpu));; mret ret) Q s1) as Hloop.
  { intros s1 E mask I1 Hl1 Hw1 HQ'. apply wp_bind. eapply wp_wake_all_loop; [done..|by rw Hw1|done|].
    intros mask' s2 I2 Haw. assert (wait_queues s2 !! w = Some (WaitQueue WAIT_QUEUE_MAGIC [] 0)) as Hq2
      by (eapply all_woken_queue; [done|by rw Hw1|done]).
    apply wp_bind. eapply wp_get_wq; [done|]. apply wp_bind, wp_assert; [done|]. by apply HQ'. }
  apply wp_bind, wp_when; intros Hb.
  - apply andb_true_iff in Hb as [-> Hn]. specialize (Hid eq_refl). rw Hcnt in Hn.
    pose proof (wp_requeue_insert ∅ s cpu cur cth (set_state THREAD_READY) true) as W.
    rw Hid in W. apply W; try done. intros s1 I1 Hc1 Hl1 Ht1.
    assert (wait_queues s1 = wait_queues s) as Ew by by rw /s1 /st_requeue Hid.
    assert (cur ∉ wq_list wq) as Hnin.
    { intros Hin. destruct (qi_blocked _ _ (k_queue _ _ _ I) _ _ _ Hw Hin) as (? & ? & _ & ? & _). congruence. }
    apply (Hloop s1 {[cpu]}); [done..|]. intros mask' s2 I2 Haw Hq2. rw Hn.
    apply wp_bind, wp_bind, wp_bind, wp_gets, wp_modify.
    eapply wp_thread_resched; [kinv_frame|by rw /= (aw_current _ _ _ _ _ Haw)|..].
    { rw /= (aw_threads _ _ _ _ _ Haw) // Ht1 lookup_alter_eq Hcur. done. }
    { done. } { by rw /= (aw_lock _ _ _ _ _ Haw). }
    intros s' Hp I'. apply wp_ret, HQ; [done|apply Hp|..|done]; rw ?(rp_wait_queues _ _ _ _ Hp) //=.
    + intros w' ?. by rw (aw_others _ _ _ _ _ Haw) // Ew.
    + intros t Ht. eapply resched_woken; [done|]. by apply Haw.
  - apply (Hloop s ∅); [done..|]. intros mask' s2 I2 Haw Hq2.
    assert (∀ s', kinv ∅ ∅ s' → (∃ ev, s' = set_events ev s2) → Q n s') as HQ2.
    { intros s' I' [ev ->]. apply HQ; simpl; try done; [by rw (aw_lock _ _ _ _ _ Haw)|apply Haw..|].
      intros _. split; [apply Haw|]. intros t. apply Haw. }
    apply wp_bind, wp_when; intros Hn.
    + assert (reschedule = false) as -> by (rw Hcnt Hn andb_true_r in Hb; done).
      apply wp_bind, wp_bind, wp_gets, wp_modify. apply wp_ret, wp_ret. eapply HQ2; [kinv_frame|]. eauto.
    + apply wp_ret, HQ2; [done|]. exists (events s2). by destruct s2.
Qed.

(** ** Destroying a wait queue, unblocking one thread *)

(** An object's wait queue with no waiters is set up or retired. *)
Lemma kinv_wq_put s w wq' :
  kinv ∅ ∅ s → (∀ wq, wait_queues s !! w = Some wq → wq_list wq = []) → (∀ t, w ≠ RetcodeWq t) →
  wq_list wq' = [] → wq_count wq' = 0 →
  kinv ∅ ∅ (set_wait_queues (<[w := wq']> (wait_queues s)) s).
Proof.
  intros [I C T] Hold Hret Hl Hn.
  assert (∀ t, on_wait_queue s t → on_wait_queue (set_wait_queues (<[w := wq']> (wait_queues s)) s) t) as Hmono.
  { intros t (w' & wq & Hw' & Hin). exists w', wq. split; [|done]. simpl. rw lookup_insert_ne //.
    intros <-. rw (Hold _ Hw') in Hin. by apply not_elem_of_nil in Hin. }
  assert (∀ w' wq, <[w := wq']> (wait_queues s) !! w' = Some wq → wq = wq' ∨ wait_queues s !! w' = Some wq) as Hlk.
  { intros w' wq [[_ ?]|[_ ?]]%lookup_insert_Some; auto. }
  split; [|split; try apply C|by apply timer_inv_wq].
  - split; simpl; try apply I.
    + intros w0 wq t [->|Hw]%Hlk Hin; [|by apply (qi_blocked _ _ I _ _ _ Hw)].
      rw Hl in Hin. by apply not_elem_of_nil in Hin.
    + intros w0 wq [->|Hw]%Hlk; [rw Hl; constructor|by apply (qi_wq_nodup _ _ I w0)].
    + intros w0 wq [->|Hw]%Hlk; [by rw Hn Hl|by apply (qi_wq_count _ _ I w0)].
    + intros w0 wq [->|Hw]%Hlk; [by rw Hl|by apply (qi_wq_magic _ _ I w0)].
    + intros t th Ht HX Hb. apply Hmono. by apply (qi_blocked_queued _ _ I t th).
    + set_solver.
  - intros t th Ht Hm. destruct (ci_retcode _ _ C _ _ Ht Hm) as (wq & ? & ?). exists wq.
    simpl. by rw lookup_insert_ne.
Qed.

Lemma kinv_wq_retire s w wq :
  kinv ∅ ∅ s → wait_queues s !! w = Some wq → wq_list wq = [] → (∀ t, w ≠ RetcodeWq t) →
  kinv ∅ ∅ (st_upd_wq w (set_wq_magic 0) s).
Proof.
  intros I Hw Hl Hret. replace (alter _ w (wait_queues s)) with (<[w := set_wq_magic 0 wq]> (wait_queues s)).
  - apply kinv_wq_put; try done; [congruence|]. simpl. by rw (qi_wq_count _ _ (k_queue _ _ _ I) _ _ Hw) Hl.
  - apply map_eq. intros w'. destruct (decide (w' = w)) as [->|].
    + by rw lookup_insert_eq lookup_alter_eq Hw.
    + by rw lookup_insert_ne // lookup_alter_ne.
Qed.

Lemma wp_wait_queue_destroy s cpu cur cth w wq reschedule (Q : call unit → kstate → Prop) :
  kinv ∅ ∅ s → current s !! cpu = Some cur → threads s !! cur = Some cth → thread_lock s = true →
  wait_queues s !! w = Some wq → wq_magic wq = WAIT_QUEUE_MAGIC → (∀ t, w ≠ RetcodeWq t) →
  (reschedule = true → thread_is_idle cth = false) →
  (∀ r s', kinv ∅ ∅ s' → (∀ t, t ∈ wq_list wq → woken t ERR_OBJECT_DESTROYED s') →
    wait_queues s' !! w = Some (WaitQueue (match r with Switched => WAIT_QUEUE_MAGIC | _ => 0 end) [] 0) →
    (∀ w', w' ≠ w → wait_queues s' !! w' = wait_queues s !! w') →
    Q r s') →
  wp (wait_queue_destroy cpu w reschedule) Q s.
Proof.
  intros I Hcpu Hcur Hl Hw Hwm Hret Hid HQ. apply wp_bind. eapply wp_get_wq; [done|].
  apply wp_bind, wp_assert; [by rw Hwm|]. apply wp_bind, wp_assert_locked; [done|].
  apply wp_bind. eapply wp_wait_queue_wake_all; [done..|]. intros s' I' Hl' Ho Hw' Hwk _.
  apply wp_if; intros _; [by apply wp_ret, HQ|].
  apply wp_bind. eapply wp_upd_wq; [done|]. apply wp_ret, HQ.
  - by eapply kinv_wq_retire.
  - intros t Ht. apply (Hwk t Ht).
  - by rw /= lookup_alter_eq Hw'.
  - intros w' Hne. rw /= lookup_alter_ne //. by apply Ho.
Qed.

Lemma wp_unblock_from_wait_queue E s cpu t th err (Q : Z → kstate → Prop) :
  kinv ∅ E s → threads s !! t = Some th → magic th = THREAD_MAGIC → thread_lock s = true →
  (state th ≠ THREAD_BLOCKED → Q ERR_NOT_BLOCKED s) →
  (∀ w wq ev, state th = THREAD_BLOCKED → blocking_wait_queue th = Some w →
    wait_queues s !! w = Some wq → t ∈ wq_list wq →
    let s' := set_events ev (st_enqueue (priority th) (t :: queue_at s (Z.to_nat (priority th)))
      (st_wake t (wake_with err) w (list_without t (wq_list wq)) s)) in
    kinv ∅ E s' → Q NO_ERROR s') →
  wp (thread_unblock_from_wait_queue cpu t err) Q s.
Proof.
  intros I Ht Hm Hl HQ0 HQ. apply wp_bind. eapply wp_get_thread; [done|].
  apply wp_bind, wp_assert; [by rw Hm|]. apply wp_bind, wp_assert_locked; [done|].
  apply wp_if; intros Hb; to_prop; [by apply wp_ret, HQ0|].
  destruct (qi_blocked_queued _ _ (k_queue _ _ _ I) _ _ Ht) as (w & wq & Hw & Hin); [set_solver|done|].
  destruct (qi_blocked _ _ (k_queue _ _ _ I) _ _ _ Hw Hin) as (? & ? & _ & _ & Hbw & Hid). simplify_eq.
  pose proof (qi_wq_nodup _ _ (k_queue _ _ _ I) _ _ Hw) as Hnd.
  rw Hbw. apply wp_bind. eapply wp_get_wq; [done|].
  apply wp_bind, wp_assert.
  { rw (qi_wq_magic _ _ (k_queue _ _ _ I) _ _ Hw) //. intros E0. rw E0 in Hin. by apply not_elem_of_nil in Hin. }
  apply wp_bind, wp_gets, wp_bind, wp_assert; [apply queue_node_in_list_spec; right; by exists w, wq|].
  apply wp_bind, wp_modify, wp_bind.
  destruct (kinv_wake ∅ E s t (wake_with err) w wq (list_without t (wq_list wq)))
    as (? & ? & _ & _ & _ & HX & I2); [done..|by apply list_without_perm|done|]. simplify_eq.
  assert (alter (λ q, set_wq_count (wq_count q - 1) q) w
     ((λ q, set_wq_list (list_without t (wq_list q)) q) <$> wait_queues s) =
    alter (λ q, set_wq_count (wq_count q - 1) (set_wq_list (list_without t (wq_list wq)) q)) w (wait_queues s)) as Em.
  { apply map_eq. intros w'. destruct (decide (w' = w)) as [->|].
    - by rw !lookup_alter_eq lookup_fmap Hw.
    - rw !lookup_alter_ne // lookup_fmap. destruct (wait_queues s !! w') as [wq'|] eqn:Hw'; [|done].
      simpl. rw list_without_id; [by destruct wq'|]. intros Hin'.
      destruct (qi_blocked _ _ (k_queue _ _ _ I) _ _ _ Hw' Hin') as (? & ? & _ & _ & ? & _). congruence. }
  eapply wp_upd_wq; [simpl; by rw lookup_fmap Hw|]. simpl. rw Em.
  apply wp_bind. eapply wp_upd_thread; [done|].
  apply wp_bind, (wp_insert_kinv _ _ _ t (wake_with err th) true _ I2 (elem_of_hole _ _)); try done.
  { by rw /= lookup_alter_eq Ht. }
  intros q s3 I3. rw union_diff_self // in I3.
  apply wp_bind. eapply wp_wakeup; [by rw /= lookup_alter_eq Ht|]. intros ev.
  apply wp_ret. eapply HQ; try done. kinv_frame.
Qed.
End ops.
