(* ===== verification/ThreadLife.v ===== *)
(** * Timer callbacks and the life cycle of threads

    The rest of the operations of [src/mk/kernel/thread.c] against the kernel
    invariant: the timer callbacks, [thread_sleep], creation, [thread_exit],
    [thread_join] and [thread_detach]. *)

From S2P Require Import Prelude Kernel Timer Thread SchedInv KernelInv SchedOps.

Section life.
Implicit Types (s : kstate) (t : thread_ptr) (th : thread) (X : gset thread_ptr) (E : gset nat).

(** ** Timer callbacks *)

(** What the scheduler's callbacks keep of a thread. *)
Definition callback_keeps (th th' : thread) : Prop :=
  flags th' = flags th ∧ (state th = THREAD_READY → state th' = THREAD_READY).

#[local] Instance callback_keeps_refl : Reflexive callback_keeps.
Proof. by intros th. Qed.

(** The parts of the state the scheduler's callbacks leave alone. *)
Record callback_frame s s' : Prop := {
  cf_lock : thread_lock s' = thread_lock s;
  cf_timers : timers s' = timers s;
  cf_timer_queue : timer_queue s' = timer_queue s;
  cf_current : current s' = current s;
  cf_threads t : option_Forall2 callback_keeps (threads s !! t) (threads s' !! t)
}.

Lemma callback_keeps_alter (m : gmap thread_ptr thread) t th f t' :
  m !! t = Some th → callback_keeps th (f th) →
  option_Forall2 callback_keeps (m !! t') (alter f t m !! t').
Proof.
  intros Ht Hk. destruct (decide (t' = t)) as [->|].
  - rw lookup_alter_eq Ht. by constructor.
  - by rw lookup_alter_ne.
Qed.

Lemma wp_thread_timer_tick s cpu cur (Q : handler_return → kstate → Prop) :
  kinv ∅ ∅ s → current s !! cpu = Some cur →
  (∀ r s', kinv ∅ ∅ s' → callback_frame s s' → Q r s') →
  wp (thread_timer_tick cpu) Q s.
Proof.
  intros I Hcpu HQ. destruct (kinv_current _ _ _ _ _ I Hcpu) as (cth & Hcur & _); [set_solver|].
  apply wp_bind. eapply wp_deref; [done|]. apply wp_bind. eapply wp_get_thread; [done|].
  apply wp_if; intros _; [by apply wp_ret, HQ|].
  apply wp_bind. eapply wp_upd_thread; [done|]. apply wp_ret, HQ; [by eapply kinv_upd_same|].
  split; try done. intros t. by eapply callback_keeps_alter.
Qed.

Lemma wp_thread_sleep_handler s t th (Q : handler_return → kstate → Prop) :
  kinv ∅ ∅ s → threads s !! t = Some th → magic th = THREAD_MAGIC → state th = THREAD_SLEEPING →
  thread_lock s = false → ¬ timer_queued s (StackTimer t) →
  (let s' := set_thread_lock false (st_ready t (set_state THREAD_READY) th s) in
   kinv ∅ ∅ s' → Q INT_RESCHEDULE s') →
  wp (thread_sleep_handler t) Q s.
Proof.
  intros I Ht Hm Hs Hl Hnq HQ. apply wp_bind. eapply wp_get_thread; [done|].
  apply wp_bind, wp_assert; [by rw Hm|]. apply wp_bind, wp_assert; [by rw Hs|].
  apply wp_bind, wp_thread_lock; [done|]. apply wp_seq_assoc.
  apply (wp_ready_insert ∅ ∅ _ _ th); try done; rw ?Hs //.
  - eapply kinv_open; [kinv_frame|done| |by rw Hs]. left. by rw Hs.
  - apply not_true_is_false. intros Hid.
    destruct (ci_idle_ptr _ _ (k_cpu _ _ _ I) _ _ Ht Hid) as [c ->].
    destruct (ci_idle_flag _ _ (k_cpu _ _ _ I) _ _ Ht) as [_ []]; congruence.
  - apply (ci_blocking _ _ (k_cpu _ _ _ I) _ _ Ht). by rw Hs.
  - intros I'. apply wp_bind, wp_modify, wp_ret, HQ. kinv_frame.
Qed.

Lemma wp_wait_queue_timeout_handler s cpu t th (Q : handler_return → kstate → Prop) :
  kinv ∅ ∅ s → threads s !! t = Some th → magic th = THREAD_MAGIC → thread_lock s = false →
  (∀ r s', kinv ∅ ∅ s' → callback_frame s s' → Q r s') →
  wp (wait_queue_timeout_handler cpu t) Q s.
Proof.
  intros I Ht Hm Hl HQ. apply wp_bind. eapply wp_get_thread; [done|].
  apply wp_bind, wp_assert; [by rw Hm|]. apply wp_bind, wp_thread_lock; [done|].
  apply wp_bind. eapply wp_unblock_from_wait_queue; [kinv_frame|done..| |].
  - intros _. apply wp_bind, wp_modify, wp_ret, HQ; [kinv_frame|by split].
  - intros w wq ev _ _ _ _ s' I'. apply wp_bind, wp_modify, wp_ret, HQ; [kinv_frame|].
    split; try done. intros t'. by eapply callback_keeps_alter.
Qed.

Lemma wp_thread_sleep s cpu cur cth delay (Q : unit → kstate → Prop) :
  kinv ∅ ∅ s → current s !! cpu = Some cur → threads s !! cur = Some cth → thread_lock s = false →
  thread_is_idle cth = false → ¬ timer_queued s (StackTimer cur) →
  (∀ s1 s', kinv ∅ ∅ s' → threads s1 = alter (set_state THREAD_SLEEPING) cur (threads s) →
    run_queue s1 = run_queue s → resched_post cpu cur s1 s' → Q () s') →
  wp (thread_sleep cpu delay) Q s.
Proof.
  intros I Hcpu Hcur Hl Hid Hnq HQ.
  destruct (kinv_current _ _ _ _ _ I Hcpu) as (? & ? & Hrun & Hmag & _ & ?); [set_solver|]. simplify_eq.
  apply wp_bind. eapply wp_deref; [done|]. apply wp_bind. eapply wp_get_thread; [done|].
  apply wp_bind, wp_assert; [by rw Hmag|]. apply wp_bind, wp_assert; [by rw Hrun|].
  apply wp_bind, wp_assert; [by rw Hid|]. apply wp_bind, wp_modify, wp_bind, wp_thread_lock; [done|].
  (* the timer is programmed before the state is set; the two steps commute *)
  set (s1 := set_thread_lock true _).
  pose proof (kinv_stack_timer _ _ _ cur I Hnq) as I0.
  assert (kinv ∅ ∅ s1) as I1 by kinv_frame.
  set (s2 := st_upd_thread cur (set_state THREAD_SLEEPING) s1).
  assert (kinv ∅ {[cpu]} s2) as I2.
  { rw -(union_diff_self ∅ cur); [|set_solver].
    eapply kinv_close; [|apply elem_of_hole|by rw /= lookup_alter_eq Hcur|by left|done].
    eapply kinv_leave; try done; [by rw Hid|by right]. }
  destruct (ti_queue _ _ (k_timer _ _ _ I) cpu) as [q Hq]; [by rw Hcpu|].
  apply wp_bind. eapply wp_timer_set; [by apply lookup_insert_eq|done|done|exact Hq|].
  intros f sched ev. apply wp_bind. eapply wp_upd_thread; [done|].
  eapply wp_thread_resched; [|exact Hcpu|by rw /= lookup_alter_eq Hcur|done|done|].
  - apply (kinv_timers _ _ s2); [done|].
    eapply (timer_inv_set _ s2 _ TIMER_INITIAL_VALUE f cpu q); try done.
    + apply I2.
    + by apply lookup_insert_eq.
    + apply insert_by_time_perm.
    + split; [done|]. split; [done|]. exists cur, (set_state THREAD_SLEEPING cth).
      by rw /= lookup_alter_eq Hcur.
  - intros s' Hp I'. by eapply HQ; [..|exact Hp].
Qed.

(** ** Death *)

(** A thread with no pending stack timer dies, or changes while dead. *)
Lemma kinv_upd_dead s cpu E E' t th f :
  kinv ∅ E s → threads s !! t = Some th →
  (E = ∅ ∧ E' = {[cpu]} ∧ current s !! cpu = Some t ∧ thread_is_idle th = false) ∨
    (E' = E ∧ state th = THREAD_DEATH) →
  ¬ timer_queued s (StackTimer t) →
  curr_cpu (f th) = curr_cpu th → priority (f th) = priority th →
  thread_is_idle (f th) = thread_is_idle th →
  thread_is_real_time_or_idle (f th) = thread_is_real_time_or_idle th →
  (magic (f th) = THREAD_MAGIC → magic th = THREAD_MAGIC) →
  blocking_wait_queue (f th) = blocking_wait_queue th → state (f th) = THREAD_DEATH →
  kinv ∅ E' (st_upd_thread t f s).
Proof.
  intros [I C T] Ht Hor Hnq Hcc Hp Hid Hrt Hm Hbl Hd.
  pose proof (qi_priority _ _ I _ _ Ht).
  assert (state th ≠ THREAD_READY ∧ state th ≠ THREAD_BLOCKED) as [Hnr Hnb].
  { destruct Hor as [(-> & _ & Hc & _)|[_ ->]]; [|done].
    destruct (ci_current _ _ C _ _ Hc) as (? & ? & _ & [Hr _]); [set_solver|]. simplify_eq. by rw Hr. }
  split.
  - rw -(union_diff_self ∅ t); [|set_solver].
    eapply queue_inv_close; [|apply elem_of_hole|by rw /= lookup_alter_eq Ht|left; by rw Hd|by rw Hd].
    eapply queue_inv_upd_hole; [|apply elem_of_hole|done|lia]. eapply queue_inv_open; eauto.
  - destruct Hor as [(-> & -> & Hc & Hi)|[-> Hdead]].
    + eapply cpu_inv_leave; try done; rw ?Hd //; [by rw Hi|].
      intros _. rw Hbl. by apply (ci_blocking _ _ C _ _ Ht).
    + eapply cpu_inv_upd; try done; rw ?Hd //.
      * intros c Hc. split; [done|]. intros HE. destruct (ci_current _ _ C _ _ Hc) as (? & ? & _ & []); [done|].
        simplify_eq. congruence.
      * intros Hi. destruct (ci_idle_ptr _ _ C _ _ Ht Hi) as [c ->].
        destruct (ci_idle_flag _ _ C _ _ Ht) as [_ []]; congruence.
      * intros _. rw Hbl. by apply (ci_blocking _ _ C _ _ Ht).
  - eapply timer_inv_upd; [done..| |by rw Hrt]. done.
Qed.

(** [wait_queue_wake_all] without a reschedule. *)
Lemma wp_wake_all_quiet E s cpu cur w wq err (Q : Z → kstate → Prop) :
  kinv ∅ E s → current s !! cpu = Some cur → thread_lock s = true →
  wait_queues s !! w = Some wq → wq_magic wq = WAIT_QUEUE_MAGIC →
  (∀ s' ev, kinv ∅ E (set_events ev s') → all_woken w err (wq_list wq) s s' →
    Q (Z.of_nat (length (wq_list wq))) (set_events ev s')) →
  wp (wait_queue_wake_all cpu w false err) Q s.
Proof.
  intros I Hcpu Hl Hw Hwm HQ.
  apply wp_bind. eapply wp_deref; [done|]. apply wp_bind. eapply wp_get_wq; [done|].
  apply wp_bind, wp_assert; [by rw Hwm|]. apply wp_bind, wp_assert_locked; [done|].
  apply wp_bind, wp_ret, wp_bind. eapply wp_wake_all_loop; [done..|].
  intros mask s2 I2 Haw. apply wp_bind. eapply wp_get_wq; [by eapply all_woken_queue|].
  apply wp_bind, wp_assert; [done|]. apply wp_bind, wp_when; intros _.
  - apply wp_bind, wp_bind, wp_gets, wp_modify. apply wp_ret, wp_ret, HQ; [kinv_frame|done].
  - assert (set_events (events s2) s2 = s2) as Es by by destruct s2.
    specialize (HQ s2 (events s2)). rw Es in HQ. by apply wp_ret, HQ.
Qed.

(** Clearing or setting a flag leaves the others. *)
Lemma ldiff_flag fl f g : Z.land f g = 0 → Z.land (Z.ldiff fl f) g = Z.land fl g.
Proof.
  intros Hfg. apply Z.bits_inj. intros i. rw !Z.land_spec Z.ldiff_spec.
  apply (f_equal (λ z, Z.testbit z i)) in Hfg. rw Z.land_spec Z.bits_0 in Hfg.
  by destruct (Z.testbit fl i), (Z.testbit f i), (Z.testbit g i).
Qed.

Lemma lor_flag fl f g : Z.land f g = 0 → Z.land (Z.lor fl f) g = Z.land fl g.
Proof. intros Hfg. by rw Z.land_lor_distr_l Hfg Z.lor_0_r. Qed.

Lemma wp_thread_exit s cpu cur cth rc (Q : unit → kstate → Prop) :
  kinv ∅ ∅ s → current s !! cpu = Some cur → threads s !! cur = Some cth → thread_lock s = false →
  thread_is_idle cth = false → ¬ timer_queued s (StackTimer cur) →
  (∀ s', kinv ∅ ∅ s' → (∀ wq t, wait_queues s !! RetcodeWq cur = Some wq →
      has_flag cth THREAD_FLAG_DETACHED = false → t ∈ wq_list wq → woken t 0 s') →
    thread_lock s' = true → Q () s') →
  wp (thread_exit cpu rc) Q s.
Proof.
  intros I Hcpu Hcur Hl Hid Hnq HQ.
  destruct (kinv_current _ _ _ _ _ I Hcpu) as (? & ? & Hrun & Hmag & _ & ?); [set_solver|]. simplify_eq.
  apply wp_bind. eapply wp_deref; [done|]. apply wp_bind. eapply wp_get_thread; [done|].
  apply wp_bind, wp_assert; [by rw Hmag|]. apply wp_bind, wp_assert; [by rw Hrun|].
  apply wp_bind, wp_assert; [by rw Hid|]. apply wp_bind, wp_thread_lock; [done|].
  apply wp_bind. eapply wp_upd_thread; [done|].
  set (die := λ th, set_retcode rc (set_state THREAD_DEATH th)).
  set (s1 := st_upd_thread cur die (set_thread_lock true s)).
  assert (kinv ∅ {[cpu]} s1) as I1.
  { eapply (kinv_upd_dead _ cpu ∅); try done; [kinv_frame|by left]. }
  assert (threads s1 !! cur = Some (die cth)) as Ht1 by by rw /= lookup_alter_eq Hcur.
  assert (∀ s2 th2, kinv ∅ {[cpu]} s2 → current s2 = current s → threads s2 !! cur = Some th2 →
    state th2 = THREAD_DEATH → thread_lock s2 = true →
    (∀ s', resched_post cpu cur s2 s' → kinv ∅ ∅ s' → thread_lock s' = true → Q () s') →
    wp (thread_resched cpu) Q s2) as Hrs.
  { intros s2 th2 I2 Ec Ht2 Hd2 Hl2 HQ2. eapply wp_thread_resched; [done|by rw Ec|done|by rw Hd2|done|].
    intros s' Hp I'. apply HQ2; [done..|apply Hp]. }
  apply wp_bind, wp_if; intros Hdet.
  - apply wp_bind, wp_modify, wp_bind. eapply wp_upd_thread; [done|].
    set (s2 := st_upd_thread cur (set_magic 0) _).
    assert (kinv ∅ {[cpu]} s2) as I2.
    { eapply (kinv_upd_dead _ cpu {[cpu]} _ _ (die cth)); try done; [kinv_frame|by right]. }
    assert (threads s2 !! cur = Some (set_magic 0 (die cth))) as Ht2 by by rw /= lookup_alter_eq Ht1.
    assert (∀ s3 th3, kinv ∅ {[cpu]} s3 → current s3 = current s → threads s3 !! cur = Some th3 →
      state th3 = THREAD_DEATH → thread_lock s3 = true →
      wp (when (has_flag cth THREAD_FLAG_FREE_STRUCT) (emit (EvFreeStruct cur))) (λ _, wp (thread_resched cpu) Q) s3) as Hfree.
    { intros s3 th3 I3 Ec3 Ht3 Hd3 Hl3. apply wp_when; intros _; [apply wp_modify|];
        (eapply (Hrs _ th3); [kinv_frame|done..|]; intros s' _ I' Hl'; apply HQ; [done|congruence|done]). }
    apply wp_bind, wp_when; intros _; [|by eapply Hfree].
    apply wp_bind, wp_modify. eapply wp_upd_thread; [exact Ht2|]. eapply Hfree; [..|done].
    + eapply (kinv_upd_dead (set_events _ s2) cpu {[cpu]} _ _ (set_magic 0 (die cth))); try done; [kinv_frame|by right|..].
      all: rw /thread_is_idle /thread_is_real_time_or_idle /=; by rw ldiff_flag.
    + done.
    + by rw /= lookup_alter_eq Ht2.
    + done.
  - destruct (ci_retcode _ _ (k_cpu _ _ _ I) _ _ Hcur Hmag) as (wq & Hw & Hwm).
    apply wp_bind. eapply wp_wake_all_quiet; [done..|]. intros s2 ev I2 Haw. apply wp_ret.
    eapply (Hrs _ (die cth)); [done|apply Haw| |done|by rw /= (aw_lock _ _ _ _ _ Haw)|].
    + rw /= (aw_threads _ _ _ _ _ Haw) //. intros Hin.
      destruct (qi_blocked _ _ (k_queue _ _ _ I) _ _ _ Hw Hin) as (? & ? & _ & ? & _). congruence.
    + intros s' Hp I' Hl'. apply HQ; [done| |done]. intros wq' t Hw' _ Hin. simplify_eq.
      eapply resched_woken; [done|]. by apply Haw.
Qed.

Lemma dead_no_timer s t th :
  timer_inv ∅ s → threads s !! t = Some th → state th = THREAD_DEATH → ¬ timer_queued s (StackTimer t).
Proof.
  intros T Ht Hd Hq. destruct (ti_member _ _ T _ Hq) as (tm & _ & _ & Hcb).
  destruct (callback tm) as [[]|]; try done.
  1,2: destruct Hcb as (_ & t' & th' & [= <-] & _ & ? & _ & ?); congruence.
  1: by destruct Hcb as [? [=]].
  by destruct Hcb as [? [=]].
Qed.

Lemma wp_thread_join_reap s t th (Q : Z → kstate → Prop) :
  kinv ∅ ∅ s → threads s !! t = Some th → magic th = THREAD_MAGIC → state th = THREAD_DEATH →
  (∀ s', kinv ∅ ∅ s' → thread_lock s' = false → t ∉ thread_list s' →
    threads s' !! t = Some (set_magic 0 th) → current s' = current s → Q (retcode th) s') →
  wp (thread_join_reap t) Q s.
Proof.
  intros I Ht Hm Hd HQ. pose proof (dead_no_timer _ _ _ (k_timer _ _ _ I) Ht Hd) as Hnq.
  apply wp_bind. eapply wp_get_thread; [done|]. apply wp_bind, wp_assert; [by rw Hm|].
  apply wp_bind, wp_assert; [by rw Hd|].
  apply wp_bind, wp_assert; [rw (ci_blocking _ _ (k_cpu _ _ _ I) _ _ Ht) //; by rw Hd|].
  apply wp_bind, wp_gets, wp_bind, wp_assert.
  { rw queue_node_not_in_list //.
    - intros (i & q & Hq & Hin). destruct (qi_ready _ _ (k_queue _ _ _ I) _ _ _ Hq Hin) as (? & ? & _ & ? & _). congruence.
    - intros (w & q & Hq & Hin). destruct (qi_blocked _ _ (k_queue _ _ _ I) _ _ _ Hq Hin) as (? & ? & _ & ? & _). congruence. }
  apply wp_bind, wp_modify, wp_bind. eapply wp_upd_thread; [done|]. apply wp_bind, wp_modify.
  set (s1 := set_thread_lock false _).
  assert (kinv ∅ ∅ s1) as I1.
  { apply (kinv_ext _ _ (st_upd_thread t (set_magic 0) s)); try done.
    eapply (kinv_upd_dead _ 0%nat ∅); try done. by right. }
  assert (∀ s2, (∃ ev, s2 = set_events ev s1) → Q (retcode th) s2) as HQ1.
  { intros s2 [ev ->]. apply HQ; [kinv_frame|done|..].
    - simpl. rw list_without_elem. tauto.
    - by rw /= lookup_alter_eq Ht.
    - done. }
  apply wp_bind, wp_when; intros _; [apply wp_modify|]; apply wp_bind, wp_when; intros _;
    try apply wp_modify; apply wp_ret, HQ1; eexists; reflexivity.
Qed.

Lemma wp_thread_join_dead s cpu t th timeout (Q : call (Z * option Z) → kstate → Prop) :
  kinv ∅ ∅ s → thread_lock s = false → threads s !! t = Some th → magic th = THREAD_MAGIC →
  state th = THREAD_DEATH → has_flag th THREAD_FLAG_DETACHED = false →
  (∀ s', kinv ∅ ∅ s' → thread_lock s' = false → t ∉ thread_list s' → current s' = current s →
     Q (Returned (NO_ERROR, Some (retcode th))) s') →
  wp (thread_join cpu t timeout) Q s.
Proof.
  intros I Hl Ht Hm Hd Hdet HQ. apply wp_bind. eapply wp_get_thread; [done|].
  apply wp_bind, wp_assert; [by rw Hm|]. apply wp_bind, wp_thread_lock; [done|].
  rw Hdet. rw bool_decide_true //. apply wp_bind.
  eapply wp_thread_join_reap; [kinv_frame|done..|]. intros s' I' Hl' Hnin _ Hc. by apply wp_ret, HQ.
Qed.

Lemma wp_thread_join s cpu cur cth t th timeout (Q : call (Z * option Z) → kstate → Prop) :
  kinv ∅ ∅ s → current s !! cpu = Some cur → threads s !! cur = Some cth → thread_lock s = false →
  threads s !! t = Some th → magic th = THREAD_MAGIC →
  (has_flag th THREAD_FLAG_DETACHED = false → state th ≠ THREAD_DEATH →
     thread_is_idle cth = false ∧ ¬ timer_queued s (StackTimer cur)) →
  (∀ s', kinv ∅ ∅ s' → has_flag th THREAD_FLAG_DETACHED = true →
     thread_lock s' = false → Q (Returned (ERR_THREAD_DETACHED, None)) s') →
  (∀ s', kinv ∅ ∅ s' → has_flag th THREAD_FLAG_DETACHED = false → state th = THREAD_DEATH →
     thread_lock s' = false → t ∉ thread_list s' → Q (Returned (NO_ERROR, Some (retcode th))) s') →
  (∀ s', kinv ∅ ∅ s' → has_flag th THREAD_FLAG_DETACHED = false → state th ≠ THREAD_DEATH →
     timeout = 0 → thread_lock s' = false → Q (Returned (ERR_TIMED_OUT, None)) s') →
  (∀ s', kinv ∅ ∅ s' → has_flag th THREAD_FLAG_DETACHED = false → state th ≠ THREAD_DEATH →
     timeout ≠ 0 → thread_lock s' = true → Q Switched s') →
  wp (thread_join cpu t timeout) Q s.
Proof.
  intros I Hcpu Hcur Hl Ht Hm Hpre HQ1 HQ2 HQ3 HQ4. apply wp_bind. eapply wp_get_thread; [done|].
  apply wp_bind, wp_assert; [by rw Hm|]. apply wp_bind, wp_thread_lock; [done|].
  apply wp_if; intros Hdet; [apply wp_bind, wp_modify, wp_ret, HQ1; [kinv_frame|done..]|].
  apply wp_if; intros Hd; to_prop.
  - destruct (ci_retcode _ _ (k_cpu _ _ _ I) _ _ Ht Hm) as (wq & Hw & Hwm). destruct (Hpre Hdet Hd).
    apply wp_bind. eapply wp_wait_queue_block; [kinv_frame|done..| |].
    + intros ?. apply wp_bind, wp_modify, wp_ret, HQ3; [kinv_frame|done..].
    + intros s1 s' Hto _ _ _ _ Hp I'. apply wp_ret, HQ4; [done..|apply Hp].
  - apply wp_bind. eapply wp_thread_join_reap; [kinv_frame|done..|]. intros s' I' Hl' Hnin _ _.
    by apply wp_ret, HQ2.
Qed.

(** Flags other than idle and real-time. *)
Lemma kinv_upd_flags X E s t th f :
  kinv X E s → threads s !! t = Some th →
  (∀ th', thread_is_idle (set_flags (f (flags th')) th') = thread_is_idle th') →
  thread_is_real_time_or_idle (set_flags (f (flags th)) th) = thread_is_real_time_or_idle th →
  kinv X E (st_upd_thread t (λ th, set_flags (f (flags th)) th) s).
Proof.
  intros [I C T] Ht Hid Hrt. split.
  - apply queue_inv_upd_same; [done|]. intros th'. by rw Hid.
  - eapply cpu_inv_upd; try done; intros ?;
      [by apply (ci_dead _ _ C _ _ Ht)|by apply (ci_blocking _ _ C _ _ Ht)].
  - eapply timer_inv_upd; [done..|by rw Hrt].
Qed.

Lemma wp_thread_detach s cpu cur t th (Q : Z → kstate → Prop) :
  kinv ∅ ∅ s → current s !! cpu = Some cur → thread_lock s = false →
  threads s !! t = Some th → magic th = THREAD_MAGIC →
  (∀ s', kinv ∅ ∅ s' → thread_lock s' = false → current s' = current s →
    (state th = THREAD_DEATH → t ∉ thread_list s') →
    (state th ≠ THREAD_DEATH → ∃ th', threads s' !! t = Some th' ∧ magic th' = THREAD_MAGIC ∧
      state th' ≠ THREAD_DEATH ∧ has_flag th' THREAD_FLAG_DETACHED = true) →
    Q NO_ERROR s') →
  wp (thread_detach cpu t) Q s.
Proof.
  intros I Hcpu Hl Ht Hm HQ. apply wp_bind. eapply wp_get_thread; [done|].
  apply wp_bind, wp_assert; [by rw Hm|]. apply wp_bind, wp_thread_lock; [done|].
  destruct (ci_retcode _ _ (k_cpu _ _ _ I) _ _ Ht Hm) as (wq & Hw & Hwm).
  apply wp_bind. eapply wp_wake_all_quiet; [kinv_frame|done..|]. intros s1 ev I1 Haw.
  assert (∃ th1, threads s1 !! t = Some th1 ∧ magic th1 = THREAD_MAGIC ∧
    (state th1 = THREAD_DEATH ↔ state th = THREAD_DEATH)) as (th1 & Ht1 & Hm1 & Hd1).
  { destruct (decide (t ∈ wq_list wq)) as [Hin|Hnin].
    - destruct (aw_woken _ _ _ _ _ Haw _ Hin) as (th1 & ? & _ & _ & Hst). exists th1. split; [done|].
      destruct (qi_blocked _ _ (k_queue _ _ _ I) _ _ _ Hw Hin) as (? & ? & _ & ? & _). simplify_eq.
      split; [|destruct Hst; split; congruence].
      destruct (decide (magic th1 = THREAD_MAGIC)) as [|Hne]; [done|].
      apply (ci_dead _ _ (k_cpu _ _ _ I1) t) in Hne; [|done]. destruct Hst; congruence.
    - exists th. rw (aw_threads _ _ _ _ _ Haw) //. }
  apply wp_bind. eapply wp_get_thread; [done|]. apply wp_if; intros Hd; to_prop.
  - apply wp_bind. eapply wp_upd_thread; [done|]. apply wp_bind, wp_modify, wp_bind.
    set (s2 := set_thread_lock false _).
    assert (kinv ∅ ∅ s2) as I2.
    { eapply kinv_ext; [..|eapply (kinv_upd_flags _ _ _ t th1 (λ fl, Z.ldiff fl THREAD_FLAG_DETACHED) I1); [done|..]]; try done.
      - intros th'. rw /thread_is_idle /=. by rw ldiff_flag.
      - rw /thread_is_real_time_or_idle /=. by rw ldiff_flag. }
    assert (threads s2 !! t = Some (set_flags (Z.ldiff (flags th1) THREAD_FLAG_DETACHED) th1)) as Ht2
      by by rw /= lookup_alter_eq Ht1.
    eapply wp_thread_join_dead; [done|done|exact Ht2|done|done| |].
    { rw /has_flag /=. apply negb_false_iff, Z.eqb_eq. apply Z.bits_inj. intros i.
      rw Z.land_spec Z.ldiff_spec Z.bits_0. by destruct (Z.testbit (flags th1) i), (Z.testbit THREAD_FLAG_DETACHED i). }
    intros s' I' Hl' Hnin Hc'. apply wp_ret, HQ; [done..| |done|].
    + by rw Hc' /= (aw_current _ _ _ _ _ Haw).
    + by rw -Hd1.
  - apply wp_bind. eapply wp_upd_thread; [done|]. apply wp_bind, wp_modify, wp_ret, HQ.
    + eapply kinv_ext; [..|eapply (kinv_upd_flags _ _ _ t th1 (λ fl, Z.lor fl THREAD_FLAG_DETACHED) I1); [done|..]]; try done.
      * intros th'. rw /thread_is_idle /=. by rw lor_flag.
      * rw /thread_is_real_time_or_idle /=. by rw lor_flag.
    + done.
    + by rw /= (aw_current _ _ _ _ _ Haw).
    + by rw -Hd1.
    + intros _. exists (set_flags (Z.lor (flags th1) THREAD_FLAG_DETACHED) th1).
      rw /= lookup_alter_eq Ht1. split_and!; [done..|]. rw /has_flag /=. apply negb_true_iff, Z.eqb_neq.
      intros Hz. apply (f_equal (λ z, Z.testbit z (Z.log2 THREAD_FLAG_DETACHED))) in Hz.
      rw Z.land_spec Z.lor_spec Z.bits_0 in Hz. apply andb_false_iff in Hz as [[_ Hz]%orb_false_iff|Hz]; by vm_compute in Hz.
Qed.

(** ** Creation *)

(** Memory a new thread structure may be put in: never used, or of a thread
    that is gone. *)
Definition reusable s t : Prop :=
  (∃ a, t = HeapThread a) ∧
  (∀ th, threads s !! t = Some th → magic th ≠ THREAD_MAGIC) ∧
  (∀ wq, wait_queues s !! RetcodeWq t = Some wq → wq_list wq = []) ∧
  ¬ timer_queued s (StackTimer t).

Definition st_new (t : thread_ptr) (th : thread) s : kstate :=
  set_wait_queues (<[RetcodeWq t := WaitQueue WAIT_QUEUE_MAGIC [] 0]> (wait_queues s))
    (set_threads (<[t := th]> (threads s)) s).

Lemma reusable_not_queued s t :
  kinv ∅ ∅ s → reusable s t →
  ¬ on_run_queue s t ∧ ¬ on_wait_queue s t ∧ ∀ c, current s !! c ≠ Some t.
Proof.
  intros [I C T] (_ & Hm & _). split_and!.
  - intros (i & q & Hq & Hin). destruct (qi_ready _ _ I _ _ _ Hq Hin) as (? & ? & ? & _). naive_solver.
  - intros (w & q & Hq & Hin). destruct (qi_blocked _ _ I _ _ _ Hq Hin) as (? & ? & ? & _). naive_solver.
  - intros c Hc. destruct (ci_current _ _ C _ _ Hc) as (? & ? & _ & []); [set_solver|]. naive_solver.
Qed.

Lemma queue_inv_new s t th :
  queue_inv ∅ s → ¬ on_run_queue s t → ¬ on_wait_queue s t →
  (∀ wq, wait_queues s !! RetcodeWq t = Some wq → wq_list wq = []) →
  state th ≠ THREAD_READY → state th ≠ THREAD_BLOCKED → 0 ≤ priority th < 32 →
  queue_inv ∅ (st_new t th s).
Proof.
  intros I Hnr Hnw Hwq Hs Hs' Hp.
  assert (∀ t', on_wait_queue s t' → on_wait_queue (st_new t th s) t') as Hmono.
  { intros t' (w & wq & Hw & Hin). exists w, wq. split; [|done]. simpl. rw lookup_insert_ne //.
    intros <-. rw (Hwq _ Hw) in Hin. by apply not_elem_of_nil in Hin. }
  assert (∀ w wq, <[RetcodeWq t := WaitQueue WAIT_QUEUE_MAGIC [] 0]> (wait_queues s) !! w = Some wq →
    wq = WaitQueue WAIT_QUEUE_MAGIC [] 0 ∨ wait_queues s !! w = Some wq) as Hlw.
  { intros w wq [[_ ?]|[_ ?]]%lookup_insert_Some; auto. }
  split; simpl; try apply I.
  - intros i q t' Hq Hin. destruct (qi_ready _ _ I _ _ _ Hq Hin) as (th' & ? & ?). exists th'.
    simpl. rw lookup_insert_ne //. intros <-. apply Hnr. by exists i, q.
  - intros w wq t' [->|Hw]%Hlw Hin; [by apply not_elem_of_nil in Hin|].
    destruct (qi_blocked _ _ I _ _ _ Hw Hin) as (th' & ? & ?). exists th'.
    simpl. rw lookup_insert_ne //. intros <-. apply Hnw. by exists w, wq.
  - intros w wq [->|Hw]%Hlw; [constructor|by apply (qi_wq_nodup _ _ I w)].
  - intros w wq [->|Hw]%Hlw; [done|by apply (qi_wq_count _ _ I w)].
  - intros w wq [->|Hw]%Hlw; [done|by apply (qi_wq_magic _ _ I w)].
  - intros t' th' [[_ <-]|[_ Ht']]%lookup_insert_Some; [done|by apply (qi_priority _ _ I t')].
  - intros t' th' [[<- <-]|[_ Ht']]%lookup_insert_Some; [congruence|by apply (qi_ready_queued _ _ I)].
  - intros t' th' [[<- <-]|[_ Ht']]%lookup_insert_Some ? ?; [congruence|].
    apply Hmono. by apply (qi_blocked_queued _ _ I t' th').
  - set_solver.
Qed.

Lemma timer_inv_new s t th :
  timer_inv ∅ s → ¬ timer_queued s (StackTimer t) → (∀ c, current s !! c ≠ Some t) →
  timer_inv ∅ (st_new t th s).
Proof.
  intros T Hnt Hnc. split; simpl; try apply T.
  - intros x Hx. destruct (ti_member _ _ T x Hx) as (tm & ? & ? & Hcb). exists tm. split; [done|]. split; [done|].
    destruct (callback tm) as [[]|]; try done.
    all: destruct Hcb as (? & t' & th' & -> & ? & ? & ?); split; [done|]; exists t', th'; simpl.
    all: rw lookup_insert_ne //; intros <-; by apply Hnt.
  - intros c t' th' HE Hc [[<- _]|[_ Ht']]%lookup_insert_Some; [by destruct (Hnc c)|].
    by apply (ti_quiet _ _ T c t' th').
Qed.

Lemma ci_retcode_new E s t th t' th' :
  cpu_inv E s → <[t := th]> (threads s) !! t' = Some th' → magic th' = THREAD_MAGIC →
  ∃ wq, wait_queues (st_new t th s) !! RetcodeWq t' = Some wq ∧ wq_magic wq = WAIT_QUEUE_MAGIC.
Proof.
  intros C [[<- <-]|[Hne Ht']]%lookup_insert_Some Hm'; simpl.
  - exists (WaitQueue WAIT_QUEUE_MAGIC [] 0). by rw lookup_insert_eq.
  - destruct (ci_retcode _ _ C _ _ Ht' Hm') as (wq & ? & ?). exists wq. rw lookup_insert_ne //. congruence.
Qed.

Lemma kinv_new s t th :
  kinv ∅ ∅ s → reusable s t → magic th = THREAD_MAGIC → state th = THREAD_SUSPENDED →
  thread_is_idle th = false → blocking_wait_queue th = None → 0 ≤ priority th < 32 →
  kinv ∅ ∅ (st_new t th s).
Proof.
  intros K R Hm Hs Hid Hbl Hp. destruct (reusable_not_queued _ _ K R) as (Hnr & Hnw & Hnc).
  destruct K as [I C T]. destruct R as ([a ->] & Hold & Hwq & Hnt). set (t := HeapThread a) in *.
  split; [apply queue_inv_new; try done; by rw Hs| |by apply timer_inv_new].
  split; simpl; try apply C.
  - intros c t' Hc. destruct (ci_current _ _ C _ _ Hc) as (th' & ? & ?). exists th'.
    rw lookup_insert_ne //. intros <-. by apply (Hnc c).
  - intros t' th' [[<- <-]|[_ Ht']]%lookup_insert_Some; [congruence|by apply (ci_running _ _ C)].
  - intros t' th' [[<- <-]|[_ Ht']]%lookup_insert_Some; [congruence|by apply (ci_idle_ptr _ _ C)].
  - intros c th' [[? _]|[_ Ht']]%lookup_insert_Some; [done|by apply (ci_idle_flag _ _ C c)].
  - intros t' th' [[<- <-]|[_ Ht']]%lookup_insert_Some; [done|by apply (ci_blocking _ _ C t')].
  - intros c Hc. destruct (ci_idle _ _ C c Hc) as (th' & ? & ?). exists th'. by rw lookup_insert_ne.
  - intros t' th' [[<- <-]|[_ Ht']]%lookup_insert_Some; [done|by apply (ci_dead _ _ C t')].
  - intros t' th'. by eapply ci_retcode_new.
Qed.

(** [s1] is [s] with a thread structure under construction at [t]. *)
Record building (t : thread_ptr) (th : thread) s s1 : Prop := {
  b_threads : threads s1 = <[t := th]> (threads s);
  b_wqs : wait_queues s1 = <[RetcodeWq t := WaitQueue WAIT_QUEUE_MAGIC [] 0]> (wait_queues s);
  b_run_queue : run_queue s1 = run_queue s;
  b_bitmap : run_queue_bitmap s1 = run_queue_bitmap s;
  b_current : current s1 = current s;
  b_timers : timers s1 = timers s;
  b_timer_queue : timer_queue s1 = timer_queue s
}.

Lemma building_upd t th s s1 f (Q : unit → kstate → Prop) :
  building t th s s1 →
  (∀ s2, building t (f th) s s2 → thread_list s2 = thread_list s1 → thread_lock s2 = thread_lock s1 → Q () s2) →
  wp (upd_thread t f) Q s1.
Proof.
  intros [] HQ. eapply wp_upd_thread; [by rw b_threads0 lookup_insert_eq|].
  apply HQ; [|done..]. split; try done. simpl. by rw b_threads0 alter_insert_eq.
Qed.

Lemma building_init {A} t nm s (Q : A → kstate → Prop) f g (k : K A) :
  (∀ th s2, th = g (f (Thread THREAD_MAGIC 0 THREAD_SUSPENDED 0 0 0 (-1) None None 0 None 0 0 0 0 []
              (String.substring 0 31 nm))) →
    building t th s s2 → thread_list s2 = thread_list s → thread_lock s2 = thread_lock s → wp k Q s2) →
  wp (init_thread_struct t nm;; upd_thread t f;; upd_thread t g;; wait_queue_init (RetcodeWq t);; k) Q s.
Proof.
  intros HQ. apply wp_bind, wp_modify. apply wp_bind. eapply wp_upd_thread; [by apply lookup_insert_eq|].
  apply wp_bind. eapply wp_upd_thread; [by rw /= lookup_alter_eq lookup_insert_eq|].
  apply wp_bind, wp_modify. eapply HQ; [done| |done..]. split; try done. simpl. by rw !alter_insert_eq.
Qed.

(** The thread structure [thread_create_etc] builds. *)
Definition new_thread (nm : string) (ent ar prio : Z) (stk : option positive) (size fl : Z) (tl : list Z) : thread :=
  Thread THREAD_MAGIC prio THREAD_SUSPENDED 0 fl (-1) (-1) None None NO_ERROR stk size ent ar 0 tl
    (String.substring 0 31 nm).

Lemma new_thread_init nm ent ar prio :
  set_aspace None (set_retcode 0 (set_curr_cpu (-1) (set_wait_queue_block_ret NO_ERROR
    (set_blocking_wait_queue None (set_state THREAD_SUSPENDED (set_priority prio (set_arg ar (set_entry ent
      (Thread THREAD_MAGIC 0 THREAD_SUSPENDED 0 0 0 (-1) None None 0 None 0 0 0 0 []
              (String.substring 0 31 nm)))))))))) = new_thread nm ent ar prio None 0 0 [].
Proof. reflexivity. Qed.

Lemma new_thread_finish nm ent ar prio stk size fl tl :
  set_tls tl (set_flags fl (set_stack_size size (set_stack stk (new_thread nm ent ar prio None 0 0 [])))) =
  new_thread nm ent ar prio stk size fl tl.
Proof. reflexivity. Qed.

Definition created_flags (on_heap stack_on_heap : bool) : Z :=
  Z.lor (if on_heap then THREAD_FLAG_FREE_STRUCT else 0)
    (if stack_on_heap then Z.lor THREAD_FLAG_DEBUG_STACK_BOUNDS_CHECK THREAD_FLAG_FREE_STACK else 0).

Lemma wp_thread_create_etc s cpu cur cth (ms mk : option positive) (t : option thread_ptr) nm ent ar prio
    (stk : option positive) size (Q : option thread_ptr → kstate → Prop) :
  kinv ∅ ∅ s → current s !! cpu = Some cur → threads s !! cur = Some cth → thread_lock s = false →
  0 ≤ prio < 32 →
  (∀ a, t = Some a ∨ t = None ∧ HeapThread <$> ms = Some a → reusable s a) →
  (∀ s', kinv ∅ ∅ s' → thread_lock s' = false → (t = None ∧ ms = None) ∨ (stk = None ∧ mk = None) → Q None s') →
  (∀ a s', kinv ∅ ∅ s' → thread_lock s' = false →
    (t = Some a ∨ t = None ∧ HeapThread <$> ms = Some a) →
    threads s' !! a = Some (new_thread nm ent ar prio (match stk with Some _ => stk | None => mk end)
      (match stk with Some _ => size | None => u64 (size + THREAD_STACK_PADDING_SIZE) end)
      (created_flags (bool_decide (t = None)) (bool_decide (stk = None))) (tls cth)) →
    thread_list s' = a :: thread_list s → Q (Some a) s') →
  wp (thread_create_etc cpu ms mk t nm ent ar prio stk size) Q s.
Proof.
  intros I Hcpu Hcur Hl Hp Hre HQn HQs. rw /thread_create_etc.
  destruct (match t with Some _ => _ | None => _ end) as [[a fl]|] eqn:Eal; last first.
  { apply wp_ret, HQn; [done..|]. left. by destruct t, ms. }
  assert (reusable s a ∧ (t = Some a ∨ t = None ∧ HeapThread <$> ms = Some a) ∧
    fl = (if bool_decide (t = None) then THREAD_FLAG_FREE_STRUCT else 0)) as (R & Hta & ->).
  { destruct t as [t|]; simplify_eq.
    - split_and!; auto.
    - destruct ms; simplify_eq/=. split_and!; auto. }
  set (fl := if bool_decide (t = None) then _ else _).
  assert (cur ≠ a) as Hne by (intros ->; by apply (reusable_not_queued _ _ I R) in Hcpu).
  apply building_init. intros th0 s0 Eth0 B0 Els0 Ell0. apply wp_bind. eapply building_upd; [done|].
  intros s1 B1 Els1 Ell1. rw Eth0 new_thread_init in B1. clear th0 Eth0 B0.
  assert (∀ s' stk' sz flg tl, building a (new_thread nm ent ar prio stk' sz flg tl) s s' →
    Z.land flg THREAD_FLAG_IDLE = 0 → kinv ∅ ∅ s') as Hk.
  { intros s' stk' sz flg tl [] Hfl.
    apply (kinv_ext _ _ (st_new a (new_thread nm ent ar prio stk' sz flg tl) s)); try done.
    apply kinv_new; try done. by rw /thread_is_idle /= Hfl. }
  match goal with |- wp (match ?x with _ => _ end) _ _ => destruct x as [[b fl2]|] eqn:Est end.
  - assert (fl2 = created_flags (bool_decide (t = None)) (bool_decide (stk = None)) ∧
      Some b = (match stk with Some _ => stk | None => mk end)) as [-> Hb].
    { rw /created_flags. fold fl. destruct stk as [c|]; [simplify_eq; by rw Z.lor_0_r|].
      destruct mk; simplify_eq/=. split; [|done]. by rw -Z.lor_assoc. }
    apply wp_bind. eapply building_upd; [done|]. intros s2 B2 Els2 Ell2.
    apply wp_bind. eapply wp_deref; [by rw (b_current _ _ _ _ B2)|].
    apply wp_bind. eapply wp_get_thread; [by rw (b_threads _ _ _ _ B2) lookup_insert_ne|].
    apply wp_bind. eapply building_upd; [done|]. intros s3 B3 Els3 Ell3. rw new_thread_finish in B3.
    apply wp_bind, wp_thread_lock; [congruence|].
    apply wp_bind, wp_modify, wp_bind, wp_modify, wp_ret. apply HQs; [|done|done| |simpl; congruence].
    + eapply Hk; [by destruct B3; split|]. rw /created_flags. by repeat case_bool_decide.
    + rw /= (b_threads _ _ _ _ B3) lookup_insert_eq -Hb. by destruct stk.
  - assert (stk = None ∧ mk = None) as [-> ->] by by destruct stk, mk.
    assert (∀ ev, kinv ∅ ∅ (set_events ev s1)) as Hk1.
    { intros ev. by eapply Hk; [by destruct B1; split|]. }
    apply wp_bind, wp_when; intros _; [apply wp_modify|]; (apply wp_ret, HQn; [|simpl; congruence|by auto]).
    + apply Hk1.
    + specialize (Hk1 (events s1)). by destruct s1.
Qed.
End life.
