(* ===== verification/System.v ===== *)
(** * The scheduler as a transition system

    Boot, the entry points of the scheduler with the locking their callers
    provide, and what holds in every state the system can reach: no
    [DEBUG_ASSERT] of [thread.c] fails and the kernel invariant holds. *)

From stdpp Require Import pretty.
From S2P Require Import Prelude Kernel Timer Thread SchedInv KernelInv SchedOps ThreadLife.

Section system.
Implicit Types (s : kstate) (t : thread_ptr) (th : thread).

(** ** Boot *)

(** [lk_main] and [thread_become_idle] as far as the scheduler goes. *)
Definition boot (smp_max_cpus : nat) : K unit :=
  thread_init_early;; timer_init smp_max_cpus;; thread_init smp_max_cpus;; thread_become_idle 0.

(** A secondary cpu joining. *)
Definition secondary_boot (cpu : nat) : K unit :=
  thread_secondary_cpu_init_early cpu;; thread_secondary_cpu_entry cpu.

(** ** Entry points *)

Inductive sched_call :=
| CallYield
| CallPreempt
| CallResume (t : thread_ptr) (ints_disabled : bool)
| CallSetPriority (prio : Z)
| CallSetName (nm : string)
| CallSetRealTime (t : thread_ptr)
| CallSleep (delay : Z)
| CallWqInit (w : wq_ptr)
| CallBlock (w : wq_ptr) (timeout : Z)
| CallBlockResume (timeout : Z)
| CallWakeOne (w : wq_ptr) (reschedule : bool) (err : Z)
| CallWakeAll (w : wq_ptr) (reschedule : bool) (err : Z)
| CallDestroy (w : wq_ptr) (reschedule : bool)
| CallUnblock (t : thread_ptr) (err : Z)
| CallCreate (ms mk : option positive) (t : option thread_ptr) (nm : string) (ent ar prio : Z)
    (stk : option positive) (size : Z)
| CallExit (rc : Z)
| CallJoin (t : thread_ptr) (timeout : Z)
| CallDetach (t : thread_ptr).

(** The call on [cpu]: the wait-queue functions run under [thread_lock], and
    the lock is released by whichever thread runs at the end. *)
Definition exec (cpu : nat) (c : sched_call) : K unit :=
  match c with
  | CallYield => thread_yield cpu;; THREAD_UNLOCK
  | CallPreempt => thread_preempt cpu;; THREAD_UNLOCK
  | CallResume t ints => thread_resume cpu ints t;; THREAD_UNLOCK
  | CallSetPriority p => thread_set_priority cpu p;; THREAD_UNLOCK
  | CallSetName nm => thread_set_name cpu nm
  | CallSetRealTime t => thread_set_real_time cpu (Some t);; mret ()
  | CallSleep d => thread_sleep cpu d;; THREAD_UNLOCK
  | CallWqInit w => wait_queue_init w
  | CallBlock w timeout => THREAD_LOCK;; wait_queue_block cpu w timeout;; THREAD_UNLOCK
  | CallBlockResume timeout => THREAD_LOCK;; wait_queue_block_resume cpu timeout;; THREAD_UNLOCK
  | CallWakeOne w r err => THREAD_LOCK;; wait_queue_wake_one cpu w r err;; THREAD_UNLOCK
  | CallWakeAll w r err => THREAD_LOCK;; wait_queue_wake_all cpu w r err;; THREAD_UNLOCK
  | CallDestroy w r => THREAD_LOCK;; wait_queue_destroy cpu w r;; THREAD_UNLOCK
  | CallUnblock t err => THREAD_LOCK;; thread_unblock_from_wait_queue cpu t err;; THREAD_UNLOCK
  | CallCreate ms mk t nm ent ar prio stk size =>
      thread_create_etc cpu ms mk t nm ent ar prio stk size;; mret ()
  | CallExit rc => thread_exit cpu rc;; THREAD_UNLOCK
  | CallJoin t timeout => thread_join cpu t timeout;; THREAD_UNLOCK
  | CallDetach t => thread_detach cpu t;; mret ()
  end.

(** ** What the callers guarantee *)

Definition live s t : Prop := ∃ th, threads s !! t = Some th ∧ magic th = THREAD_MAGIC.

Definition not_idle s t : Prop := ∃ th, threads s !! t = Some th ∧ thread_is_idle th = false.

Definition valid_wq s (w : wq_ptr) : Prop :=
  ∃ wq, wait_queues s !! w = Some wq ∧ wq_magic wq = WAIT_QUEUE_MAGIC.

(** The conditions under which [thread.c] allows the call when [cur] makes it:
    valid objects, no blocking from the idle thread, one use of the thread's
    stack timer at a time, and a priority in range. *)
Definition call_pre (cpu : nat) (cur : thread_ptr) (c : sched_call) s : Prop :=
  match c with
  | CallYield | CallPreempt | CallSetName _ => True
  | CallResume t _ => ∃ th, threads s !! t = Some th ∧ magic th = THREAD_MAGIC ∧
      state th ≠ THREAD_DEATH ∧ thread_is_idle th = false
  | CallSetPriority _ => not_idle s cur
  | CallSetRealTime t => live s t ∧ ∀ c', current s !! c' = Some t → c' = cpu
  | CallSleep _ | CallExit _ => not_idle s cur ∧ ¬ timer_queued s (StackTimer cur)
  | CallWqInit w => (∀ t, w ≠ RetcodeWq t) ∧ ∀ wq, wait_queues s !! w = Some wq → wq_list wq = []
  | CallBlock w _ => not_idle s cur ∧ ¬ timer_queued s (StackTimer cur) ∧ valid_wq s w
  | CallBlockResume timeout => timeout ≠ INFINITE_TIME →
      ∃ tm, timers s !! StackTimer cur = Some tm ∧ tm_magic tm = TIMER_MAGIC
  | CallWakeOne w r _ | CallWakeAll w r _ => valid_wq s w ∧ (r = true → not_idle s cur)
  | CallDestroy w r => valid_wq s w ∧ (r = true → not_idle s cur) ∧ ∀ t, w ≠ RetcodeWq t
  | CallUnblock t _ => live s t
  | CallCreate ms mk t _ _ _ prio _ _ => 0 ≤ prio < 32 ∧
      ∀ a, t = Some a ∨ t = None ∧ HeapThread <$> ms = Some a → reusable s a
  | CallJoin t _ => live s t ∧ not_idle s cur ∧ ¬ timer_queued s (StackTimer cur)
  | CallDetach t => live s t
  end.

(** One step of the system. *)
Inductive sched_step : kstate → kstate → Prop :=
| step_call cpu cur c s s' u :
    current s !! cpu = Some cur → call_pre cpu cur c s → exec cpu c s = Some (u, s') →
    sched_step s s'
| step_secondary cpu s s' u :
    current s !! cpu = None → threads s !! IdleThread cpu = None →
    wait_queues s !! RetcodeWq (IdleThread cpu) = None →
    is_Some (timer_queue s !! cpu) → ¬ timer_queued s (PreemptTimer cpu) →
    ¬ timer_queued s (StackTimer (IdleThread cpu)) →
    (∃ tm, timers s !! PreemptTimer cpu = Some tm ∧ tm_magic tm = TIMER_MAGIC) →
    secondary_boot cpu s = Some (u, s') → sched_step s (set_thread_lock false s')
| step_clock s time : sched_step s (set_now time s).

Inductive reachable (n : nat) : kstate → Prop :=
| reach_boot s u : boot n kstate_zero = Some (u, s) → reachable n (set_thread_lock false s)
| reach_step s s' : reachable n s → sched_step s s' → reachable n s'.

(** ** Every entry point is safe *)

Lemma wp_unlock_end {A} (m : K A) s :
  wp m (λ _ s', kinv ∅ ∅ s') s →
  wp (m;; THREAD_UNLOCK) (λ _ s', kinv ∅ ∅ s' ∧ thread_lock s' = false) s.
Proof.
  intros W. apply wp_bind. eapply wp_mono; [exact W|]. intros a s' I'. cbv beta in I'. apply wp_modify.
  split; [kinv_frame|done].
Qed.

Lemma exec_safe s cpu cur c :
  kinv ∅ ∅ s → thread_lock s = false → current s !! cpu = Some cur → call_pre cpu cur c s →
  wp (exec cpu c) (λ _ s', kinv ∅ ∅ s' ∧ thread_lock s' = false) s.
Proof.
  intros I Hl Hcpu Hpre.
  destruct (kinv_current _ _ _ _ _ I Hcpu) as (cth & Hcur & _); [set_solver|].
  assert (kinv ∅ ∅ (set_thread_lock true s)) as IL by kinv_frame.
  assert (not_idle s cur → thread_is_idle cth = false) as Hni by (intros (? & ? & ?); by simplify_eq).
  destruct c; simpl in *.
  - apply wp_unlock_end. by eapply wp_thread_yield.
  - apply wp_unlock_end. by eapply wp_thread_preempt.
  - destruct Hpre as (th & ? & ? & ? & ?). apply wp_unlock_end. by eapply wp_thread_resume.
  - apply wp_unlock_end. eapply wp_thread_set_priority; eauto.
  - eapply wp_thread_set_name; [done..|]. intros s' ? ->. done.
  - destruct Hpre as ((th & ? & ?) & ?). apply wp_bind. eapply wp_thread_set_real_time; eauto.
    intros s' ? ?. by apply wp_ret.
  - destruct Hpre as [? ?]. apply wp_unlock_end. eapply wp_thread_sleep; eauto.
  - destruct Hpre as [? ?]. apply wp_modify. split; [by apply kinv_wq_put|done].
  - destruct Hpre as (? & ? & wq & ? & ?). apply wp_bind, wp_thread_lock; [done|]. apply wp_unlock_end.
    eapply wp_wait_queue_block; eauto.
  - apply wp_bind, wp_thread_lock; [done|]. apply wp_unlock_end. eapply wp_wait_queue_block_resume; eauto.
  - destruct Hpre as ((wq & ? & ?) & ?). apply wp_bind, wp_thread_lock; [done|]. apply wp_unlock_end.
    eapply wp_wait_queue_wake_one; eauto.
  - destruct Hpre as ((wq & ? & ?) & ?). apply wp_bind, wp_thread_lock; [done|]. apply wp_unlock_end.
    eapply wp_wait_queue_wake_all; eauto.
  - destruct Hpre as ((wq & ? & ?) & ? & ?). apply wp_bind, wp_thread_lock; [done|]. apply wp_unlock_end.
    eapply wp_wait_queue_destroy; eauto.
  - destruct Hpre as (th & ? & ?). apply wp_bind, wp_thread_lock; [done|]. apply wp_unlock_end.
    eapply wp_unblock_from_wait_queue; eauto.
  - destruct Hpre as [? ?]. apply wp_bind. eapply wp_thread_create_etc; eauto;
      intros; by apply wp_ret.
  - destruct Hpre as [? ?]. apply wp_unlock_end. eapply wp_thread_exit; eauto.
  - destruct Hpre as ((th & ? & ?) & ? & ?). apply wp_unlock_end. eapply wp_thread_join; eauto.
  - destruct Hpre as (th & ? & ?). apply wp_bind. eapply wp_thread_detach; eauto.
    intros s' ? ? _ _ _. by apply wp_ret.
Qed.

(** ** Boot reaches the invariant *)

Lemma wp_thread_init n s (Q : unit → kstate → Prop) :
  (∀ tms, (∀ c, (c < n)%nat → tms !! PreemptTimer c = Some TIMER_INITIAL_VALUE) →
    Q () (set_timers tms s)) →
  wp (thread_init n) Q s.
Proof.
  revert Q. induction n as [|n IH]; intros Q HQ; simpl.
  - apply wp_ret. specialize (HQ (timers s)). destruct s. apply HQ. lia.
  - apply wp_bind, IH. intros tms Htms. apply wp_modify.
    apply (HQ (<[PreemptTimer n := TIMER_INITIAL_VALUE]> tms)). intros c Hc.
    destruct (decide (c = n)) as [->|]; [by rw lookup_insert_eq|].
    rw lookup_insert_ne; [apply Htms; lia|]. congruence.
Qed.

Lemma timer_init_queues n c q :
  (list_to_map ((λ c, (c, [])) <$> seq 0 n) : gmap nat (list timer_ptr)) !! c = Some q → q = [].
Proof.
  intros Hq%elem_of_list_to_map_2. apply list_elem_of_fmap in Hq as (? & ? & _). by simplify_eq.
Qed.

Lemma timer_init_some n c :
  (c < n)%nat →
  is_Some ((list_to_map ((λ c, (c, [])) <$> seq 0 n) : gmap nat (list timer_ptr)) !! c).
Proof.
  intros Hc. exists []. apply elem_of_list_to_map_1.
  - rw -list_fmap_compose. apply NoDup_fmap; [by intros ? ?|apply NoDup_seq].
  - apply list_elem_of_fmap. exists c. split; [done|]. apply elem_of_seq. lia.
Qed.

Lemma kinv_empty s :
  threads s = ∅ → run_queue s = replicate 32 [] → run_queue_bitmap s = 0 → wait_queues s = ∅ →
  current s = ∅ → (∀ x, ¬ timer_queued s x) → kinv ∅ ∅ s.
Proof.
  intros Et Er Eb Ew Ec Hq. split.
  - split; rw ?Et ?Er ?Eb ?Ew //; try set_solver.
    + intros i q [-> _]%lookup_replicate. by rw Z.testbit_0_l.
    + intros i q t [-> _]%lookup_replicate Hin. by apply not_elem_of_nil in Hin.
    + intros i q [-> _]%lookup_replicate. constructor.
  - split; rw ?Et ?Ec //; intros c [? Hc]; by rw lookup_empty in Hc.
  - split; rw ?Et ?Ec //; try (intros c [? Hc]; by rw lookup_empty in Hc). intros x Hx. by destruct (Hq x).
Qed.

(** The thread structure of an idle thread that starts running. *)
Definition idle_running (cpu : nat) (th : thread) : Prop :=
  magic th = THREAD_MAGIC ∧ state th = THREAD_RUNNING ∧ thread_is_idle th = true ∧
  curr_cpu th = Z.of_nat cpu ∧ blocking_wait_queue th = None ∧ 0 ≤ priority th < 32.

(** A cpu is added with its idle thread. *)
Lemma kinv_add_cpu s cpu th :
  kinv ∅ ∅ s → current s !! cpu = None → threads s !! IdleThread cpu = None →
  wait_queues s !! RetcodeWq (IdleThread cpu) = None →
  is_Some (timer_queue s !! cpu) → ¬ timer_queued s (PreemptTimer cpu) →
  ¬ timer_queued s (StackTimer (IdleThread cpu)) →
  (∃ tm, timers s !! PreemptTimer cpu = Some tm ∧ tm_magic tm = TIMER_MAGIC) →
  idle_running cpu th →
  kinv ∅ ∅ (set_current (<[cpu := IdleThread cpu]> (current s)) (st_new (IdleThread cpu) th s)).
Proof.
  intros [I C T] Hc Ht Hw Hq Hnq Hns Htm (Hm & Hs & Hid & Hcc & Hbl & Hp). set (t := IdleThread cpu) in *.
  assert (∀ t' th', threads s !! t' = Some th' → <[t := th]> (threads s) !! t' = Some th') as Hth.
  { intros t' th' ?. rw lookup_insert_ne //. congruence. }
  split.
  - eapply (queue_inv_ext _ (st_new t th s)); try done. apply queue_inv_new; try done; rw ?Hs //.
    + intros (i & q & Hi & Hin). destruct (qi_ready _ _ I _ _ _ Hi Hin) as (? & ? & _). congruence.
    + intros (w & q & Hi & Hin). destruct (qi_blocked _ _ I _ _ _ Hi Hin) as (? & ? & _). congruence.
    + intros wq ?. congruence.
  - split; simpl.
    + intros c t' [[<- <-]|[_ Hc']]%lookup_insert_Some; [exists th; by rw lookup_insert_eq|].
      destruct (ci_current _ _ C _ _ Hc') as (th' & ? & ?). exists th'. auto.
    + intros t' th' [[<- <-]|[_ Ht']]%lookup_insert_Some; [exists cpu; by rw lookup_insert_eq|].
      intros Hr. destruct (ci_running _ _ C _ _ Ht' Hr) as [c ?]. exists c. rw lookup_insert_ne //. congruence.
    + intros t' th' [[<- <-]|[_ Ht']]%lookup_insert_Some; [by exists cpu|by apply (ci_idle_ptr _ _ C)].
    + intros c th' [[_ <-]|[_ Ht']]%lookup_insert_Some; [by auto|by apply (ci_idle_flag _ _ C c)].
    + intros t' th' [[<- <-]|[_ Ht']]%lookup_insert_Some; [done|by apply (ci_blocking _ _ C t')].
    + intros c Hc'. destruct (decide (c = cpu)) as [->|].
      * exists th. rw !lookup_insert_eq. split_and!; [done..|]. set_solver.
      * rw lookup_insert_ne // in Hc'. destruct (ci_idle _ _ C c Hc') as (th' & ? & ?). exists th'.
        rw (lookup_insert_ne (current s)) //. auto.
    + intros c c' [[<- [= ->]]|[_ Hc']]%lookup_insert_Some; [done|by apply (ci_idle_home _ _ C)].
    + intros t' th' [[<- <-]|[_ Ht']]%lookup_insert_Some; [done|by apply (ci_dead _ _ C t')].
    + intros t' th'. by eapply ci_retcode_new.
  - assert (timer_inv ∅ (st_new t th s)) as T'.
    { apply timer_inv_new; [done..|]. intros c Hc'. destruct (ci_current _ _ C _ _ Hc') as (? & ? & _). congruence. }
    split; simpl; try apply T'.
    + intros c [? [[<- _]|[_ Hc']]%lookup_insert_Some]; [done|]. by apply (ti_queue _ _ T), (mk_is_Some _ _ Hc').
    + intros c [? [[<- _]|[_ Hc']]%lookup_insert_Some]; [done|]. by apply (ti_preempt _ _ T), (mk_is_Some _ _ Hc').
    + intros c t' th' HE [[<- <-]|[_ Hc']]%lookup_insert_Some; [done|]. by apply (ti_quiet _ _ T').
Qed.

(** The end of both boot paths: the idle thread yields. *)
Lemma wp_idle_yield s cpu (Q : unit → kstate → Prop) :
  kinv ∅ ∅ s → current s !! cpu = Some (IdleThread cpu) → thread_lock s = false →
  (∀ s', kinv ∅ ∅ s' → Q () s') → wp (thread_yield cpu) Q s.
Proof.
  intros I Hc Hl HQ. destruct (kinv_current _ _ _ _ _ I Hc) as (cth & ? & _); [set_solver|].
  eapply wp_thread_yield; [done..|]. auto.
Qed.

Lemma alter_insert_2 t (f g : thread → thread) th (m : gmap thread_ptr thread) :
  alter f t (alter g t (<[t := th]> m)) = <[t := f (g th)]> m.
Proof. by rw !alter_insert_eq. Qed.

Lemma boot_inv n : (0 < n)%nat → wp (boot n) (λ _ s, kinv ∅ ∅ s) kstate_zero.
Proof.
  intros Hn. apply wp_bind. do 2 apply wp_bind, wp_modify.
  apply wp_bind, wp_modify, wp_bind. eapply wp_upd_thread; [by apply lookup_insert_eq|].
  apply wp_bind, wp_modify, wp_bind, wp_modify, wp_modify.
  apply wp_bind, wp_modify, wp_bind, wp_thread_init. intros tms Htms.
  apply wp_bind. eapply wp_deref; [by apply lookup_insert_eq|].
  apply wp_bind, wp_bind. eapply wp_deref; [by apply lookup_insert_eq|].
  eapply wp_upd_thread; [by rw /= lookup_alter_eq lookup_insert_eq|].
  apply wp_bind. eapply wp_upd_thread; [by rw /= !lookup_alter_eq lookup_insert_eq|].
  do 2 apply wp_bind, wp_modify. apply wp_idle_yield; [|by apply lookup_insert_eq|done|done].
  set (tq := list_to_map _ : gmap nat (list timer_ptr)).
  set (s0 := KState ∅ [] (replicate 32 []) 0 ∅ ∅ tms tq (MpState 0 0 0) false 0 []).
  assert (∀ x, ¬ timer_queued s0 x) as Hq.
  { intros x (c & q & Hc & Hin). apply timer_init_queues in Hc as ->. by apply not_elem_of_nil in Hin. }
  match goal with |- kinv _ _ ?s => set (s1 := s) end.
  pose proof (kinv_add_cpu s0 0 (Thread THREAD_MAGIC 0 THREAD_RUNNING 0
    (Z.lor THREAD_FLAG_DETACHED THREAD_FLAG_IDLE) 0 0 None None 0 None 0 0 0 0 [] "idle 0")) as K.
  eapply kinv_ext; [..|apply K]; try done.
  - by apply kinv_empty.
  - by apply timer_init_some.
  - exists TIMER_INITIAL_VALUE. split; [|done]. by apply Htms.
Qed.

Lemma secondary_inv cpu s :
  kinv ∅ ∅ s → thread_lock s = false → current s !! cpu = None → threads s !! IdleThread cpu = None →
  wait_queues s !! RetcodeWq (IdleThread cpu) = None →
  is_Some (timer_queue s !! cpu) → ¬ timer_queued s (PreemptTimer cpu) →
  ¬ timer_queued s (StackTimer (IdleThread cpu)) →
  (∃ tm, timers s !! PreemptTimer cpu = Some tm ∧ tm_magic tm = TIMER_MAGIC) →
  wp (secondary_boot cpu) (λ _ s', kinv ∅ ∅ s') s.
Proof.
  intros I Hl Hc Ht Hw Hq Hnp Hns Htm.
  apply wp_bind. apply wp_bind, wp_modify, wp_bind. eapply wp_upd_thread; [by apply lookup_insert_eq|].
  apply wp_bind, wp_modify, wp_bind, wp_thread_lock; [done|]. do 2 apply wp_bind, wp_modify. apply wp_modify.
  apply wp_bind. eapply wp_deref; [by apply lookup_insert_eq|].
  apply wp_bind. eapply wp_upd_thread; [by rw /= lookup_alter_eq lookup_insert_eq|].
  do 2 apply wp_bind, wp_modify. apply wp_idle_yield; [|by apply lookup_insert_eq|done|done].
  match goal with |- kinv _ _ ?s => set (s1 := s) end.
  pose proof (kinv_add_cpu s cpu (Thread THREAD_MAGIC 0 THREAD_RUNNING 0
    (Z.lor THREAD_FLAG_DETACHED THREAD_FLAG_IDLE) (Z.of_nat cpu) (Z.of_nat cpu) None None 0 None 0 0 0 0 []
    (String.substring 0 31 ("idle " +:+ pretty (Z.of_nat cpu))))) as K.
  eapply kinv_ext; [..|apply K]; try done. etrans; [eapply alter_insert_2|]. reflexivity.
Qed.

Lemma sched_step_inv s s' :
  sched_step s s' → kinv ∅ ∅ s → thread_lock s = false → kinv ∅ ∅ s' ∧ thread_lock s' = false.
Proof.
  intros Hstep I Hl. destruct Hstep as [cpu cur c s s' u Hc Hpre He|cpu s s' u ? ? ? ? ? ? ? He|s time].
  - pose proof (exec_safe _ _ _ _ I Hl Hc Hpre) as W. by rw /wp He in W.
  - pose proof (secondary_inv cpu s) as W. rw /wp He in W. specialize (W ltac:(done) ltac:(done)).
    split; [|done]. eapply kinv_ext; [..|apply W]; done.
  - split; [kinv_frame|done].
Qed.

Lemma reachable_inv n s : (0 < n)%nat → reachable n s → kinv ∅ ∅ s ∧ thread_lock s = false.
Proof.
  intros Hn. induction 1 as [s u Hb|s s' _ [I Hl] Hstep]; [|by eapply sched_step_inv].
  pose proof (boot_inv n Hn) as W. rw /wp Hb in W. split; [kinv_frame|done].
Qed.



(** The state after booting one cpu. *)
Definition booted : kstate :=
  match boot 1 kstate_zero with Some (_, s) => set_thread_lock false s | None => kstate_zero end.

Lemma booted_reachable : reachable 1 booted.
Proof.
  rw /booted. destruct (boot 1 kstate_zero) as [[u s]|] eqn:E; [by eapply reach_boot|].
  by vm_compute in E.
Qed.


End system.
