(* ===== verification/SchedRun.v ===== *)
(** * Executable runs of the scheduler

    The preconditions of the entry points as boolean tests, and runs of the
    system as lists of calls.  A run that evaluates to a state shows that state
    reachable, which gives concrete states for the theorems. *)

From S2P Require Import Prelude Kernel Timer Thread SchedInv KernelInv SchedOps ThreadLife System.

Section run.
Implicit Types (s : kstate) (t : thread_ptr) (th : thread).

Definition liveb s t : bool :=
  match threads s !! t with Some th => magic th =? THREAD_MAGIC | None => false end.

Definition not_idleb s t : bool :=
  match threads s !! t with Some th => negb (thread_is_idle th) | None => false end.

Definition valid_wqb s (w : wq_ptr) : bool :=
  match wait_queues s !! w with Some wq => wq_magic wq =? WAIT_QUEUE_MAGIC | None => false end.

Definition obj_wq (w : wq_ptr) : bool := match w with RetcodeWq _ => false | ObjWq _ => true end.

Definition reusableb s t : bool :=
  (match t with HeapThread _ => true | IdleThread _ => false end) &&
  (match threads s !! t with Some th => negb (magic th =? THREAD_MAGIC) | None => true end) &&
  (match wait_queues s !! RetcodeWq t with Some wq => bool_decide (wq_list wq = []) | None => true end) &&
  negb (timer_in_list (StackTimer t) s).

Definition call_preb (cpu : nat) (cur : thread_ptr) (c : sched_call) s : bool :=
  match c with
  | CallYield | CallPreempt | CallSetName _ => true
  | CallResume t _ => match threads s !! t with
      | Some th => (magic th =? THREAD_MAGIC) && negb (bool_decide (state th = THREAD_DEATH)) &&
          negb (thread_is_idle th)
      | None => false
      end
  | CallSetPriority _ => not_idleb s cur
  | CallSetRealTime t => liveb s t && bool_decide (map_Forall (λ c' t', t' = t → c' = cpu) (current s))
  | CallSleep _ | CallExit _ => not_idleb s cur && negb (timer_in_list (StackTimer cur) s)
  | CallWqInit w => obj_wq w &&
      match wait_queues s !! w with Some wq => bool_decide (wq_list wq = []) | None => true end
  | CallBlock w _ => not_idleb s cur && negb (timer_in_list (StackTimer cur) s) && valid_wqb s w
  | CallBlockResume timeout => (timeout =? INFINITE_TIME) ||
      match timers s !! StackTimer cur with Some tm => tm_magic tm =? TIMER_MAGIC | None => false end
  | CallWakeOne w r _ | CallWakeAll w r _ => valid_wqb s w && (negb r || not_idleb s cur)
  | CallDestroy w r => valid_wqb s w && (negb r || not_idleb s cur) && obj_wq w
  | CallUnblock t _ | CallDetach t => liveb s t
  | CallCreate ms mk t _ _ _ prio _ _ => (0 <=? prio) && (prio <? 32) &&
      match t, ms with
      | Some a, _ => reusableb s a
      | None, Some m => reusableb s (HeapThread m)
      | None, None => true
      end
  | CallJoin t _ => liveb s t && not_idleb s cur && negb (timer_in_list (StackTimer cur) s)
  end.

Lemma liveb_spec s t : liveb s t = true → live s t.
Proof. rw /liveb /live. destruct (threads s !! t); [|done]. intros; to_prop. eauto. Qed.

Lemma not_idleb_spec s t : not_idleb s t = true → not_idle s t.
Proof. rw /not_idleb /not_idle. destruct (threads s !! t); [|done]. intros; to_prop. eauto. Qed.

Lemma valid_wqb_spec s w : valid_wqb s w = true → valid_wq s w.
Proof. rw /valid_wqb /valid_wq. destruct (wait_queues s !! w); [|done]. intros; to_prop. eauto. Qed.

Lemma obj_wq_spec w : obj_wq w = true → ∀ t, w ≠ RetcodeWq t.
Proof. by destruct w. Qed.

Lemma timer_free s x : timer_in_list x s = false → ¬ timer_queued s x.
Proof. intros E Hq. apply timer_in_list_spec in Hq. congruence. Qed.

Lemma reusableb_spec s t : reusableb s t = true → reusable s t.
Proof.
  rw /reusableb /reusable. intros H. to_prop. split_and!.
  - destruct t; [done|eauto].
  - intros th Ht. rw Ht in H2. by to_prop.
  - intros wq Hw. rw Hw in H1. by to_prop.
  - by apply timer_free.
Qed.

Lemma call_preb_spec cpu cur c s : call_preb cpu cur c s = true → call_pre cpu cur c s.
Proof.
  assert (∀ r : bool, negb r || not_idleb s cur = true → r = true → not_idle s cur) as Hr.
  { intros [] H; [|done]. intros _. by apply not_idleb_spec. }
  destruct c; simpl; intros H; to_prop; auto using liveb_spec, not_idleb_spec, valid_wqb_spec, obj_wq_spec, timer_free.
  - destruct (threads s !! t); [|done]. to_prop. eauto.
  - split; [by apply liveb_spec|]. intros c' Hc'. by apply (map_Forall_lookup_1 _ _ _ _ H0 Hc').
  - split; [by apply obj_wq_spec|]. intros wq Hw. rw Hw in H0. by to_prop.
  - intros Hto. apply orb_true_iff in H as [?|H]; to_prop; [done|].
    destruct (timers s !! StackTimer cur); [|done]. to_prop. eauto.
  - split; [by apply valid_wqb_spec|]. by apply Hr.
  - split; [by apply valid_wqb_spec|]. by apply Hr.
  - split_and!; [by apply valid_wqb_spec|by apply Hr|by apply obj_wq_spec].
  - split; [done|]. intros a Ha. destruct t as [a'|], ms as [m|]; simpl in *; destruct Ha as [?|[? ?]]; simplify_eq/=;
      by apply reusableb_spec.
Qed.

(** Runs a list of calls, each on a cpu; [None] when a precondition does not
    hold or a call fails. *)
Fixpoint run_calls (cs : list (nat * sched_call)) s : option kstate :=
  match cs with
  | [] => Some s
  | (cpu, c) :: cs' =>
      match current s !! cpu with
      | Some cur => if call_preb cpu cur c s then
          match exec cpu c s with Some (_, s') => run_calls cs' s' | None => None end
          else None
      | None => None
      end
  end.

Lemma run_calls_reachable n cs s s' : reachable n s → run_calls cs s = Some s' → reachable n s'.
Proof.
  revert s. induction cs as [|[cpu c] cs IH]; intros s Hr Hrun; simplify_eq/=; [done|].
  destruct (current s !! cpu) as [cur|] eqn:Hc; [|done]. destruct (call_preb cpu cur c s) eqn:Hp; [|done].
  destruct (exec cpu c s) as [[u s1]|] eqn:He; [|done]. eapply IH; [|done].
  eapply reach_step; [done|]. eapply step_call; [done| |done]. by apply call_preb_spec.
Qed.

(** ** A run *)

Definition h (n : positive) : thread_ptr := HeapThread n.

Definition create (n : positive) (prio : Z) : nat * sched_call :=
  (0%nat, CallCreate (Some n) (Some n) None "t" 0 0 prio None 4096).

Definition on0 (c : sched_call) : nat * sched_call := (0%nat, c).

(** Three threads of one priority are started and the first runs. *)
Definition three_threads : list (nat * sched_call) :=
  [create 1 16; create 2 16; create 3 16;
   on0 (CallResume (h 1) true); on0 (CallResume (h 2) true); on0 (CallResume (h 3) true); on0 CallYield].

Definition run_from_boot (cs : list (nat * sched_call)) : kstate := default kstate_zero (run_calls cs booted).

Definition running_state : kstate := run_from_boot three_threads.

(** Two of them wait on a wait queue. *)
Definition waiting_state : kstate :=
  run_from_boot (three_threads ++
    [on0 (CallWqInit (ObjWq 1)); on0 (CallBlock (ObjWq 1) INFINITE_TIME); on0 (CallBlock (ObjWq 1) 100)]).

Lemma run_from_boot_inv cs :
  bool_decide (is_Some (run_calls cs booted)) = true →
  kinv ∅ ∅ (run_from_boot cs) ∧ thread_lock (run_from_boot cs) = false.
Proof.
  intros [s' Hs]%bool_decide_eq_true. apply (reachable_inv 1); [lia|].
  eapply run_calls_reachable; [apply booted_reachable|]. by rw /run_from_boot Hs.
Qed.

Lemma running_inv : kinv ∅ ∅ running_state ∧ thread_lock running_state = false.
Proof. apply run_from_boot_inv. by vm_compute. Qed.

Lemma waiting_inv : kinv ∅ ∅ waiting_state ∧ thread_lock waiting_state = false.
Proof. apply run_from_boot_inv. by vm_compute. Qed.

(** The same with [thread_lock] taken, as the wait-queue functions require. *)
Definition locked s : kstate := set_thread_lock true s.

Lemma locked_inv s : kinv ∅ ∅ s → kinv ∅ ∅ (locked s).
Proof. intros I. rw /locked. kinv_frame. Qed.

(** The structure of a thread in a given state. *)
Definition zero_thread : thread := Thread 0 0 THREAD_SUSPENDED 0 0 0 0 None None 0 None 0 0 0 0 [] "".

Definition thread_in s t : thread := default zero_thread (threads s !! t).

Lemma thread_in_lookup s t : bool_decide (is_Some (threads s !! t)) = true → threads s !! t = Some (thread_in s t).
Proof. intros [th Hth]%bool_decide_eq_true. by rw /thread_in Hth. Qed.
End run.
