(* ===== verification/SchedSpec.v ===== *)
(** * What the scheduler promises its callers

    Functional theorems about the operations of [Thread], proved from the
    lemmas of [SchedInv] to [ThreadLife]: which thread runs next, in which
    order queued and waiting threads are served, and what every waiter is told. *)

From S2P Require Import Prelude Kernel Timer Thread SchedInv KernelInv SchedOps ThreadLife System SchedRun.

Section spec.
Implicit Types (s : kstate) (t : thread_ptr) (th : thread).

(** No thread queued above priority [p] may run on [cpu]. *)
Definition none_above s (cpu p : nat) : Prop :=
  ∀ i q t, (p < i)%nat → run_queue s !! i = Some q → t ∈ q → runnable_on s cpu t = false.

(** [t] is the first thread of the queue of priority [p] that may run on [cpu]. *)
Definition first_runnable s (cpu p : nat) t (pre post : list thread_ptr) : Prop :=
  run_queue s !! p = Some (pre ++ t :: post) ∧ runnable_on s cpu t = true ∧
  ∀ t', t' ∈ pre → runnable_on s cpu t' = false.

Lemma find_skip {A} (f : A → bool) pre x post :
  (∀ y, y ∈ pre → f y = false) → f x = true → List.find f (pre ++ x :: post) = Some x.
Proof.
  intros Hpre Hx. induction pre as [|y pre IH]; simpl; [by rw Hx|].
  rw Hpre; [|by apply elem_of_cons; auto]. apply IH. intros z ?. apply Hpre. apply elem_of_cons. auto.
Qed.

Lemma find_all_false {A} (f : A → bool) l : (∀ y, y ∈ l → f y = false) → List.find f l = None.
Proof.
  induction l as [|y l IH]; intros Hl; simpl; [done|]. rw Hl; [|by apply elem_of_cons; auto].
  apply IH. intros z ?. apply Hl. apply elem_of_cons. auto.
Qed.

Lemma top_scan_intro s cpu n p t pre post :
  first_runnable s cpu p t pre post → none_above s cpu p → (p < n)%nat → top_scan s cpu n = Some (p, t).
Proof.
  intros (Hq & Hr & Hpre) Hno. induction n as [|n IH]; [lia|]. intros Hn. simpl.
  destruct (decide (n = p)) as [->|].
  - by rw Hq /= find_skip.
  - rw find_all_false; [apply IH; lia|]. intros y. destruct (run_queue s !! n) as [q|] eqn:E; simpl;
      [|by intros ?%not_elem_of_nil]. intros Hy. eapply (Hno n q y); [lia|done..].
Qed.

Lemma list_without_mid {A} `{EqDecision A} (x : A) pre post :
  NoDup (pre ++ x :: post) → list_without x (pre ++ x :: post) = pre ++ post.
Proof.
  intros (_ & Hd & [Hn2 _]%NoDup_cons)%NoDup_app.
  rw /list_without filter_app filter_cons_False; [|by intros []].
  fold (list_without x pre) (list_without x post). rw !list_without_id //.
  intros Hx. apply (Hd _ Hx). apply elem_of_cons. auto.
Qed.

(** The choice and the queues after it, for the first runnable thread of the
    highest priority that has one. *)
Lemma chosen_first s cpu p t pre post :
  (p < 32)%nat → NoDup (pre ++ t :: post) → first_runnable s cpu p t pre post → none_above s cpu p →
  chosen s cpu = t ∧ run_queue (dequeued s cpu) = <[p := pre ++ post]> (run_queue s).
Proof.
  intros Hp Hnd Hf Hno.
  rw /chosen /dequeued (top_scan_intro s cpu 32 p t pre post) //. split; [done|].
  destruct Hf as (Hq & _). rw /queue_at Hq /= list_without_mid //.
  rw /st_dequeue. case_bool_decide; simpl; by rw Nat2Z.id.
Qed.

(** C7: [get_top_thread] never fails and returns the first thread that may run on
    the cpu from the highest-priority queue that has one, and takes that thread
    and no other off the run queues; when no queued thread may run on the cpu it
    returns the cpu's idle thread and changes nothing. *)
Theorem get_top_thread_spec X s cpu :
  queue_inv X s →
  ∃ t s', get_top_thread cpu s = Some (t, s') ∧ threads s' = threads s ∧
    ((∃ p pre post, first_runnable s cpu p t pre post ∧ none_above s cpu p ∧
        run_queue s' = <[p := pre ++ post]> (run_queue s)) ∨
     (t = IdleThread cpu ∧ s' = s ∧
        ∀ i q t', run_queue s !! i = Some q → t' ∈ q → runnable_on s cpu t' = false)).
Proof.
  intros I. exists (chosen s cpu), (dequeued s cpu).
  assert (wp (get_top_thread cpu) (λ t s', t = chosen s cpu ∧ s' = dequeued s cpu) s) as W
    by by eapply wp_get_top_thread.
  apply wp_run in W as (t & s' & -> & -> & ->).
  split; [done|]. split; [apply dequeued_other|].
  destruct (top_scan s cpu 32) as [[p t]|] eqn:E.
  - left. pose proof (top_scan_some _ _ _ _ _ E) as (Hp & pre & post & Hq & Hr & Hpre & Hno).
    assert (first_runnable s cpu p (chosen s cpu) pre post) as Hf by by rw /chosen E.
    assert (none_above s cpu p) as Hna.
    { intros i q t' ? Hi ?. eapply (Hno i); [|done..]. split; [done|].
      rw -(qi_len _ _ I). by eapply lookup_lt_Some. }
    exists p, pre, post. split_and!; [done..|]. eapply chosen_first; try done.
    by apply (qi_rq_nodup _ _ I p), Hf.
  - right. rw /chosen /dequeued E. split_and!; [done..|]. intros i q t' Hi Hin.
    eapply (top_scan_none _ _ _ E i); [|done..]. rw -(qi_len _ _ I). by eapply lookup_lt_Some.
Qed.

Lemma runnable_upd s t f cpu t' :
  (∀ th, pinned_cpu (f th) = pinned_cpu th) → runnable_on (st_upd_thread t f s) cpu t' = runnable_on s cpu t'.
Proof.
  intros Hf. rw /runnable_on /=. destruct (decide (t' = t)) as [->|].
  - rw lookup_alter_eq. destruct (threads s !! t); simpl; [by rw Hf|done].
  - by rw lookup_alter_ne.
Qed.

(** The state [thread_resched] sees when the current thread gave up the cpu. *)
Lemma requeued_queue head s cur f cth p q0 :
  thread_is_idle cth = false → p = Z.to_nat (priority (f cth)) → run_queue s !! p = Some q0 →
  run_queue (st_requeue head cur f cth s) = <[p := if head then cur :: q0 else q0 ++ [cur]]> (run_queue s).
Proof. intros Hid -> Hq. by rw /st_requeue Hid /= /queue_at Hq. Qed.

Lemma requeued_runnable head s cur f cth cpu t :
  (∀ th, pinned_cpu (f th) = pinned_cpu th) →
  runnable_on (st_requeue head cur f cth s) cpu t = runnable_on s cpu t.
Proof.
  intros Hf. rw -(runnable_upd s cur f) //. rw /st_requeue. by destruct (thread_is_idle cth).
Qed.

Lemma requeued_none_above head s cur f cth cpu p q0 :
  (∀ th, pinned_cpu (f th) = pinned_cpu th) → thread_is_idle cth = false →
  p = Z.to_nat (priority (f cth)) → run_queue s !! p = Some q0 →
  none_above s cpu p → none_above (st_requeue head cur f cth s) cpu p.
Proof.
  intros Hf Hid Hp Hq0 Hno i q t Hi Hq Hin. rw (requeued_queue _ _ _ _ _ p q0) // in Hq.
  rw list_lookup_insert_ne in Hq; [|lia]. rw requeued_runnable //. by eapply Hno.
Qed.

Lemma running_not_queued X E s cpu cur p q :
  kinv X E s → E = ∅ → current s !! cpu = Some cur → run_queue s !! p = Some q → cur ∉ q.
Proof.
  intros I -> Hc Hq Hin. destruct (kinv_current _ _ _ _ _ I Hc) as (? & ? & ? & _); [apply not_elem_of_empty|].
  destruct (qi_ready _ _ (k_queue _ _ _ I) _ _ _ Hq Hin) as (? & ? & _ & ? & _). congruence.
Qed.

(** [thread_yield] is round robin: when the next thread in the caller's queue
    may run here and nothing above may, that thread becomes current and the
    caller goes to the tail of its queue, ready, with no quantum left. *)
Theorem thread_yield_round_robin s cpu cur cth p t q :
  kinv ∅ ∅ s → thread_lock s = false → current s !! cpu = Some cur → threads s !! cur = Some cth →
  thread_is_idle cth = false → p = Z.to_nat (priority cth) → run_queue s !! p = Some (t :: q) →
  runnable_on s cpu t = true → none_above s cpu p →
  wp (thread_yield cpu) (λ _ s', current s' !! cpu = Some t ∧ run_queue s' !! p = Some (q ++ [cur]) ∧
    ∃ cth', threads s' !! cur = Some cth' ∧ state cth' = THREAD_READY ∧ remaining_quantum cth' = 0) s.
Proof.
  intros I Hl Hc Hcur Hid -> Hq Hr Hno. eapply wp_thread_yield; [done..|]. intros s' Hpost _.
  set (p := Z.to_nat (priority cth)) in *.
  set (f := λ th, set_remaining_quantum 0 (set_state THREAD_READY th)) in Hpost.
  set (s0 := set_thread_lock true s) in *. set (s1 := st_requeue false cur f cth s0) in *.
  assert (NoDup (t :: q)) as Hnd by by apply (qi_rq_nodup _ _ (k_queue _ _ _ I) p).
  assert (cur ∉ t :: q) as Hnin by by apply (running_not_queued ∅ ∅ s cpu cur p).
  assert (p < length (run_queue s))%nat as Hlt by by eapply lookup_lt_Some.
  assert (run_queue s1 = <[p := t :: q ++ [cur]]> (run_queue s)) as Hrq by by apply (requeued_queue false s0 cur f cth p (t :: q)).
  destruct (chosen_first s1 cpu p t [] (q ++ [cur])) as [Hch Hdq].
  - by rw -(qi_len _ _ (k_queue _ _ _ I)).
  - rw /= app_comm_cons. apply NoDup_app. split_and!; [done| |apply NoDup_singleton]. set_solver.
  - split_and!; [by rw Hrq list_lookup_insert_eq| |by intros ? ?%not_elem_of_nil]. by rw requeued_runnable.
  - by eapply (requeued_none_above false s0).
  - split_and!.
    + rw (rp_current _ _ _ _ Hpost) Hch. apply lookup_insert_eq.
    + rw (rp_run_queue _ _ _ _ Hpost) Hdq list_lookup_insert_eq //. by rw Hrq length_insert.
    + exists (switched cpu cur t cur (f cth)). rw (rp_threads _ _ _ _ Hpost) Hch. split.
      * rw /s1 /st_requeue Hid /= lookup_alter_eq Hcur. done.
      * rw /switched decide_False; [|set_solver]. by rw decide_True.
Qed.

(** [thread_preempt] does not take the cpu from a thread that has quantum left
    and may run here unless a higher-priority thread may: the thread stays
    current and running and the run queues are unchanged. *)
Theorem thread_preempt_keeps_quantum s cpu cur cth :
  kinv ∅ ∅ s → thread_lock s = false → current s !! cpu = Some cur → threads s !! cur = Some cth →
  thread_is_idle cth = false → 0 < remaining_quantum cth →
  runnable_on s cpu cur = true → none_above s cpu (Z.to_nat (priority cth)) →
  wp (thread_preempt cpu) (λ _ s', current s' = current s ∧ run_queue s' = run_queue s ∧
    ∃ cth', threads s' !! cur = Some cth' ∧ state cth' = THREAD_RUNNING ∧
      remaining_quantum cth' = remaining_quantum cth) s.
Proof.
  intros I Hl Hc Hcur Hid Hqu Hr Hno. eapply wp_thread_preempt; [done..|]. intros s' Hpost _.
  rw (proj2 (Z.ltb_lt _ _)) // in Hpost. set (p := Z.to_nat (priority cth)) in *.
  set (f := set_state THREAD_READY) in Hpost.
  set (s0 := set_thread_lock true s) in *. set (s1 := st_requeue true cur f cth s0) in *.
  pose proof (qi_priority _ _ (k_queue _ _ _ I) _ _ Hcur).
  destruct (lookup_lt_is_Some_2 (run_queue s) p) as [q Hq]; [rw (qi_len _ _ (k_queue _ _ _ I)); lia|].
  assert (cur ∉ q) as Hnin by by apply (running_not_queued ∅ ∅ s cpu cur p).
  assert (run_queue s1 = <[p := cur :: q]> (run_queue s)) as Hrq by by apply (requeued_queue true s0 cur f cth p q).
  destruct (chosen_first s1 cpu p cur [] q) as [Hch Hdq].
  - lia.
  - apply NoDup_cons. split; [done|]. by apply (qi_rq_nodup _ _ (k_queue _ _ _ I) p).
  - split_and!; [|by rw requeued_runnable|by intros ? ?%not_elem_of_nil].
    rw Hrq list_lookup_insert_eq //. by eapply lookup_lt_Some.
  - by eapply (requeued_none_above true s0).
  - assert (current s1 = current s) as Hc1 by by rw /s1 /st_requeue Hid.
    split_and!.
    + by rw (rp_current _ _ _ _ Hpost) Hch Hc1 insert_id.
    + rw (rp_run_queue _ _ _ _ Hpost) Hdq Hrq list_insert_insert_eq. by apply list_insert_id.
    + exists (switched cpu cur cur cur (f cth)). rw (rp_threads _ _ _ _ Hpost) Hch. split.
      * rw /s1 /st_requeue Hid /= lookup_alter_eq Hcur. done.
      * rw /switched decide_True //. by rw decide_True.
Qed.

(** C9: [wait_queue_block] with a zero timeout returns [ERR_TIMED_OUT] and changes
    nothing; otherwise the caller goes to the tail of the wait queue, blocked on
    it with a clean return code, and gives up the cpu. *)
Theorem wait_queue_block_spec s cpu cur cth w wq timeout :
  kinv ∅ ∅ s → current s !! cpu = Some cur → threads s !! cur = Some cth → thread_lock s = true →
  wait_queues s !! w = Some wq → wq_magic wq = WAIT_QUEUE_MAGIC → thread_is_idle cth = false →
  ¬ timer_queued s (StackTimer cur) →
  wp (wait_queue_block cpu w timeout) (λ r s', kinv ∅ ∅ s' ∧
    if timeout =? 0 then r = Returned ERR_TIMED_OUT ∧ s' = s
    else r = Switched ∧ current s' !! cpu ≠ Some cur ∧
      wait_queues s' !! w = Some (WaitQueue WAIT_QUEUE_MAGIC (wq_list wq ++ [cur]) (wq_count wq + 1)) ∧
      ∃ cth', threads s' !! cur = Some cth' ∧ state cth' = THREAD_BLOCKED ∧
        blocking_wait_queue cth' = Some w ∧ wait_queue_block_ret cth' = NO_ERROR) s.
Proof.
  intros I Hc Hcur Hl Hw Hm Hid Hnt. eapply wp_wait_queue_block; [done..| |].
  - intros ->. done.
  - intros s1 s' Hto Ht1 Hw1 Hr1 Hc1 Hpost I'. split; [done|]. rw (proj2 (Z.eqb_neq _ _)) //.
    assert (cur ≠ chosen s1 cpu) as Hne.
    { intros E. pose proof (rp_threads _ _ _ _ Hpost cur) as Hth. pose proof (rp_current _ _ _ _ Hpost) as Hcc.
      rw /chosen in E. destruct (top_scan s1 cpu 32) as [[p t]|] eqn:Es.
      - subst t. apply top_scan_some in Es as (_ & pre & post & Hq & _). rw Hr1 in Hq.
        destruct (qi_ready _ _ (k_queue _ _ _ I) _ _ cur Hq) as (? & ? & _ & ? & _); [set_solver|].
        destruct (kinv_current _ _ _ _ _ I Hc) as (? & ? & ? & _); [set_solver|]. congruence.
      - subst cur. destruct (ci_idle_flag _ _ (k_cpu _ _ _ I) _ _ Hcur) as [? _]. congruence. }
    split_and!; [done| | |].
    + rw (rp_current _ _ _ _ Hpost) lookup_insert_eq. congruence.
    + rw (rp_wait_queues _ _ _ _ Hpost) Hw1 lookup_alter_eq Hw /=. do 2 f_equal. by destruct wq; simplify_eq/=.
    + exists (switched cpu cur (chosen s1 cpu) cur (block_on w cth)).
      rw (rp_threads _ _ _ _ Hpost) Ht1 lookup_alter_eq Hcur. split; [done|].
      rw /switched decide_False //. by rw decide_True.
Qed.

(** C10: [wait_queue_wake_one] wakes the thread that has waited longest, with the
    given return code, and returns 1; on an empty queue it returns 0 and changes
    nothing. *)
Theorem wait_queue_wake_one_spec s cpu cur cth w wq reschedule err :
  kinv ∅ ∅ s → current s !! cpu = Some cur → threads s !! cur = Some cth → thread_lock s = true →
  wait_queues s !! w = Some wq → wq_magic wq = WAIT_QUEUE_MAGIC →
  (reschedule = true → thread_is_idle cth = false) →
  wp (wait_queue_wake_one cpu w reschedule err) (λ r s', kinv ∅ ∅ s' ∧
    match wq_list wq with
    | [] => r = 0 ∧ s' = s
    | t :: rest => r = 1 ∧ woken t err s' ∧
        wait_queues s' !! w = Some (WaitQueue WAIT_QUEUE_MAGIC rest (wq_count wq - 1)) ∧
        ∀ w', w' ≠ w → wait_queues s' !! w' = wait_queues s !! w'
    end) s.
Proof.
  intros I Hc Hcur Hl Hw Hm Hid. eapply wp_wait_queue_wake_one; [done..| |].
  - intros ->. done.
  - intros t rest s' -> Hwq Hwk _ I' _ _. split_and!; try done.
    + rw Hwq lookup_alter_eq Hw /=. by destruct wq; simplify_eq/=.
    + intros w' ?. by rw Hwq lookup_alter_ne.
Qed.

(** [wait_queue_wake_all] wakes every waiter with the given return code, leaves
    the queue empty and returns how many threads there were. *)
Theorem wait_queue_wake_all_spec s cpu cur cth w wq reschedule err :
  kinv ∅ ∅ s → current s !! cpu = Some cur → threads s !! cur = Some cth → thread_lock s = true →
  wait_queues s !! w = Some wq → wq_magic wq = WAIT_QUEUE_MAGIC →
  (reschedule = true → thread_is_idle cth = false) →
  wp (wait_queue_wake_all cpu w reschedule err) (λ r s', kinv ∅ ∅ s' ∧
    r = Z.of_nat (length (wq_list wq)) ∧ (∀ t, t ∈ wq_list wq → woken t err s') ∧
    wait_queues s' !! w = Some (WaitQueue WAIT_QUEUE_MAGIC [] 0) ∧
    ∀ w', w' ≠ w → wait_queues s' !! w' = wait_queues s !! w') s.
Proof. intros I Hc Hcur Hl Hw Hm Hid. eapply wp_wait_queue_wake_all; [done..|]. by intros. Qed.

(** [thread_unblock_from_wait_queue] takes one blocked thread off the queue it
    waits on, leaving the other waiters in order, and puts it at the head of its
    run queue with the given return code; a thread that is not blocked is left
    alone and the call returns [ERR_NOT_BLOCKED]. *)
Theorem thread_unblock_from_wait_queue_spec s cpu t th err :
  kinv ∅ ∅ s → threads s !! t = Some th → magic th = THREAD_MAGIC → thread_lock s = true →
  wp (thread_unblock_from_wait_queue cpu t err) (λ r s', kinv ∅ ∅ s' ∧
    if bool_decide (state th = THREAD_BLOCKED) then
      r = NO_ERROR ∧ woken t err s' ∧
      (∃ w wq wq', blocking_wait_queue th = Some w ∧ wait_queues s !! w = Some wq ∧
        wait_queues s' !! w = Some wq' ∧ wq_list wq' = list_without t (wq_list wq)) ∧
      ∃ q, run_queue s' !! Z.to_nat (priority th) = Some (t :: q)
    else r = ERR_NOT_BLOCKED ∧ s' = s) s.
Proof.
  intros I Ht Hm Hl. eapply wp_unblock_from_wait_queue; [done..| |].
  - intros Hb. by rw bool_decide_false.
  - intros w wq ev Hb Hbw Hw Hin s' I'. rw bool_decide_true //. split_and!; try done.
    + exists (wake_with err th). split; [by rw /= lookup_alter_eq Ht|by auto].
    + eexists w, wq, _. split_and!; [done..|by rw /= lookup_alter_eq Hw|done].
    + pose proof (qi_priority _ _ (k_queue _ _ _ I) _ _ Ht).
      eexists. simpl. apply list_lookup_insert_eq. rw (qi_len _ _ (k_queue _ _ _ I)). lia.
Qed.

(** ** Concrete instances *)

Definition none_aboveb s (cpu p : nat) : bool :=
  forallb (λ q, forallb (λ t, negb (runnable_on s cpu t)) q) (drop (S p) (run_queue s)).

Lemma none_aboveb_spec s cpu p : none_aboveb s cpu p = true → none_above s cpu p.
Proof.
  rw /none_aboveb forallb_forall. intros Hall i q t Hi Hq Hin. apply negb_true_iff.
  assert (q ∈ drop (S p) (run_queue s)) as Hd.
  { apply list_elem_of_lookup. exists (i - S p)%nat. rw lookup_drop. by replace (S p + (i - S p))%nat with i by lia. }
  apply list_elem_of_In, Hall in Hd. rw forallb_forall in Hd. by apply Hd, list_elem_of_In.
Qed.

Lemma get_top_thread_spec_witness :
  queue_inv ∅ running_state ∧ ∃ t s', get_top_thread 0 running_state = Some (t, s').
Proof.
  split; [apply running_inv|].
  destruct (get_top_thread_spec ∅ running_state 0) as (t & s' & E & _); [apply running_inv|].
  by exists t, s'.
Defined.

Lemma thread_yield_round_robin_witness :
  wp (thread_yield 0) (λ _ s', current s' !! 0%nat = Some (h 2) ∧ run_queue s' !! 16%nat = Some [h 1; h 3])
    running_state.
Proof.
  eapply wp_mono;
    [eapply (thread_yield_round_robin running_state 0 (h 3) (thread_in running_state (h 3)) 16 (h 2) [h 1])|].
  - apply running_inv.
  - apply running_inv.
  - by vm_compute.
  - apply thread_in_lookup. by vm_compute.
  - by vm_compute.
  - by vm_compute.
  - by vm_compute.
  - by vm_compute.
  - apply none_aboveb_spec. by vm_compute.
  - intros u s' (H1 & H2 & _). exact (conj H1 H2).
Defined.

Lemma thread_preempt_keeps_quantum_witness :
  0 < remaining_quantum (thread_in running_state (h 3)) ∧
  wp (thread_preempt 0) (λ _ s', current s' = current running_state ∧ run_queue s' = run_queue running_state)
    running_state.
Proof.
  split; [by vm_compute|]. eapply wp_mono;
    [eapply (thread_preempt_keeps_quantum running_state 0 (h 3) (thread_in running_state (h 3)))|].
  - apply running_inv.
  - apply running_inv.
  - by vm_compute.
  - apply thread_in_lookup. by vm_compute.
  - by vm_compute.
  - by vm_compute.
  - by vm_compute.
  - apply none_aboveb_spec. by vm_compute.
  - intros u s' (H1 & H2 & _). exact (conj H1 H2).
Defined.

(** The wait queue of [waiting_state]. *)
Definition waiters : wait_queue := WaitQueue WAIT_QUEUE_MAGIC [h 3; h 2] 2.

Lemma wait_queue_block_spec_witness :
  wp (wait_queue_block 0 (ObjWq 1) 50) (λ r s', r = Switched ∧
    wait_queues s' !! ObjWq 1 = Some (WaitQueue WAIT_QUEUE_MAGIC [h 3; h 2; h 1] 3)) (locked waiting_state).
Proof.
  eapply wp_mono; [eapply (wait_queue_block_spec (locked waiting_state) 0 (h 1)
    (thread_in (locked waiting_state) (h 1)) (ObjWq 1) waiters 50)|].
  - apply locked_inv, waiting_inv.
  - by vm_compute.
  - apply thread_in_lookup. by vm_compute.
  - reflexivity.
  - by vm_compute.
  - reflexivity.
  - by vm_compute.
  - apply timer_free. by vm_compute.
  - intros r s' (_ & ? & _ & ? & _). done.
Defined.

Lemma wait_queue_wake_one_spec_witness :
  wp (wait_queue_wake_one 0 (ObjWq 1) true NO_ERROR) (λ r s', r = 1 ∧ woken (h 3) NO_ERROR s') (locked waiting_state).
Proof.
  eapply wp_mono; [eapply (wait_queue_wake_one_spec (locked waiting_state) 0 (h 1)
    (thread_in (locked waiting_state) (h 1)) (ObjWq 1) waiters true NO_ERROR)|].
  - apply locked_inv, waiting_inv.
  - by vm_compute.
  - apply thread_in_lookup. by vm_compute.
  - reflexivity.
  - by vm_compute.
  - reflexivity.
  - by vm_compute.
  - intros r s' (_ & ? & ? & _). done.
Defined.

Lemma wait_queue_wake_all_spec_witness :
  wp (wait_queue_wake_all 0 (ObjWq 1) true ERR_TIMED_OUT) (λ r s', r = 2 ∧ woken (h 2) ERR_TIMED_OUT s')
    (locked waiting_state).
Proof.
  eapply wp_mono; [eapply (wait_queue_wake_all_spec (locked waiting_state) 0 (h 1)
    (thread_in (locked waiting_state) (h 1)) (ObjWq 1) waiters true ERR_TIMED_OUT)|].
  - apply locked_inv, waiting_inv.
  - by vm_compute.
  - apply thread_in_lookup. by vm_compute.
  - reflexivity.
  - by vm_compute.
  - reflexivity.
  - by vm_compute.
  - intros r s' (_ & ? & Hwk & _). split; [done|]. apply Hwk. simpl. set_solver.
Defined.

Lemma thread_unblock_from_wait_queue_spec_witness :
  wp (thread_unblock_from_wait_queue 0 (h 2) ERR_TIMED_OUT) (λ r s', r = NO_ERROR ∧ woken (h 2) ERR_TIMED_OUT s')
    (locked waiting_state).
Proof.
  eapply wp_mono; [eapply (thread_unblock_from_wait_queue_spec (locked waiting_state) 0 (h 2)
    (thread_in (locked waiting_state) (h 2)) ERR_TIMED_OUT)|].
  - apply locked_inv, waiting_inv.
  - apply thread_in_lookup. by vm_compute.
  - by vm_compute.
  - reflexivity.
  - intros r s' (_ & Hr). rw bool_decide_true in Hr; [by destruct Hr as (? & ? & _)|by vm_compute].
Defined.
End spec.
