(* ===== verification/Fair.v ===== *)
(** * Time slices

    Threads of the same priority share a cpu: whatever the running one does, the
    preemption timer sees to it that each of the others gets its turn. *)

From S2P Require Import Prelude Kernel Timer Thread SchedInv KernelInv SchedOps ThreadLife System SchedRun SchedSpec.

(** One tick of the preemption timer on [cpu], from the timer callback to the end of
    the interrupt; the thread that runs after it releases [thread_lock]. *)
Definition irq_tick (cpu : nat) : K unit :=
  r ← thread_timer_tick cpu;
  match r with
  | INT_RESCHEDULE => thread_preempt cpu;; THREAD_UNLOCK
  | INT_NO_RESCHEDULE => mret ()
  end.

(** What happens on a cpu whose threads only compute and yield *)
Inductive turn := Tick | Yield.

Fixpoint run_turns (cpu : nat) (l : list turn) : K unit :=
  match l with
  | [] => mret ()
  | Tick :: l => irq_tick cpu;; run_turns cpu l
  | Yield :: l => (thread_yield cpu;; THREAD_UNLOCK);; run_turns cpu l
  end.

Section fair.
Implicit Types (s : kstate) (t : thread_ptr) (th : thread).

(** An ordinary thread, with at most a full slice left. *)
Record timeshared (p : nat) th : Prop := {
  ts_normal : thread_is_real_time_or_idle th = false;
  ts_priority : Z.to_nat (priority th) = p;
  ts_quantum : - 2 ^ 31 ≤ remaining_quantum th ≤ 5
}.

(** The threads [l] of priority [p], the first one running and the others queued,
    have [cpu] for themselves. *)
Record in_turn (cpu p : nat) (l : list thread_ptr) s : Prop := {
  it_kinv : kinv ∅ ∅ s;
  it_lock : thread_lock s = false;
  it_queue : ∃ x q, l = x :: q ∧ current s !! cpu = Some x ∧ run_queue s !! p = Some q;
  it_threads t : t ∈ l → ∃ th, threads s !! t = Some th ∧ timeshared p th;
  it_runnable t : t ∈ l → runnable_on s cpu t = true;
  it_above : none_above s cpu p
}.

(** The running thread has [r] ticks left. *)
Definition slice_left (cpu : nat) s (r : Z) : Prop :=
  ∃ x cth, current s !! cpu = Some x ∧ threads s !! x = Some cth ∧ remaining_quantum cth = r.

Lemma normal_not_idle th : thread_is_real_time_or_idle th = false → thread_is_idle th = false.
Proof.
  rw /thread_is_real_time_or_idle /thread_is_idle. intros H%negb_false_iff%Z.eqb_eq. apply negb_false_iff, Z.eqb_eq.
  rw Z.land_lor_distr_r in H. by apply Z.lor_eq_0_iff in H as [_ ?].
Qed.

Lemma runnable_switched cpu cur s s' c t : resched_post cpu cur s s' → runnable_on s' c t = runnable_on s c t.
Proof.
  intros Hp. rw /runnable_on (rp_threads _ _ _ _ Hp). destruct (threads s !! t) as [th|]; [|done]. simpl.
  rw /switched /requantum. repeat case_decide; try done; simpl; by case_match.
Qed.

Lemma timeshared_switched cpu cur new t p th : timeshared p th → timeshared p (switched cpu cur new t th).
Proof.
  intros [? ? ?]. rw /switched /requantum. repeat case_decide; [by split| |by split|by split].
  simpl. case_match; to_prop; split; simpl; try done; lia.
Qed.

(** The running thread gives up the cpu and goes to the tail of its queue. *)
Lemma in_turn_rotate cpu p x q t q' s s' f cth :
  in_turn cpu p (x :: q) s → q = t :: q' → threads s !! x = Some cth →
  (∀ th, pinned_cpu (f th) = pinned_cpu th) → timeshared p (f cth) →
  resched_post cpu x (st_requeue false x f cth (set_thread_lock true s)) s' → kinv ∅ ∅ s' →
  in_turn cpu p (q ++ [x]) (set_thread_lock false s') ∧ ∃ r, 1 ≤ r ≤ 5 ∧ slice_left cpu (set_thread_lock false s') r.
Proof.
  intros [I Hl (? & ? & [= <- <-] & Hc & Hq) Hth Hr Ha] -> Hx Hf Hts Hpost I'.
  destruct (Hth x) as (? & Hx0 & [Hn _ _]); [set_solver|]. rw Hx in Hx0. injection Hx0 as <-. pose proof (normal_not_idle _ Hn) as Hid.
  set (s0 := set_thread_lock true s) in *. set (s1 := st_requeue false x f cth s0) in *.
  assert (NoDup (t :: q')) as Hnd by by eapply (qi_rq_nodup _ _ (k_queue _ _ _ I)).
  assert (x ∉ t :: q') as Hnin by by eapply (running_not_queued ∅ ∅ s cpu x).
  assert (p < length (run_queue s))%nat as Hlt by by eapply lookup_lt_Some.
  pose proof (ts_priority _ _ Hts) as Hpf.
  assert (run_queue s1 = <[p := t :: q' ++ [x]]> (run_queue s)) as Hrq by by apply (requeued_queue false s0 x f cth p (t :: q')).
  assert (∀ c u, runnable_on s1 c u = runnable_on s c u) as Hr1 by (intros c u; exact (requeued_runnable false s0 x f cth c u Hf)).
  destruct (chosen_first s1 cpu p t [] (q' ++ [x])) as [Hch Hdq].
  - by rw -(qi_len _ _ (k_queue _ _ _ I)).
  - rw /= app_comm_cons. apply NoDup_app. split_and!; [done|set_solver|apply NoDup_singleton].
  - split_and!; [by rw Hrq list_lookup_insert_eq| |by intros ? ?%not_elem_of_nil]. rw Hr1. apply Hr. set_solver.
  - by eapply (requeued_none_above false s0).
  - assert (∀ c u, runnable_on s' c u = runnable_on s c u) as Hr' by (intros; by rw (runnable_switched _ _ _ _ _ _ Hpost)).
    assert (run_queue s' = <[p := q' ++ [x]]> (run_queue s)) as Hrq' by by rw (rp_run_queue _ _ _ _ Hpost) Hdq Hrq list_insert_insert_eq.
    assert (current s' !! cpu = Some t) as Hct by (rw (rp_current _ _ _ _ Hpost) Hch; apply lookup_insert_eq).
    split; [split; simpl; [kinv_frame|done| | | |]|].
    + exists t, (q' ++ [x]). split_and!; [done..|].
      by rw Hrq' list_lookup_insert_eq.
    + intros u Hu. destruct (Hth u) as (th & Hu1 & Hu2); [set_solver|]. rw (rp_threads _ _ _ _ Hpost) Hch /s1 /st_requeue Hid /=.
      destruct (decide (u = x)) as [->|Hne].
      * rw lookup_alter_eq Hx /=. eexists. split; [done|]. by apply timeshared_switched.
      * rw lookup_alter_ne // Hu1 /=. eexists. split; [done|]. by apply timeshared_switched.
    + intros u Hu. change (runnable_on s' cpu u = true). rw Hr'. apply Hr. set_solver.
    + intros i qi u Hi Hqi Hin. change (runnable_on s' cpu u = false). rw Hr'. rw /= Hrq' list_lookup_insert_ne in Hqi; [|lia]. by eapply Ha.
    + destruct (Hth t) as (th & Ht1 & [_ _ Hb]); [set_solver|]. assert (x ≠ t) as Hne by set_solver.
      eexists. split; [|exists t; eexists; split_and!; [done| |done]; simpl].
      2: { rw (rp_threads _ _ _ _ Hpost) Hch /s1 /st_requeue Hid /= lookup_alter_ne // Ht1 //. }
      rw /switched decide_True // decide_False; [|by intros ->]. rw /requantum /=. case_match; to_prop; simpl; lia.
Qed.

Lemma in_turn_current cpu p x q s r :
  in_turn cpu p (x :: q) s → slice_left cpu s r →
  ∃ cth, current s !! cpu = Some x ∧ threads s !! x = Some cth ∧ remaining_quantum cth = r ∧ timeshared p cth.
Proof.
  intros [_ _ (? & ? & [= <- <-] & Hc & _) Hth _ _] (y & cth & Hy & Hcth & Hr). rw Hc in Hy. injection Hy as <-.
  destruct (Hth x) as (th & ? & ?); [set_solver|]. exists cth. split_and!; try done. congruence.
Qed.

(** The callback on the running thread *)
Lemma in_turn_count cpu p x q s r :
  in_turn cpu p (x :: q) s → slice_left cpu s r → - 2 ^ 31 < r →
  wp (thread_timer_tick cpu) (λ ret s', ret = (if r <=? 1 then INT_RESCHEDULE else INT_NO_RESCHEDULE) ∧
    in_turn cpu p (x :: q) s' ∧ slice_left cpu s' (r - 1)) s.
Proof.
  intros Ht Hs Hlo. destruct (in_turn_current _ _ _ _ _ _ Ht Hs) as (cth & Hc & Hx & <- & [Hn Hp Hqu]).
  destruct Ht as [I Hl (? & ? & [= <- <-] & _ & Hq) Hth Hr Ha].
  apply wp_bind. eapply wp_deref; [done|]. apply wp_bind. eapply wp_get_thread; [done|]. rw Hn.
  apply wp_bind. eapply wp_upd_thread; [done|]. apply wp_ret. rw s32_small; [|lia].
  set (f := λ th, set_remaining_quantum (s32 (remaining_quantum th - 1)) th).
  assert (remaining_quantum (f cth) = remaining_quantum cth - 1) as Hf by (rw /f /= s32_small; lia).
  split_and!.
  - destruct (Z.leb_spec (remaining_quantum cth - 1) 0), (Z.leb_spec (remaining_quantum cth) 1); try done; lia.
  - assert (∀ c u, runnable_on (st_upd_thread x f s) c u = runnable_on s c u) as Hr1 by (intros; by apply runnable_upd).
    split; simpl; [by eapply kinv_upd_same|done|by exists x, q| |intros u Hu; rw Hr1; by apply Hr|].
    + intros u Hu. destruct (Hth u Hu) as (th & Hu1 & Hu2). destruct (decide (u = x)) as [->|Hne].
      * rw lookup_alter_eq Hx. eexists. split; [done|]. split; [done..|]. rw Hf. lia.
      * rw lookup_alter_ne // Hu1. by exists th.
    + intros i qi u Hi Hqi Hin. rw Hr1. by eapply Ha.
  - exists x, (f cth). rw /= lookup_alter_eq Hx. by split_and!.
Qed.

(** A tick within the slice of the running thread *)
Lemma in_turn_tick cpu p x q s r :
  in_turn cpu p (x :: q) s → slice_left cpu s r → 1 < r →
  wp (irq_tick cpu) (λ _ s', in_turn cpu p (x :: q) s' ∧ slice_left cpu s' (r - 1)) s.
Proof.
  intros Ht Hs Hr. apply wp_bind. eapply wp_mono; [eapply in_turn_count; [done..|lia]|].
  intros ret s' (-> & ? & ?). rw (proj2 (Z.leb_gt _ _)) //.
Qed.

(** The tick that ends the slice, and a yield *)
Lemma in_turn_expire cpu p x t q s r :
  in_turn cpu p (x :: t :: q) s → slice_left cpu s r → - 2 ^ 31 < r ≤ 1 →
  wp (irq_tick cpu) (λ _ s', in_turn cpu p (t :: q ++ [x]) s' ∧ ∃ r', 1 ≤ r' ≤ 5 ∧ slice_left cpu s' r') s.
Proof.
  intros Ht Hs Hr. apply wp_bind. eapply wp_mono; [eapply in_turn_count; [done..|lia]|].
  intros ret s1 (-> & Ht1 & Hs1). rw (proj2 (Z.leb_le _ _)); [|lia].
  destruct (in_turn_current _ _ _ _ _ _ Ht1 Hs1) as (cth & Hc & Hx & Hrq & Hts).
  apply wp_bind. eapply wp_thread_preempt; [apply Ht1|done|done|apply Ht1|]. intros s' Hp I'.
  rw Hrq (proj2 (Z.ltb_ge _ _)) in Hp; [|lia]. apply wp_modify.
  eapply (in_turn_rotate cpu p x (t :: q) t q s1 s' (set_state THREAD_READY) cth); try done; by destruct Hts.
Qed.

Lemma in_turn_yield cpu p x t q s r :
  in_turn cpu p (x :: t :: q) s → slice_left cpu s r →
  wp (thread_yield cpu;; THREAD_UNLOCK) (λ _ s', in_turn cpu p (t :: q ++ [x]) s' ∧ ∃ r', 1 ≤ r' ≤ 5 ∧ slice_left cpu s' r') s.
Proof.
  intros Ht Hs. destruct (in_turn_current _ _ _ _ _ _ Ht Hs) as (cth & Hc & Hx & Hrq & Hts).
  apply wp_bind. eapply wp_thread_yield; [apply Ht|done|done|apply Ht|]. intros s' Hp I'. apply wp_modify.
  eapply (in_turn_rotate cpu p x (t :: q) t q s s' (λ th, set_remaining_quantum 0 (set_state THREAD_READY th)) cth); try done; destruct Hts; split; simpl; try done; lia.
Qed.

(** The thread at place [k] is reached after [5 * k] turns at most, fewer when the
    running thread has only [b] ticks left. *)
Lemma in_turn_reached cpu p l s r k t evs (b : nat) :
  in_turn cpu p l s → slice_left cpu s r → - 2 ^ 31 < r ≤ Z.of_nat b → (1 ≤ b ≤ 5)%nat → l !! k = Some t →
  (k = 0 ∨ 5 * k + b ≤ 5 + length evs)%nat →
  ∃ n, (k = 0 ∧ n = 0 ∨ n + 5 ≤ 5 * k + b)%nat ∧
    wp (run_turns cpu (take n evs)) (λ _ s', current s' !! cpu = Some t) s.
Proof.
  revert l s r k b. induction evs as [|ev evs IH]; intros l s r k b Ht Hs Hr Hb Hk Hlen.
  all: destruct (it_queue _ _ _ _ Ht) as (x & q & -> & Hc & Hq).
  all: destruct k as [|k]; [exists 0%nat; split; [lia|]; apply wp_ret; by injection Hk as ->|]; simpl in Hlen; try lia.
  destruct q as [|y q]; [done|]. simpl in Hk.
  assert (∀ m : K unit, wp m (λ _ s', in_turn cpu p (y :: q ++ [x]) s' ∧ ∃ r', 1 ≤ r' ≤ 5 ∧ slice_left cpu s' r') s →
    ∃ n, (n + 6 ≤ 5 * S k + b)%nat ∧ wp (m;; run_turns cpu (take n evs)) (λ _ s', current s' !! cpu = Some t) s) as Hrot.
  { intros m W. apply wp_run in W as ([] & s' & Hm & Ht' & r' & Hr' & Hs').
    destruct (IH (y :: q ++ [x]) s' r' k 5%nat) as (n & Hn & W); try done; [lia|lia|by apply (lookup_app_l_Some (y :: q))|lia|].
    exists n. split; [lia|]. apply wp_bind. rw /wp Hm. exact W. }
  destruct ev; [destruct (decide (1 < r)) as [Hlt|Hge]|].
  - pose proof (in_turn_tick _ _ _ _ _ _ Ht Hs Hlt) as W. apply wp_run in W as ([] & s' & Hm & Ht' & Hs').
    destruct (IH (x :: y :: q) s' (r - 1) (S k) (b - 1)%nat) as (n & Hn & W); try done; [lia|lia|lia|].
    exists (S n). split; [lia|]. apply wp_bind. rw /wp Hm. exact W.
  - destruct (Hrot (irq_tick cpu)) as (n & ? & ?); [apply (in_turn_expire _ _ _ _ _ _ _ Ht Hs); lia|].
    exists (S n). split; [lia|done].
  - destruct (Hrot _ (in_turn_yield _ _ _ _ _ _ _ Ht Hs)) as (n & ? & ?). exists (S n). split; [lia|done].
Qed.

(** C8: threads of one priority that have a cpu for themselves are served in turn:
    whatever mix of timer ticks and yields happens on that cpu, the thread at
    place [k] runs after [5 * k] of them at most, since a slice lasts five ticks. *)
Theorem round_robin_live cpu p l s r k t evs :
  in_turn cpu p l s → slice_left cpu s r → - 2 ^ 31 < r → l !! k = Some t → (5 * k ≤ length evs)%nat →
  ∃ n, (n ≤ 5 * k)%nat ∧ wp (run_turns cpu (take n evs)) (λ _ s', current s' !! cpu = Some t) s.
Proof.
  intros Ht Hs Hr Hk Hlen. destruct (in_turn_reached cpu p l s r k t evs 5) as (n & ? & ?); try done; [|lia|lia|].
  - split; [done|]. destruct (it_queue _ _ _ _ Ht) as (x & q & -> & _).
    destruct (in_turn_current _ _ _ _ _ _ Ht Hs) as (cth & _ & _ & <- & []). lia.
  - exists n. split; [lia|done].
Qed.
End fair.

(** ** A concrete instance *)

Lemma round_robin_live_witness :
  ∃ n, (n ≤ 10)%nat ∧
    wp (run_turns 0 (take n (replicate 10 Tick))) (λ _ s', current s' !! 0%nat = Some (h 1)) running_state.
Proof.
  apply (round_robin_live 0 16 [h 3; h 2; h 1] running_state 5 2 (h 1) (replicate 10 Tick)).
  - split.
    + apply running_inv.
    + apply running_inv.
    + exists (h 3), [h 2; h 1]. split; [reflexivity|]. split; by vm_compute.
    + intros t Ht. exists (thread_in running_state t).
      rewrite !elem_of_cons in Ht. destruct Ht as [->|[->|[->|Ht%not_elem_of_nil]]]; [..|destruct Ht].
      all: split; [apply thread_in_lookup; by vm_compute|]; split; by vm_compute.
    + intros t Ht. rewrite !elem_of_cons in Ht. destruct Ht as [->|[->|[->|Ht%not_elem_of_nil]]]; [..|destruct Ht].
      all: by vm_compute.
    + apply none_aboveb_spec. by vm_compute.
  - exists (h 3), (thread_in running_state (h 3)). split; [by vm_compute|]. split; [apply thread_in_lookup|]; by vm_compute.
  - lia.
  - reflexivity.
  - simpl. lia.
Defined.
