(* ===== verification/TimerSpec.v ===== *)
(** * What the timer queues promise

    The order of the per-cpu queues and the effect of [timer_tick], for timers
    less than [2 ^ 30] milliseconds (over twelve days) from the current time:
    then the wrap-around comparisons [TIME_GT] and [TIME_LT] of 32-bit times
    order them as their distances from now do. *)

From S2P Require Import Prelude Kernel Timer Thread SchedInv KernelInv SchedOps ThreadLife System SchedRun.

(** ** Times *)

(** The signed distance of a 32-bit time from another. *)
Definition dist (time t : Z) : Z := s32 (t - time).

Definition near (time t : Z) : Prop := - 2 ^ 30 < dist time t < 2 ^ 30.

Lemma s32_unique z w : - 2 ^ 31 ≤ w < 2 ^ 31 → (∃ k, z = w + k * 2 ^ 32) → s32 z = w.
Proof.
  intros Hw [k ->]. rw /s32. replace (w + k * 2 ^ 32 + 2 ^ 31) with (w + 2 ^ 31 + k * 2 ^ 32) by lia.
  rw Z_mod_plus_full Z.mod_small; lia.
Qed.

Lemma s32_congr z : ∃ k, s32 z = z + k * 2 ^ 32.
Proof.
  exists (- ((z + 2 ^ 31) / 2 ^ 32)). rw /s32. pose proof (Z.div_mod (z + 2 ^ 31) (2 ^ 32)). lia.
Qed.

Lemma dist_diff time a b : near time a → near time b → s32 (a - b) = dist time a - dist time b.
Proof.
  rw /near /dist. intros Ha Hb. apply s32_unique; [lia|].
  destruct (s32_congr (a - time)) as [k ->], (s32_congr (b - time)) as [l ->]. exists (l - k). lia.
Qed.

Lemma TIME_GT_dist time a b : near time a → near time b → TIME_GT a b = (dist time b <? dist time a).
Proof. intros Ha Hb. rw /TIME_GT (dist_diff time) //. lia. Qed.

Lemma dist_self time : dist time time = 0.
Proof. rw /dist Z.sub_diag. done. Qed.

Lemma TIME_LT_now time a : near time a → TIME_LT time a = (0 <? dist time a).
Proof.
  intros Ha. rw /TIME_LT (dist_diff time) //; [|rw /near dist_self; lia]. rw dist_self. lia.
Qed.

Lemma TIME_LT_now' time a : near time a → TIME_LT a time = (dist time a <? 0).
Proof.
  intros Ha. rw /TIME_LT (dist_diff time) //; [|rw /near dist_self; lia]. rw dist_self. lia.
Qed.

Lemma dist_u32 time a d : - 2 ^ 31 ≤ d < 2 ^ 31 → dist time a = d → dist time (u32 a) = d.
Proof.
  rw /dist. intros Hd Ha. apply s32_unique; [done|]. destruct (s32_congr (a - time)) as [k Hk].
  exists (- k - a / 2 ^ 32). rw /u32. pose proof (Z.div_mod a (2 ^ 32)). lia.
Qed.

Lemma dist_add time a p : - 2 ^ 31 ≤ dist time a + p < 2 ^ 31 → dist time (a + p) = dist time a + p.
Proof.
  intros Hd. rw {1}/dist. apply s32_unique; [done|]. rw /dist. destruct (s32_congr (a - time)) as [k ->].
  exists (- k). lia.
Qed.

(** ** The order of a queue *)

Section order.
Context (time : Z) (sched : timer_ptr → Z).

Abbreviation d x := (dist time (sched x)).

Definition by_time (x y : timer_ptr) : Prop := d x ≤ d y.

Definition queue_near (q : list timer_ptr) : Prop := ∀ x, x ∈ q → near time (sched x).

Lemma insert_by_time_split x q :
  near time (sched x) → queue_near q → StronglySorted by_time q →
  ∃ q1 q2, q = q1 ++ q2 ∧ insert_by_time sched x q = q1 ++ x :: q2 ∧
    (∀ y, y ∈ q1 → d y ≤ d x) ∧ (∀ y, y ∈ q2 → d x < d y).
Proof.
  intros Hx. induction q as [|y q IH]; intros Hn Hs; simpl.
  - exists [], []. split_and!; try done; by intros ? ?%not_elem_of_nil.
  - apply StronglySorted_inv in Hs as [Hs Hy]. rw Forall_forall in Hy.
    assert (near time (sched y)) as Hny by (apply Hn, elem_of_cons; auto).
    rw (TIME_GT_dist time) //. destruct (d x <? d y) eqn:E; to_prop.
    + exists [], (y :: q). split_and!; try done; [by intros ? ?%not_elem_of_nil|].
      intros z [->|Hz]%elem_of_cons; [done|]. apply Hy in Hz. unfold by_time in Hz. lia.
    + destruct IH as (q1 & q2 & -> & -> & H1 & H2); [|done|].
      { intros z Hz. apply Hn, elem_of_cons. auto. }
      exists (y :: q1), q2. split_and!; try done. intros z [->|Hz]%elem_of_cons; auto.
Qed.

Lemma insert_by_time_sorted x q :
  near time (sched x) → queue_near q → StronglySorted by_time q →
  StronglySorted by_time (insert_by_time sched x q).
Proof.
  intros Hx Hn Hs. destruct (insert_by_time_split x q) as (q1 & q2 & -> & -> & H1 & H2); [done..|].
  apply StronglySorted_app in Hs as (Hs12 & Hs1 & Hs2). apply StronglySorted_app. split_and!; [|done|].
  - intros a b Ha [->|Hb]%elem_of_cons; [by apply H1|by apply Hs12].
  - constructor; [done|]. apply Forall_forall. intros y Hy. apply H2 in Hy. rw /by_time. lia.
Qed.
End order.

(** ** One firing *)

Section tick.
Context (other : Z → timer_ptr → Z → option thread_ptr → K handler_return).
Implicit Types (s : kstate) (q : list timer_ptr).

(** The queue of a cpu in the middle of [timer_tick] at [time]: timers of the
    scheduler, near the current time and in order. *)
Record tick_ok (time : Z) s q : Prop := {
  to_near : queue_near time (sched_of s) q;
  to_sorted : StronglySorted (by_time time (sched_of s)) q;
  to_period x tm : x ∈ q → timers s !! x = Some tm → 0 ≤ periodic_time tm < 2 ^ 30;
  to_kernel x a : x ∈ q → x ≠ ObjTimer a;
  to_nodup : NoDup q
}.

(** How often a timer is still due in this tick. *)
Definition fires (time : Z) s (x : timer_ptr) : nat :=
  match timers s !! x with
  | Some tm =>
      if 0 <? dist time (scheduled_time tm) then 0%nat
      else if (0 <? periodic_time tm) && (dist time (scheduled_time tm) + periodic_time tm =? 0) then 2%nat
      else 1%nat
  | None => 0%nat
  end.

Definition due (time : Z) s q : nat := sum_list_with (fires time s) q.

Lemma due_bound time s q : (due time s q ≤ 2 * length q)%nat.
Proof.
  induction q as [|x q IH]; rw /due /=; [lia|]. fold (due time s q). rw /fires.
  destruct (timers s !! x); repeat case_match; lia.
Qed.

Lemma due_ext time s s' q :
  (∀ x, x ∈ q → timers s' !! x = timers s !! x) → due time s' q = due time s q.
Proof.
  intros Hs. rw /due. induction q as [|x q IH]; [done|]. simpl. rw IH.
  - rw /fires Hs //. apply elem_of_cons. auto.
  - intros y Hy. apply Hs, elem_of_cons. auto.
Qed.

Lemma due_perm time s q q' : q ≡ₚ q' → due time s q = due time s q'.
Proof. intros H. rw /due. induction H; simpl; lia. Qed.

(** What one firing leaves of the other timers and of the threads. *)
Record fired (x : timer_ptr) s q s' q' : Prop := {
  fd_others y : y ∈ q → y ≠ x → y ∈ q' ∧ timers s' !! y = timers s !! y;
  fd_sub y : y ∈ q' → y ∈ q;
  fd_oneshot tm : timers s !! x = Some tm → periodic_time tm = 0 → x ∉ q';
  fd_ready t th : threads s !! t = Some th → state th = THREAD_READY →
    ∃ th', threads s' !! t = Some th' ∧ state th' = THREAD_READY;
  fd_sleep t tm : x = StackTimer t → timers s !! x = Some tm → callback tm = Some thread_sleep_handler_cb →
    ∃ th', threads s' !! t = Some th' ∧ state th' = THREAD_READY;
  fd_current : current s' = current s
}.

Lemma kinv_timer_dequeue s x :
  kinv ∅ ∅ s → kinv ∅ ∅ (set_timer_queue (list_without x <$> timer_queue s) s).
Proof.
  intros [I C T]. split; [by eapply queue_inv_ext; [..|exact I]|by eapply cpu_inv_ext; [..|exact C]|].
  eapply timer_inv_ext; [..|apply (timer_inv_cancel ∅ s x id (events s) T)]; try done.
  simpl. by rw alter_id.
Qed.

(** The callback of a dequeued timer of the scheduler. *)
Lemma wp_run_callback s cpu x tm time (Q : handler_return → kstate → Prop) cb :
  kinv ∅ ∅ s → thread_lock s = false → is_Some (current s !! cpu) → timer_ok s x tm →
  ¬ timer_queued s x → callback tm = Some cb → (∀ a, x ≠ ObjTimer a) →
  (∀ r s', kinv ∅ ∅ s' → callback_frame s s' →
    (∀ t, x = StackTimer t → cb = thread_sleep_handler_cb →
      ∃ th', threads s' !! t = Some th' ∧ state th' = THREAD_READY) → Q r s') →
  wp (run_callback other cpu cb x time (tm_arg tm)) Q s.
Proof.
  intros I Hl [cur Hc] [Hm Hcb] Hnq Ecb Hobj HQ. rw Ecb in Hcb. destruct cb; simpl.
  - destruct Hcb as (_ & t & th & -> & -> & Ht & Hmag & Hs).
    eapply wp_thread_sleep_handler; [done..|]. intros s' I'. apply HQ; [done| |].
    + split; try done. intros t'. by eapply callback_keeps_alter.
    + intros ? [= <-] _. eexists. split; [by rw /= lookup_alter_eq Ht|done].
  - destruct Hcb as (_ & t & th & -> & -> & Ht & Hmag & Hs).
    eapply wp_wait_queue_timeout_handler; [done..|]. intros r s' I' F. by apply HQ.
  - eapply wp_thread_timer_tick; [done..|]. intros r s' I' F. by apply HQ.
  - destruct Hcb as [a ->]. by destruct (Hobj a).
Qed.

Lemma sched_of_ext s s' q :
  (∀ x, x ∈ q → timers s' !! x = timers s !! x) → ∀ x, x ∈ q → sched_of s' x = sched_of s x.
Proof. intros Hs x Hx. by rw /sched_of Hs. Qed.

Lemma sorted_ext (R R' : timer_ptr → timer_ptr → Prop) q :
  (∀ x y, x ∈ q → y ∈ q → R x y → R' x y) → StronglySorted R q → StronglySorted R' q.
Proof.
  intros HR Hs. induction Hs as [|x q Hs IH Hx]; constructor.
  - apply IH. intros y z Hy Hz. apply HR; apply elem_of_cons; auto.
  - rw Forall_forall in Hx. apply Forall_forall. intros y Hy. apply HR; [apply elem_of_cons; auto..|auto].
Qed.

Lemma tick_ok_ext time s s' q :
  (∀ x, x ∈ q → timers s' !! x = timers s !! x) → tick_ok time s q → tick_ok time s' q.
Proof.
  intros Hs []. pose proof (sched_of_ext _ _ _ Hs) as He. split; try done.
  - intros x Hx. rw He //. auto.
  - eapply sorted_ext; [|done]. intros x y Hx Hy. by rw /by_time !He.
  - intros x tm Hx Htm. rw Hs // in Htm. eauto.
Qed.

Lemma tick_ok_tail time s x q : tick_ok time s (x :: q) → tick_ok time s q ∧ x ∉ q.
Proof.
  intros []. apply NoDup_cons in to_nodup0 as [? ?]. apply StronglySorted_inv in to_sorted0 as [? _].
  split; [|done]. split; try done.
  - intros y Hy. apply to_near0, elem_of_cons. auto.
  - intros y tm Hy. apply to_period0, elem_of_cons. auto.
  - intros y a Hy. apply to_kernel0, elem_of_cons. auto.
Qed.

(** The next due time of a periodic timer: one period on, or one period from now
    when that is already past. *)
Definition next_time (time sched period : Z) : Z :=
  if TIME_LT (u32 (sched + period)) time then u32 (time + period) else u32 (sched + period).

Lemma next_time_dist time sched period :
  near time sched → dist time sched ≤ 0 → 0 < period < 2 ^ 30 →
  dist time (next_time time sched period) =
    (if dist time sched + period <? 0 then period else dist time sched + period).
Proof.
  intros Hn Hd Hp. rw /near in Hn.
  assert (dist time (u32 (sched + period)) = dist time sched + period) as E.
  { apply dist_u32; [lia|]. apply dist_add. lia. }
  rw /next_time TIME_LT_now'; [|rw /near E; lia]. rw E. case_match; to_prop; [|done].
  apply dist_u32; [lia|]. rw dist_add dist_self; lia.
Qed.

(** Requeueing a periodic timer after its callback. *)
Lemma tick_ok_requeue time s x q tm ev v cpu :
  tick_ok time s q → x ∉ q → timers s !! x = Some tm → 0 < periodic_time tm < 2 ^ 30 →
  (∀ a, x ≠ ObjTimer a) → near time v →
  let f := set_scheduled_time v in
  let q' := insert_by_time (sched_of (set_timers (alter f x (timers s)) s)) x q in
  let s' := st_timer_set cpu x f q' ev s in
  tick_ok time s' q' ∧ (∀ y, y ∈ q' ↔ y = x ∨ y ∈ q) ∧ due time s' q' = (fires time s' x + due time s q)%nat.
Proof.
  intros Hok Hx Htm Hp Hobj Hv f q' s'.
  assert (q' ≡ₚ x :: q) as HP by apply insert_by_time_perm.
  assert (∀ y, y ∈ q' ↔ y = x ∨ y ∈ q) as Hin by (intros y; rw HP; apply elem_of_cons).
  assert (∀ y, y ∈ q → timers s' !! y = timers s !! y) as Hsame.
  { intros y Hy. simpl. rw lookup_alter_ne //. by intros <-. }
  assert (sched_of s' x = v) as Ev by by rw /sched_of /= lookup_alter_eq Htm.
  pose proof (tick_ok_ext time s s' q Hsame Hok) as Hok'. split_and!; [|done|].
  - destruct Hok'. split.
    + intros y [->|?]%Hin; [by rw Ev|auto].
    + apply (insert_by_time_sorted time (sched_of s')); [|done..]. by rw Ev.
    + intros y tm' [->|?]%Hin; [|eauto]. rw /= lookup_alter_eq Htm. intros [= <-]. simpl. lia.
    + intros y a [->|?]%Hin; eauto.
    + rw HP. by apply NoDup_cons.
  - rw (due_perm _ _ _ _ HP) -(due_ext time s s' q) //.
Qed.

Lemma frame_ready s s' t th :
  callback_frame s s' → threads s !! t = Some th → state th = THREAD_READY →
  ∃ th', threads s' !! t = Some th' ∧ state th' = THREAD_READY.
Proof.
  intros F Ht Hr. pose proof (cf_threads _ _ F t) as Hk. rw Ht in Hk. inversion Hk as [? th' [_ Hs]|]; subst.
  exists th'. auto.
Qed.

(** A periodic timer that is back in the queue does not break the invariant. *)
Lemma kinv_requeue s s2 cpu x q tm v ev :
  kinv ∅ ∅ s → kinv ∅ ∅ s2 → callback_frame (set_timer_queue (list_without x <$> timer_queue s) s) s2 →
  timers s !! x = Some tm → 0 < periodic_time tm → timer_queue s !! cpu = Some (x :: q) → timer_queue s2 !! cpu = Some q →
  kinv ∅ ∅ (st_timer_set cpu x (set_scheduled_time v)
    (insert_by_time (sched_of (set_timers (alter (set_scheduled_time v) x (timers s2)) s2)) x q) ev s2).
Proof.
  intros I I2 F Htm Hper Hq Hq2.
  destruct (ti_member _ _ (k_timer _ _ _ I) x) as (tm' & Htm' & Hm & Hcb).
  { exists cpu, (x :: q). split; [done|]. apply elem_of_cons. auto. }
  simplify_eq. apply kinv_timers; [done|].
  eapply (timer_inv_set _ s2 x tm (set_scheduled_time v) cpu q); try done.
  - apply I2.
  - by rw (cf_timers _ _ F).
  - apply insert_by_time_perm.
  - split; [done|]. simpl. destruct (callback tm) as [[]|]; try done; by destruct Hcb as [? _]; lia.
  - intros c t th -> _ Hcur Ht. apply not_true_is_false. intros Hrt.
    pose proof (cf_threads _ _ F t) as Hk. rw Ht in Hk. inversion Hk as [th0 ? [Hfl _] Ht0|]; subst.
    apply (ti_quiet _ _ (k_timer _ _ _ I) c t th0); [set_solver|by rw -(cf_current _ _ F)|done| |].
    { by rw /thread_is_real_time_or_idle -Hfl. }
    exists cpu, (PreemptTimer c :: q). split; [done|]. apply elem_of_cons. auto.
Qed.

(** What firing a timer does to the queue and to threads, from what its callback did. *)
Lemma fired_frame s s2 s' x tm cb q q' :
  callback_frame (set_timer_queue (list_without x <$> timer_queue s) s) s2 → timers s !! x = Some tm → callback tm = Some cb →
  (∀ t, x = StackTimer t → cb = thread_sleep_handler_cb → ∃ th', threads s2 !! t = Some th' ∧ state th' = THREAD_READY) →
  threads s' = threads s2 → current s' = current s2 →
  (∀ y, y ∈ q → y ≠ x → timers s' !! y = timers s2 !! y) → (∀ y, y ∈ q' ↔ 0 < periodic_time tm ∧ y = x ∨ y ∈ q) → x ∉ q →
  fired x s (x :: q) s' q'.
Proof.
  intros F Htm Ecb Hsl Et Ec Htms Hin Hx. split.
  - intros y [->|Hy]%elem_of_cons Hne; [done|]. split; [apply Hin; by right|]. by rw Htms // (cf_timers _ _ F).
  - intros y [[_ ->]|?]%Hin; apply elem_of_cons; auto.
  - intros tm' ? ?. simplify_eq. rw Hin. intros [[? _]|?]; [lia|done].
  - intros t th Ht Hr. rw Et. by eapply frame_ready; [exact F|..].
  - intros t tm' Ex Htm' Hcb'. rw Et. apply (Hsl t); [done|]. simplify_eq. congruence.
  - rw Ec. apply F.
Qed.

Lemma wp_timer_fire s cpu time x q (Q : handler_return → kstate → Prop) :
  kinv ∅ ∅ s → thread_lock s = false → is_Some (current s !! cpu) →
  timer_queue s !! cpu = Some (x :: q) → tick_ok time s (x :: q) → dist time (sched_of s x) ≤ 0 →
  (∀ r s' q', kinv ∅ ∅ s' → thread_lock s' = false → timer_queue s' !! cpu = Some q' →
    tick_ok time s' q' → (due time s' q' < due time s (x :: q))%nat → fired x s (x :: q) s' q' → Q r s') →
  wp (timer_fire (run_callback other) cpu time x) Q s.
Proof.
  intros I Hl Hc Hq Hok Hd HQ.
  assert (x ∈ x :: q) as Hxin by (apply elem_of_cons; auto).
  destruct (ti_member _ _ (k_timer _ _ _ I) x) as (tm & Htm & Hm & Hcb); [by exists cpu, (x :: q)|].
  destruct (callback tm) as [cb|] eqn:Ecb; [|done].
  pose proof (to_period _ _ _ Hok x tm Hxin Htm) as Hp. pose proof (to_near _ _ _ Hok x Hxin) as Hn.
  destruct (tick_ok_tail _ _ _ _ Hok) as [Hokq Hxq].
  set (s1 := set_timer_queue (list_without x <$> timer_queue s) s).
  assert (kinv ∅ ∅ s1) as I1 by by apply kinv_timer_dequeue.
  assert (¬ timer_queued s1 x) as Hnq1 by (rw (timer_queued_without x x s) //; tauto).
  apply wp_bind. eapply wp_deref; [done|]. apply wp_bind, wp_assert; [by rw Hm|].
  apply wp_bind, wp_modify. rw Ecb. apply wp_bind.
  eapply wp_run_callback; [exact I1|done|done|split; [done|by rw Ecb]|done|done|intros a; apply (to_kernel _ _ _ Hok x a Hxin)|].
  intros r s2 I2 F Hsl.
  assert (sched_of s x = scheduled_time tm) as Es by by rw /sched_of Htm. rw Es in Hd Hn.
  assert (timer_queue s2 !! cpu = Some q) as Hq2.
  { rw (cf_timer_queue _ _ F) lookup_fmap Hq. apply (f_equal Some), list_without_head, (to_nodup _ _ _ Hok). }
  assert (¬ timer_queued s2 x) as Hnq2.
  { intros (c & q0 & Hc0 & ?). apply Hnq1. exists c, q0. by rw -(cf_timer_queue _ _ F). }
  assert (tick_ok time s2 q) as Hok2 by (eapply tick_ok_ext; [|done]; intros; by rw (cf_timers _ _ F)).
  assert (due time s2 q = due time s q) as Hdue by (apply due_ext; intros; by rw (cf_timers _ _ F)).
  apply wp_bind. eapply wp_deref; [by rw (cf_timers _ _ F)|]. apply wp_bind, wp_gets. rw (timer_not_in_list _ _ Hnq2) andb_true_r andb_diag.
  apply wp_bind, wp_when; intros Hper; to_prop.
  - apply wp_bind. apply wp_bind. eapply wp_deref; [by rw (cf_timers _ _ F)|]. apply wp_modify.
    apply wp_bind, wp_gets, wp_bind. eapply wp_deref; [exact Hq2|]. apply wp_modify, wp_ret.
    assert (timers s2 !! x = Some tm) as Htm2 by by rw (cf_timers _ _ F).
    set (v := next_time time (scheduled_time tm) (periodic_time tm)).
    pose proof (next_time_dist time (scheduled_time tm) (periodic_time tm) Hn Hd ltac:(lia)) as Hdv. fold v in Hdv.
    rw /near in Hn.
    destruct (tick_ok_requeue time s2 x q tm (events s2) v cpu) as (Hok3 & Hin3 & Hdue3).
    1-3: done. { lia. } { intros a. apply (to_kernel _ _ _ Hok x a Hxin). }
    { rw /near Hdv. case_match; to_prop; lia. }
    set (q3 := insert_by_time _ x q) in *. set (s3 := st_timer_set _ _ _ _ _ _) in Hok3, Hdue3.
    match goal with |- Q _ ?s' => change s' with s3 end.
    apply (HQ r s3 q3); [|by rw /= (cf_lock _ _ F)|by apply lookup_insert_eq|exact Hok3| |].
    + apply (kinv_requeue s _ _ _ _ tm); [done..|lia|done|done].
    + rw Hdue3 Hdue /due /=. fold (due time s q). rw /fires /= lookup_alter_eq Htm2 Htm /= Hdv.
      rw (proj2 (Z.ltb_ge _ (dist time (scheduled_time tm)))) // (proj2 (Z.ltb_lt 0 (periodic_time tm))) //=.
      repeat case_match; to_prop; lia.
    + apply (fired_frame s s2 s3 x tm cb); try done; [intros y ? ?; by rw /= lookup_alter_ne|].
      intros y. rw Hin3. intuition lia.
  - apply wp_ret. eapply HQ; [done|by rw (cf_lock _ _ F)|done|done| |].
    + rw Hdue {2}/due /=. fold (due time s q). rw /fires Htm (proj2 (Z.ltb_ge _ (dist time _))) //. destruct (_ && _); lia.
    + apply (fired_frame s s2 s2 x tm cb); try done. intros y. intuition lia.
Qed.

(** ** The whole tick *)

(** What a tick at [time] does to the timers of the queue and to threads. *)
Record ticked (time : Z) s q s' q' : Prop := {
  tk_pending y : y ∈ q → 0 < dist time (sched_of s y) → y ∈ q' ∧ timers s' !! y = timers s !! y;
  tk_sub y : y ∈ q' → y ∈ q;
  tk_oneshot y tm : y ∈ q → timers s !! y = Some tm → dist time (scheduled_time tm) ≤ 0 →
    periodic_time tm = 0 → y ∉ q';
  tk_ready t th : threads s !! t = Some th → state th = THREAD_READY →
    ∃ th', threads s' !! t = Some th' ∧ state th' = THREAD_READY;
  tk_sleep t tm : StackTimer t ∈ q → timers s !! StackTimer t = Some tm →
    dist time (scheduled_time tm) ≤ 0 → callback tm = Some thread_sleep_handler_cb →
    ∃ th', threads s' !! t = Some th' ∧ state th' = THREAD_READY
}.

Lemma ticked_fired time x s q s1 q1 s' q' :
  x ∈ q → dist time (sched_of s x) ≤ 0 → fired x s q s1 q1 → ticked time s1 q1 s' q' → ticked time s q s' q'.
Proof.
  intros Hx Hd F T. destruct F, T. split.
  - intros y Hy Hdy. destruct (fd_others0 y Hy) as [Hy1 Et]; [by intros ->; lia|].
    assert (sched_of s1 y = sched_of s y) as Es by by rw /sched_of Et.
    rw -Et. apply tk_pending0; [done|by rw Es].
  - intros y Hy. auto.
  - intros y tm Hy Htm Hdy Hp Hin. destruct (decide (y = x)) as [->|Hne].
    + by eapply fd_oneshot0; [..|apply tk_sub0].
    + destruct (fd_others0 y Hy Hne) as [Hy1 Et]. by eapply (tk_oneshot0 y tm); [|rw Et|..].
  - intros t th Ht Hr. destruct (fd_ready0 _ _ Ht Hr) as (th1 & ? & ?). eauto.
  - intros t tm Hy Htm Hdy Hcb. destruct (decide (StackTimer t = x)) as [Ex|Hne].
    + subst x. destruct (fd_sleep0 t tm) as (th1 & ? & ?); [done..|]. eauto.
    + destruct (fd_others0 _ Hy Hne) as [Hy1 Et]. by eapply (tk_sleep0 t tm); [|rw Et|..].
Qed.

Lemma ticked_refl time s q : (∀ x, x ∈ q → 0 < dist time (sched_of s x)) → ticked time s q s q.
Proof.
  intros Hall. split; try done; eauto.
  - intros y tm Hy Htm Hd. specialize (Hall y Hy). rw /sched_of Htm in Hall. lia.
  - intros t tm Hy Htm Hd. specialize (Hall _ Hy). rw /sched_of Htm in Hall. lia.
Qed.

Lemma wp_timer_tick_loop fuel s cpu time ret q (Q : handler_return → kstate → Prop) :
  kinv ∅ ∅ s → thread_lock s = false → is_Some (current s !! cpu) →
  timer_queue s !! cpu = Some q → tick_ok time s q → (due time s q ≤ fuel)%nat →
  (∀ r s' q', kinv ∅ ∅ s' → thread_lock s' = false → timer_queue s' !! cpu = Some q' →
    tick_ok time s' q' → (∀ x, x ∈ q' → 0 < dist time (sched_of s' x)) → ticked time s q s' q' → Q r s') →
  wp (timer_tick_loop (run_callback other) fuel cpu time ret) Q s.
Proof.
  revert s ret q Q. induction fuel as [|fuel IH]; intros s ret q Q I Hl Hc Hq Hok Hf HQ.
  all: apply wp_bind; eapply wp_deref; [done|].
  all: destruct q as [|x q]; simpl; [apply wp_ret, (HQ _ s []); try done; [by intros ? ?%not_elem_of_nil|];
    apply ticked_refl; by intros ? ?%not_elem_of_nil|].
  all: destruct (ti_member _ _ (k_timer _ _ _ I) x) as (tm & Htm & _);
    [exists cpu, (x :: q); split; [done|by apply elem_of_cons; auto]|].
  all: assert (near time (scheduled_time tm)) as Hn
    by (replace (scheduled_time tm) with (sched_of s x) by (by rw /sched_of Htm); apply (to_near _ _ _ Hok), elem_of_cons; auto).
  all: assert (0 < dist time (scheduled_time tm) → ∀ y, y ∈ x :: q → 0 < dist time (sched_of s y)) as Hall.
  1,3: intros Hd y [->|Hy]%elem_of_cons; [by rw /sched_of Htm|];
    pose proof (to_sorted _ _ _ Hok) as [_ Hs]%StronglySorted_inv; rw Forall_forall in Hs;
    specialize (Hs y Hy); rw /by_time {1}/sched_of Htm in Hs; lia.
  all: apply wp_bind; eapply wp_deref; [done|]; rw (TIME_LT_now time) //; apply wp_if; intros Hd; to_prop.
  1,3: apply wp_ret, (HQ _ s (x :: q)); try done; [by apply Hall|by apply ticked_refl, Hall].
  - exfalso. rw /due /= /fires Htm (proj2 (Z.ltb_ge _ _)) // in Hf. destruct (_ && _); lia.
  - assert (dist time (sched_of s x) ≤ 0) as Hdx by by rw /sched_of Htm.
    apply wp_bind. eapply wp_timer_fire; [done..|]. intros r s1 q1 I1 Hl1 Hq1 Hok1 Hdue F.
    eapply IH; [done|done|by rw (fd_current _ _ _ _ _ F)|done|done|lia|].
    intros r' s' q' I' Hl' Hq' Hok' Hall' T. eapply HQ; try done.
    eapply ticked_fired; [|done..]. apply elem_of_cons. auto.
Qed.

(** A queue ordered by time stays ordered when a timer is inserted, and the
    timer goes behind the timers due at the same time, so that timers set first
    fire first. *)
Theorem insert_timer_in_queue_ordered s cpu x q time :
  timer_queue s !! cpu = Some q → near time (sched_of s x) → queue_near time (sched_of s) q →
  StronglySorted (by_time time (sched_of s)) q →
  wp (insert_timer_in_queue cpu x) (λ _ s', ∃ q1 q2, q = q1 ++ q2 ∧
    s' = set_timer_queue (<[cpu := q1 ++ x :: q2]> (timer_queue s)) s ∧
    StronglySorted (by_time time (sched_of s)) (q1 ++ x :: q2) ∧
    (∀ y, y ∈ q1 → dist time (sched_of s y) ≤ dist time (sched_of s x)) ∧
    (∀ y, y ∈ q2 → dist time (sched_of s x) < dist time (sched_of s y))) s.
Proof.
  intros Hq Hx Hn Hs. apply wp_bind, wp_gets, wp_bind. eapply wp_deref; [done|]. apply wp_modify.
  destruct (insert_by_time_split time (sched_of s) x q) as (q1 & q2 & Eq & Ei & H1 & H2); [done..|].
  exists q1, q2. rw Ei. split_and!; try done. rw -Ei. by apply insert_by_time_sorted.
Qed.

End tick.

(** ** Concrete instances *)

(** In [waiting_state] the preemption timer and the timeout of a waiting thread
    are pending. *)
Lemma waiting_timers :
  timer_queue waiting_state !! 0%nat = Some [PreemptTimer 0; StackTimer (h 2)] ∧
  tick_ok 150 waiting_state [PreemptTimer 0; StackTimer (h 2)].
Proof.
  split; [by vm_compute|]. split.
  - intros x [->|[->|[]%not_elem_of_nil]%elem_of_cons]%elem_of_cons; by vm_compute.
  - repeat constructor; by vm_compute.
  - intros x tm [->|[->|[]%not_elem_of_nil]%elem_of_cons]%elem_of_cons Htm;
      vm_compute in Htm; simplify_eq; by vm_compute.
  - by intros x a [->|[->|[]%not_elem_of_nil]%elem_of_cons]%elem_of_cons.
  - apply NoDup_cons. split; [|apply NoDup_singleton]. by intros ?%list_elem_of_singleton.
Qed.

Lemma waiting_timeout :
  ∃ tm, timers waiting_state !! StackTimer (h 2) = Some tm ∧ dist 150 (scheduled_time tm) ≤ 0 ∧
    periodic_time tm = 0.
Proof. eexists. split; [vm_compute; reflexivity|by vm_compute]. Qed.

Lemma insert_timer_in_queue_ordered_witness :
  wp (insert_timer_in_queue 0 (StackTimer (h 2))) (λ _ s', is_Some (timer_queue s' !! 0%nat))
    (set_timer_queue {[ 0%nat := [PreemptTimer 0] ]} waiting_state).
Proof.
  eapply wp_mono; [eapply (insert_timer_in_queue_ordered
    (set_timer_queue {[ 0%nat := [PreemptTimer 0] ]} waiting_state) 0 (StackTimer (h 2)) [PreemptTimer 0] 150)|].
  - by vm_compute.
  - by vm_compute.
  - intros x [->|[]%not_elem_of_nil]%elem_of_cons; by vm_compute.
  - repeat constructor.
  - intros u s' (q1 & q2 & _ & -> & _). simpl. by rw lookup_insert_eq.
Defined.

