(* ===== verification/Sync.v ===== *)
(** * Mutexes, semaphores and events

    [src/mk/kernel/mutex.c], [semaphore.c] and [event.c] on top of the wait
    queues of [Thread].  An object at address [a] has its wait queue at
    [ObjWq a].  As in [Thread], a function that blocks or reschedules ends
    there with [Switched] and [thread_lock] held, and what it does when its
    thread runs again is a definition of its own. *)

From S2P Require Import Prelude Kernel Timer Thread.

(** ** Objects *)

Definition MUTEX_MAGIC : Z := 0x6D757478.
Definition SEMAPHORE_MAGIC : Z := 0x73656D61.
Definition EVENT_MAGIC : Z := 0x65766E74.
Definition EVENT_FLAG_AUTOUNSIGNAL : Z := 1.

(** The fields beside the wait queue. *)
Record mutex := Mutex { m_magic : Z; holder : option thread_ptr; m_count : Z }.

Record semaphore := Semaphore { sem_magic : Z; sem_count : Z }.

Record event := Event { e_magic : Z; signaled : bool; e_flags : Z }.

Record sync := Sync {
  sk : kstate;
  mutexes : gmap positive mutex;
  semaphores : gmap positive semaphore;
  evts : gmap positive event
}.

Definition set_sk (k : kstate) (y : sync) : sync := Sync k (mutexes y) (semaphores y) (evts y).

Definition set_mutexes (v : gmap positive mutex) (y : sync) : sync := Sync (sk y) v (semaphores y) (evts y).

Definition set_semaphores (v : gmap positive semaphore) (y : sync) : sync := Sync (sk y) (mutexes y) v (evts y).

Definition set_evts (v : gmap positive event) (y : sync) : sync := Sync (sk y) (mutexes y) (semaphores y) v.

Abbreviation Y := (M sync).

(** A scheduler operation. *)
Definition lift {A} (m : K A) : Y A :=
  λ y, match m (sk y) with Some (a, k) => Some (a, set_sk k y) | None => None end.

Definition get_mutex (a : positive) : Y mutex := deref (λ y, mutexes y !! a).

Definition put_mutex (a : positive) (m : mutex) : Y unit := modify (λ y, set_mutexes (<[a := m]> (mutexes y)) y).

Definition get_sem (a : positive) : Y semaphore := deref (λ y, semaphores y !! a).

Definition put_sem (a : positive) (x : semaphore) : Y unit := modify (λ y, set_semaphores (<[a := x]> (semaphores y)) y).

Definition get_event (a : positive) : Y event := deref (λ y, evts y !! a).

Definition put_event (a : positive) (e : event) : Y unit := modify (λ y, set_evts (<[a := e]> (evts y)) y).

(** ** [mutex.c] *)

Definition mutex_init (a : positive) : Y unit :=
  put_mutex a (Mutex MUTEX_MAGIC None 0);; lift (wait_queue_init (ObjWq a)).

Definition mutex_destroy (cpu : nat) (a : positive) : Y (call unit) :=
  m ← get_mutex a;
  assert (m_magic m =? MUTEX_MAGIC);;
  cur ← lift (get_current_thread cpu);
  assert (bool_decide (holder m = None) || bool_decide (holder m = Some cur));; (* panic *)
  lift THREAD_LOCK;;
  put_mutex a (Mutex 0 (holder m) 0);;
  r ← lift (wait_queue_destroy cpu (ObjWq a) true);
  match r with
  | Switched => mret Switched
  | Returned u => lift THREAD_UNLOCK;; mret (Returned u)
  end.

(** The end of the three destroy functions after a reschedule. *)
Definition destroy_resume (a : positive) : Y unit :=
  lift (wait_queue_destroy_resume (ObjWq a));; lift THREAD_UNLOCK.

(** [mutex_acquire_timeout] from the end of [wait_queue_block], whose result is
    [ret], or from the test of the count when it did not block. *)
Definition mutex_acquire_finish (cpu : nat) (a : positive) (ret : Z) : Y Z :=
  (if ret <? NO_ERROR then
     when (ret =? ERR_TIMED_OUT)
       (m ← get_mutex a; put_mutex a (Mutex (m_magic m) (holder m) (m_count m - 1)))
   else
     m ← get_mutex a;
     cur ← lift (get_current_thread cpu);
     put_mutex a (Mutex (m_magic m) (Some cur) (m_count m)));;
  lift THREAD_UNLOCK;;
  mret ret.

Definition mutex_acquire_timeout (cpu : nat) (a : positive) (timeout : Z) : Y (call Z) :=
  m ← get_mutex a;
  assert (m_magic m =? MUTEX_MAGIC);;
  cur ← lift (get_current_thread cpu);
  assert (negb (bool_decide (holder m = Some cur)));; (* panic *)
  lift THREAD_LOCK;;
  put_mutex a (Mutex (m_magic m) (holder m) (m_count m + 1));;
  if 1 <? m_count m + 1 then
    r ← lift (wait_queue_block cpu (ObjWq a) timeout);
    match r with
    | Switched => mret Switched
    | Returned ret => ret' ← mutex_acquire_finish cpu a ret; mret (Returned ret')
    end
  else ret' ← mutex_acquire_finish cpu a NO_ERROR; mret (Returned ret').

Definition mutex_acquire (cpu : nat) (a : positive) : Y (call Z) := mutex_acquire_timeout cpu a INFINITE_TIME.

(** [mutex_acquire_timeout] when the waiter runs again. *)
Definition mutex_acquire_resume (cpu : nat) (a : positive) (timeout : Z) : Y Z :=
  ret ← lift (wait_queue_block_resume cpu timeout);
  mutex_acquire_finish cpu a ret.

Definition mutex_release (cpu : nat) (a : positive) : Y (call Z) :=
  m ← get_mutex a;
  assert (m_magic m =? MUTEX_MAGIC);;
  cur ← lift (get_current_thread cpu);
  assert (bool_decide (holder m = Some cur));; (* panic *)
  lift THREAD_LOCK;;
  put_mutex a (Mutex (m_magic m) None (m_count m - 1));;
  if 1 <=? m_count m - 1 then
    n ← lift (wait_queue_wake_one cpu (ObjWq a) true NO_ERROR);
    if 0 <? n then mret Switched
    else lift THREAD_UNLOCK;; mret (Returned NO_ERROR)
  else lift THREAD_UNLOCK;; mret (Returned NO_ERROR).

(** The end of [mutex_release], [sem_post] and [event_signal] after a
    reschedule. *)
Definition unlock_resume {A} (ret : A) : Y A := lift THREAD_UNLOCK;; mret ret.

Definition is_mutex_held (cpu : nat) (a : positive) : Y bool :=
  m ← get_mutex a;
  cur ← lift (get_current_thread cpu);
  mret (bool_decide (holder m = Some cur)).

(** ** [semaphore.c] *)

(** [count++]: no value on signed overflow. *)
Definition sem_inc (a : positive) (x : semaphore) : Y unit :=
  assert (sem_count x <? 2 ^ 31 - 1);; put_sem a (Semaphore (sem_magic x) (sem_count x + 1)).

Definition sem_init (a : positive) (value : Z) : Y unit :=
  put_sem a (Semaphore SEMAPHORE_MAGIC (s32 value));; lift (wait_queue_init (ObjWq a)).

Definition sem_destroy (cpu : nat) (a : positive) : Y (call unit) :=
  lift THREAD_LOCK;;
  x ← get_sem a;
  put_sem a (Semaphore (sem_magic x) 0);;
  r ← lift (wait_queue_destroy cpu (ObjWq a) true);
  match r with
  | Switched => mret Switched
  | Returned u => lift THREAD_UNLOCK;; mret (Returned u)
  end.

(** [Switched] stands for a return value of 1 after the reschedule. *)
Definition sem_post (cpu : nat) (a : positive) (resched : bool) : Y (call Z) :=
  lift THREAD_LOCK;;
  x ← get_sem a;
  sem_inc a x;;
  if sem_count x + 1 <=? 0 then
    n ← lift (wait_queue_wake_one cpu (ObjWq a) resched NO_ERROR);
    if resched && (0 <? n) then mret Switched
    else lift THREAD_UNLOCK;; mret (Returned n)
  else lift THREAD_UNLOCK;; mret (Returned 0).

Definition sem_wait (cpu : nat) (a : positive) : Y (call Z) :=
  lift THREAD_LOCK;;
  x ← get_sem a;
  put_sem a (Semaphore (sem_magic x) (sem_count x - 1));;
  if sem_count x - 1 <? 0 then
    r ← lift (wait_queue_block cpu (ObjWq a) INFINITE_TIME);
    match r with
    | Switched => mret Switched
    | Returned ret => lift THREAD_UNLOCK;; mret (Returned ret)
    end
  else lift THREAD_UNLOCK;; mret (Returned NO_ERROR).

Definition sem_wait_resume (cpu : nat) : Y Z :=
  ret ← lift (wait_queue_block_resume cpu INFINITE_TIME);
  lift THREAD_UNLOCK;; mret ret.

Definition sem_trywait (a : positive) : Y Z :=
  lift THREAD_LOCK;;
  x ← get_sem a;
  if sem_count x <=? 0 then lift THREAD_UNLOCK;; mret ERR_NOT_READY
  else put_sem a (Semaphore (sem_magic x) (sem_count x - 1));; lift THREAD_UNLOCK;; mret NO_ERROR.

(** [sem_timedwait] from the result of [wait_queue_block]. *)
Definition sem_timedwait_finish (a : positive) (ret : Z) : Y Z :=
  when ((ret <? NO_ERROR) && (ret =? ERR_TIMED_OUT))
    (x ← get_sem a; sem_inc a x);;
  lift THREAD_UNLOCK;; mret ret.

Definition sem_timedwait (cpu : nat) (a : positive) (timeout : Z) : Y (call Z) :=
  lift THREAD_LOCK;;
  x ← get_sem a;
  put_sem a (Semaphore (sem_magic x) (sem_count x - 1));;
  if sem_count x - 1 <? 0 then
    r ← lift (wait_queue_block cpu (ObjWq a) timeout);
    match r with
    | Switched => mret Switched
    | Returned ret => ret' ← sem_timedwait_finish a ret; mret (Returned ret')
    end
  else lift THREAD_UNLOCK;; mret (Returned NO_ERROR).

Definition sem_timedwait_resume (cpu : nat) (a : positive) (timeout : Z) : Y Z :=
  ret ← lift (wait_queue_block_resume cpu timeout);
  sem_timedwait_finish a ret.

(** ** [event.c] *)

Definition event_init (a : positive) (initial : bool) (fl : Z) : Y unit :=
  put_event a (Event EVENT_MAGIC initial fl);; lift (wait_queue_init (ObjWq a)).

Definition event_destroy (cpu : nat) (a : positive) : Y (call unit) :=
  e ← get_event a;
  assert (e_magic e =? EVENT_MAGIC);;
  lift THREAD_LOCK;;
  put_event a (Event 0 false 0);;
  r ← lift (wait_queue_destroy cpu (ObjWq a) true);
  match r with
  | Switched => mret Switched
  | Returned u => lift THREAD_UNLOCK;; mret (Returned u)
  end.

Definition autounsignal (e : event) : bool := negb (Z.land (e_flags e) EVENT_FLAG_AUTOUNSIGNAL =? 0).

Definition event_wait_timeout (cpu : nat) (a : positive) (timeout : Z) : Y (call Z) :=
  e ← get_event a;
  assert (e_magic e =? EVENT_MAGIC);;
  lift THREAD_LOCK;;
  if signaled e then
    when (autounsignal e) (put_event a (Event (e_magic e) false (e_flags e)));;
    lift THREAD_UNLOCK;; mret (Returned NO_ERROR)
  else
    r ← lift (wait_queue_block cpu (ObjWq a) timeout);
    match r with
    | Switched => mret Switched
    | Returned ret => lift THREAD_UNLOCK;; mret (Returned ret)
    end.

Definition event_wait (cpu : nat) (a : positive) : Y (call Z) := event_wait_timeout cpu a INFINITE_TIME.

Definition event_wait_resume (cpu : nat) (timeout : Z) : Y Z :=
  ret ← lift (wait_queue_block_resume cpu timeout);
  lift THREAD_UNLOCK;; mret ret.

Definition event_signal (cpu : nat) (a : positive) (reschedule : bool) : Y (call Z) :=
  e ← get_event a;
  assert (e_magic e =? EVENT_MAGIC);;
  lift THREAD_LOCK;;
  if signaled e then lift THREAD_UNLOCK;; mret (Returned NO_ERROR)
  else if autounsignal e then
    n ← lift (wait_queue_wake_one cpu (ObjWq a) reschedule NO_ERROR);
    if n <=? 0 then
      put_event a (Event (e_magic e) true (e_flags e));;
      lift THREAD_UNLOCK;; mret (Returned NO_ERROR)
    else if reschedule then mret Switched
    else lift THREAD_UNLOCK;; mret (Returned NO_ERROR)
  else
    put_event a (Event (e_magic e) true (e_flags e));;
    n ← lift (wait_queue_wake_all cpu (ObjWq a) reschedule NO_ERROR);
    if reschedule && (0 <? n) then mret Switched
    else lift THREAD_UNLOCK;; mret (Returned NO_ERROR).

Definition event_unsignal (a : positive) : Y Z :=
  e ← get_event a;
  assert (e_magic e =? EVENT_MAGIC);;
  put_event a (Event (e_magic e) false (e_flags e));;
  mret NO_ERROR.

Definition event_initialized (a : positive) : Y bool :=
  e ← get_event a; mret (e_magic e =? EVENT_MAGIC).
