(* ===== verification/MutexSpec.v ===== *)
(** * The mutex: mutual exclusion and its refinement

    [mstep] is an abstract mutex: who holds it, the count, and the threads that
    wait, that were granted the mutex but have not run yet, and that timed out
    but have not run yet.  Its invariant gives mutual exclusion; the functions
    of [Sync] are shown to take exactly its steps. *)

From S2P Require Import Prelude Kernel Timer Thread SchedInv KernelInv SchedOps ThreadLife System SchedRun Sync.

(** ** The abstract mutex *)

Record mview := MView {
  v_holder : option thread_ptr;
  v_count : Z;
  v_waiting : list thread_ptr;
  v_granted : list thread_ptr;   (** woken by a release, not running yet *)
  v_expired : list thread_ptr    (** timed out, not running yet *)
}.

Definition v_init : mview := MView None 0 [] [] [].

(** What a release does with the next waiter. *)
Definition grant (v : mview) : mview :=
  match v_waiting v with
  | [] => v
  | t :: rest => MView (v_holder v) (v_count v) rest (t :: v_granted v) (v_expired v)
  end.

Inductive mstep : mview → mview → Prop :=
| ms_acquire t w g x : mstep (MView None 0 w g x) (MView (Some t) 1 w g x)
| ms_block t h c w g x : 0 < c → t ∉ w ++ g ++ x →
    mstep (MView h c w g x) (MView h (c + 1) (w ++ [t]) g x)
| ms_try v : 0 < v_count v → mstep v v
| ms_expire t h c w g x : t ∈ w → t ∉ g ++ x →
    mstep (MView h c w g x) (MView h c (list_without t w) g (t :: x))
| ms_granted t h c w g x : t ∈ g → mstep (MView h c w g x) (MView (Some t) c w (list_without t g) x)
| ms_backout t h c w g x : t ∈ x → mstep (MView h c w g x) (MView h (c - 1) w g (list_without t x))
| ms_release t c w g x : c - 1 < 1 → mstep (MView (Some t) c w g x) (MView None (c - 1) w g x)
| ms_handoff t c w g x : 1 ≤ c - 1 → mstep (MView (Some t) c w g x) (grant (MView None (c - 1) w g x)).

Definition held (o : option thread_ptr) : Z := match o with Some _ => 1 | None => 0 end.

Record minv (v : mview) : Prop := {
  mi_nodup : NoDup (v_waiting v ++ v_granted v ++ v_expired v);
  mi_count : v_count v = held (v_holder v) + Z.of_nat (length (v_waiting v)) +
    Z.of_nat (length (v_granted v)) + Z.of_nat (length (v_expired v));
  mi_excl : held (v_holder v) + Z.of_nat (length (v_granted v)) ≤ 1
}.

Inductive mreach : mview → Prop :=
| mreach_init : mreach v_init
| mreach_step v v' : mreach v → mstep v v' → mreach v'.

Lemma minv_init : minv v_init.
Proof. split; try done. constructor. Qed.

Lemma nodup_part (l l' k : list thread_ptr) : NoDup l → l ≡ₚ l' ++ k → NoDup l'.
Proof. intros Hl HP. rw HP in Hl. by apply NoDup_app in Hl as (? & _). Qed.

Lemma nodup_parts (w g x : list thread_ptr) : NoDup (w ++ g ++ x) → NoDup w ∧ NoDup g ∧ NoDup x.
Proof. by intros (? & _ & (? & _ & ?)%NoDup_app)%NoDup_app. Qed.

Lemma mstep_inv v v' : mstep v v' → minv v → minv v'.
Proof.
  intros Hstep [Hnd Hc He].
  destruct Hstep as [t w g x|t h c w g x Hpos Hnin|v|t h c w g x Hin Hnin|t h c w g x Hin|
    t h c w g x Hin|t c w g x Hlt|t c w g x Hge]; simpl in *.
  - split; simpl; try lia. done.
  - split; simpl; rw ?length_app /=; try lia.
    eapply (nodup_part (t :: w ++ g ++ x) _ []); [by apply NoDup_cons|]. rw app_nil_r. solve_Permutation.
  - done.
  - destruct (nodup_parts _ _ _ Hnd) as (Hw & _ & _).
    pose proof (list_without_perm t w Hw Hin) as HP. pose proof (list_without_length t w Hw Hin).
    split; simpl; try lia.
    eapply (nodup_part _ _ []); [exact Hnd|]. rw app_nil_r -{1}HP. solve_Permutation.
  - destruct (nodup_parts _ _ _ Hnd) as (_ & Hg & _).
    pose proof (list_without_perm t g Hg Hin) as HP. pose proof (list_without_length t g Hg Hin).
    split; simpl; [|destruct h; simpl in *; lia..].
    eapply (nodup_part _ _ [t]); [exact Hnd|]. rw -{1}HP. solve_Permutation.
  - destruct (nodup_parts _ _ _ Hnd) as (_ & _ & Hx).
    pose proof (list_without_perm t x Hx Hin) as HP. pose proof (list_without_length t x Hx Hin).
    split; simpl; try lia.
    eapply (nodup_part _ _ [t]); [exact Hnd|]. rw -{1}HP. solve_Permutation.
  - split; simpl; try lia. done.
  - rw /grant /=. destruct w as [|t' w]; simpl in *; split; simpl; try lia; [done|].
    eapply (nodup_part _ _ []); [exact Hnd|]. rw app_nil_r. solve_Permutation.
Qed.

Lemma mreach_inv v : mreach v → minv v.
Proof. induction 1; eauto using minv_init, mstep_inv. Qed.

(** Mutual exclusion: whatever the interleaving of acquires, timeouts and
    releases, at most one thread holds the mutex or has been handed it, the
    thread that takes it over finds it free, and the count is the holder plus
    every thread that is still inside [mutex_acquire_timeout]. *)
Lemma mutex_exclusion v :
  mreach v →
  (∀ t, t ∈ v_granted v → v_holder v = None ∧ v_granted v = [t]) ∧
  (∀ t, v_holder v = Some t → v_granted v = []) ∧
  v_count v = held (v_holder v) + Z.of_nat (length (v_waiting v)) +
    Z.of_nat (length (v_granted v)) + Z.of_nat (length (v_expired v)).
Proof.
  intros [_ Hc He]%mreach_inv. split_and!; [| |done].
  - intros t Ht. destruct (v_granted v) as [|t' [|t'' l]]; simpl in *; [by apply not_elem_of_nil in Ht| |].
    + apply list_elem_of_singleton in Ht as ->. by destruct (v_holder v); simpl in *; [lia|].
    + destruct (v_holder v); simpl in *; lia.
  - intros t Ht. rw Ht /= in He. destruct (v_granted v); simpl in *; [done|lia].
Qed.

(** ** Refinement *)

Lemma wp_lift {A} (m : K A) (Q : A → sync → Prop) (y : sync) :
  wp m (λ a k, Q a (set_sk k y)) (sk y) → wp (lift m) Q y.
Proof. rw /wp /lift. by destruct (m (sk y)) as [[a k]|]. Qed.

(** The result of its wait has been stored for a thread that will run again. *)
Definition delivered (k : kstate) (t : thread_ptr) (err : Z) : Prop :=
  ∃ th, threads k !! t = Some th ∧ wait_queue_block_ret th = err ∧ blocking_wait_queue th = None.

Lemma delivered_mono k k' t err :
  option_Forall2 same_wait (threads k !! t) (threads k' !! t) → delivered k t err → delivered k' t err.
Proof.
  intros Hsw (th & Ht & Hr & Hb). rw Ht in Hsw. inversion Hsw as [? th' [? ?] E1 E2|]; subst.
  exists th'. split_and!; congruence.
Qed.

(** The mutex at [a] is in abstract state [v]. *)
Record mutex_at (a : positive) (v : mview) (y : sync) : Prop := {
  ma_kinv : kinv ∅ ∅ (sk y);
  ma_mutex : mutexes y !! a = Some (Mutex MUTEX_MAGIC (v_holder v) (v_count v));
  ma_wait : wait_queues (sk y) !! ObjWq a =
    Some (WaitQueue WAIT_QUEUE_MAGIC (v_waiting v) (Z.of_nat (length (v_waiting v))));
  ma_granted t : t ∈ v_granted v → delivered (sk y) t NO_ERROR;
  ma_expired t : t ∈ v_expired v → delivered (sk y) t ERR_TIMED_OUT;
  ma_inv : minv v
}.

(** The thread running on [cpu], which is not the idle thread. *)
Definition running_on (y : sync) (cpu : nat) (cur : thread_ptr) : Prop :=
  current (sk y) !! cpu = Some cur ∧ not_idle (sk y) cur.

Lemma running_not_waiting a v y cpu cur : mutex_at a v y → running_on y cpu cur → cur ∉ v_waiting v.
Proof.
  intros R [Hc _] Hin. destruct (kinv_current _ _ _ _ _ (ma_kinv _ _ _ R) Hc) as (cth & ? & ? & _); [set_solver|].
  destruct (qi_blocked _ _ (k_queue _ _ _ (ma_kinv _ _ _ R)) _ _ _ (ma_wait _ _ _ R) Hin) as (? & ? & _ & ? & _).
  congruence.
Qed.

(** The end of a successful acquire. *)
Lemma wp_acquire_ok a y cpu cur m (Q : Z → sync → Prop) :
  mutexes y !! a = Some m → current (sk y) !! cpu = Some cur →
  Q NO_ERROR (set_mutexes (<[a := Mutex (m_magic m) (Some cur) (m_count m)]> (mutexes y))
    (set_sk (set_thread_lock false (sk y)) y)) →
  wp (mutex_acquire_finish cpu a NO_ERROR) Q y.
Proof.
  intros Hm Hc HQ. apply wp_bind. simpl. apply wp_bind. eapply wp_deref; [done|].
  apply wp_bind, wp_lift. eapply wp_deref; [done|]. apply wp_modify.
  apply wp_bind, wp_lift, wp_modify, wp_ret. done.
Qed.

(** The end of an acquire that timed out. *)
Lemma wp_acquire_timed_out a y cpu m (Q : Z → sync → Prop) :
  mutexes y !! a = Some m →
  Q ERR_TIMED_OUT (set_mutexes (<[a := Mutex (m_magic m) (holder m) (m_count m - 1)]> (mutexes y))
    (set_sk (set_thread_lock false (sk y)) y)) →
  wp (mutex_acquire_finish cpu a ERR_TIMED_OUT) Q y.
Proof.
  intros Hm HQ. apply wp_bind. simpl. apply wp_bind. eapply wp_deref; [done|].
  apply wp_modify. apply wp_bind, wp_lift, wp_modify, wp_ret. done.
Qed.

(** [mutex_at] depends on the kernel state through the wait queue and the
    stored results only. *)
Lemma mutex_at_frame a v y k' :
  mutex_at a v y → kinv ∅ ∅ k' → wait_queues k' !! ObjWq a = wait_queues (sk y) !! ObjWq a →
  (∀ t, t ∈ v_granted v ++ v_expired v → option_Forall2 same_wait (threads (sk y) !! t) (threads k' !! t)) →
  mutex_at a v (set_sk k' y).
Proof.
  intros [] Ik Hw Ht. split; simpl; try done.
  - by rw Hw.
  - intros t Hin. eapply delivered_mono; [|by apply ma_granted0]. apply Ht, elem_of_app. auto.
  - intros t Hin. eapply delivered_mono; [|by apply ma_expired0]. apply Ht, elem_of_app. auto.
Qed.

(** C5: [mutex_acquire_timeout] takes the steps of the abstract mutex: it returns
    [NO_ERROR] only as the holder of a mutex nobody held or was being handed, it
    returns [ERR_TIMED_OUT] only for a zero timeout and then leaves the mutex as
    it was, and otherwise it queues the caller behind the other waiters. *)
Theorem mutex_acquire_refines a v y cpu cur timeout :
  mutex_at a v y → thread_lock (sk y) = false → running_on y cpu cur → v_holder v ≠ Some cur →
  cur ∉ v_granted v ++ v_expired v → ¬ timer_queued (sk y) (StackTimer cur) →
  wp (mutex_acquire_timeout cpu a timeout) (λ r y', ∃ v', mstep v v' ∧ mutex_at a v' y' ∧
    match r with
    | Returned ret =>
        (ret = NO_ERROR ∧ v_holder v = None ∧ v_granted v = [] ∧ v_holder v' = Some cur) ∨
        (ret = ERR_TIMED_OUT ∧ timeout = 0 ∧ v' = v)
    | Switched => v_waiting v' = v_waiting v ++ [cur]
    end) y.
Proof.
  intros R Hl Hrun Hnh Hnin Hnt. pose proof (running_not_waiting _ _ _ _ _ R Hrun) as Hnw.
  destruct Hrun as [Hc (cth & Hcur & Hid)].
  apply wp_bind. eapply wp_deref; [by apply R|]. apply wp_bind, wp_assert; [done|].
  apply wp_bind, wp_lift. eapply wp_deref; [done|]. apply wp_bind, wp_assert; [by rw /= bool_decide_false|].
  apply wp_bind, wp_lift, wp_thread_lock; [done|]. apply wp_bind, wp_modify.
  destruct R as [Ik Hm Hw Hg Hx Hi]. destruct v as [h c w g x]. simpl in *. destruct Hi as [Hnd Hcnt Hex]. simpl in *.
  assert (kinv ∅ ∅ (set_thread_lock true (sk y))) as Ik' by kinv_frame.
  apply wp_if; intros Hc1; to_prop.
  - apply wp_bind, wp_lift. eapply wp_wait_queue_block; try done.
    + intros ->. apply wp_bind. eapply wp_acquire_timed_out; [by apply lookup_insert_eq|]. simpl. apply wp_ret.
      exists (MView h c w g x). split_and!; [constructor; simpl; lia| |by right].
      split; simpl; try done; [kinv_frame|rw insert_insert_eq lookup_insert_eq; do 2 f_equal; lia].
    + intros s1 s' Hto Ht1 Hw1 _ _ Hp I'. apply wp_ret.
      exists (MView h (c + 1) (w ++ [cur]) g x).
      assert (cur ∉ w ++ g ++ x) as Hnall by (rw elem_of_app; tauto).
      assert (∀ t err, t ∈ g ++ x → delivered (sk y) t err → delivered s' t err) as Hdel.
      { intros t err Hin. apply delivered_mono. eapply same_wait_trans; [|by eapply resched_same_wait].
        rw Ht1 /= lookup_alter_ne; [apply same_wait_refl|]. by intros <-. }
      split_and!; [constructor; [lia|done]| |done]. split; simpl; try done.
      * by rw lookup_insert_eq.
      * rw (rp_wait_queues _ _ _ _ Hp) Hw1 /= lookup_alter_eq Hw /= length_app Nat2Z.inj_add //.
      * intros t Hin. apply Hdel; [apply elem_of_app; auto|auto].
      * intros t Hin. apply Hdel; [apply elem_of_app; auto|auto].
      * eapply mstep_inv; [by apply (ms_block cur h c w g x); [lia|]|]. by split.
  - assert (c = 0 ∧ h = None ∧ g = []) as (-> & -> & ->) by (destruct h, g; simpl in *; try lia; split_and!; try done; lia).
    apply wp_bind. eapply wp_acquire_ok; [by apply lookup_insert_eq|done|]. simpl. apply wp_ret.
    exists (MView (Some cur) 1 w [] x). split_and!; [constructor| |by left].
    split; simpl; try done; [kinv_frame|by rw insert_insert_eq lookup_insert_eq|].
    eapply mstep_inv; [constructor|]. by split.
Qed.

(** When a thread that blocked in [mutex_acquire_timeout] runs again, it becomes
    the holder of a free mutex if a release handed it over, and backs out of the
    count and reports [ERR_TIMED_OUT] if its timeout expired. *)
Theorem mutex_acquire_resume_refines a v y cpu cur timeout :
  mutex_at a v y → running_on y cpu cur → cur ∈ v_granted v ++ v_expired v →
  (timeout ≠ INFINITE_TIME → ∃ tm, timers (sk y) !! StackTimer cur = Some tm ∧ tm_magic tm = TIMER_MAGIC) →
  wp (mutex_acquire_resume cpu a timeout) (λ r y', ∃ v', mstep v v' ∧ mutex_at a v' y' ∧
    ((cur ∈ v_granted v ∧ r = NO_ERROR ∧ v_holder v = None ∧ v_holder v' = Some cur) ∨
     (cur ∈ v_expired v ∧ r = ERR_TIMED_OUT ∧ v_holder v' = v_holder v ∧ v_count v' = v_count v - 1))) y.
Proof.
  intros R [Hc (cth & Hcur & Hid)] Hin Htm. apply wp_bind, wp_lift.
  eapply wp_wait_queue_block_resume; [apply R|done..|]. intros s' I' Et El Ew Ec _.
  assert (mutex_at a v (set_sk s' y)) as R'.
  { apply mutex_at_frame; [done..|by rw Ew|]. intros t _. rw Et. apply same_wait_refl. }
  pose proof (ma_inv _ _ _ R) as Hi. destruct R' as [Ik Hm Hw Hg Hx _]. destruct v as [h c w g x]. simpl in *.
  destruct (decide (cur ∈ g)) as [Hgin|Hgn].
  - destruct (Hg cur Hgin) as (th & Ht & Hr & _). rw Et in Ht. simplify_eq. rw Hr.
    assert (mstep (MView h c w g x) (MView (Some cur) c w (list_without cur g) x)) as Hs by by constructor.
    eapply wp_acquire_ok; [done|by rw /= Ec|]. eexists. split_and!; [exact Hs| |left].
    + split; simpl; try done; [kinv_frame|by rw lookup_insert_eq| |by eapply mstep_inv].
      intros t [_ Hin']%list_without_elem. by destruct (Hg t Hin') as (th & ? & ?); exists th.
    + split_and!; try done. destruct Hi as [_ _ He]. simpl in He. destruct h; [|done]. simpl in He.
      destruct g; [by apply not_elem_of_nil in Hgin|]. simpl in He. lia.
  - apply elem_of_app in Hin as [?|Hxin]; [done|].
    destruct (Hx cur Hxin) as (th & Ht & Hr & _). rw Et in Ht. simplify_eq. rw Hr.
    assert (mstep (MView h c w g x) (MView h (c - 1) w g (list_without cur x))) as Hs by by constructor.
    eapply wp_acquire_timed_out; [done|]. eexists. split_and!; [exact Hs| |by right].
    split; simpl; try done; [kinv_frame|by rw lookup_insert_eq| |by eapply mstep_inv].
    intros t [_ Hin']%list_without_elem. by destruct (Hx t Hin') as (th & ? & ?); exists th.
Qed.

(** C6: [mutex_release] frees the mutex and, when threads wait, hands it to the one
    that has waited longest: a thread that waits is never passed over. *)
Theorem mutex_release_refines a v y cpu cur :
  mutex_at a v y → thread_lock (sk y) = false → running_on y cpu cur → v_holder v = Some cur →
  wp (mutex_release cpu a) (λ r y', ∃ v', mstep v v' ∧ mutex_at a v' y' ∧ v_holder v' = None ∧
    match v_waiting v with
    | [] => r = Returned NO_ERROR ∧ v_granted v' = []
    | t :: rest => r = Switched ∧ v_granted v' = [t] ∧ v_waiting v' = rest ∧ delivered (sk y') t NO_ERROR
    end) y.
Proof.
  intros R Hl [Hc (cth & Hcur & Hid)] Hh.
  apply wp_bind. eapply wp_deref; [by apply R|]. apply wp_bind, wp_assert; [done|].
  apply wp_bind, wp_lift. eapply wp_deref; [done|]. apply wp_bind, wp_assert; [by rw /= bool_decide_true|].
  apply wp_bind, wp_lift, wp_thread_lock; [done|]. apply wp_bind, wp_modify.
  destruct R as [Ik Hm Hw Hg Hx Hi]. destruct v as [h c w g x]. simpl in *. subst h.
  pose proof Hi as [Hnd Hcnt Hex]. simpl in *. assert (g = []) as -> by (destruct g; [done|]; simpl in *; lia).
  assert (kinv ∅ ∅ (set_thread_lock true (sk y))) as Ik' by kinv_frame.
  assert (∀ y', (kinv ∅ ∅ (sk y') ∧ mutexes y' !! a = Some (Mutex MUTEX_MAGIC None (c - 1)) ∧
    wait_queues (sk y') = wait_queues (sk y) ∧ threads (sk y') = threads (sk y)) → w = [] →
    ∃ v', mstep (MView (Some cur) c w [] x) v' ∧ mutex_at a v' y' ∧ v_holder v' = None ∧ v_granted v' = []) as Hnone.
  { intros y' (Ik2 & Hm2 & Ew & Et) ->. exists (MView None (c - 1) [] [] x).
    assert (mstep (MView (Some cur) c [] [] x) (MView None (c - 1) [] [] x)) as Hs.
    { destruct (decide (c - 1 < 1)); [by constructor|]. pose proof (ms_handoff cur c [] [] x) as H. apply H. lia. }
    split_and!; [done| |done..]. split; simpl; try done.
    - by rw Ew.
    - by intros t []%not_elem_of_nil.
    - intros t Hin. destruct (Hx t Hin) as (th & ? & ?). exists th. by rw Et.
    - by eapply mstep_inv. }
  apply wp_if; intros Hc1; to_prop.
  - apply wp_bind, wp_lift. eapply wp_wait_queue_wake_one; [done..| |]; simpl.
    + intros ->. apply wp_bind, wp_lift, wp_modify, wp_ret.
      match goal with |- ∃ v', _ ∧ mutex_at a v' ?y' ∧ _ => destruct (Hnone y') as (v' & ? & ? & ? & ?) end; [|done|by exists v'].
      split_and!; [kinv_frame|by rw /= lookup_insert_eq|done..].
    + intros t rest s' -> Hw' Hwk Hl' I' _ Hsw. apply wp_ret.
      pose proof (ms_handoff cur c (t :: rest) [] x ltac:(lia)) as Hs. rw /grant /= in Hs.
      assert (delivered s' t NO_ERROR) as Hdt by (destruct Hwk as (th & ? & ? & ? & _); by exists th).
      eexists. split_and!; [exact Hs| |done..]. split; simpl; try done.
      * by rw lookup_insert_eq.
      * assert (Z.of_nat (length (t :: rest)) - 1 = Z.of_nat (length rest)) as En by (simpl; lia).
        by rw Hw' lookup_alter_eq Hw -En.
      * intros t' [->|[]%not_elem_of_nil]%elem_of_cons. done.
      * intros t' Hin. eapply delivered_mono; [apply Hsw|by apply Hx]. intros ->.
        apply NoDup_cons in Hnd as [[] _]. apply elem_of_app. auto.
      * by eapply mstep_inv.
  - apply wp_bind, wp_lift, wp_modify, wp_ret. assert (w = []) as Ew by (destruct w; [done|]; simpl in *; lia).
    match goal with |- ∃ v', _ ∧ mutex_at a v' ?y' ∧ _ => destruct (Hnone y') as (v' & ? & ? & ? & ?) end; [|done|].
    + split_and!; [kinv_frame|by rw /= lookup_insert_eq|done..].
    + by subst w; exists v'.
Qed.

(** The timeout of a thread that waits on an object. *)
Lemma wp_wait_timeout a y cpu t w (Q : _ → sync → Prop) :
  kinv ∅ ∅ (sk y) → thread_lock (sk y) = false →
  wait_queues (sk y) !! ObjWq a = Some (WaitQueue WAIT_QUEUE_MAGIC w (Z.of_nat (length w))) → t ∈ w →
  (∀ s', kinv ∅ ∅ s' →
    wait_queues s' !! ObjWq a =
      Some (WaitQueue WAIT_QUEUE_MAGIC (list_without t w) (Z.of_nat (length (list_without t w)))) →
    delivered s' t ERR_TIMED_OUT →
    (∀ t', t' ≠ t → option_Forall2 same_wait (threads (sk y) !! t') (threads s' !! t')) →
    Q INT_RESCHEDULE (set_sk s' y)) →
  wp (lift (wait_queue_timeout_handler cpu t)) Q y.
Proof.
  intros Ik Hl Hw Hin HQ. pose proof (qi_wq_nodup _ _ (k_queue _ _ _ Ik) _ _ Hw) as Hnd. simpl in Hnd.
  destruct (qi_blocked _ _ (k_queue _ _ _ Ik) _ _ _ Hw Hin) as (th & Ht & Hmag & Hb & Hbw & _).
  apply wp_lift, wp_bind. eapply wp_get_thread; [done|]. apply wp_bind, wp_assert; [by rw Hmag|].
  apply wp_bind, wp_thread_lock; [done|]. apply wp_bind.
  eapply wp_unblock_from_wait_queue; [kinv_frame|done..|by rw Hb|].
  intros w' wq ev _ Hbw' Hw' _ s' I'. assert (w' = ObjWq a) as -> by congruence.
  simpl in Hw'. rw Hw in Hw'. injection Hw' as <-. apply wp_bind, wp_modify, wp_ret, HQ.
  - kinv_frame.
  - by rw /= lookup_alter_eq Hw /= (list_without_length t w Hnd Hin).
  - exists (wake_with ERR_TIMED_OUT th). by rw /= lookup_alter_eq Ht.
  - intros t' Hne. rw /= lookup_alter_ne; [apply same_wait_refl|done].
Qed.

(** The timeout callback of a waiter takes exactly that thread off the mutex's
    queue, the others keeping their order, and leaves it [ERR_TIMED_OUT] to
    return; the holder and the count do not change until it runs. *)
Theorem mutex_timeout_refines a v y cpu t :
  mutex_at a v y → thread_lock (sk y) = false → t ∈ v_waiting v →
  wp (lift (wait_queue_timeout_handler cpu t)) (λ _ y', ∃ v', mstep v v' ∧ mutex_at a v' y' ∧
    v_expired v' = t :: v_expired v ∧ v_waiting v' = list_without t (v_waiting v) ∧
    v_holder v' = v_holder v ∧ v_count v' = v_count v) y.
Proof.
  intros R Hl Hin. destruct R as [Ik Hm Hw Hg Hx Hi]. destruct v as [h c w g x]. simpl in *.
  pose proof Hi as [Hnd Hcnt Hex]. simpl in *.
  assert (t ∉ g ++ x) as Hnin by (apply NoDup_app in Hnd as (_ & Hd & _); by apply Hd).
  eapply wp_wait_timeout; [done..|]. intros s' I' Hw' Ht Hsw.
  pose proof (ms_expire t h c w g x Hin Hnin) as Hs. eexists. split_and!; [exact Hs| |done..].
  assert (∀ t' err, t' ∈ g ++ x → delivered (sk y) t' err → delivered s' t' err) as Hdel.
  { intros t' err Hin'. apply delivered_mono, Hsw. by intros ->. }
  split; simpl; try done.
  - intros t' Hin'. apply Hdel; [apply elem_of_app; auto|auto].
  - intros t' [->|Hin']%elem_of_cons; [done|]. apply Hdel; [apply elem_of_app; auto|auto].
  - by eapply mstep_inv.
Qed.

(** ** Concrete instances *)

(** The mutex at address 5 free, held with a waiter, and handed over. *)
Definition k_free : kstate := run_from_boot (three_threads ++ [on0 (CallWqInit (ObjWq 5))]).

Definition k_waiter : kstate :=
  run_from_boot (three_threads ++ [on0 (CallWqInit (ObjWq 5)); on0 (CallBlock (ObjWq 5) 100)]).

Definition k_granted : kstate :=
  run_from_boot (three_threads ++ [on0 (CallWqInit (ObjWq 5)); on0 (CallBlock (ObjWq 5) 100);
    on0 (CallWakeOne (ObjWq 5) true NO_ERROR)]).

Definition v_waiter : mview := MView (Some (h 2)) 2 [h 3] [] [].

Definition v_handed : mview := MView None 1 [] [h 3] [].

Definition with_mutex (k : kstate) (v : mview) : sync :=
  Sync k {[ 5%positive := Mutex MUTEX_MAGIC (v_holder v) (v_count v) ]} ∅ ∅.

Lemma not_idle_check k t : not_idleb k t = true → not_idle k t.
Proof. apply not_idleb_spec. Qed.

Lemma mutex_free_at : mutex_at 5 v_init (with_mutex k_free v_init).
Proof.
  split; [|by vm_compute|by vm_compute|by intros ? []%not_elem_of_nil|by intros ? []%not_elem_of_nil|apply minv_init].
  apply (run_from_boot_inv (three_threads ++ [on0 (CallWqInit (ObjWq 5))])). by vm_compute.
Qed.

Lemma k_waiter_inv : kinv ∅ ∅ k_waiter ∧ thread_lock k_waiter = false.
Proof. apply run_from_boot_inv. by vm_compute. Qed.

Lemma mutex_waiter_at : mutex_at 5 v_waiter (with_mutex k_waiter v_waiter).
Proof.
  split; [apply k_waiter_inv|by vm_compute|by vm_compute|by intros ? []%not_elem_of_nil|by intros ? []%not_elem_of_nil|].
  split; [apply NoDup_singleton|done..].
Qed.

Lemma mutex_granted_at : mutex_at 5 v_handed (with_mutex k_granted v_handed).
Proof.
  split; [|by vm_compute|by vm_compute| |by intros ? []%not_elem_of_nil|].
  - apply run_from_boot_inv. by vm_compute.
  - intros t [->|[]%not_elem_of_nil]%elem_of_cons. eexists. split; [vm_compute; reflexivity|done].
  - split; [apply NoDup_singleton|done..].
Qed.

Lemma mutex_acquire_refines_witness :
  wp (mutex_acquire_timeout 0 5 INFINITE_TIME) (λ r _, r = Switched ∨ r = Returned NO_ERROR ∨ r = Returned ERR_TIMED_OUT)
    (with_mutex k_free v_init).
Proof.
  eapply wp_mono; [eapply (mutex_acquire_refines 5 v_init (with_mutex k_free v_init) 0 (h 3) INFINITE_TIME)|].
  - apply mutex_free_at.
  - by vm_compute.
  - split; [by vm_compute|]. apply not_idle_check. by vm_compute.
  - done.
  - apply not_elem_of_nil.
  - apply timer_free. by vm_compute.
  - intros [r|] y' (v' & _ & _ & Hr); [|by left]. right. destruct Hr as [(-> & _)|(-> & _)]; auto.
Defined.

Lemma mutex_acquire_resume_refines_witness :
  wp (mutex_acquire_resume 0 5 100) (λ r _, r = NO_ERROR) (with_mutex k_granted v_handed).
Proof.
  eapply wp_mono; [eapply (mutex_acquire_resume_refines 5 v_handed (with_mutex k_granted v_handed) 0 (h 3) 100)|].
  - apply mutex_granted_at.
  - split; [by vm_compute|]. apply not_idle_check. by vm_compute.
  - apply elem_of_cons. by left.
  - intros _. eexists. split; [vm_compute; reflexivity|done].
  - intros r y' (v' & _ & _ & [(_ & Hr & _)|(Hx & _)]); [done|]. by apply not_elem_of_nil in Hx.
Defined.

Lemma mutex_release_refines_witness :
  wp (mutex_release 0 5) (λ r y', r = Switched ∧ delivered (sk y') (h 3) NO_ERROR) (with_mutex k_waiter v_waiter).
Proof.
  eapply wp_mono; [eapply (mutex_release_refines 5 v_waiter (with_mutex k_waiter v_waiter) 0 (h 2))|].
  - apply mutex_waiter_at.
  - apply k_waiter_inv.
  - split; [by vm_compute|]. apply not_idle_check. by vm_compute.
  - done.
  - intros r y' (v' & _ & _ & _ & Hr & _ & _ & Hd). done.
Defined.

Lemma mutex_timeout_refines_witness :
  wp (lift (wait_queue_timeout_handler 0 (h 3))) (λ _ y', delivered (sk y') (h 3) ERR_TIMED_OUT)
    (with_mutex k_waiter v_waiter).
Proof.
  eapply wp_mono; [eapply (mutex_timeout_refines 5 v_waiter (with_mutex k_waiter v_waiter) 0 (h 3))|].
  - apply mutex_waiter_at.
  - apply k_waiter_inv.
  - apply elem_of_cons. by left.
  - intros r y' (v' & _ & R & Hx & _). apply (ma_expired _ _ _ R). rw Hx. apply elem_of_cons. by left.
Defined.
