(* ===== verification/SemSpec.v ===== *)
(** * Semaphores: what a post and a wait do to the units

    [sstep] is an abstract semaphore: the count, the threads that wait, and the
    threads whose wait timed out but that have not run yet.  A unit is either
    counted or handed to the waiter that a post wakes; [units] is their number.
    The functions of [semaphore.c] (in [Sync]) are shown to take its steps. *)

From S2P Require Import Prelude Kernel Timer Thread SchedInv KernelInv SchedOps ThreadLife System SchedRun Sync MutexSpec.

(** ** The abstract semaphore *)

Record sview := SView {
  s_count : Z;
  s_waiting : list thread_ptr;
  s_expired : list thread_ptr   (** timed out, not running yet *)
}.

Definition units (v : sview) : Z :=
  s_count v + Z.of_nat (length (s_waiting v)) + Z.of_nat (length (s_expired v)).

Inductive sstep : sview → sview → Prop :=
| ss_wake t c w x : c + 1 ≤ 0 → sstep (SView c (t :: w) x) (SView (c + 1) w x)
| ss_post c w x : 0 < c + 1 ∨ w = [] → sstep (SView c w x) (SView (c + 1) w x)
| ss_take c w x : 0 < c → sstep (SView c w x) (SView (c - 1) w x)
| ss_block t c w x : c ≤ 0 → t ∉ w ++ x → sstep (SView c w x) (SView (c - 1) (w ++ [t]) x)
| ss_refuse v : s_count v ≤ 0 → sstep v v
| ss_expire t c w x : t ∈ w → t ∉ x → sstep (SView c w x) (SView c (list_without t w) (t :: x))
| ss_backout t c w x : t ∈ x → sstep (SView c w x) (SView (c + 1) w (list_without t x)).

Record sinv (v : sview) : Prop := {
  si_nodup : NoDup (s_waiting v ++ s_expired v);
  si_units : 0 ≤ units v
}.

(** No thread waits while a unit is to be had. *)
Definition prompt (v : sview) : Prop := s_waiting v ≠ [] → units v = 0.

Lemma sstep_inv v v' : sstep v v' → sinv v → sinv v'.
Proof.
  intros Hstep [Hnd Hu]. destruct Hstep as [t c w x Hc|c w x Hc|c w x Hc|t c w x Hc Hn|v Hc|t c w x Hin Hn|t c w x Hin];
    rw /units /= in Hu; simpl in Hnd.
  - split; rw /units /=; [|lia]. by apply NoDup_cons in Hnd as [_ ?].
  - split; rw /units /=; [done|lia].
  - split; rw /units /=; [done|lia].
  - split; rw /units /= ?length_app /=; [|lia].
    eapply (nodup_part (t :: w ++ x) _ []); [by apply NoDup_cons|]. rw app_nil_r. solve_Permutation.
  - by split.
  - apply NoDup_app in Hnd as HH. destruct HH as (Hw & _ & _).
    pose proof (list_without_perm t w Hw Hin) as HP. pose proof (list_without_length t w Hw Hin).
    split; rw /units /=; [|lia]. eapply (nodup_part _ _ []); [exact Hnd|]. rw app_nil_r -{1}HP. solve_Permutation.
  - apply NoDup_app in Hnd as HH. destruct HH as (_ & _ & Hx).
    pose proof (list_without_perm t x Hx Hin) as HP. pose proof (list_without_length t x Hx Hin).
    split; rw /units /=; [|lia]. eapply (nodup_part _ _ [t]); [exact Hnd|]. rw -{1}HP. solve_Permutation.
Qed.

(** Every step keeps a prompt semaphore prompt, but for a thread that blocks
    before a waiter that timed out has run. *)
Lemma sstep_prompt v v' : sstep v v' → sinv v → prompt v → s_expired v = [] → prompt v'.
Proof.
  intros Hstep [Hnd Hu] Hp Hx. destruct Hstep as [t c w x Hc|c w x Hc|c w x Hc|t c w x Hc Hn|v Hc|t c w x Hin Hn|t c w x Hin];
    rw /prompt /units /= in Hu Hp Hx |- *; try (subst x; simpl in *).
  - intros Hw. assert (t :: w ≠ []) as Hw' by done. specialize (Hp Hw'). lia.
  - intros Hw. specialize (Hp Hw). destruct Hc as [Hc|?]; [|done]. destruct w; [done|]. simpl in *. lia.
  - intros Hw. specialize (Hp Hw). lia.
  - intros _. rw length_app /=. destruct w; simpl in *; [lia|]. assert (t0 :: w ≠ []) as Hw' by done. specialize (Hp Hw'). lia.
  - exact Hp.
  - intros _. rw app_nil_r in Hnd. pose proof (list_without_length t w Hnd Hin). destruct w as [|t' w]; [by apply not_elem_of_nil in Hin|].
    assert (t' :: w ≠ []) as Hw' by done. specialize (Hp Hw'). simpl in *. lia.
  - by apply not_elem_of_nil in Hin.
Qed.

(** ** Refinement *)

(** The semaphore at [a] is in abstract state [v]. *)
Record sem_at (a : positive) (v : sview) (y : sync) : Prop := {
  sa_kinv : kinv ∅ ∅ (sk y);
  sa_sem : semaphores y !! a = Some (Semaphore SEMAPHORE_MAGIC (s_count v));
  sa_wait : wait_queues (sk y) !! ObjWq a =
    Some (WaitQueue WAIT_QUEUE_MAGIC (s_waiting v) (Z.of_nat (length (s_waiting v))));
  sa_expired t : t ∈ s_expired v → delivered (sk y) t ERR_TIMED_OUT;
  sa_inv : sinv v
}.

Lemma sem_running a v y cpu cur : sem_at a v y → current (sk y) !! cpu = Some cur → cur ∉ s_waiting v.
Proof.
  intros R Hc Hin. destruct (kinv_current _ _ _ _ _ (sa_kinv _ _ _ R) Hc) as (cth & ? & ? & _); [set_solver|].
  destruct (qi_blocked _ _ (k_queue _ _ _ (sa_kinv _ _ _ R)) _ _ _ (sa_wait _ _ _ R) Hin) as (? & ? & _ & ? & _).
  congruence.
Qed.

(** The semaphore follows a step when the kernel state keeps the stored results. *)
Lemma sem_at_step a v v' y y' :
  sem_at a v y → sstep v v' → kinv ∅ ∅ (sk y') →
  semaphores y' !! a = Some (Semaphore SEMAPHORE_MAGIC (s_count v')) →
  wait_queues (sk y') !! ObjWq a =
    Some (WaitQueue WAIT_QUEUE_MAGIC (s_waiting v') (Z.of_nat (length (s_waiting v')))) →
  (∀ t, t ∈ s_expired v' → t ∈ s_expired v ∧
     option_Forall2 same_wait (threads (sk y) !! t) (threads (sk y') !! t)) →
  sem_at a v' y'.
Proof.
  intros [_ _ _ Hx Hi] Hs Ik Hm Hw Ht. split; try done; [|by eapply sstep_inv].
  intros t [Hin Hsw]%Ht. eapply delivered_mono; [done|auto].
Qed.

(** What a thread that asks for a unit gets: the unit, [err] where that is
    allowed, or a place behind the waiters. *)
Definition asked (a : positive) (v : sview) (cur : thread_ptr) (fails : Prop) (err : Z) (r : call Z) (y' : sync) : Prop :=
  ∃ v', sstep v v' ∧ sem_at a v' y' ∧
  match r with
  | Returned ret =>
      (ret = NO_ERROR ∧ 0 < s_count v ∧ units v' = units v - 1) ∨ (fails ∧ ret = err ∧ s_count v ≤ 0 ∧ v' = v)
  | Switched => s_count v ≤ 0 ∧ s_waiting v' = s_waiting v ++ [cur] ∧ units v' = units v
  end.

(** The unit is there. *)
Lemma asked_take a v y y' cur fails err :
  sem_at a v y → 0 < s_count v → semaphores y' = <[a := Semaphore SEMAPHORE_MAGIC (s_count v - 1)]> (semaphores y) →
  sk y' = set_thread_lock false (sk y) → asked a v cur fails err (Returned NO_ERROR) y'.
Proof.
  intros R Hc Em Ek. destruct v as [c w x]. simpl in *. exists (SView (c - 1) w x).
  assert (sstep (SView c w x) (SView (c - 1) w x)) as Hs by by constructor.
  split_and!; [done| |left; split_and!; [done..|rw /units /=; lia]].
  pose proof R as [Ik Hm Hw Hx Hi]. eapply sem_at_step; [exact R|done|rw Ek; kinv_frame|by rw Em /= lookup_insert_eq|by rw Ek|].
  intros t Hin. split; [done|]. rw Ek. apply same_wait_refl.
Qed.

(** The caller blocks. *)
Lemma wp_sem_block a v y cpu cur timeout (Q : call Z → kstate → Prop) :
  sem_at a v y → running_on y cpu cur → thread_lock (sk y) = false → cur ∉ s_expired v → s_count v ≤ 0 →
  ¬ timer_queued (sk y) (StackTimer cur) →
  (timeout = 0 → Q (Returned ERR_TIMED_OUT) (set_thread_lock true (sk y))) →
  (∀ s', asked a v cur False 0 Switched
     (set_semaphores (<[a := Semaphore SEMAPHORE_MAGIC (s_count v - 1)]> (semaphores y)) (set_sk s' y)) → Q Switched s') →
  wp (wait_queue_block cpu (ObjWq a) timeout) Q (set_thread_lock true (sk y)).
Proof.
  intros R [Hc (cth & Hcur & Hid)] Hl Hnx Hcnt Hnt HQ0 HQ. pose proof R as [Ik Hm Hw Hx Hi].
  eapply (wp_wait_queue_block _ _ cur); try done; [kinv_frame|].
  intros s1 s' Hto Ht1 Hw1 _ _ Hp I'. apply HQ. destruct v as [c w x]. simpl in *.
  exists (SView (c - 1) (w ++ [cur]) x).
  assert (sstep (SView c w x) (SView (c - 1) (w ++ [cur]) x)) as Hs.
  { constructor; [done|]. rw elem_of_app. intros [?|?]; [|done]. by eapply (sem_running a (SView c w x)). }
  split_and!; [done| |done|done|rw /units /= length_app /=; lia].
  eapply sem_at_step; [exact R|done|done|by rw /= lookup_insert_eq| |].
  - rw /= (rp_wait_queues _ _ _ _ Hp) Hw1 /= lookup_alter_eq Hw /= length_app Nat2Z.inj_add //.
  - intros t Hin. split; [done|]. eapply same_wait_trans; [|by eapply resched_same_wait].
    rw Ht1 /= lookup_alter_ne; [apply same_wait_refl|]. by intros <-.
Qed.

(** The three ways to ask for a unit.  [sem_wait], [sem_timedwait] and
    [sem_trywait] return [NO_ERROR] exactly by taking one counted unit; without
    one, [sem_trywait] and a [sem_timedwait] of no time report it and leave the
    semaphore as it was, and the others queue the caller behind the threads
    already waiting, no unit lost.  Unless a timed out waiter has yet to run, no
    thread then waits while a unit is to be had. *)
Theorem sem_wait_refines a v y cpu cur timeout :
  sem_at a v y → thread_lock (sk y) = false → running_on y cpu cur → cur ∉ s_expired v →
  ¬ timer_queued (sk y) (StackTimer cur) →
  wp (sem_wait cpu a) (asked a v cur False 0) y ∧
  wp (sem_timedwait cpu a timeout) (asked a v cur (timeout = 0) ERR_TIMED_OUT) y ∧
  wp (sem_trywait a) (λ ret, asked a v cur True ERR_NOT_READY (Returned ret)) y ∧
  (∀ v', sstep v v' → prompt v → s_expired v = [] → prompt v').
Proof.
  intros R Hl Hrun Hnx Hnt. pose proof R as [Ik Hm Hw Hx Hi]. split_and!.
  - apply wp_bind, wp_lift, wp_thread_lock; [done|]. apply wp_bind. eapply wp_deref; [done|].
    apply wp_bind, wp_modify. apply wp_if; intros Hc; to_prop; simpl in Hc.
    + apply wp_bind, wp_lift. eapply wp_sem_block; [done|done|done|done|lia|done|done|]. intros s' Hs. by apply wp_ret.
    + apply wp_bind, wp_lift, wp_modify, wp_ret. eapply asked_take; [done|lia|done|done].
  - apply wp_bind, wp_lift, wp_thread_lock; [done|]. apply wp_bind. eapply wp_deref; [done|].
    apply wp_bind, wp_modify. apply wp_if; intros Hc; to_prop; simpl in Hc.
    + apply wp_bind, wp_lift. eapply wp_sem_block; [done|done|done|done|lia|done| |].
      * intros ->. apply wp_bind, wp_bind. simpl. apply wp_bind. eapply wp_deref; [by apply lookup_insert_eq|].
        apply wp_bind, wp_assert; [simpl; apply Z.ltb_lt; lia|]. apply wp_modify, wp_bind, wp_lift, wp_modify, wp_ret, wp_ret.
        exists v. split_and!; [constructor; lia| |right; split_and!; [done..|lia|done]].
        split; simpl; try done; [kinv_frame|rw lookup_insert_eq; do 2 f_equal; lia].
      * intros s' Hs. by apply wp_ret.
    + apply wp_bind, wp_lift, wp_modify, wp_ret. eapply asked_take; [done|lia|done|done].
  - apply wp_bind, wp_lift, wp_thread_lock; [done|]. apply wp_bind. eapply wp_deref; [done|].
    apply wp_if; intros Hc; to_prop; simpl in Hc.
    + apply wp_bind, wp_lift, wp_modify, wp_ret. exists v. split_and!; [by constructor| |by right].
      split; simpl; try done. kinv_frame.
    + apply wp_bind, wp_modify, wp_bind, wp_lift, wp_modify, wp_ret. eapply asked_take; [done|lia|done|done].
  - intros v' Hs. by eapply sstep_prompt.
Qed.

(** C20: [sem_post] adds one unit.  When a thread waits and none has been left
    waiting beside a unit, the unit goes to the thread that has waited longest,
    which is taken off the queue with [NO_ERROR] to return; otherwise it is
    counted. *)
Theorem sem_post_refines a v y cpu cur resched :
  sem_at a v y → thread_lock (sk y) = false → running_on y cpu cur → s_count v < 2 ^ 31 - 1 →
  wp (sem_post cpu a resched) (λ r y', ∃ v', sstep v v' ∧ sem_at a v' y' ∧
    ((r = Returned 0 ∧ s_waiting v' = s_waiting v ∧ units v' = units v + 1 ∧ (prompt v → s_waiting v = [])) ∨
     (∃ t, s_waiting v = t :: s_waiting v' ∧ delivered (sk y') t NO_ERROR ∧ units v' = units v ∧
        r = if resched then Switched else Returned 1))) y.
Proof.
  intros R Hl [Hc (cth & Hcur & Hid)] Hmax. pose proof R as [Ik Hm Hw Hx Hi].
  assert (kinv ∅ ∅ (set_thread_lock true (sk y))) as Ik' by kinv_frame.
  destruct v as [c w x]. simpl in *. apply wp_bind, wp_lift, wp_thread_lock; [done|]. apply wp_bind. eapply wp_deref; [done|].
  apply wp_bind, wp_bind, wp_assert; [by apply Z.ltb_lt|]. apply wp_modify. apply wp_if; intros Hc1; to_prop; simpl in Hc1.
  - apply wp_bind, wp_lift. eapply wp_wait_queue_wake_one; [done..| |]; simpl.
    + intros ->. rw andb_false_r. apply wp_bind, wp_lift, wp_modify, wp_ret. exists (SView (c + 1) [] x).
      split_and!; [apply ss_post; by right| |left; split_and!; [done..|rw /units /=; lia|done]].
      eapply sem_at_step; [exact R|apply ss_post; by right|simpl; kinv_frame|by rw /= lookup_insert_eq|done|].
      intros t Hin. split; [done|apply same_wait_refl].
    + intros t rest s' -> Hw' Hwk Hl' I' _ Hsw. rw andb_true_r.
      match goal with |- wp _ _ ?y' => assert (sem_at a (SView (c + 1) rest x) y') as R' end.
      { eapply sem_at_step; [exact R|by constructor|done|by rw /= lookup_insert_eq| |].
        - assert (Z.of_nat (length (t :: rest)) - 1 = Z.of_nat (length rest)) as En by (simpl; lia).
          by rw /= Hw' lookup_alter_eq Hw -En.
        - intros t' Hin. split; [done|]. apply Hsw. intros ->. destruct Hi as [Hnd _].
          apply NoDup_cons in Hnd as [[] _]. apply elem_of_app. auto. }
      assert (delivered s' t NO_ERROR) as Hdt by (destruct Hwk as (th & ? & ? & ? & _); by exists th).
      destruct resched.
      * apply wp_ret. eexists. split_and!; [by constructor|exact R'|right]. exists t.
        split_and!; [done..|rw /units /=; lia|done].
      * apply wp_bind, wp_lift, wp_modify, wp_ret. eexists. split_and!; [by constructor| |right].
        -- destruct R'. split; simpl in *; try done. kinv_frame.
        -- exists t. split_and!; [done..|rw /units /=; lia|done].
  - apply wp_bind, wp_lift, wp_modify, wp_ret. exists (SView (c + 1) w x).
    assert (sstep (SView c w x) (SView (c + 1) w x)) as Hs by (apply ss_post; left; lia).
    split_and!; [done| |left; split_and!; [done..|rw /units /=; lia|]].
    + eapply sem_at_step; [exact R|done|simpl; kinv_frame|by rw /= lookup_insert_eq|done|].
      intros t Hin. split; [done|apply same_wait_refl].
    + rw /prompt /units /=. destruct w as [|t w]; [done|]. intros H. assert (t :: w ≠ []) as Hw' by done.
      specialize (H Hw'). simpl in H. lia.
Qed.

(** When a thread that blocked on a semaphore runs again, it returns
    [NO_ERROR] with the unit the post handed to it if a post woke it; if its time
    was up it returns [ERR_TIMED_OUT] and its request leaves the count, no unit
    gained or lost. *)
Theorem sem_timedwait_resume_refines a v y cpu cur timeout :
  sem_at a v y → running_on y cpu cur → s_count v < 2 ^ 31 - 1 →
  (cur ∉ s_expired v → delivered (sk y) cur NO_ERROR) →
  (timeout ≠ INFINITE_TIME → ∃ tm, timers (sk y) !! StackTimer cur = Some tm ∧ tm_magic tm = TIMER_MAGIC) →
  wp (sem_timedwait_resume cpu a timeout) (λ r y', ∃ v', sem_at a v' y' ∧ units v' = units v ∧
    ((cur ∉ s_expired v ∧ r = NO_ERROR ∧ v' = v) ∨
     (cur ∈ s_expired v ∧ r = ERR_TIMED_OUT ∧ sstep v v' ∧ s_expired v' = list_without cur (s_expired v)))) y.
Proof.
  intros R [Hc (cth & Hcur & Hid)] Hmax Hok Htm. pose proof R as [Ik Hm Hw Hx Hi]. apply wp_bind, wp_lift.
  eapply wp_wait_queue_block_resume; [apply R|done..|]. intros s' I' Et El Ew Ec _.
  destruct v as [c w x]. simpl in *. destruct (decide (cur ∈ x)) as [Hin|Hn].
  - destruct (Hx cur Hin) as (th & Ht & Hr & _). simplify_eq. rw Hr. apply wp_bind. simpl. apply wp_bind.
    eapply wp_deref; [done|]. apply wp_bind, wp_assert; [by apply Z.ltb_lt|].
    apply wp_modify, wp_bind, wp_lift, wp_modify, wp_ret. exists (SView (c + 1) w (list_without cur x)).
    assert (sstep (SView c w x) (SView (c + 1) w (list_without cur x))) as Hs by by constructor.
    destruct Hi as [Hnd _]. apply NoDup_app in Hnd as (_ & _ & Hndx).
    split_and!; [|rw /units /= (list_without_length cur x Hndx Hin); lia|by right].
    eapply sem_at_step; [exact R|done|simpl; kinv_frame|by rw /= lookup_insert_eq|by rw /= Ew|].
    intros t [_ Ht']%list_without_elem. split; [done|]. rw /= Et. apply same_wait_refl.
  - destruct (Hok Hn) as (th & Ht & Hr & _). simplify_eq. rw Hr. apply wp_bind, wp_ret, wp_bind, wp_lift, wp_modify, wp_ret.
    exists (SView c w x). split_and!; [|done|by left]. split; simpl; try done; [kinv_frame|by rw Ew|].
    intros t Ht'. destruct (Hx t Ht') as (th' & ? & ?). exists th'. by rw /= Et.
Qed.

(** ** Concrete instances *)

(** The semaphore at address 5 with the waiters of the mutex examples. *)
Definition with_sem (k : kstate) (v : sview) : sync :=
  Sync k ∅ {[ 5%positive := Semaphore SEMAPHORE_MAGIC (s_count v) ]} ∅.

Lemma k_free_inv : kinv ∅ ∅ k_free ∧ thread_lock k_free = false.
Proof. apply run_from_boot_inv. by vm_compute. Qed.

Lemma sem_free_at : sem_at 5 (SView 1 [] []) (with_sem k_free (SView 1 [] [])).
Proof.
  split; [apply k_free_inv|by vm_compute|by vm_compute|by intros ? []%not_elem_of_nil|]. split; [constructor|done].
Qed.

Lemma sem_waiter_at : sem_at 5 (SView (-1) [h 3] []) (with_sem k_waiter (SView (-1) [h 3] [])).
Proof.
  split; [apply k_waiter_inv|by vm_compute|by vm_compute|by intros ? []%not_elem_of_nil|].
  split; [apply NoDup_singleton|done].
Qed.

Lemma sem_granted_at : sem_at 5 (SView 0 [] []) (with_sem k_granted (SView 0 [] [])).
Proof.
  split; [apply mutex_granted_at|by vm_compute|by vm_compute|by intros ? []%not_elem_of_nil|]. split; [constructor|done].
Qed.

Lemma sem_wait_refines_witness :
  wp (sem_wait 0 5) (asked 5 (SView 1 [] []) (h 3) False 0) (with_sem k_free (SView 1 [] [])).
Proof.
  refine (proj1 (sem_wait_refines 5 (SView 1 [] []) (with_sem k_free (SView 1 [] [])) 0 (h 3) 0 sem_free_at _ _ _ _)).
  - apply k_free_inv.
  - split; [by vm_compute|]. apply not_idle_check. by vm_compute.
  - apply not_elem_of_nil.
  - apply timer_free. by vm_compute.
Defined.

Lemma sem_post_refines_witness :
  wp (sem_post 0 5 true) (λ r y', r = Switched ∧ delivered (sk y') (h 3) NO_ERROR) (with_sem k_waiter (SView (-1) [h 3] [])).
Proof.
  eapply wp_mono; [eapply (sem_post_refines 5 (SView (-1) [h 3] []) (with_sem k_waiter (SView (-1) [h 3] [])) 0 (h 2) true)|].
  - apply sem_waiter_at.
  - apply k_waiter_inv.
  - split; [by vm_compute|]. apply not_idle_check. by vm_compute.
  - done.
  - intros r y' (v' & _ & _ & [(_ & _ & _ & Hp)|(t & [= <- _] & Hd & _ & ->)]); [|done]. by discriminate Hp.
Defined.

Lemma sem_timedwait_resume_refines_witness :
  wp (sem_timedwait_resume 0 5 100) (λ r _, r = NO_ERROR) (with_sem k_granted (SView 0 [] [])).
Proof.
  eapply wp_mono; [eapply (sem_timedwait_resume_refines 5 (SView 0 [] []) (with_sem k_granted (SView 0 [] [])) 0 (h 3) 100)|].
  - apply sem_granted_at.
  - split; [by vm_compute|]. apply not_idle_check. by vm_compute.
  - done.
  - intros _. eexists. split; [vm_compute; reflexivity|done].
  - intros _. eexists. split; [vm_compute; reflexivity|done].
  - intros r y' (v' & _ & _ & [(_ & Hr & _)|(Hx & _)]); [done|]. by apply not_elem_of_nil in Hx.
Defined.
