(* ===== verification/EventSpec.v ===== *)
(** * Events, and interleavings the synchronisation code does not handle

    What [event.c] (in [Sync]) promises: a thread never waits on a signaled
    event, a signal with [EVENT_FLAG_AUTOUNSIGNAL] releases one thread exactly,
    now or later, and a signal without it releases every waiter.

    Then runs of the model, evaluated from boot, that end in a state the code does
    not mean to reach: a waiter whose timeout fires before a release leaves its
    request in the count until it runs, and a thread made real time while it
    runs on another cpu keeps that cpu's preemption timer. *)

From S2P Require Import Prelude Kernel Timer Thread SchedInv KernelInv SchedOps ThreadLife System SchedRun Sync MutexSpec.

(** The event at [a], its flags, whether it is signaled and who waits. *)
Record event_at (a : positive) (sg : bool) (fl : Z) (w : list thread_ptr) (y : sync) : Prop := {
  ea_kinv : kinv ∅ ∅ (sk y);
  ea_event : evts y !! a = Some (Event EVENT_MAGIC sg fl);
  ea_wait : wait_queues (sk y) !! ObjWq a = Some (WaitQueue WAIT_QUEUE_MAGIC w (Z.of_nat (length w)));
  ea_idle : sg = true → w = []
}.

Definition is_auto (fl : Z) : bool := Z.odd fl.

Lemma autounsignal_odd m sg fl : autounsignal (Event m sg fl) = is_auto fl.
Proof.
  rw /autounsignal /is_auto /EVENT_FLAG_AUTOUNSIGNAL /= (Z.land_ones fl 1) //= Zmod_odd. by destruct (Z.odd fl).
Qed.

Lemma wp_event_wait a sg fl w y cpu cur timeout :
  event_at a sg fl w y → thread_lock (sk y) = false → running_on y cpu cur →
  ¬ timer_queued (sk y) (StackTimer cur) →
  wp (event_wait_timeout cpu a timeout) (λ r y',
    match r with
    | Returned ret =>
        ((sg = true ∧ ret = NO_ERROR ∧ event_at a (negb (is_auto fl)) fl w y') ∨
         (sg = false ∧ timeout = 0 ∧ ret = ERR_TIMED_OUT ∧ event_at a sg fl w y')) ∧
        thread_lock (sk y') = false ∧ current (sk y') = current (sk y)
    | Switched => sg = false ∧ timeout ≠ 0 ∧ event_at a sg fl (w ++ [cur]) y'
    end) y.
Proof.
  intros R Hl [Hc (cth & Hcur & Hid)] Hnt. pose proof R as [Ik He Hw Hi].
  apply wp_bind. eapply wp_deref; [done|]. apply wp_bind, wp_assert; [done|].
  apply wp_bind, wp_lift, wp_thread_lock; [done|]. apply wp_if; simpl; intros Hs; to_prop.
  - apply wp_bind. rw autounsignal_odd. apply wp_when; intros Ha.
    + apply wp_modify, wp_bind, wp_lift, wp_modify, wp_ret. split; [left|done]. split_and!; [done..|]. rw Ha.
      split; simpl; [kinv_frame|by rw lookup_insert_eq|done|done].
    + apply wp_bind, wp_lift, wp_modify, wp_ret. split; [left|done]. split_and!; [done..|]. rw Ha.
      split; simpl; [kinv_frame|by rw He Hs|done|auto].
  - apply wp_bind, wp_lift. eapply (wp_wait_queue_block _ _ cur); try done; [kinv_frame| |].
    + intros ->. apply wp_bind, wp_lift, wp_modify, wp_ret. split; [right|done]. split_and!; [done..|]. split; simpl; try done. kinv_frame.
    + intros s1 s' Hto Ht1 Hw1 _ _ Hp I'. apply wp_ret. split_and!; [done..|]. split; simpl; try done; [|by rw Hs].
      rw (rp_wait_queues _ _ _ _ Hp) Hw1 /= lookup_alter_eq Hw /= length_app Nat2Z.inj_add //.
Qed.

(** What [event_signal] leaves behind. *)
Definition signal_result (a : positive) (sg : bool) (fl : Z) (w : list thread_ptr) (reschedule : bool)
    (r : call Z) (y' : sync) : Prop :=
  match sg, is_auto fl, w with
  | true, _, _ => r = Returned NO_ERROR ∧ event_at a true fl w y'
  | false, true, t :: rest =>
      r = (if reschedule then Switched else Returned NO_ERROR) ∧
      event_at a false fl rest y' ∧ delivered (sk y') t NO_ERROR
  | false, _, [] => r = Returned NO_ERROR ∧ event_at a true fl [] y'
  | false, false, _ =>
      r = (if reschedule then Switched else Returned NO_ERROR) ∧
      event_at a true fl [] y' ∧ ∀ t, t ∈ w → delivered (sk y') t NO_ERROR
  end.

Lemma wp_event_signal a sg fl w y cpu cur reschedule :
  event_at a sg fl w y → thread_lock (sk y) = false → running_on y cpu cur →
  wp (event_signal cpu a reschedule) (λ r y',
    signal_result a sg fl w reschedule r y' ∧
    (reschedule = false → thread_lock (sk y') = false ∧ current (sk y') = current (sk y))) y.
Proof.
  intros R Hl [Hc (cth & Hcur & Hid)]. pose proof R as [Ik He Hw Hi].
  assert (kinv ∅ ∅ (set_thread_lock true (sk y))) as Ik' by kinv_frame. rw /signal_result.
  apply wp_bind. eapply wp_deref; [done|]. apply wp_bind, wp_assert; [done|].
  apply wp_bind, wp_lift, wp_thread_lock; [done|]. destruct sg; simpl.
  { apply wp_bind, wp_lift, wp_modify, wp_ret. split_and!; [done| |done]. split; simpl; try done. kinv_frame. }
  rw autounsignal_odd. destruct (is_auto fl) eqn:Ha.
  - apply wp_bind, wp_lift. eapply wp_wait_queue_wake_one; [done..| |]; simpl.
    + intros ->. apply wp_bind, wp_modify, wp_bind, wp_lift, wp_modify, wp_ret. split_and!; [done| |done].
      split; simpl; [kinv_frame|by rw lookup_insert_eq|done|done].
    + intros t rest s' -> Hw' Hwk Hl' I' Hcu _.
      assert (delivered s' t NO_ERROR) as Hd by (destruct Hwk as (th & ? & ? & ? & _); by exists th).
      assert (event_at a false fl rest (set_sk s' y)) as R'.
      { assert (Z.of_nat (length (t :: rest)) - 1 = Z.of_nat (length rest)) as En by (simpl; lia).
        split; simpl; try done. by rw Hw' lookup_alter_eq Hw -En. }
      destruct reschedule; [by apply wp_ret|]. apply wp_bind, wp_lift, wp_modify, wp_ret. split_and!; [done| |done|].
      * destruct R'. split; simpl in *; try done. kinv_frame.
      * intros _. split; [done|]. by apply Hcu.
  - apply wp_bind, wp_modify, wp_bind, wp_lift. eapply wp_wait_queue_wake_all; [done..|]. simpl.
    intros s' I' Hl' _ Hw' Hwk Hcu.
    assert (∀ t, t ∈ w → delivered s' t NO_ERROR) as Hd by (intros t Ht; destruct (Hwk t Ht) as (th & ? & ? & ? & _); by exists th).
    assert (∀ y', sk y' = s' ∨ sk y' = set_thread_lock false s' → evts y' = <[a := Event EVENT_MAGIC true fl]> (evts y) →
      event_at a true fl [] y') as R'.
    { intros y' Ek Ee. split; [|by rw Ee lookup_insert_eq|by destruct Ek as [-> | ->]|done].
      destruct Ek as [-> | ->]; [done|]. kinv_frame. }
    destruct w as [|t w], reschedule; simpl.
    all: first [apply wp_bind, wp_lift, wp_modify, wp_ret|apply wp_ret]; split_and!; auto.
    all: intros Hr; first [discriminate Hr|split; [done|by destruct Hcu]].
Qed.

Lemma wp_event_unsignal a sg fl w y :
  event_at a sg fl w y →
  wp (event_unsignal a) (λ _ y', event_at a false fl w y' ∧ sk y' = sk y) y.
Proof.
  intros [Ik He Hw Hi]. apply wp_bind. eapply wp_deref; [done|]. apply wp_bind, wp_assert; [done|].
  apply wp_bind, wp_modify, wp_ret. split; [|done]. split; simpl; try done. by rw lookup_insert_eq.
Qed.

(** [event_wait_timeout] returns at once with [NO_ERROR] on a signaled event,
    consuming the signal when the event unsignals itself; otherwise a wait of no
    time reports [ERR_TIMED_OUT] and any other queues the caller behind the
    threads already waiting. *)
Theorem event_wait_spec a sg fl w y cpu cur timeout :
  event_at a sg fl w y → thread_lock (sk y) = false → running_on y cpu cur →
  ¬ timer_queued (sk y) (StackTimer cur) →
  wp (event_wait_timeout cpu a timeout) (λ r y',
    match r with
    | Returned ret =>
        (sg = true ∧ ret = NO_ERROR ∧ event_at a (negb (is_auto fl)) fl w y') ∨
        (sg = false ∧ timeout = 0 ∧ ret = ERR_TIMED_OUT ∧ event_at a sg fl w y')
    | Switched => sg = false ∧ timeout ≠ 0 ∧ event_at a sg fl (w ++ [cur]) y'
    end) y.
Proof.
  intros. eapply wp_mono; [by apply (wp_event_wait a sg fl w y cpu cur timeout)|].
  intros [ret|] y'; [by intros [? _]|done].
Qed.

(** [event_signal] on an event that is not signaled releases, with
    [EVENT_FLAG_AUTOUNSIGNAL], exactly the thread that has waited longest, or
    leaves the event signaled for the next one when nobody waits; without the
    flag it releases every waiter and leaves the event signaled.  On a signaled
    event it does nothing. *)
Theorem event_signal_spec a sg fl w y cpu cur reschedule :
  event_at a sg fl w y → thread_lock (sk y) = false → running_on y cpu cur →
  wp (event_signal cpu a reschedule) (signal_result a sg fl w reschedule) y.
Proof.
  intros. eapply wp_mono; [by apply (wp_event_signal a sg fl w y cpu cur reschedule)|]. by intros r y' [? _].
Qed.

(** ** Concrete instances *)

(** The event at address 5, signaled or with a waiter. *)
Definition with_event (k : kstate) (sg : bool) (fl : Z) : sync :=
  Sync k ∅ ∅ {[ 5%positive := Event EVENT_MAGIC sg fl ]}.

Lemma event_waiter_at : event_at 5 false 1 [h 3] (with_event k_waiter false 1).
Proof. split; [apply k_waiter_inv|by vm_compute|by vm_compute|done]. Qed.

Lemma event_wait_spec_witness :
  wp (event_wait_timeout 0 5 0) (λ r _, r = Returned ERR_TIMED_OUT) (with_event k_waiter false 1).
Proof.
  eapply wp_mono; [eapply (event_wait_spec 5 false 1 [h 3] (with_event k_waiter false 1) 0 (h 2) 0)|].
  - apply event_waiter_at.
  - apply k_waiter_inv.
  - split; [by vm_compute|]. apply not_idle_check. by vm_compute.
  - apply timer_free. by vm_compute.
  - intros [ret|] y'; [|by intros (_ & ? & _)]. by intros [(? & _)|(_ & _ & -> & _)].
Defined.

Lemma event_signal_spec_witness :
  wp (event_signal 0 5 true) (λ r y', r = Switched ∧ event_at 5 false 1 [] y') (with_event k_waiter false 1).
Proof.
  eapply wp_mono; [eapply (event_signal_spec 5 false 1 [h 3] (with_event k_waiter false 1) 0 (h 2) true)|].
  - apply event_waiter_at.
  - apply k_waiter_inv.
  - split; [by vm_compute|]. apply not_idle_check. by vm_compute.
  - by intros r y' (-> & ? & _).
Defined.

(** The thread a cpu switched to runs on: it releases [thread_lock]. *)
Definition unlock : Y unit := lift THREAD_UNLOCK.

Definition yield (cpu : nat) : Y unit := lift (thread_yield cpu);; unlock.

Definition run_y (m : Y Z) (k : kstate) : option (Z * sync) := m (Sync k ∅ ∅ ∅).

(** Thread 3 holds the mutex and thread 2 waits for 100 ms.  The timeout fires
    while thread 3 runs; before thread 2 runs, thread 3 releases the mutex and
    asks for it again.  Thread 2 then returns from its wait; the result is what
    [mutex_acquire_timeout] gives it. *)
Definition mutex_race : Y Z :=
  mutex_init 5;;
  mutex_acquire 0 5;;
  yield 0;;
  mutex_acquire_timeout 0 5 100;; unlock;;
  yield 0;;
  lift (wait_queue_timeout_handler 0 (h 2));;
  mutex_release 0 5;;
  mutex_acquire 0 5;;
  mutex_acquire_resume 0 5 100.

(** A mutex nobody holds or will be given, with threads waiting for it. *)
Definition stuck (v : mview) : Prop :=
  v_holder v = None ∧ v_granted v = [] ∧ v_expired v = [] ∧ v_waiting v ≠ [].

(** Whoever asks for such a mutex waits behind the others: no request succeeds. *)
Lemma stuck_step v v' : stuck v → minv v → mstep v v' →
  v_holder v' = None ∧ v_granted v' = [] ∧ 0 < v_count v'.
Proof.
  intros (Hh & Hg & Hx & Hw) [_ Hc _] Hs. destruct v as [hd c w g x]. simpl in *. subst hd g x.
  destruct w as [|t w]; [done|]. simpl in Hc. inversion Hs; subst; simpl in *; 
    try match goal with H : _ ∈ [] |- _ => by apply not_elem_of_nil in H end.
  all: try lia; split_and!; done || lia.
Qed.

(** The run ends with thread 2 back with [ERR_TIMED_OUT] and thread 3 waiting for
    a mutex that nobody holds. *)
Lemma mutex_race_stuck : ∃ y,
  run_y mutex_race running_state = Some (ERR_TIMED_OUT, y) ∧
  current (sk y) !! 0%nat = Some (h 2) ∧
  mutexes y !! 5%positive = Some (Mutex MUTEX_MAGIC None 1) ∧
  wait_queues (sk y) !! ObjWq 5 = Some (WaitQueue WAIT_QUEUE_MAGIC [h 3] 1).
Proof. eexists. split_and!; vm_compute; reflexivity. Qed.

(** The same with a semaphore: thread 2 waits, its timeout fires, thread 3 posts
    and then asks for the unit before thread 2 runs; thread 2 then posts
    another. *)
Definition sem_race : Y Z :=
  sem_init 5 0;;
  yield 0;;
  sem_timedwait 0 5 100;; unlock;;
  yield 0;;
  lift (wait_queue_timeout_handler 0 (h 2));;
  sem_post 0 5 false;;
  sem_wait 0 5;;
  sem_timedwait_resume 0 5 100;;
  r ← sem_post 0 5 false;
  mret (match r with Returned n => n | Switched => 1 end).

(** Two units have been posted, none was taken, one is counted, and thread 3
    still waits: the second post woke nobody. *)
Lemma sem_race_waits : ∃ y,
  run_y sem_race running_state = Some (0, y) ∧
  semaphores y !! 5%positive = Some (Semaphore SEMAPHORE_MAGIC 1) ∧
  wait_queues (sk y) !! ObjWq 5 = Some (WaitQueue WAIT_QUEUE_MAGIC [h 3] 1).
Proof. eexists. split_and!; vm_compute; reflexivity. Qed.

(** ** Real-time threads on another cpu *)

Definition two_cpus : option (unit * kstate) :=
  match boot 2 kstate_zero with
  | Some (_, s) => match secondary_boot 1 (set_thread_lock false s) with
      | Some (_, s') => Some ((), set_thread_lock false s')
      | None => None
      end
  | None => None
  end.

(** Cpu 1 runs thread 2 and thread 1 is ready. *)
Definition two_running : option kstate :=
  match two_cpus with Some (_, s) => run_calls (three_threads ++ [(1%nat, CallYield)]) s | None => None end.

(** Cpu 0 makes the thread cpu 1 runs real time; when cpu 1 then yields to a
    regular thread, it sets its preemption timer, which is already in the timer
    queue, and [timer_set] panics. *)
Definition real_time_race : option kstate :=
  match two_running with
  | Some s => match exec 0 (CallSetRealTime (h 2)) s with
      | Some (_, s') => match exec 1 CallYield s' with Some (_, s'') => Some s'' | None => None end
      | None => Some s
      end
  | None => Some kstate_zero
  end.

Lemma real_time_race_panics : real_time_race = None ∧
  ∃ s, two_running = Some s ∧ current s !! 1%nat = Some (h 2) ∧ timer_in_list (PreemptTimer 1) s = true.
Proof. split; [by vm_compute|]. eexists. split_and!; vm_compute; reflexivity. Qed.
