(* ===== verification/Bits.v ===== *)
(** * Alignment and powers of two

    The macros of [src/mk/include/align.h] on 64-bit values and the functions of
    [src/mk/top/include/lk/pow2.h] on 32-bit ones, with the arithmetic they
    stand for. *)

From S2P Require Import Prelude.

(** ** [align.h] *)

Definition ROUNDUP (a b : Z) : Z := Z.ldiff (u64 (a + (b - 1))) (b - 1).

Definition ROUNDDOWN (a b : Z) : Z := Z.ldiff a (b - 1).

Definition ALIGN (a b : Z) : Z := ROUNDUP a b.

Definition IS_ALIGNED (a b : Z) : bool := Z.land a (b - 1) =? 0.

Definition PAGE_SIZE_SHIFT : Z := 12.

Definition PAGE_SIZE : Z := 4096.

Definition PAGE_ALIGN (x : Z) : Z := ALIGN x PAGE_SIZE.

Definition IS_PAGE_ALIGNED (x : Z) : bool := IS_ALIGNED x PAGE_SIZE.

(** ** [pow2.h] *)

Definition ispow2 (val : Z) : bool := Z.land (u32 (val - 1)) val =? 0.

(** [__builtin_clz] on a non-zero value. *)
Definition builtin_clz (x : Z) : Z := 31 - Z.log2 x.

Definition log2_uint (val : Z) : Z := if val =? 0 then 0 else 4 * 8 - 1 - builtin_clz val.

Definition valpow2 (valp2 : Z) : Z := u32 (Z.shiftl 1 valp2).

Definition divpow2 (val divp2 : Z) : Z := Z.shiftr val divp2.

Definition modpow2 (val modp2 : Z) : Z := u32 (Z.land val (u64 (Z.shiftl 1 modp2 - 1))).

Definition round_up_pow2_u32 (v : Z) : Z :=
  let v := u32 (v - 1) in
  let v := Z.lor v (Z.shiftr v 1) in
  let v := Z.lor v (Z.shiftr v 2) in
  let v := Z.lor v (Z.shiftr v 4) in
  let v := Z.lor v (Z.shiftr v 8) in
  let v := Z.lor v (Z.shiftr v 16) in
  u32 (v + 1).

(** ** Rounding *)

Lemma roundup_mul a n : 0 ≤ n → 0 ≤ a → a + (2 ^ n - 1) < 2 ^ 64 →
  ROUNDUP a (2 ^ n) = (a + (2 ^ n - 1)) / 2 ^ n * 2 ^ n.
Proof. intros. pose proof (Z.pow_pos_nonneg 2 n). rw /ROUNDUP u64_small; [by rw ldiff_ones_div|lia]. Qed.

(** Rounding up gives the least multiple that is not below. *)
Lemma roundup_spec a n : 0 ≤ n → 0 ≤ a → a + (2 ^ n - 1) < 2 ^ 64 →
  (2 ^ n | ROUNDUP a (2 ^ n)) ∧ a ≤ ROUNDUP a (2 ^ n) < a + 2 ^ n.
Proof.
  intros Hn Ha Hlt. rw roundup_mul //. pose proof (Z.pow_pos_nonneg 2 n ltac:(lia) Hn) as Hp.
  split; [by apply Z.divide_factor_r|].
  pose proof (Z.div_mod (a + (2 ^ n - 1)) (2 ^ n) ltac:(lia)) as E.
  pose proof (Z.mod_pos_bound (a + (2 ^ n - 1)) (2 ^ n) Hp). lia.
Qed.

Lemma roundup_least a n va : 0 ≤ n → 0 ≤ a → a + (2 ^ n - 1) < 2 ^ 64 → (2 ^ n | va) → a ≤ va → ROUNDUP a (2 ^ n) ≤ va.
Proof.
  intros Hn Ha Hlt [x ->] Hle. destruct (roundup_spec a n Hn Ha Hlt) as ([y ->] & _ & Hhi).
  pose proof (Z.pow_pos_nonneg 2 n ltac:(lia) Hn) as Hp. apply Z.mul_le_mono_nonneg_r; [lia|].
  apply Z.lt_succ_r, (Z.mul_lt_mono_pos_r (2 ^ n)); lia.
Qed.

Lemma rounddown_spec a n : 0 ≤ n → 0 ≤ a →
  (2 ^ n | ROUNDDOWN a (2 ^ n)) ∧ 0 ≤ ROUNDDOWN a (2 ^ n) ≤ a ∧ a < ROUNDDOWN a (2 ^ n) + 2 ^ n.
Proof.
  intros Hn Ha. rw /ROUNDDOWN ldiff_ones_div //. pose proof (Z.pow_pos_nonneg 2 n ltac:(lia) Hn) as Hp.
  split; [by apply Z.divide_factor_r|].
  pose proof (Z.div_mod a (2 ^ n) ltac:(lia)) as E. pose proof (Z.mod_pos_bound a (2 ^ n) Hp).
  pose proof (Z.div_pos a (2 ^ n) Ha Hp). nia.
Qed.

Lemma is_aligned_spec a n : 0 ≤ n → IS_ALIGNED a (2 ^ n) = true ↔ (2 ^ n | a).
Proof.
  intros. rw /IS_ALIGNED land_ones_mod // Z.eqb_eq. apply Z.mod_divide.
  pose proof (Z.pow_pos_nonneg 2 n). lia.
Qed.

Lemma page_aligned_spec a : IS_PAGE_ALIGNED a = true ↔ (PAGE_SIZE | a).
Proof. apply (is_aligned_spec a 12). lia. Qed.

Lemma rounddown_page a : 0 ≤ a →
  (PAGE_SIZE | ROUNDDOWN a PAGE_SIZE) ∧ 0 ≤ ROUNDDOWN a PAGE_SIZE ≤ a ∧ a < ROUNDDOWN a PAGE_SIZE + PAGE_SIZE.
Proof. apply (rounddown_spec a 12). lia. Qed.

(** ** Smearing the top bit *)

(** The bits of [v] with every set bit copied to the [k - 1] places below it. *)
Definition smeared (k : Z) (v w : Z) : Prop :=
  0 ≤ w ∧ ∀ j, 0 ≤ j → Z.testbit w j = true ↔ ∃ i, 0 ≤ i < k ∧ Z.testbit v (j + i) = true.

Lemma smeared_one v : 0 ≤ v → smeared 1 v v.
Proof.
  intros Hv. split; [done|]. intros j Hj. split.
  - intros. exists 0. by rw Z.add_0_r.
  - intros (i & Hi & Ht). by replace (j + i) with j in Ht by lia.
Qed.

Lemma smeared_double k v w : 0 < k → smeared k v w → smeared (2 * k) v (Z.lor w (Z.shiftr w k)).
Proof.
  intros Hk [Hw Hb]. assert (0 ≤ Z.shiftr w k) as Hsh by by apply Z.shiftr_nonneg.
  split; [by apply Z.lor_nonneg|]. intros j Hj. rw Z.lor_spec Z.shiftr_spec // orb_true_iff (Hb j Hj) (Hb (j + k)); [|lia].
  split.
  - intros [(i & Hi & Ht)|(i & Hi & Ht)]; [exists i|exists (i + k)].
    + split; [lia|done].
    + split; [lia|]. by replace (j + (i + k)) with (j + k + i) by lia.
  - intros (i & Hi & Ht). destruct (decide (i < k)); [left; exists i; split; [lia|done]|right].
    exists (i - k). split; [lia|]. by replace (j + k + (i - k)) with (j + i) by lia.
Qed.

(** Smearing over all places below gives the ones up to the top bit. *)
Lemma smeared_ones v w k : 0 < v → Z.log2 v < k → smeared k v w → w = Z.ones (Z.log2 v + 1).
Proof.
  intros Hv Hk [Hw Hb]. pose proof (Z.log2_nonneg v). apply Z.bits_inj'. intros j Hj.
  destruct (decide (j < Z.log2 v + 1)) as [Hlt|Hge].
  - rw Z.ones_spec_low; [|lia]. apply Hb; [done|]. exists (Z.log2 v - j). split; [lia|].
    replace (j + (Z.log2 v - j)) with (Z.log2 v) by lia. by apply Z.bit_log2.
  - rw Z.ones_spec_high; [|lia]. apply not_true_iff_false. intros (i & Hi & Ht)%Hb; [|done].
    rw Z.bits_above_log2 in Ht; [done|lia..].
Qed.

(** [round_up_pow2_u32] gives the least power of two that is not below its
    argument, for every argument up to [2^31]. *)
Theorem round_up_pow2_u32_spec v :
  1 ≤ v ≤ 2 ^ 31 →
  ∃ k, 0 ≤ k ∧ round_up_pow2_u32 v = 2 ^ k ∧ v ≤ 2 ^ k ∧ (∀ j, 0 ≤ j → v ≤ 2 ^ j → k ≤ j).
Proof.
  intros Hv. destruct (decide (v = 1)) as [->|Hne].
  { exists 0. split_and!; [done..|]. intros; lia. }
  assert (0 < v - 1) as Hp by lia. pose proof (Z.log2_nonneg (v - 1)) as Hl0.
  assert (Z.log2 (v - 1) < 31) as Hl by (apply Z.log2_lt_pow2; lia).
  exists (Z.log2 (v - 1) + 1). pose proof (Z.log2_spec (v - 1) Hp) as [Hlo Hhi].
  assert (2 ^ (Z.log2 (v - 1) + 1) ≤ 2 ^ 31) as Hb by (apply Z.pow_le_mono_r; lia).
  split_and!; [lia| |rw -Z.add_1_r in Hhi; lia|].
  - rw /round_up_pow2_u32 (u32_small (v - 1)); [|lia]. set (w := Z.lor _ (Z.shiftr _ 16)).
    assert (smeared 32 (v - 1) w) as Hs.
    { apply (smeared_double 16); [done|]. apply (smeared_double 8); [done|]. apply (smeared_double 4); [done|].
      apply (smeared_double 2); [done|]. apply (smeared_double 1); [done|]. apply smeared_one. lia. }
    rw (smeared_ones (v - 1) w 32 Hp ltac:(lia) Hs) Z.ones_equiv. rw u32_small; [lia|].
    pose proof (Z.pow_pos_nonneg 2 (Z.log2 (v - 1) + 1)). lia.
  - intros j Hj Hle. apply Z.nlt_ge. intros Hlt. assert (2 ^ j ≤ 2 ^ Z.log2 (v - 1)) by (apply Z.pow_le_mono_r; lia). lia.
Qed.

Lemma round_up_pow2_u32_spec_witness : ∃ k, round_up_pow2_u32 100 = 2 ^ k ∧ 100 ≤ 2 ^ k.
Proof. destruct (round_up_pow2_u32_spec 100) as (k & ? & ? & ? & _); [lia|]. by exists k. Defined.

(** A power of two and its logarithm *)
Lemma log2_pow2 lp : 0 ≤ lp < 31 → ispow2 (u32 (2 ^ lp)) = true ∧ log2_uint (u32 (2 ^ lp)) = lp.
Proof.
  intros Hl. assert (0 < 2 ^ lp < 2 ^ 31) by (split; [lia|apply Z.pow_lt_mono_r; lia]).
  rw /ispow2 /log2_uint !u32_small; [|lia..]. split.
  - apply Z.eqb_eq. rw (_ : 2 ^ lp - 1 = Z.ones lp); [|rw Z.ones_equiv; lia]. rw Z.land_comm Z.land_ones; [|lia]. apply Z.mod_same. lia.
  - rw (proj2 (Z.eqb_neq _ _)); [|lia]. rw /builtin_clz Z.log2_pow2; lia.
Qed.
