(* ===== verification/Bytes.v ===== *)
(** * Byte arrays

    [memcpy] and [memset] on arrays of bytes, and the ranges of an array they read
    and replace.  Shared by the circular buffers and the block devices. *)

From S2P Require Import Prelude.

(** [memcpy(buf + at, bytes, length bytes)]; no result outside the array *)
Definition copy_in (at_ : Z) (bytes : list Z) (b : list Z) : option (list Z) :=
  if Z.of_nat (length b) <? at_ + Z.of_nat (length bytes) then None else Some (list_inserts (Z.to_nat at_) bytes b).

(** The [n] bytes at [at_]; no result outside the array *)
Definition copy_out (at_ n : Z) (b : list Z) : option (list Z) :=
  if Z.of_nat (length b) <? at_ + n then None else Some (take (Z.to_nat n) (drop (Z.to_nat at_) b)).

(** The range of [n] bytes at [o]. *)
Definition slice (o n : Z) (l : list Z) : list Z := take (Z.to_nat n) (drop (Z.to_nat o) l).

(** The array with the bytes at [o] replaced. *)
Definition splice (o : Z) (bytes l : list Z) : list Z := list_inserts (Z.to_nat o) bytes l.

Abbreviation zlen l := (Z.of_nat (length l)).

Section bytes.
Implicit Types (l b bytes : list Z) (o n i : Z).

Lemma copy_out_slice o n l : o + n ≤ zlen l → copy_out o n l = Some (slice o n l).
Proof. intros H. rw /copy_out (proj2 (Z.ltb_ge _ _)) //. Qed.

Lemma copy_in_splice o bytes l : o + zlen bytes ≤ zlen l → copy_in o bytes l = Some (splice o bytes l).
Proof. intros H. rw /copy_in (proj2 (Z.ltb_ge _ _)) //. Qed.

Lemma length_slice o n l : 0 ≤ o → 0 ≤ n → o + n ≤ zlen l → zlen (slice o n l) = n.
Proof. intros. rw /slice length_take length_drop. lia. Qed.

Lemma length_splice o bytes l : length (splice o bytes l) = length l.
Proof. apply length_inserts. Qed.

Lemma lookup_slice o n l (i : nat) :
  0 ≤ o → slice o n l !! i = if decide (Z.of_nat i < n) then l !! (Z.to_nat o + i)%nat else None.
Proof.
  intros. rw /slice. case_decide.
  - by rw lookup_take_lt ?lookup_drop; [|lia].
  - by rw lookup_take_ge; [|lia].
Qed.

Lemma lookup_splice o bytes l (i : nat) :
  0 ≤ o → o + zlen bytes ≤ zlen l →
  splice o bytes l !! i =
    if decide (o ≤ Z.of_nat i < o + zlen bytes) then bytes !! (i - Z.to_nat o)%nat else l !! i.
Proof.
  intros. rw /splice. case_decide.
  - rw list_lookup_inserts; [done|lia|lia].
  - destruct (decide (Z.of_nat i < o)); [rw list_lookup_inserts_lt //; lia|rw list_lookup_inserts_ge //; lia].
Qed.
End bytes.

Section ranges.
Implicit Types (l b bytes : list Z) (o n i : Z).

Lemma slice_0 o l : slice o 0 l = [].
Proof. done. Qed.

Lemma splice_nil o l : splice o [] l = l.
Proof. done. Qed.

Lemma slice_all l : slice 0 (zlen l) l = l.
Proof. rw /slice drop_0 take_ge //. lia. Qed.

Lemma splice_all b l : length b = length l → splice 0 b l = b.
Proof.
  intros. apply list_eq. intros i. rw lookup_splice; [|lia..]. case_decide; [by rw Nat.sub_0_r|].
  by rw !lookup_ge_None_2; [|lia..].
Qed.

Lemma slice_slice o n o' n' l :
  0 ≤ o → 0 ≤ o' → o + n ≤ n' → slice o n (slice o' n' l) = slice (o' + o) n l.
Proof.
  intros. apply list_eq. intros i. rw !lookup_slice; [|lia..]. repeat case_decide; try done; [|lia]. f_equal. lia.
Qed.

Lemma slice_app o n m l : 0 ≤ o → 0 ≤ n → 0 ≤ m → o + n ≤ zlen l → slice o (n + m) l = slice o n l ++ slice (o + n) m l.
Proof.
  intros. rw /slice Z2Nat.inj_add; [|lia..]. rw Z2Nat.inj_add; [|lia..].
  by rw -(drop_drop l) take_take_drop.
Qed.

Lemma slice_splice_same o b l : 0 ≤ o → o + zlen b ≤ zlen l → slice o (zlen b) (splice o b l) = b.
Proof.
  intros. apply list_eq. intros i. rw lookup_slice //. case_decide.
  - rw lookup_splice; [|lia..]. rw decide_True; [f_equal; lia|lia].
  - by rw lookup_ge_None_2; [|lia].
Qed.

Lemma slice_splice_other o n o' b l :
  0 ≤ o → 0 ≤ o' → o' + zlen b ≤ zlen l → o + n ≤ o' ∨ o' + zlen b ≤ o → slice o n (splice o' b l) = slice o n l.
Proof.
  intros. apply list_eq. intros i. rw !lookup_slice //. case_decide; [|done]. rw lookup_splice //.
  by rw decide_False; [|lia].
Qed.

Lemma splice_slice o n l : 0 ≤ o → 0 ≤ n → o + n ≤ zlen l → splice o (slice o n l) l = l.
Proof.
  intros. apply list_eq. intros i. rw lookup_splice; [|lia|rw length_slice; lia]. rw length_slice; [|lia..].
  case_decide; [|done]. rw lookup_slice; [|lia]. rw decide_True; [f_equal; lia|lia].
Qed.

Lemma splice_app o b1 b2 l :
  0 ≤ o → o + zlen b1 + zlen b2 ≤ zlen l → splice o (b1 ++ b2) l = splice (o + zlen b1) b2 (splice o b1 l).
Proof.
  intros. apply list_eq. intros i. rw (lookup_splice (o + zlen b1)); [|lia|rw length_splice; lia].
  rw !lookup_splice; [|lia|rw ?length_app; lia..]. rw length_app. repeat case_decide; try lia; try done.
  - rw lookup_app_r; [|lia]. f_equal. lia.
  - rw lookup_app_l; [done|lia].
Qed.

(** Replacing within a range *)
Lemma slice_splice_in o n i b l :
  0 ≤ o → 0 ≤ i → i + zlen b ≤ n → o + n ≤ zlen l → slice o n (splice (o + i) b l) = splice i b (slice o n l).
Proof.
  intros. apply list_eq. intros k. rw lookup_slice //.
  assert (i + zlen b ≤ zlen (slice o n l)) by (rw length_slice; lia).
  rw (lookup_splice i) //. case_decide.
  - rw lookup_splice; [|lia..]. case_decide.
    + rw decide_True; [f_equal; lia|lia].
    + rw decide_False; [|lia]. rw lookup_slice //. by rw decide_True.
  - rw decide_False; [|lia]. rw lookup_slice //. by rw decide_False.
Qed.

Lemma splice_splice_in o n i b l :
  0 ≤ o → 0 ≤ i → i + zlen b ≤ n → o + n ≤ zlen l → splice o (splice i b (slice o n l)) l = splice (o + i) b l.
Proof.
  intros. rw -slice_splice_in //. apply list_eq. intros k. assert (0 ≤ n) by lia.
  assert (zlen (slice o n (splice (o + i) b l)) = n) as El by (rw length_slice; rw ?length_splice; lia).
  rw (lookup_splice o); [|lia|lia]. rw El. case_decide.
  - rw lookup_slice //. rw decide_True; [f_equal; lia|lia].
  - rw lookup_splice; [|lia..]. by rw decide_False; [|lia].
Qed.

(** Replacing at the front of what follows is replacing further on. *)
Lemma splice_drop pos bytes l :
  0 ≤ pos → pos + zlen bytes ≤ zlen l → take (Z.to_nat pos) l ++ splice 0 bytes (drop (Z.to_nat pos) l) = splice pos bytes l.
Proof.
  intros. apply list_eq. intros i. rw lookup_splice //. destruct (decide (Z.of_nat i < pos)).
  - rw lookup_app_l; [|rw length_take; lia]. rw lookup_take_lt; [|lia]. by rw decide_False; [|lia].
  - rw lookup_app_r; [|rw length_take; lia]. rw length_take lookup_splice; [|lia|rw length_drop; lia]. rw lookup_drop.
    repeat case_decide; try lia; f_equal; lia.
Qed.
End ranges.
