(* ===== verification/Pmm.v ===== *)
(** * The physical page allocator

    [src/mk/kernel/vm/pmm.c] with the address translation of [vm.c] it uses.
    An arena is an address range with one [vm_page] per page; its free pages are
    linked into its free list, and allocated pages into a list of the caller.
    A page structure is linked into one list at a time, so unlinking it takes
    it out of whatever list it is in.  The allocator's mutex is held through
    each operation, which is therefore one step of the model.  Out of range
    accesses of a page array fail. *)

From S2P Require Import Prelude Bits.

(** ** Data *)

(** A page structure: the arena whose array it is in, and its index. *)
Abbreviation page_ptr := (positive * nat)%type.

Record vm_page := VmPage { pg_flags : Z; pg_ref : Z }.

Definition VM_PAGE_FLAG_NONFREE : Z := 1.

Definition PMM_ARENA_FLAG_KMAP : Z := 1.

Record pmm_arena := PmmArena {
  ar_flags : Z;
  ar_priority : Z;
  ar_base : Z;
  ar_size : Z;
  ar_free_count : Z;
  page_array : list vm_page;
  free_list : list page_ptr
}.

(** The arenas in the order of the list, and the page lists of the callers. *)
Record pmm := Pmm {
  arena_list : list positive;
  arenas : gmap positive pmm_arena;
  page_lists : gmap positive (list page_ptr)
}.

Abbreviation P := (M pmm).

Definition set_arenas (v : gmap positive pmm_arena) (s : pmm) : pmm := Pmm (arena_list s) v (page_lists s).

Definition set_page_lists (v : gmap positive (list page_ptr)) (s : pmm) : pmm := Pmm (arena_list s) (arenas s) v.

Definition set_free (c : Z) (l : list page_ptr) (A : pmm_arena) : pmm_arena :=
  PmmArena (ar_flags A) (ar_priority A) (ar_base A) (ar_size A) c (page_array A) l.

Definition set_page_array (pa : list vm_page) (A : pmm_arena) : pmm_arena :=
  PmmArena (ar_flags A) (ar_priority A) (ar_base A) (ar_size A) (ar_free_count A) pa (free_list A).

Definition get_arena (a : positive) : P pmm_arena := deref (λ s, arenas s !! a).

Definition upd_arena (a : positive) (f : pmm_arena → pmm_arena) : P unit :=
  A ← get_arena a; modify (λ s, set_arenas (<[a := f A]> (arenas s)) s).

(** [page->flags], and its update. *)
Definition get_page (p : page_ptr) : P vm_page := deref (λ s, arenas s !! p.1 ≫= λ A, page_array A !! p.2).

Definition upd_page (p : page_ptr) (f : vm_page → vm_page) : P unit :=
  get_page p;; upd_arena p.1 (λ A, set_page_array (alter f p.2 (page_array A)) A).

Definition page_is_free (pg : vm_page) : bool := Z.land (pg_flags pg) VM_PAGE_FLAG_NONFREE =? 0.

Definition mark_nonfree (pg : vm_page) : vm_page := VmPage (Z.lor (pg_flags pg) VM_PAGE_FLAG_NONFREE) (pg_ref pg).

Definition mark_free (pg : vm_page) : vm_page := VmPage (Z.ldiff (pg_flags pg) VM_PAGE_FLAG_NONFREE) (pg_ref pg).

Definition page_count (A : pmm_arena) : Z := ar_size A / PAGE_SIZE.

Definition PAGE_BELONGS_TO_ARENA (p : page_ptr) (a : positive) (A : pmm_arena) : bool :=
  bool_decide (p.1 = a) && (Z.of_nat p.2 <? page_count A).

Definition ADDRESS_IN_ARENA (address : Z) (A : pmm_arena) : bool :=
  (ar_base A <=? address) && (address <=? u64 (ar_base A + ar_size A - 1)).

(** ** Lists of pages *)

Definition add_tail (l : positive) (p : page_ptr) : P unit :=
  q ← deref (λ s, page_lists s !! l); modify (λ s, set_page_lists (<[l := q ++ [p]]> (page_lists s)) s).

(** [list_in_list(&page->node)] *)
Definition in_list (s : pmm) (p : page_ptr) : bool :=
  existsb (λ e, bool_decide (p ∈ free_list e.2)) (map_to_list (arenas s)) ||
  existsb (λ e : positive * list page_ptr, bool_decide (p ∈ e.2)) (map_to_list (page_lists s)).

(** [list_delete(&page->node)] *)
Definition unlink (p : page_ptr) (s : pmm) : pmm :=
  Pmm (arena_list s) ((λ A, set_free (ar_free_count A) (list_without p (free_list A)) A) <$> arenas s)
    (list_without p <$> page_lists s).

Definition dec_free_count (a : positive) : P unit := upd_arena a (λ A, set_free (ar_free_count A - 1) (free_list A) A).

(** ** Addresses *)

Fixpoint vm_page_to_paddr_loop (s : pmm) (p : page_ptr) (l : list positive) : option Z :=
  match l with
  | [] => Some (u64 (-1))
  | a :: l' =>
      A ← arenas s !! a;
      if PAGE_BELONGS_TO_ARENA p a A then Some (u64 (Z.of_nat p.2 * PAGE_SIZE + ar_base A))
      else vm_page_to_paddr_loop s p l'
  end.

Definition vm_page_to_paddr (p : page_ptr) : P Z := deref (λ s, vm_page_to_paddr_loop s p (arena_list s)).

Fixpoint paddr_to_vm_page_loop (s : pmm) (addr : Z) (l : list positive) : option (option page_ptr) :=
  match l with
  | [] => Some None
  | a :: l' =>
      A ← arenas s !! a;
      if ADDRESS_IN_ARENA addr A then Some (Some (a, Z.to_nat ((addr - ar_base A) / PAGE_SIZE)))
      else paddr_to_vm_page_loop s addr l'
  end.

Definition paddr_to_vm_page (addr : Z) : P (option page_ptr) :=
  deref (λ s, paddr_to_vm_page_loop s addr (arena_list s)).

(** ** Arenas *)

(** The walk that places an arena before the first of a higher priority value. *)
Fixpoint add_by_priority (s : pmm) (a : positive) (priority : Z) (l : list positive) : option (list positive) :=
  match l with
  | [] => Some [a]
  | b :: l' =>
      B ← arenas s !! b;
      if priority <? ar_priority B then Some (a :: b :: l')
      else l'' ← add_by_priority s a priority l'; Some (b :: l'')
  end.

(** The arena at address [a], filled in by the caller. *)
Definition pmm_add_arena (a : positive) (flags priority base size : Z) : P Z :=
  assert (IS_PAGE_ALIGNED base);;
  assert (IS_PAGE_ALIGNED size);;
  assert (0 <? size);;
  l ← deref (λ s, add_by_priority s a priority (arena_list s));
  let n := Z.to_nat (size / PAGE_SIZE) in
  modify (λ s, Pmm l (<[a := PmmArena flags priority base size (Z.of_nat n) (replicate n (VmPage 0 0))
    (map (pair a) (seq 0 n))]> (arenas s)) (page_lists s));;
  mret NO_ERROR.

(** ** Allocation *)

(** The inner loop of [pmm_alloc_pages] on one arena.  The first component of
    the result says that the loop left through [goto done]. *)
Fixpoint alloc_from_arena (fuel : nat) (a : positive) (count : Z) (l : positive) (allocated : Z) : P (bool * Z) :=
  match fuel with
  | O => fail
  | S fuel' =>
      A ← get_arena a;
      if (allocated <? count) && (0 <? ar_free_count A) then
        match free_list A with
        | [] => mret (true, allocated)
        | p :: rest =>
            upd_arena a (λ A, set_free (ar_free_count A - 1) rest A);;
            upd_page p mark_nonfree;;
            add_tail l p;;
            alloc_from_arena fuel' a count l (allocated + 1)
        end
      else mret (false, allocated)
  end.

Fixpoint alloc_from_arenas (as_ : list positive) (count : Z) (l : positive) (allocated : Z) : P Z :=
  match as_ with
  | [] => mret allocated
  | a :: as' =>
      A ← get_arena a;
      '(stop, n) ← alloc_from_arena (S (Z.to_nat (ar_free_count A))) a count l allocated;
      if stop : bool then mret n else alloc_from_arenas as' count l n
  end.

Definition pmm_alloc_pages (count : Z) (l : positive) : P Z :=
  if count =? 0 then mret 0 else as_ ← gets arena_list; alloc_from_arenas as_ count l 0.

(** The list on the stack is at an address of its own, [tmp]. *)
Definition pmm_alloc_page (tmp : positive) : P (option page_ptr) :=
  modify (λ s, set_page_lists (<[tmp := []]> (page_lists s)) s);;
  ret ← pmm_alloc_pages 1 tmp;
  if ret =? 0 then modify (λ s, set_page_lists (delete tmp (page_lists s)) s);; mret None
  else
    assert (ret =? 1);;
    q ← deref (λ s, page_lists s !! tmp);
    modify (λ s, set_page_lists (delete tmp (page_lists s)) s);;
    mret (head q).

(** A page moves from the free list of its arena to a list of the caller, if any:
    the body shared by [pmm_alloc_range] and [pmm_alloc_contiguous]. *)
Definition take_page (a : positive) (p : page_ptr) (l : option positive) : P unit :=
  pg ← get_page p;
  s ← gets id;
  assert (in_list s p);;
  modify (unlink p);;
  upd_page p mark_nonfree;;
  match l with Some l => add_tail l p | None => mret () end;;
  dec_free_count a.

Fixpoint alloc_range_loop (fuel : nat) (a : positive) (count : Z) (l : positive) (address allocated : Z) : P (Z * Z) :=
  match fuel with
  | O => fail
  | S fuel' =>
      A ← get_arena a;
      if (allocated <? count) && ADDRESS_IN_ARENA address A then
        let index := (address - ar_base A) / PAGE_SIZE in
        assert (index <? page_count A);;
        pg ← get_page (a, Z.to_nat index);
        if page_is_free pg then
          take_page a (a, Z.to_nat index) (Some l);;
          alloc_range_loop fuel' a count l (u64 (address + PAGE_SIZE)) (allocated + 1)
        else mret (address, allocated)
      else mret (address, allocated)
  end.

Fixpoint alloc_range_arenas (as_ : list positive) (count : Z) (l : positive) (address allocated : Z) : P Z :=
  match as_ with
  | [] => mret allocated
  | a :: as' =>
      A ← get_arena a;
      '(address, n) ← alloc_range_loop (S (Z.to_nat (page_count A))) a count l address allocated;
      if n =? count then mret n else alloc_range_arenas as' count l address n
  end.

Definition pmm_alloc_range (address count : Z) (l : positive) : P Z :=
  if count =? 0 then mret 0
  else as_ ← gets arena_list; alloc_range_arenas as_ count l (ROUNDDOWN address PAGE_SIZE) 0.

(** ** Contiguous runs *)

(** The scan of [n] pages from [pos]: the number of free pages before the first
    that is not, or [None] when all are free. *)
Fixpoint first_used (pages : list vm_page) (pos n : nat) : option (option nat) :=
  match n with
  | O => Some None
  | S n' =>
      pg ← pages !! pos;
      if page_is_free pg then r ← first_used pages (S pos) n'; Some (S <$> (r : option nat))
      else Some (Some O)
  end.

(** The search of one arena, from page [start] at steps of the alignment from
    page [aligned_offset]; [start] and [count] are 32-bit. *)
Fixpoint contig_search (fuel : nat) (A : pmm_arena) (count alignment_log2 aligned_offset start : Z) :
    option (option Z) :=
  match fuel with
  | O => None
  | S fuel' =>
      if (start <? page_count A) && (u32 (start + count) <=? page_count A) then
        r ← first_used (page_array A) (Z.to_nat start) (Z.to_nat count);
        match r with
        | Some i => contig_search fuel' A count alignment_log2 aligned_offset
            (u32 (ROUNDUP (u32 (start - aligned_offset + Z.of_nat i + 1))
              (2 ^ (alignment_log2 - PAGE_SIZE_SHIFT)) + aligned_offset))
        | None => Some (Some start)
        end
      else Some None
  end.

(** The pages of the run leave the free list. *)
Fixpoint take_run (n : nat) (a : positive) (i : nat) (l : option positive) : P unit :=
  match n with
  | O => mret ()
  | S n' =>
      pg ← get_page (a, i);
      assert (page_is_free pg);;
      take_page a (a, i) l;;
      take_run n' a (S i) l
  end.

Fixpoint contig_arenas (as_ : list positive) (count alignment_log2 : Z) (l : option positive) : P (Z * option Z) :=
  match as_ with
  | [] => mret (0, None)
  | a :: as' =>
      A ← get_arena a;
      if Z.land (ar_flags A) PMM_ARENA_FLAG_KMAP =? 0 then contig_arenas as' count alignment_log2 l
      else
        let rounded_base := ROUNDUP (ar_base A) (2 ^ alignment_log2) in
        if (rounded_base <? ar_base A) || (u64 (ar_base A + ar_size A - 1) <? rounded_base) then
          contig_arenas as' count alignment_log2 l
        else
          let aligned_offset := u32 ((rounded_base - ar_base A) / PAGE_SIZE) in
          r ← deref (λ _, contig_search (S (Z.to_nat (page_count A))) A count alignment_log2 aligned_offset aligned_offset);
          match r with
          | Some start =>
              take_run (Z.to_nat (u32 (start + count) - start)) a (Z.to_nat start) l;;
              mret (count, Some (u64 (ar_base A + start * PAGE_SIZE)))
          | None => contig_arenas as' count alignment_log2 l
          end
  end.

(** The result is the number of pages and what is stored through [pa].  A shift
    by 64 or more is undefined. *)
Definition pmm_alloc_contiguous (count alignment_log2 : Z) (l : option positive) : P (Z * option Z) :=
  if count =? 0 then mret (0, None)
  else
    let alignment_log2 := if alignment_log2 <? PAGE_SIZE_SHIFT then PAGE_SIZE_SHIFT else alignment_log2 in
    assert (alignment_log2 <? 64);;
    as_ ← gets arena_list;
    contig_arenas as_ count alignment_log2 l.

(** ** Freeing *)

(** The walk that gives a page back to the arena it belongs to; the result is
    the change of the count. *)
Fixpoint free_to_arena (as_ : list positive) (p : page_ptr) : P Z :=
  match as_ with
  | [] => mret 0
  | a :: as' =>
      A ← get_arena a;
      if PAGE_BELONGS_TO_ARENA p a A then
        upd_page p mark_free;;
        upd_arena a (λ A, set_free (ar_free_count A + 1) (p :: free_list A) A);;
        mret 1
      else free_to_arena as' p
  end.

Fixpoint pmm_free_loop (fuel : nat) (l : positive) (count : Z) : P Z :=
  match fuel with
  | O => fail
  | S fuel' =>
      q ← deref (λ s, page_lists s !! l);
      match q with
      | [] => mret count
      | p :: rest =>
          modify (λ s, set_page_lists (<[l := rest]> (page_lists s)) s);;
          s ← gets id;
          assert (negb (in_list s p));;
          pg ← get_page p;
          assert (negb (page_is_free pg));;
          n ← free_to_arena (arena_list s) p;
          pmm_free_loop fuel' l (count + n)
      end
  end.

Definition pmm_free (l : positive) : P Z :=
  q ← deref (λ s, page_lists s !! l);
  pmm_free_loop (S (length q)) l 0.

(** The list on the stack is at an address of its own, [tmp]. *)
Definition pmm_free_page (tmp : positive) (p : page_ptr) : P Z :=
  modify (λ s, set_page_lists (<[tmp := [p]]> (page_lists s)) s);;
  n ← pmm_free tmp;
  modify (λ s, set_page_lists (delete tmp (page_lists s)) s);;
  mret n.
