(* ===== verification/PmmInv.v ===== *)
(** * The invariant of the page allocator

    The free list of an arena holds exactly its free pages, once each, and
    [free_count] counts them; the lists of the callers hold pages that are not
    free, each in one list.  The two moves every operation is made of, a page
    leaving its free list and a page coming back, keep it. *)

From S2P Require Import Prelude Bits Pmm.

Definition page_at (s : pmm) (p : page_ptr) : option vm_page := arenas s !! p.1 ≫= λ A, page_array A !! p.2.

(** The page exists and is free, or allocated. *)
Definition free (s : pmm) (p : page_ptr) : Prop := ∃ pg, page_at s p = Some pg ∧ page_is_free pg = true.

Definition used (s : pmm) (p : page_ptr) : Prop := ∃ pg, page_at s p = Some pg ∧ page_is_free pg = false.

Record arena_ok (a : positive) (A : pmm_arena) : Prop := {
  ao_base : 0 ≤ ar_base A ∧ (PAGE_SIZE | ar_base A);
  ao_size : 0 < ar_size A ∧ (PAGE_SIZE | ar_size A) ∧ ar_base A + ar_size A ≤ 2 ^ 64;
  ao_pages : Z.of_nat (length (page_array A)) = page_count A ∧ page_count A ≤ 2 ^ 31;
  ao_free p : p ∈ free_list A ↔ p.1 = a ∧ ∃ pg, page_array A !! p.2 = Some pg ∧ page_is_free pg = true;
  ao_nodup : NoDup (free_list A);
  ao_count : ar_free_count A = Z.of_nat (length (free_list A))
}.

(** Two arenas have no address in common. *)
Definition apart (A B : pmm_arena) : Prop :=
  ar_base A + ar_size A ≤ ar_base B ∨ ar_base B + ar_size B ≤ ar_base A.

Record pmm_inv (s : pmm) : Prop := {
  pi_nodup : NoDup (arena_list s);
  pi_arenas a : a ∈ arena_list s ↔ is_Some (arenas s !! a);
  pi_ok a A : arenas s !! a = Some A → arena_ok a A;
  pi_apart a b A B : arenas s !! a = Some A → arenas s !! b = Some B → a ≠ b → apart A B;
  pi_lists l q : page_lists s !! l = Some q → NoDup q;
  pi_used l q p : page_lists s !! l = Some q → p ∈ q → used s p;
  pi_once l l' q q' p : page_lists s !! l = Some q → page_lists s !! l' = Some q' → p ∈ q → p ∈ q' → l = l'
}.

(** ** Pages *)

Lemma mark_nonfree_free pg : page_is_free (mark_nonfree pg) = false.
Proof.
  rw /page_is_free /mark_nonfree /VM_PAGE_FLAG_NONFREE /= Z.eqb_neq (Z.land_ones _ 1) //= Zmod_odd.
  by rw -Z.bit0_odd Z.lor_spec orb_true_r.
Qed.

Lemma mark_free_free pg : page_is_free (mark_free pg) = true.
Proof.
  rw /page_is_free /mark_free /VM_PAGE_FLAG_NONFREE /= Z.eqb_eq (Z.land_ones _ 1) //= Zmod_odd.
  by rw -Z.bit0_odd Z.ldiff_spec andb_false_r.
Qed.

Lemma free_not_used s p : free s p → used s p → False.
Proof. intros (pg & ? & ?) (pg' & ? & ?). congruence. Qed.

Lemma page_cases s p pg : page_at s p = Some pg → free s p ∨ used s p.
Proof. destruct (page_is_free pg) eqn:E; [left|right]; by exists pg. Qed.

Lemma page_at_arena s a i A : arenas s !! a = Some A → page_at s (a, i) = page_array A !! i.
Proof. rw /page_at /=. by intros ->. Qed.

Lemma page_at_some s p pg : page_at s p = Some pg → ∃ A, arenas s !! p.1 = Some A ∧ page_array A !! p.2 = Some pg.
Proof. intros (A & ? & ?)%bind_Some. by exists A. Qed.

Lemma free_in_list s p : pmm_inv s → free s p → ∃ A, arenas s !! p.1 = Some A ∧ p ∈ free_list A.
Proof.
  intros I (pg & (A & HA & Hp)%page_at_some & Hf). exists A. split; [done|].
  apply (ao_free _ _ (pi_ok _ I _ _ HA)). split; [done|]. by exists pg.
Qed.

Lemma list_free s a A p : pmm_inv s → arenas s !! a = Some A → p ∈ free_list A → p.1 = a ∧ free s p.
Proof.
  intros I HA Hin. apply (ao_free _ _ (pi_ok _ I _ _ HA)) in Hin as (Ha & pg & Hp & Hf). split; [done|].
  exists pg. split; [|done]. rw /page_at Ha HA /=. done.
Qed.

Lemma in_list_free s p : pmm_inv s → free s p → in_list s p = true.
Proof.
  intros I Hf. destruct (free_in_list _ _ I Hf) as (A & HA & Hin). rw /in_list orb_true_iff. left.
  apply existsb_exists. exists (p.1, A). split; [by apply list_elem_of_In, elem_of_map_to_list|].
  by apply bool_decide_eq_true.
Qed.

Lemma in_list_not s p : pmm_inv s → used s p → (∀ l q, page_lists s !! l = Some q → p ∉ q) → in_list s p = false.
Proof.
  intros I Hu Hl. rw /in_list orb_false_iff. split; apply not_true_iff_false; rw existsb_exists.
  - intros ([a A] & HA%list_elem_of_In%elem_of_map_to_list & Hin%bool_decide_eq_true).
    destruct (list_free _ _ _ _ I HA Hin) as [_ Hf]. by eapply free_not_used.
  - intros ([l q] & Hq%list_elem_of_In%elem_of_map_to_list & Hin%bool_decide_eq_true). by eapply Hl.
Qed.

(** ** A page leaves its free list *)

Definition take_arena (p : page_ptr) (A : pmm_arena) : pmm_arena :=
  PmmArena (ar_flags A) (ar_priority A) (ar_base A) (ar_size A) (ar_free_count A - 1)
    (alter mark_nonfree p.2 (page_array A)) (list_without p (free_list A)).

Definition put_list (l : option positive) (p : page_ptr) (ls : gmap positive (list page_ptr)) : gmap positive (list page_ptr) :=
  match l with Some l => alter (λ q, q ++ [p]) l ls | None => ls end.

Definition st_take (p : page_ptr) (l : option positive) (s : pmm) : pmm :=
  Pmm (arena_list s) (alter (take_arena p) p.1 (arenas s)) (put_list l p (page_lists s)).

(** The list of the caller, if there is one, is initialised. *)
Definition list_ready (s : pmm) (l : option positive) : Prop :=
  match l with Some l => is_Some (page_lists s !! l) | None => True end.

Lemma list_lookup_alter_cases {A} (f : A → A) i j (l : list A) x :
  alter f i l !! j = Some x ↔ ∃ y, l !! j = Some y ∧ x = if decide (i = j) then f y else y.
Proof.
  destruct (decide (i = j)) as [->|Hne].
  - rw list_lookup_alter_eq. destruct (l !! j); simpl; naive_solver.
  - rw list_lookup_alter_ne //. naive_solver.
Qed.

Lemma arena_take_ok a A p : arena_ok a A → p ∈ free_list A → arena_ok a (take_arena p A).
Proof.
  intros [? ? ? Hf Hnd Hc] Hin. split; simpl; try done.
  - by rw length_alter.
  - intros p'. rw list_without_elem Hf. apply Hf in Hin as (Hp1 & pg & Hpg & Hfree). split.
    + intros (Hne & Ha & pg' & Hp' & Hfp). split; [done|]. exists pg'. split; [|done].
      apply list_lookup_alter_cases. exists pg'. split; [done|]. case_decide; [|done].
      destruct Hne. destruct p, p'; simpl in *; congruence.
    + intros (Ha & pg' & (y & Hy & ->)%list_lookup_alter_cases & Hfp). case_decide as Hi.
      * by rw mark_nonfree_free in Hfp.
      * split; [by intros ->|]. split; [done|]. by exists y.
  - by apply list_without_nodup.
  - by rw Hc (list_without_length p).
Qed.

Lemma take_page_at s p l p' :
  page_at (st_take p l s) p' = (if decide (p = p') then mark_nonfree else id) <$> page_at s p'.
Proof.
  rw /page_at /=. destruct (decide (p.1 = p'.1)) as [E|Hne].
  - rw -E lookup_alter_eq. destruct (arenas s !! p.1) as [A|]; simpl; [|done].
    destruct (decide (p.2 = p'.2)) as [E2|Hne2].
    + rw -E2 list_lookup_alter_eq. case_decide; [done|]. destruct p, p'; simpl in *; congruence.
    + rw list_lookup_alter_ne //. case_decide; [by subst|]. by destruct (page_array A !! p'.2).
  - rw lookup_alter_ne //. case_decide; [by subst|]. by destruct (arenas s !! p'.1 ≫= _).
Qed.

Lemma take_free s p l p' : free (st_take p l s) p' ↔ free s p' ∧ p' ≠ p.
Proof.
  rw /free take_page_at. case_decide as E.
  - split; [|naive_solver]. intros (pg & (pg' & ? & ->)%fmap_Some & Hf). by rw mark_nonfree_free in Hf.
  - rw option_fmap_id. naive_solver.
Qed.

Lemma take_used s p l p' : free s p → used (st_take p l s) p' ↔ used s p' ∨ p' = p.
Proof.
  intros (pg0 & Hp0 & Hf0). rw /used take_page_at. case_decide as E.
  - split; [naive_solver|]. intros _. subst. rw Hp0 /=. eexists. split; [done|]. apply mark_nonfree_free.
  - rw option_fmap_id. naive_solver.
Qed.

Lemma put_list_elem l p ls k q : put_list l p ls !! k = Some q →
  ∃ q0, ls !! k = Some q0 ∧ (q = q0 ∨ (l = Some k ∧ q = q0 ++ [p])).
Proof.
  destruct l as [l|]; simpl; [|naive_solver]. destruct (decide (l = k)) as [->|Hne].
  - rw lookup_alter_eq. intros (q0 & ? & ->)%fmap_Some. naive_solver.
  - rw lookup_alter_ne //. naive_solver.
Qed.

Lemma take_inv s p l : pmm_inv s → free s p → pmm_inv (st_take p l s).
Proof.
  intros I Hf. pose proof (free_in_list _ _ I Hf) as (A & HA & Hin).
  assert (∀ l' q, page_lists s !! l' = Some q → p ∉ q) as Hnl.
  { intros l' q Hq Hp. eapply free_not_used; [done|]. by eapply pi_used. }
  destruct I as [Hnd Har Hok Hap Hls Hus Hon]. split; simpl.
  - done.
  - intros a. rw Har. destruct (decide (p.1 = a)) as [<-|]; [|by rw lookup_alter_ne]. by rw lookup_alter_eq fmap_is_Some.
  - intros a B [(<- & B0 & HB & ->)|[_ HB]]%lookup_alter_Some; [|by apply Hok].
    assert (B0 = A) as -> by congruence. by apply arena_take_ok; [apply Hok|].
  - assert (∀ a B, alter (take_arena p) p.1 (arenas s) !! a = Some B →
      ∃ B0, arenas s !! a = Some B0 ∧ ar_base B = ar_base B0 ∧ ar_size B = ar_size B0) as Hsame.
    { intros a B [(_ & B0 & HB & ->)|[_ HB]]%lookup_alter_Some; [by exists B0|by exists B]. }
    intros a b B C (B0 & HB & Eb1 & Eb2)%Hsame (C0 & HC & Ec1 & Ec2)%Hsame Hne.
    rw /apart Eb1 Eb2 Ec1 Ec2. by eapply Hap.
  - intros k q (q0 & Hq & [->|[_ ->]])%put_list_elem; [by eapply Hls|].
    apply NoDup_app. split_and!; [by eapply Hls| |apply NoDup_singleton].
    intros x Hx Hy%list_elem_of_singleton. subst x. by eapply Hnl.
  - intros k q x (q0 & Hq & [->|[_ ->]])%put_list_elem Hx; apply take_used; try done.
    + left. by eapply Hus.
    + apply elem_of_app in Hx as [Hx|?%list_elem_of_singleton]; [left; by eapply Hus|by right].
  - intros k k' q q' x (q0 & Hq & Eq)%put_list_elem (q0' & Hq' & Eq')%put_list_elem Hx Hx'.
    destruct Eq as [->|[-> ->]], Eq' as [->|[E ->]]; [by eapply (Hon k k' q0 q0')| | |congruence].
    + apply elem_of_app in Hx' as [Hx'|Hy%list_elem_of_singleton]; [by eapply (Hon k k' q0 q0')|]. subst x. by destruct (Hnl _ _ Hq Hx).
    + apply elem_of_app in Hx as [Hx|Hy%list_elem_of_singleton]; [by eapply (Hon k k' q0 q0')|]. subst x. by destruct (Hnl _ _ Hq' Hx').
Qed.

(** Several pages in turn. *)
Definition st_takes (ps : list page_ptr) (l : option positive) (s : pmm) : pmm :=
  foldl (λ s p, st_take p l s) s ps.

Lemma takes_free ps l s p : free (st_takes ps l s) p ↔ free s p ∧ p ∉ ps.
Proof.
  revert s. induction ps as [|p' ps IH]; intros s; simpl; [set_solver|].
  rw IH take_free elem_of_cons. naive_solver.
Qed.

Lemma takes_inv ps l s : pmm_inv s → NoDup ps → (∀ p, p ∈ ps → free s p) → pmm_inv (st_takes ps l s).
Proof.
  revert s. induction ps as [|p ps IH]; intros s I Hnd Hf; [done|]. apply NoDup_cons in Hnd as [Hp Hnd]. simpl.
  apply IH; [apply take_inv; [done|apply Hf, elem_of_cons; auto]|done|].
  intros p' Hp'. apply take_free. split; [apply Hf, elem_of_cons; auto|]. by intros ->.
Qed.

Lemma takes_app ps ps' l s : st_takes (ps ++ ps') l s = st_takes ps' l (st_takes ps l s).
Proof. apply foldl_app. Qed.

Lemma takes_arena_list ps l s : arena_list (st_takes ps l s) = arena_list s.
Proof. revert s. induction ps as [|p ps IH]; intros s; [done|]. simpl. by rw IH. Qed.

(** The caller's list gets the pages in order, the others keep theirs. *)
Lemma takes_list ps l s q : page_lists s !! l = Some q → page_lists (st_takes ps (Some l) s) = <[l := q ++ ps]> (page_lists s).
Proof.
  revert s q. induction ps as [|p ps IH]; intros s q Hq; simpl.
  - by rw app_nil_r insert_id.
  - rw (IH _ (q ++ [p])) /=.
    + rw -app_assoc /=. apply map_eq. intros k. destruct (decide (k = l)) as [->|]; [by rw !lookup_insert_eq|].
      by rw !lookup_insert_ne // lookup_alter_ne.
    + by rw lookup_alter_eq Hq.
Qed.

(** What is fixed in an arena. *)
Definition same_range (A B : pmm_arena) : Prop :=
  ar_base B = ar_base A ∧ ar_size B = ar_size A ∧ ar_flags B = ar_flags A ∧ ar_priority B = ar_priority A.

Lemma takes_arena ps l s a A : arenas s !! a = Some A →
  ∃ B, arenas (st_takes ps l s) !! a = Some B ∧ same_range A B ∧
    ((∀ p, p ∈ ps → p.1 ≠ a) → B = A).
Proof.
  revert s A. induction ps as [|p ps IH]; intros s A HA; [by exists A|]. simpl.
  destruct (decide (p.1 = a)) as [E|Hne].
  - destruct (IH (st_take p l s) (take_arena p A)) as (B & HB & Hs & _); [by rw /= -E lookup_alter_eq E HA|].
    exists B. split_and!; [done..|]. intros Hall. destruct (Hall p); [apply elem_of_cons; auto|done].
  - destruct (IH (st_take p l s) A) as (B & HB & Hs & Hr); [by rw /= lookup_alter_ne|].
    exists B. split_and!; [done..|]. intros Hall. apply Hr. intros p' Hp'. apply Hall, elem_of_cons. auto.
Qed.

(** ** Running the move *)

Lemma unlink_free s p : pmm_inv s → free s p →
  unlink p s = set_arenas (alter (λ A, set_free (ar_free_count A) (list_without p (free_list A)) A) p.1 (arenas s)) s.
Proof.
  intros I Hf. rw /unlink /set_arenas. f_equal.
  - apply map_eq. intros a. rw lookup_fmap. destruct (decide (p.1 = a)) as [<-|Hne]; [by rw lookup_alter_eq|].
    rw lookup_alter_ne //. destruct (arenas s !! a) as [A|] eqn:HA; [|done]. simpl. f_equal.
    rw list_without_id; [by destruct A|]. intros Hin. by destruct (list_free _ _ _ _ I HA Hin).
  - apply map_eq. intros l. rw lookup_fmap. destruct (page_lists s !! l) as [q|] eqn:Hq; [|done]. simpl. f_equal.
    apply list_without_id. intros Hin. eapply free_not_used; [done|]. by eapply pi_used.
Qed.

Lemma wp_get_arena a A (Q : pmm_arena → pmm → Prop) s : arenas s !! a = Some A → Q A s → wp (get_arena a) Q s.
Proof. intros HA HQ. by eapply wp_deref. Qed.

Lemma wp_upd_arena a A f (Q : unit → pmm → Prop) s :
  arenas s !! a = Some A → Q () (set_arenas (<[a := f A]> (arenas s)) s) → wp (upd_arena a f) Q s.
Proof. intros HA HQ. apply wp_bind. eapply wp_get_arena; [done|]. by apply wp_modify. Qed.

Lemma wp_upd_page p A pg f (Q : unit → pmm → Prop) s :
  arenas s !! p.1 = Some A → page_array A !! p.2 = Some pg →
  Q () (set_arenas (<[p.1 := set_page_array (alter f p.2 (page_array A)) A]> (arenas s)) s) → wp (upd_page p f) Q s.
Proof.
  intros HA Hp HQ. apply wp_bind. eapply wp_deref; [by rw HA|]. by eapply wp_upd_arena.
Qed.

Lemma wp_add_tail l q p (Q : unit → pmm → Prop) s :
  page_lists s !! l = Some q → Q () (set_page_lists (<[l := q ++ [p]]> (page_lists s)) s) → wp (add_tail l p) Q s.
Proof. intros Hl HQ. apply wp_bind. eapply wp_deref; [done|]. by apply wp_modify. Qed.

Lemma alter_insert_some {A} (f : A → A) k (m : gmap positive A) x : m !! k = Some x → alter f k m = <[k := f x]> m.
Proof.
  intros Hk. apply map_eq. intros j. destruct (decide (j = k)) as [->|]; [by rw lookup_alter_eq lookup_insert_eq Hk|].
  by rw lookup_alter_ne // lookup_insert_ne.
Qed.

Lemma wp_take_page s p l (Q : unit → pmm → Prop) :
  pmm_inv s → free s p → list_ready s l → Q () (st_take p l s) → wp (take_page p.1 p l) Q s.
Proof.
  intros I Hf Hl HQ. pose proof Hf as (pg & (A & HA & Hp)%page_at_some & Hpg).
  apply wp_bind. eapply wp_deref; [by rw HA|]. apply wp_bind, wp_gets, wp_bind, wp_assert; [by apply in_list_free|].
  apply wp_bind, wp_modify. rw unlink_free // (alter_insert_some _ _ _ A) //.
  apply wp_bind. eapply wp_upd_page; [by rw /= lookup_insert_eq|done|].
  apply wp_bind. apply (wp_mono _ (λ _ s', s' = Pmm (arena_list s)
    (<[p.1 := set_page_array (alter mark_nonfree p.2 (page_array A)) (set_free (ar_free_count A) (list_without p (free_list A)) A)]> (arenas s))
    (put_list l p (page_lists s)))).
  - destruct l as [l|]; [|by apply wp_ret; rw /set_arenas /= insert_insert_eq].
    destruct Hl as [q Hq]. eapply wp_add_tail; [done|]. by rw /set_page_lists /= insert_insert_eq (alter_insert_some _ _ _ q).
  - intros [] s' ->. eapply wp_upd_arena; [by rw /= lookup_insert_eq|].
    assert (st_take p l s = set_arenas (<[p.1 := set_free (ar_free_count A - 1) (list_without p (free_list A))
      (set_page_array (alter mark_nonfree p.2 (page_array A)) A)]> (arenas s))
      (Pmm (arena_list s) (arenas s) (put_list l p (page_lists s)))) as E.
    { rw /st_take (alter_insert_some _ _ _ A) //. }
    rw E in HQ. rw /set_arenas /= insert_insert_eq. exact HQ.
Qed.

(** ** A page comes back *)

Definition give_arena (p : page_ptr) (A : pmm_arena) : pmm_arena :=
  PmmArena (ar_flags A) (ar_priority A) (ar_base A) (ar_size A) (ar_free_count A + 1)
    (alter mark_free p.2 (page_array A)) (p :: free_list A).

Definition st_give (p : page_ptr) (s : pmm) : pmm :=
  Pmm (arena_list s) (alter (give_arena p) p.1 (arenas s)) (page_lists s).

Lemma arena_give_ok a A p pg :
  arena_ok a A → p.1 = a → page_array A !! p.2 = Some pg → page_is_free pg = false → arena_ok a (give_arena p A).
Proof.
  intros [? ? ? Hf Hnd Hc] Hp1 Hpg Hu. split; simpl; try done.
  - by rw length_alter.
  - intros p'. rw elem_of_cons Hf. split.
    + intros [->|(Ha & pg' & Hp' & Hfp)].
      * split; [done|]. exists (mark_free pg). split; [|apply mark_free_free].
        apply list_lookup_alter_cases. exists pg. by rw decide_True.
      * split; [done|]. exists pg'. split; [|done]. apply list_lookup_alter_cases. exists pg'. split; [done|].
        case_decide as E; [|done]. rw -E in Hp'. congruence.
    + intros (Ha & pg' & (y & Hy & ->)%list_lookup_alter_cases & Hfp). case_decide as E.
      * left. destruct p, p'; simpl in *; congruence.
      * right. split; [done|]. by exists y.
  - apply NoDup_cons. split; [|done]. rw Hf. intros (_ & pg' & ? & ?). congruence.
  - rw Hc. lia.
Qed.

Lemma give_page_at s p p' :
  page_at (st_give p s) p' = (if decide (p = p') then mark_free else id) <$> page_at s p'.
Proof.
  rw /page_at /=. destruct (decide (p.1 = p'.1)) as [E|Hne].
  - rw -E lookup_alter_eq. destruct (arenas s !! p.1) as [A|]; simpl; [|done].
    destruct (decide (p.2 = p'.2)) as [E2|Hne2].
    + rw -E2 list_lookup_alter_eq. case_decide; [done|]. destruct p, p'; simpl in *; congruence.
    + rw list_lookup_alter_ne //. case_decide; [by subst|]. by destruct (page_array A !! p'.2).
  - rw lookup_alter_ne //. case_decide; [by subst|]. by destruct (arenas s !! p'.1 ≫= _).
Qed.

Lemma give_free s p p' : used s p → free (st_give p s) p' ↔ free s p' ∨ p' = p.
Proof.
  intros (pg0 & Hp0 & Hf0). rw /free give_page_at. case_decide as E.
  - split; [naive_solver|]. intros _. subst. rw Hp0 /=. eexists. split; [done|]. apply mark_free_free.
  - rw option_fmap_id. naive_solver.
Qed.

Lemma give_used s p p' : used (st_give p s) p' ↔ used s p' ∧ p' ≠ p.
Proof.
  rw /used give_page_at. case_decide as E.
  - split; [|naive_solver]. intros (pg & (pg' & ? & ->)%fmap_Some & Hf). by rw mark_free_free in Hf.
  - rw option_fmap_id. naive_solver.
Qed.

Lemma give_inv s p : pmm_inv s → used s p → (∀ l q, page_lists s !! l = Some q → p ∉ q) → pmm_inv (st_give p s).
Proof.
  intros [Hnd Har Hok Hap Hls Hus Hon] Hu Hnl. pose proof Hu as (pg & (A & HA & Hp)%page_at_some & Hpg). split; simpl.
  - done.
  - intros a. rw Har. destruct (decide (p.1 = a)) as [<-|]; [|by rw lookup_alter_ne]. by rw lookup_alter_eq fmap_is_Some.
  - intros a B [(<- & B0 & HB & ->)|[_ HB]]%lookup_alter_Some; [|by apply Hok].
    assert (B0 = A) as -> by congruence. eapply arena_give_ok; [by apply Hok|done..].
  - assert (∀ a B, alter (give_arena p) p.1 (arenas s) !! a = Some B →
      ∃ B0, arenas s !! a = Some B0 ∧ ar_base B = ar_base B0 ∧ ar_size B = ar_size B0) as Hsame.
    { intros a B [(_ & B0 & HB & ->)|[_ HB]]%lookup_alter_Some; [by exists B0|by exists B]. }
    intros a b B C (B0 & HB & Eb1 & Eb2)%Hsame (C0 & HC & Ec1 & Ec2)%Hsame Hne.
    rw /apart Eb1 Eb2 Ec1 Ec2. by eapply Hap.
  - done.
  - intros k q x Hq Hx. apply give_used. split; [by eapply Hus|]. intros ->. by eapply Hnl.
  - done.
Qed.

(** Lists may shrink. *)
Lemma shrink_inv s l rest p :
  pmm_inv s → page_lists s !! l = Some (p :: rest) → pmm_inv (set_page_lists (<[l := rest]> (page_lists s)) s).
Proof.
  intros [Hnd Har Hok Hap Hls Hus Hon] Hl.
  assert (∀ k q, <[l := rest]> (page_lists s) !! k = Some q →
    ∃ q0, page_lists s !! k = Some q0 ∧ (∀ x, x ∈ q → x ∈ q0) ∧ (NoDup q0 → NoDup q)) as Hsub.
  { intros k q [[<- <-]|[_ Hq]]%lookup_insert_Some; [|by exists q]. exists (p :: rest). split_and!; [done| |].
    - intros x Hx. apply elem_of_cons. auto.
    - by intros [_ ?]%NoDup_cons. }
  split; simpl; try done.
  - intros k q (q0 & Hq & _ & Hn)%Hsub. by eapply Hn, Hls.
  - intros k q x (q0 & Hq & Hi & _)%Hsub Hx. eapply (Hus k q0); [done|auto].
  - intros k k' q q' x (q0 & Hq & Hi & _)%Hsub (q0' & Hq' & Hi' & _)%Hsub Hx Hx'. eapply Hon; eauto.
Qed.
