(* ===== verification/PmmSpec.v ===== *)
(** * What the page allocator does

    Functional theorems for the operations of [Pmm]: which pages are handed out
    and in which order, that freeing gives back exactly what was taken, that the
    search for a contiguous run finds one whenever there is one, and that page
    structures and physical addresses correspond. *)

From S2P Require Import Prelude Bits Pmm PmmInv.

(** ** Pages from the free lists *)

(** One iteration of [pmm_alloc_pages]. *)
Lemma wp_take_head {B} s a A p rest l q (k : P B) (Q : B → pmm → Prop) :
  pmm_inv s → arenas s !! a = Some A → free_list A = p :: rest → page_lists s !! l = Some q →
  wp k Q (st_take p (Some l) s) →
  wp (upd_arena a (λ A, set_free (ar_free_count A - 1) rest A);; upd_page p mark_nonfree;; add_tail l p;; k) Q s.
Proof.
  intros I HA Hfl Hq HQ. pose proof (pi_ok _ I _ _ HA) as Ok.
  assert (p ∈ free_list A) as Hin by (rw Hfl; apply elem_of_cons; auto).
  destruct (proj1 (ao_free _ _ Ok p) Hin) as (Hp1 & pg & Hpg & _).
  apply wp_bind. eapply wp_upd_arena; [done|]. apply wp_bind. eapply wp_upd_page; [by rw /= Hp1 lookup_insert_eq|done|].
  apply wp_bind. eapply wp_add_tail; [done|].
  assert (st_take p (Some l) s = Pmm (arena_list s)
    (<[a := set_page_array (alter mark_nonfree p.2 (page_array A)) (set_free (ar_free_count A - 1) rest A)]> (arenas s))
    (<[l := q ++ [p]]> (page_lists s))) as E.
  { rw /st_take /= (alter_insert_some _ _ _ q) // Hp1 (alter_insert_some _ _ _ A) // /take_arena Hfl.
    rw list_without_head; [done|]. rw -Hfl. apply Ok. }
  rw E in HQ. rw /set_page_lists /set_arenas /= Hp1 insert_insert_eq. exact HQ.
Qed.

Lemma wp_alloc_from_arena fuel s a A l q count allocated (Q : bool * Z → pmm → Prop) :
  pmm_inv s → arenas s !! a = Some A → page_lists s !! l = Some q → (length (free_list A) < fuel)%nat →
  (∀ ps, ps = take (Z.to_nat (count - allocated)) (free_list A) →
    Q (false, allocated + Z.of_nat (length ps)) (st_takes ps (Some l) s)) →
  wp (alloc_from_arena fuel a count l allocated) Q s.
Proof.
  revert s A q allocated. induction fuel as [|fuel IH]; intros s A q allocated I HA Hq Hfuel HQ; [lia|].
  apply wp_bind. eapply wp_get_arena; [done|]. pose proof (pi_ok _ I _ _ HA) as Ok.
  destruct (free_list A) as [|p rest] eqn:Hfl.
  - rw (ao_count _ _ Ok) Hfl /= andb_false_r. apply wp_ret. specialize (HQ [] ltac:(by rw take_nil)).
    simpl in HQ. by rw Z.add_0_r in HQ.
  - assert ((0 <? ar_free_count A) = true) as -> by (apply Z.ltb_lt; rw (ao_count _ _ Ok) Hfl /=; lia).
    rw andb_true_r. apply wp_if; intros Hlt; to_prop.
    + destruct (list_free _ _ _ p I HA) as [Hp1 Hf]; [rw Hfl; apply elem_of_cons; auto|].
      eapply wp_take_head; [done..|]. assert (free_list (take_arena p A) = rest) as Hr.
      { rw /= Hfl list_without_head; [done|]. rw -Hfl. apply Ok. }
      eapply (IH _ (take_arena p A)); [by apply take_inv|by rw /= Hp1 lookup_alter_eq HA|by rw /= lookup_alter_eq Hq| |].
      * rw Hr. simpl in Hfuel. lia.
      * intros ps Hps. rw Hr in Hps. specialize (HQ (p :: ps)). simpl in HQ.
        replace (allocated + 1 + Z.of_nat (length ps)) with (allocated + Z.of_nat (S (length ps))) by lia. apply HQ.
        replace (Z.to_nat (count - allocated)) with (S (Z.to_nat (count - (allocated + 1)))) by lia. simpl. by f_equal.
    + apply wp_ret. specialize (HQ []). simpl in HQ. rw Z.add_0_r in HQ. apply HQ.
      by replace (Z.to_nat (count - allocated)) with O by lia.
Qed.

(** The free pages in the order [pmm_alloc_pages] hands them out: the arenas in
    the order of the list, each free list from its head. *)
Definition free_of (s : pmm) (a : positive) : list page_ptr :=
  match arenas s !! a with Some A => free_list A | None => [] end.

Definition free_order (s : pmm) (as_ : list positive) : list page_ptr := concat (map (free_of s) as_).

Lemma free_of_elem s a p : pmm_inv s → p ∈ free_of s a → p.1 = a ∧ free s p.
Proof.
  intros I. rw /free_of. destruct (arenas s !! a) as [A|] eqn:HA; [by apply list_free|by intros []%not_elem_of_nil].
Qed.

Lemma free_order_elem s as_ p : pmm_inv s → p ∈ free_order s as_ → p.1 ∈ as_ ∧ free s p.
Proof.
  intros I. rw /free_order. induction as_ as [|a as_ IH]; simpl; [by intros []%not_elem_of_nil|].
  intros [[<- ?]%(free_of_elem _ _ _ I)|[? ?]%IH]%elem_of_app; [split; [apply elem_of_cons; auto|done]|].
  split; [apply elem_of_cons; auto|done].
Qed.

Lemma free_order_nodup s as_ : pmm_inv s → NoDup as_ → NoDup (free_order s as_).
Proof.
  intros I. rw /free_order. induction as_ as [|a as_ IH]; simpl; intros Hnd; [constructor|].
  apply NoDup_cons in Hnd as [Ha Hnd]. apply NoDup_app. split_and!.
  - rw /free_of. destruct (arenas s !! a) as [A|] eqn:HA; [by apply (pi_ok _ I _ _ HA)|constructor].
  - intros p [Hp _]%(free_of_elem _ _ _ I) [Hp' _]%(free_order_elem _ _ _ I). by subst.
  - by apply IH.
Qed.

(** Every free page is in the order, once. *)
Lemma free_order_all s p : pmm_inv s → free s p → p ∈ free_order s (arena_list s).
Proof.
  intros I Hf. destruct (free_in_list _ _ I Hf) as (A & HA & Hin).
  assert (p.1 ∈ arena_list s) as Ha by (apply (pi_arenas _ I); by exists A).
  rw /free_order. revert Ha. generalize (arena_list s). induction l as [|a l IH]; simpl; [by intros []%not_elem_of_nil|].
  intros [<-|?]%elem_of_cons; apply elem_of_app; [left; by rw /free_of HA|right; auto].
Qed.

Lemma wp_alloc_from_arenas as_ s l q count n0 (Q : Z → pmm → Prop) :
  pmm_inv s → NoDup as_ → (∀ a, a ∈ as_ → is_Some (arenas s !! a)) → page_lists s !! l = Some q → n0 ≤ count →
  (∀ ps, ps = take (Z.to_nat (count - n0)) (free_order s as_) →
    Q (n0 + Z.of_nat (length ps)) (st_takes ps (Some l) s)) →
  wp (alloc_from_arenas as_ count l n0) Q s.
Proof.
  revert s q n0. induction as_ as [|a as_ IH]; intros s q n0 I Hnd Has Hq Hn HQ; cbn [alloc_from_arenas].
  - apply wp_ret. specialize (HQ [] ltac:(by rw /free_order /= take_nil)). simpl in HQ. by rw Z.add_0_r in HQ.
  - apply NoDup_cons in Hnd as [Ha Hnd]. destruct (Has a) as [A HA]; [apply elem_of_cons; auto|].
    pose proof (pi_ok _ I _ _ HA) as Ok. apply wp_bind. eapply wp_get_arena; [done|]. apply wp_bind.
    eapply wp_alloc_from_arena; [done..|rw (ao_count _ _ Ok); lia|]. intros ps Eps.
    assert (∀ p, p ∈ ps → p.1 = a ∧ free s p) as Hps.
    { intros p Hp. rw Eps in Hp. by apply (list_free _ _ _ _ I HA), (elem_of_take_list (Z.to_nat (count - n0))). }
    assert (NoDup ps) as Hndp by (rw Eps; eapply sublist_NoDup; [apply Ok|apply sublist_take]).
    assert (∀ a', a' ∈ as_ → arenas (st_takes ps (Some l) s) !! a' = arenas s !! a') as Hrest.
    { intros a' Ha'. destruct (Has a') as [B HB]; [apply elem_of_cons; auto|].
      destruct (takes_arena ps (Some l) s a' B HB) as (B' & HB' & _ & Hsame).
      rw HB' HB Hsame //. intros p [-> _]%Hps. by intros ->. }
    eapply (IH _ (q ++ ps)); [apply takes_inv; [done..|naive_solver]|done| | | |].
    + intros a' Ha'. rw Hrest //. apply Has, elem_of_cons. auto.
    + by rw (takes_list _ _ _ q) // lookup_insert_eq.
    + rw Eps length_take. lia.
    + intros ps' Eps'. assert (free_order (st_takes ps (Some l) s) as_ = free_order s as_) as Efo.
      { rw /free_order. f_equal. apply map_ext_in. intros a' Ha'%list_elem_of_In. by rw /free_of Hrest. }
      rw -takes_app -Z.add_assoc -Nat2Z.inj_add -length_app. apply HQ.
      rw /free_order /= {1}/free_of HA take_app -Eps. f_equal. rw Eps' Efo. f_equal. rw Eps length_take. lia.
Qed.

Lemma wp_pmm_alloc_pages s count l q :
  pmm_inv s → page_lists s !! l = Some q → 0 ≤ count →
  wp (pmm_alloc_pages count l) (λ n s', ∃ ps,
    ps = take (Z.to_nat count) (free_order s (arena_list s)) ∧ NoDup ps ∧ n = Z.of_nat (length ps) ∧
    page_lists s' = <[l := q ++ ps]> (page_lists s) ∧
    (∀ p, free s' p ↔ free s p ∧ p ∉ ps) ∧ pmm_inv s' ∧ s' = st_takes ps (Some l) s) s.
Proof.
  intros I Hq Hc. set (fo := free_order s (arena_list s)).
  assert (∀ k, NoDup (take k fo) ∧ ∀ p, p ∈ take k fo → free s p) as Hk.
  { intros k. split; [eapply sublist_NoDup; [apply free_order_nodup; [done|by apply I]|apply sublist_take]|].
    intros p Hp%elem_of_take_list. by apply (free_order_elem s (arena_list s)). }
  apply wp_if; intros Hz; to_prop.
  - subst. apply wp_ret. exists []. split_and!; [done|constructor|done| | |done|done].
    + by rw app_nil_r insert_id.
    + intros p. split; [|naive_solver]. intros. split; [done|apply not_elem_of_nil].
  - apply wp_bind, wp_gets. eapply wp_alloc_from_arenas; [done|apply I| |done|done|].
    + intros a. apply (pi_arenas _ I).
    + intros ps Eps. rw Z.sub_0_r in Eps. exists ps. subst ps. destruct (Hk (Z.to_nat count)) as [Hnd Hf].
      split_and!; [done|done|done|by apply takes_list| |by apply takes_inv|done]. intros p. apply takes_free.
Qed.

(** [pmm_alloc_pages] hands out the first [count] free pages, taking the
    arenas in order of priority and each free list from its head, or all of them
    when there are fewer.  It returns their number, appends them to the caller's
    list, marks exactly them allocated, and keeps the invariant. *)
Theorem pmm_alloc_pages_spec s count l q :
  pmm_inv s → page_lists s !! l = Some q → 0 ≤ count →
  wp (pmm_alloc_pages count l) (λ n s', ∃ ps,
    ps = take (Z.to_nat count) (free_order s (arena_list s)) ∧ NoDup ps ∧ n = Z.of_nat (length ps) ∧
    page_lists s' = <[l := q ++ ps]> (page_lists s) ∧
    (∀ p, free s' p ↔ free s p ∧ p ∉ ps) ∧ pmm_inv s') s.
Proof.
  intros I Hq Hc. eapply wp_mono; [by apply (wp_pmm_alloc_pages s count l q)|].
  intros n s' (ps & ? & ? & ? & ? & ? & ? & _). by exists ps.
Qed.

(** ** Freeing *)

Lemma belongs_spec s p a A : pmm_inv s → used s p → arenas s !! a = Some A → PAGE_BELONGS_TO_ARENA p a A = bool_decide (p.1 = a).
Proof.
  intros I (pg & (B & HB & Hp)%page_at_some & _) HA. rw /PAGE_BELONGS_TO_ARENA. case_bool_decide as E; [|done]. simpl.
  apply Z.ltb_lt. assert (B = A) as -> by congruence. rw -(proj1 (ao_pages _ _ (pi_ok _ I _ _ HA))).
  apply lookup_lt_Some in Hp. lia.
Qed.

Lemma wp_free_to_arena as_ s p (Q : Z → pmm → Prop) :
  pmm_inv s → used s p → (∀ a, a ∈ as_ → is_Some (arenas s !! a)) → p.1 ∈ as_ → Q 1 (st_give p s) →
  wp (free_to_arena as_ p) Q s.
Proof.
  intros I Hu. induction as_ as [|a as_ IH]; intros Has Hin HQ; [by apply not_elem_of_nil in Hin|].
  destruct (Has a) as [A HA]; [apply elem_of_cons; auto|].
  cbn [free_to_arena]. apply wp_bind. eapply wp_get_arena; [done|]. rw (belongs_spec s) //.
  apply wp_if; intros E; to_prop.
  - pose proof Hu as (pg & (B & HB & Hp)%page_at_some & _). subst a. assert (B = A) as -> by congruence.
    apply wp_bind. eapply wp_upd_page; [done..|]. apply wp_bind. eapply wp_upd_arena; [by rw /= lookup_insert_eq|].
    apply wp_ret. rw /set_arenas /= insert_insert_eq.
    rw /st_give (alter_insert_some _ _ _ A) // in HQ.
  - apply IH; [|apply elem_of_cons in Hin as [?|?]; [done|done]|done]. intros b Hb. apply Has, elem_of_cons. auto.
Qed.

Lemma wp_pmm_free_loop fuel s l q count (Q : Z → pmm → Prop) :
  pmm_inv s → page_lists s !! l = Some q → (length q < fuel)%nat →
  (∀ s', pmm_inv s' → page_lists s' = <[l := []]> (page_lists s) → arena_list s' = arena_list s →
    (∀ p, free s' p ↔ free s p ∨ p ∈ q) → Q (count + Z.of_nat (length q)) s') →
  wp (pmm_free_loop fuel l count) Q s.
Proof.
  revert s q count. induction fuel as [|fuel IH]; intros s q count I Hq Hlt HQ; [lia|].
  cbn [pmm_free_loop]. apply wp_bind. eapply wp_deref; [done|]. destruct q as [|p rest].
  - apply wp_ret. specialize (HQ s). simpl in HQ. rw Z.add_0_r in HQ. apply HQ; [done| |done|].
    + by rw insert_id.
    + intros p. split; [by left|]. by intros [?|[]%not_elem_of_nil].
  - apply wp_bind, wp_modify. set (s1 := set_page_lists _ s).
    assert (pmm_inv s1) as I1 by by eapply shrink_inv.
    assert (p ∈ p :: rest) as Hin by (apply elem_of_cons; auto).
    assert (used s1 p) as Hu by exact (pi_used _ I _ _ _ Hq Hin).
    assert (∀ k q, page_lists s1 !! k = Some q → p ∉ q) as Hnl.
    { intros k q Hk Hp. rw /s1 /= in Hk. apply lookup_insert_Some in Hk as [[<- <-]|[Hne Hk]].
      - pose proof (pi_lists _ I _ _ Hq) as [? _]%NoDup_cons. done.
      - apply Hne. by eapply (pi_once _ I l k _ q p). }
    apply wp_bind, wp_gets, wp_bind, wp_assert; [by rw in_list_not|]. pose proof Hu as (pg & Hpg & Hpf).
    apply wp_bind. eapply wp_deref; [exact Hpg|]. apply wp_bind, wp_assert; [by rw Hpf|]. apply wp_bind.
    destruct (page_at_some _ _ _ Hpg) as (A & HA & _).
    apply wp_free_to_arena; [done|done|intros a; apply (pi_arenas _ I)|apply (pi_arenas _ I); by exists A|].
    eapply (IH _ rest); [by apply give_inv|by rw /= lookup_insert_eq|simpl in Hlt; lia|].
    intros s' I' El Ea Hf. replace (count + 1 + Z.of_nat (length rest)) with (count + Z.of_nat (length (p :: rest))) by (simpl; lia).
    apply HQ; [done|by rw El /= insert_insert_eq|by rw Ea|].
    intros p'. rw Hf give_free // elem_of_cons. assert (free s1 p' ↔ free s p') as -> by done. naive_solver.
Qed.

Lemma wp_pmm_free s l q :
  pmm_inv s → page_lists s !! l = Some q →
  wp (pmm_free l) (λ n s', n = Z.of_nat (length q) ∧ page_lists s' = <[l := []]> (page_lists s) ∧
    (∀ p, free s' p ↔ free s p ∨ p ∈ q) ∧ pmm_inv s') s.
Proof.
  intros I Hq. apply wp_bind. eapply wp_deref; [done|]. eapply wp_pmm_free_loop; [done..|lia|]. by intros.
Qed.

(** [pmm_free] gives back exactly the pages of the list, whatever arenas they
    came from: it returns their number, empties the list, marks them free, and
    keeps the invariant. *)
Theorem pmm_free_spec s l q :
  pmm_inv s → page_lists s !! l = Some q →
  wp (pmm_free l) (λ n s', n = Z.of_nat (length q) ∧ page_lists s' = <[l := []]> (page_lists s) ∧
    (∀ p, free s' p ↔ free s p ∨ p ∈ q) ∧ pmm_inv s') s.
Proof. apply wp_pmm_free. Qed.

(** ** Contiguous runs *)

(** The [count] pages of arena [a] from [start]. *)
Definition run (a : positive) (start count : Z) : list page_ptr := map (pair a) (seq (Z.to_nat start) (Z.to_nat count)).

Definition run_free (A : pmm_arena) (start count : Z) : Prop :=
  ∀ j pg, start ≤ j < start + count → page_array A !! Z.to_nat j = Some pg → page_is_free pg = true.

Lemma first_used_spec pages pos n : (pos + n ≤ length pages)%nat →
  (first_used pages pos n = Some None ∧
     ∀ j pg, (pos ≤ j < pos + n)%nat → pages !! j = Some pg → page_is_free pg = true) ∨
  (∃ i pg, first_used pages pos n = Some (Some i) ∧ (i < n)%nat ∧ pages !! (pos + i)%nat = Some pg ∧ page_is_free pg = false).
Proof.
  revert pos. induction n as [|n IH]; intros pos Hlen; simpl; [left; split; [done|lia]|].
  destruct (lookup_lt_is_Some_2 pages pos) as [pg Hpg]; [lia|]. rw Hpg /=. destruct (page_is_free pg) eqn:Hf.
  - destruct (IH (S pos)) as [[-> Hall]|(i & pg' & -> & Hi & Hp & Hpf)]; [lia| |]; simpl.
    + left. split; [done|]. intros j pg' Hj Hpj. destruct (decide (j = pos)) as [->|]; [congruence|]. apply (Hall j); [lia|done].
    + right. exists (S i), pg'. split_and!; [done|lia| |done]. by rw -Nat.add_succ_comm.
  - right. exists O, pg. split_and!; [done|lia| |done]. by rw Nat.add_0_r.
Qed.

(** The step of the search passes over no candidate that could be a free run. *)
Lemma next_start start off i k st :
  0 ≤ k ≤ 19 → 0 ≤ off ≤ start → 0 ≤ i → start + i < 2 ^ 31 → (2 ^ k | start - off) →
  let start' := u32 (ROUNDUP (u32 (start - off + i + 1)) (2 ^ k) + off) in
  start + i < start' < 2 ^ 32 ∧ (2 ^ k | start' - off) ∧
  ((2 ^ k | st - off) → st < start' → st ≤ start + i).
Proof.
  intros Hk Hoff Hi Hlt Hdiv. cbv zeta. assert (2 ^ k ≤ 2 ^ 19) as Hk2 by (apply Z.pow_le_mono_r; lia).
  rw (u32_small (start - off + i + 1)); [|lia].
  pose proof (Z.pow_pos_nonneg 2 k ltac:(lia) ltac:(lia)) as Hp.
  destruct (roundup_spec (start - off + i + 1) k) as (Hd & Hlo & Hhi); [lia|lia|lia|].
  rw u32_small; [|lia]. split_and!; [lia|lia| |].
  - by replace (ROUNDUP (start - off + i + 1) (2 ^ k) + off - off) with (ROUNDUP (start - off + i + 1) (2 ^ k)) by lia.
  - intros [x Hx] Hst. destruct Hd as [y Hy]. rw Hy in Hst, Hlo, Hhi. assert (x ≤ y - 1) by nia. nia.
Qed.

Lemma contig_search_spec fuel a A count al off start :
  arena_ok a A → 0 < count < 2 ^ 31 → 12 ≤ al ≤ 31 → 0 ≤ off ≤ start → start < 2 ^ 32 →
  (2 ^ (al - 12) | start - off) → page_count A - start < Z.of_nat fuel → (0 < fuel)%nat →
  ∃ r, contig_search fuel A count al off start = Some r ∧
    match r with
    | Some st => start ≤ st ∧ (2 ^ (al - 12) | st - off) ∧ st + count ≤ page_count A ∧ run_free A st count
    | None => ∀ st, start ≤ st → (2 ^ (al - 12) | st - off) → st + count ≤ page_count A → ¬ run_free A st count
    end.
Proof.
  intros Ok Hc Hal. pose proof (ao_pages _ _ Ok) as [Hlen Hpc].
  revert start. induction fuel as [|fuel IH]; intros start Hoff Hs32 Hdiv Hfuel H0; [lia|].
  cbn [contig_search]. destruct ((start <? page_count A) && (u32 (start + count) <=? page_count A)) eqn:Hcond.
  - to_prop. rw u32_small in H1; [|lia].
    destruct (first_used_spec (page_array A) (Z.to_nat start) (Z.to_nat count)) as [[-> Hall]|(i & pg & -> & Hi & Hp & Hu)]; [lia| |]; simpl.
    + exists (Some start). split_and!; [done|lia|done|lia|]. intros j pg Hj Hp. apply (Hall (Z.to_nat j)); [lia|done].
    + destruct (next_start start off (Z.of_nat i) (al - 12) 0) as (Hlt & Hd & _); [lia|lia|lia|lia|done|].
      destruct (IH (u32 (ROUNDUP (u32 (start - off + Z.of_nat i + 1)) (2 ^ (al - 12)) + off))) as (r & Hr & HR); [lia|lia|done|lia|lia|].
      exists r. split; [exact Hr|]. destruct r as [st|].
      * destruct HR as (? & ? & ? & ?). split_and!; [lia|done|done|done].
      * intros st Hst Hsd Hend Hrun.
        destruct (next_start start off (Z.of_nat i) (al - 12) st) as (_ & _ & Hskip); [lia|lia|lia|lia|done|].
        destruct (decide (st < u32 (ROUNDUP (u32 (start - off + Z.of_nat i + 1)) (2 ^ (al - 12)) + off))) as [Hl|Hge].
        -- assert (page_is_free pg = true) as E; [|congruence]. apply (Hrun (start + Z.of_nat i)).
           ++ split; [by apply Hskip|lia].
           ++ by replace (Z.to_nat (start + Z.of_nat i)) with (Z.to_nat start + i)%nat by lia.
        -- apply (HR st); [lia|done..].
  - exists None. split; [done|]. intros st Hst Hsd Hend _. apply andb_false_iff in Hcond as [Hcond|Hcond]; to_prop; [lia|].
    rw u32_small in Hcond; lia.
Qed.

Lemma wp_take_run n s a i ol (Q : unit → pmm → Prop) :
  pmm_inv s → list_ready s ol → (∀ p, p ∈ map (pair a) (seq i n) → free s p) →
  Q () (st_takes (map (pair a) (seq i n)) ol s) → wp (take_run n a i ol) Q s.
Proof.
  revert s i. induction n as [|n IH]; intros s i I Hl Hf HQ; [by apply wp_ret|]. cbn [take_run].
  assert (free s (a, i)) as Hfi by (apply Hf; simpl; apply elem_of_cons; auto).
  pose proof Hfi as (pg & Hpg & Hpf). apply wp_bind. eapply wp_deref; [exact Hpg|]. apply wp_bind, wp_assert; [done|].
  apply wp_bind. apply (wp_take_page s (a, i)); [done..|]. apply IH.
  - by apply take_inv.
  - destruct ol as [l|]; [|done]. simpl. destruct Hl as [q Hq]. rw lookup_alter_eq Hq. by eexists.
  - intros p Hp. apply take_free. split; [apply Hf; simpl; apply elem_of_cons; auto|].
    intros ->. apply list_elem_of_fmap in Hp as (j & [= ->] & Hj%elem_of_seq). lia.
  - done.
Qed.

Lemma run_elem a st count p : p ∈ run a st count ↔ p.1 = a ∧ (Z.to_nat st ≤ p.2 < Z.to_nat st + Z.to_nat count)%nat.
Proof.
  rw /run. split.
  - intros (j & -> & Hj%elem_of_seq)%list_elem_of_fmap. done.
  - intros [<- Hj]. apply list_elem_of_fmap. exists p.2. split; [by destruct p|]. by apply elem_of_seq.
Qed.

Lemma run_nodup a st count : NoDup (run a st count).
Proof. apply NoDup_fmap; [by intros ? ? [= ->]|apply NoDup_seq]. Qed.

(** A free run of the page array is a run of free pages. *)
Lemma run_free_pages s a A st count :
  pmm_inv s → arenas s !! a = Some A → 0 ≤ st → 0 ≤ count → st + count ≤ page_count A →
  run_free A st count ↔ ∀ p, p ∈ run a st count → free s p.
Proof.
  intros I HA Hst Hc Hend. pose proof (ao_pages _ _ (pi_ok _ I _ _ HA)) as [Hlen _]. split.
  - intros Hr p [Hp1 Hp2]%run_elem. destruct (lookup_lt_is_Some_2 (page_array A) p.2) as [pg Hpg]; [lia|].
    exists pg. split; [by rw /page_at Hp1 HA|]. apply (Hr (Z.of_nat p.2)); [lia|by rw Nat2Z.id].
  - intros Hf j pg Hj Hpg. destruct (Hf (a, Z.to_nat j)) as (pg' & Hpg' & Hfree); [apply run_elem; simpl; split; [done|lia]|].
    rw (page_at_arena _ _ _ A HA) in Hpg'. congruence.
Qed.

(** The address of page [st] of an arena is aligned exactly when [st] is one of
    the starts the search looks at. *)
Lemma aligned_start A a al st :
  arena_ok a A → 12 ≤ al ≤ 31 → 0 ≤ st < page_count A →
  let rb := ROUNDUP (ar_base A) (2 ^ al) in
  let off := u32 ((rb - ar_base A) / PAGE_SIZE) in
  (2 ^ al | ar_base A + st * PAGE_SIZE) ↔
  ar_base A ≤ rb ≤ ar_base A + ar_size A - 1 ∧ off ≤ st ∧ (2 ^ (al - 12) | st - off).
Proof.
  intros Ok Hal Hst rb off. destruct (ao_base _ _ Ok) as [Hb [b Eb]].
  destruct (ao_size _ _ Ok) as (Hsz & [n En] & Hend).
  assert (page_count A = n) as Epc by (rw /page_count En; by apply Z.div_mul).
  assert (2 ^ al = 2 ^ (al - 12) * PAGE_SIZE) as Eal.
  { rw -(Z.pow_add_r 2 (al - 12) 12); [|lia|lia]. f_equal. lia. }
  pose proof (Z.pow_pos_nonneg 2 (al - 12) ltac:(lia) ltac:(lia)) as Hpk.
  assert (2 ^ al ≤ 2 ^ 31) as Hal2 by (apply Z.pow_le_mono_r; lia).
  pose proof (proj2 (ao_pages _ _ Ok)) as Hpc. rw /PAGE_SIZE in Eb En Eal |- *.
  destruct (decide (ar_base A + (2 ^ al - 1) < 2 ^ 64)) as [Hlt|Hge].
  - destruct (roundup_spec (ar_base A) al) as ([y Hy] & Hlo & Hhi); [lia|done|done|]. fold rb in Hy, Hlo, Hhi.
    set (P := 2 ^ (al - 12)) in *. assert (rb - ar_base A = (y * P - b) * 4096) as Ed by (rw Hy Eb Eal; ring).
    assert (off = u32 (y * P - b)) as Eo by (rw /off /PAGE_SIZE Ed Z.div_mul //). split.
    + intros [x Hx]. assert (b + st = x * P) as Hx' by nia.
      assert (y ≤ x) as Hyx by nia. rw u32_small in Eo; [|nia]. split_and!; [nia|nia|nia|]. exists (x - y). nia.
    + intros (Hin & Hos & [x Hx]). rw u32_small in Eo; [|nia]. exists (x + y). nia.
  - assert (rb = 0) as Erb.
    { rw /rb /ROUNDUP ldiff_ones_div; [|lia]. rw /u64 -(Z.mod_add _ (-1)); [|lia]. rw Z.mod_small; [|lia].
      rw Z.div_small; [done|lia]. }
    split; [|intros; lia]. intros [x Hx]. exfalso.
    assert (2 ^ 64 = 2 ^ (64 - al) * 2 ^ al) as E64 by (rw -Z.pow_add_r; [f_equal; lia|lia|lia]).
    rw E64 in Hge Hend. rw En in Hend. rw Epc in Hst. assert (x < 2 ^ (64 - al)) by nia. nia.
Qed.

(** [count] free pages at an aligned address of an arena mapped for the kernel. *)
Definition free_run_at (s : pmm) (a : positive) (A : pmm_arena) (st count al : Z) : Prop :=
  arenas s !! a = Some A ∧ Z.land (ar_flags A) PMM_ARENA_FLAG_KMAP ≠ 0 ∧ 0 ≤ st ∧ st + count ≤ page_count A ∧
  (2 ^ al | ar_base A + st * PAGE_SIZE) ∧ ∀ p, p ∈ run a st count → free s p.

Lemma wp_contig_arenas as_ s count al ol (Q : Z * option Z → pmm → Prop) :
  pmm_inv s → 0 < count < 2 ^ 31 → 12 ≤ al ≤ 31 → list_ready s ol → (∀ a, a ∈ as_ → is_Some (arenas s !! a)) →
  (∀ a A st, a ∈ as_ → free_run_at s a A st count al →
    Q (count, Some (ar_base A + st * PAGE_SIZE)) (st_takes (run a st count) ol s)) →
  ((∀ a A st, a ∈ as_ → ¬ free_run_at s a A st count al) → Q (0, None) s) →
  wp (contig_arenas as_ count al ol) Q s.
Proof.
  intros I Hc Hal Hl. induction as_ as [|a as_ IH]; intros Has HQ HQn.
  { apply wp_ret, HQn. by intros ? ? ? []%not_elem_of_nil. }
  destruct (Has a) as [A HA]; [apply elem_of_cons; auto|]. pose proof (pi_ok _ I _ _ HA) as Ok.
  pose proof (ao_pages _ _ Ok) as [Hlen Hpc]. pose proof (ao_size _ _ Ok) as (Hsz & _ & Hend). pose proof (ao_base _ _ Ok) as [Hb _].
  assert ((∀ A' st, ¬ free_run_at s a A' st count al) → wp (contig_arenas as_ count al ol) Q s) as Hnext.
  { intros Hno. apply IH.
    - intros b Hb'. apply Has, elem_of_cons. auto.
    - intros b B st Hb'. apply HQ, elem_of_cons. auto.
    - intros Hno'. apply HQn. intros b B st [->|Hb']%elem_of_cons; [apply Hno|by apply Hno']. }
  cbn [contig_arenas]. apply wp_bind. eapply wp_get_arena; [done|]. apply wp_if; intros Hfl; to_prop.
  { apply Hnext. intros A' st (HA' & Hk & _). congruence. }
  assert (u64 (ar_base A + ar_size A - 1) = ar_base A + ar_size A - 1) as Eu by (apply u64_small; lia). cbv zeta. rw Eu.
  apply wp_if; intros Hrb.
  { apply Hnext. intros A' st (HA' & _ & Hst & Hse & Hd & _). assert (A' = A) as -> by congruence.
    apply (aligned_start A a al st Ok Hal) in Hd as (? & _); [|lia]. apply orb_true_iff in Hrb as [?|?]; to_prop; lia. }
  to_prop. set (off := u32 _).
  destruct (contig_search_spec (S (Z.to_nat (page_count A))) a A count al off off) as (r & Er & Hr);
    [done|done|done|split; [apply u32_range|done]|apply u32_range|by rw Z.sub_diag; apply Z.divide_0_r| |lia|].
  { pose proof (u32_range ((ROUNDUP (ar_base A) (2 ^ al) - ar_base A) / PAGE_SIZE)). fold off in H1. lia. }
  assert (0 ≤ off) as Hoff by apply u32_range.
  apply wp_bind. eapply wp_deref; [exact Er|]. destruct r as [st|].
  - destruct Hr as (Hst & Hd & Hse & Hrun). assert (0 ≤ st) as Hst0 by lia.
    assert (free_run_at s a A st count al) as Hfr.
    { split_and!; [done|done|done|done| |].
      - apply (aligned_start A a al st Ok Hal); [lia|]. split_and!; [done|done|exact Hst|exact Hd].
      - apply (run_free_pages s a A); [done..|lia|done|done]. }
    rw (u32_small (st + count)); [|lia]. replace (st + count - st) with count by lia. apply wp_bind.
    apply wp_take_run; [done|done|by apply Hfr|]. apply wp_ret.
    assert (page_count A * PAGE_SIZE ≤ ar_size A) as Hmul by (rw /page_count Z.mul_comm; by apply Z.mul_div_le).
    rw u64_small; [|rw /PAGE_SIZE in Hmul |- *; lia]. apply HQ; [apply elem_of_cons; auto|done].
  - apply Hnext. intros A' st (HA' & _ & Hst & Hse & Hd & Hrun). assert (A' = A) as -> by congruence.
    apply (aligned_start A a al st Ok Hal) in Hd as (_ & Hos & Hd); [|lia].
    apply (Hr st); [exact Hos|exact Hd|done|]. apply (run_free_pages s a A); [done..|lia|done|done].
Qed.


(** ** Page structures and addresses *)

(** The address of a page, by definition. *)
Definition address_of (s : pmm) (p : page_ptr) (pa : Z) : Prop :=
  ∃ A, arenas s !! p.1 = Some A ∧ pa = ar_base A + Z.of_nat p.2 * PAGE_SIZE ∧ Z.of_nat p.2 < page_count A.

Lemma arena_mul a A : arena_ok a A → ar_size A = page_count A * PAGE_SIZE.
Proof.
  intros Ok. destruct (ao_size _ _ Ok) as (_ & [n En] & _). rw /page_count En Z.div_mul //.
Qed.

Lemma vm_page_to_paddr_found s p pa l :
  pmm_inv s → address_of s p pa → (∀ a, a ∈ l → is_Some (arenas s !! a)) → p.1 ∈ l → vm_page_to_paddr_loop s p l = Some pa.
Proof.
  intros I (A & HA & -> & Hlt) Hl Hin. pose proof (pi_ok _ I _ _ HA) as Ok. pose proof (arena_mul _ _ Ok) as Em.
  destruct (ao_size _ _ Ok) as (_ & _ & Hend). destruct (ao_base _ _ Ok) as (Hb & _).
  induction l as [|a l IH]; [by apply not_elem_of_nil in Hin|]. simpl.
  destruct (Hl a) as [B HB]; [apply elem_of_cons; auto|]. rw HB /= /PAGE_BELONGS_TO_ARENA. case_bool_decide as E; simpl.
  - subst a. assert (B = A) as -> by congruence. rw (proj2 (Z.ltb_lt _ _) Hlt) u64_small; [f_equal; lia|].
    rw Em /PAGE_SIZE in Hend. rw /PAGE_SIZE. lia.
  - apply IH; [|apply elem_of_cons in Hin as [?|?]; done]. intros b Hb'. apply Hl, elem_of_cons. auto.
Qed.

Lemma address_in_arena a A addr : arena_ok a A → ADDRESS_IN_ARENA addr A = true ↔ ar_base A ≤ addr < ar_base A + ar_size A.
Proof.
  intros Ok. destruct (ao_size _ _ Ok) as (? & _ & ?). destruct (ao_base _ _ Ok) as (? & _).
  rw /ADDRESS_IN_ARENA u64_small; [|lia]. rw andb_true_iff !Z.leb_le. lia.
Qed.

Lemma paddr_to_vm_page_found s addr l r :
  pmm_inv s → (∀ a, a ∈ l → is_Some (arenas s !! a)) → paddr_to_vm_page_loop s addr l = Some r →
  match r with
  | Some p => ∃ pa, p.1 ∈ l ∧ address_of s p pa ∧ pa ≤ addr < pa + PAGE_SIZE
  | None => ∀ a A, a ∈ l → arenas s !! a = Some A → ¬ (ar_base A ≤ addr < ar_base A + ar_size A)
  end.
Proof.
  intros I. induction l as [|a l IH]; intros Hl; simpl.
  { intros [= <-] a A []%not_elem_of_nil. }
  destruct (Hl a) as [A HA]; [apply elem_of_cons; auto|]. pose proof (pi_ok _ I _ _ HA) as Ok. rw HA /=.
  destruct (ADDRESS_IN_ARENA addr A) eqn:E.
  - apply (address_in_arena a A addr Ok) in E. intros [= <-]. simpl.
    pose proof (arena_mul _ _ Ok) as Em. rw Em in E. set (d := addr - ar_base A).
    pose proof (Z.div_mod d PAGE_SIZE ltac:(done)) as Ed. pose proof (Z.mod_pos_bound d PAGE_SIZE ltac:(done)) as Hm.
    assert (0 ≤ d / PAGE_SIZE) as Hp by (apply Z.div_pos; [rw /d; lia|done]).
    assert (d / PAGE_SIZE < page_count A) as Hlt by (apply Z.div_lt_upper_bound; [done|rw /d; lia]).
    exists (ar_base A + d / PAGE_SIZE * PAGE_SIZE). split_and!; [apply elem_of_cons; auto| |rw /d in Ed, Hm |- *; lia..].
    exists A. rw /= Z2Nat.id //.
  - intros Hr. specialize (IH (λ b Hb, Hl b (proj2 (elem_of_cons _ _ _) (or_intror Hb))) Hr). destruct r as [p|].
    + destruct IH as (pa & ? & ?). exists pa. split; [apply elem_of_cons; auto|done].
    + intros b B [->|Hb]%elem_of_cons HB; [|by apply (IH b)]. assert (B = A) as -> by congruence.
      rw -(address_in_arena a A addr Ok) E. done.
Qed.

Lemma paddr_to_vm_page_total s addr l :
  (∀ a, a ∈ l → is_Some (arenas s !! a)) → is_Some (paddr_to_vm_page_loop s addr l).
Proof.
  induction l as [|a l IH]; intros Hl; simpl; [done|]. destruct (Hl a) as [A HA]; [apply elem_of_cons; auto|].
  rw HA /=. case_match; [done|]. apply IH. intros b Hb. apply Hl, elem_of_cons. auto.
Qed.

(** Two pages whose address ranges meet are the same page. *)
Lemma address_of_inj s p p' pa pa' addr :
  pmm_inv s → address_of s p pa → address_of s p' pa' → pa ≤ addr < pa + PAGE_SIZE → pa' ≤ addr < pa' + PAGE_SIZE → p = p'.
Proof.
  intros I (A & HA & -> & Hlt) (B & HB & -> & Hlt') Hin Hin'.
  pose proof (arena_mul _ _ (pi_ok _ I _ _ HA)) as EA. pose proof (arena_mul _ _ (pi_ok _ I _ _ HB)) as EB.
  rw /PAGE_SIZE in Hin, Hin', EA, EB. assert (p.1 = p'.1) as E1.
  { destruct (decide (p.1 = p'.1)) as [?|Hne]; [done|]. destruct (pi_apart _ I _ _ _ _ HA HB Hne); lia. }
  assert (A = B) as -> by congruence. destruct p as [a i], p' as [a' i']; simpl in *. f_equal; [done|lia].
Qed.

(** Page structures and physical addresses correspond: [paddr_to_vm_page]
    finds a page for an address exactly when the address is in an arena, and
    [vm_page_to_paddr] of that page is the address rounded down to a page; and
    every address of a page leads back to it. *)
Theorem page_address_roundtrip s :
  pmm_inv s →
  (∀ addr, 0 ≤ addr → wp (paddr_to_vm_page addr) (λ r s', s' = s ∧
    match r with
    | Some p => wp (vm_page_to_paddr p) (λ pa _, pa = ROUNDDOWN addr PAGE_SIZE) s
    | None => ∀ a A, arenas s !! a = Some A → ¬ (ar_base A ≤ addr < ar_base A + ar_size A)
    end) s) ∧
  (∀ p pg, page_at s p = Some pg → wp (vm_page_to_paddr p) (λ pa s', s' = s ∧
    ∀ addr, pa ≤ addr < pa + PAGE_SIZE → wp (paddr_to_vm_page addr) (λ r _, r = Some p) s) s).
Proof.
  intros I. assert (∀ a, a ∈ arena_list s → is_Some (arenas s !! a)) as Hl by (intros a; apply (pi_arenas _ I)). split.
  - intros addr Ha. destruct (paddr_to_vm_page_total s addr (arena_list s) Hl) as [r Er]. eapply wp_deref; [exact Er|].
    split; [done|]. apply paddr_to_vm_page_found in Er; [|done..]. destruct r as [p|].
    + destruct Er as (pa & Hin & Hpa & Hrange). eapply wp_deref; [by apply vm_page_to_paddr_found|].
      destruct (rounddown_page addr Ha) as ([x Hx] & _ & _). destruct (rounddown_page addr Ha) as (_ & Hr1 & Hr2).
      destruct Hpa as (A & HA & -> & _). destruct (ao_base _ _ (pi_ok _ I _ _ HA)) as [_ [y Hy]].
      rw Hx Hy in Hr1, Hr2, Hrange |- *. rw /PAGE_SIZE in Hr1, Hr2, Hrange |- *. lia.
    + intros a A HA. eapply Er; [|done]. apply (pi_arenas _ I). by exists A.
  - intros p pg (A & HA & Hp)%page_at_some. pose proof (ao_pages _ _ (pi_ok _ I _ _ HA)) as [Hlen _].
    apply lookup_lt_Some in Hp. assert (address_of s p (ar_base A + Z.of_nat p.2 * PAGE_SIZE)) as Hpa by (exists A; split_and!; [done..|lia]).
    eapply wp_deref; [apply vm_page_to_paddr_found; [done..|]; apply (pi_arenas _ I); by exists A|]. split; [done|].
    intros addr Haddr. destruct (paddr_to_vm_page_total s addr (arena_list s) Hl) as [r Er]. eapply wp_deref; [exact Er|].
    apply paddr_to_vm_page_found in Er; [|done..]. destruct r as [p'|].
    + destruct Er as (pa' & _ & Hpa' & Hr). f_equal. by eapply address_of_inj.
    + exfalso. apply (Er p.1 A); [apply (pi_arenas _ I); by exists A|done|].
      rw (arena_mul _ _ (pi_ok _ I _ _ HA)). rw /PAGE_SIZE in Haddr |- *. nia.
Qed.
