(* ===== verification/PmmRange.v ===== *)
(** * Given addresses and new arenas

    [pmm_alloc_range] allocates the pages at given addresses; [pmm_add_arena]
    places an arena by priority.  Allocators built with the latter give concrete
    states for the theorems of [PmmSpec]. *)

From S2P Require Import Prelude Bits Pmm PmmInv PmmSpec.

Lemma takes_address ps ol s p pa : address_of (st_takes ps ol s) p pa ↔ address_of s p pa.
Proof.
  rw /address_of. destruct (arenas s !! p.1) as [A|] eqn:HA.
  - destruct (takes_arena ps ol s p.1 A HA) as (B & HB & (Eb & Es & _) & _).
    split; intros (C & HC & -> & Hlt); simplify_eq; [exists A|exists B]; rw /page_count ?Eb ?Es in Hlt |- *; done.
  - split; intros (C & HC & _); [|congruence]. exfalso. revert HC HA. revert s.
    induction ps as [|p' ps IH]; intros s HC HA; simpl in *; [congruence|]. apply (IH (st_take p' ol s)); [done|].
    simpl. by apply lookup_alter_None.
Qed.

(** A page of the arena at an aligned address inside it. *)
Lemma page_index a A s address :
  pmm_inv s → arenas s !! a = Some A → (PAGE_SIZE | address) → ar_base A ≤ address < ar_base A + ar_size A →
  let i := (address - ar_base A) / PAGE_SIZE in
  0 ≤ i < page_count A ∧ address_of s (a, Z.to_nat i) address ∧ ∃ pg, page_at s (a, Z.to_nat i) = Some pg.
Proof.
  intros I HA [x Hx] Hin i. pose proof (pi_ok _ I _ _ HA) as Ok. destruct (ao_base _ _ Ok) as [_ [b Hb]].
  pose proof (arena_mul _ _ Ok) as Em. assert (i = x - b) as Ei.
  { rw /i Hx Hb -Z.mul_sub_distr_r Z.div_mul //. }
  rw Ei. rw /PAGE_SIZE in Hx, Hb, Em. assert (0 ≤ x - b < page_count A) as Hr by lia. split_and!; [lia|lia| |].
  - exists A. split_and!; [done| |]; rw /= Z2Nat.id /PAGE_SIZE; lia.
  - destruct (lookup_lt_is_Some_2 (page_array A) (Z.to_nat (x - b))) as [pg Hpg].
    { pose proof (proj1 (ao_pages _ _ Ok)). lia. }
    exists pg. by rw (page_at_arena _ _ _ A HA).
Qed.

(** [ps] are free pages at successive addresses from [address]. *)
Definition pages_from (s : pmm) (address : Z) (ps : list page_ptr) : Prop :=
  NoDup ps ∧ ∀ j p, ps !! j = Some p → free s p ∧ address_of s p (u64 (address + Z.of_nat j * PAGE_SIZE)).

Lemma pages_from_nil s address : pages_from s address [].
Proof. split; [constructor|]. by intros j p ?. Qed.

Lemma pages_from_app s address ps ps' ol :
  pages_from s address ps → pages_from (st_takes ps ol s) (u64 (address + Z.of_nat (length ps) * PAGE_SIZE)) ps' →
  pages_from s address (ps ++ ps').
Proof.
  intros [Hnd Hps] [Hnd' Hps']. split.
  - apply NoDup_app. split_and!; [done| |done]. intros p Hp Hp'. apply list_elem_of_lookup in Hp' as [j Hj].
    destruct (Hps' j p Hj) as [Hf _]. by apply takes_free in Hf as [_ ?].
  - intros j p [Hj|[Hge Hj]]%lookup_app_Some; [by apply Hps|]. destruct (Hps' _ _ Hj) as [Hf Ha].
    apply takes_free in Hf as [? _]. apply takes_address in Ha. split; [done|].
    rw /u64 Zplus_mod_idemp_l in Ha. rw /u64. replace (address + Z.of_nat j * PAGE_SIZE) with
      (address + Z.of_nat (length ps) * PAGE_SIZE + Z.of_nat (j - length ps) * PAGE_SIZE); [done|]. rw Nat2Z.inj_sub //. ring.
Qed.

Lemma pages_from_one s address p : free s p → address_of s p (u64 address) → pages_from s address [p].
Proof.
  intros Hf Ha. split; [apply NoDup_singleton|]. intros [|j] p' Hj; [|done]. injection Hj as <-. split; [done|].
  by rw Z.add_0_r.
Qed.

Lemma u64_page address : (PAGE_SIZE | address) → (PAGE_SIZE | u64 (address + PAGE_SIZE)).
Proof.
  intros [x Hx]. assert ((PAGE_SIZE | 2 ^ 64)) as [m Hm] by (exists (2 ^ 52); by vm_compute).
  rw /u64 Z.mod_eq //. rw Hm Hx. exists (x + 1 - m * ((x * PAGE_SIZE + PAGE_SIZE) / (m * PAGE_SIZE))). ring.
Qed.

Lemma wp_alloc_range_loop fuel s a A l q count address n (Q : Z * Z → pmm → Prop) :
  pmm_inv s → arenas s !! a = Some A → page_lists s !! l = Some q → (PAGE_SIZE | address) → 0 ≤ address < 2 ^ 64 → n ≤ count →
  (0 < fuel)%nat → (ar_base A ≤ address → ar_base A + ar_size A - address < Z.of_nat fuel * PAGE_SIZE) →
  (∀ ps, pages_from s address ps → n + Z.of_nat (length ps) ≤ count →
    let address' := u64 (address + Z.of_nat (length ps) * PAGE_SIZE) in
    (n + Z.of_nat (length ps) = count ∨ ¬ (ar_base A ≤ address' < ar_base A + ar_size A) ∨
      ∃ p, p.1 = a ∧ address_of s p address' ∧ ¬ free (st_takes ps (Some l) s) p) →
    (PAGE_SIZE | address') → (length ps = 0%nat ∨ ar_base A ≤ address < ar_base A + ar_size A) →
    Q (address', n + Z.of_nat (length ps)) (st_takes ps (Some l) s)) →
  wp (alloc_range_loop fuel a count l address n) Q s.
Proof.
  revert s A q address n. induction fuel as [|fuel IH]; intros s A q address n I HA Hq Hd Hr Hn H0 Hfuel HQ; [lia|].
  pose proof (pi_ok _ I _ _ HA) as Ok. cbn [alloc_range_loop]. apply wp_bind. eapply wp_get_arena; [done|].
  assert (u64 (address + Z.of_nat (length (@nil page_ptr)) * PAGE_SIZE) = address) as Enil by (rw Z.add_0_r u64_small //).
  pose proof (HQ [] (pages_from_nil _ _) ltac:(simpl; lia)) as HQ0. cbv zeta in HQ0. rw Enil /= Z.add_0_r in HQ0.
  apply wp_if; intros Hc.
  - apply andb_true_iff in Hc as [Hlt Hin]. to_prop. apply (address_in_arena a A address Ok) in Hin.
    destruct (page_index a A s address I HA Hd Hin) as (Hi & Hpa & pg & Hpg). cbv zeta.
    set (p := (a, Z.to_nat ((address - ar_base A) / PAGE_SIZE))) in *.
    apply wp_bind, wp_assert; [apply Z.ltb_lt; lia|]. apply wp_bind. eapply wp_deref; [exact Hpg|].
    apply wp_if; intros Hf.
    + assert (free s p) as Hfp by by exists pg. apply wp_bind. apply (wp_take_page s p); [done|done|by exists q|].
      destruct (ao_size _ _ Ok) as (_ & [m Hm] & Hend). destruct (ao_base _ _ Ok) as [Hb0 [b Hb]]. pose proof Hd as [x Hx].
      pose proof (proj2 (ao_pages _ _ Ok)) as Hpc. pose proof (arena_mul _ _ Ok) as Em. specialize (Hfuel ltac:(lia)).
      pose proof (u64_page address Hd) as Hd'. rw /PAGE_SIZE in Hm, Hb, Hx, Em, Hfuel.
      eapply (IH _ (take_arena p A) (q ++ [p])); [by apply take_inv|by rw /= lookup_alter_eq HA|by rw /= lookup_alter_eq Hq|
        done|apply u64_range|lia|lia| |].
      * simpl. destruct (decide (address + 4096 = 2 ^ 64)) as [E|Hne]; [|rw u64_small; rw /PAGE_SIZE; lia].
        rw /PAGE_SIZE E. change (u64 (2 ^ 64)) with 0. lia.
      * intros ps Hps Hcnt addr' Hstop Hdp Hin'. assert (address_of s p (u64 address)) as Hpa' by by rw u64_small.
        assert (pages_from s address (p :: ps)) as Hpf.
        { apply (pages_from_app s address [p] ps (Some l)); [by apply pages_from_one|].
          by replace (Z.of_nat (length [p]) * PAGE_SIZE) with PAGE_SIZE by done. }
        assert (u64 (u64 (address + PAGE_SIZE) + Z.of_nat (length ps) * PAGE_SIZE) =
          u64 (address + Z.of_nat (length (p :: ps)) * PAGE_SIZE)) as Ea.
        { replace (address + Z.of_nat (length (p :: ps)) * PAGE_SIZE) with
            (address + PAGE_SIZE + Z.of_nat (length ps) * PAGE_SIZE); [by rw /u64 Zplus_mod_idemp_l|].
          cbn [length]. rw /PAGE_SIZE. lia. }
        assert (n + 1 + Z.of_nat (length ps) = n + Z.of_nat (length (p :: ps))) as En by (simpl length; lia).
        assert (addr' = u64 (address + Z.of_nat (length (p :: ps)) * PAGE_SIZE)) as -> by exact Ea.
        rw En in Hcnt, Hstop |- *.
        apply (HQ (p :: ps)); [done|done| |done|by right].
        destruct Hstop as [?|[?|(p' & ? & Hpa2 & Hnf)]]; [by left|right; by left|right; right]. exists p'.
        apply (takes_address [p] (Some l) s) in Hpa2. done.
    + apply wp_ret, HQ0; [|done|by left]. right. right. exists p. split_and!; [done|done|].
      intros (pg' & Hpg' & ?). congruence.
  - apply wp_ret, HQ0; [|done|by left]. apply andb_false_iff in Hc as [Hc|Hc]; to_prop; [left; lia|]. right. left.
    by rw -(address_in_arena a A address Ok) Hc.
Qed.

Lemma wp_alloc_range_arenas as_ s l q count address n (Q : Z → pmm → Prop) :
  pmm_inv s → (∀ a, a ∈ as_ → is_Some (arenas s !! a)) → page_lists s !! l = Some q →
  (PAGE_SIZE | address) → 0 ≤ address < 2 ^ 64 → n ≤ count →
  (∀ ps, pages_from s address ps → n + Z.of_nat (length ps) ≤ count →
    (∀ a A, a ∈ as_ → arenas s !! a = Some A → ar_base A ≤ address → address + (count - n) * PAGE_SIZE ≤ ar_base A + ar_size A →
       (∀ p pa, address_of s p pa → p.1 = a → address ≤ pa < address + (count - n) * PAGE_SIZE → free s p) →
       n + Z.of_nat (length ps) = count) →
    Q (n + Z.of_nat (length ps)) (st_takes ps (Some l) s)) →
  wp (alloc_range_arenas as_ count l address n) Q s.
Proof.
  revert s q address n. induction as_ as [|a as_ IH]; intros s q address n I Has Hq Hd Hr Hn HQ.
  { apply wp_ret. specialize (HQ [] (pages_from_nil _ _) ltac:(simpl; lia)). simpl in HQ. rw Z.add_0_r in HQ.
    apply HQ. by intros ? ? []%not_elem_of_nil. }
  destruct (Has a) as [A HA]; [apply elem_of_cons; auto|]. pose proof (pi_ok _ I _ _ HA) as Ok.
  pose proof (arena_mul _ _ Ok) as Em. destruct (ao_size _ _ Ok) as (Hsz & _ & Hend). destruct (ao_base _ _ Ok) as (Hb & _).
  cbn [alloc_range_arenas]. apply wp_bind. eapply wp_get_arena; [done|]. apply wp_bind.
  eapply wp_alloc_range_loop; [done..|lia| |].
  { intros Hle. rw Nat2Z.inj_succ Z2Nat.id; [|rw /PAGE_SIZE in Em; lia]. rw Em /PAGE_SIZE. lia. }
  intros ps Hps Hcnt addr' Hstop Hd' Hin. set (k := Z.of_nat (length ps)) in *.
  (* a free range inside this arena has been taken in full *)
  assert (∀ A', arenas s !! a = Some A' → ar_base A' ≤ address → address + (count - n) * PAGE_SIZE ≤ ar_base A' + ar_size A' →
    (∀ p pa, address_of s p pa → p.1 = a → address ≤ pa < address + (count - n) * PAGE_SIZE → free s p) → n + k = count) as Hfull.
  { intros A' HA' Hlo Hhi Hfree. assert (A' = A) as -> by congruence. destruct (decide (n + k = count)) as [?|Hne]; [done|].
    assert (addr' = address + k * PAGE_SIZE) as Eaddr by (apply u64_small; rw /PAGE_SIZE in Hhi |- *; lia).
    destruct Hstop as [?|[Hout|(p & Hp & Hpa & Hnf)]]; [done| |].
    - destruct Hout. rw Eaddr. rw /PAGE_SIZE in Hhi |- *. lia.
    - destruct Hnf. apply takes_free. split; [apply (Hfree p addr' Hpa Hp); rw Eaddr; rw /PAGE_SIZE in Hhi |- *; lia|].
      intros [j Hj]%list_elem_of_lookup. pose proof (lookup_lt_Some _ _ _ Hj) as Hjlt.
      destruct (proj2 Hps j p Hj) as [_ (B & HB & EB & _)]. destruct Hpa as (C & HC & EC & _).
      rw u64_small in EB; [|rw /PAGE_SIZE in Hhi |- *; lia]. simplify_eq. rw /PAGE_SIZE in EB, EC, Eaddr. lia. }
  apply wp_if; intros Hk; to_prop; simpl in Hk.
  - apply wp_ret. apply HQ; [done|done|]. intros. done.
  - assert (0 ≤ addr' < 2 ^ 64) as Hr' by apply u64_range.
    eapply (IH _ (q ++ ps)); [apply takes_inv; [done|apply Hps|]| |by rw (takes_list _ _ _ q) // lookup_insert_eq|done|done|lia|].
    + intros p [j Hj]%list_elem_of_lookup. by apply (proj2 Hps j).
    + intros b Hb'. destruct (Has b) as [B HB]; [apply elem_of_cons; auto|].
      destruct (takes_arena ps (Some l) s b B HB) as (B' & ? & _). by exists B'.
    + intros ps' Hps' Hcnt' Hfull'. rw -takes_app.
      replace (n + k + Z.of_nat (length ps')) with (n + Z.of_nat (length (ps ++ ps'))) in Hcnt', Hfull' |- *
        by (rw length_app; lia).
      apply HQ; [by apply (pages_from_app s address ps ps' (Some l))|done|].
      intros b B [->|Hb']%elem_of_cons HB Hlo Hhi Hfree; [destruct Hk; by eapply Hfull|].
      destruct (decide (b = a)) as [->|Hba]; [destruct Hk; by eapply Hfull|].
      assert (ps = []) as ->.
      { destruct Hin as [?|Hin]; [by apply nil_length_inv|]. destruct (pi_apart _ I _ _ _ _ HB HA Hba); rw /PAGE_SIZE in Hhi; lia. }
      assert (addr' = address) as E by (rw /addr' /k Z.add_0_r; by apply u64_small). rw E in Hfull'. rw /k Z.add_0_r in Hfull'.
      eapply Hfull'; [done|exact HB|done..].
Qed.

(** [pmm_alloc_range] allocates pages at successive addresses from the given
    one rounded down to a page, each of which was free, never more than asked
    for, and appends them to the caller's list in that order; when the whole
    range lies in one arena and is free, it allocates all of it. *)
Theorem pmm_alloc_range_spec s address count l q :
  pmm_inv s → page_lists s !! l = Some q → 0 ≤ address < 2 ^ 64 → 0 ≤ count →
  let start := ROUNDDOWN address PAGE_SIZE in
  wp (pmm_alloc_range address count l) (λ n s', ∃ ps,
    pages_from s start ps ∧ n = Z.of_nat (length ps) ∧ n ≤ count ∧
    page_lists s' = <[l := q ++ ps]> (page_lists s) ∧ (∀ p, free s' p ↔ free s p ∧ p ∉ ps) ∧ pmm_inv s' ∧
    (∀ a A, arenas s !! a = Some A → ar_base A ≤ start → start + count * PAGE_SIZE ≤ ar_base A + ar_size A →
       (∀ p pa, address_of s p pa → p.1 = a → start ≤ pa < start + count * PAGE_SIZE → free s p) → n = count)) s.
Proof.
  intros I Hq Ha Hc start. destruct (rounddown_page address ltac:(lia)) as (Hd & Hr1 & Hr2). fold start in Hd, Hr1, Hr2.
  apply wp_if; intros Hz; to_prop.
  - subst count. apply wp_ret. exists []. split_and!; [apply pages_from_nil|done|done|by rw app_nil_r insert_id| |done|done].
    intros p. split; [|naive_solver]. intros. split; [done|apply not_elem_of_nil].
  - apply wp_bind, wp_gets. eapply wp_alloc_range_arenas; [done|intros a; apply (pi_arenas _ I)|done|done|lia|lia|].
    intros ps Hps Hcnt Hfull. rw Z.sub_0_r in Hfull. exists ps.
    assert (∀ p, p ∈ ps → free s p) as Hf by (intros p [j Hj]%list_elem_of_lookup; by apply (proj2 Hps j)).
    split_and!; [done|lia|lia|by apply takes_list|intros p; apply takes_free|apply takes_inv; [done|apply Hps|done]|].
    intros a A HA Hlo Hhi Hfree. eapply Hfull; [|done..]. apply (pi_arenas _ I). by exists A.
Qed.

(** ** Adding an arena *)

Definition prio (s : pmm) (a : positive) : Z := from_option ar_priority 0 (arenas s !! a).

(** The arenas of the list are in order of priority. *)
Definition by_priority (s : pmm) : Prop := StronglySorted (λ a b, prio s a ≤ prio s b) (arena_list s).

Lemma add_by_priority_spec s a priority l :
  (∀ b, b ∈ l → is_Some (arenas s !! b)) → StronglySorted (λ a b, prio s a ≤ prio s b) l →
  ∃ l1 l2, l = l1 ++ l2 ∧ add_by_priority s a priority l = Some (l1 ++ a :: l2) ∧
    (∀ b, b ∈ l1 → prio s b ≤ priority) ∧ (∀ b, b ∈ l2 → priority < prio s b).
Proof.
  induction l as [|b l IH]; intros Hl Hs; [by exists [], []; split_and!; [..|by intros ? []%not_elem_of_nil|by intros ? []%not_elem_of_nil]|].
  destruct (Hl b) as [B HB]; [apply elem_of_cons; auto|]. simpl. rw HB /=.
  apply StronglySorted_inv in Hs as [Hs Hb]. assert (prio s b = ar_priority B) as Eb by rw /prio HB //.
  destruct (priority <? ar_priority B) eqn:E; to_prop.
  - exists [], (b :: l). split_and!; [done..|by intros ? []%not_elem_of_nil|].
    intros c [->|Hc]%elem_of_cons; [lia|]. rw Forall_forall in Hb. specialize (Hb c Hc). lia.
  - destruct IH as (l1 & l2 & -> & E1 & H1 & H2); [intros c Hc; apply Hl, elem_of_cons; auto|done|].
    exists (b :: l1), l2. rw E1 /=. split_and!; [done..| |done]. intros c [->|Hc]%elem_of_cons; [lia|by apply H1].
Qed.

Lemma sorted_insert (R : positive → positive → Prop) l1 l2 a :
  StronglySorted R (l1 ++ l2) → (∀ b, b ∈ l1 → R b a) → (∀ b, b ∈ l2 → R a b) → StronglySorted R (l1 ++ a :: l2).
Proof.
  induction l1 as [|b l1 IH]; simpl; intros Hs H1 H2.
  - constructor; [done|]. by apply Forall_forall.
  - apply StronglySorted_inv in Hs as [Hs Hb]. constructor; [apply IH; [done| |done]|].
    + intros c Hc. apply H1, elem_of_cons. auto.
    + rw Forall_forall in Hb. apply Forall_forall. intros c [Hc|[->|Hc]%elem_of_cons]%elem_of_app.
      * apply Hb, elem_of_app. auto.
      * apply H1, elem_of_cons. auto.
      * apply Hb, elem_of_app. auto.
Qed.

Definition new_arena (a : positive) (flags priority base size : Z) : pmm_arena :=
  let n := Z.to_nat (size / PAGE_SIZE) in
  PmmArena flags priority base size (Z.of_nat n) (replicate n (VmPage 0 0)) (map (pair a) (seq 0 n)).

Lemma new_arena_ok a flags priority base size :
  0 ≤ base → (PAGE_SIZE | base) → 0 < size ≤ 2 ^ 43 → (PAGE_SIZE | size) → base + size ≤ 2 ^ 64 →
  arena_ok a (new_arena a flags priority base size).
Proof.
  intros Hb Hbd Hs Hsd He. assert (0 ≤ size / PAGE_SIZE ≤ 2 ^ 31) as Hn.
  { split; [by apply Z.div_pos; [lia|]|]. exact (Z.div_le_mono size (2 ^ 43) PAGE_SIZE eq_refl (proj2 Hs)). }
  split; simpl; [done|split_and!; [lia|done|done]| | | |].
  - rw length_replicate Z2Nat.id; [|lia]. split; [done|]. exact (proj2 Hn).
  - intros p. rw list_elem_of_fmap. split.
    + intros (i & -> & Hi%elem_of_seq). split; [done|]. exists (VmPage 0 0). split; [|done]. apply lookup_replicate. split; [done|]. simpl. exact (proj2 Hi).
    + intros (Hp & pg & [_ Hlt]%lookup_replicate & _). exists p.2. split; [destruct p; simpl in *; by subst|]. apply elem_of_seq. split; [apply Nat.le_0_l|exact Hlt].
  - apply NoDup_fmap; [by intros ? ? [= ->]|apply NoDup_seq].
  - by rw length_fmap length_seq.
Qed.

(** What the caller must provide: a new arena at a range of its own. *)
Record arena_args (s : pmm) (a : positive) (base size : Z) : Prop := {
  aa_new : arenas s !! a = None;
  aa_base : 0 ≤ base ∧ (PAGE_SIZE | base);
  aa_size : 0 < size ≤ 2 ^ 43 ∧ (PAGE_SIZE | size) ∧ base + size ≤ 2 ^ 64;
  aa_apart b B : arenas s !! b = Some B → base + size ≤ ar_base B ∨ ar_base B + ar_size B ≤ base
}.

Lemma add_page_at s a l A p : arenas s !! a = None →
  page_at (Pmm l (<[a := A]> (arenas s)) (page_lists s)) p = if decide (p.1 = a) then page_array A !! p.2 else page_at s p.
Proof.
  intros Ha. rw /page_at /=. case_decide as E; [by rw E lookup_insert_eq|by rw lookup_insert_ne].
Qed.

Lemma add_arena_inv s a l1 l2 A :
  pmm_inv s → arenas s !! a = None → arena_ok a A → arena_list s = l1 ++ l2 → (∀ b B, arenas s !! b = Some B → apart A B) →
  pmm_inv (Pmm (l1 ++ a :: l2) (<[a := A]> (arenas s)) (page_lists s)).
Proof.
  intros I Ha Ok El Hap. assert (l1 ++ a :: l2 ≡ₚ a :: arena_list s) as HP by (rw El; symmetry; apply Permutation_middle).
  assert (a ∉ arena_list s) as Hn by (rw (pi_arenas _ I) Ha; by intros [? ?]).
  assert (∀ p, used s p → used (Pmm (l1 ++ a :: l2) (<[a := A]> (arenas s)) (page_lists s)) p) as Hused.
  { intros p (pg & Hpg & Hu). exists pg. split; [|done]. rw add_page_at //. case_decide as E; [|done].
    destruct (page_at_some _ _ _ Hpg) as (B & HB & _). congruence. }
  split; simpl; try by apply I.
  - rw HP. apply NoDup_cons. split; [done|apply I].
  - intros b. rw HP elem_of_cons (pi_arenas _ I). destruct (decide (b = a)) as [->|]; [rw lookup_insert_eq; naive_solver|].
    rw lookup_insert_ne //. naive_solver.
  - intros b B [[<- <-]|[_ HB]]%lookup_insert_Some; [done|by apply I].
  - intros b c B C [[<- <-]|[_ HB]]%lookup_insert_Some [[<- <-]|[_ HC]]%lookup_insert_Some Hne; [done| | |by eapply (pi_apart _ I b c)].
    + by eapply Hap.
    + destruct (Hap _ _ HB); [right|left]; done.
  - intros l q p Hq Hp. apply Hused. by eapply pi_used.
Qed.

Lemma wp_pmm_add_arena s a flags priority base size (Q : Z → pmm → Prop) :
  pmm_inv s → by_priority s → arena_args s a base size →
  (∀ s' l1 l2, pmm_inv s' → by_priority s' → arena_list s = l1 ++ l2 → arena_list s' = l1 ++ a :: l2 →
    (∀ b, b ∈ l1 → prio s b ≤ priority) → (∀ b, b ∈ l2 → priority < prio s b) →
    (∀ p, free s' p ↔ free s p ∨ p ∈ run a 0 (size / PAGE_SIZE)) →
    arenas s' = <[a := new_arena a flags priority base size]> (arenas s) → page_lists s' = page_lists s → Q NO_ERROR s') →
  wp (pmm_add_arena a flags priority base size) Q s.
Proof.
  intros I Hs [Ha [Hb Hbd] (Hsz & Hsd & He) Hap] HQ.
  assert (∀ b, b ∈ arena_list s → is_Some (arenas s !! b)) as Hl by (intros b; apply (pi_arenas _ I)).
  destruct (add_by_priority_spec s a priority (arena_list s) Hl Hs) as (l1 & l2 & El & E1 & H1 & H2).
  pose proof (new_arena_ok a flags priority base size Hb Hbd Hsz Hsd He) as Ok.
  apply wp_bind, wp_assert; [by apply page_aligned_spec|]. apply wp_bind, wp_assert; [by apply page_aligned_spec|].
  apply wp_bind, wp_assert; [apply Z.ltb_lt; lia|]. apply wp_bind. eapply wp_deref; [exact E1|].
  apply wp_bind, wp_modify, wp_ret. apply (HQ _ l1 l2); simpl; [|rw /by_priority|done|done|done|done| |done|done].
  - by apply (add_arena_inv s a l1 l2 (new_arena a flags priority base size)).
  - assert (∀ b, b ∈ arena_list s → b ≠ a) as Hne by (intros b [B HB]%Hl ->; congruence). simpl.
    set (s' := Pmm _ _ _). assert (prio s' a = priority) as Epa by (rw /prio /= lookup_insert_eq //).
    assert (∀ b, b ≠ a → prio s' b = prio s b) as Epb by (intros b ?; rw /prio /= lookup_insert_ne //).
    assert (StronglySorted (λ c d, prio s' c ≤ prio s' d) (l1 ++ l2)) as Hs'.
    { rw -El. rw /by_priority in Hs. revert Hne Hs. clear -Epb. induction (arena_list s) as [|c l IH]; intros Hne Hs; [constructor|].
      apply StronglySorted_inv in Hs as [Hs Hc]. constructor; [apply IH; [|done]; intros b Hb; apply Hne, elem_of_cons; auto|].
      rw Forall_forall in Hc. apply Forall_forall. intros d Hd. rw !Epb; [by apply Hc|..]; apply Hne, elem_of_cons; auto. }
    apply sorted_insert; [done| |]; intros b Hb'; (assert (b ≠ a) as Hba by (apply Hne; rw El elem_of_app; auto)).
    + rw Epa Epb //. by apply H1.
    + rw Epa Epb //. apply Z.lt_le_incl. by apply H2.
  - assert (0 ≤ size / PAGE_SIZE) as Hn by (apply Z.div_pos; [lia|done]).
    intros p. rw /free add_page_at // run_elem /=. split.
    + intros (pg & Hpg & Hf). case_decide as E; [right|left; by exists pg]. apply lookup_replicate in Hpg as [_ ?]. split; [done|lia].
    + intros [(pg & Hpg & Hf)|[-> Hi]].
      * exists pg. case_decide as E; [|done]. destruct (page_at_some _ _ _ Hpg) as (B & HB & _). congruence.
      * exists (VmPage 0 0). rw decide_True //. split; [|done]. apply lookup_replicate. split; [done|lia].
Qed.

(** [pmm_add_arena] makes every page of the new arena free, leaves the others
    as they are, and inserts the arena behind those of its priority or a lower
    one and before the others, so that allocation goes on in order of priority. *)
Theorem pmm_add_arena_spec s a flags priority base size :
  pmm_inv s → by_priority s → arena_args s a base size →
  wp (pmm_add_arena a flags priority base size) (λ r s', r = NO_ERROR ∧ pmm_inv s' ∧ by_priority s' ∧
    (∀ p, free s' p ↔ free s p ∨ p ∈ run a 0 (size / PAGE_SIZE)) ∧
    ∃ l1 l2, arena_list s = l1 ++ l2 ∧ arena_list s' = l1 ++ a :: l2 ∧
      (∀ b, b ∈ l1 → prio s b ≤ priority) ∧ (∀ b, b ∈ l2 → priority < prio s b)) s.
Proof.
  intros I Hs Haa. apply wp_pmm_add_arena; [done..|]. intros s' l1 l2 I' Hs' El El' H1 H2 Hf _ _.
  split_and!; [done..|]. by exists l1, l2.
Qed.

(** ** Concrete instances *)

(** Eight pages mapped for the kernel at 1 MiB and four of a lower priority value
    at 2 MiB; the caller's list is at address 1. *)
Definition pmm_empty : pmm := Pmm [] ∅ {[ 1%positive := [] ]}.

Definition add_two : P Z := pmm_add_arena 1 PMM_ARENA_FLAG_KMAP 1 0x100000 0x8000;; pmm_add_arena 2 0 0 0x200000 0x4000.

Definition two_arenas : pmm := match add_two pmm_empty with Some (_, s) => s | None => pmm_empty end.

(** Three pages are allocated to the list. *)
Definition three_taken : pmm := match pmm_alloc_pages 3 1 two_arenas with Some (_, s) => s | None => pmm_empty end.

Lemma pmm_empty_inv : pmm_inv pmm_empty ∧ by_priority pmm_empty.
Proof.
  split; [|constructor]. split; simpl; try done; [constructor|intros a..].
  - rw lookup_empty. split; [by intros []%not_elem_of_nil|by intros [? ?]].
  - intros q. rw lookup_singleton_Some. intros [_ <-]. constructor.
  - intros q p. rw lookup_singleton_Some. by intros [_ <-] []%not_elem_of_nil.
  - intros l' q q' p. rw lookup_singleton_Some. by intros [_ <-] _ []%not_elem_of_nil.
Qed.

Lemma arena_1_args : arena_args pmm_empty 1 0x100000 0x8000.
Proof. split; [done|split; [lia|by exists 256]|split_and!; [lia|lia|by exists 8|lia]|done]. Qed.

Lemma two_arenas_inv : pmm_inv two_arenas.
Proof.
  destruct pmm_empty_inv as [I Hs]. assert (wp add_two (λ _ s, pmm_inv s) pmm_empty) as W.
  { apply wp_bind. apply wp_pmm_add_arena; [done|done|apply arena_1_args|]. intros s1 l1 l2 I1 Hs1 _ _ _ _ _ Ea _.
    apply wp_pmm_add_arena; [done|done| |by intros].
    split; [by rw Ea|split; [lia|by exists 512]|split_and!; [lia|lia|by exists 4|lia]|].
    intros b B. rw Ea lookup_insert_Some. intros [[<- <-]|[_ HB]]; [right; vm_compute; done|done]. }
  rw /two_arenas. rw /wp in W. by destruct (add_two pmm_empty) as [[r s]|].
Qed.

Lemma three_taken_inv : pmm_inv three_taken.
Proof.
  assert (wp (pmm_alloc_pages 3 1) (λ _ s, pmm_inv s) two_arenas) as W.
  { pose proof two_arenas_inv as I. apply wp_bind, wp_gets.
    eapply (wp_alloc_from_arenas _ _ _ []); [done|apply I|intros a; apply (pi_arenas _ I)|by vm_compute|done|].
    intros ps ->. apply takes_inv; [done| |].
    - eapply sublist_NoDup; [apply free_order_nodup; [done|apply I]|apply sublist_take].
    - intros p Hp%elem_of_take_list. by apply (free_order_elem _ (arena_list two_arenas)). }
  rw /three_taken. rw /wp in W. by destruct (pmm_alloc_pages 3 1 two_arenas) as [[r s]|].
Qed.

Lemma pmm_alloc_pages_spec_witness :
  wp (pmm_alloc_pages 5 1) (λ n s', n = 5 ∧ pmm_inv s') two_arenas.
Proof.
  eapply wp_mono; [apply (pmm_alloc_pages_spec two_arenas 5 1 [] two_arenas_inv); [by vm_compute|done]|].
  intros n s' (ps & -> & _ & -> & _ & _ & I'). split; [by vm_compute|done].
Defined.

Lemma pmm_free_spec_witness : wp (pmm_free 1) (λ n s', n = 3 ∧ pmm_inv s') three_taken.
Proof.
  eapply wp_mono; [apply (pmm_free_spec three_taken 1 [(2%positive, 0%nat); (2%positive, 1%nat); (2%positive, 2%nat)] three_taken_inv);
    by vm_compute|].
  by intros n s' (-> & _ & _ & ?).
Defined.


Lemma page_address_roundtrip_witness :
  wp (vm_page_to_paddr (1%positive, 1%nat)) (λ pa _,
    ∀ addr, pa ≤ addr < pa + PAGE_SIZE → wp (paddr_to_vm_page addr) (λ r _, r = Some (1%positive, 1%nat)) two_arenas) two_arenas.
Proof.
  destruct (page_address_roundtrip two_arenas two_arenas_inv) as [_ H].
  eapply wp_mono; [apply (H (1%positive, 1%nat) (VmPage 0 0)); by vm_compute|]. by intros pa s' [_ ?].
Defined.

Lemma pmm_alloc_range_spec_witness :
  wp (pmm_alloc_range 0x102000 2 1) (λ n s', n ≤ 2 ∧ pmm_inv s') two_arenas.
Proof.
  eapply wp_mono; [apply (pmm_alloc_range_spec two_arenas 0x102000 2 1 [] two_arenas_inv); [by vm_compute|lia|lia]|].
  by intros n s' (ps & _ & _ & ? & _ & _ & ? & _).
Defined.

Lemma pmm_add_arena_spec_witness :
  wp (pmm_add_arena 1 1 1 0x100000 0x8000) (λ r s', r = NO_ERROR ∧ arena_list s' = [1%positive]) pmm_empty.
Proof.
  destruct pmm_empty_inv as [I Hs].
  eapply wp_mono; [apply (pmm_add_arena_spec pmm_empty 1 1 1 0x100000 0x8000 I Hs arena_1_args)|].
  intros r s' (-> & _ & _ & _ & l1 & l2 & E & -> & _). split; [done|]. by destruct l1, l2.
Defined.
