(* ===== verification/Vmm.v ===== *)
(** * Address spaces and regions

    [src/mk/kernel/vm/vmm.c]: an address space is a range of virtual addresses
    with its regions linked in order of address; a region owns the physical
    pages on its page list.  A region at address [r] has its page list at [r] in
    the page allocator's state.  The architecture's MMU is a parameter that
    answers each call from the calls made before it; the calls are recorded.
    [vmm_lock] is held through each operation, which is one step of the model;
    the structures [calloc] returns are arguments. *)

From S2P Require Import Prelude Bits Pmm.

(** ** Data *)

Definition VMM_ASPACE_FLAG_KERNEL : Z := 1.
Definition VMM_REGION_FLAG_RESERVED : Z := 1.
Definition VMM_REGION_FLAG_PHYSICAL : Z := 2.
Definition VMM_FLAG_VALLOC_SPECIFIC : Z := 1.
Definition ARCH_ASPACE_FLAG_KERNEL : Z := 1.
Definition ARCH_MMU_FLAG_INVALID : Z := Z.shiftl 1 6.

Record vmm_region := VmmRegion {
  rg_name : string;
  rg_flags : Z;
  rg_arch_mmu_flags : Z;
  rg_base : Z;
  rg_size : Z
}.

Record vmm_aspace := VmmAspace {
  as_name : string;
  as_flags : Z;
  as_base : Z;
  as_size : Z;
  region_list : list positive
}.

(** The calls to the architecture layer. *)
Inductive mmu_call :=
| MmuInit (aspace : positive) (base size flags : Z)
| MmuMap (aspace : positive) (vaddr paddr count flags : Z)
| MmuUnmap (aspace : positive) (vaddr count : Z)
| MmuSwitch (aspace : option positive)
| MmuDestroy (aspace : positive).

Record vmm := Vmm {
  aspace_list : list positive;
  aspaces : gmap positive vmm_aspace;
  regions : gmap positive vmm_region;
  vpmm : pmm;
  mmu_calls : list mmu_call;
  cur_aspace : option positive   (** [get_current_thread()->aspace] *)
}.

Abbreviation V := (M vmm).

Definition set_aspace_list (v : list positive) (s : vmm) : vmm :=
  Vmm v (aspaces s) (regions s) (vpmm s) (mmu_calls s) (cur_aspace s).

Definition set_aspaces (v : gmap positive vmm_aspace) (s : vmm) : vmm :=
  Vmm (aspace_list s) v (regions s) (vpmm s) (mmu_calls s) (cur_aspace s).

Definition set_regions (v : gmap positive vmm_region) (s : vmm) : vmm :=
  Vmm (aspace_list s) (aspaces s) v (vpmm s) (mmu_calls s) (cur_aspace s).

Definition set_vpmm (v : pmm) (s : vmm) : vmm :=
  Vmm (aspace_list s) (aspaces s) (regions s) v (mmu_calls s) (cur_aspace s).

Definition set_mmu_calls (v : list mmu_call) (s : vmm) : vmm :=
  Vmm (aspace_list s) (aspaces s) (regions s) (vpmm s) v (cur_aspace s).

Definition set_cur_aspace (v : option positive) (s : vmm) : vmm :=
  Vmm (aspace_list s) (aspaces s) (regions s) (vpmm s) (mmu_calls s) v.

Definition set_region_list (l : list positive) (A : vmm_aspace) : vmm_aspace :=
  VmmAspace (as_name A) (as_flags A) (as_base A) (as_size A) l.

Definition set_rg_base (b : Z) (r : vmm_region) : vmm_region :=
  VmmRegion (rg_name r) (rg_flags r) (rg_arch_mmu_flags r) b (rg_size r).

Definition on_pmm {A} (m : P A) : V A :=
  λ s, match m (vpmm s) with Some (a, p) => Some (a, set_vpmm p s) | None => None end.

Definition get_aspace (a : positive) : V vmm_aspace := deref (λ s, aspaces s !! a).

Definition get_region (r : positive) : V vmm_region := deref (λ s, regions s !! r).

Definition upd_aspace (a : positive) (f : vmm_aspace → vmm_aspace) : V unit :=
  A ← get_aspace a; modify (λ s, set_aspaces (<[a := f A]> (aspaces s)) s).

(** [list_initialize] of a page list, and the end of its life. *)
Definition init_page_list (l : positive) : V unit :=
  on_pmm (modify (λ s, set_page_lists (<[l := []]> (page_lists s)) s)).

Definition drop_page_list (l : positive) : V unit :=
  on_pmm (modify (λ s, set_page_lists (delete l (page_lists s)) s)).

Definition list_remove_head_page (l : positive) : V (option page_ptr) :=
  q ← on_pmm (deref (λ s, page_lists s !! l));
  match q with
  | [] => mret None
  | p :: rest => on_pmm (modify (λ s, set_page_lists (<[l := rest]> (page_lists s)) s));; mret (Some p)
  end.

(** [free(r)] *)
Definition free_region_struct (r : positive) : V unit :=
  drop_page_list r;; modify (λ s, set_regions (delete r (regions s)) s).

(** ** Ranges *)

Definition last_byte (base size : Z) : Z := u64 (base + size - 1).

Definition is_inside_aspace (A : vmm_aspace) (vaddr : Z) : bool :=
  (as_base A <=? vaddr) && (vaddr <=? last_byte (as_base A) (as_size A)).

Definition is_region_inside_aspace (A : vmm_aspace) (vaddr size : Z) : bool :=
  if negb (is_inside_aspace A vaddr) then false
  else if size =? 0 then true
  else if u64 (vaddr + size - 1) <? vaddr then false
  else if last_byte (as_base A) (as_size A) <? u64 (vaddr + size - 1) then false
  else true.

Definition ULONG_MAX : Z := 2 ^ 64 - 1.

(** [None]: the assertion fails. *)
Definition trim_to_aspace (A : vmm_aspace) (vaddr size : Z) : option Z :=
  if negb (is_inside_aspace A vaddr) then None
  else if size =? 0 then Some size
  else
    let offset := u64 (vaddr - as_base A) in
    let size := if u64 (offset + size) <? offset then u64 (ULONG_MAX - offset - 1) else size in
    Some (if u64 (as_size A - 1) <=? u64 (offset + size) then u64 (as_size A - offset) else size).

(** ** Placing regions *)

(** The body of the region structure [calloc] returned. *)
Definition alloc_region_struct (mem : option positive) (name : string) (base size flags arch_mmu_flags : Z) :
    V (option positive) :=
  match mem with
  | None => mret None
  | Some r =>
      modify (λ s, set_regions (<[r := VmmRegion (String.substring 0 31 name) flags arch_mmu_flags base size]> (regions s)) s);;
      init_page_list r;;
      mret (Some r)
  end.

(** The walk of [add_region_to_aspace]: the list with [r] after the first region
    it fits behind. *)
Fixpoint add_region_walk (rs : gmap positive vmm_region) (r : positive) (base r_end : Z) (l : list positive) :
    option (option (list positive)) :=
  match l with
  | [] => Some None
  | last :: l' =>
      R ← rs !! last;
      if last_byte (rg_base R) (rg_size R) <? base then
        match l' with
        | [] => Some (Some [last; r])
        | next :: _ =>
            N ← rs !! next;
            if r_end <? rg_base N then Some (Some (last :: r :: l'))
            else w ← add_region_walk rs r base r_end l'; Some (cons last <$> (w : option (list positive)))
        end
      else w ← add_region_walk rs r base r_end l'; Some (cons last <$> (w : option (list positive)))
  end.

Definition add_region_to_aspace (a r : positive) : V Z :=
  A ← get_aspace a;
  R ← get_region r;
  if (rg_size R =? 0) || negb (is_region_inside_aspace A (rg_base R) (rg_size R)) then mret ERR_OUT_OF_RANGE
  else
    let r_end := last_byte (rg_base R) (rg_size R) in
    in_front ← deref (λ s, match region_list A with
      | [] => Some true
      | last :: _ => L ← regions s !! last; Some (r_end <? rg_base L)
      end);
    if in_front : bool then upd_aspace a (set_region_list (r :: region_list A));; mret NO_ERROR
    else
      w ← deref (λ s, add_region_walk (regions s) r (rg_base R) r_end (region_list A));
      match w with
      | Some l => upd_aspace a (set_region_list l);; mret NO_ERROR
      | None => mret ERR_NO_MEMORY
      end.

(** The default, which no architecture of the tree overrides. *)
Definition arch_mmu_pick_spot (base prev_region_arch_mmu_flags end_ next_region_arch_mmu_flags align size
    arch_mmu_flags : Z) : Z := ALIGN base align.

Definition no_spot : Z := u64 (-1).

(** Whether the search stops, and the spot. *)
Definition check_gap (A : vmm_aspace) (prev next : option vmm_region) (align size arch_mmu_flags : Z) : bool * Z :=
  let gap_beg := match prev with Some p => u64 (rg_base p + rg_size p) | None => as_base A end in
  let pick gap_end :=
    let pva := arch_mmu_pick_spot gap_beg (from_option rg_arch_mmu_flags ARCH_MMU_FLAG_INVALID prev) gap_end
      (from_option rg_arch_mmu_flags ARCH_MMU_FLAG_INVALID next) align size arch_mmu_flags in
    if pva <? gap_beg then (true, no_spot)
    else if (pva <? gap_end) && (size <=? u64 (gap_end - pva + 1)) then (true, pva)
    else (false, pva) in
  match next with
  | Some n => if gap_beg =? rg_base n then (false, 0) else pick (u64 (rg_base n - 1))
  | None =>
      if gap_beg =? u64 (as_base A + as_size A) then (true, no_spot)
      else pick (last_byte (as_base A) (as_size A))
  end.

(** The gaps behind each region in turn; the position is the region the spot is
    behind. *)
Fixpoint alloc_spot_walk (rs : gmap positive vmm_region) (A : vmm_aspace) (align size arch_mmu_flags : Z)
    (l : list positive) : option (Z * option positive) :=
  match l with
  | [] => Some (no_spot, None)
  | r :: l' =>
      R ← rs !! r;
      next ← match l' with [] => Some None | n :: _ => N ← rs !! n; Some (Some N) end;
      let '(stop, spot) := check_gap A (Some R) next align size arch_mmu_flags in
      if stop then Some (spot, Some r) else alloc_spot_walk rs A align size arch_mmu_flags l'
  end.

(** The spot, [no_spot] when there is none, and the region before it, [None] for
    the front of the list.  A shift by 64 or more is undefined. *)
Definition alloc_spot (a : positive) (size align_pow2 arch_mmu_flags : Z) : V (Z * option positive) :=
  A ← get_aspace a;
  assert ((0 <? size) && IS_PAGE_ALIGNED size);;
  let align_pow2 := if align_pow2 <? PAGE_SIZE_SHIFT then PAGE_SIZE_SHIFT else align_pow2 in
  assert (align_pow2 <? 64);;
  let align := 2 ^ align_pow2 in
  deref (λ s,
    first ← match region_list A with [] => Some None | n :: _ => N ← regions s !! n; Some (Some N) end;
    let '(stop, spot) := check_gap A None first align size arch_mmu_flags in
    if stop then Some (spot, None) else alloc_spot_walk (regions s) A align size arch_mmu_flags (region_list A)).

(** [list_add_after(before, &r->node)] *)
Fixpoint insert_after (before r : positive) (l : list positive) : list positive :=
  match l with
  | [] => []
  | x :: l' => if bool_decide (x = before) then x :: r :: l' else x :: insert_after before r l'
  end.

Definition add_after (before : option positive) (r : positive) (l : list positive) : list positive :=
  match before with None => r :: l | Some b => insert_after b r l end.

Definition alloc_region (mem : option positive) (a : positive) (name : string)
    (size vaddr align_pow2 vmm_flags region_flags arch_mmu_flags : Z) : V (option positive) :=
  mr ← alloc_region_struct mem name vaddr size region_flags arch_mmu_flags;
  match mr with
  | None => mret None
  | Some r =>
      if negb (Z.land vmm_flags VMM_FLAG_VALLOC_SPECIFIC =? 0) then
        err ← add_region_to_aspace a r;
        if err <? 0 then free_region_struct r;; mret None else mret (Some r)
      else
        '(vaddr, before) ← alloc_spot a size align_pow2 arch_mmu_flags;
        if vaddr =? no_spot then free_region_struct r;; mret None
        else
          R ← get_region r;
          modify (λ s, set_regions (<[r := set_rg_base vaddr R]> (regions s)) s);;
          upd_aspace a (λ A, set_region_list (add_after before r (region_list A)) A);;
          mret (Some r)
  end.

(** ** Finding and removing regions *)

Fixpoint find_region (rs : gmap positive vmm_region) (vaddr : Z) (l : list positive) : option (option positive) :=
  match l with
  | [] => Some None
  | r :: l' =>
      R ← rs !! r;
      if (rg_base R <=? vaddr) && (vaddr <=? last_byte (rg_base R) (rg_size R)) then Some (Some r)
      else find_region rs vaddr l'
  end.

Definition vmm_find_region (a : positive) (vaddr : Z) : V (option positive) :=
  A ← get_aspace a; deref (λ s, find_region (regions s) vaddr (region_list A)).

Section mmu.
(** The results of the architecture's functions, from the calls made so far, and
    the translation of an address with its flags. *)
Context (mmu_answer : list mmu_call → mmu_call → Z).
Context (mmu_query : list mmu_call → positive → Z → option (Z * Z)).
Context (KERNEL_ASPACE_BASE KERNEL_ASPACE_SIZE USER_ASPACE_BASE USER_ASPACE_SIZE : Z).

Definition arch_mmu (c : mmu_call) : V Z :=
  cs ← gets mmu_calls; modify (set_mmu_calls (cs ++ [c]));; mret (mmu_answer cs c).

Definition vmm_remove_region_locked (a : positive) (vaddr : Z) : V (Z * option positive) :=
  mr ← vmm_find_region a vaddr;
  match mr with
  | None => mret (ERR_NOT_FOUND, None)
  | Some r =>
      R ← get_region r;
      upd_aspace a (λ A, set_region_list (list_without r (region_list A)) A);;
      arch_mmu (MmuUnmap a (rg_base R) (u32 (rg_size R / PAGE_SIZE)));;
      mret (NO_ERROR, Some r)
  end.

Definition vmm_free_region (a : positive) (vaddr : Z) : V Z :=
  '(err, mr) ← vmm_remove_region_locked a vaddr;
  if err <? NO_ERROR then mret err
  else match mr with
    | None => fail
    | Some r => on_pmm (pmm_free r);; free_region_struct r;; mret NO_ERROR
    end.

(** The clean-up after a failed mapping. *)
Definition remove_failed (a r : positive) : V unit :=
  R ← get_region r;
  '(err2, r_temp) ← vmm_remove_region_locked a (rg_base R);
  assert ((err2 =? NO_ERROR) || (err2 =? ERR_NOT_FOUND));;
  assert (bool_decide (r_temp = Some r)).

(** ** Allocating regions *)

Definition vmm_reserve_space (mem : option positive) (a : positive) (name : option string) (size vaddr : Z) : V Z :=
  assert (IS_PAGE_ALIGNED vaddr);;
  assert (IS_PAGE_ALIGNED size);;
  if size =? 0 then mret NO_ERROR
  else
    A ← get_aspace a;
    if negb (is_inside_aspace A vaddr) then mret ERR_OUT_OF_RANGE
    else
      size ← deref (λ _, trim_to_aspace A vaddr size);
      cs ← gets mmu_calls;
      let arch_mmu_flags := from_option snd 0 (mmu_query cs a vaddr) in
      mr ← alloc_region mem a (default ""%string name) size vaddr 0 VMM_FLAG_VALLOC_SPECIFIC VMM_REGION_FLAG_RESERVED arch_mmu_flags;
      mret (match mr with Some _ => NO_ERROR | None => ERR_NO_MEMORY end).

(** The address asked for, or the error. *)
Definition specific_vaddr (vmm_flags : Z) (ptr : option Z) : option Z :=
  if negb (Z.land vmm_flags VMM_FLAG_VALLOC_SPECIFIC =? 0) then ptr else Some 0.

(** [if (ptr) *ptr = r->base] *)
Definition out_ptr (R : vmm_region) (ptr : option Z) : option Z := (λ _, rg_base R) <$> ptr.

(** The results are the status and what [*ptr] holds. *)
Definition vmm_alloc_physical (mem : option positive) (a : positive) (name : option string) (size : Z) (ptr : option Z)
    (align_log2 paddr vmm_flags arch_mmu_flags : Z) : V (Z * option Z) :=
  assert (IS_PAGE_ALIGNED paddr);;
  assert (IS_PAGE_ALIGNED size);;
  if size =? 0 then mret (NO_ERROR, ptr)
  else match specific_vaddr vmm_flags ptr with
  | None => mret (ERR_INVALID_ARGS, ptr)
  | Some vaddr =>
      mr ← alloc_region mem a (default ""%string name) size vaddr align_log2 vmm_flags VMM_REGION_FLAG_PHYSICAL arch_mmu_flags;
      match mr with
      | None => mret (ERR_NO_MEMORY, ptr)
      | Some r =>
          R ← get_region r;
          err ← arch_mmu (MmuMap a (rg_base R) paddr (u32 (size / PAGE_SIZE)) arch_mmu_flags);
          if err <? NO_ERROR then
            remove_failed a r;; free_region_struct r;; mret (err, out_ptr R ptr)
          else mret (NO_ERROR, out_ptr R ptr)
      end
  end.

(** [page_list], on the stack, is at [tmp]. *)
Definition vmm_alloc_contiguous (mem : option positive) (tmp a : positive) (name : option string) (size : Z) (ptr : option Z)
    (align_pow2 vmm_flags arch_mmu_flags : Z) : V (Z * option Z) :=
  let size := ROUNDUP size PAGE_SIZE in
  if size =? 0 then mret (ERR_INVALID_ARGS, ptr)
  else match specific_vaddr vmm_flags ptr with
  | None => mret (ERR_INVALID_ARGS, ptr)
  | Some vaddr =>
      init_page_list tmp;;
      '(count, mpa) ← on_pmm (pmm_alloc_contiguous (u32 (size / PAGE_SIZE)) align_pow2 (Some tmp));
      if count <? size / PAGE_SIZE then
        assert (count =? 0);; drop_page_list tmp;; mret (ERR_NO_MEMORY, ptr)
      else
        mr ← alloc_region mem a (default ""%string name) size vaddr align_pow2 vmm_flags VMM_REGION_FLAG_PHYSICAL arch_mmu_flags;
        match mr with
        | None => on_pmm (pmm_free tmp);; drop_page_list tmp;; mret (ERR_NO_MEMORY, ptr)
        | Some r =>
            R ← get_region r;
            err ← arch_mmu (MmuMap a (rg_base R) (default 0 mpa) (u32 (size / PAGE_SIZE)) arch_mmu_flags);
            if err <? NO_ERROR then
              remove_failed a r;; free_region_struct r;;
              on_pmm (pmm_free tmp);; drop_page_list tmp;; mret (err, out_ptr R ptr)
            else
              q ← on_pmm (deref (λ s, page_lists s !! tmp));
              on_pmm (modify (λ s, set_page_lists (<[r := q]> (<[tmp := []]> (page_lists s))) s));;
              drop_page_list tmp;;
              mret (NO_ERROR, out_ptr R ptr)
        end
  end.

(** The mapping loop of [vmm_alloc], page by page; the error of the first mapping
    that failed. *)
Fixpoint map_pages (fuel : nat) (a r tmp : positive) (va r_end arch_mmu_flags : Z) : V Z :=
  match fuel with
  | O => fail
  | S fuel' =>
      mp ← list_remove_head_page tmp;
      match mp with
      | None => mret NO_ERROR
      | Some p =>
          assert (va <=? r_end);;
          pa ← on_pmm (vm_page_to_paddr p);
          assert (IS_PAGE_ALIGNED pa);;
          err ← arch_mmu (MmuMap a va pa 1 arch_mmu_flags);
          if err <? NO_ERROR then on_pmm (add_tail tmp p);; mret err
          else
            on_pmm (add_tail r p);;
            map_pages fuel' a r tmp (u64 (va + PAGE_SIZE)) r_end arch_mmu_flags
      end
  end.

Definition vmm_alloc (mem : option positive) (tmp a : positive) (name : option string) (size : Z) (ptr : option Z)
    (align_pow2 vmm_flags arch_mmu_flags : Z) : V (Z * option Z) :=
  let size := ROUNDUP size PAGE_SIZE in
  if size =? 0 then mret (ERR_INVALID_ARGS, ptr)
  else match specific_vaddr vmm_flags ptr with
  | None => mret (ERR_INVALID_ARGS, ptr)
  | Some vaddr =>
      init_page_list tmp;;
      count ← on_pmm (pmm_alloc_pages (u32 (size / PAGE_SIZE)) tmp);
      assert (count <=? size);;
      if count <? size / PAGE_SIZE then on_pmm (pmm_free tmp);; drop_page_list tmp;; mret (ERR_NO_MEMORY, ptr)
      else
        mr ← alloc_region mem a (default ""%string name) size vaddr align_pow2 vmm_flags VMM_REGION_FLAG_PHYSICAL arch_mmu_flags;
        match mr with
        | None => on_pmm (pmm_free tmp);; drop_page_list tmp;; mret (ERR_NO_MEMORY, ptr)
        | Some r =>
            R ← get_region r;
            assert (IS_PAGE_ALIGNED (rg_base R));;
            err ← map_pages (S (Z.to_nat count)) a r tmp (rg_base R) (last_byte (rg_base R) (rg_size R)) arch_mmu_flags;
            if err <? NO_ERROR then
              remove_failed a r;;
              on_pmm (pmm_free r);; on_pmm (pmm_free tmp);; drop_page_list tmp;;
              free_region_struct r;; mret (err, ptr)
            else drop_page_list tmp;; mret (NO_ERROR, out_ptr R ptr)
        end
  end.

(** ** Address spaces *)

Definition vmm_context_switch (newaspace : option positive) : V unit := arch_mmu (MmuSwitch newaspace);; mret ().

Definition vmm_init_preheap (kernel : positive) : V unit :=
  modify (λ s, set_aspaces (<[kernel := VmmAspace "kernel" VMM_ASPACE_FLAG_KERNEL KERNEL_ASPACE_BASE KERNEL_ASPACE_SIZE []]>
    (aspaces s)) s);;
  arch_mmu (MmuInit kernel KERNEL_ASPACE_BASE KERNEL_ASPACE_SIZE ARCH_ASPACE_FLAG_KERNEL);;
  modify (λ s, set_aspace_list (kernel :: aspace_list s) s).

Definition vmm_create_aspace (mem : option positive) (name : option string) (flags : Z) : V (Z * option positive) :=
  match mem with
  | None => mret (ERR_NO_MEMORY, None)
  | Some a =>
      let kernel := negb (Z.land flags VMM_ASPACE_FLAG_KERNEL =? 0) in
      let base := if kernel then KERNEL_ASPACE_BASE else USER_ASPACE_BASE in
      let size := if kernel then KERNEL_ASPACE_SIZE else USER_ASPACE_SIZE in
      err ← arch_mmu (MmuInit a base size (if kernel then ARCH_ASPACE_FLAG_KERNEL else 0));
      if err <? 0 then mret (err, None)
      else
        modify (λ s, set_aspaces (<[a := VmmAspace (String.substring 0 31 (default "unnamed"%string name)) flags base size []]>
          (aspaces s)) s);;
        modify (λ s, set_aspace_list (a :: aspace_list s) s);;
        mret (NO_ERROR, Some a)
  end.

(** The two loops of [vmm_free_aspace]. *)
Fixpoint unmap_regions (a : positive) (l : list positive) : V unit :=
  match l with
  | [] => mret ()
  | r :: l' =>
      R ← get_region r;
      arch_mmu (MmuUnmap a (rg_base R) (u32 (rg_size R / PAGE_SIZE)));;
      unmap_regions a l'
  end.

Fixpoint free_regions (l : list positive) : V unit :=
  match l with
  | [] => mret ()
  | r :: l' => on_pmm (pmm_free r);; free_region_struct r;; free_regions l'
  end.

Definition vmm_free_aspace (a : positive) : V Z :=
  al ← gets aspace_list;
  if negb (bool_decide (a ∈ al)) then mret ERR_INVALID_ARGS
  else
    modify (set_aspace_list (list_without a al));;
    A ← get_aspace a;
    unmap_regions a (region_list A);;
    upd_aspace a (set_region_list []);;
    free_regions (region_list A);;
    cur ← gets cur_aspace;
    when (bool_decide (cur = Some a)) (modify (set_cur_aspace None);; vmm_context_switch None);;
    arch_mmu (MmuDestroy a);;
    modify (λ s, set_aspaces (delete a (aspaces s)) s);;
    mret NO_ERROR.

Definition vmm_set_active_aspace (aspace : option positive) : V (option positive) :=
  old ← gets cur_aspace;
  if bool_decide (aspace = old) then mret aspace
  else modify (set_cur_aspace aspace);; vmm_context_switch aspace;; mret old.
End mmu.
