(* ===== verification/VmmSpec.v ===== *)
(** * Regions never overlap and spots are found

    The regions of an address space are disjoint, inside it and in order of
    address; [alloc_spot] finds the lowest spot that fits, and a region asked for
    at a given address is placed exactly when nothing is in its way. *)

From S2P Require Import Prelude Bits Pmm PmmInv PmmSpec Vmm.

(** ** Ordered regions *)

(** The regions of [l] lie in [lo, hi) one behind the other. *)
Fixpoint regs_ok (rs : gmap positive vmm_region) (lo hi : Z) (l : list positive) : Prop :=
  match l with
  | [] => lo ≤ hi
  | r :: l' => ∃ R, rs !! r = Some R ∧ lo ≤ rg_base R ∧ 0 < rg_size R ∧ regs_ok rs (rg_base R + rg_size R) hi l'
  end.

(** [size] bytes at [va] are inside [lo, hi) and meet no region of [l]. *)
Definition fits (rs : gmap positive vmm_region) (lo hi : Z) (l : list positive) (va size : Z) : Prop :=
  lo ≤ va ∧ va + size ≤ hi ∧
  ∀ r R, r ∈ l → rs !! r = Some R → va + size ≤ rg_base R ∨ rg_base R + rg_size R ≤ va.

Lemma regs_ok_le rs lo hi l : regs_ok rs lo hi l → lo ≤ hi.
Proof. revert lo. induction l as [|r l IH]; intros lo; simpl; [done|]. intros (R & _ & ? & ? & H%IH). lia. Qed.

Lemma regs_ok_in rs lo hi l r : regs_ok rs lo hi l → r ∈ l →
  ∃ R, rs !! r = Some R ∧ lo ≤ rg_base R ∧ 0 < rg_size R ∧ rg_base R + rg_size R ≤ hi.
Proof.
  revert lo. induction l as [|r' l IH]; intros lo; simpl; [by intros _ []%not_elem_of_nil|].
  intros (R & HR & Hlo & Hsz & Hl) [->|Hin]%elem_of_cons.
  - exists R. split_and!; [done..|by eapply regs_ok_le].
  - destruct (IH _ Hl Hin) as (R' & ? & ? & ? & ?). exists R'. split_and!; [done|lia|done|done].
Qed.

Lemma regs_ok_weaken rs lo lo' hi l : lo' ≤ lo → regs_ok rs lo hi l → regs_ok rs lo' hi l.
Proof. destruct l; simpl; [lia|]. intros Hlo (R & ? & ? & ? & ?). exists R. split_and!; [done|lia|done|done]. Qed.

Lemma regs_ok_ext rs rs' lo hi l : (∀ r, r ∈ l → rs' !! r = rs !! r) → regs_ok rs lo hi l → regs_ok rs' lo hi l.
Proof.
  revert lo. induction l as [|r l IH]; intros lo He; simpl; [done|]. intros (R & HR & ? & ? & Hl). exists R.
  split_and!; [by rw He // elem_of_cons; auto|done|done|]. apply IH; [|done]. intros r' Hr'. apply He, elem_of_cons. auto.
Qed.

Lemma regs_ok_nodup rs lo hi l : regs_ok rs lo hi l → NoDup l.
Proof.
  revert lo. induction l as [|r l IH]; intros lo; simpl; [intros _; constructor|]. intros (R & HR & ? & Hsz & Hl).
  apply NoDup_cons. split; [|by eapply IH]. intros Hin. destruct (regs_ok_in _ _ _ _ _ Hl Hin) as (R' & ? & ? & _).
  simplify_eq. lia.
Qed.

(** A region that fits has its place in the order. *)
Lemma regs_ok_insert rs lo hi l1 l2 r R :
  regs_ok rs lo hi (l1 ++ l2) → rs !! r = Some R → 0 < rg_size R → lo ≤ rg_base R → rg_base R + rg_size R ≤ hi →
  (∀ r' R', r' ∈ l1 → rs !! r' = Some R' → rg_base R' + rg_size R' ≤ rg_base R) →
  (∀ r' R', r' ∈ l2 → rs !! r' = Some R' → rg_base R + rg_size R ≤ rg_base R') →
  regs_ok rs lo hi (l1 ++ r :: l2).
Proof.
  revert lo. induction l1 as [|r1 l1 IH]; intros lo Hl HR Hsz Hlo Hhi H1 H2; simpl in *.
  - exists R. split_and!; [done..|]. destruct l2 as [|r2 l2]; simpl in *; [done|].
    destruct Hl as (R2 & HR2 & ? & ? & ?). exists R2. split_and!; [done| |done|done].
    eapply H2; [|done]. apply elem_of_cons. auto.
  - destruct Hl as (R1 & HR1 & ? & ? & Hl). exists R1. split_and!; [done..|]. apply IH; [done..| |done|intros r' R' Hr'; apply H1, elem_of_cons; auto|done].
    eapply H1; [|done]. apply elem_of_cons. auto.
Qed.

Lemma regs_ok_remove rs lo hi l1 l2 r : regs_ok rs lo hi (l1 ++ r :: l2) → regs_ok rs lo hi (l1 ++ l2).
Proof.
  revert lo. induction l1 as [|r1 l1 IH]; intros lo; simpl.
  - intros (R & _ & ? & ? & Hl). eapply regs_ok_weaken; [|done]. lia.
  - intros (R & ? & ? & ? & Hl). exists R. split_and!; [done..|by apply IH].
Qed.

(** ** Gaps *)

Record space_ok (A : vmm_aspace) : Prop := {
  so_base : 0 ≤ as_base A;
  so_size : 0 < as_size A < 2 ^ 64;
  so_end : as_base A + as_size A ≤ 2 ^ 64
}.

(** What the address space and the regions on both sides of a gap are to it. *)
Definition gap_of (A : vmm_aspace) (prev next : option vmm_region) (lo e : Z) : Prop :=
  match prev with Some p => lo = rg_base p + rg_size p ∧ as_base A < lo | None => lo = as_base A end ∧
  match next with Some n => e = rg_base n ∧ e < as_base A + as_size A | None => e = as_base A + as_size A end.

Definition aligned_fit (k lo e size va : Z) : Prop := (2 ^ k | va) ∧ lo ≤ va ∧ va + size ≤ e.

(** Rounding up past the end of the address range wraps to zero. *)
Lemma roundup_wrap lo k : 0 ≤ k ≤ 63 → 0 ≤ lo ≤ 2 ^ 64 - 1 → 2 ^ 64 ≤ lo + (2 ^ k - 1) →
  ROUNDUP lo (2 ^ k) = 0 ∧ ∀ va, (2 ^ k | va) → lo ≤ va → 2 ^ 64 ≤ va.
Proof.
  intros Hk Hlo Hge. assert (2 ^ k ≤ 2 ^ 63) by (apply Z.pow_le_mono_r; lia).
  pose proof (Z.pow_pos_nonneg 2 k ltac:(lia) ltac:(lia)). split.
  - rw /ROUNDUP ldiff_ones_div; [|lia]. rw /u64 -(Z.mod_add _ (-1)); [|lia]. rw Z.mod_small; [|lia]. rw Z.div_small; [done|lia].
  - intros va [x Hx] Hva. assert (2 ^ 64 = 2 ^ (64 - k) * 2 ^ k) as E by (rw -Z.pow_add_r; [f_equal; lia|lia|lia]).
    rw E in Hge |- *. set (P := 2 ^ k) in *. set (Y := 2 ^ (64 - k)) in *. clearbody P Y. assert (Y - 1 < x) by nia. nia.
Qed.

Lemma check_gap_spec A prev next k size fl lo e :
  space_ok A → gap_of A prev next lo e → 12 ≤ k ≤ 63 → 1 < size → lo ≤ e ≤ as_base A + as_size A → as_base A ≤ lo →
  match check_gap A prev next (2 ^ k) size fl with
  | (true, spot) =>
      (spot = no_spot ∧ ∀ va, ¬ aligned_fit k lo (as_base A + as_size A) size va) ∨
      (spot ≠ no_spot ∧ aligned_fit k lo e size spot ∧ ∀ va, (2 ^ k | va) → lo ≤ va → spot ≤ va)
  | (false, _) => ∀ va, ¬ aligned_fit k lo e size va
  end.
Proof.
  intros [Hb Hs He] [Hp Hn] Hk Hsz Hle Hlo. rw /check_gap. remember (as_base A + as_size A) as hi eqn:Ehi.
  assert (match prev with Some p => u64 (rg_base p + rg_size p) | None => as_base A end = u64 lo) as ->.
  { destruct prev; [by destruct Hp as [-> _]|]. subst. rw u64_small //. lia. }
  assert (∀ gap_end, gap_end = e - 1 → lo ≠ e →
    match (let pva := ALIGN (u64 lo) (2 ^ k) in
      if pva <? u64 lo then (true, no_spot)
      else if (pva <? gap_end) && (size <=? u64 (gap_end - pva + 1)) then (true, pva) else (false, pva)) with
    | (true, spot) => (spot = no_spot ∧ ∀ va, ¬ aligned_fit k lo hi size va) ∨
        (spot ≠ no_spot ∧ aligned_fit k lo e size spot ∧ ∀ va, (2 ^ k | va) → lo ≤ va → spot ≤ va)
    | (false, _) => ∀ va, ¬ aligned_fit k lo e size va
    end) as Hpick.
  { intros gap_end -> Hne. rw u64_small; [|lia]. cbv zeta. rw /ALIGN.
    destruct (decide (lo + (2 ^ k - 1) < 2 ^ 64)) as [Hlt|Hge].
    - destruct (roundup_spec lo k) as ([y Hy] & Hr1 & Hr2); [lia|lia|done|]. set (pva := ROUNDUP lo (2 ^ k)) in *.
      assert (∀ va, (2 ^ k | va) → lo ≤ va → pva ≤ va) as Hleast by (intros va; apply roundup_least; lia).
      rw (proj2 (Z.ltb_ge pva lo)); [|lia]. destruct ((pva <? e - 1) && _) eqn:Hc.
      + right. to_prop. assert (u64 (e - 1 - pva + 1) = e - pva) as Eu.
        { replace (e - 1 - pva + 1) with (e - pva) by lia. apply u64_small. lia. }
        rw Eu in H0. split; [change no_spot with (2 ^ 64 - 1); lia|]. split; [|done]. rw /aligned_fit. split_and!; [by exists y|lia|lia].
      + intros va (Hd & Hva1 & Hva2). specialize (Hleast va Hd Hva1). apply andb_false_iff in Hc as [Hc|Hc]; to_prop; [lia|].
        rw u64_small in Hc; lia.
    - destruct (roundup_wrap lo k) as [-> Hno]; [lia|lia|lia|]. assert (2 ^ k ≤ 2 ^ 63) by (apply Z.pow_le_mono_r; lia).
      rw (proj2 (Z.ltb_lt 0 lo)); [|lia]. left. split; [done|]. intros va (Hd & Hva1 & Hva2).
      specialize (Hno va Hd Hva1). lia. }
  destruct next as [n|].
  - destruct Hn as [-> Hnhi]. rw (u64_small lo); [|lia]. destruct (lo =? rg_base n) eqn:E; to_prop.
    + intros va (_ & ? & ?). lia.
    + rw u64_small; [|lia]. rw /arch_mmu_pick_spot. specialize (Hpick _ eq_refl E). rw u64_small in Hpick; [exact Hpick|lia].
  - subst e. destruct (u64 lo =? u64 hi) eqn:E; to_prop.
    + left. split; [done|]. intros va (_ & ? & ?).
      destruct (decide (hi = 2 ^ 64)) as [Eh|]; [|rw !u64_small in E; lia].
      destruct (decide (lo = 2 ^ 64)); [lia|]. rw Eh (u64_small lo) in E; [|lia]. change (u64 (2 ^ 64)) with 0 in E.
      destruct prev; cbn in Hp; lia.
    + rw /last_byte (u64_small (as_base A + as_size A - 1)); [|lia]. apply Hpick; [lia|]. intros ->. done.
Qed.

(** ** The search for a spot *)

#[local] Arguments check_gap : simpl never.
#[local] Arguments Z.pow : simpl never.

Section spot.
Context (rs : gmap positive vmm_region) (A : vmm_aspace) (k size fl : Z).
Context (Hspace : space_ok A) (Hk : 12 ≤ k ≤ 63) (Hsize : 1 < size).

Definition next_region (l : list positive) : option (option vmm_region) :=
  match l with [] => Some None | n :: _ => N ← rs !! n; Some (Some N) end.

(** The gap in front of [l], then those behind each of its regions. *)
Definition gap_then_walk (prev : option vmm_region) (before : option positive) (l : list positive) :
    option (Z * option positive) :=
  next ← next_region l;
  let '(stop, spot) := check_gap A prev next (2 ^ k) size fl in
  if stop then Some (spot, before) else alloc_spot_walk rs A (2 ^ k) size fl l.

Lemma alloc_spot_walk_cons r R l : rs !! r = Some R →
  alloc_spot_walk rs A (2 ^ k) size fl (r :: l) = gap_then_walk (Some R) (Some r) l.
Proof. intros HR. rw /gap_then_walk /= HR /=. by destruct l. Qed.

#[local] Arguments alloc_spot_walk : simpl never.

(** [spot] is the lowest aligned spot that fits, and [b] the region before it;
    or there is none. *)
Definition first_fit (lo : Z) (before : option positive) (l : list positive) (spot : Z) (b : option positive) : Prop :=
  let hi := as_base A + as_size A in
  (spot = no_spot ∧ ∀ va, (2 ^ k | va) → ¬ fits rs lo hi l va size) ∨
  (spot ≠ no_spot ∧ (2 ^ k | spot) ∧ fits rs lo hi l spot size ∧
   (∀ va, (2 ^ k | va) → fits rs lo hi l va size → spot ≤ va) ∧
   ∃ l1 l2, l = l1 ++ l2 ∧ b = match last l1 with Some x => Some x | None => before end ∧
     (∀ r R, r ∈ l1 → rs !! r = Some R → rg_base R + rg_size R ≤ spot) ∧
     (∀ r R, r ∈ l2 → rs !! r = Some R → spot + size ≤ rg_base R)).

Lemma gap_then_walk_spec l prev before lo :
  regs_ok rs lo (as_base A + as_size A) l → as_base A ≤ lo →
  match prev with Some p => lo = rg_base p + rg_size p ∧ as_base A < lo | None => lo = as_base A end →
  ∃ spot b, gap_then_walk prev before l = Some (spot, b) ∧ first_fit lo before l spot b.
Proof.
  revert prev before lo. induction l as [|r l IH]; intros prev before lo Hl Hlo Hprev.
  - rw /gap_then_walk /= /alloc_spot_walk. pose proof (check_gap_spec A prev None k size fl lo (as_base A + as_size A) Hspace) as C.
    destruct (check_gap A prev None (2 ^ k) size fl) as [[] spot].
    + exists spot, before. split; [done|]. destruct C as [[-> Hno]|(Hne & (Hd & Hs1 & Hs2) & Hleast)]; [done..|simpl in Hl; lia|done| |].
      * left. split; [done|]. intros va Hd (? & ? & _). by apply (Hno va).
      * right. split_and!; [done|done| | |exists [], []; split_and!; try done; by intros ? ? []%not_elem_of_nil].
        -- split_and!; [done|done|by intros ? ? []%not_elem_of_nil].
        -- intros va Hdv (? & _). by apply Hleast.
    + exists no_spot, None. split; [done|]. left. split; [done|]. intros va Hd (? & ? & _). apply (C ltac:(done) Hk Hsize ltac:(simpl in Hl; lia) Hlo va). done.
  - destruct Hl as (R & HR & HloR & HszR & Hl). pose proof (regs_ok_le _ _ _ _ Hl) as Hle.
    assert (∀ r' R', r' ∈ r :: l → rs !! r' = Some R' → rg_base R ≤ rg_base R') as Hfirst.
    { intros r' R' [->|Hin]%elem_of_cons HR'; [by simplify_eq|].
      destruct (regs_ok_in _ _ _ _ _ Hl Hin) as (R2 & ? & ? & _). simplify_eq. lia. }
    rw /gap_then_walk /= HR /=.
    pose proof (check_gap_spec A prev (Some R) k size fl lo (rg_base R) Hspace) as C.
    destruct (check_gap A prev (Some R) (2 ^ k) size fl) as [[] spot].
    + exists spot, before. split; [done|].
      destruct C as [[-> Hno]|(Hne & (Hd & Hs1 & Hs2) & Hleast)]; [split; [done|split; [done|lia]]|done|done|lia|done| |].
      * left. split; [done|]. intros va Hd (? & ? & _). by apply (Hno va).
      * right. split_and!; [done|done| | |exists [], (r :: l); split_and!; try done].
        -- split_and!; [done|lia|]. intros r' R' Hin HR'. left. pose proof (Hfirst _ _ Hin HR'). lia.
        -- intros va Hdv (? & _). by apply Hleast.
        -- by intros ? ? []%not_elem_of_nil.
        -- intros r' R' Hin HR'. pose proof (Hfirst _ _ Hin HR'). lia.
    + rw (alloc_spot_walk_cons r R l HR).
      destruct (IH (Some R) (Some r) (rg_base R + rg_size R) Hl) as (spot' & b & Hw & Hff); [lia|split; [done|lia]|].
      exists spot', b. split; [exact Hw|].
      assert (∀ va, (2 ^ k | va) → fits rs lo (as_base A + as_size A) (r :: l) va size →
        fits rs (rg_base R + rg_size R) (as_base A + as_size A) l va size) as Hskip.
      { intros va Hd (Hv1 & Hv2 & Hv3). destruct (Hv3 r R) as [Hb|Ha]; [apply elem_of_cons; auto|done| |].
        - exfalso. apply (C ltac:(split; [done|split; [done|lia]]) Hk Hsize ltac:(lia) Hlo va). done.
        - split_and!; [done|done|]. intros r' R' Hin. apply Hv3, elem_of_cons. auto. }
      destruct Hff as [[-> Hno]|(Hne & Hd & (Hs1 & Hs2 & Hs3) & Hleast & l1 & l2 & -> & Eb & H1 & H2)]; [left|right].
      * split; [done|]. intros va Hd Hf. by apply (Hno va Hd), Hskip.
      * split_and!; [done|done| |intros va Hdv Hf; by apply Hleast, Hskip|].
        -- split_and!; [lia|done|]. intros r' R' [->|Hin]%elem_of_cons HR'; [simplify_eq; right; lia|by eapply Hs3].
        -- exists (r :: l1), l2. split_and!; [done| | |done].
           ++ rw Eb last_cons. by destruct (last l1).
           ++ intros r' R' [->|Hin]%elem_of_cons HR'; [simplify_eq; lia|by eapply H1].
Qed.
End spot.

Lemma wp_alloc_spot s a A size align_pow2 fl (Q : Z * option positive → vmm → Prop) :
  aspaces s !! a = Some A → space_ok A → regs_ok (regions s) (as_base A) (as_base A + as_size A) (region_list A) →
  0 < size → (PAGE_SIZE | size) → 0 ≤ align_pow2 ≤ 63 →
  (∀ spot b, first_fit (regions s) A (Z.max 12 align_pow2) size (as_base A) None (region_list A) spot b → Q (spot, b) s) →
  wp (alloc_spot a size align_pow2 fl) Q s.
Proof.
  intros HA Hsp Hl Hsz Hd Hal HQ. assert (1 < size) as Hsz1 by (destruct Hd as [x ->]; rw /PAGE_SIZE in Hsz |- *; lia).
  apply wp_bind. eapply wp_deref; [done|]. apply wp_bind, wp_assert.
  { apply andb_true_iff. split; [by apply Z.ltb_lt|by apply page_aligned_spec]. }
  assert ((if align_pow2 <? PAGE_SIZE_SHIFT then PAGE_SIZE_SHIFT else align_pow2) = Z.max 12 align_pow2) as ->.
  { rw /PAGE_SIZE_SHIFT. case_match eqn:E; to_prop; lia. }
  cbv zeta. apply wp_bind, wp_assert; [apply Z.ltb_lt; lia|].
  destruct (gap_then_walk_spec (regions s) A (Z.max 12 align_pow2) size fl Hsp ltac:(lia) Hsz1 (region_list A) None None (as_base A))
    as (spot & b & Hw & Hff); [done|lia|done|].
  eapply wp_deref; [|by apply HQ]. exact Hw.
Qed.

(** C25: [alloc_spot] is a first-fit search: it returns the lowest address of the
    alignment asked for (a page at least) at which [size] bytes lie inside the
    address space and meet no region, and the region that comes before it; it
    returns [-1] only when there is no such address.  This includes address
    spaces that reach the end of the 64-bit range. *)
Theorem alloc_spot_first_fit s a A size align_pow2 fl :
  aspaces s !! a = Some A → space_ok A → regs_ok (regions s) (as_base A) (as_base A + as_size A) (region_list A) →
  0 < size → (PAGE_SIZE | size) → 0 ≤ align_pow2 ≤ 63 →
  wp (alloc_spot a size align_pow2 fl) (λ '(spot, b) s', s' = s ∧
    first_fit (regions s) A (Z.max 12 align_pow2) size (as_base A) None (region_list A) spot b) s.
Proof. intros. eapply wp_alloc_spot; [done..|]. done. Qed.

(** ** A region at a given address *)

Lemma inside_spec A vaddr : space_ok A → is_inside_aspace A vaddr = true ↔ as_base A ≤ vaddr < as_base A + as_size A.
Proof. intros [? ? ?]. rw /is_inside_aspace /last_byte u64_small; [|lia]. rw andb_true_iff !Z.leb_le. lia. Qed.

Lemma region_inside_spec A vaddr size : space_ok A → 0 < size < 2 ^ 64 →
  is_region_inside_aspace A vaddr size = true ↔ as_base A ≤ vaddr ∧ vaddr + size ≤ as_base A + as_size A.
Proof.
  intros Hsp Hsz. pose proof Hsp as [? ? ?]. rw /is_region_inside_aspace. destruct (is_inside_aspace A vaddr) eqn:E; simpl.
  - apply (inside_spec A vaddr Hsp) in E. rw (proj2 (Z.eqb_neq size 0)); [|lia]. rw /last_byte (u64_small (as_base A + _ - 1)); [|lia].
    destruct (decide (vaddr + size - 1 < 2 ^ 64)).
    + rw u64_small; [|lia]. rw (proj2 (Z.ltb_ge _ _)); [|lia]. destruct (_ <? _) eqn:E2; to_prop; split; try done; lia.
    + assert (u64 (vaddr + size - 1) = vaddr + size - 1 - 2 ^ 64) as ->.
      { rw /u64 -(Z.mod_add _ (-1)); [|lia]. rw Z.mod_small; lia. }
      rw (proj2 (Z.ltb_lt _ _)); [|lia]. split; [done|lia].
  - split; [done|]. intros. apply not_true_iff_false in E. rw (inside_spec A vaddr Hsp) in E. lia.
Qed.

Lemma last_byte_small base size : 0 ≤ base → 0 < size → base + size ≤ 2 ^ 64 → last_byte base size = base + size - 1.
Proof. intros. rw /last_byte u64_small; lia. Qed.

Lemma add_region_walk_cons rs r base e last l' R : rs !! last = Some R →
  add_region_walk rs r base e (last :: l') =
    if last_byte (rg_base R) (rg_size R) <? base then
      match l' with
      | [] => Some (Some [last; r])
      | next :: _ =>
          N ← rs !! next;
          if e <? rg_base N then Some (Some (last :: r :: l'))
          else w ← add_region_walk rs r base e l'; Some (cons last <$> (w : option (list positive)))
      end
    else w ← add_region_walk rs r base e l'; Some (cons last <$> (w : option (list positive))).
Proof. simpl. by intros ->. Qed.

#[local] Arguments add_region_walk : simpl never.

(** Behind a region the range runs into there is no place. *)
Lemma add_region_walk_none rs r base e lo hi l :
  regs_ok rs lo hi l → 0 ≤ lo → hi ≤ 2 ^ 64 → base < lo → add_region_walk rs r base e l = Some None.
Proof.
  intros Hl Hlo Hhi. revert lo Hl Hlo. induction l as [|x l IH]; intros lo Hl Hlo Hlt; [done|].
  destruct Hl as (R & HR & Hb & Hs & Hl). pose proof (regs_ok_le _ _ _ _ Hl) as Hle.
  rw (add_region_walk_cons _ _ _ _ _ _ R HR) last_byte_small; [|lia|lia|lia]. rw (proj2 (Z.ltb_ge _ _)); [|lia].
  rw (IH (rg_base R + rg_size R)); [done|done|lia|lia].
Qed.

(** The walk finds the place of a range that fits, and only then. *)
Lemma add_region_walk_spec rs r base size lo hi l :
  regs_ok rs lo hi l → 0 ≤ lo → hi ≤ 2 ^ 64 → 0 < size → base + size ≤ hi →
  match l with [] => True | first :: _ => ∀ R, rs !! first = Some R → rg_base R ≤ base + size - 1 end → l ≠ [] →
  ∃ w, add_region_walk rs r base (base + size - 1) l = Some w ∧
    match w with
    | Some l' => ∃ l1 l2, l = l1 ++ l2 ∧ l' = l1 ++ r :: l2 ∧
        (∀ x R, x ∈ l1 → rs !! x = Some R → rg_base R + rg_size R ≤ base) ∧
        (∀ x R, x ∈ l2 → rs !! x = Some R → base + size ≤ rg_base R)
    | None => ∃ x R, x ∈ l ∧ rs !! x = Some R ∧ base < rg_base R + rg_size R ∧ rg_base R < base + size
    end.
Proof.
  intros Hl Hlo Hhi Hsz Hend. revert lo Hl Hlo. induction l as [|x l IH]; intros lo Hl Hlo Hfirst Hne; [done|].
  destruct Hl as (R & HR & Hb & Hs & Hl). pose proof (regs_ok_le _ _ _ _ Hl) as Hle. specialize (Hfirst R HR).
  rw (add_region_walk_cons _ _ _ _ _ _ R HR) last_byte_small; [|lia|lia|lia].
  destruct (rg_base R + rg_size R - 1 <? base) eqn:E; to_prop.
  - destruct l as [|y l].
    + exists (Some [x; r]). split; [done|]. exists [x], []. split_and!; [done..| |by intros ? ? []%not_elem_of_nil].
      intros z R' Hz%list_elem_of_singleton ?. subst z. simplify_eq. lia.
    + destruct Hl as (N & HN & HbN & HsN & Hl). rw HN /=. destruct (base + size - 1 <? rg_base N) eqn:E2; to_prop.
      * exists (Some (x :: r :: y :: l)). split; [done|]. exists [x], (y :: l). split_and!; [done..| |].
        -- intros z R' Hz%list_elem_of_singleton ?. subst z. simplify_eq. lia.
        -- intros z R' [->|Hz]%elem_of_cons HR'; [simplify_eq; lia|].
           destruct (regs_ok_in _ _ _ _ _ Hl Hz) as (R2 & ? & ? & _). simplify_eq. lia.
      * destruct (IH (rg_base R + rg_size R)) as (w & Hw & Hspec); [simpl; exists N; split_and!; done|lia|intros; simplify_eq; lia|done|].
        rw Hw /=. exists (cons x <$> w). split; [done|]. destruct w as [l'|]; simpl.
        -- destruct Hspec as (l1 & l2 & El & -> & H1 & H2). exists (x :: l1), l2. rw El. split_and!; [done..| |done].
           intros z R' [->|Hz]%elem_of_cons HR'; [simplify_eq; lia|by eapply H1].
        -- destruct Hspec as (z & R' & Hz & ?). exists z, R'. split; [apply elem_of_cons; auto|done].
  - rw (add_region_walk_none _ _ _ _ (rg_base R + rg_size R) hi); [|done|lia|done|lia]. exists None. split; [done|].
    exists x, R. split_and!; [apply elem_of_cons; auto|done|lia|lia].
Qed.
