(* ===== verification/VmmAlloc.v ===== *)
(** * Allocating and freeing regions

    The invariant of the virtual memory manager, [alloc_region] with every way it
    can fail, and the operations built on it: a failed allocation leaves the
    regions and the free pages as they were, a successful one maps every page
    once, and freeing a region gives all of it back. *)

From S2P Require Import Prelude Bits Pmm PmmInv PmmSpec Vmm VmmSpec.

(** ** The invariant *)

Record vmm_inv (s : vmm) : Prop := {
  vi_pmm : pmm_inv (vpmm s);
  vi_space a A : aspaces s !! a = Some A → space_ok A;
  vi_regs a A : aspaces s !! a = Some A →
    regs_ok (regions s) (as_base A) (as_base A + as_size A) (region_list A);
  vi_owner a b A B r : aspaces s !! a = Some A → aspaces s !! b = Some B → r ∈ region_list A → r ∈ region_list B → a = b;
  vi_owned r : is_Some (regions s !! r) → ∃ a A, aspaces s !! a = Some A ∧ r ∈ region_list A;
  vi_lists l : is_Some (page_lists (vpmm s) !! l) ↔ is_Some (regions s !! l)
}.

Lemma wp_on_pmm {A} (m : P A) (Q : A → vmm → Prop) s :
  wp m (λ a p, Q a (set_vpmm p s)) (vpmm s) → wp (on_pmm m) Q s.
Proof. rw /wp /on_pmm. by destruct (m (vpmm s)) as [[a p]|]. Qed.

(** ** Placing a region *)

Definition with_list (l : positive) (q : list page_ptr) (p : pmm) : pmm := set_page_lists (<[l := q]> (page_lists p)) p.

(** The state with region [r] between [l1] and [l2]. *)
Definition placed (a : positive) (A : vmm_aspace) (r : positive) (R : vmm_region) (l1 l2 : list positive) (s : vmm) : vmm :=
  Vmm (aspace_list s) (<[a := set_region_list (l1 ++ r :: l2) A]> (aspaces s)) (<[r := R]> (regions s))
    (with_list r [] (vpmm s)) (mmu_calls s) (cur_aspace s).

(** The region's structure is new. *)
Definition fresh (s : vmm) (r : positive) : Prop := regions s !! r = None ∧ page_lists (vpmm s) !! r = None.

Lemma free_struct_fresh s r R (Q : unit → vmm → Prop) :
  fresh s r → Q () s → wp (free_region_struct r) Q (set_regions (<[r := R]> (regions s)) (set_vpmm (with_list r [] (vpmm s)) s)).
Proof.
  intros [Hr Hl] HQ. apply wp_bind, wp_on_pmm, wp_modify, wp_modify. simpl.
  assert (s = set_regions (delete r (<[r := R]> (regions s)))
    (set_vpmm (set_page_lists (delete r (<[r := []]> (page_lists (vpmm s)))) (vpmm s)) s)) as E.
  { rw !delete_insert_id //. destruct s as [? ? ? [] ? ?]. done. }
  rw E in HQ. exact HQ.
Qed.

Lemma insert_after_app x r l1 l2 : x ∉ l1 → insert_after x r (l1 ++ x :: l2) = l1 ++ x :: r :: l2.
Proof.
  induction l1 as [|y l1 IH]; simpl; intros Hx; [by rw bool_decide_true|].
  apply not_elem_of_cons in Hx as [? ?]. rw bool_decide_false //. f_equal. by apply IH.
Qed.

Lemma add_after_last r l1 l2 : NoDup (l1 ++ l2) →
  add_after (match last l1 with Some x => Some x | None => None end) r (l1 ++ l2) = l1 ++ r :: l2.
Proof.
  intros Hnd. destruct l1 as [|x l1 _] using rev_ind; [done|]. rw last_snoc /= -!app_assoc /=.
  rw -app_assoc in Hnd. rw insert_after_app //. intros Hin. apply NoDup_app in Hnd as (_ & Hd & _). apply (Hd x Hin).
  simpl. apply elem_of_cons. auto.
Qed.

(** Why no region is placed. *)
Definition no_place (s : vmm) (A : vmm_aspace) (mem : option positive) (specific : bool) (size vaddr al : Z) : Prop :=
  let fit va := fits (regions s) (as_base A) (as_base A + as_size A) (region_list A) va size in
  mem = None ∨ if specific then ¬ fit vaddr else ∀ va, (2 ^ al | va) → ¬ fit va.

(** Where it is placed. *)
Record good_place (s : vmm) (A : vmm_aspace) (specific : bool) (size vaddr al : Z) (va : Z) (l1 l2 : list positive) : Prop := {
  gp_list : region_list A = l1 ++ l2;
  gp_fits : fits (regions s) (as_base A) (as_base A + as_size A) (region_list A) va size;
  gp_va : if specific then va = vaddr else
    (2 ^ al | va) ∧ ∀ va', (2 ^ al | va') →
      fits (regions s) (as_base A) (as_base A + as_size A) (region_list A) va' size → va ≤ va';
  gp_before x X : x ∈ l1 → regions s !! x = Some X → rg_base X + rg_size X ≤ va;
  gp_after x X : x ∈ l2 → regions s !! x = Some X → va + size ≤ rg_base X
}.

Definition specific_flag (vmm_flags : Z) : bool := negb (Z.land vmm_flags VMM_FLAG_VALLOC_SPECIFIC =? 0).

(** [r] is not one of the regions. *)
Lemma fits_fresh rs r R lo hi l va size : r ∉ l → fits (<[r := R]> rs) lo hi l va size ↔ fits rs lo hi l va size.
Proof.
  intros Hn. rw /fits. apply and_iff_compat_l, and_iff_compat_l. split; intros H x X Hx HX; apply (H x X Hx).
  - rw lookup_insert_ne //. by intros ->.
  - rw lookup_insert_ne // in HX. by intros ->.
Qed.

Lemma first_fit_fresh rs r R A k size lo before l spot b :
  r ∉ l → first_fit (<[r := R]> rs) A k size lo before l spot b → first_fit rs A k size lo before l spot b.
Proof.
  intros Hn [[-> Hno]|(Hne & Hd & Hf & Hleast & l1 & l2 & El & Eb & H1 & H2)]; [left|right].
  - split; [done|]. intros va Hd Hf. apply (Hno va Hd). by apply fits_fresh.
  - split_and!; [done|done|by apply (fits_fresh rs r R)| |exists l1, l2; split_and!; [done|done| |]].
    + intros va Hdv Hfv. apply Hleast; [done|]. by apply fits_fresh.
    + intros x X Hx HX. apply (H1 x X Hx). rw lookup_insert_ne //. intros ->. apply Hn. rw El. apply elem_of_app. auto.
    + intros x X Hx HX. apply (H2 x X Hx). rw lookup_insert_ne //. intros ->. apply Hn. rw El. apply elem_of_app. auto.
Qed.

Lemma wp_upd_aspace a A f (Q : unit → vmm → Prop) s :
  aspaces s !! a = Some A → Q () (set_aspaces (<[a := f A]> (aspaces s)) s) → wp (upd_aspace a f) Q s.
Proof. intros HA HQ. apply wp_bind. eapply wp_deref; [done|]. by apply wp_modify. Qed.

Lemma fits_not rs lo hi l va size x X :
  fits rs lo hi l va size → x ∈ l → rs !! x = Some X → va < rg_base X + rg_size X → rg_base X < va + size → False.
Proof. intros (_ & _ & H) Hx HX ? ?. destruct (H x X Hx HX); lia. Qed.

Lemma fits_split rs lo hi l1 l2 va size :
  lo ≤ va → va + size ≤ hi →
  (∀ x X, x ∈ l1 → rs !! x = Some X → rg_base X + rg_size X ≤ va) →
  (∀ x X, x ∈ l2 → rs !! x = Some X → va + size ≤ rg_base X) → fits rs lo hi (l1 ++ l2) va size.
Proof. intros ? ? H1 H2. split_and!; [done..|]. intros x X [Hx|Hx]%elem_of_app HX; [right; eauto|left; eauto]. Qed.

Lemma wp_add_region_to_aspace s a A r R (Q : Z → vmm → Prop) :
  aspaces s !! a = Some A → regions s !! r = Some R → space_ok A →
  regs_ok (regions s) (as_base A) (as_base A + as_size A) (region_list A) → 0 < rg_size R < 2 ^ 64 → 0 ≤ rg_base R →
  let fit := fits (regions s) (as_base A) (as_base A + as_size A) (region_list A) (rg_base R) (rg_size R) in
  (¬ fit → ∀ err, err < 0 → Q err s) →
  (fit → ∀ l1 l2, region_list A = l1 ++ l2 →
    (∀ x X, x ∈ l1 → regions s !! x = Some X → rg_base X + rg_size X ≤ rg_base R) →
    (∀ x X, x ∈ l2 → regions s !! x = Some X → rg_base R + rg_size R ≤ rg_base X) →
    Q NO_ERROR (set_aspaces (<[a := set_region_list (l1 ++ r :: l2) A]> (aspaces s)) s)) →
  wp (add_region_to_aspace a r) Q s.
Proof.
  intros HA HR Hsp Hl Hsz Hb0 fit HQn HQ. pose proof Hsp as [? ? ?]. apply wp_bind. eapply wp_deref; [done|]. apply wp_bind. eapply wp_deref; [done|].
  rw (proj2 (Z.eqb_neq (rg_size R) 0)); [|lia]. simpl. apply wp_if; intros Hin.
  { apply wp_ret, HQn; [|done]. intros (? & ? & _). apply negb_true_iff, not_true_iff_false in Hin.
    apply Hin, region_inside_spec; [done|lia|done]. }
  apply negb_false_iff, region_inside_spec in Hin as [Hlo Hhi]; [|done|lia].
  cbv zeta. rw last_byte_small; [|lia|lia|lia].
  destruct (region_list A) as [|x l] eqn:El.
  - apply wp_bind. eapply wp_deref; [done|]. apply wp_bind. eapply wp_upd_aspace; [done|]. apply wp_ret.
    apply (HQ ltac:(apply (fits_split _ _ _ [] []); [done|done|by intros ? ? []%not_elem_of_nil..]) [] []); [done|by intros ? ? []%not_elem_of_nil..].
  - pose proof Hl as (X & HX & HbX & HsX & Hl'). apply wp_bind. eapply wp_deref; [by rw HX|]. apply wp_if; intros Hf; to_prop.
    + assert (∀ y Y, y ∈ x :: l → regions s !! y = Some Y → rg_base R + rg_size R ≤ rg_base Y) as Haft.
      { intros y Y [->|Hy]%elem_of_cons HY; [simplify_eq; lia|]. destruct (regs_ok_in _ _ _ _ _ Hl' Hy) as (? & ? & ? & _). simplify_eq. lia. }
      apply wp_bind. eapply wp_upd_aspace; [done|]. apply wp_ret.
      apply (HQ ltac:(apply (fits_split _ _ _ [] (x :: l)); [done|done|by intros ? ? []%not_elem_of_nil|done]) [] (x :: l)); [done|by intros ? ? []%not_elem_of_nil|done].
    + destruct (add_region_walk_spec (regions s) r (rg_base R) (rg_size R) _ _ (x :: l) Hl) as (w & Hw & Hspec); [lia..|intros; simplify_eq; lia|done|].
      apply wp_bind. eapply wp_deref; [exact Hw|]. destruct w as [l'|].
      * destruct Hspec as (l1 & l2 & E & -> & H1 & H2). apply wp_bind. eapply wp_upd_aspace; [done|]. apply wp_ret.
        apply (HQ ltac:(rw /fit E; by apply fits_split) l1 l2); [done..].
      * destruct Hspec as (y & Y & Hy & HY & ? & ?). apply wp_ret, HQn; [|done]. intros Hfit. by eapply fits_not.
Qed.

Lemma regs_ok_not_fresh rs lo hi l r : regs_ok rs lo hi l → rs !! r = None → r ∉ l.
Proof. intros Hl Hr Hin. destruct (regs_ok_in _ _ _ _ _ Hl Hin) as (R & ? & _). congruence. Qed.

Lemma wp_alloc_region s mem a A name size vaddr align_pow2 vmm_flags region_flags amf (Q : option positive → vmm → Prop) :
  aspaces s !! a = Some A → space_ok A → regs_ok (regions s) (as_base A) (as_base A + as_size A) (region_list A) →
  (∀ r, mem = Some r → fresh s r) → 0 < size < 2 ^ 64 → (PAGE_SIZE | size) → 0 ≤ align_pow2 ≤ 63 → 0 ≤ vaddr →
  let sp := specific_flag vmm_flags in let al := Z.max 12 align_pow2 in
  (no_place s A mem sp size vaddr al → Q None s) →
  (∀ r va l1 l2, mem = Some r → good_place s A sp size vaddr al va l1 l2 →
    Q (Some r) (placed a A r (VmmRegion (String.substring 0 31 name) region_flags amf va size) l1 l2 s)) →
  wp (alloc_region mem a name size vaddr align_pow2 vmm_flags region_flags amf) Q s.
Proof.
  intros HA Hsp Hl Hfr Hsz Hd Hal Hv sp al HQn HQ. destruct mem as [r|]; [|apply wp_bind, wp_ret, wp_ret, HQn; by left].
  specialize (Hfr r eq_refl). pose proof (regs_ok_not_fresh _ _ _ _ _ Hl (proj1 Hfr)) as Hnin.
  apply wp_bind, wp_bind, wp_modify, wp_bind, wp_on_pmm, wp_modify, wp_ret.
  set (R0 := VmmRegion _ _ _ _ _). set (s1 := set_vpmm _ _).
  assert (s1 = set_regions (<[r := R0]> (regions s)) (set_vpmm (with_list r [] (vpmm s)) s)) as E1 by done.
  assert (∀ x, x ∈ region_list A → regions s1 !! x = regions s !! x) as Hsame.
  { intros x Hx. rw /s1 /= lookup_insert_ne //. by intros ->. }
  assert (regs_ok (regions s1) (as_base A) (as_base A + as_size A) (region_list A)) as Hl1 by by eapply regs_ok_ext.
  apply wp_if; intros Hsf; fold (specific_flag vmm_flags) in Hsf; fold sp in Hsf.
  - apply wp_bind. apply (wp_add_region_to_aspace s1 a A r R0); [done|by rw /= lookup_insert_eq|done|done|done|done| |].
    + intros Hnf err Herr. rw (proj2 (Z.ltb_lt err 0) Herr). apply wp_bind. rw E1. apply free_struct_fresh; [done|].
      apply wp_ret, HQn. right. rw Hsf. intros Hf. apply Hnf. by apply fits_fresh.
    + intros Hf l1 l2 El H1 H2. apply wp_ret. apply (HQ r vaddr l1 l2 eq_refl).
      split; [done|by apply (fits_fresh (regions s) r R0)|by rw Hsf| |].
      * intros x X Hx HX. apply (H1 x X Hx). rw Hsame //. rw El. apply elem_of_app. auto.
      * intros x X Hx HX. apply (H2 x X Hx). rw Hsame //. rw El. apply elem_of_app. auto.
  - apply wp_bind. eapply (wp_alloc_spot s1 a A); [done|done|done|lia|done|done|].
    intros spot b Hff. apply first_fit_fresh in Hff; [|done]. apply wp_if; intros Hs; to_prop.
    + apply wp_bind. rw E1. apply free_struct_fresh; [done|]. apply wp_ret, HQn. right. rw Hsf.
      destruct Hff as [[_ Hno]|(Hne & _)]; [exact Hno|done].
    + destruct Hff as [[? _]|(_ & Hda & Hf & Hleast & l1 & l2 & El & -> & H1 & H2)]; [done|].
      apply wp_bind. eapply wp_deref; [by apply lookup_insert_eq|]. apply wp_bind, wp_modify, wp_bind.
      eapply wp_upd_aspace; [done|]. apply wp_ret.
      rw El add_after_last; [|rw -El; by eapply regs_ok_nodup].
      assert (∀ s', s' = placed a A r (VmmRegion (String.substring 0 31 name) region_flags amf spot size) l1 l2 s → Q (Some r) s') as HQ'.
      { intros s' ->. apply HQ; [done|]. split; [done|done|by rw Hsf|done|done]. }
      apply HQ'. rw /placed /set_aspaces /set_regions /= insert_insert_eq //.
Qed.

(** A placed region keeps the invariant, once its page list is in order. *)
Lemma placed_inv s a A r R l1 l2 sp size vaddr al p' calls :
  vmm_inv s → aspaces s !! a = Some A → fresh s r → good_place s A sp size vaddr al (rg_base R) l1 l2 → rg_size R = size → 0 < size →
  pmm_inv p' → (∀ l, is_Some (page_lists p' !! l) ↔ is_Some (page_lists (vpmm s) !! l) ∨ l = r) →
  vmm_inv (set_mmu_calls calls (set_vpmm p' (placed a A r R l1 l2 s))).
Proof.
  intros I HA Hfr [El (Hf1 & Hf2 & _) _ Hbef Haft] Esz Hsz Ip Hpl. pose proof (vi_regs _ I _ _ HA) as Hl.
  pose proof (regs_ok_not_fresh _ _ _ _ _ Hl (proj1 Hfr)) as Hnin.
  assert (∀ b B, aspaces s !! b = Some B → r ∉ region_list B) as Hnew.
  { intros b B HB. eapply regs_ok_not_fresh; [by apply (vi_regs _ I _ _ HB)|apply Hfr]. }
  assert (∀ b B, <[a := set_region_list (l1 ++ r :: l2) A]> (aspaces s) !! b = Some B →
    ∃ B0, aspaces s !! b = Some B0 ∧ as_base B = as_base B0 ∧ as_size B = as_size B0 ∧
      (∀ x, x ∈ region_list B → x ∈ region_list B0 ∨ (x = r ∧ b = a))) as Hold.
  { intros b B [[<- <-]|[Hne HB]]%lookup_insert_Some; [exists A|exists B; split_and!; auto].
    split_and!; [done..|]. simpl. rw El. intros x. rw !elem_of_app elem_of_cons. naive_solver. }
  split; simpl.
  - done.
  - intros b B (B0 & HB0 & Eb & Es & _)%Hold. destruct (vi_space _ I _ _ HB0). split; rw ?Eb ?Es; done.
  - intros b B [[<- <-]|[Hne HB]]%lookup_insert_Some; simpl.
    + apply (regs_ok_insert _ _ _ _ _ _ R); [|by rw lookup_insert_eq|lia|done|lia| |].
      * rw -El. eapply regs_ok_ext; [|exact Hl]. intros x Hx. rw lookup_insert_ne //. by intros ->.
      * intros x X Hx. rw lookup_insert_ne; [by apply Hbef|]. intros ->. apply Hnin. rw El elem_of_app. auto.
      * intros x X Hx. rw lookup_insert_ne; [by rw Esz; apply Haft|]. intros ->. apply Hnin. rw El elem_of_app. auto.
    + eapply regs_ok_ext; [|by apply (vi_regs _ I _ _ HB)]. intros x Hx. rw lookup_insert_ne //. intros ->. by apply (Hnew b B).
  - intros b c B C x (B0 & HB0 & _ & _ & Hb)%Hold (C0 & HC0 & _ & _ & Hc)%Hold Hx Hx'.
    pose proof (Hb x Hx) as [Hb'|[Hxr Hba]]; pose proof (Hc x Hx') as [Hc'|[Hxr' Hca]]; [by eapply (vi_owner _ I b c)|subst x..].
    + by destruct (Hnew b B0).
    + by destruct (Hnew c C0).
    + congruence.
  - intros x. destruct (decide (x = r)) as [->|Hne].
    + intros _. exists a, (set_region_list (l1 ++ r :: l2) A). rw lookup_insert_eq. split; [done|]. simpl.
      rw elem_of_app elem_of_cons. auto.
    + rw lookup_insert_ne //. intros (b & B & HB & Hx)%(vi_owned _ I). destruct (decide (b = a)) as [->|].
      * simplify_eq. exists a, (set_region_list (l1 ++ r :: l2) A). rw lookup_insert_eq. split; [done|]. simpl.
        rw El in Hx. rw elem_of_app elem_of_cons. apply elem_of_app in Hx. naive_solver.
      * exists b, B. by rw lookup_insert_ne.
  - intros l. rw Hpl (vi_lists _ I). destruct (decide (l = r)) as [->|]; [rw lookup_insert_eq; naive_solver|].
    rw lookup_insert_ne //. naive_solver.
Qed.

(** ** Page lists *)

Lemma relist_inv p ls :
  pmm_inv p →
  (∀ l q, ls !! l = Some q → NoDup q ∧ ∀ x, x ∈ q → used p x) →
  (∀ l l' q q' x, ls !! l = Some q → ls !! l' = Some q' → x ∈ q → x ∈ q' → l = l') →
  pmm_inv (set_page_lists ls p).
Proof.
  intros [? ? ? ? _ _ _] H1 H2. split; simpl; try done.
  - intros l q Hq. by apply (H1 l).
  - intros l q x Hq Hx. destruct (H1 l q Hq) as [_ Hu]. by apply Hu.
Qed.

Lemma with_list_inv p l : pmm_inv p → page_lists p !! l = None → pmm_inv (with_list l [] p).
Proof.
  intros I Hl. apply relist_inv; [done| |].
  - intros k q [[<- <-]|[_ Hq]]%lookup_insert_Some; [split; [constructor|by intros ? []%not_elem_of_nil]|].
    split; [by apply (pi_lists _ I k)|]. intros x. by apply (pi_used _ I k).
  - intros k k' q q' x [[<- <-]|[_ Hq]]%lookup_insert_Some; [by intros _ []%not_elem_of_nil|].
    intros [[<- <-]|[_ Hq']]%lookup_insert_Some Hx; [by intros []%not_elem_of_nil|]. by eapply (pi_once _ I k k' q q').
Qed.

Lemma drop_list_inv p l : pmm_inv p → pmm_inv (set_page_lists (delete l (page_lists p)) p).
Proof.
  intros I. apply relist_inv; [done| |].
  - intros k q [_ Hq]%lookup_delete_Some. split; [by apply (pi_lists _ I k)|]. intros x. by apply (pi_used _ I k).
  - intros k k' q q' x [_ Hq]%lookup_delete_Some [_ Hq']%lookup_delete_Some. by eapply (pi_once _ I k k' q q').
Qed.

(** Two lists share the pages of a list. *)
Definition two_lists (r tmp : positive) (q1 q2 : list page_ptr) (p : pmm) : pmm :=
  set_page_lists (<[r := q1]> (<[tmp := q2]> (page_lists p))) p.

(** Pages may move between two lists. *)
Lemma two_lists_inv p r tmp q q1 q2 :
  pmm_inv p → r ≠ tmp → page_lists p !! r = Some [] → page_lists p !! tmp = Some q → q1 ++ q2 ≡ₚ q → pmm_inv (two_lists r tmp q1 q2 p).
Proof.
  intros I Hne Hr Ht HP. assert (NoDup (q1 ++ q2)) as Hnd by (rw HP; by apply (pi_lists _ I tmp)).
  assert (∀ x, x ∈ q1 ∨ x ∈ q2 → x ∈ q) as Hin by (intros x Hx; rw -HP; by apply elem_of_app).
  apply NoDup_app in Hnd as (Hnd1 & Hd & Hnd2).
  assert (∀ k q', <[r := q1]> (<[tmp := q2]> (page_lists p)) !! k = Some q' →
    (k = r ∧ q' = q1) ∨ (k = tmp ∧ q' = q2) ∨ (k ≠ r ∧ k ≠ tmp ∧ page_lists p !! k = Some q')) as Hcases.
  { intros k q' [[<- <-]|[? [[<- <-]|[? ?]]%lookup_insert_Some]]%lookup_insert_Some; auto. }
  apply relist_inv; [done| |].
  - intros k q' [[-> ->]|[[-> ->]|(_ & _ & Hk)]]%Hcases.
    + split; [done|]. intros x Hx. apply (pi_used _ I tmp q); auto.
    + split; [done|]. intros x Hx. apply (pi_used _ I tmp q); auto.
    + split; [by apply (pi_lists _ I k)|]. intros x. by apply (pi_used _ I k).
  - assert (∀ k q' x, k ≠ tmp → page_lists p !! k = Some q' → x ∈ q' → x ∈ q → False) as Hno.
    { intros k q' x Hk Hq' Hx Hxq. apply Hk. by eapply (pi_once _ I k tmp). }
    intros k k' a b x Ha%Hcases Hb%Hcases Hxa Hxb.
    destruct Ha as [[-> ->]|[[-> ->]|(? & ? & Ha)]], Hb as [[-> ->]|[[-> ->]|(? & ? & Hb)]]; try done.
    + by destruct (Hd x).
    + exfalso. by eapply (Hno k' b x); auto.
    + by destruct (Hd x).
    + exfalso. by eapply (Hno k' b x); auto.
    + exfalso. by eapply (Hno k a x); auto.
    + exfalso. by eapply (Hno k a x); auto.
    + by eapply (pi_once _ I k k').
Qed.

Definition page_addr (p : pmm) (x : page_ptr) : Z :=
  from_option (λ A, ar_base A + Z.of_nat x.2 * PAGE_SIZE) 0 (arenas p !! x.1).

Lemma wp_page_addr p x (Q : Z → pmm → Prop) :
  pmm_inv p → used p x → Q (page_addr p x) p → wp (vm_page_to_paddr x) Q p.
Proof.
  intros I (pg & (A & HA & Hp)%page_at_some & _) HQ. rw /page_addr HA /= in HQ.
  pose proof (ao_pages _ _ (pi_ok _ I _ _ HA)) as [Hlen _]. apply lookup_lt_Some in Hp.
  eapply wp_deref; [|exact HQ]. apply vm_page_to_paddr_found; [done| |intros a; apply (pi_arenas _ I)|apply (pi_arenas _ I); by exists A].
  exists A. split_and!; [done..|lia].
Qed.

Lemma page_addr_aligned p x : pmm_inv p → used p x → IS_PAGE_ALIGNED (page_addr p x) = true.
Proof.
  intros I (pg & (A & HA & _)%page_at_some & _). apply page_aligned_spec. rw /page_addr HA /=.
  destruct (ao_base _ _ (pi_ok _ I _ _ HA)) as [_ Hd]. apply Z.divide_add_r; [done|]. by apply Z.divide_factor_r.
Qed.

Lemma page_addr_lists p ls x : page_addr (set_page_lists ls p) x = page_addr p x.
Proof. done. Qed.

Lemma two_lists_tmp r tmp q1 q2 q2' p : r ≠ tmp →
  set_page_lists (<[tmp := q2']> (page_lists (two_lists r tmp q1 q2 p))) (two_lists r tmp q1 q2 p) = two_lists r tmp q1 q2' p.
Proof. intros. rw /two_lists /set_page_lists /=. f_equal. by rw insert_insert_ne // insert_insert_eq. Qed.

Lemma two_lists_r r tmp q1 q1' q2 p :
  set_page_lists (<[r := q1']> (page_lists (two_lists r tmp q1 q2 p))) (two_lists r tmp q1 q2 p) = two_lists r tmp q1' q2 p.
Proof. rw /two_lists /set_page_lists /=. f_equal. by rw insert_insert_eq. Qed.

Lemma two_lists_lookup_r r tmp q1 q2 p : page_lists (two_lists r tmp q1 q2 p) !! r = Some q1.
Proof. by rw /= lookup_insert_eq. Qed.

Lemma two_lists_lookup_tmp r tmp q1 q2 p : r ≠ tmp → page_lists (two_lists r tmp q1 q2 p) !! tmp = Some q2.
Proof. intros. by rw /= lookup_insert_ne // lookup_insert_eq. Qed.

(** ** The mapping loop *)

Section mmu.
Context (ans : list mmu_call → mmu_call → Z).

Lemma wp_arch_mmu c s (Q : Z → vmm → Prop) :
  Q (ans (mmu_calls s) c) (set_mmu_calls (mmu_calls s ++ [c]) s) → wp (arch_mmu ans c) Q s.
Proof. intros HQ. apply wp_bind, wp_gets, wp_bind, wp_modify, wp_ret. exact HQ. Qed.

Fixpoint map_calls (p : pmm) (a : positive) (va fl : Z) (ps : list page_ptr) : list mmu_call :=
  match ps with
  | [] => []
  | x :: ps' => MmuMap a va (page_addr p x) 1 fl :: map_calls p a (va + PAGE_SIZE) fl ps'
  end.

Lemma wp_map_pages fuel t a r tmp va r_end fl p q q1 q2 (Q : Z → vmm → Prop) :
  pmm_inv p → r ≠ tmp → page_lists p !! r = Some [] → page_lists p !! tmp = Some q → q1 ++ q2 = q →
  vpmm t = two_lists r tmp q1 q2 p → (length q2 < fuel)%nat →
  0 ≤ va → va + Z.of_nat (length q2) * PAGE_SIZE = r_end + 1 → r_end < 2 ^ 64 →
  Q NO_ERROR (set_mmu_calls (mmu_calls t ++ map_calls p a va fl q2) (set_vpmm (two_lists r tmp q [] p) t)) →
  (∀ err k k' cs, err < 0 → k ++ k' ≡ₚ q → Q err (set_mmu_calls cs (set_vpmm (two_lists r tmp k k' p) t))) →
  wp (map_pages ans fuel a r tmp va r_end fl) Q t.
Proof.
  intros Ip Hne Hr Ht. revert t va q1 q2. induction fuel as [|fuel IH]; intros t va q1 q2 Eq Et Hfuel Hva Hend Hmax HQ HQe; [lia|].
  cbn [map_pages]. apply wp_bind, wp_bind, wp_on_pmm. eapply wp_deref; [rw Et; by apply two_lists_lookup_tmp|].
  assert (∀ k, set_vpmm (vpmm t) (set_mmu_calls k t) = set_mmu_calls k t) as Eid by done.
  assert (set_vpmm (vpmm t) t = t) as Eid2 by by destruct t.
  destruct q2 as [|x q2].
  - apply wp_ret, wp_ret. rw app_nil_r in Eq. subst q1. rw /= app_nil_r in HQ. rw Eid2.
    assert (set_mmu_calls (mmu_calls t) (set_vpmm (two_lists r tmp q [] p) t) = t) as E by (rw -Et; by destruct t).
    by rw E in HQ.
  - apply wp_bind, wp_on_pmm, wp_modify, wp_ret. rw Eid2. apply wp_bind, wp_assert.
    { apply Z.leb_le. rw /PAGE_SIZE in Hend. simpl length in Hend. lia. }
    assert (x ∈ q) as Hxq by (rw -Eq elem_of_app elem_of_cons; auto).
    assert (used p x) as Hux by by apply (pi_used _ Ip tmp q).
    assert (pmm_inv (two_lists r tmp q1 q2 p)) as I2.
    { pose proof (two_lists_inv p r tmp q q1 (x :: q2) Ip Hne Hr Ht ltac:(by rw Eq)) as I1.
      rw -(two_lists_tmp r tmp q1 (x :: q2) q2) //. eapply shrink_inv; [done|by apply two_lists_lookup_tmp]. }
    apply wp_bind, wp_on_pmm. simpl. rw Et two_lists_tmp //. apply wp_page_addr; [done|exact Hux|].
    apply wp_bind, wp_assert; [by apply page_addr_aligned|]. apply wp_bind, wp_arch_mmu. apply wp_if; intros Herr; to_prop.
    + apply wp_bind, wp_on_pmm. eapply wp_bind, wp_deref; [by apply two_lists_lookup_tmp|]. apply wp_modify, wp_ret.
      simpl. rw two_lists_tmp //. apply (HQe _ q1 (q2 ++ [x])); [done|]. rw -Eq. solve_Permutation.
    + apply wp_bind, wp_on_pmm. eapply wp_bind, wp_deref; [by apply two_lists_lookup_r|]. apply wp_modify. simpl. rw two_lists_r.
      assert (map_calls p a va fl (x :: q2) = MmuMap a va (page_addr p x) 1 fl :: map_calls p a (va + PAGE_SIZE) fl q2) as Ec by done.
      destruct q2 as [|y q2].
      * destruct fuel as [|fuel]; [simpl in Hfuel; lia|]. cbn [map_pages]. apply wp_bind, wp_bind, wp_on_pmm.
        eapply wp_deref; [by apply two_lists_lookup_tmp|]. apply wp_ret, wp_ret. rw Ec /= in HQ. rw -Eq in HQ. exact HQ.
      * assert (u64 (va + PAGE_SIZE) = va + PAGE_SIZE) as ->.
        { apply u64_small. rw /PAGE_SIZE in Hend |- *. simpl length in Hend. lia. }
        eapply (IH _ _ (q1 ++ [x]) (y :: q2)); [by rw -app_assoc|done|simpl in Hfuel |- *; lia|rw /PAGE_SIZE; lia| |done| |].
        -- rw /PAGE_SIZE in Hend |- *. simpl length in Hend |- *. lia.
        -- rw Ec in HQ. simpl. rw -app_assoc. exact HQ.
        -- intros err k k' cs He HP. apply (HQe err k k' cs He HP).
Qed.
End mmu.

(** ** Removing a region *)

Definition contains (R : vmm_region) (vaddr : Z) : Prop := rg_base R ≤ vaddr < rg_base R + rg_size R.

Lemma find_region_spec rs lo hi l vaddr : regs_ok rs lo hi l → 0 ≤ lo → hi ≤ 2 ^ 64 →
  ∃ o, find_region rs vaddr l = Some o ∧
    match o with
    | Some r => ∃ R, r ∈ l ∧ rs !! r = Some R ∧ contains R vaddr
    | None => ∀ r R, r ∈ l → rs !! r = Some R → ¬ contains R vaddr
    end.
Proof.
  intros Hl Hlo Hhi. revert lo Hl Hlo. induction l as [|x l IH]; intros lo Hl Hlo.
  { exists None. split; [done|]. by intros ? ? []%not_elem_of_nil. }
  destruct Hl as (R & HR & Hb & Hs & Hl). pose proof (regs_ok_le _ _ _ _ Hl) as Hle. simpl. rw HR /= last_byte_small; [|lia|lia|lia].
  destruct ((rg_base R <=? vaddr) && (vaddr <=? rg_base R + rg_size R - 1)) eqn:E.
  - to_prop. exists (Some x). split; [done|]. exists R. split_and!; [apply elem_of_cons; auto|done|rw /contains; lia].
  - destruct (IH _ Hl ltac:(lia)) as (o & Ho & Hspec). exists o. split; [done|]. destruct o as [r|].
    + destruct Hspec as (R' & ? & ?). exists R'. split; [apply elem_of_cons; auto|done].
    + intros r R' [->|Hr]%elem_of_cons HR'; [|by apply (Hspec r)]. simplify_eq. intros [? ?].
      apply andb_false_iff in E as [E|E]; to_prop; lia.
Qed.

(** An address is in one region at most. *)
Lemma regs_ok_unique rs lo hi l x y X Y vaddr :
  regs_ok rs lo hi l → x ∈ l → y ∈ l → rs !! x = Some X → rs !! y = Some Y → contains X vaddr → contains Y vaddr → x = y.
Proof.
  revert lo. induction l as [|z l IH]; intros lo Hl Hx Hy HX HY [? ?] [? ?]; [by apply not_elem_of_nil in Hx|].
  destruct Hl as (Z' & HZ & Hb & Hs & Hl).
  assert (∀ w W, w ∈ l → rs !! w = Some W → rg_base Z' + rg_size Z' ≤ rg_base W) as Hafter.
  { intros w W Hw HW. destruct (regs_ok_in _ _ _ _ _ Hl Hw) as (? & ? & ? & _). by simplify_eq. }
  apply elem_of_cons in Hx as [->|Hx], Hy as [->|Hy]; [done| | |by eapply IH].
  - simplify_eq. pose proof (Hafter _ _ Hy HY). lia.
  - simplify_eq. pose proof (Hafter _ _ Hx HX). lia.
Qed.

Section remove.
Context (ans : list mmu_call → mmu_call → Z).

Definition removed (a : positive) (A : vmm_aspace) (r : positive) (R : vmm_region) (s : vmm) : vmm :=
  set_mmu_calls (mmu_calls s ++ [MmuUnmap a (rg_base R) (u32 (rg_size R / PAGE_SIZE))])
    (set_aspaces (<[a := set_region_list (list_without r (region_list A)) A]> (aspaces s)) s).

Lemma wp_remove_region s a A vaddr (Q : Z * option positive → vmm → Prop) :
  aspaces s !! a = Some A → space_ok A → regs_ok (regions s) (as_base A) (as_base A + as_size A) (region_list A) →
  ((∀ r R, r ∈ region_list A → regions s !! r = Some R → ¬ contains R vaddr) → Q (ERR_NOT_FOUND, None) s) →
  (∀ r R, r ∈ region_list A → regions s !! r = Some R → contains R vaddr → Q (NO_ERROR, Some r) (removed a A r R s)) →
  wp (vmm_remove_region_locked ans a vaddr) Q s.
Proof.
  intros HA [? ? ?] Hl HQn HQ. destruct (find_region_spec _ _ _ _ vaddr Hl) as (o & Ho & Hspec); [done|done|].
  apply wp_bind, wp_bind. eapply wp_deref; [done|]. eapply wp_deref; [exact Ho|]. destruct o as [r|].
  - destruct Hspec as (R & Hr & HR & Hc). apply wp_bind. eapply wp_deref; [done|]. apply wp_bind. eapply wp_upd_aspace; [done|].
    apply wp_bind, wp_arch_mmu, wp_ret. by apply HQ.
  - by apply wp_ret, HQn.
Qed.

Lemma list_without_middle (x : positive) l1 l2 : NoDup (l1 ++ x :: l2) → list_without x (l1 ++ x :: l2) = l1 ++ l2.
Proof.
  intros (_ & Hd & [Hn _]%NoDup_cons)%NoDup_app. rw /list_without filter_app filter_cons_False; [|by intros []].
  fold (list_without x l1) (list_without x l2). rw !list_without_id //. intros Hx. apply (Hd x Hx), elem_of_cons. auto.
Qed.

Lemma removed_regs A r s : regs_ok (regions s) (as_base A) (as_base A + as_size A) (region_list A) → r ∈ region_list A →
  regs_ok (delete r (regions s)) (as_base A) (as_base A + as_size A) (list_without r (region_list A)).
Proof.
  intros Hl (l1 & l2 & El)%list_elem_of_split. pose proof (regs_ok_nodup _ _ _ _ Hl) as Hnd. rw El in Hnd Hl |- *.
  rw list_without_middle //. apply NoDup_app in Hnd as (_ & Hd & [Hn _]%NoDup_cons).
  eapply regs_ok_ext; [|by eapply regs_ok_remove]. intros x Hx. rw lookup_delete_ne //. intros ->.
  apply elem_of_app in Hx as [Hx|Hx]; [|done]. apply (Hd x Hx), elem_of_cons. auto.
Qed.

(** [vmm_free_region] removes the region that contains the address, and
    nothing else: it is unlinked and unmapped, all its pages become free, and its
    structures are gone; an address in no region gives [ERR_NOT_FOUND] and
    changes nothing. *)
Theorem vmm_free_region_spec s a A vaddr :
  vmm_inv s → aspaces s !! a = Some A →
  wp (vmm_free_region ans a vaddr) (λ err s', vmm_inv s' ∧
    ((err = ERR_NOT_FOUND ∧ s' = s ∧ ∀ r R, r ∈ region_list A → regions s !! r = Some R → ¬ contains R vaddr) ∨
     (err = NO_ERROR ∧ ∃ r R q, r ∈ region_list A ∧ regions s !! r = Some R ∧ contains R vaddr ∧
        page_lists (vpmm s) !! r = Some q ∧ regions s' = delete r (regions s) ∧
        aspaces s' = <[a := set_region_list (list_without r (region_list A)) A]> (aspaces s) ∧
        (∀ p, free (vpmm s') p ↔ free (vpmm s) p ∨ p ∈ q) ∧
        page_lists (vpmm s') = delete r (page_lists (vpmm s)) ∧
        mmu_calls s' = mmu_calls s ++ [MmuUnmap a (rg_base R) (u32 (rg_size R / PAGE_SIZE))]))) s.
Proof.
  intros I HA. pose proof (vi_regs _ I _ _ HA) as Hl. apply wp_bind.
  eapply wp_remove_region; [done|by apply (vi_space _ I _ _ HA)|done| |].
  { intros Hno. apply wp_ret. split; [done|]. left. split_and!; done. }
  intros r R Hr HR Hc. destruct (proj2 (vi_lists _ I r) ltac:(by exists R)) as [q Hq]. simpl. apply wp_bind, wp_on_pmm.
  eapply wp_bind, wp_deref; [exact Hq|]. eapply wp_pmm_free_loop; [by apply I|done|lia|]. intros p' Ip Epl _ Hfree.
  apply wp_bind, wp_bind, wp_on_pmm, wp_modify, wp_modify, wp_ret. simpl. split.
  - split; simpl.
    + by apply drop_list_inv.
    + intros b B [[<- <-]|[_ HB]]%lookup_insert_Some; [|by apply (vi_space _ I b)].
      destruct (vi_space _ I _ _ HA). by split.
    + intros b B [[<- <-]|[Hne HB]]%lookup_insert_Some; simpl; [by apply removed_regs|].
      eapply regs_ok_ext; [|by apply (vi_regs _ I _ _ HB)]. intros x Hx. rw lookup_delete_ne //. intros ->.
      apply Hne. by eapply (vi_owner _ I a b).
    + assert (∀ b B x, <[a := set_region_list (list_without r (region_list A)) A]> (aspaces s) !! b = Some B → x ∈ region_list B →
        ∃ B0, aspaces s !! b = Some B0 ∧ x ∈ region_list B0) as Hold.
      { intros b B x [[<- <-]|[_ HB]]%lookup_insert_Some; [simpl; intros [_ ?]%list_without_elem; by exists A|by exists B]. }
      intros b c B C x HB HC Hx Hx'. destruct (Hold _ _ _ HB Hx) as (? & ? & ?), (Hold _ _ _ HC Hx') as (? & ? & ?).
      by eapply (vi_owner _ I b c).
    + intros x [X [Hne HX]%lookup_delete_Some]. destruct (vi_owned _ I x) as (b & B & HB & Hx); [by exists X|].
      destruct (decide (b = a)) as [->|].
      * simplify_eq. eexists a, _. rw lookup_insert_eq. split; [done|]. by apply list_without_elem.
      * exists b, B. by rw lookup_insert_ne.
    + intros l. rw Epl delete_insert_eq. destruct (decide (l = r)) as [->|]; [by rw !lookup_delete_eq|].
      rw !lookup_delete_ne //. apply (vi_lists _ I).
  - right. split; [done|]. exists r, R, q. split_and!; try done. by rw Epl delete_insert_eq.
Qed.
End remove.
