(* ===== verification/VmmAllocSpec.v ===== *)
(** * [vmm_alloc]: all or nothing

    [vmm_alloc] takes pages from the page allocator, places a region and maps the
    pages one by one.  Whichever of these fails, the regions, the page lists and
    the free pages are what they were. *)

From S2P Require Import Prelude Bits Pmm PmmInv PmmSpec PmmRange Vmm VmmSpec VmmAlloc.

Lemma wp_alloc_region_inv s mem a A name size vaddr align_pow2 vmm_flags region_flags amf :
  vmm_inv s → aspaces s !! a = Some A → (∀ r, mem = Some r → fresh s r) →
  0 < size < 2 ^ 64 → (PAGE_SIZE | size) → 0 ≤ align_pow2 ≤ 63 → 0 ≤ vaddr →
  wp (alloc_region mem a name size vaddr align_pow2 vmm_flags region_flags amf) (λ mr s',
    let sp := specific_flag vmm_flags in let al := Z.max 12 align_pow2 in vmm_inv s' ∧
    match mr with
    | None => s' = s ∧ no_place s A mem sp size vaddr al
    | Some r => mem = Some r ∧ ∃ va l1 l2, good_place s A sp size vaddr al va l1 l2 ∧
        s' = placed a A r (VmmRegion (String.substring 0 31 name) region_flags amf va size) l1 l2 s
    end) s.
Proof.
  intros I HA Hfr Hsz Hd Hal Hv. apply (wp_alloc_region s mem a A); try done; [by apply (vi_space _ I a)|by apply (vi_regs _ I a)|].
  intros r va l1 l2 Hm Hg. split; [|split; [done|by exists va, l1, l2]]. destruct (Hfr r Hm) as [Hr Hl].
  eapply (placed_inv s a A r (VmmRegion _ _ _ va size) l1 l2 _ _ _ _ (with_list r [] (vpmm s)) (mmu_calls s)); [done|done|done|done|done|lia| |].
  - apply with_list_inv; [apply I|done].
  - intros l. rw /= lookup_insert_is_Some. destruct (decide (r = l)); naive_solver.
Qed.

(** [alloc_region] places a region and keeps the regions of the address space
    disjoint and in order: at the address asked for exactly when that range is
    free, otherwise at the lowest aligned free range; when it fails nothing has
    changed, and then there was no structure or no such range. *)
Theorem alloc_region_spec s mem a A name size vaddr align_pow2 vmm_flags region_flags amf :
  vmm_inv s → aspaces s !! a = Some A → (∀ r, mem = Some r → fresh s r) →
  0 < size < 2 ^ 64 → (PAGE_SIZE | size) → 0 ≤ align_pow2 ≤ 63 → 0 ≤ vaddr →
  wp (alloc_region mem a name size vaddr align_pow2 vmm_flags region_flags amf) (λ mr s',
    let sp := specific_flag vmm_flags in let al := Z.max 12 align_pow2 in vmm_inv s' ∧
    match mr with
    | None => s' = s ∧ no_place s A mem sp size vaddr al
    | Some r => mem = Some r ∧ ∃ va l1 l2, good_place s A sp size vaddr al va l1 l2 ∧
        s' = placed a A r (VmmRegion (String.substring 0 31 name) region_flags amf va size) l1 l2 s
    end) s.
Proof. apply wp_alloc_region_inv. Qed.

(** ** Getting back to the start *)

(** The page allocator of [s] with the pages [ps] taken from it. *)
Record holding (s : vmm) (ps : list page_ptr) (p : pmm) : Prop := {
  ho_inv : pmm_inv p;
  ho_free x : free p x ↔ free (vpmm s) x ∧ x ∉ ps;
  ho_taken x : x ∈ ps → free (vpmm s) x
}.

Definition restored (s s' : vmm) : Prop :=
  vmm_inv s' ∧ aspaces s' = aspaces s ∧ regions s' = regions s ∧ aspace_list s' = aspace_list s ∧
  page_lists (vpmm s') = page_lists (vpmm s) ∧ ∀ x, free (vpmm s') x ↔ free (vpmm s) x.

(** The invariant looks at the regions, the spaces and the page lists. *)
Lemma vmm_inv_frame s s' :
  vmm_inv s → aspaces s' = aspaces s → regions s' = regions s → pmm_inv (vpmm s') →
  (∀ l, is_Some (page_lists (vpmm s') !! l) ↔ is_Some (page_lists (vpmm s) !! l)) → vmm_inv s'.
Proof.
  intros [] Ea Er Ip Hl. split; rw ?Ea ?Er; try done. intros l. by rw Hl.
Qed.

Lemma restored_intro s s' p' calls :
  vmm_inv s → s' = set_mmu_calls calls (set_vpmm p' s) → pmm_inv p' → page_lists p' = page_lists (vpmm s) →
  (∀ x, free p' x ↔ free (vpmm s) x) → restored s s'.
Proof.
  intros I -> Ip Epl Hf. split_and!; simpl; try done. apply (vmm_inv_frame s); try done. intros l. simpl. by rw Epl.
Qed.

(** The pages on [tmp] are freed and the list dropped. *)
Lemma wp_give_up {B} s t tmp ps (k : V B) (Q : B → vmm → Prop) :
  holding s ps (vpmm t) → page_lists (vpmm t) = <[tmp := ps]> (page_lists (vpmm s)) → page_lists (vpmm s) !! tmp = None →
  (∀ p', pmm_inv p' → page_lists p' = page_lists (vpmm s) → (∀ x, free p' x ↔ free (vpmm s) x) →
    wp k Q (set_vpmm p' t)) →
  wp (on_pmm (pmm_free tmp);; drop_page_list tmp;; k) Q t.
Proof.
  intros [Ip Hf Ht] Epl Hn HQ. apply wp_bind, wp_on_pmm.
  eapply wp_mono; [apply (wp_pmm_free _ tmp ps Ip); by rw Epl lookup_insert_eq|].
  intros n p' (_ & Epl' & Hf' & Ip'). apply wp_bind, wp_on_pmm, wp_modify. apply HQ.
  - by apply drop_list_inv.
  - rw /= Epl' Epl insert_insert_eq delete_insert_id //.
  - intros x. assert (free (set_page_lists (delete tmp (page_lists p')) p') x ↔ free p' x) as -> by done.
    rw Hf' Hf. split; [|destruct (decide (x ∈ ps)); tauto]. intros [[? _]|?]; [done|by apply Ht].
Qed.

(** The region is unlinked again. *)
Lemma wp_remove_failed ans s t a A r R l1 l2 (Q : unit → vmm → Prop) :
  aspaces s !! a = Some A → region_list A = l1 ++ l2 → space_ok A →
  aspaces t = <[a := set_region_list (l1 ++ r :: l2) A]> (aspaces s) → regions t !! r = Some R →
  regs_ok (regions t) (as_base A) (as_base A + as_size A) (l1 ++ r :: l2) →
  (∀ calls, Q () (set_mmu_calls calls (set_aspaces (aspaces s) t))) →
  wp (remove_failed ans a r) Q t.
Proof.
  intros HA El [? ? ?] Ea HR Hl HQ. apply wp_bind. eapply wp_deref; [done|]. apply wp_bind.
  assert (r ∈ l1 ++ r :: l2) as Hin by (rw elem_of_app elem_of_cons; auto).
  assert (contains R (rg_base R)) as Hc.
  { destruct (regs_ok_in _ _ _ _ _ Hl Hin) as (R' & ? & _ & ? & _). simplify_eq. split; lia. }
  eapply (wp_remove_region ans t a (set_region_list (l1 ++ r :: l2) A)); [by rw Ea lookup_insert_eq|by split|done| |].
  - intros Hno. by destruct (Hno r R Hin HR).
  - intros r' R' Hin' HR' Hc'. assert (r' = r) as -> by by eapply regs_ok_unique.
    apply wp_bind, wp_assert; [done|]. apply wp_assert; [by rw bool_decide_true|].
    assert (<[a := set_region_list (list_without r (l1 ++ r :: l2)) (set_region_list (l1 ++ r :: l2) A)]> (aspaces t) = aspaces s) as E.
    { rw Ea insert_insert_eq list_without_middle; [|by eapply regs_ok_nodup]. rw insert_id // -El. by destruct A. }
    rw /removed. simpl region_list. rw E. apply HQ.
Qed.

Lemma two_lists_id r tmp q1 q2 p :
  page_lists p !! r = Some q1 → page_lists p !! tmp = Some q2 → two_lists r tmp q1 q2 p = p.
Proof. intros H1 H2. rw /two_lists insert_id; [by rw insert_id //; destruct p|by rw insert_id]. Qed.

Lemma takes_page_addr ps l p x : free p x → page_addr (st_takes ps l p) x = page_addr p x.
Proof.
  intros (pg & (A & HA & _)%page_at_some & _). destruct (takes_arena ps l p x.1 A HA) as (B & HB & (Eb & _) & _).
  by rw /page_addr HA HB /= Eb.
Qed.

Lemma map_calls_ext p p' a va fl ps : (∀ x, x ∈ ps → page_addr p' x = page_addr p x) → map_calls p' a va fl ps = map_calls p a va fl ps.
Proof.
  revert va. induction ps as [|x ps IH]; intros va He; [done|]. simpl. rw He; [|apply elem_of_cons; auto]. f_equal.
  apply IH. intros y Hy. apply He, elem_of_cons. auto.
Qed.

(** Pages split over the two lists of a failed mapping are all freed. *)
Lemma wp_free_both {B} s t r tmp ps k k' p (c : V B) (Q : B → vmm → Prop) :
  holding s ps p → page_lists p = <[r := []]> (<[tmp := ps]> (page_lists (vpmm s))) → fresh s r → page_lists (vpmm s) !! tmp = None → r ≠ tmp →
  k ++ k' ≡ₚ ps → vpmm t = two_lists r tmp k k' p → regions t = <[r := default (VmmRegion ""%string 0 0 0 0) (regions t !! r)]> (regions s) →
  (∀ p', pmm_inv p' → page_lists p' = page_lists (vpmm s) → (∀ x, free p' x ↔ free (vpmm s) x) →
    wp c Q (set_regions (regions s) (set_vpmm p' t))) →
  wp (on_pmm (pmm_free r);; on_pmm (pmm_free tmp);; drop_page_list tmp;; free_region_struct r;; c) Q t.
Proof.
  intros [Ip Hf Ht] Epl [Hr Hrl] Htl Hne HP Et Er HQ.
  assert (pmm_inv (two_lists r tmp k k' p)) as I2.
  { eapply two_lists_inv; [done|done|by rw Epl lookup_insert_eq|by rw Epl lookup_insert_ne // lookup_insert_eq|done]. }
  apply wp_bind, wp_on_pmm. rw Et. eapply wp_mono; [apply (wp_pmm_free _ r k I2), two_lists_lookup_r|].
  intros n1 p1 (_ & El1 & Hf1 & I1). apply wp_bind, wp_on_pmm. simpl.
  eapply wp_mono; [apply (wp_pmm_free _ tmp k' I1); rw El1 lookup_insert_ne //; by apply two_lists_lookup_tmp|].
  intros n2 p2 (_ & El2 & Hf2 & Ip2). apply wp_bind, wp_on_pmm, wp_modify. simpl.
  apply wp_bind, wp_bind, wp_on_pmm, wp_modify, wp_modify. simpl.
  set (p' := set_page_lists _ _). assert (delete r (regions t) = regions s) as Edr by (rw Er delete_insert_id //). rw Edr.
  apply (HQ p').
  - apply drop_list_inv, drop_list_inv. done.
  - rw /p' /= El2 El1 /= Epl. apply map_eq. intros l.
    destruct (decide (l = r)) as [->|]; [by rw lookup_delete_eq|]. rw lookup_delete_ne //.
    destruct (decide (l = tmp)) as [->|]; [by rw lookup_delete_eq|]. by rw lookup_delete_ne // !lookup_insert_ne.
  - intros x. assert (free p' x ↔ free p2 x) as -> by done. rw Hf2 Hf1.
    assert (free (two_lists r tmp k k' p) x ↔ free p x) as -> by done. rw Hf.
    assert (x ∈ ps ↔ x ∈ k ∨ x ∈ k') as Hx by (rw -HP; apply elem_of_app).
    split; [|destruct (decide (x ∈ ps)); tauto]. intros [[[? _]|?]|?]; [done|apply Ht; tauto..].
Qed.

(** What [vmm_alloc] leaves behind when it succeeds. *)
Record allocated (s s' : vmm) (mem : option positive) (a : positive) (A : vmm_aspace) (n vaddr al fl : Z) (sp : bool)
    (va : Z) : Prop := {
  al_inv : vmm_inv s';
  al_region : ∃ r name l1 l2 ps, mem = Some r ∧ good_place s A sp n vaddr al va l1 l2 ∧
    aspaces s' = <[a := set_region_list (l1 ++ r :: l2) A]> (aspaces s) ∧
    regions s' = <[r := VmmRegion name VMM_REGION_FLAG_PHYSICAL fl va n]> (regions s) ∧
    page_lists (vpmm s') = <[r := ps]> (page_lists (vpmm s)) ∧
    NoDup ps ∧ Z.of_nat (length ps) * PAGE_SIZE = n ∧ (∀ x, x ∈ ps → free (vpmm s) x) ∧
    (∀ x, free (vpmm s') x ↔ free (vpmm s) x ∧ x ∉ ps) ∧
    mmu_calls s' = mmu_calls s ++ map_calls (vpmm s) a va fl ps
}.

Section alloc.
Context (ans : list mmu_call → mmu_call → Z).

(** From the placed region on: the pages [ps] are on [tmp]. *)
Lemma wp_map_region s t a A r name va n l1 l2 tmp ps sp vaddr al fl ptr (Q : Z * option Z → vmm → Prop) :
  vmm_inv s → aspaces s !! a = Some A → fresh s r → page_lists (vpmm s) !! tmp = None → r ≠ tmp →
  good_place s A sp n vaddr al va l1 l2 → 0 < n → (PAGE_SIZE | va) → NoDup ps → Z.of_nat (length ps) * PAGE_SIZE = n →
  (∀ x, x ∈ ps → free (vpmm s) x) →
  let p := with_list r [] (st_takes ps (Some tmp) (with_list tmp [] (vpmm s))) in
  let R := VmmRegion name VMM_REGION_FLAG_PHYSICAL fl va n in
  t = placed a A r R l1 l2 (set_vpmm (st_takes ps (Some tmp) (with_list tmp [] (vpmm s))) s) →
  (∀ s' err, restored s s' → err < 0 → Q (err, ptr) s') →
  (∀ s', allocated s s' (Some r) a A n vaddr al fl sp va → Q (NO_ERROR, out_ptr R ptr) s') →
  wp (R ← get_region r;
      assert (IS_PAGE_ALIGNED (rg_base R));;
      err ← map_pages ans (S (Z.to_nat (Z.of_nat (length ps)))) a r tmp (rg_base R) (last_byte (rg_base R) (rg_size R)) fl;
      if err <? NO_ERROR then
        remove_failed ans a r;;
        on_pmm (pmm_free r);; on_pmm (pmm_free tmp);; drop_page_list tmp;;
        free_region_struct r;; mret (err, ptr)
      else drop_page_list tmp;; mret (NO_ERROR, out_ptr R ptr)) Q t.
Proof.
  intros I HA Hfr Htmp Hne Hg Hn Hdva Hnd Hlen Hfree p R -> HQe HQ. pose proof (vi_space _ I _ _ HA) as Hsp. pose proof Hsp as [? ? ?].
  pose proof Hg as [El (Hf1 & Hf2 & _) _ Hbef Haft].
  assert (pmm_inv (with_list tmp [] (vpmm s))) as It by (apply with_list_inv; [apply I|done]).
  assert (pmm_inv (st_takes ps (Some tmp) (with_list tmp [] (vpmm s)))) as Ip0 by by apply takes_inv.
  assert (page_lists (st_takes ps (Some tmp) (with_list tmp [] (vpmm s))) = <[tmp := ps]> (page_lists (vpmm s))) as Epl0.
  { rw (takes_list _ _ _ []) /=; [by rw insert_insert_eq|by rw lookup_insert_eq]. }
  assert (pmm_inv p) as Ip by (apply with_list_inv; [done|rw Epl0 lookup_insert_ne //; apply Hfr]).
  assert (page_lists p = <[r := []]> (<[tmp := ps]> (page_lists (vpmm s)))) as Epl by rw /p /= Epl0 //.
  assert (holding s ps p) as Hho.
  { split; [done| |done]. intros x. assert (free p x ↔ free (st_takes ps (Some tmp) (with_list tmp [] (vpmm s))) x) as -> by done.
    by rw takes_free. }
  assert (page_lists p !! r = Some []) as Hpr by rw Epl lookup_insert_eq //.
  assert (page_lists p !! tmp = Some ps) as Hpt by rw Epl lookup_insert_ne // lookup_insert_eq //.
  apply wp_bind. eapply wp_deref; [by apply lookup_insert_eq|]. apply wp_bind, wp_assert; [by apply page_aligned_spec|].
  simpl rg_base. simpl rg_size. rw last_byte_small; [|lia|lia|lia]. apply wp_bind.
  apply (wp_map_pages ans _ _ a r tmp va (va + n - 1) fl p ps [] ps); [done|done|done|done|done|by rw two_lists_id|lia|lia|lia|lia| |].
  - simpl. apply wp_bind, wp_on_pmm, wp_modify, wp_ret. apply HQ.
    set (p' := set_page_lists _ _). assert (page_lists p' = <[r := ps]> (page_lists (vpmm s))) as Epl'.
    { assert (page_lists p' = delete tmp (<[r := ps]> (<[tmp := []]> (page_lists p)))) as -> by done. rw Epl.
      apply map_eq. intros l. destruct (decide (l = tmp)) as [->|].
      - by rw lookup_delete_eq lookup_insert_ne.
      - rw lookup_delete_ne //. destruct (decide (l = r)) as [->|]; [by rw !lookup_insert_eq|]. by rw !lookup_insert_ne. }
    assert (pmm_inv p') as Ip'.
    { apply drop_list_inv. by apply (two_lists_inv p r tmp ps ps []); [..|rw app_nil_r]. }
    assert (∀ x, free p' x ↔ free (vpmm s) x ∧ x ∉ ps) as Hfp' by (intros x; apply (ho_free _ _ _ Hho)).
    split.
    + eapply (placed_inv s a A r R l1 l2 sp n vaddr al p'); [done..|]. intros l. rw Epl' lookup_insert_is_Some.
      destruct (decide (r = l)); naive_solver.
    + exists r, name, l1, l2, ps. split_and!; try done. simpl. f_equal. apply map_calls_ext. intros x Hx.
      apply (takes_page_addr ps (Some tmp) (with_list tmp [] (vpmm s)) x). by apply Hfree.
  - intros err k k' cs He HP. rw (proj2 (Z.ltb_lt err NO_ERROR) He). apply wp_bind.
    eapply (wp_remove_failed ans s _ a A r R l1 l2); [done|done|done|done|by apply lookup_insert_eq| |].
    { pose proof (regs_ok_not_fresh _ _ _ _ _ (vi_regs _ I _ _ HA) (proj1 Hfr)) as Hnin. simpl.
      apply (regs_ok_insert _ _ _ _ _ _ R); [|by rw lookup_insert_eq|done|done|done| |].
      - rw -El. eapply regs_ok_ext; [|by apply (vi_regs _ I _ _ HA)]. intros x Hx. rw lookup_insert_ne //. by intros ->.
      - intros x X Hx. rw lookup_insert_ne; [by apply Hbef|]. intros ->. apply Hnin. rw El elem_of_app. auto.
      - intros x X Hx. rw lookup_insert_ne; [by apply Haft|]. intros ->. apply Hnin. rw El elem_of_app. auto. }
    intros cs'. eapply (wp_free_both s _ r tmp ps k k' p); [done|done|done|done|done|done|done|by rw /= lookup_insert_eq|].
    intros p' Ip' Epl' Hf'. apply wp_ret, HQe; [|done]. eapply (restored_intro s _ p' cs'); done.
Qed.
(** The arguments a caller of [vmm_alloc] must provide: fresh structures, a size of
    less than 8 TiB, and a page-aligned address if it asks for one. *)
Record alloc_args (s : vmm) (mem : option positive) (tmp : positive) (size : Z) (ptr : option Z) (align_pow2 : Z) : Prop := {
  ag_mem r : mem = Some r → fresh s r ∧ r ≠ tmp;
  ag_tmp : page_lists (vpmm s) !! tmp = None;
  ag_size : 0 ≤ size < 2 ^ 43;
  ag_ptr v : ptr = Some v → 0 ≤ v ∧ (PAGE_SIZE | v);
  ag_align : 0 ≤ align_pow2 ≤ 63
}.

(** C26: [vmm_alloc] is all or nothing.  On success the region is placed (at the
    address asked for, or at the lowest aligned spot), the pages on its list were
    free and are as many as it is long, exactly they have been taken, each has
    been mapped once at its place, and the address is returned.  On any failure -
    no pages, no structure, no spot, a mapping that fails half way - the regions,
    the page lists and the set of free pages are what they were. *)
Theorem vmm_alloc_all_or_nothing s mem tmp a A name size ptr align_pow2 vmm_flags fl :
  vmm_inv s → aspaces s !! a = Some A → alloc_args s mem tmp size ptr align_pow2 →
  wp (vmm_alloc ans mem tmp a name size ptr align_pow2 vmm_flags fl) (λ '(err, ptr') s',
    let n := ROUNDUP size PAGE_SIZE in
    (err < 0 ∧ ptr' = ptr ∧ restored s s') ∨
    (err = NO_ERROR ∧ ∃ va, ptr' = ((λ _, va) <$> ptr) ∧
      allocated s s' mem a A n (default 0 ptr) (Z.max 12 align_pow2) fl (specific_flag vmm_flags) va)) s.
Proof.
  intros I HA [Hmem Htmp Hsize Hptr Hal]. set (n := ROUNDUP size PAGE_SIZE).
  destruct (roundup_spec size 12) as ([m Hm] & Hn1 & Hn2); [lia|lia|change (2 ^ 12) with 4096; lia|].
  fold PAGE_SIZE n in Hm, Hn1, Hn2. change (2 ^ 12) with 4096 in Hm, Hn1, Hn2. fold PAGE_SIZE in Hm, Hn1, Hn2. fold n in Hm, Hn1, Hn2.
  assert (restored s s) as Hrs by (split_and!; done).
  rw /vmm_alloc. fold n. cbv zeta. apply wp_if; intros Hz; to_prop; [apply wp_ret; left; split_and!; done|].
  assert (∃ vaddr, specific_vaddr vmm_flags ptr = Some vaddr ∧ 0 ≤ vaddr ∧ (PAGE_SIZE | vaddr) ∧
    (specific_flag vmm_flags = true → vaddr = default 0 ptr) ∨ specific_vaddr vmm_flags ptr = None) as [vaddr [(Esp & Hv0 & Hvd & Hvp)|Esp]].
  { rw /specific_vaddr -/(specific_flag vmm_flags). destruct (specific_flag vmm_flags) eqn:E; [|exists 0; left; split_and!; [done|done|by exists 0|done]].
    destruct ptr as [v|]; [exists v; left; destruct (Hptr v eq_refl); split_and!; done|exists 0; by right]. }
  2: { rw Esp. apply wp_ret. left. split_and!; done. }
  rw Esp. assert (n / PAGE_SIZE = m) as Enm by (rw Hm; by apply Z.div_mul). rw /PAGE_SIZE in Hm, Hn2.
  rw Enm u32_small; [|lia]. apply wp_bind, wp_on_pmm, wp_modify, wp_bind, wp_on_pmm. simpl.
  assert (pmm_inv (with_list tmp [] (vpmm s))) as It by (apply with_list_inv; [apply I|done]).
  eapply wp_mono; [apply (wp_pmm_alloc_pages (with_list tmp [] (vpmm s)) m tmp []); [done|by apply lookup_insert_eq|lia]|].
  intros count p2 (ps & Eps & Hnd & -> & Epl & Hfr & Ip2 & Ep2). set (s2 := set_vpmm p2 _).
  assert (length ps ≤ Z.to_nat m)%nat as Hlen by (rw Eps; rw length_take; lia).
  apply wp_bind, wp_assert; [apply Z.leb_le; lia|].
  assert (page_lists p2 = <[tmp := ps]> (page_lists (vpmm s))) as Epl2 by rw Epl /= insert_insert_eq //.
  assert (∀ x, x ∈ ps → free (vpmm s) x) as Hps.
  { intros x Hx. rw Eps in Hx. apply elem_of_take_list in Hx. by apply (free_order_elem (with_list tmp [] (vpmm s)) (arena_list (vpmm s))) in Hx as [_ ?]. }
  assert (holding s ps p2) as Hho by (split; [done|intros x; by rw Hfr|done]).
  assert (∀ k err, err < 0 → s2 = s2 → wp (on_pmm (pmm_free tmp);; drop_page_list tmp;; mret (err, ptr)) (λ '(err, ptr') s',
    (err < 0 ∧ ptr' = ptr ∧ restored s s') ∨ k err ptr' s') s2) as Hgive.
  { intros k err He _. eapply (wp_give_up s s2 tmp ps); [done|done|done|]. intros p' Ip' Epl' Hf'. apply wp_ret. left.
    split_and!; [done|done|]. eapply (restored_intro s _ p' (mmu_calls s)); [done|by destruct s|done..]. }
  apply wp_if; intros Hc; to_prop; [by apply (Hgive _ ERR_NO_MEMORY)|].
  assert (Z.of_nat (length ps) = m) as Hlm by lia.
  apply wp_bind. apply (wp_alloc_region s2 mem a A); [done|by apply (vi_space _ I a)|by apply (vi_regs _ I a)| |lia|by exists m|done|done| |].
  - intros r Hr. destruct (Hmem r Hr) as [[? ?] ?]. split; [done|]. by rw /= Epl2 lookup_insert_ne.
  - intros _. by apply (Hgive _ ERR_NO_MEMORY).
  - intros r va l1 l2 Hr Hg. destruct (Hmem r Hr) as [Hfresh Hne].
    assert (good_place s A (specific_flag vmm_flags) n (default 0 ptr) (Z.max 12 align_pow2) va l1 l2) as Hg'.
    { destruct Hg as [? ? Hgv ? ?]. split; try done. destruct (specific_flag vmm_flags); [|done]. rw Hgv. by apply Hvp. }
    assert ((PAGE_SIZE | va)) as Hva.
    { destruct Hg as [_ _ Hgv _ _]. destruct (specific_flag vmm_flags) eqn:E; [by subst va|]. destruct Hgv as [Hgv _].
      eapply Z.divide_trans; [|exact Hgv]. apply (Z.divide_trans _ (2 ^ 12)); [by exists 1|].
      exists (2 ^ (Z.max 12 align_pow2 - 12)). rw -Z.pow_add_r; [f_equal; lia|lia|lia]. }
    subst mem. rw -Hlm in Hm, Hlen |- *.
    eapply (wp_map_region s _ a A r _ va n l1 l2 tmp ps); [done|done|done|done|done|exact Hg'|lia|done|done|rw /PAGE_SIZE; lia|done| | |].
    + rw /s2 Ep2 //.
    + intros s' err Hr' He. left. split_and!; done.
    + intros s' Has. right. split; [done|]. exists va. split; [done|exact Has].
Qed.
End alloc.

(** ** Concrete instances *)

(** A kernel address space that reaches the end of the address range, over the
    pages of two arenas, and the same with a region. *)
Definition top_space : vmm_aspace := VmmAspace "kernel" VMM_ASPACE_FLAG_KERNEL 0xffffff8000000000 0x8000000000 [].

Definition vmm_start : vmm := Vmm [1%positive] {[ 1%positive := top_space ]} ∅ (set_page_lists ∅ two_arenas) [] None.

Definition place_one : V (option positive) := alloc_region (Some 10%positive) 1 "x" 0x2000 0 0 0 VMM_REGION_FLAG_PHYSICAL 0.

Definition vmm_one : vmm := match place_one vmm_start with Some (_, s) => s | None => vmm_start end.

Definition always_ok (_ : list mmu_call) (_ : mmu_call) : Z := 0.

Lemma top_space_ok : space_ok top_space.
Proof. split; simpl; lia. Qed.

Lemma vmm_start_inv : vmm_inv vmm_start.
Proof.
  split; simpl.
  - apply relist_inv; [apply two_arenas_inv| |]; by intros ? ?; rw lookup_empty.
  - intros a A [_ <-]%lookup_singleton_Some. apply top_space_ok.
  - intros a A [_ <-]%lookup_singleton_Some. done.
  - intros a b A B r [<- <-]%lookup_singleton_Some [<- <-]%lookup_singleton_Some. done.
  - intros r [? Hr]. by rw lookup_empty in Hr.
  - intros l. by rw !lookup_empty.
Qed.

Lemma vmm_one_inv : vmm_inv vmm_one.
Proof.
  assert (wp place_one (λ _ s, vmm_inv s) vmm_start) as W.
  { eapply wp_mono; [apply (wp_alloc_region_inv vmm_start (Some 10%positive) 1 top_space); [apply vmm_start_inv|done|done|lia|by exists 2|lia|done]|].
    by intros mr s' [? _]. }
  rw /vmm_one. rw /wp in W. by destruct (place_one vmm_start) as [[r s]|].
Qed.

Lemma alloc_spot_first_fit_witness :
  wp (alloc_spot 1 0x3000 14 0) (λ r s', s' = vmm_one) vmm_one.
Proof.
  eapply wp_mono; [apply (alloc_spot_first_fit vmm_one 1 (set_region_list [10%positive] top_space) 0x3000 14 0); [by vm_compute| | |lia|by exists 3|lia]|].
  - apply (vi_space _ vmm_one_inv 1). by vm_compute.
  - apply (vi_regs _ vmm_one_inv 1). by vm_compute.
  - by intros [spot b] s' [? _].
Defined.

Lemma alloc_region_spec_witness : wp place_one (λ mr s', vmm_inv s') vmm_start.
Proof.
  eapply wp_mono; [apply (alloc_region_spec vmm_start (Some 10%positive) 1 top_space "x" 0x2000 0 0 0 VMM_REGION_FLAG_PHYSICAL 0);
    [apply vmm_start_inv|done|done|lia|by exists 2|lia|done]|].
  by intros mr s' [? _].
Defined.

Lemma vmm_free_region_spec_witness :
  wp (vmm_free_region always_ok 1 0xffffff8000000010) (λ err s', vmm_inv s') vmm_one.
Proof.
  eapply wp_mono; [apply (vmm_free_region_spec always_ok vmm_one 1 (set_region_list [10%positive] top_space) 0xffffff8000000010 vmm_one_inv); by vm_compute|].
  by intros err s' [? _].
Defined.

Lemma vmm_alloc_all_or_nothing_witness :
  wp (vmm_alloc always_ok (Some 11%positive) 12 1 None 0x2800 (Some 0) 0 0 3) (λ r s', vmm_inv s') vmm_one.
Proof.
  eapply wp_mono; [apply (vmm_alloc_all_or_nothing always_ok vmm_one (Some 11%positive) 12 1 (set_region_list [10%positive] top_space) None 0x2800 (Some 0) 0 0 3 vmm_one_inv);
    [by vm_compute|]|].
  - split; [|by vm_compute|lia| |lia].
    + intros r [= <-]. split; [split; by vm_compute|done].
    + intros v [= <-]. split; [done|by exists 0].
  - intros [err ptr'] s' [(_ & _ & ? & _)|(_ & va & _ & [? _])]; done.
Defined.

(** ** Requests of more pages than an [uint] counts *)

(** The count of pages is cut to 32 bits on its way to the page allocator: a
    request of [2^32 + 1] pages gets one page, and the check that a partial run is
    never returned fails, where the request should be refused. *)
Lemma vmm_alloc_contiguous_truncates :
  vmm_alloc_contiguous always_ok (Some 11%positive) 12 1 None ((2 ^ 32 + 1) * PAGE_SIZE) None 0 0 0 vmm_start = None ∧
  pmm_alloc_contiguous (u32 (2 ^ 32 + 1)) 0 (Some 12%positive) (with_list 12 [] (vpmm vmm_start)) ≠ None.
Proof. by vm_compute. Qed.
