(* ===== verification/Vm.v ===== *)
(** * Initial mappings and boot-time memory

    [src/mk/kernel/vm/vm.c] and [bootalloc.c], and the part of [pmm.c] that works
    on kernel addresses.  The table of initial mappings is given by the platform
    and the translation of an address by the architecture's MMU; both are
    parameters. *)

From S2P Require Import Prelude Bits Pmm PmmInv PmmSpec PmmRange Vmm.

(** ** [bootalloc.c] *)

(** [boot_alloc_end]: the result is the address and the new end. *)
Definition boot_alloc_mem (boot_alloc_end len : Z) : Z * Z :=
  let ptr := ALIGN boot_alloc_end 8 in (ptr, u64 (ptr + ALIGN len 8)).

(** ** Initial mappings *)

Definition MMU_INITIAL_MAPPING_TEMPORARY : Z := 1.

Record mmu_initial_mapping := InitialMapping {
  im_phys : Z;
  im_virt : Z;
  im_size : Z;
  im_flags : Z;
  im_name : string
}.

(** The table ends with an entry of size 0. *)
Fixpoint paddr_to_kvaddr (maps : list mmu_initial_mapping) (pa : Z) : option Z :=
  match maps with
  | [] => None
  | m :: maps' =>
      if im_size m =? 0 then None
      else if (Z.land (im_flags m) MMU_INITIAL_MAPPING_TEMPORARY =? 0) && (im_phys m <=? pa) &&
        (pa <=? u64 (im_phys m + im_size m - 1)) then Some (u64 (im_virt m + (pa - im_phys m)))
      else paddr_to_kvaddr maps' pa
  end.

Definition kvaddr_get_range (maps : list mmu_initial_mapping) : option (Z * Z) :=
  match maps with m :: _ => Some (im_virt m, im_size m) | [] => None end.

Section vm.
Context (maps : list mmu_initial_mapping).
Context (mmu_query : list mmu_call → positive → Z → option (Z * Z)).
Context (kernel_aspace : positive).
Context (KERNEL_ASPACE_BASE KERNEL_ASPACE_SIZE USER_ASPACE_BASE USER_ASPACE_SIZE : Z).

Definition is_kernel_address (va : Z) : bool :=
  (KERNEL_ASPACE_BASE <=? va) && (va <=? u64 (KERNEL_ASPACE_BASE + (KERNEL_ASPACE_SIZE - 1))).

Definition is_user_address (va : Z) : bool :=
  (USER_ASPACE_BASE <=? va) && (va <=? u64 (USER_ASPACE_BASE + (USER_ASPACE_SIZE - 1))).

Definition vaddr_to_aspace (ptr : Z) : V (option positive) :=
  if is_kernel_address ptr then mret (Some kernel_aspace)
  else if is_user_address ptr then gets cur_aspace
  else mret None.

Definition vaddr_to_paddr (ptr : Z) : V Z :=
  ma ← vaddr_to_aspace ptr;
  match ma with
  | None => mret 0
  | Some a => cs ← gets mmu_calls; mret (match mmu_query cs a ptr with Some (pa, _) => pa | None => 0 end)
  end.

(** ** Kernel pages, [pmm.c] *)

(** [list] is used for more than one page only; the list of [pmm_alloc_page] is at
    [tmp]. *)
Definition pmm_alloc_kpages (tmp : positive) (count : Z) (l : option positive) : V (option Z) :=
  if count =? 1 then
    mp ← on_pmm (pmm_alloc_page tmp);
    match mp with
    | None => mret None
    | Some p => pa ← on_pmm (vm_page_to_paddr p); mret (paddr_to_kvaddr maps pa)
    end
  else
    '(alloc_count, mpa) ← on_pmm (pmm_alloc_contiguous count PAGE_SIZE_SHIFT l);
    if alloc_count =? 0 then mret None
    else match mpa with Some pa => mret (paddr_to_kvaddr maps pa) | None => fail end.

Fixpoint kpages_to_list (n : nat) (tmp : positive) (ptr : Z) : V unit :=
  match n with
  | O => mret ()
  | S n' =>
      pa ← vaddr_to_paddr ptr;
      mp ← on_pmm (paddr_to_vm_page pa);
      match mp with Some p => on_pmm (add_tail tmp p) | None => mret () end;;
      kpages_to_list n' tmp (u64 (ptr + PAGE_SIZE))
  end.

Definition pmm_free_kpages (tmp : positive) (ptr count : Z) : V Z :=
  init_page_list tmp;;
  kpages_to_list (Z.to_nat count) tmp ptr;;
  n ← on_pmm (pmm_free tmp);
  drop_page_list tmp;;
  mret n.

(** ** Start-up *)

Fixpoint mark_loop (n : nat) (l : positive) (va : Z) : V unit :=
  match n with
  | O => mret ()
  | S n' =>
      cs ← gets mmu_calls;
      match mmu_query cs kernel_aspace va with
      | Some (pa, _) => on_pmm (pmm_alloc_range pa 1 l);; mark_loop n' l (u64 (va + PAGE_SIZE))
      | None => fail
      end
  end.

(** The list, on the stack, is at [l]; its pages are thrown away. *)
Definition mark_pages_in_use (l : positive) (va len : Z) : V unit :=
  init_page_list l;;
  let len := PAGE_ALIGN (u64 (len + Z.land va (PAGE_SIZE - 1))) in
  let va := ROUNDDOWN va PAGE_SIZE in
  mark_loop (Z.to_nat (len / PAGE_SIZE)) l va;;
  drop_page_list l.

Definition vm_init_preheap (l : positive) (kstart kend boot_alloc_start boot_alloc_end : Z) (ans : list mmu_call → mmu_call → Z) : V unit :=
  vmm_init_preheap ans KERNEL_ASPACE_BASE KERNEL_ASPACE_SIZE kernel_aspace;;
  mark_pages_in_use l kstart (u64 (kend - kstart));;
  when (negb (boot_alloc_end =? boot_alloc_start))
    (mark_pages_in_use l boot_alloc_start (u64 (boot_alloc_end - boot_alloc_start))).

(** [mems] are the structures [calloc] returns in turn. *)
Fixpoint reserve_mappings (ms : list mmu_initial_mapping) (mems : list (option positive)) : V unit :=
  match ms with
  | [] => mret ()
  | m :: ms' =>
      if im_size m =? 0 then mret ()
      else if Z.land (im_flags m) MMU_INITIAL_MAPPING_TEMPORARY =? 0 then
        vmm_reserve_space mmu_query (default None (head mems)) kernel_aspace (Some (im_name m)) (im_size m) (im_virt m);;
        reserve_mappings ms' (tail mems)
      else reserve_mappings ms' mems
  end.

Definition vm_init_postheap (mems : list (option positive)) : V unit := reserve_mappings maps mems.
End vm.

(** ** Boot-time memory *)

(** Successive calls of [boot_alloc_mem] return blocks that are aligned to 8
    bytes, do not overlap and lie between the old and the new end, and the end
    advances past the request, as long as the memory does not wrap. *)
Theorem boot_alloc_mem_spec e len :
  0 ≤ e → 0 ≤ len → e + len + 15 < 2 ^ 64 →
  let '(ptr, e') := boot_alloc_mem e len in
  (8 | ptr) ∧ e ≤ ptr ∧ ptr + len ≤ e' ∧ e' < e + len + 15 ∧ (8 | e').
Proof.
  intros He Hl Hb. rw /boot_alloc_mem /ALIGN.
  destruct (roundup_spec e 3) as (Hd & H1 & H2); [lia|done|lia|]. destruct (roundup_spec len 3) as (Hd' & H1' & H2'); [lia|done|lia|].
  change (2 ^ 3) with 8 in *. rw u64_small; [|lia]. split_and!; [done|lia|lia|lia|by apply Z.divide_add_r].
Qed.

Lemma boot_alloc_mem_spec_witness :
  let '(ptr, e') := boot_alloc_mem 0x1003 20 in (8 | ptr) ∧ 0x1003 ≤ ptr ∧ ptr + 20 ≤ e'.
Proof. pose proof (boot_alloc_mem_spec 0x1003 20 ltac:(lia) ltac:(lia) ltac:(lia)) as H. by destruct H as (? & ? & ? & _). Defined.

(** ** One kernel page *)

(** The eight pages at 1 MiB are mapped, the four of the other arena are not. *)
Definition one_mapping : list mmu_initial_mapping :=
  [InitialMapping 0x100000 0xffffff8000100000 0x8000 0 "ram"; InitialMapping 0 0 0 0 ""].

Definition unmapped_first : vmm := Vmm [] ∅ ∅ two_arenas [] None.

(** For a single page [pmm_alloc_kpages] takes any page, not one of an arena mapped
    for the kernel: it returns NULL although mapped pages are free, and the page
    it took stays allocated, on no list.  Two pages are found. *)
Lemma pmm_alloc_kpages_loses_page :
  (∃ s', pmm_alloc_kpages one_mapping 20 1 (Some 1%positive) unmapped_first = Some (None, s') ∧
     page_lists (vpmm s') !! 1%positive = Some [] ∧
     used (vpmm s') (2%positive, 0%nat) ∧ free (vpmm s') (1%positive, 0%nat)) ∧
  (∃ s', pmm_alloc_kpages one_mapping 20 2 (Some 1%positive) unmapped_first = Some (Some 0xffffff8000100000, s')).
Proof.
  split; eexists; [split_and!|]; [vm_compute; reflexivity|by vm_compute| | |vm_compute; reflexivity].
  - eexists. by split; [vm_compute; reflexivity|].
  - eexists. by split; [vm_compute; reflexivity|].
Qed.
