(* ===== verification/Ring.v ===== *)
(** * Ring buffers

    The sequence held by a circular array, and what a store behind it, a load
    from its front and block copies do to it.  Shared by the packet buffers of
    [Port] and the byte buffers of [Cbuf]. *)

From S2P Require Import Prelude Bits.

Section ring.
Context {A : Type}.
Implicit Types (arr q l : list A) (start : nat).

(** From [start] on, wrapping at the end, [arr] holds [q]. *)
Definition ring arr start q : Prop :=
  (length q ≤ length arr)%nat ∧ ∀ i x, q !! i = Some x → arr !! ((start + i) mod length arr)%nat = Some x.

Lemma ring_nil arr start : ring arr start [].
Proof. split; [simpl; lia|done]. Qed.

(** Distinct indices of a ring are distinct slots. *)
Lemma ring_slot_ne (n start i j : nat) :
  (i < n)%nat → (j < n)%nat → i ≠ j → ((start + i) mod n ≠ (start + j) mod n)%nat.
Proof.
  intros Hi Hj Hne He. apply Hne. 
  pose proof (Nat.div_mod_eq (start + i) n) as E1. pose proof (Nat.div_mod_eq (start + j) n) as E2.
  pose proof (Nat.mod_upper_bound (start + j) n). rw He in E1.
  destruct (decide ((start + i) / n = (start + j) / n)%nat) as [E|E]; [rw E in E1; lia|].
  destruct (Nat.lt_gt_cases ((start + i) / n) ((start + j) / n)) as [[?|?] _]; [done|nia|nia].
Qed.

Lemma ring_push arr start q x :
  ring arr start q → (length q < length arr)%nat →
  ring (<[((start + length q) mod length arr)%nat := x]> arr) start (q ++ [x]).
Proof.
  intros [Hl Hq] Hlt. split; [rw length_app length_insert /=; lia|]. intros i y Hi. rw length_insert.
  destruct (decide (i = length q)) as [->|Hne].
  - rw lookup_app_r // Nat.sub_diag /= in Hi. simplify_eq. apply list_lookup_insert_eq.
    apply Nat.mod_upper_bound. lia.
  - assert (i < length q)%nat as Hil by (apply lookup_lt_Some in Hi; rw length_app /= in Hi; lia).
    rw lookup_app_l // in Hi. rw list_lookup_insert_ne; [by apply Hq|]. apply ring_slot_ne; lia.
Qed.

Lemma ring_skip arr start q k :
  ring arr start q → (k ≤ length q)%nat → ring arr ((start + k) mod length arr) (drop k q).
Proof.
  intros [Hl Hq] Hk. split; [rw length_drop; lia|]. intros i x Hi. rw lookup_drop in Hi.
  rw Nat.Div0.add_mod_idemp_l -Nat.add_assoc. by apply Hq.
Qed.

Lemma ring_front arr start q x : ring arr start (x :: q) → (start < length arr)%nat → arr !! start = Some x.
Proof. intros [_ Hq] Hs. rw -(Hq 0%nat x) // Nat.add_0_r Nat.mod_small //. Qed.

(** [memcpy] of [l] behind the sequence, up to the end of the array *)
Lemma ring_copy_in arr start q l h :
  ring arr start q → (length q + length l ≤ length arr)%nat →
  h = ((start + length q) mod length arr)%nat → (h + length l ≤ length arr)%nat →
  ring (list_inserts h l arr) start (q ++ l).
Proof.
  induction l as [|x l IH] using rev_ind; intros HR Hn Hh Hle; [by rw app_nil_r|].
  rw length_app /= in Hn, Hle. rw list_inserts_app_l /=. rw app_assoc.
  assert (h + length l = (start + length (q ++ l)) mod length arr)%nat as Eh.
  { rw length_app Nat.add_assoc -Nat.Div0.add_mod_idemp_l -Hh Nat.mod_small //. lia. }
  pose proof (ring_push (list_inserts h l arr) start (q ++ l) x) as HP.
  rw length_inserts -Eh in HP. rw Nat.add_comm. apply HP; [|rw length_app; lia]. apply IH; [done|lia|done|lia].
Qed.

(** [memcpy] of [k] bytes from the front, up to the end of the array *)
Lemma ring_copy_out arr start q k :
  ring arr start q → (k ≤ length q)%nat → (start + k ≤ length arr)%nat →
  take k (drop start arr) = take k q.
Proof.
  intros [Hl Hq] Hk Hle. apply list_eq. intros i. destruct (decide (i < k)%nat) as [Hi|Hi].
  - rw !lookup_take_lt // lookup_drop. destruct (lookup_lt_is_Some_2 q i) as [x Hx]; [lia|].
    rw Hx -(Hq i x Hx) Nat.mod_small //. lia.
  - rw !lookup_take_ge //; lia.
Qed.
End ring.

(** The sequence of a ring as a list: it is determined by the array. *)
Lemma ring_inj {A} (arr : list A) start q1 q2 :
  ring arr start q1 → ring arr start q2 → length q1 = length q2 → q1 = q2.
Proof.
  intros [_ H1] [_ H2] Hl. apply list_eq_same_length with (length q1); [done|done|].
  intros i x y _ Hx Hy. apply H1 in Hx. apply H2 in Hy. congruence.
Qed.

Lemma ring_fmap_push {A B} (f : A → B) arr start q x :
  ring arr start (f <$> q) → (length q < length arr)%nat →
  ring (<[((start + length q) mod length arr)%nat := f x]> arr) start (f <$> (q ++ [x])).
Proof. intros HR Hl. rw fmap_app /=. rw -(length_fmap f q). apply ring_push; [done|by rw length_fmap]. Qed.

(** ** Powers of two *)

Lemma valpow2_spec l : 0 ≤ l < 32 → valpow2 l = 2 ^ l.
Proof.
  intros Hl. rw /valpow2 Z.shiftl_1_l u32_small //. split; [lia|]. apply Z.pow_lt_mono_r; lia.
Qed.

Lemma modpow2_spec v l : 0 ≤ v → 0 ≤ l < 32 → modpow2 v l = v mod 2 ^ l.
Proof.
  intros Hv Hl. assert (2 ^ l < 2 ^ 32) by (apply Z.pow_lt_mono_r; lia). assert (0 < 2 ^ l) by lia.
  rw /modpow2 Z.shiftl_1_l u64_small; [|lia]. rw (_ : 2 ^ l - 1 = Z.ones l); [|rw Z.ones_equiv; lia].
  rw Z.land_ones; [|lia]. rw u32_small //. pose proof (Z.mod_pos_bound v (2 ^ l)). lia.
Qed.
