(* ===== verification/Port.v ===== *)
(** * Ports

    [src/mk/kernel/port.c]: named write ports, the read ports opened on them and
    groups of read ports.  The three kinds of object live in one heap, since a
    [port_t] may point to any of them, and the constructor of an object is its
    [magic]; the magic of a write port also says whether it is closed.  Packet
    buffers are a heap of their own, because they change hands.  A packet slot
    that was never written holds [None], and reading it has no result.  The wait
    queue of the object at [a] is [ObjWq a].

    What [malloc] and [calloc] return is an argument: [None] for NULL, otherwise
    the address of the new object.  A function that reschedules ends there with
    [Switched], as in [Thread]. *)

From S2P Require Import Prelude Kernel Timer Thread Bits.

Definition PORT_NAME_LEN : Z := 12.
Definition PORT_BUFF_SIZE : Z := 8.
Definition PORT_BUFF_SIZE_BIG : Z := 64.
Definition MAX_PORT_GROUP_COUNT : Z := 256.
Definition PORT_MODE_BROADCAST : Z := 0.
Definition PORT_MODE_UNICAST : Z := 1.
Definition PORT_MODE_BIG_BUFFER : Z := 2.

(** ** Data *)

(** [PORT_PACKET_LEN] bytes, which the code only copies. *)
Record port_packet := PortPacket { pk_value : list Z }.

Record port_result := PortResult { r_ctx : Z; r_packet : port_packet }.

Record port_buf := PortBuf {
  b_log2 : Z;
  b_avail : Z;
  b_head : Z;
  b_tail : Z;
  b_packet : list (option port_packet)
}.

Inductive write_state := WRITEPORT_MAGIC_W | WRITEPORT_MAGIC_X.

#[global] Instance write_state_eq_dec : EqDecision write_state.
Proof. solve_decision. Defined.

Record write_port := WPort {
  wp_magic : write_state;
  wp_buf : option positive;
  wp_rp_list : list positive;
  wp_mode : Z;
  wp_name : string
}.

Record port_group_t := PGroup { pg_rp_list : list positive }.

Record read_port := RPort {
  rp_buf : option positive;
  rp_ctx : Z;
  rp_wport : option positive;
  rp_gport : option positive
}.

Inductive port_obj :=
  | WritePort (wp : write_port)
  | ReadPort (rp : read_port)
  | PortGroup (pg : port_group_t).

Record ports := Ports {
  pk : kstate;
  objs : gmap positive port_obj;
  bufs : gmap positive port_buf;
  write_port_list : list positive;
  results : gmap positive port_result
}.

Definition set_pk (v : kstate) (s : ports) : ports := Ports v (objs s) (bufs s) (write_port_list s) (results s).

Definition set_objs (v : gmap positive port_obj) (s : ports) : ports :=
  Ports (pk s) v (bufs s) (write_port_list s) (results s).

Definition set_bufs (v : gmap positive port_buf) (s : ports) : ports :=
  Ports (pk s) (objs s) v (write_port_list s) (results s).

Definition set_write_port_list (v : list positive) (s : ports) : ports := Ports (pk s) (objs s) (bufs s) v (results s).

Definition set_results (v : gmap positive port_result) (s : ports) : ports :=
  Ports (pk s) (objs s) (bufs s) (write_port_list s) v.

Definition set_wp_magic (v : write_state) (w : write_port) : write_port :=
  WPort v (wp_buf w) (wp_rp_list w) (wp_mode w) (wp_name w).

Definition set_wp_buf (v : option positive) (w : write_port) : write_port :=
  WPort (wp_magic w) v (wp_rp_list w) (wp_mode w) (wp_name w).

Definition set_wp_rp_list (v : list positive) (w : write_port) : write_port :=
  WPort (wp_magic w) (wp_buf w) v (wp_mode w) (wp_name w).

Definition set_rp_wport (v : option positive) (r : read_port) : read_port := RPort (rp_buf r) (rp_ctx r) v (rp_gport r).

Definition set_rp_gport (v : option positive) (r : read_port) : read_port := RPort (rp_buf r) (rp_ctx r) (rp_wport r) v.

Definition set_rp_buf (v : option positive) (r : read_port) : read_port := RPort v (rp_ctx r) (rp_wport r) (rp_gport r).

Abbreviation PT := (M ports).

(** A scheduler operation. *)
Definition sched {A} (m : K A) : PT A :=
  λ s, match m (pk s) with Some (a, k) => Some (a, set_pk k s) | None => None end.

Definition get_obj (a : positive) : PT port_obj := deref (λ s, objs s !! a).

Definition put_obj (a : positive) (o : port_obj) : PT unit := modify (λ s, set_objs (<[a := o]> (objs s)) s).

Definition free_obj (a : positive) : PT unit := modify (λ s, set_objs (delete a (objs s)) s).

Definition as_write (o : port_obj) : option write_port := match o with WritePort w => Some w | _ => None end.

Definition as_read (o : port_obj) : option read_port := match o with ReadPort r => Some r | _ => None end.

Definition as_group (o : port_obj) : option port_group_t := match o with PortGroup g => Some g | _ => None end.

Definition get_write (a : positive) : PT write_port := deref (λ s, objs s !! a ≫= as_write).

Definition get_read (a : positive) : PT read_port := deref (λ s, objs s !! a ≫= as_read).

Definition get_group (a : positive) : PT port_group_t := deref (λ s, objs s !! a ≫= as_group).

Definition get_buf (b : option positive) : PT port_buf := deref (λ s, b ≫= λ a, bufs s !! a).

Definition put_buf (b : option positive) (v : port_buf) : PT unit :=
  match b with Some a => modify (λ s, set_bufs (<[a := v]> (bufs s)) s) | None => fail end.

(** [free(buf)], which does nothing for NULL *)
Definition free_buf (b : option positive) : PT unit :=
  match b with Some a => modify (λ s, set_bufs (delete a (bufs s)) s) | None => mret () end.

(** ** Packet buffers *)

Definition new_buf (pk_count : Z) : port_buf :=
  PortBuf (log2_uint pk_count) pk_count 0 0 (replicate (Z.to_nat pk_count) None).

Definition make_buf (mem : option positive) (big : bool) : PT (option positive) :=
  match mem with
  | None => mret None
  | Some a =>
      put_buf (Some a) (new_buf (if big then PORT_BUFF_SIZE_BIG else PORT_BUFF_SIZE));;
      mret (Some a)
  end.

Definition buf_is_empty (b : port_buf) : bool := b_avail b =? valpow2 (b_log2 b).

(** [packet[tail] = p; tail = modpow2(++tail, log2)] *)
Definition store_packet (b : port_buf) (p : port_packet) : option port_buf :=
  if bool_decide (Z.to_nat (b_tail b) < length (b_packet b))%nat then
    Some (PortBuf (b_log2 b) (b_avail b) (b_head b) (modpow2 (u32 (b_tail b + 1)) (b_log2 b))
            (<[Z.to_nat (b_tail b) := Some p]> (b_packet b)))
  else None.

Fixpoint buf_write_loop (n ix : nat) (packets : list port_packet) (b : port_buf) : option port_buf :=
  match n with
  | O => Some b
  | S n =>
      match packets !! ix with
      | Some p => match store_packet b p with Some b' => buf_write_loop n (S ix) packets b' | None => None end
      | None => None
      end
  end.

Definition buf_write (b : port_buf) (packets : list port_packet) (count : Z) : option (Z * port_buf) :=
  if b_avail b <? count then Some (ERR_NOT_ENOUGH_BUFFER, b)
  else
    match buf_write_loop (Z.to_nat count) 0 packets b with
    | Some b' => Some (NO_ERROR, PortBuf (b_log2 b') (u32 (b_avail b' - count)) (b_head b') (b_tail b') (b_packet b'))
    | None => None
    end.

(** The packet goes to [pr->packet], which is left alone when there is none. *)
Definition buf_read (b : port_buf) : option (Z * option port_packet * port_buf) :=
  if buf_is_empty b then Some (ERR_NO_MSG, None, b)
  else
    match b_packet b !! Z.to_nat (b_head b) with
    | Some (Some p) =>
        Some (NO_ERROR, Some p,
              PortBuf (b_log2 b) (u32 (b_avail b + 1)) (modpow2 (u32 (b_head b + 1)) (b_log2 b)) (b_tail b) (b_packet b))
    | _ => None
    end.

(** ** Creating and opening *)

Definition port_init : PT unit := modify (set_write_port_list []).

(** The write port of the list with this name. *)
Fixpoint find_port (os : gmap positive port_obj) (name : string) (l : list positive) : option (option positive) :=
  match l with
  | [] => Some None
  | a :: l =>
      match os !! a ≫= as_write with
      | Some w => if bool_decide (wp_name w = name) then Some (Some a) else find_port os name l
      | None => None
      end
  end.

Definition lookup_port (name : string) : PT (option positive) := deref (λ s, find_port (objs s) name (write_port_list s)).

(** [mem] and [bmem] are the port and the buffer the heap has; [port] is false for
    a NULL result pointer, and the second component is what is stored there. *)
Definition port_create (mem bmem : option positive) (name : option string) (mode : Z) (port : bool) :
    PT (Z * option positive) :=
  match name with
  | None => mret (ERR_INVALID_ARGS, None)
  | Some name =>
      if negb port then mret (ERR_INVALID_ARGS, None)
      else if negb (Z.land mode PORT_MODE_BROADCAST =? 0) && negb (Z.land mode PORT_MODE_BIG_BUFFER =? 0) then
        mret (ERR_INVALID_ARGS, None)
      else if PORT_NAME_LEN <=? Z.of_nat (String.length name) then mret (ERR_INVALID_ARGS, None)
      else
        sched THREAD_LOCK;;
        found ← lookup_port name;
        match found with
        | Some a =>
            wp ← get_write a;
            sched THREAD_UNLOCK;;
            mret (if bool_decide (wp_magic wp = WRITEPORT_MAGIC_X) then (ERR_BUSY, None)
                  else (ERR_ALREADY_EXISTS, Some a))
        | None =>
            sched THREAD_UNLOCK;;
            match mem with
            | None => mret (ERR_NO_MEMORY, None)
            | Some a =>
                buf ← make_buf bmem (negb (Z.land mode PORT_MODE_BIG_BUFFER =? 0));
                match buf with
                | None => mret (ERR_NO_MEMORY, None)
                | Some b =>
                    put_obj a (WritePort (WPort WRITEPORT_MAGIC_W (Some b) [] mode name));;
                    sched THREAD_LOCK;;
                    modify (λ s, set_write_port_list (write_port_list s ++ [a]) s);;
                    sched THREAD_UNLOCK;;
                    mret (NO_ERROR, Some a)
                end
            end
        end
  end.

(** The body of the search loop of [port_open] at the matching write port [w]:
    the status and the buffer that is left to free. *)
Definition open_on (a w : positive) (ctx : Z) (buf : option positive) : PT (Z * option positive) :=
  wp ← get_write w;
  match wp_buf wp, buf with
  | Some b, _ =>
      put_obj w (WritePort (set_wp_buf None (set_wp_rp_list (wp_rp_list wp ++ [a]) wp)));;
      put_obj a (ReadPort (RPort (Some b) ctx (Some w) None));;
      mret (NO_ERROR, buf)
  | None, Some b =>
      if negb (Z.land (wp_mode wp) PORT_MODE_UNICAST =? 0) then mret (ERR_NOT_ALLOWED, buf)
      else
        put_obj w (WritePort (set_wp_rp_list (wp_rp_list wp ++ [a]) wp));;
        put_obj a (ReadPort (RPort (Some b) ctx (Some w) None));;
        mret (NO_ERROR, None)
  | None, None => mret (ERR_NO_MEMORY, buf)
  end.

Definition port_open (mem bmem : option positive) (name : option string) (ctx : Z) (port : bool) :
    PT (Z * option positive) :=
  match name with
  | None => mret (ERR_INVALID_ARGS, None)
  | Some name =>
      if negb port then mret (ERR_INVALID_ARGS, None)
      else
        match mem with
        | None => mret (ERR_NO_MEMORY, None)
        | Some a =>
            put_obj a (ReadPort (RPort None ctx None None));;
            sched (wait_queue_init (ObjWq a));;
            buf ← make_buf bmem false;
            match buf with
            | None => free_obj a;; mret (ERR_NO_MEMORY, None)
            | Some _ =>
                sched THREAD_LOCK;;
                found ← lookup_port name;
                '(rc, buf) ← match found with
                             | Some w => open_on a w ctx buf
                             | None => mret (ERR_NOT_FOUND, buf)
                             end;
                sched THREAD_UNLOCK;;
                free_buf buf;;
                if rc =? NO_ERROR then mret (rc, Some a) else free_obj a;; mret (rc, None)
            end
        end
  end.

(** ** Groups *)

(** [ports[jx]->gport = NULL] for [jx] below [n] *)
Fixpoint clear_gports (n : nat) (ps : list positive) : PT unit :=
  match n with
  | O => mret ()
  | S n =>
      clear_gports n ps;;
      p ← deref (λ _, ps !! n);
      rp ← get_read p;
      put_obj p (ReadPort (set_rp_gport None rp))
  end.

(** [rp->gport = pg] and the insertion of [rp] at the end of the group *)
Definition link_group (g p : positive) (rp : read_port) : PT unit :=
  put_obj p (ReadPort (set_rp_gport (Some g) rp));;
  pg ← get_group g;
  put_obj g (PortGroup (PGroup (pg_rp_list pg ++ [p]))).

Fixpoint group_loop (n ix : nat) (g : positive) (ps : list positive) : PT Z :=
  match n with
  | O => mret NO_ERROR
  | S n =>
      p ← deref (λ _, ps !! ix);
      o ← get_obj p;
      match o with
      | ReadPort (RPort _ _ _ None as rp) => link_group g p rp;; group_loop n (S ix) g ps
      | _ => clear_gports ix ps;; mret ERR_BAD_HANDLE
      end
  end.

Definition port_group (mem : option positive) (ps : option (list positive)) (count : Z) (group : bool) :
    PT (Z * option positive) :=
  if MAX_PORT_GROUP_COUNT <? count then mret (ERR_TOO_BIG, None)
  else if negb (count =? 0) && bool_decide (ps = None) then mret (ERR_INVALID_ARGS, None)
  else if negb group then mret (ERR_INVALID_ARGS, None)
  else
    match mem with
    | None => mret (ERR_NO_MEMORY, None)
    | Some g =>
        put_obj g (PortGroup (PGroup []));;
        sched (wait_queue_init (ObjWq g));;
        sched THREAD_LOCK;;
        rc ← group_loop (Z.to_nat count) 0 g (default [] ps);
        sched THREAD_UNLOCK;;
        if rc =? NO_ERROR then mret (rc, Some g) else free_obj g;; mret (rc, None)
    end.

Definition port_group_add (cpu : nat) (group port : option positive) : PT Z :=
  match port, group with
  | Some p, Some g =>
      og ← get_obj g;
      match og with
      | PortGroup _ =>
          o ← get_obj p;
          match o with
          | ReadPort (RPort _ _ _ None as rp) =>
              sched THREAD_LOCK;;
              pg ← get_group g;
              rc ← (if Z.of_nat (length (pg_rp_list pg)) =? MAX_PORT_GROUP_COUNT then mret ERR_TOO_BIG
                    else
                      link_group g p rp;;
                      b ← get_buf (rp_buf rp);
                      when (negb (buf_is_empty b))
                        (sched (wait_queue_wake_one cpu (ObjWq g) false NO_ERROR);; mret ());;
                      mret NO_ERROR);
              sched THREAD_UNLOCK;;
              mret rc
          | _ => mret ERR_BAD_HANDLE
          end
      | _ => mret ERR_INVALID_ARGS
      end
  | _, _ => mret ERR_INVALID_ARGS
  end.

Definition in_group (p : positive) (o : port_obj) : bool :=
  match o with PortGroup pg => bool_decide (p ∈ pg_rp_list pg) | _ => false end.

Definition out_of_group (p : positive) (o : port_obj) : port_obj :=
  match o with PortGroup pg => PortGroup (PGroup (list_without p (pg_rp_list pg))) | _ => o end.

(** [list_delete(&rp->g_node)]: the links of a node on no list are NULL. *)
Definition delete_g_node (p : positive) : PT unit :=
  linked ← gets (λ s, existsb (λ kv, in_group p kv.2) (map_to_list (objs s)));
  assert linked;;
  modify (λ s, set_objs (out_of_group p <$> objs s) s).

Definition port_group_remove (group port : option positive) : PT Z :=
  match port, group with
  | Some p, Some g =>
      og ← get_obj g;
      match og with
      | PortGroup _ =>
          o ← get_obj p;
          match o with
          | ReadPort rp =>
              if bool_decide (rp_gport rp ≠ Some g) then mret ERR_BAD_HANDLE
              else
                sched THREAD_LOCK;;
                pg ← get_group g;
                if bool_decide (p ∈ pg_rp_list pg) then
                  delete_g_node p;; sched THREAD_UNLOCK;; mret NO_ERROR
                else sched THREAD_UNLOCK;; mret ERR_BAD_HANDLE
          | _ => mret ERR_BAD_HANDLE
          end
      | _ => mret ERR_INVALID_ARGS
      end
  | _, _ => mret ERR_INVALID_ARGS
  end.

(** ** Writing *)

Definition buf_write_to (b : option positive) (packets : list port_packet) (count : Z) : PT Z :=
  v ← get_buf b;
  '(status, v') ← deref (λ _, buf_write v packets count);
  put_buf b v';;
  mret status.

(** A thread of the group of the port, if one waits there, else one of the port. *)
Definition wake_reader (cpu : nat) (p : positive) (rp : read_port) : PT Z :=
  awaken ← match rp_gport rp with
           | Some g => get_group g;; sched (wait_queue_wake_one cpu (ObjWq g) false NO_ERROR)
           | None => mret 0
           end;
  if awaken =? 0 then sched (wait_queue_wake_one cpu (ObjWq p) false NO_ERROR) else mret awaken.

Fixpoint write_readers (cpu : nat) (l : list positive) (packets : list port_packet) (count status awake_count : Z) :
    PT (Z * Z) :=
  match l with
  | [] => mret (status, awake_count)
  | p :: l =>
      rp ← get_read p;
      st ← buf_write_to (rp_buf rp) packets count;
      if st <? 0 then write_readers cpu l packets count ERR_PARTIAL_WRITE awake_count
      else
        awaken ← wake_reader cpu p rp;
        write_readers cpu l packets count status (awake_count + awaken)
  end.

(** The status that is returned, and whether the call has rescheduled first. *)
Definition port_write (cpu : nat) (port : option positive) (packets : option (list port_packet)) (count : Z) :
    PT (Z * call unit) :=
  match port, packets with
  | Some a, Some ps =>
      sched THREAD_LOCK;;
      o ← get_obj a;
      match o with
      | WritePort (WPort WRITEPORT_MAGIC_W buf rps _ _) =>
          '(status, awake_count) ← match buf with
                                   | Some _ => st ← buf_write_to buf ps count; mret (st, 0)
                                   | None => write_readers cpu rps ps count NO_ERROR 0
                                   end;
          sched THREAD_UNLOCK;;
          if awake_count =? 0 then mret (status, Returned ())
          else sched (thread_yield cpu);; mret (status, Switched)
      | _ => sched THREAD_UNLOCK;; mret (ERR_BAD_HANDLE, Returned ())
      end
  | _, _ => mret (ERR_INVALID_ARGS, Returned ())
  end.

(** ** Reading *)

(** [result] is the address of the caller's [port_result_t]. *)
Definition read_no_lock (cpu : nat) (p : positive) (timeout : Z) (result : positive) : PT (call Z) :=
  rp ← get_read p;
  v ← get_buf (rp_buf rp);
  '(status, packet, v') ← deref (λ _, buf_read v);
  put_buf (rp_buf rp) v';;
  res ← deref (λ s, results s !! result);
  modify (λ s, set_results (<[result := PortResult (rp_ctx rp) (default (r_packet res) packet)]> (results s)) s);;
  if negb (status =? ERR_NO_MSG) then mret (Returned status)
  else if timeout =? 0 then mret (Returned ERR_TIMED_OUT)
  else sched (wait_queue_block cpu (ObjWq p) timeout).

(** From the return of [wait_queue_block] in [read_no_lock]. *)
Definition read_no_lock_resume (cpu : nat) (p : positive) (timeout : Z) (result : positive) : PT (call Z) :=
  wr ← sched (wait_queue_block_resume cpu timeout);
  if negb (wr =? NO_ERROR) then mret (Returned wr) else read_no_lock cpu p timeout result.

(** One round over the ports of a group. *)
Fixpoint read_group (cpu : nat) (l : list positive) (result : positive) : PT (option Z) :=
  match l with
  | [] => mret None
  | p :: l =>
      r ← read_no_lock cpu p 0 result;
      match r with
      | Returned rc => if negb (rc =? ERR_TIMED_OUT) then mret (Some rc) else read_group cpu l result
      | Switched => fail
      end
  end.

Definition group_round (cpu : nat) (g : positive) (timeout : Z) (result : positive) : PT (call Z) :=
  pg ← get_group g;
  rc ← read_group cpu (pg_rp_list pg) result;
  match rc with
  | Some rc => mret (Returned rc)
  | None => sched (wait_queue_block cpu (ObjWq g) timeout)
  end.

Definition read_exit (r : call Z) : PT (call Z) :=
  match r with
  | Returned rc => sched THREAD_UNLOCK;; mret (Returned rc)
  | Switched => mret Switched
  end.

Definition port_read (cpu : nat) (port : option positive) (timeout : Z) (result : option positive) : PT (call Z) :=
  match port, result with
  | Some p, Some res =>
      sched THREAD_LOCK;;
      o ← get_obj p;
      r ← match o with
          | ReadPort _ => read_no_lock cpu p timeout res
          | PortGroup _ => group_round cpu p timeout res
          | WritePort _ => mret (Returned ERR_BAD_HANDLE)
          end;
      read_exit r
  | _, _ => mret (Returned ERR_INVALID_ARGS)
  end.

(** [port_read] when its thread runs again: on a read port, and on a group. *)
Definition port_read_resume (cpu : nat) (p : positive) (timeout : Z) (result : positive) : PT (call Z) :=
  r ← read_no_lock_resume cpu p timeout result; read_exit r.

Definition port_read_group_resume (cpu : nat) (g : positive) (timeout : Z) (result : positive) : PT (call Z) :=
  rc ← sched (wait_queue_block_resume cpu timeout);
  r ← (if rc =? NO_ERROR then group_round cpu g timeout result else mret (Returned rc));
  read_exit r.

(** ** Destroying and closing *)

(** For each reader: wake its threads and those of its group, and detach it. *)
Fixpoint detach_readers (cpu : nat) (l : list positive) : PT unit :=
  match l with
  | [] => mret ()
  | p :: l =>
      rp ← get_read p;
      sched (wait_queue_wake_all cpu (ObjWq p) false ERR_CANCELLED);;
      match rp_gport rp with
      | Some g => get_group g;; sched (wait_queue_wake_all cpu (ObjWq g) false ERR_CANCELLED);; mret ()
      | None => mret ()
      end;;
      put_obj p (ReadPort (set_rp_wport None rp));;
      detach_readers cpu l
  end.

Definition port_destroy (cpu : nat) (port : option positive) : PT Z :=
  match port with
  | None => mret ERR_INVALID_ARGS
  | Some a =>
      sched THREAD_LOCK;;
      o ← get_obj a;
      match o with
      | WritePort (WPort WRITEPORT_MAGIC_X buf rps _ _) =>
          modify (λ s, set_write_port_list (list_without a (write_port_list s)) s);;
          match buf with
          | Some _ => mret ()
          | None => detach_readers cpu rps
          end;;
          sched THREAD_UNLOCK;;
          free_buf buf;;
          free_obj a;;
          mret NO_ERROR
      | _ => sched THREAD_UNLOCK;; mret ERR_BAD_HANDLE
      end
  end.

(** The read port [p] leaves its write port; the buffer that is left to free. *)
Definition leave_wport (p : positive) (rp : read_port) : PT (option positive) :=
  match rp_wport rp with
  | None => mret None
  | Some w =>
      wp ← get_write w;
      assert (bool_decide (p ∈ wp_rp_list wp));;
      let l := list_without p (wp_rp_list wp) in
      if bool_decide (l = []) then
        put_obj w (WritePort (set_wp_buf (rp_buf rp) (set_wp_rp_list l wp)));;
        put_obj p (ReadPort (set_rp_buf None rp));;
        mret None
      else put_obj w (WritePort (set_wp_rp_list l wp));; mret (rp_buf rp)
  end.

(** The end of [port_close] for a read port, with the buffer to free. *)
Definition close_read_finish (p : positive) (buf : option positive) : PT Z :=
  sched THREAD_UNLOCK;; free_buf buf;; free_obj p;; mret NO_ERROR.

Fixpoint clear_members (l : list positive) : PT unit :=
  match l with
  | [] => mret ()
  | p :: l => rp ← get_read p; put_obj p (ReadPort (set_rp_gport None rp));; clear_members l
  end.

Definition close_group_finish (g : positive) : PT Z :=
  pg ← get_group g;
  clear_members (pg_rp_list pg);;
  sched THREAD_UNLOCK;; free_obj g;; mret NO_ERROR.

(** The local variable [buf] and whether the call has rescheduled. *)
Definition port_close (cpu : nat) (port : option positive) : PT (option positive * call Z) :=
  match port with
  | None => mret (None, Returned ERR_INVALID_ARGS)
  | Some p =>
      sched THREAD_LOCK;;
      o ← get_obj p;
      match o with
      | ReadPort rp =>
          buf ← leave_wport p rp;
          when (bool_decide (is_Some (rp_gport rp))) (delete_g_node p);;
          r ← sched (wait_queue_destroy cpu (ObjWq p) true);
          match r with
          | Switched => mret (buf, Switched)
          | Returned _ => rc ← close_read_finish p buf; mret (buf, Returned rc)
          end
      | PortGroup _ =>
          r ← sched (wait_queue_destroy cpu (ObjWq p) true);
          match r with
          | Switched => mret (None, Switched)
          | Returned _ => rc ← close_group_finish p; mret (None, Returned rc)
          end
      | WritePort wp =>
          if bool_decide (wp_magic wp = WRITEPORT_MAGIC_W) then
            put_obj p (WritePort (set_wp_magic WRITEPORT_MAGIC_X wp));;
            sched THREAD_UNLOCK;; mret (None, Returned NO_ERROR)
          else sched THREAD_UNLOCK;; mret (None, Returned ERR_BAD_HANDLE)
      end
  end.

(** [port_close] when its thread runs again. *)
Definition port_close_read_resume (p : positive) (buf : option positive) : PT Z :=
  sched (wait_queue_destroy_resume (ObjWq p));; close_read_finish p buf.

Definition port_close_group_resume (g : positive) : PT Z :=
  sched (wait_queue_destroy_resume (ObjWq g));; close_group_finish g.
