(* ===== verification/PortBuf.v ===== *)
(** * The packet buffers of ports are bounded queues

    [buf_write] and [buf_read] of [Port] against a list with a capacity: a write
    is all or nothing, packets come out in the order they went in, and a slot is
    never read before it was written. *)

From S2P Require Import Prelude Kernel Timer Thread Bits Ring Port.

(** The buffer holds the packets [q], the oldest first, and has [cap] slots. *)
Record buf_repr (b : port_buf) (cap : Z) (q : list port_packet) : Prop := {
  br_log2 : 0 ≤ b_log2 b < 31;
  br_cap : cap = 2 ^ b_log2 b;
  br_len : length (b_packet b) = Z.to_nat cap;
  br_fits : Z.of_nat (length q) ≤ cap;
  br_avail : b_avail b = cap - Z.of_nat (length q);
  br_head : 0 ≤ b_head b < cap;
  br_tail : b_tail b = (b_head b + Z.of_nat (length q)) mod cap;
  br_ring : ring (b_packet b) (Z.to_nat (b_head b)) (Some <$> q)
}.

Lemma new_buf_repr big :
  let n := if big : bool then PORT_BUFF_SIZE_BIG else PORT_BUFF_SIZE in buf_repr (new_buf n) n [].
Proof. destruct big; split; first [apply ring_nil|done|by vm_compute]. Qed.

Lemma buf_is_empty_repr b cap q : buf_repr b cap q → buf_is_empty b = bool_decide (q = []).
Proof.
  intros [Hl Hc _ Hf Ha _ _ _]. rw /buf_is_empty valpow2_spec; [|lia]. rw -Hc Ha.
  destruct q; [apply Z.eqb_eq; simpl; lia|apply Z.eqb_neq; simpl; lia].
Qed.

Lemma cap_bound b cap q : buf_repr b cap q → 0 < cap < 2 ^ 31.
Proof. intros [Hl -> _ _ _ _ _ _]. split; [lia|]. apply Z.pow_lt_mono_r; lia. Qed.

Lemma bump_spec v l : 0 ≤ l < 31 → 0 ≤ v < 2 ^ l → modpow2 (u32 (v + 1)) l = (v + 1) mod 2 ^ l.
Proof.
  intros Hl Hv. assert (2 ^ l < 2 ^ 31) by (apply Z.pow_lt_mono_r; lia).
  rw u32_small; [|lia]. apply modpow2_spec; lia.
Qed.

(** The buffer while [buf_write] fills it: [avail] is not updated yet. *)
Definition with_avail (b : port_buf) (a : Z) : port_buf := PortBuf (b_log2 b) a (b_head b) (b_tail b) (b_packet b).

Lemma store_packet_repr b cap q p a :
  buf_repr b cap q → Z.of_nat (length q) < cap →
  ∃ b', store_packet (with_avail b a) p = Some (with_avail b' a) ∧ buf_repr b' cap (q ++ [p]).
Proof.
  intros R Hlt. pose proof (cap_bound _ _ _ R) as Hcb. destruct R as [Hl Hc Hn Hf Ha Hh Ht HR].
  pose proof (Z.mod_pos_bound (b_head b + Z.of_nat (length q)) cap) as Hm.
  assert (Z.to_nat (b_tail b) = ((Z.to_nat (b_head b) + length q) mod length (b_packet b))%nat) as Etl.
  { rw Ht Hn Z2Nat.inj_mod; [|lia|lia]. rw Z2Nat.inj_add; [|lia|lia]. by rw Nat2Z.id. }
  rw /store_packet /with_avail /=. rw bool_decide_true; [|rw Hn; lia].
  exists (PortBuf (b_log2 b) (b_avail b - 1) (b_head b) (modpow2 (u32 (b_tail b + 1)) (b_log2 b))
       (<[Z.to_nat (b_tail b) := Some p]> (b_packet b))).
  split; [done|]. split; simpl; try done.
  - by rw length_insert.
  - rw length_app /=. lia.
  - rw length_app /=. lia.
  - rw bump_spec; [|done|lia]. rw -Hc Ht length_app /= Zplus_mod_idemp_l. f_equal. lia.
  - rw Etl. apply ring_fmap_push; [done|]. rw Hn. lia.
Qed.

Lemma buf_write_loop_repr packets n ix b cap q a :
  buf_repr b cap q → (ix + n ≤ length packets)%nat → Z.of_nat (length q + n) ≤ cap →
  ∃ b', buf_write_loop n ix packets (with_avail b a) = Some (with_avail b' a) ∧
    buf_repr b' cap (q ++ take n (drop ix packets)).
Proof.
  revert ix b q. induction n as [|n IH]; intros ix b q R Hix Hle; [exists b; by rw /= take_0 app_nil_r|].
  destruct (lookup_lt_is_Some_2 packets ix) as [p Hp]; [lia|].
  destruct (store_packet_repr b cap q p a R) as (b1 & Hs & R1); [lia|].
  destruct (IH (S ix) b1 (q ++ [p]) R1) as (b' & Hb & R'); [lia|rw length_app /=; lia|].
  exists b'. cbn [buf_write_loop]. rw Hp Hs Hb. split; [done|]. rw (drop_S _ _ _ Hp) /=. by rw -app_assoc in R'.
Qed.

Lemma buf_write_repr b cap q packets :
  buf_repr b cap q →
  ∃ st b', buf_write b packets (Z.of_nat (length packets)) = Some (st, b') ∧
    if Z.of_nat (length q + length packets) <=? cap
    then st = NO_ERROR ∧ buf_repr b' cap (q ++ packets)
    else st = ERR_NOT_ENOUGH_BUFFER ∧ b' = b.
Proof.
  intros R. rw /buf_write (br_avail _ _ _ R).
  destruct (Z.leb_spec (Z.of_nat (length q + length packets)) cap) as [Hle|Hle].
  - rw (proj2 (Z.ltb_ge _ _)); [|lia]. rw Nat2Z.id.
    destruct (buf_write_loop_repr packets (length packets) 0 b cap q (b_avail b) R) as (b' & Hb & R'); [lia|lia|].
    rw (_ : with_avail b (b_avail b) = b) in Hb; [|by destruct b]. rw Hb /=.
    rw drop_0 firstn_all in R'. eexists _, _. split_and!; [done..|].
    pose proof (cap_bound _ _ _ R') as Hcb. pose proof (br_avail _ _ _ R) as Ha. destruct R' as [? ? ? Hf ? ? ? ?]. 
    rw length_app in Hf. split; simpl; try done; rw length_app; try done. rw Ha u32_small; lia.
  - rw (proj2 (Z.ltb_lt _ _)); [|lia]. by eexists _, _.
Qed.

Lemma buf_read_repr b cap q :
  buf_repr b cap q →
  match q with
  | [] => buf_read b = Some (ERR_NO_MSG, None, b)
  | p :: q' => ∃ b', buf_read b = Some (NO_ERROR, Some p, b') ∧ buf_repr b' cap q'
  end.
Proof.
  intros R. rw /buf_read (buf_is_empty_repr _ _ _ R). destruct q as [|p q]; [done|]. simpl.
  pose proof (cap_bound _ _ _ R) as Hcb. destruct R as [Hl Hc Hn Hf Ha Hh Ht HR]. simpl in *.
  rw (ring_front _ _ _ _ HR); [|rw Hn; lia]. eexists. split; [done|]. split; simpl; try done; try lia.
  - rw Ha u32_small; lia.
  - rw bump_spec; [|done|lia]. rw -Hc. apply Z.mod_pos_bound. lia.
  - rw bump_spec; [|done|lia]. rw -Hc Ht Zplus_mod_idemp_l. f_equal. lia.
  - rw bump_spec; [|done|lia]. rw -Hc Z2Nat.inj_mod; [|lia|lia]. rw Z2Nat.inj_add; [|lia|lia]. rw -Hn.
    change (Z.to_nat 1) with 1%nat. change (Some <$> q) with (drop 1 (Some <$> p :: q)).
    apply ring_skip; [done|simpl; lia].
Qed.

(** ** Runs of operations *)

Inductive buf_op := BufWrite (ps : list port_packet) | BufRead.

Inductive buf_out := Wrote (st : Z) | Read (st : Z) (p : option port_packet).

(** What a queue of capacity [cap] answers. *)
Fixpoint queue_run (cap : Z) (ops : list buf_op) (q : list port_packet) : list buf_out :=
  match ops with
  | [] => []
  | BufWrite ps :: ops =>
      if Z.of_nat (length q + length ps) <=? cap then Wrote NO_ERROR :: queue_run cap ops (q ++ ps)
      else Wrote ERR_NOT_ENOUGH_BUFFER :: queue_run cap ops q
  | BufRead :: ops =>
      match q with
      | [] => Read ERR_NO_MSG None :: queue_run cap ops []
      | p :: q' => Read NO_ERROR (Some p) :: queue_run cap ops q'
      end
  end.

Fixpoint buf_run (ops : list buf_op) (b : port_buf) : option (list buf_out) :=
  match ops with
  | [] => Some []
  | BufWrite ps :: ops =>
      '(st, b') ← buf_write b ps (Z.of_nat (length ps));
      (Wrote st ::.) <$> buf_run ops b'
  | BufRead :: ops =>
      '(st, p, b') ← buf_read b;
      (Read st p ::.) <$> buf_run ops b'
  end.

Lemma buf_run_repr ops b cap q : buf_repr b cap q → buf_run ops b = Some (queue_run cap ops q).
Proof.
  revert b q. induction ops as [|[ps|] ops IH]; intros b q R; [done|..]; cbn [buf_run queue_run].
  - destruct (buf_write_repr b cap q ps R) as (st & b' & -> & Hw). cbn [mbind option_bind].
    destruct (_ <=? cap); destruct Hw as [-> Hw]; [by rw (IH _ _ Hw)|]. subst b'. by rw (IH _ _ R).
  - pose proof (buf_read_repr b cap q R) as Hr. destruct q as [|p q].
    + rw Hr. cbn [mbind option_bind]. by rw (IH _ _ R).
    + destruct Hr as (b' & -> & R'). cbn [mbind option_bind]. by rw (IH _ _ R').
Qed.

(** C29: the packet buffer [make_buf] creates answers every sequence of writes and
    reads as a first-in first-out queue of 8 (or 64) packets does: a write that
    does not fit is refused as a whole, packets come out once each in the order
    they went in, and no slot is read before it was written. *)
Theorem port_buf_refines (big : bool) (ops : list buf_op) :
  let n := if big then PORT_BUFF_SIZE_BIG else PORT_BUFF_SIZE in
  buf_run ops (new_buf n) = Some (queue_run n ops []).
Proof. apply buf_run_repr, new_buf_repr. Qed.
