(* ===== verification/PortInv.v ===== *)
(** * The invariant of the port objects

    Which objects point to which: every read port is on the list of its write
    port and of its group and on no other, every buffer has one owner, a write
    port has a buffer of its own exactly while it has no reader, and names are
    unique.  Then what each kind of update does to it. *)

From S2P Require Import Prelude Kernel Timer Thread Bits Ring Port PortBuf.

(** Ports whose [port_close] has rescheduled and not finished yet, with the
    buffer it is going to free. *)
Abbreviation closing := (gmap positive (option positive)).

Abbreviation heap := (gmap positive port_obj).

(** The links of an object, as functions of its address.  [x] is the entry of the
    address among the closing ports. *)
Section links.
Implicit Types (x : option (option positive)) (o : option port_obj).

Definition wport1 x o : option positive :=
  match o, x with Some (ReadPort rp), None => rp_wport rp | _, _ => None end.

Definition gport1 x o : option positive :=
  match o, x with Some (ReadPort rp), None => rp_gport rp | _, _ => None end.

Definition readers1 x o : list positive := match o with Some (WritePort wp) => wp_rp_list wp | _ => [] end.

Definition members1 x o : list positive := match o with Some (PortGroup pg) => pg_rp_list pg | _ => [] end.

(** The buffer the object owns. *)
Definition buf1 x o : option positive :=
  match x, o with
  | Some b, _ => b
  | None, Some (WritePort wp) => wp_buf wp
  | None, Some (ReadPort rp) => rp_buf rp
  | None, _ => None
  end.

Definition name1 x o : option string := match o with Some (WritePort wp) => Some (wp_name wp) | _ => None end.
End links.

Definition point {A} (f : option (option positive) → option port_obj → A) (X : closing) (os : heap) (a : positive) : A :=
  f (X !! a) (os !! a).

Abbreviation wport_of := (point wport1).
Abbreviation gport_of := (point gport1).
Abbreviation readers_of := (point readers1).
Abbreviation members_of := (point members1).
Abbreviation buf_of := (point buf1).
Abbreviation name_of := (point name1).

Definition good_buf (bs : gmap positive port_buf) (b : positive) : Prop :=
  ∃ v cap q, bs !! b = Some v ∧ buf_repr v cap q.

(** What an object says of itself. *)
Definition obj_ok (o : port_obj) : Prop :=
  match o with
  | WritePort wp =>
      (wp_buf wp = None ↔ wp_rp_list wp ≠ []) ∧ NoDup (wp_rp_list wp) ∧
      (Z.land (wp_mode wp) PORT_MODE_UNICAST ≠ 0 → (length (wp_rp_list wp) ≤ 1)%nat)
  | ReadPort rp => is_Some (rp_buf rp)
  | PortGroup pg => NoDup (pg_rp_list pg)
  end.

Record ports_ok (X : closing) (os : heap) (bs : gmap positive port_buf) (wl : list positive) : Prop := {
  po_obj a o : os !! a = Some o → X !! a = None → obj_ok o;
  po_closing a : is_Some (X !! a) → ∃ o, os !! a = Some o ∧ as_write o = None ∧ (as_group o = None ∨ obj_ok o ∧ X !! a = Some None);
  po_readers w p : p ∈ readers_of X os w ↔ wport_of X os p = Some w;
  po_members g p : p ∈ members_of X os g ↔ gport_of X os p = Some g;
  po_good a b : buf_of X os a = Some b → good_buf bs b;
  po_owner a a' b : buf_of X os a = Some b → buf_of X os a' = Some b → a = a';
  po_list_nodup : NoDup wl;
  po_list w : w ∈ wl ↔ is_Some (name_of X os w);
  po_names w w' n : name_of X os w = Some n → name_of X os w' = Some n → w = w'
}.

(** ** Updates *)

Section point.
Context {A : Type} (f : option (option positive) → option port_obj → A).

Lemma point_insert X os a o p :
  point f X (<[a := o]> os) p = if decide (a = p) then f (X !! a) (Some o) else point f X os p.
Proof. rw /point. case_decide; subst; [by rw lookup_insert_eq|by rw lookup_insert_ne]. Qed.

Lemma point_delete X os a p : f None None = f (X !! a) None →
  point f (delete a X) (delete a os) p = if decide (a = p) then f None None else point f X os p.
Proof. intros ?. rw /point. case_decide; subst; [by rw !lookup_delete_eq|by rw !lookup_delete_ne]. Qed.

Lemma point_same X os a o p : f (X !! a) (Some o) = point f X os a → point f X (<[a := o]> os) p = point f X os p.
Proof. intros E. rw point_insert. case_decide; by subst. Qed.

Lemma point_eq X os a x o : X !! a = x → os !! a = o → point f X os a = f x o.
Proof. by intros <- <-. Qed.
End point.

Lemma ports_ok_bufs X os bs bs' wl :
  ports_ok X os bs wl → (∀ a b, buf_of X os a = Some b → good_buf bs b → good_buf bs' b) → ports_ok X os bs' wl.
Proof. intros [] Hb. split; try done. intros a b Ha. eauto. Qed.

Lemma good_buf_put bs b b' v cap q : good_buf bs b' → buf_repr v cap q → good_buf (<[b := v]> bs) b'.
Proof.
  intros (v0 & cap0 & q0 & ? & ?) R. destruct (decide (b = b')) as [<-|Hne].
  - exists v, cap, q. by rw lookup_insert_eq.
  - exists v0, cap0, q0. by rw lookup_insert_ne.
Qed.

(** A new write port *)
Lemma ports_ok_create X os bs wl a b mode n v cap q :
  ports_ok X os bs wl → os !! a = None → X !! a = None → (∀ a', buf_of X os a' ≠ Some b) →
  (∀ w, name_of X os w ≠ Some n) → buf_repr v cap q →
  ports_ok X (<[a := WritePort (WPort WRITEPORT_MAGIC_W (Some b) [] mode n)]> os) (<[b := v]> bs) (wl ++ [a]).
Proof.
  intros P Ha HX Hb Hn R. set (o := WritePort _).
  assert (∀ p, wport_of X (<[a := o]> os) p = wport_of X os p) as Ew by (intros; apply point_same; by rw /point HX Ha).
  assert (∀ p, gport_of X (<[a := o]> os) p = gport_of X os p) as Eg by (intros; apply point_same; by rw /point HX Ha).
  assert (∀ p, readers_of X (<[a := o]> os) p = readers_of X os p) as Er by (intros; apply point_same; by rw /point HX Ha).
  assert (∀ p, members_of X (<[a := o]> os) p = members_of X os p) as Em by (intros; apply point_same; by rw /point HX Ha).
  split.
  - intros a' o' [[<- <-]|[_ ?]]%lookup_insert_Some; [|by apply P]. intros _. split_and!; simpl; [done|constructor|lia].
  - intros a' Hc. destruct (po_closing _ _ _ _ P a' Hc) as (o' & Ho & Hr). exists o'.
    rw lookup_insert_ne; [done|]. intros <-. congruence.
  - intros w p. rw Ew Er. apply P.
  - intros w p. rw Eg Em. apply P.
  - intros a' b'. rw point_insert. case_decide; [|intros; eapply good_buf_put; [by eapply P|done]].
    rw HX /=. intros [= <-]. exists v, cap, q. by rw lookup_insert_eq.
  - intros a1 a2 b'. rw !point_insert HX /=. repeat case_decide; subst; naive_solver eauto using po_owner.
  - rw -Permutation_cons_append. constructor; [|apply P]. rw (po_list _ _ _ _ P) /point Ha. by intros [].
  - intros w. rw elem_of_app list_elem_of_singleton (po_list _ _ _ _ P) point_insert. case_decide; naive_solver.
  - intros w w' n'. rw !point_insert HX /=. repeat case_decide; subst; naive_solver eauto using po_names.
Qed.

Lemma closing_not_write X os bs wl w wp : ports_ok X os bs wl → os !! w = Some (WritePort wp) → X !! w = None.
Proof.
  intros P Hw. destruct (X !! w) as [x|] eqn:E; [|done]. destruct (po_closing _ _ _ _ P w) as (o & ? & ? & _); [by rw E|].
  by simplify_eq.
Qed.

(** Closes goals about links from facts in the context; [H] is the invariant. *)
Ltac links := repeat case_decide; subst; naive_solver eauto using po_owner, po_names.

(** A read port opened on [w], with the buffer of [w] or a new one *)
Lemma ports_ok_open X os bs wl a w wp b ctx :
  ports_ok X os bs wl → os !! a = None → X !! a = None → os !! w = Some (WritePort wp) → good_buf bs b →
  wp_buf wp = Some b ∨ wp_buf wp = None ∧ (∀ a', buf_of X os a' ≠ Some b) ∧ Z.land (wp_mode wp) PORT_MODE_UNICAST = 0 →
  ports_ok X (<[a := ReadPort (RPort (Some b) ctx (Some w) None)]>
    (<[w := WritePort (set_wp_buf None (set_wp_rp_list (wp_rp_list wp ++ [a]) wp))]> os)) bs wl.
Proof.
  intros P Ha HX Hw Hg Hb. set (o := ReadPort _). set (o' := WritePort _).
  assert (X !! w = None) as HXw by by eapply closing_not_write.
  assert (w ≠ a) as Hne by congruence.
  assert (∀ w', wport_of X os a ≠ Some w') as Hna by (by rw /point Ha).
  destruct (po_obj _ _ _ _ P w _ Hw HXw) as (Hbl & Hnd & Hun).
  assert (wport_of X os w = None) as Hww by by rw /point HXw Hw.
  assert (readers_of X os w = wp_rp_list wp) as Hrw by by rw /point HXw Hw.
  assert (readers_of X os a = []) as Hra by by rw /point Ha.
  assert (buf_of X os w = wp_buf wp) as Hbw by by rw /point HXw Hw.
  split.
  - intros a' o1 [[<- <-]|[_ [[<- <-]|[_ ?]]%lookup_insert_Some]]%lookup_insert_Some; [by exists b| |by apply P].
    intros _. split_and!; simpl.
    + split; [by destruct (wp_rp_list wp)|done].
    + rw -Permutation_cons_append. constructor; [|done]. rw -Hrw (po_readers _ _ _ _ P). apply Hna.
    + rw length_app /=. intros Hm. destruct Hb as [Hb|(_ & _ & ?)]; [|done]. destruct (wp_rp_list wp) as [|y l0]; [simpl; lia|].
      exfalso. assert (wp_buf wp = None) as En by by apply Hbl. congruence.
  - intros a' Hc. destruct (po_closing _ _ _ _ P a' Hc) as (o1 & Ho & Hr). exists o1.
    rw !lookup_insert_ne //; intros <-; destruct Hc; congruence.
  - intros w' p. pose proof (po_readers _ _ _ _ P w' p) as Hr. pose proof (Hna w').
    rw !point_insert HX HXw /=. repeat case_decide; subst; rewrite ?elem_of_app ?list_elem_of_singleton ?elem_of_nil;
      rewrite ?Hww ?Hrw ?Hra ?elem_of_nil in Hr; naive_solver.
  - intros g p. pose proof (po_members _ _ _ _ P g p) as Hm.
    assert (gport_of X os a = None) as G1 by by rw /point Ha. assert (gport_of X os w = None) as G2 by by rw /point HXw Hw.
    assert (members_of X os a = []) as M1 by by rw /point Ha. assert (members_of X os w = []) as M2 by by rw /point HXw Hw.
    rw !point_insert HX HXw /=. repeat case_decide; subst; rewrite ?elem_of_nil; rewrite ?G1 ?G2 ?M1 ?M2 ?elem_of_nil in Hm; naive_solver.
  - intros a' b'. rw !point_insert HX HXw /=. case_decide; [by intros [= <-]|]. case_decide; [done|]. apply P.
  - intros a1 a2 b'. pose proof (po_owner _ _ _ _ P a1 a2 b') as Ho. pose proof (po_owner _ _ _ _ P a1 w b') as Ho1. pose proof (po_owner _ _ _ _ P w a2 b') as Ho2.
    rw !point_insert HX HXw /=. rw Hbw in Ho1, Ho2. clear -Ho Ho1 Ho2 Hb. repeat case_decide; subst; naive_solver.
  - apply P.
  - intros w'. rw (po_list _ _ _ _ P) !point_insert HX HXw /=. repeat case_decide; subst; rw ?/point ?Ha ?Hw; naive_solver.
  - intros w1 w2 n. assert (∀ w1, point name1 X (<[a:=o]> (<[w:=o']> os)) w1 = name_of X os w1) as En.
    { intros w3. rw !point_insert. repeat case_decide; subst; by rw /point ?HX ?Ha ?HXw ?Hw. }
    rw !En. apply P.
Qed.

(** An object with the same links *)
Lemma ports_ok_same X os bs wl a o :
  ports_ok X os bs wl → X !! a = None → obj_ok o →
  wport_of X os a = wport1 None (Some o) → gport_of X os a = gport1 None (Some o) →
  readers_of X os a = readers1 None (Some o) → members_of X os a = members1 None (Some o) →
  buf_of X os a = buf1 None (Some o) → name_of X os a = name1 None (Some o) →
  ports_ok X (<[a := o]> os) bs wl.
Proof.
  intros P HX Hok E1 E2 E3 E4 E5 E6.
  assert (∀ A (f : _ → _ → A) p, point f X os a = f None (Some o) → point f X (<[a := o]> os) p = point f X os p) as Es.
  { intros A f p E. apply point_same. by rw HX E. }
  split.
  - intros a' o' [[<- <-]|[_ ?]]%lookup_insert_Some; [done|by apply P].
  - intros a' Hc. destruct (po_closing _ _ _ _ P a' Hc) as (o' & Ho & Hr). exists o'.
    rw lookup_insert_ne; [done|]. intros <-. destruct Hc; congruence.
  - intros w p. rw !Es //. apply P.
  - intros w p. rw !Es //. apply P.
  - intros a' b. rw !Es //. apply P.
  - intros a1 a2 b. rw !Es //. apply P.
  - apply P.
  - intros w. rw !Es //. apply P.
  - intros w w' n. rw !Es //. apply P.
Qed.

Lemma ports_ok_new_group X os bs wl g :
  ports_ok X os bs wl → os !! g = None → X !! g = None → ports_ok X (<[g := PortGroup (PGroup [])]> os) bs wl.
Proof. intros P Hg HX. apply ports_ok_same; try done; [constructor|..]; by rw /point HX Hg. Qed.

Lemma ports_ok_close_write X os bs wl w wp m :
  ports_ok X os bs wl → os !! w = Some (WritePort wp) → ports_ok X (<[w := WritePort (set_wp_magic m wp)]> os) bs wl.
Proof.
  intros P Hw. assert (X !! w = None) as HX by by eapply closing_not_write.
  apply ports_ok_same; try done; [apply (po_obj _ _ _ _ P _ _ Hw HX)|..]; by rw /point HX Hw.
Qed.

(** The read port [p] joins the group [g]. *)
Lemma ports_ok_link X os bs wl g pg p rp :
  ports_ok X os bs wl → os !! g = Some (PortGroup pg) → X !! g = None → os !! p = Some (ReadPort rp) → X !! p = None →
  rp_gport rp = None →
  ports_ok X (<[g := PortGroup (PGroup (pg_rp_list pg ++ [p]))]> (<[p := ReadPort (set_rp_gport (Some g) rp)]> os)) bs wl.
Proof.
  intros P Hg HXg Hp HX Hn. set (o := PortGroup _). set (o' := ReadPort _). assert (g ≠ p) as Hne by congruence.
  assert (gport_of X os p = None) as G1 by by rw /point HX Hp. assert (gport_of X os g = None) as G2 by by rw /point HXg Hg.
  assert (members_of X os p = []) as M1 by by rw /point HX Hp.
  assert (members_of X os g = pg_rp_list pg) as M2 by by rw /point HXg Hg.
  assert (∀ A (f : _ → _ → A) a, f None (Some o') = f None (Some (ReadPort rp)) → f None (Some o) = f None (Some (PortGroup pg)) →
    point f X (<[g := o]> (<[p := o']> os)) a = point f X os a) as Es.
  { intros A f a E1 E2. rw !point_insert HX HXg. repeat case_decide; subst; rw /point ?HX ?HXg ?Hg ?Hp //. }
  split.
  - intros a' o1 [[<- <-]|[_ [[<- <-]|[_ ?]]%lookup_insert_Some]]%lookup_insert_Some; intros HXa; [| |by eapply (po_obj _ _ _ _ P)].
    + rw /= -Permutation_cons_append. constructor; [|apply (po_obj _ _ _ _ P _ _ Hg HXg)].
      rw -M2 (po_members _ _ _ _ P) G1. done.
    + apply (po_obj _ _ _ _ P _ _ Hp HX).
  - intros a' Hc. destruct (po_closing _ _ _ _ P a' Hc) as (o1 & Ho & Hr). exists o1.
    rw !lookup_insert_ne //; intros <-; destruct Hc; congruence.
  - intros w q. rw !Es //. apply P.
  - intros g' q. pose proof (po_members _ _ _ _ P g' q) as Hm. rw !point_insert HX HXg /=. clear -Hm G1 G2 M1 M2 Hne.
    repeat case_decide; subst; rewrite ?elem_of_app ?list_elem_of_singleton ?elem_of_nil;
      rewrite ?G1 ?G2 ?M1 ?M2 ?elem_of_nil in Hm; naive_solver.
  - intros a' b. rw !Es //. apply P.
  - intros a1 a2 b. rw !Es //. apply P.
  - apply P.
  - intros w. rw !Es //. apply P.
  - intros w w' n. rw !Es //. apply P.
Qed.

(** ** Leaving *)

Definition clear_gport (o : port_obj) : port_obj :=
  match o with ReadPort rp => ReadPort (set_rp_gport None rp) | _ => o end.

Definition clear_wport (o : port_obj) : port_obj :=
  match o with ReadPort rp => ReadPort (set_rp_wport None rp) | _ => o end.

(** [os'] is [os] without [a], the objects of [l] updated by [f]. *)
Definition removed (a : positive) (l : list positive) (f : port_obj → port_obj) (os os' : heap) : Prop :=
  ∀ c, os' !! c = if decide (c = a) then None else if decide (c ∈ l) then f <$> os !! c else os !! c.

(** The group [g] goes away. *)
Lemma ports_ok_ungroup X os os' bs wl g pg :
  ports_ok X os bs wl → os !! g = Some (PortGroup pg) → removed g (pg_rp_list pg) clear_gport os os' →
  ports_ok (delete g X) os' bs wl.
Proof.
  intros P Hg Hos'.
  assert (X !! g = None ∨ X !! g = Some None) as HXg.
  { destruct (X !! g) as [x|] eqn:E; [|by left]. right.
    destruct (po_closing _ _ _ _ P g) as (o & ? & _ & [?|[_ ?]]); [by rw E|by simplify_eq|congruence]. }
  assert (∀ A (f : _ → _ → A) a, f None None = f (X !! g) (Some (PortGroup pg)) →
    (∀ x rp, f x (Some (ReadPort (set_rp_gport None rp))) = f x (Some (ReadPort rp))) →
    point f (delete g X) os' a = point f X os a) as Es.
  { intros A f a E1 E2. rw /point Hos' lookup_delete. repeat case_decide; subst; try done; [by rw Hg|].
    by destruct (os !! a) as [[| |]|]; simpl. }
  assert (∀ a, members_of (delete g X) os' a = if decide (a = g) then [] else members_of X os a) as Em.
  { intros a. rw /point Hos' lookup_delete. repeat case_decide; subst; try done. by destruct (os !! a) as [[| |]|]. }
  assert (∀ a, gport_of (delete g X) os' a = if decide (a ∈ pg_rp_list pg) then None else gport_of X os a) as Eg.
  { intros a. rw /point Hos' lookup_delete. repeat case_decide; subst; try done; [by rw Hg|].
    destruct (os !! a) as [[| |]|], (X !! a); by simpl. }
  assert (members_of X os g = pg_rp_list pg) as M by by rw /point Hg.
  assert (buf1 None None = buf1 (X !! g) (Some (PortGroup pg))) as Eb by by destruct HXg as [-> | ->].
  split.
  - intros a o Ho HX. rw Hos' in Ho. case_decide; [done|]. rw lookup_delete_ne // in HX. case_decide; [|by eapply P].
    destruct (os !! a) as [o0|] eqn:E; [|done]. simplify_eq/=. pose proof (po_obj _ _ _ _ P _ _ E HX). by destruct o0.
  - intros a Hc. destruct (decide (a = g)) as [->|Hne]; [by rw lookup_delete_eq in Hc; destruct Hc|].
    rw lookup_delete_ne // in Hc |- *. destruct (po_closing _ _ _ _ P a Hc) as (o & Ho & Hr). rw Hos' decide_False // Ho.
    case_decide; [|by exists o]. exists (clear_gport o). split; [done|]. by destruct o.
  - intros w p. rw !Es //. apply P.
  - intros g' p. pose proof (po_members _ _ _ _ P g' p) as Hm. pose proof (po_members _ _ _ _ P g p) as Hm'.
    rw Em Eg. rw M in Hm'. clear -Hm Hm'. repeat case_decide; subst; rewrite ?elem_of_nil; naive_solver.
  - intros a b. rw !Es //. apply P.
  - intros a1 a2 b. rw !Es //. apply P.
  - apply P.
  - intros w. rw !Es //. apply P.
  - intros w w' n. rw !Es //. apply P.
Qed.

(** The write port [w] goes away. *)
Lemma ports_ok_destroy X os os' bs bs' wl w wp :
  ports_ok X os bs wl → os !! w = Some (WritePort wp) → removed w (wp_rp_list wp) clear_wport os os' →
  (∀ b, wp_buf wp ≠ Some b → bs' !! b = bs !! b) →
  ports_ok X os' bs' (list_without w wl).
Proof.
  intros P Hw Hos' Hbs. assert (X !! w = None) as HXw by by eapply closing_not_write.
  assert (∀ A (f : _ → _ → A) a, f None None = f None (Some (WritePort wp)) →
    (∀ x rp, f x (Some (ReadPort (set_rp_wport None rp))) = f x (Some (ReadPort rp))) →
    point f X os' a = point f X os a) as Es.
  { intros A f a E1 E2. rw /point Hos'. repeat case_decide; subst; try done; [by rw HXw Hw|].
    by destruct (os !! a) as [[| |]|]; simpl. }
  assert (∀ A (f : _ → _ → A) a, (∀ x rp, f x (Some (ReadPort (set_rp_wport None rp))) = f x (Some (ReadPort rp))) →
    point f X os' a = if decide (a = w) then f None None else point f X os a) as Ew.
  { intros A f a E. rw /point Hos'. repeat case_decide; subst; try done; [by rw HXw|]. by destruct (os !! a) as [[| |]|]; simpl. }
  assert (∀ a, wport_of X os' a = if decide (a ∈ wp_rp_list wp) then None else wport_of X os a) as Eg.
  { intros a. rw /point Hos'. repeat case_decide; subst; try done; [by rw Hw|].
    destruct (os !! a) as [[| |]|], (X !! a); by simpl. }
  assert (readers_of X os w = wp_rp_list wp) as M by by rw /point Hw.
  assert (buf_of X os w = wp_buf wp) as Hbw by by rw /point HXw Hw.
  split.
  - intros a o Ho HX. rw Hos' in Ho. case_decide; [done|]. case_decide; [|by eapply P].
    destruct (os !! a) as [o0|] eqn:E; [|done]. simplify_eq/=. pose proof (po_obj _ _ _ _ P _ _ E HX). by destruct o0.
  - intros a Hc. destruct (decide (a = w)) as [->|Hne]; [rw HXw in Hc; by destruct Hc|].
    destruct (po_closing _ _ _ _ P a Hc) as (o & Ho & Hr). rw Hos' decide_False // Ho.
    case_decide; [|by exists o]. exists (clear_wport o). split; [done|]. by destruct o.
  - intros w' p. pose proof (po_readers _ _ _ _ P w' p) as Hm. pose proof (po_readers _ _ _ _ P w p) as Hm'.
    rw Ew // Eg. rw M in Hm'. clear -Hm Hm'. repeat case_decide; subst; rewrite ?elem_of_nil; naive_solver.
  - intros g p. rw !Es //. apply P.
  - intros a b. rw Ew //. case_decide; [done|]. intros Hb. destruct (po_good _ _ _ _ P _ _ Hb) as (v & cap & q & ? & ?).
    exists v, cap, q. rw Hbs //. intros Eb. rw -Hbw in Eb. by pose proof (po_owner _ _ _ _ P _ _ _ Eb Hb).
  - intros a1 a2 b. rw !Ew //. repeat case_decide; try done. apply P.
  - apply list_without_nodup, P.
  - intros a. rw list_without_elem (po_list _ _ _ _ P) Ew //. case_decide; naive_solver.
  - intros a1 a2 n. rw !Ew //. repeat case_decide; try done. apply P.
Qed.

(** The read port [p] leaves its group. *)
Lemma ports_ok_leave_group X os bs wl p rp :
  ports_ok X os bs wl → os !! p = Some (ReadPort rp) → X !! p = None →
  ports_ok X (<[p := ReadPort (set_rp_gport None rp)]> (out_of_group p <$> os)) bs wl.
Proof.
  intros P Hp HX. set (os' := <[p := _]> _).
  assert (∀ A (f : _ → _ → A) a, (∀ x rp, f x (Some (ReadPort (set_rp_gport None rp))) = f x (Some (ReadPort rp))) →
    (∀ x pg l, f x (Some (PortGroup pg)) = f x (Some (PortGroup (PGroup l)))) → point f X os' a = point f X os a) as Es.
  { intros A f a E1 E2. rw /os' point_insert. case_decide; subst; rw /point ?E1 ?Hp //. rw lookup_fmap.
    by destruct (os !! a) as [[| |]|]; simpl. }
  assert (∀ a, members_of X os' a = list_without p (members_of X os a)) as Em.
  { intros a. rw /os' point_insert. case_decide; subst; [by rw /point Hp|]. rw /point lookup_fmap.
    by destruct (os !! a) as [[| |]|]. }
  assert (∀ a, gport_of X os' a = if decide (a = p) then None else gport_of X os a) as Eg.
  { intros a. rw /os' point_insert HX /=. repeat case_decide; subst; try done. rw /point lookup_fmap.
    by destruct (os !! a) as [[| |]|], (X !! a). }
  split.
  - intros a o [[<- <-]|[_ Ho]]%lookup_insert_Some Ha; [apply (po_obj _ _ _ _ P _ _ Hp HX)|].
    rw lookup_fmap in Ho. destruct (os !! a) as [o0|] eqn:E; [|done]. simplify_eq/=.
    pose proof (po_obj _ _ _ _ P _ _ E Ha) as Hok. destruct o0; try done. by apply list_without_nodup.
  - intros a Hc. assert (a ≠ p) as Hne by (intros ->; rw HX in Hc; by destruct Hc).
    destruct (po_closing _ _ _ _ P a Hc) as (o & Ho & Hr & Hg). exists (out_of_group p o).
    rw lookup_insert_ne // lookup_fmap Ho. split; [done|]. destruct o; try done.
    split; [done|]. destruct Hg as [?|[Hok ?]]; [done|]. right. split; [|done]. by apply list_without_nodup.
  - intros w q. rw !Es //. apply P.
  - intros g q. rw Em Eg list_without_elem (po_members _ _ _ _ P). case_decide; naive_solver.
  - intros a b. rw !Es //. apply P.
  - intros a1 a2 b. rw !Es //. apply P.
  - apply P.
  - intros w. rw !Es //. apply P.
  - intros w w' n. rw !Es //. apply P.
Qed.

(** The read port [p] leaves its write port; the last one gives its buffer back
    and then owns none. *)
Lemma ports_ok_leave_wport X os bs wl p rp w wp b :
  ports_ok X os bs wl → os !! p = Some (ReadPort rp) → X !! p = None → rp_gport rp = None → rp_buf rp = Some b →
  rp_wport rp = Some w → os !! w = Some (WritePort wp) →
  let l := list_without p (wp_rp_list wp) in
  ports_ok (<[p := if decide (l = []) then None else Some b]> X)
    (<[w := WritePort (set_wp_buf (if decide (l = []) then Some b else None) (set_wp_rp_list l wp))]> os) bs wl.
Proof.
  intros P Hp HX Hg Hb Hw Hwp l. set (x := if decide (l = []) then None else Some b). set (o := WritePort _).
  assert (X !! w = None) as HXw by by eapply closing_not_write.
  assert (w ≠ p) as Hne by congruence. set (X' := <[p := x]> X). set (os' := <[w := o]> os).
  assert (∀ A (f : _ → _ → A) a, point f X' os' a =
    if decide (a = w) then f None (Some o) else if decide (a = p) then f (Some x) (Some (ReadPort rp)) else point f X os a) as Ep.
  { intros A f a. rw /point /X' /os'. destruct (decide (a = w)) as [->|]; [by rw lookup_insert_ne // lookup_insert_eq HXw|].
    rw (lookup_insert_ne os) //. case_decide; subst; [by rw lookup_insert_eq Hp|by rw lookup_insert_ne]. }
  destruct (po_obj _ _ _ _ P _ _ Hwp HXw) as (Hbl & Hnd & Hun).
  assert (wport_of X os w = None) as Hww by by rw /point HXw Hwp.
  assert (wport_of X os p = Some w) as Hwp' by by rw /point HX Hp.
  assert (readers_of X os w = wp_rp_list wp) as Hrw by by rw /point HXw Hwp.
  assert (readers_of X os p = []) as Hrp by by rw /point HX Hp.
  assert (p ∈ wp_rp_list wp) as Hin by by rw -Hrw (po_readers _ _ _ _ P).
  assert (wp_buf wp = None) as Hnb by (apply Hbl; intros E; rw E in Hin; by apply not_elem_of_nil in Hin).
  assert (buf_of X os p = Some b) as Hbp by by rw /point HX Hp.
  assert (∀ A (f : _ → _ → A) a, f None (Some o) = f None (Some (WritePort wp)) →
    f (Some x) (Some (ReadPort rp)) = f None (Some (ReadPort rp)) → point f X' os' a = point f X os a) as Es.
  { intros A f a E1 E2. rw Ep. repeat case_decide; subst; rw /point ?HX ?HXw ?Hwp ?Hp //. }
  split.
  - intros a o1 [[<- <-]|[Ha Ho]]%lookup_insert_Some HXa.
    + split_and!; simpl; [case_decide; naive_solver|by apply list_without_nodup|].
      intros Hm. specialize (Hun Hm). rw /l /list_without. etrans; [apply length_filter|done].
    + apply lookup_insert_None in HXa as [? _]. by apply (po_obj _ _ _ _ P _ _ Ho).
  - intros a. rw /X' lookup_insert. case_decide as E; subst; intros Hc.
    + exists (ReadPort rp). rw lookup_insert_ne //. split_and!; [done..|by left].
    + destruct (po_closing _ _ _ _ P a Hc) as (o1 & Ho & Hr). exists o1. rw lookup_insert_ne //. intros <-. by rw HXw in Hc; destruct Hc.
  - intros w' q. pose proof (po_readers _ _ _ _ P w' q) as Hr. rw !Ep /=. clear -Hr Hww Hwp' Hrw Hrp Hne.
    repeat case_decide; subst; rewrite ?list_without_elem ?elem_of_nil; rewrite ?Hww ?Hwp' ?Hrw ?Hrp ?elem_of_nil in Hr; naive_solver.
  - intros g q. rw !Es //; apply P.
  - intros a b'. rw Ep /= /x. repeat case_decide; subst; try done; [|intros [= <-]; by apply (po_good _ _ _ _ P p)|by apply P].
    intros [= <-]. by apply (po_good _ _ _ _ P p).
  - intros a1 a2 b'. pose proof (po_owner _ _ _ _ P a1 a2 b') as Ho. pose proof (po_owner _ _ _ _ P a1 p b') as Ho1.
    pose proof (po_owner _ _ _ _ P p a2 b') as Ho2. rw Hbp in Ho1, Ho2. rw !Ep /= /x.
    clear -Ho Ho1 Ho2. repeat case_decide; subst; naive_solver.
  - apply P.
  - intros a. rw !Es //. apply P.
  - intros a1 a2 n. rw !Es //. apply P.
Qed.

(** A read port whose write port is gone starts to close: its buffer is not freed. *)
Lemma ports_ok_close_detached X os bs wl p rp :
  ports_ok X os bs wl → os !! p = Some (ReadPort rp) → X !! p = None → rp_gport rp = None → rp_wport rp = None →
  ports_ok (<[p := None]> X) os bs wl.
Proof.
  intros P Hp HX Hg Hw.
  assert (∀ A (f : _ → _ → A) a, f (Some None) (Some (ReadPort rp)) = f None (Some (ReadPort rp)) →
    point f (<[p := None]> X) os a = point f X os a) as Es.
  { intros A f a E. rw /point lookup_insert. case_decide; subst; [by rw Hp HX|done]. }
  assert (∀ a, buf_of (<[p := None]> X) os a = if decide (p = a) then None else buf_of X os a) as Eb.
  { intros a. rw /point lookup_insert. by case_decide. }
  split.
  - intros a o Ho [? _]%lookup_insert_None. by eapply P.
  - intros a. rw lookup_insert. case_decide; subst; intros Hc; [|by apply P].
    exists (ReadPort rp). split_and!; [done..|by left].
  - intros w q. rw !Es //; apply P.
  - intros g q. rw !Es //; apply P.
  - intros a b. rw Eb. case_decide; [done|]. apply P.
  - intros a1 a2 b. rw !Eb. repeat case_decide; try done. apply P.
  - apply P.
  - intros w. rw !Es //. apply P.
  - intros w w' n. rw !Es //. apply P.
Qed.

(** The fields of a read port that is closing do not matter. *)
Lemma ports_ok_closing_obj X os bs wl p x rp rp' :
  ports_ok X os bs wl → X !! p = Some x → os !! p = Some (ReadPort rp) → ports_ok X (<[p := ReadPort rp']> os) bs wl.
Proof.
  intros P HX Hp.
  assert (∀ A (f : _ → _ → A) a, f (Some x) (Some (ReadPort rp')) = f (Some x) (Some (ReadPort rp)) →
    point f X (<[p := ReadPort rp']> os) a = point f X os a) as Es.
  { intros A f a E. apply point_same. by rw /point HX Hp. }
  split.
  - intros a o [[<- <-]|[_ ?]]%lookup_insert_Some Ha; [congruence|by eapply P].
  - intros a Hc. destruct (po_closing _ _ _ _ P a Hc) as (o & Ho & Hr). rw lookup_insert. case_decide; subst; [|by exists o].
    exists (ReadPort rp'). split_and!; [done..|by left].
  - intros w q. rw !Es //. apply P.
  - intros g q. rw !Es //. apply P.
  - intros a b. rw !Es //. apply P.
  - intros a1 a2 b. rw !Es //. apply P.
  - apply P.
  - intros w. rw !Es //. apply P.
  - intros w w' n. rw !Es //. apply P.
Qed.

(** A read port is gone, and its buffer with it. *)
Lemma ports_ok_closed X os bs bs' wl p x rp :
  ports_ok X os bs wl → X !! p = Some x → os !! p = Some (ReadPort rp) → (∀ b, x ≠ Some b → bs' !! b = bs !! b) →
  ports_ok (delete p X) (delete p os) bs' wl.
Proof.
  intros P HX Hp Hbs. assert (buf_of X os p = x) as Hb by by rw /point HX.
  assert (∀ A (f : _ → _ → A) a, f None None = f (Some x) (Some (ReadPort rp)) →
    point f (delete p X) (delete p os) a = point f X os a) as Es.
  { intros A f a E. rw /point. destruct (decide (p = a)) as [<-|Hne]; [by rw !lookup_delete_eq HX Hp|by rw !lookup_delete_ne]. }
  assert (∀ a, buf_of (delete p X) (delete p os) a = if decide (p = a) then None else buf_of X os a) as Eb.
  { intros a. rw /point. case_decide; subst; [by rw !lookup_delete_eq|by rw !lookup_delete_ne]. }
  split.
  - intros a o [Hne Ho]%lookup_delete_Some Ha. rw lookup_delete_ne // in Ha. by eapply P.
  - intros a Hc. destruct (decide (p = a)) as [<-|Hne]; [rw lookup_delete_eq in Hc; by destruct Hc|].
    rw lookup_delete_ne // in Hc |- *. rw lookup_delete_ne //. by apply P.
  - intros w q. rw !Es //. apply P.
  - intros g q. rw !Es //. apply P.
  - intros a b. rw Eb. case_decide as E; [done|]. intros Ha. destruct (po_good _ _ _ _ P _ _ Ha) as (v & cap & q & ? & ?).
    exists v, cap, q. rw Hbs //. intros ->. apply E. by eapply P.
  - intros a1 a2 b. rw !Eb. repeat case_decide; try done. apply P.
  - apply P.
  - intros w. rw !Es //. apply P.
  - intros w w' n. rw !Es //. apply P.
Qed.

(** A port that is in no group is not changed by leaving one. *)
Lemma out_of_group_id (os : heap) p :
  (∀ g pg, os !! g = Some (PortGroup pg) → p ∉ pg_rp_list pg) → out_of_group p <$> os = os.
Proof.
  intros Hg. apply map_eq. intros a. rw lookup_fmap. destruct (os !! a) as [[| |[l]]|] eqn:E; try done. simpl.
  rw list_without_id //. by apply (Hg a (PGroup l)).
Qed.

(** Where [list_delete] finds the node of a port in a group *)
Lemma gport_linked (os : heap) p g pg :
  os !! g = Some (PortGroup pg) → p ∈ pg_rp_list pg → existsb (λ kv, in_group p kv.2) (map_to_list os) = true.
Proof.
  intros Hg Hp. apply existsb_exists. exists (g, PortGroup pg). split; [|by apply bool_decide_eq_true_2].
  by apply list_elem_of_In, elem_of_map_to_list.
Qed.
