(* ===== verification/PortSafe.v ===== *)
(** * Every port call is safe

    The invariant of [PortInv] together with that of the scheduler, and the
    proof that each function of [port.c] completes and keeps it. *)

From S2P Require Import Prelude Kernel Timer Thread SchedInv KernelInv SchedOps ThreadLife System SchedRun Bits Ring Port PortBuf PortInv.

Record ports_inv (X : closing) (s : ports) : Prop := {
  pi_kinv : kinv ∅ ∅ (pk s);
  pi_ok : ports_ok X (objs s) (bufs s) (write_port_list s);
  pi_wq a o : objs s !! a = Some o → as_write o = None → valid_wq (pk s) (ObjWq a);
  pi_idle a wq : is_Some (X !! a) → wait_queues (pk s) !! ObjWq a = Some wq → wq_list wq = []
}.

Lemma wp_sched {A} (m : K A) (Q : A → ports → Prop) s :
  wp m (λ a k, Q a (set_pk k s)) (pk s) → wp (sched m) Q s.
Proof. rw /wp /sched. by destruct (m (pk s)) as [[a k]|]. Qed.

(** The kernel has moved on; at most the wait queue of [c] has changed. *)
Lemma pi_step X s k' c :
  ports_inv X s → kinv ∅ ∅ k' → (∀ w, w ≠ ObjWq c → wait_queues k' !! w = wait_queues (pk s) !! w) →
  valid_wq k' (ObjWq c) → X !! c = None → ports_inv X (set_pk k' s).
Proof.
  intros [Hk Ho Hw Hi] I Hsame Hv HX. split; simpl; try done.
  - intros a o Ha Hn. destruct (decide (a = c)) as [->|Hne]; [done|].
    destruct (Hw a o Ha Hn) as (wq & ? & ?). exists wq. rw Hsame //. by intros [= ->].
  - intros a wq Hc. destruct (decide (a = c)) as [->|Hne]; [rw HX in Hc; by destruct Hc|].
    rw Hsame; [by apply Hi|]. by intros [= ->].
Qed.

Lemma pi_frame X s k' :
  ports_inv X s → kinv ∅ ∅ k' → wait_queues k' = wait_queues (pk s) → ports_inv X (set_pk k' s).
Proof. intros [Hk Ho Hw Hi] I Hsame. split; simpl; try done; by rw /valid_wq Hsame. Qed.

Lemma pi_unlock X s b : ports_inv X s → ports_inv X (set_pk (set_thread_lock b (pk s)) s).
Proof. intros P. pose proof (pi_kinv _ _ P). apply pi_frame; [done|kinv_frame|done]. Qed.

Lemma pi_objs X s os bs wl X' :
  ports_inv X s → ports_ok X' os bs wl →
  (∀ a o, os !! a = Some o → as_write o = None → ∃ o', objs s !! a = Some o' ∧ as_write o' = None) →
  (∀ a, is_Some (X' !! a) → is_Some (X !! a)) →
  ports_inv X' (Ports (pk s) os bs wl (results s)).
Proof.
  intros [Hk Ho Hw Hi] P Hos HX. split; simpl; try done.
  - intros a o Ha Hn. destruct (Hos a o Ha Hn) as (o' & ? & ?). by eapply Hw.
  - intros a wq Hc. by apply Hi, HX.
Qed.

(** ** Creating and opening *)

Lemma find_port_spec (os : heap) name l :
  (∀ w, w ∈ l → is_Some (name_of ∅ os w)) →
  ∃ r, find_port os name l = Some r ∧
    match r with
    | Some w => w ∈ l ∧ ∃ wp, os !! w = Some (WritePort wp) ∧ wp_name wp = name
    | None => ∀ w, w ∈ l → name_of ∅ os w ≠ Some name
    end.
Proof.
  induction l as [|a l IH]; intros Hl; [exists None; split; [done|set_solver]|].
  destruct IH as (r & Hr & Hpost); [set_solver|]. destruct (Hl a) as [n Hn]; [set_solver|]. cbn [find_port].
  rw /point in Hn. destruct (os !! a) as [[wp| |]|] eqn:E; try done. cbn [mbind option_bind as_write].
  case_bool_decide as En.
  - exists (Some a). split; [done|]. split; [set_solver|]. by exists wp.
  - exists r. split; [done|]. destruct r as [w|]; [destruct Hpost; set_solver|].
    intros w [->|Hw]%elem_of_cons; [rw /point E /=; congruence|by apply Hpost].
Qed.

Lemma wp_lookup_port X s name (Q : option positive → ports → Prop) :
  (∀ w, w ∈ write_port_list s ↔ is_Some (name_of X (objs s) w)) →
  (∀ w wp, objs s !! w = Some (WritePort wp) → wp_name wp = name → Q (Some w) s) →
  ((∀ w, name_of X (objs s) w ≠ Some name) → Q None s) →
  wp (lookup_port name) Q s.
Proof.
  intros Hl HQ1 HQ2.
  destruct (find_port_spec (objs s) name (write_port_list s)) as (r & Hr & Hpost); [intros w; by apply Hl|].
  eapply wp_deref; [done|]. destruct r as [w|].
  - destruct Hpost as (_ & wp & ? & ?). by eapply HQ1.
  - apply HQ2. intros w Hw. apply (Hpost w); [|done]. apply Hl. by rw Hw.
Qed.

Lemma fresh_unowned X os bs wl a b : ports_ok X os bs wl → bs !! b = None → buf_of X os a ≠ Some b.
Proof. intros P Hb Ha. destruct (po_good _ _ _ _ P _ _ Ha) as (v & cap & q & ? & _). congruence. Qed.

Lemma fresh_not_closing X os bs wl a : ports_ok X os bs wl → os !! a = None → X !! a = None.
Proof.
  intros P Ha. destruct (X !! a) as [x|] eqn:E; [|done]. destruct (po_closing _ _ _ _ P a) as (o & ? & _); [by rw E|congruence].
Qed.

Lemma port_create_safe X s mem bmem name mode port :
  ports_inv X s → thread_lock (pk s) = false →
  (∀ a, mem = Some a → objs s !! a = None) → (∀ b, bmem = Some b → bufs s !! b = None) →
  wp (port_create mem bmem name mode port) (λ _ s', ports_inv X s' ∧ thread_lock (pk s') = false) s.
Proof.
  intros P Hl Hm Hb. destruct name as [name|]; [|by apply wp_ret]. simpl.
  apply wp_if; intros _; [by apply wp_ret|]. apply wp_if; intros _; [by apply wp_ret|].
  apply wp_if; intros _; [by apply wp_ret|].
  apply wp_bind, wp_sched, wp_thread_lock; [done|]. apply wp_bind.
  pose proof (pi_unlock _ _ true P) as P1. pose proof (pi_unlock _ _ false P) as P0.
  eapply (wp_lookup_port X); [apply (pi_ok _ _ P)| |]; simpl.
  { intros w wp Hw _. apply wp_bind. eapply wp_deref; [by rw /= Hw|]. apply wp_bind, wp_sched, wp_modify, wp_ret.
    split; [apply P0|done]. }
  intros Hn. apply wp_bind, wp_sched, wp_modify. destruct mem as [a|]; [|by apply wp_ret].
  destruct bmem as [b|]; [|by apply wp_bind, wp_ret, wp_ret]. apply wp_bind, wp_bind, wp_modify, wp_ret.
  apply wp_bind, wp_modify, wp_bind, wp_sched, wp_thread_lock; [done|].
  apply wp_bind, wp_modify, wp_bind, wp_sched, wp_modify, wp_ret. split; [|done].
  pose proof (pi_ok _ _ P) as Po. specialize (Hm _ eq_refl). specialize (Hb _ eq_refl).
  eapply (pi_objs X (set_pk (set_thread_lock false (pk s)) s)); [done| | |done].
  - destruct (negb _).
    + eapply (ports_ok_create _ _ _ _ _ _ _ _ _ _ []); try done; [by eapply fresh_not_closing| |apply (new_buf_repr true)].
      intros a'. by eapply fresh_unowned.
    + eapply (ports_ok_create _ _ _ _ _ _ _ _ _ _ []); try done; [by eapply fresh_not_closing| |apply (new_buf_repr false)].
      intros a'. by eapply fresh_unowned.
  - simpl. intros a' o [[<- <-]|[_ ?]]%lookup_insert_Some; [done|]. eauto.
Qed.

Lemma insert_3 {V} (m : gmap positive V) (a w : positive) (x y z : V) :
  a ≠ w → <[a := x]> (<[w := y]> (<[a := z]> m)) = <[a := x]> (<[w := y]> m).
Proof. intros Hne. rw (insert_insert_ne _ w) // insert_insert_eq //. Qed.

(** The state in which [port_open] has its read port [a] and its buffer [b]. *)
Definition opening (s : ports) (a b : positive) (rp : read_port) (k : kstate) : ports :=
  Ports k (<[a := ReadPort rp]> (objs s)) (<[b := new_buf PORT_BUFF_SIZE]> (bufs s)) (write_port_list s) (results s).

Lemma pi_opening X s a k :
  ports_inv X s → objs s !! a = None → kinv ∅ ∅ k → (∀ w, w ≠ ObjWq a → wait_queues k !! w = wait_queues (pk s) !! w) →
  ports_inv X (set_pk k s).
Proof.
  intros P Ha I Hw. pose proof (pi_ok _ _ P) as Po. split; simpl; try done.
  - intros c o Hc Hn. destruct (pi_wq _ _ P c o Hc Hn) as (wq & ? & ?). exists wq. rw Hw //. intros [= ->]. congruence.
  - intros c wq Hc. rw Hw; [by apply (pi_idle _ _ P)|]. intros [= ->]. rw (fresh_not_closing _ _ _ _ _ Po Ha) in Hc. by destruct Hc.
Qed.

Lemma pi_opened X s k a rp w wp bs :
  ports_inv X (set_pk k s) → valid_wq k (ObjWq a) →
  ports_ok X (<[a := ReadPort rp]> (<[w := WritePort wp]> (objs s))) bs (write_port_list s) →
  ports_inv X (Ports k (<[a := ReadPort rp]> (<[w := WritePort wp]> (objs s))) bs (write_port_list s) (results s)).
Proof.
  intros [Hk _ Hw Hi] Hv Po. split; simpl in *; try done.
  intros c o [[<- <-]|[_ [[<- <-]|[_ ?]]%lookup_insert_Some]]%lookup_insert_Some; [done|done|]. by apply Hw.
Qed.

(** What [port_open] does once its memory is there, [a] for the port and [b] for
    a buffer. *)
Definition open_result (s : ports) (a b : positive) (name : string) (ctx rc : Z) (h : option positive) (s' : ports) : Prop :=
  write_port_list s' = write_port_list s ∧ results s' = results s ∧
  ((rc = ERR_NOT_FOUND ∧ h = None ∧ objs s' = objs s ∧ bufs s' = bufs s ∧
      ∀ w wp, objs s !! w = Some (WritePort wp) → wp_name wp ≠ name) ∨
   ∃ w wp, objs s !! w = Some (WritePort wp) ∧ wp_name wp = name ∧
     match wp_buf wp with
     | Some b0 =>
         rc = NO_ERROR ∧ h = Some a ∧ bufs s' = bufs s ∧
         objs s' = <[a := ReadPort (RPort (Some b0) ctx (Some w) None)]>
           (<[w := WritePort (set_wp_buf None (set_wp_rp_list (wp_rp_list wp ++ [a]) wp))]> (objs s))
     | None =>
         if Z.land (wp_mode wp) PORT_MODE_UNICAST =? 0 then
           rc = NO_ERROR ∧ h = Some a ∧ bufs s' = <[b := new_buf PORT_BUFF_SIZE]> (bufs s) ∧
           objs s' = <[a := ReadPort (RPort (Some b) ctx (Some w) None)]>
             (<[w := WritePort (set_wp_buf None (set_wp_rp_list (wp_rp_list wp ++ [a]) wp))]> (objs s))
         else rc = ERR_NOT_ALLOWED ∧ h = None ∧ objs s' = objs s ∧ bufs s' = bufs s
     end).

(** Reopening the record [s'] from its components *)
Lemma pi_intro X s s' :
  ports_inv X s → pk s' = pk s → objs s' = objs s → bufs s' = bufs s → write_port_list s' = write_port_list s →
  ports_inv X s'.
Proof. intros [] E1 E2 E3 E4. split; rewrite ?E1 ?E2 ?E3 ?E4; done. Qed.

Lemma wp_port_open X s a b name ctx :
  ports_inv X s → thread_lock (pk s) = false → objs s !! a = None → bufs s !! b = None →
  (∀ wq, wait_queues (pk s) !! ObjWq a = Some wq → wq_list wq = []) →
  wp (port_open (Some a) (Some b) (Some name) ctx true)
    (λ '(rc, h) s', ports_inv X s' ∧ thread_lock (pk s') = false ∧ open_result s a b name ctx rc h s' ∧
       wait_queues (pk s') = <[ObjWq a := WaitQueue WAIT_QUEUE_MAGIC [] 0]> (wait_queues (pk s)) ∧
       current (pk s') = current (pk s)) s.
Proof.
  intros P Hl Ha Hb Hwq. pose proof (pi_ok _ _ P) as Po. pose proof (pi_kinv _ _ P) as Ik.
  set (k := set_wait_queues (<[ObjWq a := WaitQueue WAIT_QUEUE_MAGIC [] 0]> (wait_queues (pk s))) (pk s)).
  assert (kinv ∅ ∅ k) as Ik' by (by apply kinv_wq_put).
  assert (ports_inv X (set_pk k s)) as P1 by (eapply (pi_opening _ _ a); [done..|]; intros w Hw; rw /= lookup_insert_ne //; congruence).
  assert (∀ b, ports_inv X (set_pk (set_thread_lock b k) s)) as P2 by (intros l; apply (pi_unlock _ _ l P1)).
  assert (X !! a = None) as HXa by by eapply fresh_not_closing.
  assert (valid_wq k (ObjWq a)) as Hv by (by exists (WaitQueue WAIT_QUEUE_MAGIC [] 0); rw /= lookup_insert_eq).
  apply wp_bind, wp_modify, wp_bind, wp_sched, wp_modify, wp_bind, wp_bind, wp_modify, wp_ret.
  apply wp_bind, wp_sched, wp_thread_lock; [done|]. apply wp_bind.
  assert (∀ w, w ∈ write_port_list s ↔ is_Some (name_of X (<[a := ReadPort (RPort None ctx None None)]> (objs s)) w)) as Hl'.
  { intros w. rw (po_list _ _ _ _ Po) point_same //. by rw /point Ha. }
  assert (delete a (<[a := ReadPort (RPort None ctx None None)]> (objs s)) = objs s) as Ea by by rw delete_insert_id.
  assert (delete b (<[b := new_buf PORT_BUFF_SIZE]> (bufs s)) = bufs s) as Eb by by rw delete_insert_id.
  eapply (wp_lookup_port X); [exact Hl'| |]; simpl.
  2:{ intros Hn. apply wp_bind, wp_ret. apply wp_bind, wp_sched, wp_modify, wp_bind, wp_modify, wp_bind, wp_modify, wp_ret.
      split_and!; [eapply pi_intro; [apply (P2 false)|by rewrite /= ?Ea ?Eb..]|done| |done|done].
      split_and!; [done..|]. left. simpl. split_and!; [done..|]. intros w wp Hw En. apply (Hn w).
      rw point_insert. case_decide; [congruence|]. by rw /point Hw /= En. }
  intros w wp Hw En. assert (a ≠ w) as Hne by (intros ->; by rw lookup_insert_eq in Hw). rw lookup_insert_ne // in Hw.
  apply wp_bind, wp_bind. eapply wp_deref; [by rw /= lookup_insert_ne // Hw|].
  destruct (wp_buf wp) as [b0|] eqn:Ebuf.
  { apply wp_bind, wp_modify, wp_bind, wp_modify, wp_ret.
    apply wp_bind, wp_sched, wp_modify, wp_bind, wp_modify, wp_ret. simpl.
    assert (good_buf (bufs s) b0) as Hg by (apply (po_good _ _ _ _ Po w); by rw /point (closing_not_write _ _ _ _ _ _ Po Hw) Hw).
    split_and!; [|done| |done|done].
    - rw /set_bufs /set_objs /set_pk /= insert_3; [|done]. rw Eb. apply pi_opened; [apply P2|exact Hv|]. apply ports_ok_open; [done..|by left].
    - split_and!; [done..|]. right. exists w, wp. by rw Ebuf /= insert_3 // Eb. }
  destruct (Z.land (wp_mode wp) PORT_MODE_UNICAST =? 0) eqn:Em; simpl.
  - apply wp_bind, wp_modify, wp_bind, wp_modify, wp_ret. simpl.
    apply wp_bind, wp_sched, wp_modify, wp_bind, wp_ret, wp_ret. simpl.
    assert (set_wp_rp_list (wp_rp_list wp ++ [a]) wp = set_wp_buf None (set_wp_rp_list (wp_rp_list wp ++ [a]) wp)) as ->.
    { destruct wp; simpl in *. by subst. }
    split_and!; [|done| |done|done].
    + rw /set_bufs /set_objs /set_pk /= insert_3; [|done]. apply pi_opened; [apply P2|exact Hv|].
      eapply ports_ok_open; [eapply ports_ok_bufs; [done|]|done..| |].
      * intros c b' _ Hg. eapply good_buf_put; [done|apply (new_buf_repr false)].
      * eexists _, _, []. split; [by rw lookup_insert_eq|apply (new_buf_repr false)].
      * right. to_prop. split_and!; [done| |done]. intros c. by eapply fresh_unowned.
    + split_and!; [done..|]. right. exists w, wp. by rw Ebuf Em /= insert_3.
  - apply wp_ret. simpl. apply wp_bind, wp_sched, wp_modify, wp_bind, wp_modify, wp_bind, wp_modify, wp_ret. simpl.
    split_and!; [eapply pi_intro; [apply (P2 false)|by rewrite /= ?Ea ?Eb..]|done| |done|done].
    split_and!; [done..|]. right. exists w, wp. rw Ebuf Em. by rewrite /= ?Ea ?Eb.
Qed.

Lemma port_open_safe X s mem bmem name ctx port :
  ports_inv X s → thread_lock (pk s) = false →
  (∀ a, mem = Some a → objs s !! a = None ∧ ∀ wq, wait_queues (pk s) !! ObjWq a = Some wq → wq_list wq = []) →
  (∀ b, bmem = Some b → bufs s !! b = None) →
  wp (port_open mem bmem name ctx port) (λ _ s', ports_inv X s' ∧ thread_lock (pk s') = false) s.
Proof.
  intros P Hl Hm Hb. destruct name as [name|]; [|by apply wp_ret].
  destruct port; [|by apply wp_ret]. destruct mem as [a|]; [|by apply wp_ret]. destruct (Hm a eq_refl) as [Ha Hwq].
  destruct bmem as [b|].
  - eapply wp_mono; [apply wp_port_open; eauto|]. intros [rc h] s' (? & ? & _). done.
  - apply wp_bind, wp_modify, wp_bind, wp_sched, wp_modify, wp_bind, wp_ret, wp_bind, wp_modify, wp_ret.
    split; [|done]. pose proof (pi_kinv _ _ P) as Ik. eapply pi_intro; [eapply (pi_opening X s a); [done|done| |]|done|..]; try done.
    + by apply (kinv_wq_put (pk s) (ObjWq a) (WaitQueue WAIT_QUEUE_MAGIC [] 0)).
    + intros w Hw. rw /= lookup_insert_ne //.
    + by rw /= delete_insert_id.
Qed.

(** ** Groups *)

Lemma wp_link_group X s g pg p rp (Q : unit → ports → Prop) :
  ports_inv X s → objs s !! g = Some (PortGroup pg) → X !! g = None → objs s !! p = Some (ReadPort rp) → X !! p = None →
  rp_gport rp = None →
  (let s' := set_objs (<[g := PortGroup (PGroup (pg_rp_list pg ++ [p]))]>
       (<[p := ReadPort (set_rp_gport (Some g) rp)]> (objs s))) s in
   ports_inv X s' → Q () s') →
  wp (link_group g p rp) Q s.
Proof.
  intros P Hg HXg Hp HXp Hn HQ. apply wp_bind, wp_modify, wp_bind. assert (p ≠ g) as Hne by congruence.
  eapply wp_deref; [by rw /= lookup_insert_ne // Hg|]. apply wp_modify. apply HQ.
  apply (pi_objs X s); [done| | |done].
  - by apply ports_ok_link; [apply P|..].
  - intros a o [[<- <-]|[_ [[<- <-]|[_ ?]]%lookup_insert_Some]]%lookup_insert_Some; eauto.
Qed.

(** The handles [ps] are objects, and none is closing. *)
Definition live_ports (X : closing) (s : ports) (ps : list positive) : Prop :=
  Forall (λ p, is_Some (objs s !! p) ∧ X !! p = None) ps.

Lemma clear_gports_spec n ps s (Q : unit → ports → Prop) :
  (∀ p, p ∈ take n ps → ∃ rp, objs s !! p = Some (ReadPort rp)) → (n ≤ length ps)%nat →
  (∀ os', (∀ c, os' !! c = if decide (c ∈ take n ps) then clear_gport <$> objs s !! c else objs s !! c) →
    Q () (set_objs os' s)) →
  wp (clear_gports n ps) Q s.
Proof.
  revert Q. induction n as [|n IH]; intros Q Hr Hn HQ.
  - apply wp_ret. specialize (HQ (objs s)). destruct s. apply HQ. by intros c.
  - destruct (lookup_lt_is_Some_2 ps n) as [p Hp]; [lia|]. rw (take_S_r _ _ _ Hp) in Hr, HQ.
    cbn [clear_gports]. apply wp_bind, IH; [|lia|].
    + intros q Hq. apply Hr. set_solver.
    + intros os' Hos'. destruct (Hr p) as [rp Hrp]; [set_solver|]. apply wp_bind. eapply wp_deref; [done|].
      set (rp' := if decide (p ∈ take n ps) then set_rp_gport None rp else rp).
      assert (os' !! p = Some (ReadPort rp')) as Hp'.
      { rw Hos' Hrp /rp'. by case_decide. }
      apply wp_bind. eapply wp_deref; [by rw /= Hp'|]. apply wp_modify.
      specialize (HQ (<[p := ReadPort (set_rp_gport None rp')]> os')). apply HQ. intros c. rw lookup_insert. case_decide; subst.
      * rw decide_True; [|set_solver]. rw Hrp /= /rp'. by case_decide.
      * rw Hos'. repeat case_decide; try done; set_solver.
Qed.

Lemma wp_group_loop X n ix g ps s :
  ports_inv X s → X !! g = None → g ∉ ps → live_ports X s ps → (ix + n ≤ length ps)%nat →
  objs s !! g = Some (PortGroup (PGroup (take ix ps))) →
  wp (group_loop n ix g ps) (λ rc s', pk s' = pk s ∧
    ((rc = NO_ERROR ∧ ports_inv X s' ∧ objs s' !! g = Some (PortGroup (PGroup (take (ix + n) ps)))) ∨
     (rc = ERR_BAD_HANDLE ∧ ports_inv X (set_objs (delete g (objs s')) s')))) s.
Proof.
  revert ix s. induction n as [|n IH]; intros ix s P HXg Hgn Hlive Hn Hg.
  { apply wp_ret. split; [done|]. left. by rw Nat.add_0_r. }
  destruct (lookup_lt_is_Some_2 ps ix) as [p Hp]; [lia|].
  destruct (Forall_lookup_1 _ _ _ _ Hlive Hp) as [[o Ho] HXp].
  assert (p ≠ g) as Hne by (intros ->; by apply list_elem_of_lookup_2 in Hp).
  assert (wp (clear_gports ix ps;; mret ERR_BAD_HANDLE) (λ rc s', pk s' = pk s ∧
    ((rc = NO_ERROR ∧ ports_inv X s' ∧ objs s' !! g = Some (PortGroup (PGroup (take (ix + S n) ps)))) ∨
     (rc = ERR_BAD_HANDLE ∧ ports_inv X (set_objs (delete g (objs s')) s')))) s) as Hbad.
  { pose proof (pi_ok _ _ P) as Po. apply wp_bind, clear_gports_spec; [|lia|].
    - intros q Hq. pose proof (po_members _ _ _ _ Po g q) as [Hm _]. rw /point Hg in Hm. specialize (Hm Hq).
      destruct (objs s !! q) as [[| |]|]; try done. eauto.
    - intros os' Hos'. apply wp_ret. split; [done|]. right. split; [done|]. simpl.
      eapply (pi_objs X s); [done| | |done].
      + rw -(delete_id X g) //. eapply ports_ok_ungroup; [done|done|]. intros c. simpl.
        destruct (decide (c = g)) as [->|]; [by rw lookup_delete_eq|]. rw lookup_delete_ne //.
      + intros c oc [Hcg Hc]%lookup_delete_Some Hw. rw Hos' in Hc. case_decide; [|eauto].
        destruct (objs s !! c) as [oc'|] eqn:E; [|done]. simplify_eq/=. exists oc'. by destruct oc'. }
  cbn [group_loop]. apply wp_bind. eapply wp_deref; [done|]. apply wp_bind. eapply wp_deref; [done|].
  destruct o as [wp|[rb rc rw rg]|pg]; [apply Hbad| |apply Hbad]. destruct rg as [g'|]; [apply Hbad|].
  apply wp_bind. eapply (wp_link_group X); [done..|]. intros s1 P'.
  eapply wp_mono; [apply IH; [done..| |lia|]|].
  - eapply Forall_impl; [exact Hlive|]. intros q [Hq ?]. split; [|done]. rw /= !lookup_insert_is_Some. destruct (decide (g = q)); [by left|right].
    split; [done|]. destruct (decide (p = q)); [by left|by right].
  - rw /= lookup_insert_eq. by rw -take_S_r.
  - intros rc' s'. by rw Nat.add_succ_r.
Qed.

Lemma port_group_safe X s mem ps count group :
  ports_inv X s → thread_lock (pk s) = false →
  (∀ a, mem = Some a → objs s !! a = None ∧ ∀ wq, wait_queues (pk s) !! ObjWq a = Some wq → wq_list wq = []) →
  (∀ l, ps = Some l → live_ports X s l) → 0 ≤ count → (∀ l, ps = Some l → count ≤ Z.of_nat (length l)) →
  wp (port_group mem ps count group) (λ _ s', ports_inv X s' ∧ thread_lock (pk s') = false) s.
Proof.
  intros P Hl Hm Hlive Hc Hlen. apply wp_if; intros _; [by apply wp_ret|].
  apply wp_if; intros Hnull; [by apply wp_ret|]. apply wp_if; intros _; [by apply wp_ret|].
  destruct mem as [g|]; [|by apply wp_ret]. destruct (Hm g eq_refl) as [Hg Hwq]. clear Hm.
  pose proof (pi_ok _ _ P) as Po. assert (X !! g = None) as HXg by by eapply fresh_not_closing.
  set (k := set_thread_lock true (set_wait_queues (<[ObjWq g := WaitQueue WAIT_QUEUE_MAGIC [] 0]> (wait_queues (pk s))) (pk s))).
  assert (ports_inv X (set_pk k s)) as P1.
  { eapply (pi_opening _ _ g); [done..| |].
    - assert (kinv ∅ ∅ (set_wait_queues (<[ObjWq g := WaitQueue WAIT_QUEUE_MAGIC [] 0]> (wait_queues (pk s))) (pk s)))
        by (apply kinv_wq_put; by try apply P). kinv_frame.
    - intros w Hw. rw /= lookup_insert_ne //; congruence. }
  apply wp_bind, wp_modify, wp_bind, wp_sched, wp_modify, wp_bind, wp_sched, wp_thread_lock; [done|].
  assert (live_ports X s (default [] ps) ∧ count ≤ Z.of_nat (length (default [] ps))) as [Hlv Hn].
  { destruct ps as [l|]; simpl in *; [by split; [apply Hlive|apply Hlen]|]. split; [constructor|].
    apply andb_false_iff in Hnull as [H|H]; [|done]. apply negb_false_iff, Z.eqb_eq in H. lia. }
  assert (ports_inv X (set_objs (<[g := PortGroup (PGroup [])]> (objs s)) (set_pk k s))) as P2.
  { split; simpl; [apply P1|by apply ports_ok_new_group| |apply P1].
    intros a o [[<- <-]|[_ ?]]%lookup_insert_Some ?; [|by eapply (pi_wq _ _ P1)].
    exists (WaitQueue WAIT_QUEUE_MAGIC [] 0). by rw /= lookup_insert_eq. }
  assert (g ∉ default [] ps) as Hgn.
  { intros Hin. destruct (proj1 (Forall_forall _ _) Hlv _ Hin) as [[? ?] _]. congruence. }
  apply wp_bind. eapply wp_mono; [apply (wp_group_loop X); [exact P2|done|done| |lia|by rw /= lookup_insert_eq]|].
  - eapply Forall_impl; [exact Hlv|]. intros q [Hq ?]. split; [|done]. rw /= lookup_insert_is_Some.
    destruct (decide (g = q)); auto.
  - intros rc s' [_ [(-> & P' & _)|[-> P']]]; apply wp_bind, wp_sched, wp_modify; simpl.
    + apply wp_ret. split; [|done]. by apply pi_unlock.
    + apply wp_bind, wp_modify, wp_ret. split; [|done]. by apply (pi_unlock _ _ false) in P'.
Qed.

(** ** Waking and writing *)

(** The kernel part of the state may differ, but not the running threads. *)
Definition same_run (k k' : kstate) : Prop := current k' = current k ∧ thread_lock k' = thread_lock k.

Definition waiters (k : kstate) (c : positive) : list thread_ptr :=
  match wait_queues k !! ObjWq c with Some wq => wq_list wq | None => [] end.

Lemma wp_wake_one_port X s cpu cur c err (Q : Z → ports → Prop) :
  ports_inv X s → current (pk s) !! cpu = Some cur → thread_lock (pk s) = true → valid_wq (pk s) (ObjWq c) →
  (waiters (pk s) c = [] → Q 0 s) →
  (∀ k' t rest, waiters (pk s) c = t :: rest → waiters k' c = rest → (∀ c', c' ≠ c → waiters k' c' = waiters (pk s) c') →
    ports_inv X (set_pk k' s) → same_run (pk s) k' → woken t err k' → Q 1 (set_pk k' s)) →
  wp (sched (wait_queue_wake_one cpu (ObjWq c) false err)) Q s.
Proof.
  intros P Hc Hl (wq & Hw & Hm) HQ0 HQ1. pose proof (pi_kinv _ _ P) as Ik.
  destruct (kinv_current _ _ _ _ _ Ik Hc) as (cth & Hcur & _); [set_solver|].
  apply wp_sched. eapply wp_wait_queue_wake_one; [done..| |].
  - intros He. specialize (HQ0 ltac:(by rw /waiters Hw)). by destruct s.
  - intros t rest k' He Ew Hwk Hl' I' Hcur' _. specialize (Hcur' eq_refl).
    apply (HQ1 k' t rest); [by rw /waiters Hw| | | |by rw /same_run Hl Hl'|done].
    + by rw /waiters Ew lookup_alter_eq Hw.
    + intros c' Hne. rw /waiters Ew lookup_alter_ne //. congruence.
    + destruct (X !! c) as [x|] eqn:E.
      { assert (wq_list wq = []) as Hn by (by apply (pi_idle _ _ P c); [rw E|]). congruence. }
      eapply (pi_step _ _ _ c); [done..| | |done].
      * intros w Hne. by rw Ew lookup_alter_ne.
      * eexists. split; [by rw Ew lookup_alter_eq Hw|done].
Qed.

Lemma port_group_add_safe X s cpu cur g p :
  ports_inv X s → thread_lock (pk s) = false → current (pk s) !! cpu = Some cur →
  live_ports X s (option_list g ++ option_list p) →
  wp (port_group_add cpu g p) (λ _ s', ports_inv X s' ∧ thread_lock (pk s') = false) s.
Proof.
  intros P Hl Hc Hlive. destruct p as [p|]; [|by apply wp_ret]. destruct g as [g|]; [|by apply wp_ret].
  apply Forall_app in Hlive as [[[[og Hg] HXg] _]%Forall_cons [[[o Hp] HXp] _]%Forall_cons].
  apply wp_bind. eapply wp_deref; [done|]. destruct og as [| |pg]; [by apply wp_ret..|].
  apply wp_bind. eapply wp_deref; [done|].
  destruct o as [|rp|]; [by apply wp_ret| |by apply wp_ret]. destruct rp as [rb rctx rw rg] eqn:Erp.
  destruct rg as [?|]; [by apply wp_ret|]. rw -Erp in Hp |- *.
  apply wp_bind, wp_sched, wp_thread_lock; [done|]. pose proof (pi_unlock _ _ true P) as P1.
  apply wp_bind. eapply wp_deref; [by rw /= Hg|]. apply wp_bind.
  assert (∀ s', ports_inv X s' → ports_inv X (set_pk (set_thread_lock false (pk s')) s') ∧
    thread_lock (pk (set_pk (set_thread_lock false (pk s')) s')) = false) as Hend by (intros; split; [by apply pi_unlock|done]).
  apply wp_if; intros _; [apply wp_ret, wp_bind, wp_sched, wp_modify, wp_ret, Hend, P1|].
  apply wp_bind. eapply (wp_link_group X); [done..|by rw Erp|]. intros s1 P2.
  destruct (po_obj _ _ _ _ (pi_ok _ _ P) _ _ Hp HXp) as [b Hb].
  destruct (po_good _ _ _ _ (pi_ok _ _ P) p b) as (v & cap & q & Hv & R); [by rw /point HXp Hp|].
  apply wp_bind. eapply wp_deref; [by rw Hb /=|]. apply wp_bind, wp_when; intros _; simpl.
  - apply wp_bind. eapply (wp_wake_one_port X); [done..| | |].
    + eapply (pi_wq _ _ P2); [by rw /= lookup_insert_eq|done].
    + intros _. apply wp_ret, wp_ret, wp_bind, wp_sched, wp_modify, wp_ret, Hend, P2.
    + intros k' t rest _ _ _ P3 _ _. apply wp_ret, wp_ret, wp_bind, wp_sched, wp_modify, wp_ret, Hend, P3.
  - apply wp_ret, wp_bind, wp_sched, wp_modify, wp_ret, Hend, P2.
Qed.
