(* ===== verification/PortWrite.v ===== *)
(** * Writing to ports

    Who gets the packets of a [port_write] and who is woken. *)

From S2P Require Import Prelude Kernel Timer Thread SchedInv KernelInv SchedOps ThreadLife System SchedRun Bits Ring Port PortBuf PortInv PortSafe.

(** The buffer of the port [a] has [cap] slots and holds the packets [q]. *)
Definition holds (X : closing) (s : ports) (a : positive) (cap : Z) (q : list port_packet) : Prop :=
  ∃ b v, buf_of X (objs s) a = Some b ∧ bufs s !! b = Some v ∧ buf_repr v cap q.

Definition fits (cap : Z) (q ps : list port_packet) : Prop := Z.of_nat (length q + length ps) ≤ cap.

#[global] Instance fits_dec cap q ps : Decision (fits cap q ps) := Z.le_dec _ _.

Lemma buf_repr_inj v cap q cap' q' : buf_repr v cap q → buf_repr v cap' q' → cap = cap' ∧ q = q'.
Proof.
  intros R R'. assert (cap = cap') as <- by by rw (br_cap _ _ _ R) (br_cap _ _ _ R'). split; [done|].
  pose proof (br_avail _ _ _ R) as E. rw (br_avail _ _ _ R') in E. apply (inj (fmap Some)).
  eapply ring_inj; [apply R|apply R'|]. rw !length_fmap. lia.
Qed.

Lemma holds_inj X s a cap q cap' q' : holds X s a cap q → holds X s a cap' q' → cap = cap' ∧ q = q'.
Proof. intros (b & v & ? & ? & R) (b' & v' & ? & ? & R'). simplify_eq. by eapply buf_repr_inj. Qed.

Lemma holds_some X s a b : ports_inv X s → buf_of X (objs s) a = Some b → ∃ cap q, holds X s a cap q.
Proof. intros P Hb. destruct (po_good _ _ _ _ (pi_ok _ _ P) _ _ Hb) as (v & cap & q & ? & ?). by exists cap, q, b, v. Qed.

(** Replacing the contents of one buffer. *)
Lemma pi_put_buf X s a b v cap q :
  ports_inv X s → buf_of X (objs s) a = Some b → buf_repr v cap q →
  let s' := set_bufs (<[b := v]> (bufs s)) s in
  ports_inv X s' ∧ holds X s' a cap q ∧ ∀ a' cap' q', a' ≠ a → holds X s a' cap' q' → holds X s' a' cap' q'.
Proof.
  intros P Hb R s'. split_and!.
  - eapply (pi_objs X s); [done| |eauto|done]. eapply ports_ok_bufs; [apply P|]. intros c b' _ ?. by eapply good_buf_put.
  - exists b, v. split_and!; [done| |done]. by rw /= lookup_insert_eq.
  - intros a' cap' q' Hne (b' & v' & Hb' & Hv' & R'). exists b', v'. split_and!; [done| |done]. rw /= lookup_insert_ne //.
    intros ->. apply Hne. by eapply (po_owner _ _ _ _ (pi_ok _ _ P)).
Qed.

Lemma wp_buf_write_to X s a b cap q ps (Q : Z → ports → Prop) :
  ports_inv X s → buf_of X (objs s) a = Some b → holds X s a cap q →
  (¬ fits cap q ps → Q ERR_NOT_ENOUGH_BUFFER s) →
  (∀ bs', let s' := set_bufs bs' s in fits cap q ps → ports_inv X s' → holds X s' a cap (q ++ ps) →
    (∀ a' cap' q', a' ≠ a → holds X s a' cap' q' → holds X s' a' cap' q') → Q NO_ERROR s') →
  wp (buf_write_to (Some b) ps (Z.of_nat (length ps))) Q s.
Proof.
  intros P Hb (b' & v & Hb' & Hv & R) HQ0 HQ1. simplify_eq. apply wp_bind. eapply wp_deref; [done|].
  destruct (buf_write_repr v cap q ps R) as (st & v' & Hw & Hpost). apply wp_bind. eapply wp_deref; [done|].
  apply wp_bind, wp_modify, wp_ret. destruct (Z.leb_spec (Z.of_nat (length q + length ps)) cap) as [Hf|Hf].
  - destruct Hpost as [-> R']. destruct (pi_put_buf X s a b v' cap (q ++ ps)) as (? & ? & ?); [done..|]. by apply HQ1.
  - destruct Hpost as [-> ->]. rw insert_id //. destruct s. apply HQ0. rw /fits. lia.
Qed.

(** ** Waking the readers *)

Definition group_of (X : closing) (s : ports) (p : positive) : option positive := gport_of X (objs s) p.

(** Somebody waits for the port [p] or for its group. *)
Definition waited (X : closing) (s : ports) (p : positive) : Prop :=
  waiters (pk s) p ≠ [] ∨ ∃ g, group_of X s p = Some g ∧ waiters (pk s) g ≠ [].

(** One of those who waited for [p] or its group waits no more. *)
Definition relieved (X : closing) (s s' : ports) (p : positive) : Prop :=
  ∃ c, (c = p ∨ group_of X s p = Some c) ∧ (length (waiters (pk s') c) < length (waiters (pk s) c))%nat.

Definition fewer_waiters (s s' : ports) : Prop := ∀ c, waiters (pk s') c `suffix_of` waiters (pk s) c.

Lemma fewer_waiters_trans s1 s2 s3 : fewer_waiters s1 s2 → fewer_waiters s2 s3 → fewer_waiters s1 s3.
Proof. intros H1 H2 c. etrans; [apply H2|apply H1]. Qed.

Lemma wp_wake_reader X s cpu cur p rp (Q : Z → ports → Prop) :
  ports_inv X s → objs s !! p = Some (ReadPort rp) → X !! p = None →
  current (pk s) !! cpu = Some cur → thread_lock (pk s) = true →
  (∀ n k', let s' := set_pk k' s in ports_inv X s' → same_run (pk s) k' → fewer_waiters s s' →
    (n = 0 ∧ ¬ waited X s p ∧ k' = pk s ∨ n = 1 ∧ relieved X s s' p) → Q n s') →
  wp (wake_reader cpu p rp) Q s.
Proof.
  intros P Hp HX Hc Hl HQ. assert (group_of X s p = rp_gport rp) as Eg by by rw /group_of /point HX Hp.
  assert (valid_wq (pk s) (ObjWq p)) as Hvp by by eapply (pi_wq _ _ P).
  assert (∀ c, c = p ∨ group_of X s p = Some c → ∀ k' t rest, waiters (pk s) c = t :: rest → waiters k' c = rest →
    (∀ c', c' ≠ c → waiters k' c' = waiters (pk s) c') → ports_inv X (set_pk k' s) → same_run (pk s) k' → Q 1 (set_pk k' s)) as H1.
  { intros c Hcp k' t rest E1 E2 E3 P' Hr. apply HQ; [done|done| |right; split; [done|]].
    - intros c'. destruct (decide (c' = c)) as [->|Hne]; [rw E1 E2; by apply suffix_cons_r|by rw /= E3].
    - exists c. split; [done|]. rw E1 /= E2. simpl. lia. }
  assert ((∀ g, rp_gport rp = Some g → waiters (pk s) g = []) → wp (sched (wait_queue_wake_one cpu (ObjWq p) false NO_ERROR)) Q s) as H2.
  { intros Hg. eapply (wp_wake_one_port X); [done..| |].
    - intros E. rw (_ : s = set_pk (pk s) s); [|by destruct s]. apply HQ; [by destruct s|done|by intros c|].
      left. split_and!; [done| |done]. intros [?|(g & Hgo & ?)]; [done|]. rw Eg in Hgo. by rw (Hg g Hgo) in H.
    - intros k' t rest E1 E2 E3 P' Hr _. eapply H1; eauto. }
  apply wp_bind. destruct (rp_gport rp) as [g|] eqn:Erg; [|by apply wp_ret, H2].
  pose proof (po_members _ _ _ _ (pi_ok _ _ P) g p) as [_ Hm]. specialize (Hm Eg). rw /point in Hm.
  destruct (objs s !! g) as [[| |pg]|] eqn:Hg; try by apply not_elem_of_nil in Hm.
  apply wp_bind. eapply wp_deref; [by rw Hg|]. eapply (wp_wake_one_port X); [done..|by eapply (pi_wq _ _ P)| |].
  - intros E. apply H2. by intros ? [= <-].
  - intros k' t rest E1 E2 E3 P' Hr _. apply wp_ret. eapply (H1 g); eauto.
Qed.

(** ** The loop over the readers *)

(** [ps] has been offered to the ports of [l]. *)
Record written (X : closing) (ps : list port_packet) (l : list positive) (s s' : ports) : Prop := {
  wr_inv : ports_inv X s';
  wr_objs : objs s' = objs s;
  wr_list : write_port_list s' = write_port_list s;
  wr_results : results s' = results s;
  wr_run : same_run (pk s) (pk s');
  wr_holds a cap q : holds X s a cap q → holds X s' a cap (if decide (a ∈ l ∧ fits cap q ps) then q ++ ps else q);
  wr_fewer : fewer_waiters s s';
  wr_woken p cap q : p ∈ l → holds X s p cap q → fits cap q ps → waited X s p → relieved X s s' p
}.

Lemma relieved_mono X s0 s1 s2 s3 p :
  objs s1 = objs s0 → fewer_waiters s0 s1 → fewer_waiters s2 s3 → relieved X s1 s2 p → relieved X s0 s3 p.
Proof.
  intros Eo H1 H2 (c & Hc & Hlt). exists c. split; [by rw /group_of -Eo|].
  pose proof (suffix_length _ _ (H1 c)). pose proof (suffix_length _ _ (H2 c)). lia.
Qed.

Lemma waited_or X s s1 p :
  objs s1 = objs s → fewer_waiters s s1 → waited X s p → waited X s1 p ∨ relieved X s s1 p.
Proof.
  intros Eo Hf Hw. assert (∃ c, (c = p ∨ group_of X s p = Some c) ∧ waiters (pk s) c ≠ []) as (c & Hc & Hn).
  { destruct Hw as [?|(g & ? & ?)]; eauto. }
  destruct (waiters (pk s1) c) as [|t r] eqn:E.
  - right. exists c. split; [done|]. rw E. destruct (waiters (pk s) c); [done|simpl; lia].
  - left. destruct Hc as [->|Hc]; [left; by rw E|right]. exists c. rw /group_of Eo E. done.
Qed.

Lemma written_nil X ps s : ports_inv X s → written X ps [] s s.
Proof.
  intros P. split; try done.
  - by intros c.
  - by intros p cap q ?%not_elem_of_nil.
Qed.

(** One port, then the others. *)
Lemma written_cons X ps p l s s1 s' :
  p ∉ l → written X ps [p] s s1 → written X ps l s1 s' → written X ps (p :: l) s s'.
Proof.
  intros Hp W1 W2. pose proof (wr_objs _ _ _ _ _ W1) as E1. split.
  - apply W2.
  - by rw (wr_objs _ _ _ _ _ W2).
  - by rw (wr_list _ _ _ _ _ W2) (wr_list _ _ _ _ _ W1).
  - by rw (wr_results _ _ _ _ _ W2) (wr_results _ _ _ _ _ W1).
  - destruct (wr_run _ _ _ _ _ W1), (wr_run _ _ _ _ _ W2). split; congruence.
  - intros a cap q Hh. pose proof (wr_holds _ _ _ _ _ W1 _ _ _ Hh) as H1. pose proof (wr_holds _ _ _ _ _ W2 _ _ _ H1) as H2.
    destruct (decide (a = p)) as [->|Hne].
    + rw (decide_False (P := p ∈ l ∧ _)) in H2; [|by intros [? _]].
      destruct (decide (fits cap q ps)) as [Hf|Hf].
      * rw decide_True; [|set_solver]. by rw decide_True in H2; [|set_solver].
      * rw decide_False; [|by intros []]. by rw decide_False in H2; [|by intros []].
    + rw (decide_False (P := a ∈ [p] ∧ _)) in H2; [|set_solver].
      destruct (decide (a ∈ l ∧ fits cap q ps)); [rw decide_True; [|set_solver]|rw decide_False; [|set_solver]]; done.
  - eapply fewer_waiters_trans; [apply W1|apply W2].
  - intros a cap q [->|Hin]%elem_of_cons Hh Hf Hw.
    + eapply (relieved_mono X s s s1 s'); [done|by intros c|apply W2|]. by eapply (wr_woken _ _ _ _ _ W1); [set_solver|..].
    + assert (a ≠ p) as Hne by set_solver. pose proof (wr_holds _ _ _ _ _ W1 _ _ _ Hh) as H1.
      rw decide_False in H1; [|set_solver].
      destruct (waited_or X s s1 a E1 (wr_fewer _ _ _ _ _ W1) Hw) as [Hw1|Hr].
      * eapply (relieved_mono X s s1 s' s'); [done|apply W1|by intros c|]. by eapply (wr_woken _ _ _ _ _ W2).
      * by eapply (relieved_mono X s s s1 s'); [done|intros c|apply W2|].
Qed.

(** [p] has no room. *)
Lemma written_skip X ps p s cap q :
  ports_inv X s → holds X s p cap q → ¬ fits cap q ps → written X ps [p] s s.
Proof.
  intros P Hh Hf. assert (∀ a cap' q', a ∈ [p] → holds X s a cap' q' → fits cap' q' ps → False) as Hno.
  { intros a cap' q' ->%list_elem_of_singleton Hh' Hf'. by destruct (holds_inj _ _ _ _ _ _ _ Hh Hh') as [<- <-]. }
  split; try done.
  - intros a cap' q' Hh'. rw decide_False //. intros [Hin Hf']. by eapply Hno.
  - by intros c.
  - intros a cap' q' Hin Hh' Hf'. by destruct (Hno a cap' q').
Qed.

(** [p] has taken the packets, and a reader was woken if one waited. *)
Lemma written_put X ps p s bs' k' cap q :
  let s1 := set_bufs bs' s in let s2 := set_pk k' s1 in
  holds X s p cap q → fits cap q ps → holds X s1 p cap (q ++ ps) →
  (∀ a cap' q', a ≠ p → holds X s a cap' q' → holds X s1 a cap' q') →
  ports_inv X s2 → same_run (pk s) k' → fewer_waiters s s2 → ¬ waited X s p ∨ relieved X s s2 p →
  written X ps [p] s s2.
Proof.
  intros s1 s2 Hh Hf Hh1 Hoth P2 Hr Hfw Hwk. split; try done.
  - intros a cap' q' Hh'. destruct (decide (a = p)) as [->|Hne].
    + destruct (holds_inj _ _ _ _ _ _ _ Hh Hh') as [<- <-]. rw decide_True; [done|set_solver].
    + rw decide_False; [by apply Hoth|set_solver].
  - intros a cap' q' ->%list_elem_of_singleton _ _ Hw. by destruct Hwk.
Qed.

(** The status and the number of threads woken, from [st] and [aw]. *)
Definition write_post (X : closing) (ps : list port_packet) (l : list positive) (s : ports) (st aw : Z)
    (r : Z * Z) (s' : ports) : Prop :=
  written X ps l s s' ∧
  (r.1 = st ∧ (∀ p cap q, p ∈ l → holds X s p cap q → fits cap q ps) ∨
   r.1 = ERR_PARTIAL_WRITE ∧ ∃ p cap q, p ∈ l ∧ holds X s p cap q ∧ ¬ fits cap q ps) ∧
  (r.2 = aw ∧ pk s' = pk s ∨ aw < r.2 ∧ ∃ p, p ∈ l ∧ relieved X s s' p).

Lemma write_post_cons X ps p l s s1 s' st st1 aw aw1 r cap q :
  ports_inv X s → p ∉ l → written X ps [p] s s1 → holds X s p cap q →
  st1 = st ∧ fits cap q ps ∨ st1 = ERR_PARTIAL_WRITE ∧ ¬ fits cap q ps →
  aw1 = aw ∧ pk s1 = pk s ∨ aw < aw1 ∧ relieved X s s1 p →
  write_post X ps l s1 st1 aw1 r s' → write_post X ps (p :: l) s st aw r s'.
Proof.
  intros P Hp W1 Hh Hst Haw (W2 & Hst' & Haw').
  assert (∀ a cap' q', a ∈ l → holds X s a cap' q' → holds X s1 a cap' q') as Hfw.
  { intros a cap' q' Ha Hh'. apply (wr_holds _ _ _ _ _ W1) in Hh'. rw decide_False in Hh'; [done|]. set_solver. }
  assert (∀ a cap' q', a ∈ l → holds X s1 a cap' q' → holds X s a cap' q') as Hbw.
  { intros a cap' q' Ha Hh'. assert (∃ cap q, holds X s a cap q) as (cap0 & q0 & H0).
    { destruct Hh' as (b & v & Hb & _). rw (wr_objs _ _ _ _ _ W1) in Hb. by eapply holds_some. }
    by destruct (holds_inj _ _ _ _ _ _ _ Hh' (Hfw _ _ _ Ha H0)) as [-> ->]. }
  split_and!; [by eapply written_cons| |].
  - destruct Hst' as [[-> Hall]|[-> (a & cap' & q' & Ha & Hh' & Hn)]].
    2:{ right. split; [done|]. exists a, cap', q'. split_and!; [set_solver|by apply Hbw|done]. }
    destruct Hst as [[-> Hf]|[-> Hf]]; [left|right]; (split; [done|]).
    + intros a cap' q' [->|Ha]%elem_of_cons Hh'; [by destruct (holds_inj _ _ _ _ _ _ _ Hh Hh') as [<- <-]|].
      by apply (Hall a), Hfw.
    + exists p, cap, q. set_solver.
  - destruct Haw' as [[-> Ek]|[Hlt (a & Ha & Hr)]].
    + destruct Haw as [[-> Ek1]|[Hlt Hr]]; [left; by rw Ek|right]. split; [done|]. exists p. split; [set_solver|].
      eapply (relieved_mono X s s s1 s'); [done|by intros c|by apply W2|done].
    + right. split; [destruct Haw as [[-> _]|[? _]]; lia|]. exists a. split; [set_solver|].
      by eapply (relieved_mono X s s1 s' s'); [apply W1|apply W1|intros c|].
Qed.

Lemma wp_write_readers X l s cpu cur ps st aw :
  ports_inv X s → current (pk s) !! cpu = Some cur → thread_lock (pk s) = true → NoDup l →
  (∀ p, p ∈ l → X !! p = None ∧ ∃ rp, objs s !! p = Some (ReadPort rp)) →
  wp (write_readers cpu l ps (Z.of_nat (length ps)) st aw) (write_post X ps l s st aw) s.
Proof.
  revert s st aw. induction l as [|p l IH]; intros s st aw P Hc Hl Hnd Hrd.
  { apply wp_ret. split_and!; [by apply written_nil| |by left]. left. split; [done|]. set_solver. }
  apply NoDup_cons in Hnd as [Hpl Hnd]. destruct (Hrd p) as (HXp & rp & Hp); [set_solver|].
  destruct (po_obj _ _ _ _ (pi_ok _ _ P) _ _ Hp HXp) as [b Hb].
  assert (buf_of X (objs s) p = Some b) as Hbo by by rw /point HXp Hp.
  destruct (holds_some _ _ _ _ P Hbo) as (cap & q & Hh).
  assert (∀ s1 st1 aw1, written X ps [p] s s1 → 
    (st1 = st ∧ fits cap q ps ∨ st1 = ERR_PARTIAL_WRITE ∧ ¬ fits cap q ps) →
    (aw1 = aw ∧ pk s1 = pk s ∨ aw < aw1 ∧ relieved X s s1 p) →
    wp (write_readers cpu l ps (Z.of_nat (length ps)) st1 aw1) (write_post X ps (p :: l) s st aw) s1) as Hrest.
  { intros s1 st1 aw1 W Hst Haw. destruct (wr_run _ _ _ _ _ W) as [Er El]. eapply wp_mono.
    - apply IH; [apply W|by rw Er|by rw El|done|]. intros a Ha. rw (wr_objs _ _ _ _ _ W). apply Hrd. set_solver.
    - intros r s'. by eapply write_post_cons. }
  cbn [write_readers]. apply wp_bind. eapply wp_deref; [by rw /= Hp|]. apply wp_bind. rw Hb.
  eapply (wp_buf_write_to X); [done..| |].
  - intros Hf. apply Hrest; [by eapply written_skip|by right|by left].
  - intros bs' s1 Hf P1 Hh1 Hoth. apply wp_bind. eapply (wp_wake_reader X); [done..|]. intros n k' s2 P2 Hr Hfw Hn.
    apply Hrest; [|by left|].
    + eapply written_put; [done..|]. destruct Hn as [(_ & ? & _)|[_ ?]]; [by left|by right].
    + destruct Hn as [(-> & _ & ->)|[-> ?]]; [left; split; [lia|done]|right; split; [lia|done]].
Qed.

(** ** [port_write] *)

(** Where the packets of a write go. *)
Definition targets (a : positive) (wp : write_port) : list positive :=
  match wp_buf wp with Some _ => [a] | None => wp_rp_list wp end.

Lemma targets_readers X s a wp p :
  ports_inv X s → objs s !! a = Some (WritePort wp) → p ∈ wp_rp_list wp →
  X !! p = None ∧ ∃ rp, objs s !! p = Some (ReadPort rp).
Proof.
  intros P Ha Hp. pose proof (po_readers _ _ _ _ (pi_ok _ _ P) a p) as [Hr _].
  rw {1}/point Ha in Hr. specialize (Hr Hp). rw /point in Hr.
  destruct (objs s !! p) as [[| |]|], (X !! p); try done. eauto.
Qed.

(** The yield at the end of a write that woke somebody. *)
Lemma wp_port_yield X s cpu cur (Q : unit → ports → Prop) :
  ports_inv X s → current (pk s) !! cpu = Some cur → thread_lock (pk s) = false →
  (∀ k', ports_inv X (set_pk k' s) → (∀ c, waiters k' c = waiters (pk s) c) → thread_lock k' = true → Q () (set_pk k' s)) →
  wp (sched (thread_yield cpu)) Q s.
Proof.
  intros P Hc Hl HQ. pose proof (pi_kinv _ _ P) as Ik. destruct (kinv_current _ _ _ _ _ Ik Hc) as (cth & Hcur & _); [set_solver|].
  apply wp_sched. eapply wp_thread_yield; [done..|]. intros k' Hp Ik'.
  assert (wait_queues k' = wait_queues (pk s)) as Ew.
  { rw (rp_wait_queues _ _ _ _ Hp) /st_requeue. by case_match. }
  apply HQ; [by apply pi_frame| |by eapply rp_lock]. intros c. by rw /waiters Ew.
Qed.

(** What a write of [ps] to the open write port [w] at [a] does, with status [r.1]:
    - a target with room for all the packets gets them at its end;
    - the status is [NO_ERROR] when all targets had room;
    - a reader that got them and that was waited for has lost a waiter;
    - the caller has yielded exactly when somebody was woken. *)
Definition write_result (X : closing) (a : positive) (w : write_port) (ps : list port_packet) (s : ports)
    (r : Z * call unit) (s' : ports) : Prop :=
  ports_inv X s' ∧ objs s' = objs s ∧
  (∀ p cap q, holds X s p cap q →
     holds X s' p cap (if decide (p ∈ targets a w ∧ fits cap q ps) then q ++ ps else q)) ∧
  (r.1 = NO_ERROR ∧ (∀ p cap q, p ∈ targets a w → holds X s p cap q → fits cap q ps) ∨
   r.1 = (if wp_buf w then ERR_NOT_ENOUGH_BUFFER else ERR_PARTIAL_WRITE) ∧
     ∃ p cap q, p ∈ targets a w ∧ holds X s p cap q ∧ ¬ fits cap q ps) ∧
  (∀ p cap q, p ∈ wp_rp_list w → holds X s p cap q → fits cap q ps → waited X s p → relieved X s s' p) ∧
  (r.2 = Switched ∧ (∃ p, p ∈ wp_rp_list w ∧ relieved X s s' p) ∨
   r.2 = Returned () ∧ ∀ c, waiters (pk s') c = waiters (pk s) c).

Lemma wp_port_write X s cpu cur a w ps :
  ports_inv X s → thread_lock (pk s) = false → current (pk s) !! cpu = Some cur →
  objs s !! a = Some (WritePort w) → wp_magic w = WRITEPORT_MAGIC_W →
  wp (port_write cpu (Some a) (Some ps) (Z.of_nat (length ps))) (write_result X a w ps s) s.
Proof.
  intros P Hl Hc Ha Hm. pose proof (closing_not_write _ _ _ _ _ _ (pi_ok _ _ P) Ha) as HXa.
  destruct (po_obj _ _ _ _ (pi_ok _ _ P) _ _ Ha HXa) as (Hbl & Hnd & _).
  apply wp_bind, wp_sched, wp_thread_lock; [done|]. apply wp_bind. eapply wp_deref; [done|].
  set (s0 := set_pk (set_thread_lock true (pk s)) s). assert (ports_inv X s0) as P0 by by apply pi_unlock.
  destruct w as [m buf rps mode name]. simpl in *. subst m. destruct buf as [b|]; apply wp_bind.
  - assert (rps = []) as -> by (destruct rps; [done|]; by destruct Hbl as [_ Hbl]; discriminate Hbl).
    assert (buf_of X (objs s) a = Some b) as Hb by by rw /point HXa Ha.
    destruct (holds_some _ _ _ _ P Hb) as (cap & q & Hh). apply wp_bind.
    eapply (wp_buf_write_to X s0); [done|done|exact Hh| |].
    + intros Hf. apply wp_ret, wp_bind, wp_sched, wp_modify, wp_ret. simpl.
      pose proof (written_skip X ps a s0 cap q P0 Hh Hf) as W. split_and!.
      * by apply (pi_unlock X s0).
      * done.
      * apply W.
      * right. split; [done|]. exists a, cap, q. set_solver.
      * by intros ? ? ? ?%not_elem_of_nil.
      * by right.
    + intros bs' s1 Hf P1 Hh1 Hoth. apply wp_ret, wp_bind, wp_sched, wp_modify, wp_ret. simpl. split_and!.
      * by apply (pi_unlock X s1).
      * done.
      * intros p cap' q' Hh'. destruct (decide (p = a)) as [->|Hne].
        -- destruct (holds_inj _ _ _ _ _ _ _ Hh Hh') as [<- <-]. rw decide_True; [done|set_solver].
        -- rw decide_False; [by apply Hoth|set_solver].
      * left. split; [done|]. intros p cap' q' ->%list_elem_of_singleton Hh'.
        by destruct (holds_inj _ _ _ _ _ _ _ Hh Hh') as [<- <-].
      * by intros ? ? ? ?%not_elem_of_nil.
      * by right.
  - eapply wp_mono; [eapply (wp_write_readers X rps s0); [done..|]|].
    + intros p Hp. by eapply (targets_readers X s a).
    + intros [st aw] s1 (W & Hst & Haw). simpl. apply wp_bind, wp_sched, wp_modify. 
      pose proof (wr_inv _ _ _ _ _ W) as P1. destruct (wr_run _ _ _ _ _ W) as [Er _].
      set (s2 := set_pk (set_thread_lock false (pk s1)) s1). assert (ports_inv X s2) as P2 by by apply pi_unlock.
      simpl in Haw. destruct Haw as [[-> Ek]|[Hlt Hrel]]; simpl.
      * apply wp_ret. split_and!; try apply W; [done|done|]. right. split; [done|]. intros c. by rw /= Ek.
      * rw (proj2 (Z.eqb_neq _ _)); [|simpl in *; lia]. apply wp_bind.
        eapply (wp_port_yield X s2); [done|by rw /= Er|done|]. intros k' P3 Hw _. apply wp_ret.
        assert (∀ p, relieved X s s1 p → relieved X s (set_pk k' s2) p) as Hrl.
        { intros p (c & Hcp & Hlt'). exists c. split; [done|]. by rw /= Hw. }
        split_and!; try apply W; [done|done| |].
        -- intros p cap q Hp Hh Hf Hwt. apply Hrl. by eapply (wr_woken _ _ _ _ _ W).
        -- left. split; [done|]. destruct Hrel as (p & ? & ?). exists p. split; [done|]. by apply Hrl.
Qed.

