(* ===== verification/PortRead.v ===== *)
(** * Reading from ports and port groups *)

From S2P Require Import Prelude Kernel Timer Thread SchedInv KernelInv SchedOps ThreadLife System SchedRun Bits Ring Port PortBuf PortInv PortSafe PortWrite.

(** The caller may block: it is not the idle thread and its stack timer is free. *)
Record may_block (k : kstate) (cpu : nat) (cur : thread_ptr) : Prop := {
  mb_current : current k !! cpu = Some cur;
  mb_not_idle : not_idle k cur;
  mb_timer : ¬ timer_queued k (StackTimer cur)
}.

Lemma wp_port_block X s cpu cur c timeout (Q : call Z → ports → Prop) :
  ports_inv X s → may_block (pk s) cpu cur → thread_lock (pk s) = true → valid_wq (pk s) (ObjWq c) → X !! c = None →
  (timeout = 0 → Q (Returned ERR_TIMED_OUT) s) →
  (∀ k', timeout ≠ 0 → ports_inv X (set_pk k' s) → waiters k' c = waiters (pk s) c ++ [cur] → Q Switched (set_pk k' s)) →
  wp (sched (wait_queue_block cpu (ObjWq c) timeout)) Q s.
Proof.
  intros P [Hc (cth & Hcur & Hid) Hnt] Hl (wq & Hw & Hm) HX HQ0 HQ1. apply wp_sched.
  eapply (wp_wait_queue_block _ _ cur); [apply P|done..| |].
  - intros H0. specialize (HQ0 H0). by destruct s.
  - intros s1 k' Hto _ Ew _ _ Hp I'. pose proof (rp_wait_queues _ _ _ _ Hp) as Ew'. rw Ew in Ew'. apply HQ1; [done| |].
    + eapply (pi_step _ _ _ c); [done..| | |done].
      * intros w Hne. by rw Ew' lookup_alter_ne.
      * eexists. split; [by rw Ew' lookup_alter_eq Hw|done].
    + by rw /waiters Ew' lookup_alter_eq Hw.
Qed.

Lemma pi_results X s r : ports_inv X s → ports_inv X (set_results r s).
Proof. intros P. by eapply pi_intro. Qed.

(** What a read of the port [p], which holds [q], stores and takes. *)
Record read_one (X : closing) (s : ports) (p : positive) (cap : Z) (q : list port_packet) (ctx : Z) (res : positive)
    (s' : ports) : Prop := {
  ro_inv : ports_inv X s';
  ro_objs : objs s' = objs s;
  ro_holds : holds X s' p cap (tail q);
  ro_other a cap' q' : a ≠ p → holds X s a cap' q' → holds X s' a cap' q';
  ro_result r0 : results s !! res = Some r0 →
    results s' !! res = Some (PortResult ctx (default (r_packet r0) (head q)))
}.

Lemma wp_read_no_lock X s cpu cur p rp timeout res r0 cap q (Q : call Z → ports → Prop) :
  ports_inv X s → objs s !! p = Some (ReadPort rp) → X !! p = None → thread_lock (pk s) = true →
  (timeout ≠ 0 → may_block (pk s) cpu cur) → current (pk s) !! cpu = Some cur →
  results s !! res = Some r0 → holds X s p cap q →
  (∀ s', read_one X s p cap q (rp_ctx rp) res s' →
     (q ≠ [] ∧ pk s' = pk s → Q (Returned NO_ERROR) s') ∧
     (q = [] ∧ timeout = 0 ∧ pk s' = pk s → Q (Returned ERR_TIMED_OUT) s') ∧
     (q = [] ∧ timeout ≠ 0 ∧ waiters (pk s') p = waiters (pk s) p ++ [cur] → Q Switched s')) →
  wp (read_no_lock cpu p timeout res) Q s.
Proof.
  intros P Hp HX Hl Hmb Hc Hres Hh HQ. pose proof Hh as (b & v & Hb & Hv & R).
  assert (rp_buf rp = Some b) as Hrb by by rw /point HX Hp in Hb.
  apply wp_bind. eapply wp_deref; [by rw Hp|]. apply wp_bind. eapply wp_deref; [by rw Hrb|].
  pose proof (buf_read_repr v cap q R) as Hr. destruct q as [|x q]; simpl in *.
  - apply wp_bind. eapply wp_deref; [done|]. rw Hrb. apply wp_bind, wp_modify. rw insert_id //.
    apply wp_bind. eapply wp_deref; [done|]. apply wp_bind, wp_modify. simpl. set (s1 := set_results _ _).
    assert (∀ s2, ports_inv X s2 → objs s2 = objs s1 → bufs s2 = bufs s1 → results s2 = results s1 →
      read_one X s p cap [] (rp_ctx rp) res s2) as Hro.
    { intros s2 P' E1 E2 E3. split; rewrite /holds ?E1 ?E2 ?E3; try done. intros r1 ?. simplify_eq. by rw /= lookup_insert_eq. }
    assert (ports_inv X s1) as P1 by (by eapply pi_intro).
    apply wp_if; intros Hto; to_prop; [by apply wp_ret, HQ; [apply Hro|]|].
    eapply (wp_port_block X s1 cpu cur p); [done|by apply Hmb|done|by eapply (pi_wq _ _ P)|done|done|].
    intros k' _ P' Hw. by apply HQ; [apply Hro|].
  - destruct Hr as (v' & Hr & R'). apply wp_bind. eapply wp_deref; [done|]. rw Hrb. apply wp_bind, wp_modify.
    apply wp_bind. eapply wp_deref; [done|]. apply wp_bind, wp_modify, wp_ret.
    destruct (pi_put_buf X s p b v' cap q) as (P1 & Hh1 & Hoth); [done..|]. apply HQ; [|done].
    split; simpl; try done; [by eapply pi_intro|]. intros r1 ?. simplify_eq. by rw /= lookup_insert_eq.
Qed.

Lemma wp_port_read X s cpu cur p rp timeout res r0 cap q :
  ports_inv X s → thread_lock (pk s) = false → may_block (pk s) cpu cur →
  objs s !! p = Some (ReadPort rp) → X !! p = None → results s !! res = Some r0 → holds X s p cap q →
  wp (port_read cpu (Some p) timeout (Some res)) (λ r s',
    read_one X s p cap q (rp_ctx rp) res s' ∧
    match q with
    | _ :: _ => r = Returned NO_ERROR
    | [] => timeout = 0 ∧ r = Returned ERR_TIMED_OUT ∨
            timeout ≠ 0 ∧ r = Switched ∧ waiters (pk s') p = waiters (pk s) p ++ [cur]
    end) s.
Proof.
  intros P Hl Hmb Hp HX Hres Hh. apply wp_bind, wp_sched, wp_thread_lock; [done|].
  set (s0 := set_pk (set_thread_lock true (pk s)) s). assert (ports_inv X s0) as P0 by by apply pi_unlock.
  assert (may_block (pk s0) cpu cur) as Hmb0 by by destruct Hmb.
  apply wp_bind. eapply wp_deref; [done|]. apply wp_bind.
  eapply (wp_read_no_lock X s0); [done..|by apply Hmb|done|done|]. intros s1 R.
  assert (∀ s2, ports_inv X s2 → objs s2 = objs s1 → bufs s2 = bufs s1 → results s2 = results s1 →
    read_one X s p cap q (rp_ctx rp) res s2) as Hro.
  { intros s2 P2 E1 E2 E3. destruct R as [? ? Hh' Ho' ?]. by split; rewrite /holds ?E1 ?E2 ?E3. }
  pose proof (ro_inv _ _ _ _ _ _ _ _ R) as P1. split_and!.
  - intros [Hq _]. apply wp_bind, wp_sched, wp_modify, wp_ret. split; [by apply Hro; [apply pi_unlock|..]|]. by destruct q.
  - intros (-> & -> & _). apply wp_bind, wp_sched, wp_modify, wp_ret. split; [by apply Hro; [apply pi_unlock|..]|]. by left.
  - intros (-> & Hto & Hw). apply wp_ret. split; [by apply Hro|]. by right.
Qed.

(** [port_read] on a read port takes the oldest packet of the port and stores it
    with the context of the port.  When there is none, a read of no time reports
    [ERR_TIMED_OUT], and any other queues the caller behind the threads already
    waiting.  No other port loses or gains a packet. *)
Theorem port_read_spec X s cpu cur p rp timeout res r0 cap q :
  ports_inv X s → thread_lock (pk s) = false → may_block (pk s) cpu cur →
  objs s !! p = Some (ReadPort rp) → X !! p = None → results s !! res = Some r0 → holds X s p cap q →
  wp (port_read cpu (Some p) timeout (Some res)) (λ r s',
    read_one X s p cap q (rp_ctx rp) res s' ∧
    match q with
    | _ :: _ => r = Returned NO_ERROR
    | [] => timeout = 0 ∧ r = Returned ERR_TIMED_OUT ∨
            timeout ≠ 0 ∧ r = Switched ∧ waiters (pk s') p = waiters (pk s) p ++ [cur]
    end) s.
Proof. apply wp_port_read. Qed.

(** ** Groups *)

(** A read of no time of a port without packets changes only the stored context. *)
Definition untouched (X : closing) (s s' : ports) : Prop :=
  ports_inv X s' ∧ objs s' = objs s ∧ pk s' = pk s ∧ (∀ a cap q, holds X s a cap q → holds X s' a cap q).

Lemma untouched_back X s s' a cap q : ports_inv X s → untouched X s s' → holds X s' a cap q → holds X s a cap q.
Proof.
  intros P (_ & Eo & _ & Hu) Hh. pose proof Hh as (b & v & Hb & _). rw Eo in Hb.
  destruct (holds_some X s a b P Hb) as (cap' & q' & Hh'). by destruct (holds_inj _ _ _ _ _ _ _ Hh (Hu _ _ _ Hh')) as [-> ->].
Qed.

Lemma untouched_trans X s1 s2 s3 : untouched X s1 s2 → untouched X s2 s3 → untouched X s1 s3.
Proof. intros (? & E1 & E2 & H1) (? & E3 & E4 & H2). split_and!; [done|congruence..|]. auto. Qed.

Lemma wp_read_group X l s cpu cur res r0 (Q : option Z → ports → Prop) :
  ports_inv X s → thread_lock (pk s) = true → current (pk s) !! cpu = Some cur → results s !! res = Some r0 →
  (∀ p, p ∈ l → X !! p = None ∧ ∃ rp, objs s !! p = Some (ReadPort rp)) →
  (∀ s', (∀ p, p ∈ l → ∃ cap, holds X s p cap []) → untouched X s s' → is_Some (results s' !! res) → Q None s') →
  (∀ l1 p l2 rp cap x q s1 s', l = l1 ++ p :: l2 → (∀ p', p' ∈ l1 → ∃ cap', holds X s p' cap' []) →
     objs s !! p = Some (ReadPort rp) → holds X s p cap (x :: q) → untouched X s s1 →
     read_one X s1 p cap (x :: q) (rp_ctx rp) res s' → is_Some (results s1 !! res) → pk s' = pk s → Q (Some NO_ERROR) s') →
  wp (read_group cpu l res) Q s.
Proof.
  revert s r0 Q. induction l as [|p l IH]; intros s r0 Q P Hl Hc Hres Hrd HQ0 HQ1.
  { apply wp_ret, HQ0; [set_solver|by split_and!|by rw Hres]. }
  destruct (Hrd p) as (HX & rp & Hp); [set_solver|].
  destruct (po_obj _ _ _ _ (pi_ok _ _ P) _ _ Hp HX) as [b Hb].
  destruct (holds_some X s p b P) as (cap & q & Hh); [by rw /point HX Hp|].
  cbn [read_group]. apply wp_bind. eapply (wp_read_no_lock X s); [done..|]. intros s1 R. split_and!.
  - intros [Hq Ek]. apply wp_ret. destruct q as [|x q]; [done|].
    by eapply (HQ1 [] p l rp cap x q s); [done|set_solver|done|done|split_and!|done|rw Hres|].
  - intros (-> & _ & Ek). simpl. assert (untouched X s s1) as U.
    { destruct R as [? ? Hh' Ho' ?]. split_and!; [done..|]. intros a cap' q' Ha. destruct (decide (a = p)) as [->|]; [|by apply Ho'].
      by destruct (holds_inj _ _ _ _ _ _ _ Hh Ha) as [<- <-]. }
    pose proof U as (P1 & E1 & E2 & H1). eapply (IH s1 _); [done|by rw E2..|by apply (ro_result _ _ _ _ _ _ _ _ R)| | |].
    + intros p' Hp'. rw E1. apply Hrd. set_solver.
    + intros s' Hall U' Hr'. apply HQ0; [|by eapply untouched_trans|done].
      intros p' [->|Hin]%elem_of_cons; [by exists cap|]. destruct (Hall p' Hin) as [cap' ?]. exists cap'. by eapply untouched_back.
    + intros l1 p' l2 rp' cap' x q s2 s' -> Hall Hp' Hh' U' R' Hr' Ek'.
      eapply (HQ1 (p :: l1) p' l2 rp' cap' x q s2); [done| |by rw -E1|by eapply untouched_back|by eapply untouched_trans|done|done|congruence].
      intros p0 [->|Hin]%elem_of_cons; [by exists cap|]. destruct (Hall p0 Hin) as [cap0 ?]. exists cap0. by eapply untouched_back.
  - by intros (_ & ? & _).
Qed.

Lemma members_readers X s g pg p :
  ports_inv X s → objs s !! g = Some (PortGroup pg) → p ∈ pg_rp_list pg →
  X !! p = None ∧ ∃ rp, objs s !! p = Some (ReadPort rp).
Proof.
  intros P Hg Hp. pose proof (po_members _ _ _ _ (pi_ok _ _ P) g p) as [Hr _].
  rw {1}/point Hg in Hr. specialize (Hr Hp). rw /point in Hr.
  destruct (objs s !! p) as [[| |]|], (X !! p); try done. eauto.
Qed.

Lemma wp_port_read_group X s cpu cur g pg timeout res r0 :
  ports_inv X s → thread_lock (pk s) = false → may_block (pk s) cpu cur →
  objs s !! g = Some (PortGroup pg) → X !! g = None → results s !! res = Some r0 →
  wp (port_read cpu (Some g) timeout (Some res)) (λ r s', ports_inv X s' ∧ objs s' = objs s ∧
    ((∃ l1 p l2 rp cap x q, pg_rp_list pg = l1 ++ p :: l2 ∧ (∀ p', p' ∈ l1 → ∃ cap', holds X s p' cap' []) ∧
        objs s !! p = Some (ReadPort rp) ∧ holds X s p cap (x :: q) ∧
        r = Returned NO_ERROR ∧ results s' !! res = Some (PortResult (rp_ctx rp) x) ∧ holds X s' p cap q ∧
        ∀ a cap' q', a ≠ p → holds X s a cap' q' → holds X s' a cap' q') ∨
     (∀ p, p ∈ pg_rp_list pg → ∃ cap, holds X s p cap []) ∧ (∀ a cap q, holds X s a cap q → holds X s' a cap q) ∧
       (timeout = 0 ∧ r = Returned ERR_TIMED_OUT ∨
        timeout ≠ 0 ∧ r = Switched ∧ waiters (pk s') g = waiters (pk s) g ++ [cur]))) s.
Proof.
  intros P Hl Hmb Hg HX Hres. apply wp_bind, wp_sched, wp_thread_lock; [done|].
  set (s0 := set_pk (set_thread_lock true (pk s)) s). assert (ports_inv X s0) as P0 by by apply pi_unlock.
  assert (may_block (pk s0) cpu cur) as Hmb0 by by destruct Hmb.
  apply wp_bind. eapply wp_deref; [done|]. apply wp_bind, wp_bind. eapply wp_deref; [by rw /= Hg|]. apply wp_bind.
  eapply (wp_read_group X _ s0); [done|done|apply Hmb|done| | |].
  - intros p. by eapply (members_readers X s).
  - intros s1 Hall (P1 & E1 & E2 & H1) _. eapply (wp_port_block X s1); [done|by rw E2|by rw E2|rw E2; by eapply (pi_wq _ _ P)|done| |].
    + intros ->. apply wp_bind, wp_sched, wp_modify, wp_ret. split_and!; [by apply pi_unlock|done|]. right. split_and!; [done..|by left].
    + intros k' Hto P' Hw. apply wp_ret. split_and!; [done..|]. right. split_and!; [done..|]. right. rw E2 in Hw. done.
  - intros l1 p l2 rp cap x q s1 s' Hlist Hall Hp Hh (P1 & E1 & E2 & H1) [P' E' Hh' Ho' Hr'] Hr1 Ek. apply wp_ret.
    apply wp_bind, wp_sched, wp_modify, wp_ret. split_and!; [by apply pi_unlock|by rw /= E' E1|]. left.
    exists l1, p, l2, rp, cap, x, q. split_and!; try done; [|by intros; apply Ho', H1].
    destruct Hr1 as [r1 Hr1]. by rw /= (Hr' r1).
Qed.

(** [port_read] on a group takes the oldest packet of the first port of the group,
    in the order in which they joined, that has one, and stores it with the
    context of that port.  When none has one, it reports [ERR_TIMED_OUT] for a
    read of no time and otherwise queues the caller last at the group. *)
Theorem port_read_group_spec X s cpu cur g pg timeout res r0 :
  ports_inv X s → thread_lock (pk s) = false → may_block (pk s) cpu cur →
  objs s !! g = Some (PortGroup pg) → X !! g = None → results s !! res = Some r0 →
  wp (port_read cpu (Some g) timeout (Some res)) (λ r s', ports_inv X s' ∧ objs s' = objs s ∧
    ((∃ l1 p l2 rp cap x q, pg_rp_list pg = l1 ++ p :: l2 ∧ (∀ p', p' ∈ l1 → ∃ cap', holds X s p' cap' []) ∧
        objs s !! p = Some (ReadPort rp) ∧ holds X s p cap (x :: q) ∧
        r = Returned NO_ERROR ∧ results s' !! res = Some (PortResult (rp_ctx rp) x) ∧ holds X s' p cap q ∧
        ∀ a cap' q', a ≠ p → holds X s a cap' q' → holds X s' a cap' q') ∨
     (∀ p, p ∈ pg_rp_list pg → ∃ cap, holds X s p cap []) ∧ (∀ a cap q, holds X s a cap q → holds X s' a cap q) ∧
       (timeout = 0 ∧ r = Returned ERR_TIMED_OUT ∨
        timeout ≠ 0 ∧ r = Switched ∧ waiters (pk s') g = waiters (pk s) g ++ [cur]))) s.
Proof. apply wp_port_read_group. Qed.
