(* ===== verification/PortClose.v ===== *)
(** * Destroying and closing ports *)

From S2P Require Import Prelude Kernel Timer Thread SchedInv KernelInv SchedOps ThreadLife System SchedRun Bits Ring Port PortBuf PortInv PortSafe PortWrite PortRead.

(** The wait queue of [c] has been emptied. *)
Lemma pi_step_empty X s k' c :
  ports_inv X s → kinv ∅ ∅ k' → (∀ w, w ≠ ObjWq c → wait_queues k' !! w = wait_queues (pk s) !! w) →
  wait_queues k' !! ObjWq c = Some (WaitQueue WAIT_QUEUE_MAGIC [] 0) → ports_inv X (set_pk k' s).
Proof.
  intros [Hk Ho Hw Hi] I Hsame Hv. split; simpl; try done.
  - intros a o Ha Hn. destruct (decide (a = c)) as [->|Hne]; [by eexists|].
    destruct (Hw a o Ha Hn) as (wq & ? & ?). exists wq. rw Hsame //. by intros [= ->].
  - intros a wq Hc. destruct (decide (a = c)) as [->|Hne]; [rw Hv; by intros [= <-]|].
    rw Hsame; [by apply Hi|]. by intros [= ->].
Qed.

Lemma wp_k_wake_all X s k cpu cur c err (Q : Z → kstate → Prop) :
  ports_inv X (set_pk k s) → current k !! cpu = Some cur → thread_lock k = true → valid_wq k (ObjWq c) →
  (∀ n k', ports_inv X (set_pk k' s) → same_run k k' → waiters k' c = [] → (∀ c', c' ≠ c → waiters k' c' = waiters k c') →
    (∀ t, t ∈ waiters k c → woken t err k') → Q n k') →
  wp (wait_queue_wake_all cpu (ObjWq c) false err) Q k.
Proof.
  intros P Hc Hl (wq & Hw & Hm) HQ. pose proof (pi_kinv _ _ P) as Ik. simpl in Ik.
  destruct (kinv_current _ _ _ _ _ Ik Hc) as (cth & Hcur & _); [set_solver|].
  eapply wp_wait_queue_wake_all; [done..|]. intros k' I' Hl' Hoth Hw' Hwk Hsame. destruct (Hsame eq_refl) as [Hcur' _].
  apply HQ.
  - apply (pi_step_empty X (set_pk k s) k' c); done.
  - by rw /same_run Hl Hl'.
  - by rw /waiters Hw'.
  - intros c' Hne. rw /waiters Hoth //. congruence.
  - intros t. rw /waiters Hw. apply Hwk.
Qed.

(** ** [port_destroy] *)

Lemma wp_detach_readers X l s s0 cpu cur (Q : unit → ports → Prop) :
  ports_inv X (set_pk (pk s) s0) → current (pk s) !! cpu = Some cur → thread_lock (pk s) = true → NoDup l →
  (∀ p, p ∈ l → objs s !! p = objs s0 !! p) →
  (∀ g, as_group <$> objs s0 !! g = as_group <$> objs s !! g) →
  (∀ p, p ∈ l → X !! p = None ∧ ∃ rp, objs s0 !! p = Some (ReadPort rp)) →
  (∀ s', ports_inv X (set_pk (pk s') s0) → same_run (pk s) (pk s') →
     bufs s' = bufs s → write_port_list s' = write_port_list s → results s' = results s →
     (∀ c, objs s' !! c = if decide (c ∈ l) then clear_wport <$> objs s !! c else objs s !! c) →
     (∀ p, p ∈ l → waiters (pk s') p = []) → fewer_waiters s s' → Q () s') →
  wp (detach_readers cpu l) Q s.
Proof.
  revert s. induction l as [|p l IH]; intros s P Hc Hl Hnd Hsame Hgr Hrd HQ.
  { apply wp_ret, HQ; try done; [set_solver|by intros c]. }
  apply NoDup_cons in Hnd as [Hpl Hnd]. destruct (Hrd p) as (HX & rp & Hp0); [set_solver|].
  assert (objs s !! p = Some (ReadPort rp)) as Hp by (rw Hsame; [done|set_solver]).
  cbn [detach_readers]. apply wp_bind. eapply wp_deref; [by rw Hp|].
  apply wp_bind, wp_sched. eapply (wp_k_wake_all X s0); [done..|by eapply (pi_wq _ _ P)|].
  intros n k1 P1 [Er1 El1] Hw1 Ho1 _. apply wp_bind.
  assert (∀ k2, ports_inv X (set_pk k2 s0) → same_run k1 k2 → (∀ c, waiters k2 c `suffix_of` waiters k1 c) →
    wp (put_obj p (ReadPort (set_rp_wport None rp));; detach_readers cpu l) Q (set_pk k2 s)) as Hrest.
  { intros k2 P2 [Er2 El2] Hsuf. apply wp_bind, wp_modify.
    assert (∀ c, waiters k2 c `suffix_of` waiters (pk s) c) as Hsuf'.
    { intros c. etrans; [apply Hsuf|]. destruct (decide (c = p)) as [->|]; [rw Hw1; apply suffix_nil|by rw Ho1]. }
    apply IH; simpl; try done.
    - by rw Er2 Er1.
    - by rw El2 El1.
    - intros a Ha. rw lookup_insert_ne; [apply Hsame; set_solver|set_solver].
    - intros g. rw Hgr lookup_insert. case_decide; [|done]. subst. by rw Hp.
    - intros a Ha. apply Hrd. set_solver.
    - intros s' P' [Er El] E2 E3 E4 Hos Hw Hf. apply HQ; try done.
      + split; simpl in *; congruence.
      + intros c. rw Hos lookup_insert. destruct (decide (c = p)) as [->|Hne].
        * rw decide_False // (decide_True (P := p = p)) // decide_True; [by rw Hp|set_solver].
        * rw (decide_False (P := p = c)); [|done]. destruct (decide (c ∈ l)); [rw decide_True|rw decide_False]; set_solver.
      + intros a [->|Ha]%elem_of_cons; [|by apply Hw]. specialize (Hf p). simpl in Hf.
        assert (waiters k2 p = []) as E by (specialize (Hsuf p); rw Hw1 in Hsuf; by apply suffix_nil_inv).
        rw E in Hf. by apply suffix_nil_inv.
      + intros c. etrans; [apply Hf|]. apply Hsuf'. }
  destruct (rp_gport rp) as [g|] eqn:Eg; [|by apply wp_ret, Hrest].
  pose proof (po_members _ _ _ _ (pi_ok _ _ P) g p) as [_ Hm]. rw {1}/point HX /= Hp0 /= Eg in Hm. specialize (Hm eq_refl). rw /point /= in Hm.
  destruct (objs s0 !! g) as [[| |pg]|] eqn:Hg; try by apply not_elem_of_nil in Hm.
  apply wp_bind. specialize (Hgr g). rw Hg in Hgr. destruct (objs s !! g) as [og|] eqn:Hg'; [|done]. simpl in Hgr.
  eapply wp_deref; [by rw /= Hg' /=; simplify_eq|].
  apply wp_bind, wp_sched. eapply (wp_k_wake_all X s0); [done|by rw Er1|by rw El1|by eapply (pi_wq _ _ P1)|].
  intros n2 k2 P2 Hr2 Hw2 Ho2 _. apply wp_ret. apply (Hrest k2); try done.
  intros c. destruct (decide (c = g)) as [->|]; [rw Hw2; apply suffix_nil|by rw Ho2].
Qed.

(** Each object of [os'] that has a wait queue had one in [os]. *)
Definition no_new_queues (os os' : heap) : Prop :=
  ∀ a o, os' !! a = Some o → as_write o = None → ∃ o', os !! a = Some o' ∧ as_write o' = None.

Lemma removed_queues a l os os' (f : port_obj → port_obj) :
  (∀ o, as_write (f o) = as_write o) → removed a l f os os' → no_new_queues os os'.
Proof.
  intros Hf Hr c o Ho Hn. rw Hr in Ho. case_decide; [done|]. case_decide; [|eauto].
  destruct (os !! c) as [o0|]; [|done]. simplify_eq/=. exists o0. by rw Hf in Hn.
Qed.

(** The write port [w] with the readers [rps] is gone. *)
Record destroyed (X : closing) (w : positive) (rps : list positive) (s s' : ports) : Prop := {
  de_inv : ports_inv X s';
  de_lock : thread_lock (pk s') = false;
  de_list : write_port_list s' = list_without w (write_port_list s);
  de_objs : removed w rps clear_wport (objs s) (objs s');
  de_woken p : p ∈ rps → waiters (pk s') p = [];
  de_fewer : fewer_waiters s s';
  de_holds a cap q : a ≠ w → holds X s a cap q → holds X s' a cap q
}.

Lemma destroy_end X s s1 w wpt :
  ports_inv X s → objs s !! w = Some (WritePort wpt) →
  ports_inv X (set_pk (pk s1) s) → bufs s1 = bufs s → write_port_list s1 = list_without w (write_port_list s) →
  (∀ c, objs s1 !! c = if decide (c ∈ wp_rp_list wpt) then clear_wport <$> objs s !! c else objs s !! c) →
  (∀ p, p ∈ wp_rp_list wpt → waiters (pk s1) p = []) → fewer_waiters s s1 →
  wp (sched THREAD_UNLOCK;; free_buf (wp_buf wpt);; free_obj w;; mret NO_ERROR)
    (λ r s', r = NO_ERROR ∧ destroyed X w (wp_rp_list wpt) s s') s1.
Proof.
  intros P Hw P1 E1 E2 Hos Hwk Hf. pose proof (closing_not_write _ _ _ _ _ _ (pi_ok _ _ P) Hw) as HX.
  assert (buf_of X (objs s) w = wp_buf wpt) as Hbw by by rw /point HX Hw.
  assert (removed w (wp_rp_list wpt) clear_wport (objs s) (delete w (objs s1))) as Hrm.
  { intros c. destruct (decide (c = w)) as [->|]; [by rw lookup_delete_eq|by rw lookup_delete_ne]. }
  apply wp_bind, wp_sched, wp_modify, wp_bind.
  assert (∀ bs', (∀ b, wp_buf wpt ≠ Some b → bs' !! b = bufs s !! b) →
    destroyed X w (wp_rp_list wpt) s
      (Ports (set_thread_lock false (pk s1)) (delete w (objs s1)) bs' (write_port_list s1) (results s1))) as Hend.
  { intros bs' Hbs. split; simpl; try done.
    - pose proof (pi_objs X (set_pk (set_thread_lock false (pk s1)) s) (delete w (objs s1)) bs' (write_port_list s1) X) as Hp.
      eapply pi_intro; [apply Hp|done..]; [exact (pi_unlock _ _ false P1)| |apply (removed_queues w (wp_rp_list wpt) _ _ clear_wport); [by intros []|exact Hrm]|done].
      rw E2. eapply ports_ok_destroy; [apply P|done..].
    - intros a cap q Hne (b & v & Hb & Hv & R). exists b, v. split_and!; [| |done].
      + rw /point /= Hrm decide_False //. case_decide; [|done]. rw /point in Hb. by destruct (objs s !! a) as [[| |]|].
      + simpl. rw Hbs //. intros Eb. rw -Hbw in Eb. apply Hne. by eapply (po_owner _ _ _ _ (pi_ok _ _ P)). }
  rw /free_buf. destruct (wp_buf wpt) as [b|].
  - apply wp_modify, wp_bind, wp_modify, wp_ret. split; [done|]. rw /set_bufs /set_objs /set_pk /= E1.
    apply Hend. intros b' Hb'. rw lookup_delete_ne //. congruence.
  - apply wp_ret, wp_bind, wp_modify, wp_ret. split; [done|]. apply Hend. by rw E1.
Qed.

Lemma wp_port_destroy X s cpu cur w wpt :
  ports_inv X s → thread_lock (pk s) = false → current (pk s) !! cpu = Some cur →
  objs s !! w = Some (WritePort wpt) → wp_magic wpt = WRITEPORT_MAGIC_X →
  wp (port_destroy cpu (Some w)) (λ r s', r = NO_ERROR ∧ destroyed X w (wp_rp_list wpt) s s') s.
Proof.
  intros P Hl Hc Hw Hm. pose proof (closing_not_write _ _ _ _ _ _ (pi_ok _ _ P) Hw) as HX.
  destruct (po_obj _ _ _ _ (pi_ok _ _ P) _ _ Hw HX) as (Hbl & Hnd & _).
  apply wp_bind, wp_sched, wp_thread_lock; [done|]. apply wp_bind. eapply wp_deref; [done|].
  pose proof (pi_unlock _ _ true P) as P0.
  pose proof (λ s1, destroy_end X s s1 w wpt P Hw) as Hend.
  destruct wpt as [m buf rps mode name]. simpl in *. subst m. apply wp_bind, wp_modify, wp_bind.
  destruct buf as [b|].
  - apply wp_ret. assert (rps = []) as -> by (destruct rps; [done|]; by destruct Hbl as [_ Hbl]; discriminate Hbl).
    apply Hend; try done; [set_solver|by intros c].
  - eapply (wp_detach_readers X rps _ s); [done..| |].
    + intros p Hp. by eapply (targets_readers X s w).
    + intros s' P' _ E2 E3 E4 Hos Hw' Hf. by apply Hend.
Qed.

(** ** [port_close] on a read port *)

(** The read port [p] has left its write port and its group. *)
Record left_port (X : closing) (s : ports) (p : positive) (rp : read_port) (buf : option positive) (os' : heap) : Prop := {
  lp_ok : ports_ok (<[p := buf]> X) os' (bufs s) (write_port_list s);
  lp_queues : no_new_queues (objs s) os';
  lp_self : ∃ rp', os' !! p = Some (ReadPort rp');
  lp_bufs a b : a ≠ p → buf_of X (objs s) a = Some b → buf_of (<[p := buf]> X) os' a = Some b;
  lp_back w : rp_wport rp = Some w → readers_of X (objs s) w = [p] → buf_of (<[p := buf]> X) os' w = rp_buf rp
}.

Lemma no_new_queues_out os p : no_new_queues os (out_of_group p <$> os).
Proof.
  intros a o Ho Hn. rw lookup_fmap in Ho. destruct (os !! a) as [o0|]; [|done]. simplify_eq/=. exists o0. by destruct o0.
Qed.

Lemma buf_of_out X os p a : buf_of X (out_of_group p <$> os) a = buf_of X os a.
Proof. rw /point lookup_fmap. by destruct (os !! a) as [[| |]|], (X !! a). Qed.

Lemma buf_of_other (X : closing) os p x a : a ≠ p → buf_of (<[p := x]> X) os a = buf_of X os a.
Proof. intros Hne. by rw /point lookup_insert_ne. Qed.

Lemma left_detached X s p rp :
  ports_inv X s → objs s !! p = Some (ReadPort rp) → X !! p = None → rp_wport rp = None →
  left_port X s p rp None (out_of_group p <$> objs s).
Proof.
  intros P Hp HX Hw. pose proof (ports_ok_leave_group _ _ _ _ _ _ (pi_ok _ _ P) Hp HX) as Pg.
  assert ((out_of_group p <$> objs s) !! p = Some (ReadPort rp)) as Hp' by by rw lookup_fmap Hp.
  split.
  - pose proof (ports_ok_close_detached _ _ _ _ p (set_rp_gport None rp) Pg) as Pc.
    rw lookup_insert_eq in Pc. specialize (Pc eq_refl HX eq_refl Hw).
    eapply (ports_ok_closing_obj _ _ _ _ p None _ rp) in Pc; [|by rw lookup_insert_eq..].
    by rw insert_insert_eq (insert_id _ _ _ Hp') in Pc.
  - apply no_new_queues_out.
  - by exists rp.
  - intros a b Hne Hb. rw buf_of_other; [|done]. by rw buf_of_out.
  - congruence.
Qed.

Lemma left_wport X s p rp b w wpt :
  ports_inv X s → objs s !! p = Some (ReadPort rp) → X !! p = None → rp_wport rp = Some w → rp_buf rp = Some b →
  objs s !! w = Some (WritePort wpt) →
  let l := list_without p (wp_rp_list wpt) in
  left_port X s p rp (if decide (l = []) then None else Some b)
    (out_of_group p <$>
      if decide (l = []) then
        <[p := ReadPort (set_rp_buf None rp)]> (<[w := WritePort (set_wp_buf (Some b) (set_wp_rp_list l wpt))]> (objs s))
      else <[w := WritePort (set_wp_rp_list l wpt)]> (objs s)).
Proof.
  intros P Hp HX Hw Hb Hwp l. pose proof (ports_ok_leave_group _ _ _ _ _ _ (pi_ok _ _ P) Hp HX) as Pg.
  assert (w ≠ p) as Hne by congruence. pose proof (closing_not_write _ _ _ _ _ _ (pi_ok _ _ P) Hwp) as HXw.
  assert ((out_of_group p <$> objs s) !! p = Some (ReadPort rp)) as Hp' by by rw lookup_fmap Hp.
  pose proof (ports_ok_leave_wport _ _ _ _ p (set_rp_gport None rp) w wpt b Pg) as Pc.
  rw lookup_insert_eq lookup_insert_ne // lookup_fmap Hwp in Pc. specialize (Pc eq_refl HX eq_refl Hb Hw eq_refl).
  assert (p ∈ wp_rp_list wpt) as Hin.
  { pose proof (po_readers _ _ _ _ (pi_ok _ _ P) w p) as [_ Hr]. rw {1}/point HX Hp /= Hw in Hr. by rw /point Hwp in Hr; apply Hr. }
  destruct (po_obj _ _ _ _ (pi_ok _ _ P) _ _ Hwp HXw) as (Hbl & Hnd & _).
  assert (wp_buf wpt = None) as Hnb by (apply Hbl; intros E; rw E in Hin; by apply not_elem_of_nil in Hin).
  cbv zeta in Pc. fold l in Pc |- *. destruct (decide (l = [])) as [El|El]; rewrite ?fmap_insert; simpl; split.
  - eapply (ports_ok_closing_obj _ _ _ _ p None _ (set_rp_buf None rp)) in Pc; [|by rw lookup_insert_eq|by rw lookup_insert_ne // lookup_insert_eq].
    by rw insert_3 in Pc.
  - intros a o [[<- <-]|[_ [[<- <-]|[_ ?]]%lookup_insert_Some]]%lookup_insert_Some Hn; [eauto|done|by eapply no_new_queues_out].
  - rw lookup_insert_eq. eauto.
  - intros a b' Ha Hb'. rw buf_of_other; [|done]. rw !point_insert. repeat case_decide; subst; [done|exfalso|by rw buf_of_out].
    by rw /point HXw Hwp /= Hnb in Hb'.
  - intros w' Hw' _. simplify_eq. rw buf_of_other; [|done]. rw !point_insert decide_False // decide_True // HXw. by rw Hb.
  - eapply (ports_ok_closing_obj _ _ _ _ p (Some b) _ rp) in Pc; [|by rw lookup_insert_eq|by rw lookup_insert_ne // lookup_insert_eq].
    rw insert_3 in Pc; [|done].
    rw (insert_id (<[w := _]> (out_of_group p <$> objs s))) in Pc; [|by rw lookup_insert_ne].
    replace (set_wp_rp_list l wpt) with (set_wp_buf None (set_wp_rp_list l wpt)); [done|]. destruct wpt. simpl in *. by subst.
  - intros a o [[<- <-]|[_ ?]]%lookup_insert_Some Hn; [done|by eapply no_new_queues_out].
  - rw lookup_insert_ne //. eauto.
  - intros a b' Ha Hb'. rw buf_of_other; [|done]. rw !point_insert. case_decide; subst; [exfalso|by rw buf_of_out].
    by rw /point HXw Hwp /= Hnb in Hb'.
  - intros w' Hw' Hr. exfalso. simplify_eq. rw /point Hwp /= in Hr. apply El. rw /l Hr. apply list_without_head. apply NoDup_singleton.
Qed.

(** [leave_wport] and the removal from the group, in this order. *)
Lemma wp_leave_ports {B} X s p rp (k : option positive → PT B) (Q : B → ports → Prop) :
  ports_inv X s → objs s !! p = Some (ReadPort rp) → X !! p = None →
  (∀ buf os', left_port X s p rp buf os' → wp (k buf) Q (set_objs os' s)) →
  wp (buf ← leave_wport p rp; when (bool_decide (is_Some (rp_gport rp))) (delete_g_node p);; k buf) Q s.
Proof.
  intros P Hp HX HQ. pose proof (pi_ok _ _ P) as Po.
  assert (∀ buf os1, left_port X s p rp buf (out_of_group p <$> os1) →
    (∀ g pg, os1 !! g = Some (PortGroup pg) ↔ objs s !! g = Some (PortGroup pg)) →
    wp (when (bool_decide (is_Some (rp_gport rp))) (delete_g_node p);; k buf) Q (set_objs os1 s)) as Hgrp.
  { intros buf os1 L Hg1. pose proof (λ g, po_members _ _ _ _ Po g p) as Hm. rw {2}/point HX Hp /= in Hm.
    apply wp_bind, wp_when; intros Hg%bool_decide_eq_true || intros Hg%bool_decide_eq_false.
    - destruct Hg as [g Eg]. specialize (Hm g). rw /point in Hm. apply Hm in Eg.
      destruct (objs s !! g) as [[| |pg]|] eqn:E; try by apply not_elem_of_nil in Eg.
      apply wp_bind, wp_gets, wp_bind, wp_assert; [|apply wp_modify; by apply HQ].
      eapply gport_linked; [by apply Hg1|done].
    - assert (out_of_group p <$> os1 = os1) as E; [|rw E in L; by apply HQ].
      apply out_of_group_id. intros g pg Hg' Hin. apply Hg. apply Hg1 in Hg'. exists g. apply Hm. by rw /point Hg'. }
  destruct (rp_wport rp) as [w|] eqn:Ew.
  2:{ rw /leave_wport Ew. apply wp_bind, wp_ret. specialize (Hgrp None (objs s) (left_detached X s p rp P Hp HX Ew)).
      destruct s. by apply Hgrp. }
  pose proof (po_readers _ _ _ _ Po w p) as [_ Hr]. rw {1}/point HX Hp /= Ew in Hr. specialize (Hr eq_refl). rw /point in Hr.
  destruct (objs s !! w) as [[wpt| |]|] eqn:Hw; try by apply not_elem_of_nil in Hr. simpl in Hr.
  destruct (po_obj _ _ _ _ Po _ _ Hp HX) as [b Hb].
  pose proof (left_wport X s p rp b w wpt P Hp HX Ew Hb Hw) as L. cbv zeta in L.
  rw /leave_wport Ew. apply wp_bind, wp_bind. eapply wp_deref; [by rw /= Hw|].
  apply wp_bind, wp_assert; [by apply bool_decide_eq_true_2|]. simpl.
  destruct (decide (list_without p (wp_rp_list wpt) = [])) as [El|El].
  - rw bool_decide_true; [|done]. apply wp_bind, wp_modify, wp_bind, wp_modify, wp_ret. rw Hb.
    apply (Hgrp _ _ L). intros g pg. rw !lookup_insert. repeat case_decide; subst; naive_solver congruence.
  - rw bool_decide_false; [|done]. apply wp_bind, wp_modify, wp_ret. rw Hb.
    apply (Hgrp _ _ L). intros g pg. rw !lookup_insert. repeat case_decide; subst; naive_solver congruence.
Qed.

(** The invariant after the wait queue of [p] was destroyed and the objects changed. *)
Lemma pi_after X X' s k' os' bs' p res' :
  ports_inv X s → kinv ∅ ∅ k' → (∀ w, w ≠ ObjWq p → wait_queues k' !! w = wait_queues (pk s) !! w) →
  waiters k' p = [] → (is_Some (os' !! p) → valid_wq k' (ObjWq p)) →
  ports_ok X' os' bs' (write_port_list s) → no_new_queues (objs s) os' → (∀ a, a ≠ p → is_Some (X' !! a) → is_Some (X !! a)) →
  ports_inv X' (Ports k' os' bs' (write_port_list s) res').
Proof.
  intros [Hk Ho Hw Hi] I Hsame Hwt Hv Po Hq HX. split; simpl; try done.
  - intros a o Ha Hn. destruct (decide (a = p)) as [->|Hne]; [by apply Hv; rw Ha|].
    destruct (Hq a o Ha Hn) as (o' & ? & ?). destruct (Hw a o') as (wq & ? & ?); [done..|]. exists wq. rw Hsame //. congruence.
  - intros a wq Hc Hwq. destruct (decide (a = p)) as [->|Hne]; [by rw /waiters Hwq in Hwt|].
    rw Hsame in Hwq; [|congruence]. by eapply Hi; [apply HX|].
Qed.

Lemma wp_k_destroy X s k cpu cur p o (Q : call unit → kstate → Prop) :
  ports_inv X (set_pk k s) → objs s !! p = Some o → as_write o = None →
  current k !! cpu = Some cur → not_idle k cur → thread_lock k = true →
  (∀ r k', kinv ∅ ∅ k' → (∀ w, w ≠ ObjWq p → wait_queues k' !! w = wait_queues k !! w) → waiters k' p = [] →
    (∀ t, t ∈ waiters k p → woken t ERR_OBJECT_DESTROYED k') → (r = Switched → valid_wq k' (ObjWq p)) → Q r k') →
  wp (wait_queue_destroy cpu (ObjWq p) true) Q k.
Proof.
  intros P Hp Hn Hc (cth & Hcur & Hid) Hl HQ. destruct (pi_wq _ _ P p o Hp Hn) as (wq & Hw & Hm). simpl in *.
  eapply (wp_wait_queue_destroy _ _ cur); [apply P|done..|]. intros r k' I' Hwk Hw' Hoth. apply HQ; [done..| | |].
  - by rw /waiters Hw'.
  - intros t. rw /waiters Hw. apply Hwk.
  - intros ->. by eexists.
Qed.

(** The closing ports after a call of [port_close] on [p]. *)
Definition closing_after {A} (X : closing) (p : positive) (buf : option positive) (r : call A) : closing :=
  match r with Switched => <[p := buf]> X | Returned _ => X end.

Lemma closed_objs X s p rp buf os' bs' :
  ports_inv X s → X !! p = None → left_port X s p rp buf os' → (∀ b, buf ≠ Some b → bs' !! b = bufs s !! b) →
  ports_ok X (delete p os') bs' (write_port_list s) ∧ no_new_queues (objs s) (delete p os').
Proof.
  intros P HX L Hbs. destruct (lp_self _ _ _ _ _ _ L) as [rp' Hp']. split.
  - pose proof (ports_ok_closed (<[p := buf]> X) os' (bufs s) bs' (write_port_list s) p buf rp' (lp_ok _ _ _ _ _ _ L)) as Pc.
    rw lookup_insert_eq delete_insert_id // in Pc. by apply Pc.
  - intros a o [_ Ha]%lookup_delete_Some. by apply (lp_queues _ _ _ _ _ _ L).
Qed.

(** What the ports hold after [p] has left and its buffer, unless handed over, is
    gone. *)
Lemma left_holds X X' s s' p rp buf os' :
  left_port X s p rp buf os' → objs s !! p = Some (ReadPort rp) → X !! p = None →
  (∀ a, a ≠ p → buf_of X' (objs s') a = buf_of (<[p := buf]> X) os' a) → (∀ b, buf ≠ Some b → bufs s' !! b = bufs s !! b) →
  (∀ a cap q, a ≠ p → holds X s a cap q → holds X' s' a cap q) ∧
  (∀ w cap q, w ≠ p → rp_wport rp = Some w → readers_of X (objs s) w = [p] → holds X s p cap q → holds X' s' w cap q).
Proof.
  intros L Hp HX Hb Hbs.
  assert (∀ a b v cap q, a ≠ p → buf_of (<[p := buf]> X) os' a = Some b → bufs s !! b = Some v → buf_repr v cap q →
    holds X' s' a cap q) as Hh.
  { intros a b v cap q Hne Hab Hv R. exists b, v. split_and!; [by rw Hb| |done]. rw Hbs //. intros ->. apply Hne.
    eapply (po_owner _ _ _ _ (lp_ok _ _ _ _ _ _ L)); [done|]. by rw /point lookup_insert_eq. }
  split.
  - intros a cap q Hne (b & v & Hab & Hv & R). eapply Hh; [done|by apply (lp_bufs _ _ _ _ _ _ L)|done..].
  - intros w cap q Hne Hw Hr (b & v & Hab & Hv & R). eapply Hh; [done| |done..].
    rw (lp_back _ _ _ _ _ _ L w) //. by rw /point HX Hp in Hab.
Qed.

(** A port that is closing or gone is on no list. *)
Lemma gone_unlinked X s p :
  ports_inv X s → is_Some (X !! p) ∨ objs s !! p = None →
  (∀ w, p ∉ readers_of X (objs s) w) ∧ (∀ g, p ∉ members_of X (objs s) g).
Proof.
  intros P Hg. pose proof (pi_ok _ _ P) as Po.
  assert (wport_of X (objs s) p = None ∧ gport_of X (objs s) p = None) as [E1 E2].
  { rw /point. destruct Hg as [[x ->]| ->]; [|done]. by destruct (objs s !! p) as [[| |]|]. }
  split; intros c; [rw (po_readers _ _ _ _ Po)|rw (po_members _ _ _ _ Po)]; congruence.
Qed.

Lemma wp_port_close_read X s cpu cur p rp :
  ports_inv X s → thread_lock (pk s) = false → current (pk s) !! cpu = Some cur → not_idle (pk s) cur →
  objs s !! p = Some (ReadPort rp) → X !! p = None →
  wp (port_close cpu (Some p)) (λ r s', let X' := closing_after X p r.1 r.2 in
    ports_inv X' s' ∧ (r.2 = Switched ∨ r.2 = Returned NO_ERROR ∧ objs s' !! p = None) ∧
    (∀ w, p ∉ readers_of X' (objs s') w) ∧ (∀ g, p ∉ members_of X' (objs s') g) ∧ waiters (pk s') p = [] ∧
    (∀ a cap q, a ≠ p → holds X s a cap q → holds X' s' a cap q) ∧
    (∀ w cap q, rp_wport rp = Some w → readers_of X (objs s) w = [p] → holds X s p cap q → holds X' s' w cap q)) s.
Proof.
  intros P Hl Hc Hni Hp HX. apply wp_bind, wp_sched, wp_thread_lock; [done|]. apply wp_bind. eapply wp_deref; [done|].
  set (s0 := set_pk (set_thread_lock true (pk s)) s). assert (ports_inv X s0) as P0 by by apply pi_unlock.
  eapply (wp_leave_ports X s0); [done..|]. intros buf os' L. apply wp_bind, wp_sched.
  assert (∀ w, rp_wport rp = Some w → w ≠ p) as Hwne.
  { intros w Hw ->. pose proof (po_readers _ _ _ _ (pi_ok _ _ P) p p) as [_ Hr]. rw /point HX Hp /= Hw in Hr.
    by specialize (Hr eq_refl); apply not_elem_of_nil in Hr. }
  eapply (wp_k_destroy X s0 _ _ cur p); [exact P0|done..|]. intros r k' I' Hsame Hwt Hwk Hv. destruct r as [[]|].
  - set (bs' := match buf with Some b => delete b (bufs s) | None => bufs s end).
    assert (∀ b, buf ≠ Some b → bs' !! b = bufs s !! b) as Hbs.
    { intros b Hb. rw /bs'. destruct buf as [b0|]; [|done]. rw lookup_delete_ne //. congruence. }
    destruct (closed_objs X s0 p rp buf os' bs' P0 HX L Hbs) as [Po' Hq'].
    set (s' := Ports (set_thread_lock false k') (delete p os') bs' (write_port_list s) (results s)).
    assert (ports_inv X s') as P'.
    { apply (pi_after X X s0 _ _ _ p); try done; [kinv_frame|]. rw lookup_delete_eq. by intros []. }
    destruct (left_holds X X s0 s' p rp buf os' L Hp HX) as [H1 H2]; [|done|].
    { intros a Hne. by rw /point /= lookup_delete_ne // lookup_insert_ne. }
    destruct (gone_unlinked X s' p P') as [H3 H4]; [right; by rw /= lookup_delete_eq|].
    assert (∀ Q : option positive * call Z → ports → Prop, Q (buf, Returned NO_ERROR) s' →
      wp (rc ← close_read_finish p buf; mret (buf, Returned rc)) Q (set_pk k' (set_objs os' s0))) as Hend.
    { intros Q HQ. apply wp_bind, wp_bind, wp_sched, wp_modify, wp_bind. rw /free_buf.
      destruct buf as [b|]; [apply wp_modify|apply wp_ret]; by apply wp_bind, wp_modify, wp_ret, wp_ret. }
    apply Hend. split_and!; try done; [right; split; [done|by rw /= lookup_delete_eq]|]. intros w cap q Hw. by apply H2; [apply Hwne|].
  - apply wp_ret. simpl. set (s' := set_pk k' (set_objs os' s0)).
    assert (ports_inv (<[p := buf]> X) s') as P'.
    { apply (pi_after X _ s0 _ _ _ p); try done; [intros _; by apply Hv|apply L|apply L|]. intros a Hne. by rw lookup_insert_ne. }
    destruct (left_holds X (<[p := buf]> X) s0 s' p rp buf os' L Hp HX) as [H1 H2]; [done..|].
    destruct (gone_unlinked (<[p := buf]> X) s' p P') as [H3 H4]; [left; by rw lookup_insert_eq|].
    split_and!; try done; [by left|]. intros w cap q Hw. by apply H2; [apply Hwne|].
Qed.

(** [port_close] on a read port takes it off its write port and its group and
    wakes every thread that waits on it.  The last reader of a write port gives
    its packets back: they are then pending in the write port.  The packets of
    all other ports stay.  When threads were woken, the call has rescheduled and
    the port is gone once it finishes. *)
Theorem port_close_read_spec X s cpu cur p rp :
  ports_inv X s → thread_lock (pk s) = false → current (pk s) !! cpu = Some cur → not_idle (pk s) cur →
  objs s !! p = Some (ReadPort rp) → X !! p = None →
  wp (port_close cpu (Some p)) (λ r s', let X' := closing_after X p r.1 r.2 in
    ports_inv X' s' ∧ (r.2 = Switched ∨ r.2 = Returned NO_ERROR ∧ objs s' !! p = None) ∧
    (∀ w, p ∉ readers_of X' (objs s') w) ∧ (∀ g, p ∉ members_of X' (objs s') g) ∧ waiters (pk s') p = [] ∧
    (∀ a cap q, a ≠ p → holds X s a cap q → holds X' s' a cap q) ∧
    (∀ w cap q, rp_wport rp = Some w → readers_of X (objs s) w = [p] → holds X s p cap q → holds X' s' w cap q)) s.
Proof. apply wp_port_close_read. Qed.

(** The rest of [port_close] on a read port, after a reschedule. *)
Lemma port_close_read_resume_safe X s p buf rp :
  ports_inv X s → X !! p = Some buf → objs s !! p = Some (ReadPort rp) →
  wp (port_close_read_resume p buf) (λ r s', r = NO_ERROR ∧ ports_inv (delete p X) s' ∧ thread_lock (pk s') = false) s.
Proof.
  intros P HX Hp. destruct (pi_wq _ _ P p _ Hp) as (wq & Hw & Hm); [done|].
  assert (wq_list wq = []) as Hn by (by eapply (pi_idle _ _ P p); [eexists|]).
  apply wp_bind, wp_sched. eapply wp_upd_wq; [done|]. 
  set (k' := set_wait_queues _ _). assert (kinv ∅ ∅ k') as Ik by (eapply (kinv_wq_retire (pk s)); [apply P|done..]).
  assert (∀ bs', (∀ b, buf ≠ Some b → bs' !! b = bufs s !! b) →
    ports_inv (delete p X) (Ports (set_thread_lock false k') (delete p (objs s)) bs' (write_port_list s) (results s))) as Hend.
  { intros bs' Hbs. apply (pi_after X (delete p X) s _ _ _ p); try done.
    - kinv_frame.
    - intros w Hne. by rw /= lookup_alter_ne.
    - by rw /waiters /= lookup_alter_eq Hw.
    - rw lookup_delete_eq. by intros [].
    - by eapply ports_ok_closed; [apply P|..].
    - intros a o [_ Ha]%lookup_delete_Some Ho. eauto.
    - intros a Hne. by rw lookup_delete_ne. }
  apply wp_bind, wp_sched, wp_modify, wp_bind. rw /free_buf.
  destruct buf as [b|]; [apply wp_modify|apply wp_ret]; apply wp_bind, wp_modify, wp_ret; (split_and!; [done| |done]).
  - apply Hend. intros b' Hb'. rw lookup_delete_ne //. congruence.
  - by apply Hend.
Qed.

(** ** [port_close] on a group *)

Lemma clear_members_spec l s (Q : unit → ports → Prop) :
  (∀ p, p ∈ l → ∃ rp, objs s !! p = Some (ReadPort rp)) → NoDup l →
  (∀ os', (∀ c, os' !! c = if decide (c ∈ l) then clear_gport <$> objs s !! c else objs s !! c) → Q () (set_objs os' s)) →
  wp (clear_members l) Q s.
Proof.
  revert s. induction l as [|p l IH]; intros s Hr Hnd HQ.
  - apply wp_ret. specialize (HQ (objs s)). destruct s. apply HQ. by intros c.
  - apply NoDup_cons in Hnd as [Hp Hnd]. destruct (Hr p) as [rp Hrp]; [set_solver|]. cbn [clear_members].
    apply wp_bind. eapply wp_deref; [by rw Hrp|]. apply wp_bind, wp_modify. apply IH; [|done|].
    + intros a Ha. rw /= lookup_insert_ne; [|set_solver]. apply Hr. set_solver.
    + intros os' Hos. apply HQ. intros c. rw Hos /= lookup_insert. destruct (decide (c = p)) as [->|Hne].
      * rw decide_False // (decide_True (P := p = p)) // decide_True; [by rw Hrp|set_solver].
      * rw (decide_False (P := p = c)); [|done]. destruct (decide (c ∈ l)); [rw decide_True|rw decide_False]; set_solver.
Qed.

Lemma ports_ok_closing_group X os bs wl g pg :
  ports_ok X os bs wl → os !! g = Some (PortGroup pg) → X !! g = None → ports_ok (<[g := None]> X) os bs wl.
Proof.
  intros P Hg HX.
  assert (∀ A (f : _ → _ → A) a, f (Some None) (Some (PortGroup pg)) = f None (Some (PortGroup pg)) →
    point f (<[g := None]> X) os a = point f X os a) as Es.
  { intros A f a E. rw /point lookup_insert. case_decide; subst; [by rw Hg HX|done]. }
  split.
  - intros a o Ho [? _]%lookup_insert_None. by eapply P.
  - intros a. rw lookup_insert. case_decide; subst; intros Hc; [|by apply P].
    exists (PortGroup pg). split_and!; [done..|]. right. split; [by eapply P|done].
  - intros w q. rw !Es //; apply P.
  - intros g' q. rw !Es //; apply P.
  - intros a b. rw !Es //; apply P.
  - intros a1 a2 b. rw !Es //; apply P.
  - apply P.
  - intros w. rw !Es //. apply P.
  - intros w w' n. rw !Es //. apply P.
Qed.

(** The end of [port_close] on a group, whose wait queue is gone in [k']. *)
Lemma wp_close_group_finish X s k' g pg :
  ports_inv X s → objs s !! g = Some (PortGroup pg) → kinv ∅ ∅ k' →
  (∀ w, w ≠ ObjWq g → wait_queues k' !! w = wait_queues (pk s) !! w) → waiters k' g = [] →
  wp (close_group_finish g) (λ r s', r = NO_ERROR ∧ ports_inv (delete g X) s' ∧ thread_lock (pk s') = false ∧
    removed g (pg_rp_list pg) clear_gport (objs s) (objs s') ∧ bufs s' = bufs s) (set_pk k' s).
Proof.
  intros P Hg I' Hsame Hwt. apply wp_bind. eapply wp_deref; [by rw /= Hg|].
  apply wp_bind, clear_members_spec.
  - intros p Hp. by destruct (members_readers X s g pg p P Hg Hp).
  - destruct (X !! g) as [x|] eqn:E; [|by apply (po_obj _ _ _ _ (pi_ok _ _ P) _ _ Hg)].
    destruct (po_closing _ _ _ _ (pi_ok _ _ P) g) as (o & Ho & _ & [?|[? _]]); [by rw E|by simplify_eq|]. by simplify_eq.
  - intros os' Hos. apply wp_bind, wp_sched, wp_modify, wp_bind, wp_modify, wp_ret. simpl in *.
    assert (removed g (pg_rp_list pg) clear_gport (objs s) (delete g os')) as Hrm.
    { intros c. destruct (decide (c = g)) as [->|]; [by rw lookup_delete_eq|by rw lookup_delete_ne]. }
    split_and!; [done| |done|done|done].
    apply (pi_after X (delete g X) s _ _ _ g); try done.
    + kinv_frame.
    + rw lookup_delete_eq. by intros [].
    + eapply ports_ok_ungroup; [apply P|done..].
    + apply (removed_queues g (pg_rp_list pg) _ _ clear_gport); [by intros []|done].
    + intros a Hne. by rw lookup_delete_ne.
Qed.

Lemma port_close_group_safe X s cpu cur g pg :
  ports_inv X s → thread_lock (pk s) = false → current (pk s) !! cpu = Some cur → not_idle (pk s) cur →
  objs s !! g = Some (PortGroup pg) → X !! g = None →
  wp (port_close cpu (Some g)) (λ r s', r.1 = None ∧ ports_inv (closing_after X g None r.2) s' ∧
    match r.2 with
    | Returned rc => rc = NO_ERROR ∧ thread_lock (pk s') = false ∧ removed g (pg_rp_list pg) clear_gport (objs s) (objs s')
    | Switched => objs s' = objs s
    end) s.
Proof.
  intros P Hl Hc Hni Hg HX. apply wp_bind, wp_sched, wp_thread_lock; [done|]. apply wp_bind. eapply wp_deref; [done|].
  set (s0 := set_pk (set_thread_lock true (pk s)) s). assert (ports_inv X s0) as P0 by by apply pi_unlock.
  apply wp_bind, wp_sched. eapply (wp_k_destroy X s0 _ _ cur g); [exact P0|done..|].
  intros r k' I' Hsame Hwt Hwk Hv. destruct r as [[]|].
  - apply wp_bind. eapply wp_mono; [by apply (wp_close_group_finish X s0 k' g pg)|]. intros rc s' (-> & P' & ? & ? & _).
    apply wp_ret. simpl. split_and!; [done| |done|done|done]. by rw delete_id in P'.
  - apply wp_ret. simpl. split_and!; [done| |done].
    apply (pi_after X _ s0 _ _ _ g); try done.
    + intros _. by apply Hv.
    + by eapply ports_ok_closing_group; [apply P|..].
    + intros a o Ha Ho. eauto.
    + intros a Hne. by rw lookup_insert_ne.
Qed.

Lemma port_close_group_resume_safe X s g pg :
  ports_inv X s → is_Some (X !! g) → objs s !! g = Some (PortGroup pg) →
  wp (port_close_group_resume g) (λ r s', r = NO_ERROR ∧ ports_inv (delete g X) s' ∧ thread_lock (pk s') = false) s.
Proof.
  intros P HX Hg. destruct (pi_wq _ _ P g _ Hg) as (wq & Hw & Hm); [done|].
  assert (wq_list wq = []) as Hn by by eapply (pi_idle _ _ P).
  apply wp_bind, wp_sched. eapply wp_upd_wq; [done|].
  eapply wp_mono; [eapply (wp_close_group_finish X s _ g pg); [done..| | |]|].
  - eapply (kinv_wq_retire (pk s)); [apply P|done..].
  - intros w Hne. by rw /= lookup_alter_ne.
  - by rw /waiters /= lookup_alter_eq Hw.
  - by intros rc s' (-> & P' & ? & _).
Qed.
