(* ===== verification/PortSystem.v ===== *)
(** * The port subsystem as a whole

    Any sequence of port calls, with scheduler activity in between: the invariant
    of [PortSafe] holds in every reachable state and every call on valid handles
    completes.  [port_group_remove] is not among the calls: [port_removed_faults]
    shows why.

    Then a run of the model from boot: a broadcast port with two readers in a group,
    and a thread that waits on the group.  It gives the instances of the theorems
    about ports, and the runs behind three observations on [port.c]. *)

From S2P Require Import Prelude Kernel Timer Thread SchedInv KernelInv SchedOps ThreadLife System SchedRun MutexSpec Bits Ring Port.
From S2P Require Import PortBuf PortInv PortSafe PortWrite PortRead PortClose.

Inductive port_call :=
| CallPortCreate (mem bmem : option positive) (name : option string) (mode : Z) (port : bool)
| CallPortOpen (mem bmem : option positive) (name : option string) (ctx : Z) (port : bool)
| CallPortGroup (mem : option positive) (ps : option (list positive)) (count : Z) (group : bool)
| CallPortGroupAdd (g p : option positive)
| CallPortWrite (p : option positive) (ps : list port_packet)
| CallPortRead (p : option positive) (timeout : Z) (res : option positive)
| CallPortReadResume (p : positive) (timeout : Z) (res : positive)
| CallPortReadGroupResume (g : positive) (timeout : Z) (res : positive)
| CallPortDestroy (p : option positive)
| CallPortClose (p : option positive)
| CallPortCloseResume (p : positive).

(** The call on [cpu], with the ports that are closing before and after it.  A
    thread that runs again holds [thread_lock]; whoever runs at the end releases
    it. *)
Definition exec_port (cpu : nat) (X : closing) (c : port_call) : PT closing :=
  match c with
  | CallPortCreate mem bmem name mode port => port_create mem bmem name mode port;; mret X
  | CallPortOpen mem bmem name ctx port => port_open mem bmem name ctx port;; mret X
  | CallPortGroup mem ps count group => port_group mem ps count group;; mret X
  | CallPortGroupAdd g p => port_group_add cpu g p;; mret X
  | CallPortWrite p ps => port_write cpu p (Some ps) (Z.of_nat (length ps));; sched THREAD_UNLOCK;; mret X
  | CallPortRead p timeout res => port_read cpu p timeout res;; sched THREAD_UNLOCK;; mret X
  | CallPortReadResume p timeout res =>
      sched THREAD_LOCK;; port_read_resume cpu p timeout res;; sched THREAD_UNLOCK;; mret X
  | CallPortReadGroupResume g timeout res =>
      sched THREAD_LOCK;; port_read_group_resume cpu g timeout res;; sched THREAD_UNLOCK;; mret X
  | CallPortDestroy p => port_destroy cpu p;; mret X
  | CallPortClose p =>
      '(buf, r) ← port_close cpu p;
      sched THREAD_UNLOCK;;
      mret (match p with Some p => closing_after X p buf r | None => X end)
  | CallPortCloseResume p =>
      sched THREAD_LOCK;;
      o ← get_obj p;
      (if as_group o then port_close_group_resume p else port_close_read_resume p (default None (X !! p)));;
      mret (delete p X)
  end.

(** Memory the heap has just handed out *)
Definition fresh_port (s : ports) (mem : option positive) : Prop :=
  ∀ a, mem = Some a → objs s !! a = None ∧ ∀ wq, wait_queues (pk s) !! ObjWq a = Some wq → wq_list wq = [].

Definition fresh_buf (s : ports) (bmem : option positive) : Prop := ∀ b, bmem = Some b → bufs s !! b = None.

(** The stack timer of a thread that waited with this timeout *)
Definition timer_ready (k : kstate) (cur : thread_ptr) (timeout : Z) : Prop :=
  if decide (timeout = INFINITE_TIME) then ¬ timer_queued k (StackTimer cur)
  else ∃ tm, timers k !! StackTimer cur = Some tm ∧ tm_magic tm = TIMER_MAGIC.

(** What the caller [cur] guarantees: handles of objects that are not being
    closed, memory from the heap that is not in use, a result structure, and no
    blocking from the idle thread. *)
Definition port_call_ok (cpu : nat) (cur : thread_ptr) (X : closing) (c : port_call) (s : ports) : Prop :=
  match c with
  | CallPortCreate mem bmem _ _ _ => (∀ a, mem = Some a → objs s !! a = None) ∧ fresh_buf s bmem
  | CallPortOpen mem bmem _ _ _ => fresh_port s mem ∧ fresh_buf s bmem
  | CallPortGroup mem ps count _ => fresh_port s mem ∧ 0 ≤ count ∧
      ∀ l, ps = Some l → live_ports X s l ∧ count ≤ Z.of_nat (length l)
  | CallPortGroupAdd g p => live_ports X s (option_list g ++ option_list p)
  | CallPortWrite p _ | CallPortDestroy p => ∀ a, p = Some a → is_Some (objs s !! a)
  | CallPortRead p timeout res => live_ports X s (option_list p) ∧ (∀ a, res = Some a → is_Some (results s !! a)) ∧
      may_block (pk s) cpu cur
  | CallPortReadResume p timeout res => X !! p = None ∧ (∃ rp, objs s !! p = Some (ReadPort rp)) ∧
      is_Some (results s !! res) ∧ not_idle (pk s) cur ∧ timer_ready (pk s) cur timeout
  | CallPortReadGroupResume g timeout res => X !! g = None ∧ (∃ pg, objs s !! g = Some (PortGroup pg)) ∧
      is_Some (results s !! res) ∧ not_idle (pk s) cur ∧ timer_ready (pk s) cur timeout
  | CallPortClose p => live_ports X s (option_list p) ∧ not_idle (pk s) cur
  | CallPortCloseResume p => is_Some (X !! p)
  end.

Definition ports_safe (X : closing) (s : ports) : Prop := ports_inv X s ∧ thread_lock (pk s) = false.

(** ** Reading and resuming *)

Lemma wp_port_unlock X s {A} (m : PT A) (r : closing) :
  wp m (λ _ s', ports_inv X s') s → wp (m;; sched THREAD_UNLOCK;; mret r) (λ X' s', X' = r ∧ ports_safe X s') s.
Proof.
  intros W. apply wp_bind. eapply wp_mono; [exact W|]. intros a s' P. apply wp_bind, wp_sched, wp_modify, wp_ret.
  split; [done|]. split; [by apply pi_unlock|done].
Qed.

Lemma port_read_safe X s cpu cur p timeout res :
  ports_safe X s → port_call_ok cpu cur X (CallPortRead p timeout res) s →
  wp (port_read cpu p timeout res) (λ _ s', ports_inv X s') s.
Proof.
  intros [P Hl] (Hlive & Hres & Hmb). destruct p as [p|]; [|by apply wp_ret]. destruct res as [res|]; [|by apply wp_ret].
  apply Forall_cons in Hlive as [[[o Ho] HX] _]. destruct (Hres _ eq_refl) as [r0 Hr0]. destruct o as [w|rp|pg].
  - apply wp_bind, wp_sched, wp_thread_lock; [done|]. apply wp_bind. eapply wp_deref; [done|].
    apply wp_bind, wp_ret, wp_bind, wp_sched, wp_modify, wp_ret. by apply (pi_unlock _ _ false) in P.
  - destruct (po_obj _ _ _ _ (pi_ok _ _ P) _ _ Ho HX) as [b Hb].
    destruct (holds_some X s p b P) as (cap & q & Hh); [by rw /point HX Ho|].
    eapply wp_mono; [eapply (wp_port_read X s cpu cur p rp); done|]. intros r s' [R _]. apply R.
  - eapply wp_mono; [eapply (wp_port_read_group X s cpu cur p pg); done|]. by intros r s' (? & _).
Qed.

(** [wait_queue_block_resume] of a thread that waited on a port *)
Lemma wp_port_resume X s cpu cur timeout (Q : Z → ports → Prop) :
  ports_inv X s → current (pk s) !! cpu = Some cur → not_idle (pk s) cur → timer_ready (pk s) cur timeout →
  (∀ wr k', ports_inv X (set_pk k' s) → may_block k' cpu cur → thread_lock k' = thread_lock (pk s) → Q wr (set_pk k' s)) →
  wp (sched (wait_queue_block_resume cpu timeout)) Q s.
Proof.
  intros P Hc Hni Ht HQ. pose proof Hni as (cth & Hcur & Hid). apply wp_sched. rw /timer_ready in Ht. case_decide as Hto.
  - subst timeout. apply wp_bind. eapply wp_deref; [done|]. apply wp_bind, wp_ret, wp_bind. eapply wp_get_thread; [done|].
    apply wp_ret. apply HQ; [by destruct s| |done]. by split.
  - eapply (wp_wait_queue_block_resume _ _ cur); [apply P|done..|]. intros k' I' Et El Ew Ec Hnq.
    apply HQ; [by apply pi_frame| |done]. split; [by rw Ec|by exists cth; rw Et|by apply Hnq].
Qed.

Lemma port_read_resume_safe X s cpu cur p timeout res :
  ports_inv X s → thread_lock (pk s) = true → current (pk s) !! cpu = Some cur →
  port_call_ok cpu cur X (CallPortReadResume p timeout res) s →
  wp (port_read_resume cpu p timeout res) (λ _ s', ports_inv X s') s.
Proof.
  intros P Hl Hc (HX & (rp & Hp) & [r0 Hr0] & Hni & Ht). apply wp_bind, wp_bind.
  eapply (wp_port_resume X); [done..|]. intros wr k' P' Hmb Hl'.
  apply wp_if; intros _; [apply wp_ret, wp_bind, wp_sched, wp_modify, wp_ret; by apply (pi_unlock _ _ false) in P'|].
  destruct (po_obj _ _ _ _ (pi_ok _ _ P) _ _ Hp HX) as [b Hb].
  destruct (holds_some X (set_pk k' s) p b P') as (cap & q & Hh); [by rw /point HX /= Hp|].
  eapply (wp_read_no_lock X (set_pk k' s) cpu cur p rp timeout res r0 cap q); try done; [by rw /= Hl'|apply Hmb|].
  intros s1 R. split_and!; intros _; (apply wp_ret || apply wp_bind, wp_sched, wp_modify, wp_ret); [..|apply R]; apply pi_unlock, R.
Qed.

Lemma port_read_group_resume_safe X s cpu cur g timeout res :
  ports_inv X s → thread_lock (pk s) = true → current (pk s) !! cpu = Some cur →
  port_call_ok cpu cur X (CallPortReadGroupResume g timeout res) s →
  wp (port_read_group_resume cpu g timeout res) (λ _ s', ports_inv X s') s.
Proof.
  intros P Hl Hc (HX & (pg & Hg) & [r0 Hr0] & Hni & Ht). apply wp_bind.
  eapply (wp_port_resume X); [done..|]. intros rc k' P' Hmb Hl'. apply wp_bind.
  apply wp_if; intros _; [|apply wp_ret, wp_bind, wp_sched, wp_modify, wp_ret; by apply (pi_unlock _ _ false) in P'].
  apply wp_bind. eapply wp_deref; [by rw /= Hg|]. apply wp_bind.
  eapply (wp_read_group X _ (set_pk k' s) cpu cur); [done|by rw /= Hl'|apply Hmb|done| | |].
  - intros p. by eapply (members_readers X s).
  - intros s1 _ (P1 & E1 & E2 & _) _. eapply (wp_port_block X s1); [done|by rw E2|by rw E2 /= Hl'|rw E2; by eapply (pi_wq _ _ P')|done| |].
    + intros _. apply wp_bind, wp_sched, wp_modify, wp_ret. by apply pi_unlock.
    + intros k2 _ P2 _. by apply wp_ret.
  - intros l1 p l2 rp cap x q s1 s' _ _ _ _ _ R _ _. apply wp_ret, wp_bind, wp_sched, wp_modify, wp_ret. apply pi_unlock, R.
Qed.

(** A call that refuses the object it finds and returns. *)
Ltac bad_handle P :=
  apply wp_bind, wp_sched, wp_thread_lock; [done|]; apply wp_bind; eapply wp_deref; [done|];
  apply wp_bind, wp_sched, wp_modify, wp_ret; by apply (pi_unlock _ _ false) in P.

Lemma port_write_safe X s cpu cur p ps :
  ports_safe X s → current (pk s) !! cpu = Some cur → port_call_ok cpu cur X (CallPortWrite p ps) s →
  wp (port_write cpu p (Some ps) (Z.of_nat (length ps))) (λ _ s', ports_inv X s') s.
Proof.
  intros [P Hl] Hc Hp. destruct p as [a|]; [|by apply wp_ret]. destruct (Hp a eq_refl) as [o Ho].
  destruct o as [[[] buf rps mode name]| |].
  1:{ eapply wp_mono; [by eapply (wp_port_write X s cpu cur a)|]. by intros r s' [? _]. }
  all: bad_handle P.
Qed.

Lemma port_destroy_safe X s cpu cur p :
  ports_safe X s → current (pk s) !! cpu = Some cur → port_call_ok cpu cur X (CallPortDestroy p) s →
  wp (port_destroy cpu p) (λ _ s', ports_safe X s') s.
Proof.
  intros [P Hl] Hc Hp. destruct p as [a|]; [|by apply wp_ret]. destruct (Hp a eq_refl) as [o Ho].
  apply (pi_unlock _ _ false) in P as P'.
  destruct o as [[[] buf rps mode name]| |].
  2:{ eapply wp_mono; [by eapply (wp_port_destroy X s cpu cur a)|]. by intros r s' (_ & []). }
  all: apply wp_bind, wp_sched, wp_thread_lock; [done|]; apply wp_bind; eapply wp_deref; [done|].
  all: by apply wp_bind, wp_sched, wp_modify, wp_ret.
Qed.

Lemma port_close_safe X s cpu cur p :
  ports_safe X s → current (pk s) !! cpu = Some cur → port_call_ok cpu cur X (CallPortClose p) s →
  wp (exec_port cpu X (CallPortClose p)) (λ X' s', ports_safe X' s') s.
Proof.
  intros [P Hl] Hc [Hlive Hni]. destruct p as [p|]; [|by apply wp_bind, wp_ret, wp_bind, wp_sched, wp_modify, wp_ret; split; [apply pi_unlock|]].
  apply Forall_cons in Hlive as [[[o Ho] HX] _]. cbn [exec_port]. apply wp_bind.
  assert (∀ buf (r : call Z) s', ports_inv (closing_after X p buf r) s' →
    wp (sched THREAD_UNLOCK;; mret (closing_after X p buf r)) (λ X' s', ports_safe X' s') s') as Hend.
  { intros buf r s' P'. apply wp_bind, wp_sched, wp_modify, wp_ret. split; [by apply pi_unlock|done]. }
  destruct o as [w|rp|pg].
  - apply wp_bind, wp_sched, wp_thread_lock; [done|]. apply wp_bind. eapply wp_deref; [done|].
    apply wp_if; intros _.
    + apply wp_bind, wp_modify, wp_bind, wp_sched, wp_modify, wp_ret. apply Hend.
      apply (pi_objs X (set_pk (set_thread_lock false (pk s)) s)); [by apply pi_unlock| | |done].
      * by apply ports_ok_close_write; [apply P|].
      * simpl. intros a o [[<- <-]|[_ ?]]%lookup_insert_Some; [done|eauto].
    + apply wp_bind, wp_sched, wp_modify, wp_ret. apply Hend. by apply (pi_unlock _ _ false) in P.
  - eapply wp_mono; [by eapply (wp_port_close_read X s cpu cur p)|]. intros [buf r] s' (P' & _). by apply Hend.
  - eapply wp_mono; [by eapply (port_close_group_safe X s cpu cur p)|]. intros [buf r] s' (E & P' & _). simpl in *. subst. by apply Hend.
Qed.

Lemma port_close_resume_safe X s cpu cur p :
  ports_safe X s → port_call_ok cpu cur X (CallPortCloseResume p) s →
  wp (exec_port cpu X (CallPortCloseResume p)) (λ X' s', ports_safe X' s') s.
Proof.
  intros [P Hl] [x Hx]. apply wp_bind, wp_sched, wp_thread_lock; [done|].
  destruct (po_closing _ _ _ _ (pi_ok _ _ P) p) as (o & Ho & Hw & _); [by rw Hx|].
  apply wp_bind. eapply wp_deref; [done|]. apply wp_bind. pose proof (pi_unlock _ _ true P) as P1.
  destruct o as [|rp|pg]; [done| |]; simpl.
  - rw Hx. eapply wp_mono; [by eapply (port_close_read_resume_safe X)|]. intros r s' (_ & P' & ?). by apply wp_ret.
  - eapply wp_mono; [eapply (port_close_group_resume_safe X); [done|by rw Hx|done]|]. intros r s' (_ & P' & ?). by apply wp_ret.
Qed.

Lemma exec_port_safe X s cpu cur c :
  ports_safe X s → current (pk s) !! cpu = Some cur → port_call_ok cpu cur X c s →
  wp (exec_port cpu X c) (λ X' s', ports_safe X' s') s.
Proof.
  intros PS Hc Hok. pose proof PS as [P Hl].
  assert (∀ A (m : PT A), wp m (λ _ s', ports_inv X s' ∧ thread_lock (pk s') = false) s →
    wp (m;; mret X) (λ X' s', ports_safe X' s') s) as Hret.
  { intros A m W. apply wp_bind. eapply wp_mono; [exact W|]. intros a s' ?. by apply wp_ret. }
  assert (∀ A (m : PT A) s, wp m (λ _ s', ports_inv X s') s →
    wp (m;; sched THREAD_UNLOCK;; mret X) (λ X' s', ports_safe X' s') s) as Hunl.
  { intros A m s0 W. eapply wp_mono; [by apply (wp_port_unlock X)|]. by intros X' s' [-> ?]. }
  pose proof (pi_unlock _ _ true P) as P1. destruct c; cbn [exec_port].
  - destruct Hok. by apply Hret, port_create_safe.
  - destruct Hok. by apply Hret, port_open_safe.
  - destruct Hok as (? & ? & Hl'). apply Hret, port_group_safe; try done; intros l Hps; by apply Hl'.
  - by eapply Hret, (port_group_add_safe X s cpu cur).
  - by eapply Hunl, (port_write_safe X s cpu cur).
  - by eapply Hunl, (port_read_safe X s cpu cur).
  - apply wp_bind, wp_sched, wp_thread_lock; [done|]. by eapply Hunl, (port_read_resume_safe X _ cpu cur).
  - apply wp_bind, wp_sched, wp_thread_lock; [done|]. by eapply Hunl, (port_read_group_resume_safe X _ cpu cur).
  - by eapply Hret, (port_destroy_safe X s cpu cur).
  - by eapply port_close_safe.
  - by eapply port_close_resume_safe.
Qed.

(** ** Reachable states *)

(** Scheduler activity outside [port.c] does not tear down the wait queues of
    ports, and nobody starts to wait on a port that is closing. *)
Definition queues_kept (X : closing) (s : ports) (k' : kstate) : Prop :=
  (∀ a o, objs s !! a = Some o → as_write o = None → valid_wq k' (ObjWq a)) ∧
  (∀ a wq, is_Some (X !! a) → wait_queues k' !! ObjWq a = Some wq → wq_list wq = []).

Inductive port_step : closing * ports → closing * ports → Prop :=
| pstep_call cpu cur c X s X' s' :
    current (pk s) !! cpu = Some cur → port_call_ok cpu cur X c s → exec_port cpu X c s = Some (X', s') →
    port_step (X, s) (X', s')
| pstep_kernel X s k' :
    sched_step (pk s) k' → queues_kept X s k' → port_step (X, s) (X, set_pk k' s)
| pstep_memory X s res : port_step (X, s) (X, set_results res s).

Inductive port_reachable (n : nat) : closing * ports → Prop :=
| preach_init k wl res s u :
    reachable n k → port_init (Ports k ∅ ∅ wl res) = Some (u, s) → port_reachable n (∅, s)
| preach_step x y : port_reachable n x → port_step x y → port_reachable n y.

Lemma ports_ok_empty : ports_ok ∅ ∅ ∅ [].
Proof.
  split.
  - by intros a o ?.
  - intros a [? Ha]. by rw lookup_empty in Ha.
  - intros w p. rw /point !lookup_empty. split; [by intros ?%not_elem_of_nil|done].
  - intros g p. rw /point !lookup_empty. split; [by intros ?%not_elem_of_nil|done].
  - intros a b. by rw /point !lookup_empty.
  - intros a a' b. by rw /point !lookup_empty.
  - constructor.
  - intros w. rw /point !lookup_empty. split; [by intros ?%not_elem_of_nil|by intros []].
  - intros w w' m. by rw /point !lookup_empty.
Qed.

Lemma port_reachable_inv n x : (0 < n)%nat → port_reachable n x → ports_safe x.1 x.2.
Proof.
  intros Hn. induction 1 as [k wl res s u Hk Hi|x y _ [P Hl] Hs].
  - destruct (reachable_inv n k Hn Hk) as [Ik Hl]. injection Hi as _ <-. split; [|done].
    split; simpl; [done|apply ports_ok_empty|by intros a o ?|]. intros a wq [? Ha]. by rw lookup_empty in Ha.
  - destruct Hs as [cpu cur c X s X' s' Hc Hok He|X s k' Hk [Hv Hi]|X s res]; simpl in *.
    + pose proof (exec_port_safe X s cpu cur c (conj P Hl) Hc Hok) as W. by rw /wp He in W.
    + destruct (sched_step_inv _ _ Hk (pi_kinv _ _ P) Hl) as [Ik' Hl']. split; [|done].
      split; simpl; [done|apply P|done|done].
    + split; [by apply pi_results|done].
Qed.


Definition no_ports : ports := Ports kstate_zero ∅ ∅ [] ∅.

(** The state after a call, if it completes. *)
Definition after (c : port_call) (x : closing * ports) : closing * ports :=
  default (∅, no_ports) (exec_port 0 x.1 c x.2).

Definition demo0 : closing * ports :=
  (∅, Ports running_state ∅ ∅ [] {[ 1%positive := PortResult 0 (PortPacket []) ]}).

Definition demo1 := after (CallPortCreate (Some 10%positive) (Some 20%positive) (Some "log") 0 true) demo0.
Definition demo2 := after (CallPortOpen (Some 11%positive) (Some 21%positive) (Some "log") 7 true) demo1.
Definition demo3 := after (CallPortOpen (Some 12%positive) (Some 22%positive) (Some "log") 8 true) demo2.
Definition demo4 := after (CallPortGroup (Some 13%positive) (Some [11%positive; 12%positive]) 2 true) demo3.
(** The running thread waits on the group. *)
Definition demo5 := after (CallPortRead (Some 13%positive) INFINITE_TIME (Some 1%positive)) demo4.

Lemma after_reachable n c cur x :
  port_reachable n x → current (pk x.2) !! 0%nat = Some cur → port_call_ok 0 cur x.1 c x.2 →
  bool_decide (is_Some (exec_port 0 x.1 c x.2)) = true → port_reachable n (after c x).
Proof.
  intros Hr Hc Hok [y Hy]%bool_decide_eq_true. rw /after Hy /=. destruct x, y. eapply preach_step; [done|]. by econstructor.
Qed.

Lemma running_reachable : reachable 1 running_state.
Proof. apply (run_calls_reachable 1 three_threads booted); [apply booted_reachable|by vm_compute]. Qed.

Lemma demo1_reachable : port_reachable 1 demo1.
Proof.
  eapply (after_reachable _ _ (h 3)); [eapply (preach_init 1 running_state []); [apply running_reachable|done]|by vm_compute| |by vm_compute].
  split; by intros ? ?.
Qed.

(** Preconditions on concrete states *)
Lemma fresh_check s a :
  (if objs s !! a then false else if wait_queues (pk s) !! ObjWq a is Some (WaitQueue _ (_ :: _) _) then false else true) = true →
  fresh_port s (Some a).
Proof.
  intros Hc a' [= <-]. destruct (objs s !! a); [done|]. split; [done|]. intros wq Hw. rw Hw in Hc. by destruct wq as [? []].
Qed.

Lemma fresh_buf_check s b : (if bufs s !! b then false else true) = true → fresh_buf s (Some b).
Proof. intros Hc b' [= <-]. by destruct (bufs s !! b). Qed.

Lemma live_check X s l :
  forallb (λ p, bool_decide (is_Some (objs s !! p)) && bool_decide (X !! p = None)) l = true → live_ports X s l.
Proof.
  intros Hf. apply Forall_forall. intros p Hp. pose proof (proj1 (forallb_forall _ _) Hf p) as Hc.
  apply list_elem_of_In in Hp. specialize (Hc Hp). by apply andb_true_iff in Hc as [?%bool_decide_eq_true ?%bool_decide_eq_true].
Qed.

Lemma demo2_reachable : port_reachable 1 demo2.
Proof.
  eapply (after_reachable _ _ (h 3)); [apply demo1_reachable|by vm_compute| |by vm_compute].
  split; [apply fresh_check|apply fresh_buf_check]; by vm_compute.
Qed.

Lemma demo3_reachable : port_reachable 1 demo3.
Proof.
  eapply (after_reachable _ _ (h 3)); [apply demo2_reachable|by vm_compute| |by vm_compute].
  split; [apply fresh_check|apply fresh_buf_check]; by vm_compute.
Qed.

Lemma demo4_reachable : port_reachable 1 demo4.
Proof.
  eapply (after_reachable _ _ (h 3)); [apply demo3_reachable|by vm_compute| |by vm_compute].
  split_and!; [apply fresh_check; by vm_compute|done|]. intros l [= <-]. split; [|done]. apply live_check. by vm_compute.
Qed.

Lemma demo4_may_block : may_block (pk demo4.2) 0 (h 3).
Proof. split; [by vm_compute|apply not_idle_check; by vm_compute|apply timer_free; by vm_compute]. Qed.

Lemma demo5_reachable : port_reachable 1 demo5.
Proof.
  eapply (after_reachable _ _ (h 3)); [apply demo4_reachable|by vm_compute| |by vm_compute].
  split_and!; [apply live_check; by vm_compute|intros ? [= <-]; eexists; vm_compute; reflexivity|apply demo4_may_block].
Qed.

Lemma demo_inv x : port_reachable 1 x → ports_safe x.1 x.2.
Proof. apply port_reachable_inv. lia. Qed.

(** ** Instances of the theorems *)

Definition pkt (n : Z) : port_packet := PortPacket [n].

Lemma demo5_pair : port_reachable 1 (demo5.1, demo5.2).
Proof. rw -surjective_pairing. apply demo5_reachable. Qed.


Lemma new_buf_check X s a b :
  buf_of X (objs s) a = Some b → bufs s !! b = Some (new_buf PORT_BUFF_SIZE) → holds X s a PORT_BUFF_SIZE [].
Proof. intros Ha Hb. exists b, (new_buf PORT_BUFF_SIZE). split_and!; [done..|apply (new_buf_repr false)]. Qed.

(** A target with an empty buffer gets just the packets written. *)
Lemma write_gets X s a w ps p r s' cap :
  write_result X a w ps s r s' → bool_decide (p ∈ targets a w) = true → (Z.of_nat (length ps) <=? cap) = true →
  holds X s p cap [] → holds X s' p cap ps.
Proof.
  intros (_ & _ & Hw & _) Hp%bool_decide_eq_true Hf%Z.leb_le Hh. specialize (Hw p cap [] Hh).
  by rw decide_True in Hw.
Qed.

(** The write port at 10, with the readers 11 and 12. *)
Definition demo_wp : write_port := WPort WRITEPORT_MAGIC_W None [11%positive; 12%positive] 0 "log".


Lemma port_read_spec_witness :
  wp (port_read 0 (Some 11%positive) 0 (Some 1%positive)) (λ r s', r = Returned ERR_TIMED_OUT ∧ results s' !! 1%positive = Some (PortResult 7 (PortPacket []))) demo4.2.
Proof.
  destruct (demo_inv _ demo4_reachable) as [P Hl].
  eapply wp_mono; [eapply (port_read_spec demo4.1 demo4.2 0 (h 3) 11 (RPort (Some 20%positive) 7 (Some 10%positive) (Some 13%positive)) 0 1
    (PortResult 0 (PortPacket [])) PORT_BUFF_SIZE []); [done|done|apply demo4_may_block|by vm_compute..|]|].
  - apply (new_buf_check _ _ _ 20); by vm_compute.
  - intros r s' [R [[_ E]|[H _]]]; [|exfalso; exact (H eq_refl)]. split; [exact E|].
    apply (ro_result _ _ _ _ _ _ _ _ R (PortResult 0 (PortPacket []))). by vm_compute.
Defined.

Lemma port_read_group_spec_witness :
  wp (port_read 0 (Some 13%positive) 100 (Some 1%positive)) (λ r s', ports_inv demo4.1 s' ∧ objs s' = objs demo4.2) demo4.2.
Proof.
  destruct (demo_inv _ demo4_reachable) as [P Hl].
  eapply wp_mono; [eapply (port_read_group_spec demo4.1 demo4.2 0 (h 3) 13 (PGroup [11%positive; 12%positive]) 100 1
    (PortResult 0 (PortPacket []))); [done|done|apply demo4_may_block|by vm_compute..]|].
  intros r s' (HP & HO & _). exact (conj HP HO).
Defined.

(** The only reader of a port closes: the port has its buffer again. *)
Lemma port_close_read_spec_witness :
  wp (port_close 0 (Some 11%positive)) (λ r s', holds (closing_after demo2.1 11 r.1 r.2) s' 10 PORT_BUFF_SIZE []) demo2.2.
Proof.
  destruct (demo_inv _ demo2_reachable) as [P Hl].
  eapply wp_mono; [eapply (port_close_read_spec demo2.1 demo2.2 0 (h 3) 11 (RPort (Some 20%positive) 7 (Some 10%positive) None));
    [done|done|by vm_compute|apply not_idle_check; by vm_compute|by vm_compute..]|].
  intros r s' (_ & _ & _ & _ & _ & _ & Hw). apply (Hw 10%positive); [reflexivity|by vm_compute|].
  apply (new_buf_check _ _ _ 20); by vm_compute.
Defined.

(** ** Observations *)

Definition run_port {A} (m : PT A) (s : ports) : option A := fst <$> m s.

(** [port_group_remove] unlinks a port but leaves its [gport] set: the port cannot
    join a group again, and [port_close] follows the NULL links of its node. *)
Lemma port_removed_faults :
  run_port (port_group_remove (Some 13%positive) (Some 11%positive)) demo4.2 = Some NO_ERROR ∧
  run_port (port_group_remove (Some 13%positive) (Some 11%positive);; port_group_add 0 (Some 13%positive) (Some 11%positive)) demo4.2
    = Some ERR_BAD_HANDLE ∧
  run_port (port_group_remove (Some 13%positive) (Some 11%positive);; port_close 0 (Some 11%positive)) demo4.2 = None.
Proof. split_and!; vm_compute; reflexivity. Qed.

(** A read port closed after its write port was destroyed is freed, but its buffer
    is not. *)
Lemma port_close_leaks :
  ∃ s', (port_close 0 (Some 10%positive);; port_destroy 0 (Some 10%positive);; port_close 0 (Some 11%positive)) demo2.2
      = Some ((None, Returned NO_ERROR), s') ∧
    objs s' !! 11%positive = None ∧ is_Some (bufs s' !! 20%positive).
Proof. eexists. split_and!; [vm_compute; reflexivity|by vm_compute|]. eexists. vm_compute. reflexivity. Qed.

(** [PORT_MODE_BROADCAST] is 0, so the test that refuses a large buffer for a
    broadcast port never holds. *)
Lemma port_create_big_broadcast :
  run_port (port_create (Some 10%positive) (Some 20%positive) (Some "log") (Z.lor PORT_MODE_BROADCAST PORT_MODE_BIG_BUFFER) true) demo0.2
    = Some (NO_ERROR, Some 10%positive).
Proof. vm_compute. reflexivity. Qed.

(** Two threads wait on a port and two packets are written at once: one thread is
    woken, takes one packet, and the other waits on although a packet is there. *)
Definition two_waiters : PT (call Z) :=
  port_read 0 (Some 11%positive) INFINITE_TIME (Some 1%positive);; sched THREAD_UNLOCK;;
  port_read 0 (Some 11%positive) INFINITE_TIME (Some 1%positive);; sched THREAD_UNLOCK;;
  port_write 0 (Some 10%positive) (Some [pkt 1; pkt 2]) 2;;
  port_read_resume 0 11 INFINITE_TIME 1.

Lemma port_write_wakes_one :
  ∃ s', two_waiters demo2.2 = Some (Returned NO_ERROR, s') ∧
    results s' !! 1%positive = Some (PortResult 7 (pkt 1)) ∧ waiters (pk s') 11 = [h 2] ∧
    b_avail <$> bufs s' !! 20%positive = Some 7.
Proof. eexists. split_and!; vm_compute; reflexivity. Qed.
