(* ===== verification/Cbuf.v ===== *)
(** * Circular byte buffers

    [src/mk/lib/cbuf/cbuf.c] on top of the events of [Sync].  The buffer at address
    [a] has its event at [a].  Its spin lock is a flag: taking it while it is held
    has no result, since the holder cannot run before the lock is released on the
    same cpu.  A call that waits or reschedules ends there with [Switched], and
    what follows is a definition of its own. *)

From S2P Require Import Prelude Kernel Timer Thread Sync Bits Bytes.

(** Bytes are [Z]. *)
Record cbuf := Cbuf { c_head : Z; c_tail : Z; c_len_pow2 : Z; c_buf : list Z; c_lock : bool }.

Record cbufs := Cbufs { cy : sync; cmap : gmap positive cbuf }.

Definition set_cy (y : sync) (s : cbufs) : cbufs := Cbufs y (cmap s).

Definition set_cmap (m : gmap positive cbuf) (s : cbufs) : cbufs := Cbufs (cy s) m.

Definition set_head (v : Z) (c : cbuf) : cbuf := Cbuf v (c_tail c) (c_len_pow2 c) (c_buf c) (c_lock c).

Definition set_tail (v : Z) (c : cbuf) : cbuf := Cbuf (c_head c) v (c_len_pow2 c) (c_buf c) (c_lock c).

Definition set_buf (v : list Z) (c : cbuf) : cbuf := Cbuf (c_head c) (c_tail c) (c_len_pow2 c) v (c_lock c).

Definition set_lock (v : bool) (c : cbuf) : cbuf := Cbuf (c_head c) (c_tail c) (c_len_pow2 c) (c_buf c) v.

Abbreviation CB := (M cbufs).

(** An operation on events or threads. *)
Definition on_sync {A} (m : Y A) : CB A :=
  λ s, match m (cy s) with Some (a, y) => Some (a, set_cy y s) | None => None end.

Definition get_cbuf (a : positive) : CB cbuf := deref (λ s, cmap s !! a).

Definition put_cbuf (a : positive) (c : cbuf) : CB unit := modify (λ s, set_cmap (<[a := c]> (cmap s)) s).

Definition spin_lock (a : positive) : CB unit :=
  c ← get_cbuf a; assert (negb (c_lock c));; put_cbuf a (set_lock true c).

Definition spin_unlock (a : positive) : CB unit := c ← get_cbuf a; put_cbuf a (set_lock false c).

(** ** The ring *)

Definition INC_POINTER (c : cbuf) (ptr inc : Z) : Z := modpow2 (u32 (ptr + inc)) (c_len_pow2 c).

Definition cbuf_space_used (c : cbuf) : Z := modpow2 (u32 (c_head c - c_tail c)) (c_len_pow2 c).

Definition cbuf_space_avail (c : cbuf) : Z := u32 (u32 (valpow2 (c_len_pow2 c) - cbuf_space_used c) - 1).

Definition cbuf_size (c : cbuf) : Z := Z.shiftl 1 (c_len_pow2 c).

(** How much one pass of the loop of [cbuf_write] writes when [rest] bytes are left. *)
Definition write_len (c : cbuf) (rest : Z) : Z :=
  if c_tail c <=? c_head c then
    if c_tail c =? 0 then Z.min (u32 (u32 (valpow2 (c_len_pow2 c) - c_head c) - 1)) rest
    else Z.min (u32 (valpow2 (c_len_pow2 c) - c_head c)) rest
  else Z.min (u32 (u32 (c_tail c - c_head c) - 1)) rest.

(** The loop of [cbuf_write]; [src] is [None] for a NULL buffer, which writes
    zeros.  The number of bytes written and the new state. *)
Fixpoint write_loop (fuel : nat) (c : cbuf) (src : option (list Z)) (len pos : Z) : option (Z * cbuf) :=
  if (pos <? len) && (0 <? cbuf_space_avail c) then
    let n := write_len c (len - pos) in
    if n =? 0 then Some (pos, c)
    else
      match fuel, match src with
                  | Some l => copy_out pos n l
                  | None => Some (replicate (Z.to_nat n) 0)
                  end with
      | S fuel, Some bytes =>
          match copy_in (c_head c) bytes (c_buf c) with
          | Some b' => write_loop fuel (set_head (INC_POINTER c (c_head c) n) (set_buf b' c)) src len (pos + n)
          | None => None
          end
      | _, _ => None
      end
  else Some (pos, c).

(** How many bytes the loop of [cbuf_read] takes in one pass, [rest] wanted. *)
Definition read_len (c : cbuf) (rest : Z) : Z :=
  if c_tail c <? c_head c then Z.min (u32 (c_head c - c_tail c)) rest
  else Z.min (u32 (valpow2 (c_len_pow2 c) - c_tail c)) rest.

(** The loop of [cbuf_read], with the bytes read so far. *)
Fixpoint read_loop (fuel : nat) (c : cbuf) (buflen : Z) (acc : list Z) : option (list Z * cbuf) :=
  let pos := Z.of_nat (length acc) in
  if (pos <? buflen) && negb (c_tail c =? c_head c) then
    let n := read_len c (buflen - pos) in
    match fuel, copy_out (c_tail c) n (c_buf c) with
    | S fuel, Some bytes => read_loop fuel (set_tail (INC_POINTER c (c_tail c) n) c) buflen (acc ++ bytes)
    | _, _ => None
    end
  else Some (acc, c).

(** Both loops pass over the array at most twice. *)
Definition passes : nat := 2.

(** ** Operations *)

(** [buf] is the array handed over by the caller, of [len] bytes. *)
Definition cbuf_initialize_etc (a : positive) (len : Z) (buf : list Z) : CB unit :=
  assert (0 <? len);;
  assert (ispow2 (u32 len));;
  put_cbuf a (Cbuf 0 0 (log2_uint (u32 len)) buf false);;
  on_sync (event_init a false 0).

(** [cbuf_write]: the number of bytes written, and whether the call has
    rescheduled. *)
Definition cbuf_write (cpu : nat) (a : positive) (src : option (list Z)) (len : Z) (canreschedule : bool) :
    CB (Z * call unit) :=
  c ← get_cbuf a;
  assert (len <? valpow2 (c_len_pow2 c));;
  spin_lock a;;
  c ← get_cbuf a;
  '(pos, c') ← deref (λ _, write_loop passes c src len 0);
  put_cbuf a c';;
  when (negb (c_head c' =? c_tail c')) (on_sync (event_signal cpu a false);; mret ());;
  spin_unlock a;;
  if canreschedule then on_sync (lift (thread_preempt cpu));; mret (pos, Switched)
  else mret (pos, Returned ()).

(** The part of [cbuf_read] under the lock: the bytes read. *)
Definition read_locked (a : positive) (buflen : Z) : CB (list Z) :=
  spin_lock a;;
  c ← get_cbuf a;
  bytes ← (if negb (c_tail c =? c_head c) then
             '(bytes, c') ← deref (λ _, read_loop passes c buflen []);
             put_cbuf a c';;
             when (c_tail c' =? c_head c')
               (assert (0 <? Z.of_nat (length bytes));; on_sync (event_unsignal a);; mret ());;
             mret bytes
           else mret []);
  spin_unlock a;;
  mret bytes.

(** [cbuf_read] from [retry], or from the return of [event_wait] when [waited]:
    without data a blocking read starts over.  The bytes read; their number is the
    result.  [n] bounds the rounds made without blocking. *)
Fixpoint cbuf_read_from (n : nat) (cpu : nat) (a : positive) (buflen : Z) (block waited : bool) : CB (call (list Z)) :=
  match n with
  | O => fail
  | S n =>
      r ← (if block && negb waited then on_sync (event_wait cpu a) else mret (Returned NO_ERROR));
      match r with
      | Switched => mret Switched
      | Returned _ =>
          bytes ← read_locked a buflen;
          if block && (Z.of_nat (length bytes) =? 0) then cbuf_read_from n cpu a buflen block false
          else mret (Returned bytes)
      end
  end.

(** A blocking read that finds no data waits in the round after. *)
Definition rounds : nat := 2.

Definition cbuf_read (cpu : nat) (a : positive) (buflen : Z) (block : bool) : CB (call (list Z)) :=
  get_cbuf a;; cbuf_read_from rounds cpu a buflen block false.

(** [cbuf_read] when its thread runs again. *)
Definition cbuf_read_resume (cpu : nat) (a : positive) (buflen : Z) : CB (call (list Z)) :=
  on_sync (event_wait_resume cpu INFINITE_TIME);; cbuf_read_from rounds cpu a buflen true true.

(** A region of the array: where it starts, [None] for NULL, and how long it is. *)
Record iovec := Iovec { iov_base : option Z; iov_len : Z }.

Definition cbuf_peek (a : positive) : CB (Z * iovec * iovec) :=
  spin_lock a;;
  c ← get_cbuf a;
  let ret := cbuf_space_used c in
  let sz := cbuf_size c in
  assert (c_tail c <? sz);;
  assert (ret <=? sz);;
  let base := if ret =? 0 then None else Some (c_tail c) in
  let regions := if sz <? ret + c_tail c
                 then (Iovec base (sz - c_tail c), Iovec (Some 0) (ret - (sz - c_tail c)))
                 else (Iovec base ret, Iovec None 0) in
  spin_unlock a;;
  mret (ret, regions.1, regions.2).

(** Storing one byte; [None] when the buffer is full. *)
Definition put_char (c : cbuf) (ch : Z) : option (option cbuf) :=
  if 0 <? cbuf_space_avail c then
    match copy_in (c_head c) [ch] (c_buf c) with
    | Some b' => Some (Some (set_head (INC_POINTER c (c_head c) 1) (set_buf b' c)))
    | None => None
    end
  else Some None.

(** [Switched] is a return value of 1 after the reschedule, with the spin lock
    held until then. *)
Definition cbuf_write_char (cpu : nat) (a : positive) (ch : Z) (canreschedule : bool) : CB (call Z) :=
  spin_lock a;;
  c ← get_cbuf a;
  r ← deref (λ _, put_char c ch);
  match r with
  | None => spin_unlock a;; mret (Returned 0)
  | Some c' =>
      put_cbuf a c';;
      s ← (if negb (c_head c' =? c_tail c') then on_sync (event_signal cpu a canreschedule) else mret (Returned NO_ERROR));
      match s with
      | Switched => mret Switched
      | Returned _ => spin_unlock a;; mret (Returned 1)
      end
  end.

Definition cbuf_write_char_resume (a : positive) : CB Z :=
  on_sync (unlock_resume ());; spin_unlock a;; mret 1.

(** The part of [cbuf_read_char] under the lock. *)
Definition read_char_locked (a : positive) : CB (option Z) :=
  spin_lock a;;
  c ← get_cbuf a;
  ch ← (if negb (c_tail c =? c_head c) then
          ch ← deref (λ _, c_buf c !! Z.to_nat (c_tail c));
          let c' := set_tail (INC_POINTER c (c_tail c) 1) c in
          put_cbuf a c';;
          when (c_tail c' =? c_head c') (on_sync (event_unsignal a);; mret ());;
          mret (Some ch)
        else mret None);
  spin_unlock a;;
  mret ch.

Fixpoint cbuf_read_char_from (n : nat) (cpu : nat) (a : positive) (block waited : bool) : CB (call (option Z)) :=
  match n with
  | O => fail
  | S n =>
      r ← (if block && negb waited then on_sync (event_wait cpu a) else mret (Returned NO_ERROR));
      match r with
      | Switched => mret Switched
      | Returned _ =>
          ch ← read_char_locked a;
          if block && bool_decide (ch = None) then cbuf_read_char_from n cpu a block false else mret (Returned ch)
      end
  end.

Definition cbuf_read_char (cpu : nat) (a : positive) (block : bool) : CB (call (option Z)) :=
  cbuf_read_char_from rounds cpu a block false.

Definition cbuf_read_char_resume (cpu : nat) (a : positive) : CB (call (option Z)) :=
  on_sync (event_wait_resume cpu INFINITE_TIME);; cbuf_read_char_from rounds cpu a true true.

Definition cbuf_reset (cpu : nat) (a : positive) : CB (call (list Z)) :=
  c ← get_cbuf a; cbuf_read cpu a (cbuf_size c) false.
