(* ===== verification/CbufRing.v ===== *)
(** * The ring of a [cbuf]

    The block copies of [cbuf_write] and [cbuf_read] against the sequence of bytes
    in the buffer, and against copying byte by byte. *)

From S2P Require Import Prelude Kernel Timer Thread Sync Bits Bytes Ring Cbuf.

(** The buffer holds the bytes [q], the oldest first; one slot stays free. *)
Record cbuf_repr (c : cbuf) (q : list Z) : Prop := {
  cr_len : 0 ≤ c_len_pow2 c < 31;
  cr_buf : length (c_buf c) = Z.to_nat (2 ^ c_len_pow2 c);
  cr_tail : 0 ≤ c_tail c < 2 ^ c_len_pow2 c;
  cr_head : c_head c = (c_tail c + Z.of_nat (length q)) mod 2 ^ c_len_pow2 c;
  cr_fits : Z.of_nat (length q) < 2 ^ c_len_pow2 c;
  cr_ring : ring (c_buf c) (Z.to_nat (c_tail c)) q
}.

Lemma modpow2_u32 v l : 0 ≤ l < 32 → modpow2 (u32 v) l = v mod 2 ^ l.
Proof.
  intros Hl. rw modpow2_spec //; [|rw /u32; by apply Z.mod_pos_bound]. rw /u32 -Znumtheory.Zmod_div_mod //; [lia|].
  exists (2 ^ (32 - l)). rw -Z.pow_add_r; [f_equal; lia|lia|lia].
Qed.

Section repr.
Context (c : cbuf) (q : list Z) (R : cbuf_repr c q).

#[local] Notation size := (2 ^ c_len_pow2 c).
#[local] Notation used := (Z.of_nat (length q)).

Lemma cr_size : 0 < size < 2 ^ 31.
Proof using R. destruct R. split; [lia|]. apply Z.pow_lt_mono_r; lia. Qed.

Lemma cr_head_range : 0 ≤ c_head c < size.
Proof using R. destruct R as [? ? ? -> ? ?]. apply Z.mod_pos_bound. lia. Qed.

(** Where the head is: ahead of the tail, or wrapped. *)
Lemma cr_head_cases :
  c_tail c ≤ c_head c ∧ c_head c = c_tail c + used ∨ c_head c < c_tail c ∧ c_head c = c_tail c + used - size.
Proof using R.
  destruct R as [? ? ? Hh Hf ?]. destruct (decide (c_tail c + used < size)) as [Hlt|Hge].
  - left. rw Hh Z.mod_small; lia.
  - right. rw Hh -(Z.mod_add _ (-1)); [|lia]. rw Z.mod_small; lia.
Qed.

Lemma cbuf_space_used_repr : cbuf_space_used c = used.
Proof using R.
  pose proof cr_size as Hs. destruct R as [? ? ? Hh Hf ?].
  rw /cbuf_space_used modpow2_u32; [|lia]. rw Hh Zminus_mod_idemp_l.
  rw (_ : c_tail c + used - c_tail c = used); [|lia]. apply Z.mod_small. lia.
Qed.

Lemma cbuf_space_avail_repr : cbuf_space_avail c = size - 1 - used.
Proof using R.
  pose proof cr_size as Hs. pose proof (cr_fits _ _ R) as Hf.
  rw /cbuf_space_avail cbuf_space_used_repr valpow2_spec; [|destruct R; lia]. assert (0 ≤ used) by lia.
  rw (u32_small (size - used)); [|lia]. rw u32_small; lia.
Qed.

Lemma cr_empty : c_tail c = c_head c ↔ q = [].
Proof using R.
  pose proof cr_size. pose proof (cr_fits _ _ R) as Hf.  assert (0 ≤ used) by lia.
  pose proof cr_head_range. rw -(length_zero_iff_nil q). split; intros E; destruct cr_head_cases as [[? ?]|[? ?]]; destruct R; lia.
Qed.

(** One pass of the loop of [cbuf_write] *)
Lemma write_len_repr rest :
  0 < rest → used < size - 1 →
  let n := write_len c rest in
  0 < n ≤ rest ∧ used + n < size ∧ c_head c + n ≤ size ∧
  (n = rest ∨ used + n = size - 1 ∨ c_head c + n = size ∧ 0 < c_tail c ≤ c_head c).
Proof using R.
  intros Hr Hu n. pose proof cr_size as Hs. pose proof cr_head_range as Hh. pose proof cr_head_cases as Hc.
  pose proof (cr_tail _ _ R) as Ht.  assert (0 ≤ used) by lia. rw /n /write_len.
  rw valpow2_spec; [|destruct R; lia].
  destruct (Z.leb_spec (c_tail c) (c_head c)); [destruct (Z.eqb_spec (c_tail c) 0)|].
  - rw (u32_small (size - c_head c)); [|lia]. rw u32_small; lia.
  - rw u32_small; lia.
  - rw (u32_small (c_tail c - c_head c)); [|lia]. rw u32_small; lia.
Qed.

(** Storing bytes behind the head, without wrapping within them *)
Lemma copy_in_repr bytes :
  used + Z.of_nat (length bytes) < size → c_head c + Z.of_nat (length bytes) ≤ size →
  ∃ b', copy_in (c_head c) bytes (c_buf c) = Some b' ∧ b' = list_inserts (Z.to_nat (c_head c)) bytes (c_buf c) ∧
    cbuf_repr (set_head (INC_POINTER c (c_head c) (Z.of_nat (length bytes))) (set_buf b' c)) (q ++ bytes).
Proof using R.
  intros Hu Hh. pose proof cr_size as Hs. pose proof cr_head_range as Hhr. destruct R as [Hl Hb Ht He Hf HR].
  rw /copy_in Hb (proj2 (Z.ltb_ge _ _)); [|lia].
  eexists. split_and!; [done..|]. split; simpl; try done.
  - by rw length_inserts.
  - rw /INC_POINTER /= modpow2_u32; [|lia]. rw He Zplus_mod_idemp_l length_app. f_equal. lia.
  - rw length_app. lia.
  - apply ring_copy_in; [done|rw Hb; lia| |rw Hb; lia].
    rw He Hb Z2Nat.inj_mod; [|lia|lia]. rw Z2Nat.inj_add; [|lia|lia]. by rw Nat2Z.id.
Qed.
End repr.

(** ** Writing *)

(** Byte by byte, until the buffer is full: what [cbuf_write] means. *)
Fixpoint put_chars (c : cbuf) (l : list Z) : option (Z * cbuf) :=
  match l with
  | [] => Some (0, c)
  | ch :: l =>
      match put_char c ch with
      | Some (Some c') => match put_chars c' l with Some (n, c'') => Some (1 + n, c'') | None => None end
      | Some None => Some (0, c)
      | None => None
      end
  end.

(** The bytes of the source; a NULL source stands for zeros. *)
Definition source (src : option (list Z)) (len : Z) : list Z := default (replicate (Z.to_nat len) 0) src.

Definition write_block (c : cbuf) (bytes : list Z) : cbuf :=
  set_head (INC_POINTER c (c_head c) (Z.of_nat (length bytes)))
    (set_buf (list_inserts (Z.to_nat (c_head c)) bytes (c_buf c)) c).

Lemma write_block_repr c q bytes :
  cbuf_repr c q → Z.of_nat (length q + length bytes) < 2 ^ c_len_pow2 c → c_head c + Z.of_nat (length bytes) ≤ 2 ^ c_len_pow2 c →
  copy_in (c_head c) bytes (c_buf c) = Some (list_inserts (Z.to_nat (c_head c)) bytes (c_buf c)) ∧
  cbuf_repr (write_block c bytes) (q ++ bytes).
Proof. intros R Hu Hh. destruct (copy_in_repr c q R bytes) as (b' & Hb & -> & R'); [lia|lia|]. done. Qed.

Lemma put_char_repr c q ch :
  cbuf_repr c q →
  put_char c ch = Some (if Z.of_nat (length q) <? 2 ^ c_len_pow2 c - 1 then Some (write_block c [ch]) else None).
Proof.
  intros R. rw /put_char (cbuf_space_avail_repr c q R). destruct (Z.ltb_spec (Z.of_nat (length q)) (2 ^ c_len_pow2 c - 1)).
  - rw (proj2 (Z.ltb_lt _ _)); [|lia]. pose proof (cr_head_range c q R).
    destruct (write_block_repr c q [ch] R) as [-> _]; [simpl; lia|simpl; lia|done].
  - rw (proj2 (Z.ltb_ge _ _)) //. lia.
Qed.

Lemma write_block_cons c q ch bytes :
  cbuf_repr c q → c_head c + Z.of_nat (length (ch :: bytes)) ≤ 2 ^ c_len_pow2 c →
  write_block (write_block c [ch]) bytes = write_block c (ch :: bytes).
Proof.
  intros R Hh. pose proof (cr_head_range c q R) as Hr. pose proof (cr_size c q R) as Hs. pose proof (cr_len _ _ R) as Hl.
  rw /write_block /set_head /set_buf /INC_POINTER /=. rw !modpow2_u32; [|lia..]. f_equal.
  - rw Zplus_mod_idemp_l. f_equal. lia.
  - destruct bytes as [|x bytes]; [done|]. simpl in Hh. rw (Z.mod_small (c_head c + 1)); [|lia].
    rw list_insert_inserts_lt; [|lia]. f_equal. lia.
Qed.

(** A block that does not wrap is written as its bytes are. *)
Lemma put_chars_block bytes l c q :
  cbuf_repr c q → Z.of_nat (length q + length bytes) < 2 ^ c_len_pow2 c → c_head c + Z.of_nat (length bytes) ≤ 2 ^ c_len_pow2 c →
  put_chars c (bytes ++ l) =
    match put_chars (write_block c bytes) l with Some (n, c') => Some (Z.of_nat (length bytes) + n, c') | None => None end.
Proof.
  revert c q. induction bytes as [|ch bytes IH]; intros c q R Hu Hh.
  - simpl. rw (_ : write_block c [] = c); [by destruct (put_chars c l) as [[]|]|].
    pose proof (cr_head_range c q R) as Hr. pose proof (cr_len _ _ R).
    destruct c as [hd tl lp b lk]. rw /write_block /set_head /set_buf /INC_POINTER /= modpow2_u32; [|simpl in *; lia].
    simpl in *. f_equal. rw Z.add_0_r Z.mod_small //.
  - cbn [app put_chars]. rw (put_char_repr c q ch R). rw (proj2 (Z.ltb_lt _ _)); [|simpl in *; lia].
    destruct (write_block_repr c q [ch] R) as [_ R']; [simpl in *; lia|simpl in *; lia|].
    pose proof (cr_head_range c q R) as Hr. pose proof (cr_len _ _ R) as Hl.
    rw (IH _ _ R'); [|rw length_app /=; simpl in *; lia|].
    + rw (write_block_cons c q) //. destruct (put_chars _ l) as [[n c']|]; [|done]. simpl. do 2 f_equal. lia.
    + rw /write_block /= /INC_POINTER modpow2_u32; [|lia]. simpl in Hh.
      destruct bytes as [|x bytes]; [|rw Z.mod_small; simpl in *; lia]. pose proof (Z.mod_pos_bound (c_head c + 1) (2 ^ c_len_pow2 c)). simpl. lia.
Qed.

(** Passes the loop of [cbuf_write] still needs at most. *)
Definition enough (fuel : nat) (c : cbuf) (used rest : Z) : Prop :=
  (2 ≤ fuel)%nat ∨ (1 ≤ fuel)%nat ∧ c_head c < c_tail c ∨ rest = 0 ∨ used = 2 ^ c_len_pow2 c - 1.

Lemma put_chars_full c q l :
  cbuf_repr c q → l = [] ∨ Z.of_nat (length q) = 2 ^ c_len_pow2 c - 1 → put_chars c l = Some (0, c).
Proof.
  intros R [->|Hf]; [done|]. destruct l as [|ch l]; [done|]. cbn [put_chars]. rw (put_char_repr c q ch R).
  rw (proj2 (Z.ltb_ge _ _)) //. lia.
Qed.

(** The bytes one pass copies *)
Lemma source_bytes src len pos n :
  Z.of_nat (length (source src len)) = len → 0 ≤ pos → 0 ≤ n → pos + n ≤ len →
  match src with Some l => copy_out pos n l | None => Some (replicate (Z.to_nat n) 0) end =
    Some (take (Z.to_nat n) (drop (Z.to_nat pos) (source src len))).
Proof.
  intros Hl Hp Hn Hle. destruct src as [l|]; simpl in *.
  - rw /copy_out (proj2 (Z.ltb_ge _ _)) //. lia.
  - rw drop_replicate take_replicate. do 2 f_equal. lia.
Qed.

Lemma write_loop_chars fuel c q src len pos :
  cbuf_repr c q → Z.of_nat (length (source src len)) = len → 0 ≤ pos ≤ len →
  enough fuel c (Z.of_nat (length q)) (len - pos) →
  write_loop fuel c src len pos =
    match put_chars c (drop (Z.to_nat pos) (source src len)) with Some (n, c') => Some (pos + n, c') | None => None end.
Proof.
  revert c q pos. induction fuel as [|fuel IH]; intros c q pos R Hlen Hpos Hen; cbn [write_loop];
    rw (cbuf_space_avail_repr c q R); pose proof (cr_fits _ _ R) as Hf.
  all: destruct ((pos <? len) && (0 <? 2 ^ c_len_pow2 c - 1 - Z.of_nat (length q))) eqn:Ec;
    [apply andb_true_iff in Ec as [Hp%Z.ltb_lt Ha%Z.ltb_lt]|].
  2,4: rw (put_chars_full c q) //; [do 2 f_equal; lia|]; apply andb_false_iff in Ec as [?%Z.ltb_ge|?%Z.ltb_ge];
    [left; apply drop_ge; lia|right; lia].
  { destruct Hen as [?|[[? _]|[?|?]]]; lia. }
  destruct (write_len_repr c q R (len - pos)) as (Hn & Hu & Hh & Hcase); [lia|lia|].
  remember (write_len c (len - pos)) as n eqn:En. rw (proj2 (Z.eqb_neq n 0)); [|lia].
  rw (source_bytes src len) //; [|lia..]. set (bytes := take _ _).
  assert (Z.of_nat (length bytes) = n) as Hbl by (rw /bytes length_take length_drop; lia).
  destruct (write_block_repr c q bytes R) as [-> R']; [lia|lia|].
  assert (set_head (INC_POINTER c (c_head c) n) (set_buf (list_inserts (Z.to_nat (c_head c)) bytes (c_buf c)) c) = write_block c bytes)
    as -> by by rw /write_block Hbl.
  rw (IH _ _ _ R') //; [|lia|].
  - rw -(take_drop (Z.to_nat n) (drop (Z.to_nat pos) (source src len))). fold bytes. rw (put_chars_block bytes _ c q) //; [|lia..].
    rw drop_drop -Z2Nat.inj_add; [|lia..]. destruct (put_chars _ _) as [[m c']|]; [|done]. do 2 f_equal. lia.
  - rw length_app. destruct Hcase as [->|[?|[Hend [Ht1 Ht2]]]]; [by right; right; left; lia|right; right; right; simpl; lia|].
    right. left. destruct Hen as [?|[[_ ?]|[?|?]]]; [|lia..]. split; [lia|]. simpl.
    rw /INC_POINTER Hbl Hend modpow2_u32; [|destruct R; lia]. rw Z.mod_same; lia.
Qed.

(** C21: [cbuf_write] copies whole blocks and wraps at most once; the result is the
    same as that of [cbuf_write_char] called for one byte after the other until
    the buffer is full: the same number of bytes, the same head and tail and the
    same array.  A NULL source stands for zeros. *)
Theorem cbuf_write_equiv c q src len :
  cbuf_repr c q → Z.of_nat (length (source src len)) = len →
  write_loop passes c src len 0 = put_chars c (source src len).
Proof.
  intros R Hl. rw (write_loop_chars passes c q src len 0 R Hl); [|lia|left; rw /passes; lia].
  by destruct (put_chars _ _) as [[n c']|].
Qed.

(** ** Reading *)

Lemma set_tail_repr c q n :
  cbuf_repr c q → 0 ≤ n ≤ Z.of_nat (length q) →
  cbuf_repr (set_tail (INC_POINTER c (c_tail c) n) c) (drop (Z.to_nat n) q).
Proof.
  intros R Hn. pose proof (cr_size c q R) as Hs. destruct R as [Hl Hb Ht He Hf HR].
  rw /INC_POINTER modpow2_u32; [|lia]. split; simpl; try done.
  - apply Z.mod_pos_bound. lia.
  - rw He Zplus_mod_idemp_l length_drop. f_equal. lia.
  - rw length_drop. lia.
  - rw Z2Nat.inj_mod; [|lia..]. rw Z2Nat.inj_add; [|lia..]. rw -Hb. apply ring_skip; [done|lia].
Qed.

Lemma copy_out_repr c q n :
  cbuf_repr c q → 0 ≤ n ≤ Z.of_nat (length q) → c_tail c + n ≤ 2 ^ c_len_pow2 c →
  copy_out (c_tail c) n (c_buf c) = Some (take (Z.to_nat n) q).
Proof.
  intros R Hn Ht. destruct R as [Hl Hb Ht' He Hf HR]. rw /copy_out Hb (proj2 (Z.ltb_ge _ _)); [|lia].
  f_equal. apply ring_copy_out; [done|lia|lia].
Qed.

(** One pass of the loop of [cbuf_read] *)
Lemma read_len_repr c q rest :
  cbuf_repr c q → 0 < rest → q ≠ [] →
  let n := read_len c rest in
  0 < n ≤ rest ∧ n ≤ Z.of_nat (length q) ∧ c_tail c + n ≤ 2 ^ c_len_pow2 c ∧
  (n = rest ∨ n = Z.of_nat (length q) ∨ c_tail c + n = 2 ^ c_len_pow2 c ∧ c_head c < c_tail c).
Proof.
  intros R Hr Hq n. pose proof (cr_size c q R) as Hs. pose proof (cr_head_range c q R) as Hh.
  pose proof (cr_head_cases c q R) as Hc. pose proof (cr_tail _ _ R) as Ht. pose proof (cr_fits _ _ R) as Hf.
  assert (c_tail c ≠ c_head c) by by rw (cr_empty c q R).
  rw /n /read_len. rw valpow2_spec; [|destruct R; lia].
  destruct (Z.ltb_spec (c_tail c) (c_head c)); rw u32_small; lia.
Qed.

(** The loop returns the oldest bytes, at most as many as the buffer of the caller
    holds. *)
Lemma read_loop_repr fuel c q buflen acc (k := Z.to_nat (buflen - Z.of_nat (length acc))) :
  cbuf_repr c q →
  (2 ≤ fuel)%nat ∨ (1 ≤ fuel)%nat ∧ c_tail c ≤ c_head c ∨ k = 0%nat ∨ q = [] →
  ∃ t, read_loop fuel c buflen acc = Some (acc ++ take k q, set_tail t c) ∧ cbuf_repr (set_tail t c) (drop k q).
Proof.
  revert c q acc k. induction fuel as [|fuel IH]; intros c q acc k R Hen; cbn [read_loop].
  all: destruct ((Z.of_nat (length acc) <? buflen) && negb (c_tail c =? c_head c)) eqn:Ec;
    [apply andb_true_iff in Ec as [Hp%Z.ltb_lt Ha%negb_true_iff%Z.eqb_neq]|].
  2,4: exists (c_tail c); assert (take k q = [] ∧ drop k q = q) as [-> ->]; [|rw app_nil_r; by destruct c];
    apply andb_false_iff in Ec as [?%Z.ltb_ge|?%negb_false_iff%Z.eqb_eq];
    [by replace k with 0%nat by lia|apply (cr_empty c q R) in H as ->; by rw take_nil drop_nil].
  all: assert (q ≠ []) as Hq by by rw -(cr_empty c q R).
  { destruct Hen as [?|[[? _]|[?|?]]]; [lia..|done]. }
  destruct (read_len_repr c q (buflen - Z.of_nat (length acc)) R) as (Hn & Hu & Ht & Hcase); [lia|done|].
  remember (read_len c _) as n eqn:En.
  rw (copy_out_repr c q) //; [|lia]. pose proof (set_tail_repr c q n R) as R'.
  destruct (IH _ _ (acc ++ take (Z.to_nat n) q) (R' ltac:(lia))) as (t & -> & Rt).
  - rw length_app length_take. destruct Hcase as [->|[?|[Hend Hlt]]]; [right; right; left; lia|right; right; right|right; left].
    + apply drop_ge. lia.
    + destruct Hen as [?|[[_ ?]|[?|?]]]; [|lia|lia|done]. split; [lia|]. simpl.
      pose proof (cr_head_range c q R). rw /INC_POINTER Hend modpow2_u32; [|destruct R; lia]. rw Z.mod_same; lia.
  - rw length_app length_take Nat.min_l in Rt; [|lia]. exists t. rw drop_drop in Rt.
    replace (Z.to_nat n + Z.to_nat (buflen - Z.of_nat (length acc + Z.to_nat n)))%nat with k in Rt by lia.
    split; [|done]. rw -app_assoc length_app length_take Nat.min_l; [|lia]. do 3 f_equal.
    rw take_take_drop. f_equal. lia.
Qed.

(** Writing byte by byte appends what fits. *)
Lemma put_chars_repr l c q (n := Z.min (Z.of_nat (length l)) (2 ^ c_len_pow2 c - 1 - Z.of_nat (length q))) :
  cbuf_repr c q →
  ∃ c', put_chars c l = Some (n, c') ∧ cbuf_repr c' (q ++ take (Z.to_nat n) l) ∧
    c_len_pow2 c' = c_len_pow2 c ∧ c_lock c' = c_lock c.
Proof.
  revert c q n. induction l as [|ch l IH]; intros c q n R; pose proof (cr_fits _ _ R) as Hf.
  { exists c. assert (n = 0) as -> by (rw /n /=; lia). by rw take_nil app_nil_r. }
  cbn [put_chars]. rw (put_char_repr c q ch R). destruct (Z.ltb_spec (Z.of_nat (length q)) (2 ^ c_len_pow2 c - 1)).
  - pose proof (cr_head_range c q R). destruct (write_block_repr c q [ch] R) as [_ R']; [simpl; lia|simpl; lia|].
    destruct (IH _ _ R') as (c' & -> & R2 & El & Ek). exists c'. rw length_app /= in R2 |- *.
    assert (n = 1 + Z.min (Z.of_nat (length l)) (2 ^ c_len_pow2 c - 1 - Z.of_nat (length q + 1))) as ->
      by (rw /n /=; lia).
    split_and!; [do 2 f_equal; lia| |done|done]. rw Z2Nat.inj_add; [|lia..]. rw -app_assoc in R2. exact R2.
  - exists c. assert (n = 0) as -> by (rw /n; lia). by rw app_nil_r.
Qed.
