(* ===== verification/CbufSpec.v ===== *)
(** * Circular byte buffers: writers and readers

    The functions of [Cbuf] against a first-in first-out sequence of bytes with
    threads waiting for data.  The event of the buffer is signaled exactly while
    there is data, so no reader sleeps while there is something to read. *)

From S2P Require Import Prelude Kernel Timer Thread SchedInv KernelInv SchedOps ThreadLife System SchedRun Sync MutexSpec EventSpec Bits Bytes Ring Cbuf CbufRing.

(** The buffer at [a], of [2 ^ lp] bytes, holds [q] and the threads [w] wait for
    data, the first for longest. *)
Record cbuf_at (a : positive) (lp : Z) (q : list Z) (w : list thread_ptr) (s : cbufs) : Prop := {
  ca_event : event_at a (negb (bool_decide (q = []))) 0 w (cy s);
  ca_cbuf : ∃ c, cmap s !! a = Some c ∧ c_lock c = false ∧ c_len_pow2 c = lp ∧ cbuf_repr c q
}.

(** The caller [cur] runs on [cpu], holding no lock. *)
Record calling (cpu : nat) (cur : thread_ptr) (y : sync) : Prop := {
  cl_lock : thread_lock (sk y) = false;
  cl_running : running_on y cpu cur
}.

Lemma wp_on_sync {A} (m : Y A) (Q : A → cbufs → Prop) s :
  wp m (λ a y, Q a (set_cy y s)) (cy s) → wp (on_sync m) Q s.
Proof. rw /wp /on_sync. by destruct (m (cy s)) as [[a y]|]. Qed.

Lemma repr_lock b c q : cbuf_repr c q → cbuf_repr (set_lock b c) q.
Proof. by intros []. Qed.

Lemma wp_spin_lock a c s (Q : unit → cbufs → Prop) :
  cmap s !! a = Some c → c_lock c = false →
  Q () (set_cmap (<[a := set_lock true c]> (cmap s)) s) → wp (spin_lock a) Q s.
Proof.
  intros Hc Hl HQ. apply wp_bind. eapply wp_deref; [done|]. apply wp_bind, wp_assert; [by rw Hl|]. by apply wp_modify.
Qed.

Lemma wp_spin_unlock a c s (Q : unit → cbufs → Prop) :
  cmap s !! a = Some c →
  Q () (set_cmap (<[a := set_lock false c]> (cmap s)) s) → wp (spin_unlock a) Q s.
Proof. intros Hc HQ. apply wp_bind. eapply wp_deref; [done|]. by apply wp_modify. Qed.

(** The state after an operation on the buffer at [a]. *)
Lemma cbuf_at_put a lp q w y m c :
  event_at a (negb (bool_decide (q = []))) 0 w y → cbuf_repr c q → c_len_pow2 c = lp →
  cbuf_at a lp q w (Cbufs y (<[a := set_lock false c]> m)).
Proof.
  intros He R Hl. split; simpl; [done|]. exists (set_lock false c). rw lookup_insert_eq. split_and!; [done..|]. by apply repr_lock.
Qed.

Lemma head_eq_tail c q : cbuf_repr c q → (c_tail c =? c_head c) = bool_decide (q = []).
Proof.
  intros R. pose proof (cr_empty c q R). case_bool_decide; [apply Z.eqb_eq|apply Z.eqb_neq]; naive_solver.
Qed.

(** ** Writing *)

(** Who still waits once the buffer holds [q] *)
Definition left_waiting (q : list Z) (w : list thread_ptr) : list thread_ptr := if q is [] then w else [].

Lemma left_waiting_data q w : q ≠ [] → left_waiting q w = [].
Proof. by destruct q. Qed.

(** The event of a buffer is not one that unsignals itself: [event_signal] releases
    all that wait. *)
Lemma wp_signal_data a sg w y cpu cur :
  event_at a sg 0 w y → calling cpu cur y →
  wp (event_signal cpu a false) (λ r y', r = Returned NO_ERROR ∧ event_at a true 0 [] y' ∧
    (∀ t, t ∈ w → delivered (sk y') t NO_ERROR) ∧ thread_lock (sk y') = false ∧ current (sk y') = current (sk y)) y.
Proof.
  intros He [Hl Hr]. pose proof (ea_idle _ _ _ _ _ He) as Hi.
  eapply wp_mono; [by eapply wp_event_signal|]. intros r y' [Hres Hk]. destruct (Hk eq_refl) as [? ?]. clear Hk.
  rw /signal_result /= in Hres. destruct sg; simpl in *.
  - rw (Hi eq_refl) in Hres |- *. destruct Hres. split_and!; [done..|set_solver|done|done].
  - destruct w as [|t w]; [destruct Hres; split_and!; [done..|set_solver|done|done]|].
    destruct Hres as (? & ? & ?). by split_and!.
Qed.

Lemma wp_preempt_frame k cpu cur :
  kinv ∅ ∅ k → current k !! cpu = Some cur → thread_lock k = false →
  wp (thread_preempt cpu) (λ _ k', kinv ∅ ∅ k' ∧ wait_queues k' = wait_queues k ∧
    ∀ t, option_Forall2 same_wait (threads k !! t) (threads k' !! t)) k.
Proof.
  intros I Hc Hl. destruct (kinv_current _ _ _ _ _ I Hc) as (cth & Hcur & _); [set_solver|].
  eapply wp_thread_preempt; [done..|]. intros k' Hp I'. split_and!; [done| |].
  - rw (rp_wait_queues _ _ _ _ Hp) /st_requeue. by destruct (thread_is_idle cth).
  - intros t. eapply same_wait_trans; [|by eapply resched_same_wait].
    rw /st_requeue. destruct (thread_is_idle cth); by apply same_wait_alter.
Qed.

Lemma wp_cbuf_write a lp q w s cpu cur src len canreschedule
    (n := Z.min len (2 ^ lp - 1 - Z.of_nat (length q))) (q' := q ++ take (Z.to_nat n) (source src len)) :
  cbuf_at a lp q w s → calling cpu cur (cy s) →
  Z.of_nat (length (source src len)) = len → len < 2 ^ lp →
  wp (cbuf_write cpu a src len canreschedule) (λ r s',
    r = (n, if canreschedule then Switched else Returned ()) ∧
    cbuf_at a lp q' (left_waiting q' w) s' ∧
    (q' ≠ [] → ∀ t, t ∈ w → delivered (sk (cy s')) t NO_ERROR)) s.
Proof.
  intros [He (c & Hc & Hlk & <- & R)] Hcall Hlen Hlt.
  apply wp_bind. eapply wp_deref; [done|].
  apply wp_bind, wp_assert; [rw valpow2_spec; [by apply Z.ltb_lt|destruct R; lia]|].
  apply wp_bind. eapply wp_spin_lock; [done..|]. apply wp_bind. eapply wp_deref; [by rw /= lookup_insert_eq|].
  pose proof (repr_lock true c q R) as R1.
  destruct (put_chars_repr (source src len) _ _ R1) as (c' & Hput & R' & El & Ek). simpl in Hput, R', El, Ek.
  rw Hlen in Hput R'. fold n in Hput, R'. fold q' in R'.
  apply wp_bind. eapply wp_deref.
  { rw (write_loop_chars passes _ q src len 0 R1 Hlen); [|lia|left; rw /passes; lia]. rw drop_0 Hput. done. }
  apply wp_bind, wp_modify, wp_bind. rw Z.add_0_l Z.eqb_sym (head_eq_tail c' q' R') /=.
  assert (∀ y', event_at a (negb (bool_decide (q' = []))) 0 (left_waiting q' w) y' →
    (q' ≠ [] → ∀ t, t ∈ w → delivered (sk y') t NO_ERROR) → thread_lock (sk y') = false → current (sk y') = current (sk (cy s)) →
    wp (spin_unlock a;; if canreschedule then on_sync (lift (thread_preempt cpu));; mret (n, Switched) else mret (n, Returned ()))
      (λ r s', r = (n, if canreschedule then Switched else Returned ()) ∧ cbuf_at a (c_len_pow2 c) q' (left_waiting q' w) s' ∧
        (q' ≠ [] → ∀ t, t ∈ w → delivered (sk (cy s')) t NO_ERROR))
      (Cbufs y' (<[a := c']> (<[a := set_lock true c]> (cmap s))))) as Hend.
  { intros y' He' Hd Hl' Hcu. apply wp_bind. eapply wp_spin_unlock; [apply lookup_insert_eq|].
    destruct canreschedule; [|by apply wp_ret; split_and!; [done|apply cbuf_at_put|done]].
    apply wp_bind, wp_on_sync, wp_lift. eapply wp_mono; [apply (wp_preempt_frame _ cpu cur); [apply He'|simpl|done]|].
    - rw Hcu. apply Hcall.
    - intros _ k' (Ik & Ew & Hsw). apply wp_ret. split_and!; [done| |].
      + apply cbuf_at_put; [|done..]. destruct He'. split; simpl; try done. by rw Ew.
      + intros Hne t Ht. eapply delivered_mono; [apply Hsw|]. by apply Hd. }
  apply wp_when; case_bool_decide as Hq; intros [=].
  - apply wp_bind, wp_on_sync. eapply wp_mono; [by eapply (wp_signal_data a _ w _ cpu cur)|].
    intros _ y' (_ & He' & Hd & ? & ?). apply wp_ret, Hend; try done. by rw left_waiting_data.
  - apply Hend; try done; [|apply Hcall]. assert (q = []) as -> by by apply app_eq_nil in Hq as [? _]. by rw Hq.
Qed.

(** ** Reading *)

Lemma wp_read_locked a lp q w s buflen (k := Z.to_nat buflen) :
  cbuf_at a lp q w s →
  wp (read_locked a buflen) (λ bytes s',
    bytes = take k q ∧ cbuf_at a lp (drop k q) w s' ∧ sk (cy s') = sk (cy s)) s.
Proof.
  intros [He (c & Hc & Hlk & <- & R)].
  apply wp_bind. eapply wp_spin_lock; [done..|]. apply wp_bind. eapply wp_deref; [by rw /= lookup_insert_eq|].
  pose proof (repr_lock true c q R) as R1. rw (head_eq_tail _ _ R1). case_bool_decide as Hq; simpl.
  { apply wp_bind, wp_ret, wp_bind. eapply wp_spin_unlock; [apply lookup_insert_eq|]. apply wp_ret.
    subst q. rw take_nil drop_nil. split_and!; [done| |done]. apply cbuf_at_put; [done|by apply repr_lock|done]. }
  destruct (read_loop_repr passes _ q buflen [] R1) as (t & Hread & R'); [left; rw /passes; lia|].
  rw Z.sub_0_r app_nil_l /= in Hread R'. fold k in Hread, R'.
  apply wp_bind, wp_bind. eapply wp_deref; [exact Hread|]. apply wp_bind, wp_modify.
  assert (∀ y', event_at a (negb (bool_decide (drop k q = []))) 0 w y' → sk y' = sk (cy s) →
    wp (spin_unlock a;; mret (take k q)) (λ bytes s', bytes = take k q ∧ cbuf_at a (c_len_pow2 c) (drop k q) w s' ∧ sk (cy s') = sk (cy s))
      (Cbufs y' (<[a := set_tail t (set_lock true c)]> (<[a := set_lock true c]> (cmap s))))) as Hend.
  { intros y' He' Ey. apply wp_bind. eapply wp_spin_unlock; [apply lookup_insert_eq|]. apply wp_ret.
    split_and!; [done| |done]. by apply cbuf_at_put. }
  rw (head_eq_tail _ _ R').
  apply wp_bind, wp_when; case_bool_decide as Hd; intros [=].
  - apply wp_bind, wp_assert.
    { apply Z.ltb_lt. assert (length (drop k q) = 0%nat) as El by by rw Hd. rw length_drop in El.
      assert (length q ≠ 0%nat) by by destruct q. rw length_take. lia. }
    apply wp_bind, wp_on_sync. eapply wp_mono; [by eapply wp_event_unsignal|]. intros _ y' [He' Ey].
    by apply wp_ret, wp_ret, Hend.
  - by apply wp_ret, Hend.
Qed.

(** What a read comes to: the oldest bytes, at least one when it may wait; or the
    caller waits behind the others for an empty buffer. *)
Definition read_result (a : positive) (lp : Z) (q : list Z) (w : list thread_ptr) (cur : thread_ptr) (buflen : Z)
    (block : bool) (r : call (list Z)) (s' : cbufs) : Prop :=
  match r with
  | Returned bytes =>
      bytes = take (Z.to_nat buflen) q ∧ cbuf_at a lp (drop (Z.to_nat buflen) q) w s' ∧ (block = true → bytes ≠ [])
  | Switched => block = true ∧ q = [] ∧ cbuf_at a lp [] (w ++ [cur]) s'
  end.

Lemma cbuf_at_event a lp q w y y' m :
  cbuf_at a lp q w (Cbufs y m) → event_at a (negb (bool_decide (q = []))) 0 w y' → cbuf_at a lp q w (Cbufs y' m).
Proof. intros [_ Hc] He. by split. Qed.

(** The part after the wait when there is data: it returns. *)
Lemma wp_read_data a lp q w s buflen block cur (again : CB (call (list Z))) :
  cbuf_at a lp q w s → (block = true → 0 < buflen ∧ q ≠ []) →
  wp (bytes ← read_locked a buflen; if block && (Z.of_nat (length bytes) =? 0) then again else mret (Returned bytes))
    (read_result a lp q w cur buflen block) s.
Proof.
  intros Hat Hb. apply wp_bind. eapply wp_mono; [by eapply wp_read_locked|]. intros bytes s' (-> & Hat' & _).
  assert (block = true → take (Z.to_nat buflen) q ≠ []) as Hne.
  { intros [? ?]%Hb. destruct q; [done|]. by destruct (Z.to_nat buflen) eqn:E; [lia|]. }
  apply wp_if; intros Hc; [|by apply wp_ret].
  apply andb_true_iff in Hc as [Hbl Hz%Z.eqb_eq]. destruct (Hne Hbl). apply length_zero_iff_nil. lia.
Qed.

(** [cbuf_read] before its first wait *)
Lemma wp_cbuf_read_fresh n a lp q w s cpu cur buflen block :
  cbuf_at a lp q w s → calling cpu cur (cy s) → ¬ timer_queued (sk (cy s)) (StackTimer cur) →
  (block = true → 0 < buflen) →
  wp (cbuf_read_from (S n) cpu a buflen block false) (read_result a lp q w cur buflen block) s.
Proof.
  intros Hat [Hl Hr] Hnt Hb. cbn [cbuf_read_from]. apply wp_bind. destruct block; simpl; [|by apply wp_ret, (wp_read_data a lp q w s buflen false cur fail)].
  destruct Hat as [He Hc]. apply wp_on_sync. eapply wp_mono; [by eapply (wp_event_wait a _ 0 w _ cpu cur)|].
  intros [ret|] y'; case_bool_decide as Hq; simpl.
  - by intros [[(? & _)|(_ & ? & _)] _].
  - intros [[(_ & _ & He')|(? & _)] _]; [|done]. eapply (wp_read_data a lp q w _ buflen true); [|auto]. split; [|done]. by case_bool_decide.
  - intros (_ & _ & He'). apply wp_ret. subst q. by split_and!.
  - by intros (? & _).
Qed.

(** [cbuf_read] after a wake-up, when another reader may have been faster *)
Lemma wp_cbuf_read_woken n a lp q w s cpu cur buflen :
  cbuf_at a lp q w s → calling cpu cur (cy s) → ¬ timer_queued (sk (cy s)) (StackTimer cur) → 0 < buflen →
  wp (cbuf_read_from (S (S n)) cpu a buflen true true) (read_result a lp q w cur buflen true) s.
Proof.
  intros Hat [Hl Hr] Hnt Hb. remember (S n) as m eqn:Em. cbn [cbuf_read_from]. apply wp_bind, wp_ret.
  destruct (decide (q = [])) as [->|Hq]; [|by eapply (wp_read_data a lp q w s buflen true)].
  apply wp_bind. eapply wp_mono; [by eapply wp_read_locked|]. intros bytes s' (-> & Hat' & Ek). rw take_nil /=.
  rw drop_nil in Hat'. subst m. apply wp_cbuf_read_fresh; [done| |by rw Ek|done]. split; [by rw Ek|]. by rw /running_on Ek.
Qed.

(** [cbuf_write] appends as many of the bytes as fit with one slot kept free,
    and when there is data then, every thread that waited for it is awake and the
    event stays signaled. *)
Theorem cbuf_write_spec a lp q w s cpu cur src len canreschedule
    (n := Z.min len (2 ^ lp - 1 - Z.of_nat (length q))) (q' := q ++ take (Z.to_nat n) (source src len)) :
  cbuf_at a lp q w s → calling cpu cur (cy s) →
  Z.of_nat (length (source src len)) = len → len < 2 ^ lp →
  wp (cbuf_write cpu a src len canreschedule) (λ r s',
    r = (n, if canreschedule then Switched else Returned ()) ∧
    cbuf_at a lp q' (left_waiting q' w) s' ∧
    (q' ≠ [] → ∀ t, t ∈ w → delivered (sk (cy s')) t NO_ERROR)) s.
Proof. apply wp_cbuf_write. Qed.

(** [cbuf_read], called or woken up, returns the oldest bytes, up to the size of
    the caller's buffer and at least one if it blocks; it waits behind the other
    readers exactly when it blocks and there is no data. *)
Theorem cbuf_read_spec a lp q w s cpu cur buflen block :
  cbuf_at a lp q w s → running_on (cy s) cpu cur → ¬ timer_queued (sk (cy s)) (StackTimer cur) →
  (block = true → 0 < buflen) →
  (thread_lock (sk (cy s)) = false →
    wp (cbuf_read cpu a buflen block) (read_result a lp q w cur buflen block) s) ∧
  (block = true → wp (cbuf_read_resume cpu a buflen) (read_result a lp q w cur buflen true) s).
Proof.
  intros Hat Hr Hnt Hb. split.
  - intros Hl. destruct Hat as [He (c & Hc & ?)]. apply wp_bind. eapply wp_deref; [done|].
    apply wp_cbuf_read_fresh; try done. split; [done|]. by exists c.
  - intros ->. destruct Hr as [Hc (cth & Hcur & Hid)]. apply wp_bind, wp_on_sync, wp_bind, wp_lift.
    destruct s as [y m]. pose proof (ca_event _ _ _ _ _ Hat) as [Ik He Hw Hi]. simpl in *.
    apply wp_bind. eapply wp_deref; [done|]. apply wp_bind, wp_ret, wp_bind. eapply wp_get_thread; [done|]. apply wp_ret.
    apply wp_bind, wp_lift, wp_modify, wp_ret. eapply (wp_cbuf_read_woken 0 a lp q w); simpl; auto.
    + split; [|apply Hat]. split; simpl; try done. kinv_frame.
    + split; [done|]. split; [done|by exists cth].
Qed.

(** ** The other operations *)

(** A new buffer is empty and nobody waits. *)
Lemma cbuf_initialize_spec a lp buf s :
  kinv ∅ ∅ (sk (cy s)) → (∀ wq, wait_queues (sk (cy s)) !! ObjWq a = Some wq → wq_list wq = []) →
  0 ≤ lp < 31 → Z.of_nat (length buf) = 2 ^ lp →
  wp (cbuf_initialize_etc a (2 ^ lp) buf) (λ _ s', cbuf_at a lp [] [] s') s.
Proof.
  intros I Hw Hl Hb. destruct (log2_pow2 lp Hl) as [Hp Hlog]. assert (0 < 2 ^ lp) by lia.
  apply wp_bind, wp_assert; [by apply Z.ltb_lt|]. apply wp_bind, wp_assert; [done|].
  apply wp_bind, wp_modify, wp_on_sync, wp_bind, wp_modify, wp_lift, wp_modify. rw Hlog. split; simpl.
  - split; simpl; [by apply kinv_wq_put|by rw lookup_insert_eq|by rw lookup_insert_eq|done].
  - eexists. rw lookup_insert_eq. split_and!; [done..|]. split; simpl; try done; try lia. apply ring_nil.
Qed.

(** [cbuf_write_char] that does not reschedule stores the byte and wakes all that
    wait, or does nothing on a full buffer. *)
Lemma cbuf_write_char_spec a lp q w s cpu cur ch :
  cbuf_at a lp q w s → calling cpu cur (cy s) →
  wp (cbuf_write_char cpu a ch false) (λ r s',
    if Z.of_nat (length q) <? 2 ^ lp - 1 then
      r = Returned 1 ∧ cbuf_at a lp (q ++ [ch]) [] s' ∧ ∀ t, t ∈ w → delivered (sk (cy s')) t NO_ERROR
    else r = Returned 0 ∧ cbuf_at a lp q w s') s.
Proof.
  intros [He (c & Hc & Hlk & <- & R)] Hcall.
  apply wp_bind. eapply wp_spin_lock; [done..|]. apply wp_bind. eapply wp_deref; [by rw /= lookup_insert_eq|].
  pose proof (repr_lock true c q R) as R1. apply wp_bind. eapply wp_deref; [apply (put_char_repr _ _ ch R1)|]. simpl.
  destruct (Z.ltb_spec (Z.of_nat (length q)) (2 ^ c_len_pow2 c - 1)).
  - pose proof (cr_head_range _ _ R1) as Hh. destruct (write_block_repr _ _ [ch] R1) as [_ R']; [simpl in *; lia..|].
    apply wp_bind, wp_modify, wp_bind. rw Z.eqb_sym (head_eq_tail _ _ R') bool_decide_eq_false_2; [|by destruct q]. simpl.
    apply wp_on_sync. eapply wp_mono; [by eapply (wp_signal_data a _ w _ cpu cur)|]. intros r y' (-> & He' & Hd & _ & _).
    apply wp_bind. eapply wp_spin_unlock; [apply lookup_insert_eq|]. apply wp_ret. split_and!; [done| |done].
    apply cbuf_at_put; [|done..]. by rw bool_decide_eq_false_2; [|by destruct q].
  - apply wp_bind. eapply wp_spin_unlock; [apply lookup_insert_eq|]. apply wp_ret. split; [done|]. by apply cbuf_at_put.
Qed.

Lemma wp_read_char_locked a lp q w s :
  cbuf_at a lp q w s →
  wp (read_char_locked a) (λ ch s', ch = head q ∧ cbuf_at a lp (drop 1 q) w s' ∧ sk (cy s') = sk (cy s)) s.
Proof.
  intros [He (c & Hc & Hlk & <- & R)].
  apply wp_bind. eapply wp_spin_lock; [done..|]. apply wp_bind. eapply wp_deref; [by rw /= lookup_insert_eq|].
  pose proof (repr_lock true c q R) as R1. rw (head_eq_tail _ _ R1). case_bool_decide as Hq; simpl.
  { apply wp_bind, wp_ret, wp_bind. eapply wp_spin_unlock; [apply lookup_insert_eq|]. apply wp_ret.
    subst q. split_and!; [done| |done]. apply cbuf_at_put; [done|by apply repr_lock|done]. }
  destruct q as [|ch q]; [done|]. pose proof (set_tail_repr _ _ 1 R1 ltac:(simpl; lia)) as R'.
  apply wp_bind, wp_bind. eapply wp_deref.
  { apply (ring_front _ _ q); [apply R1|]. rw (cr_buf _ _ R1). pose proof (cr_tail _ _ R1). simpl in *. lia. }
  apply wp_bind, wp_modify. rw (head_eq_tail _ _ R') /= drop_0.
  assert (∀ y', event_at a (negb (bool_decide (q = []))) 0 w y' → sk y' = sk (cy s) →
    wp (spin_unlock a;; mret (Some ch)) (λ r s', r = Some ch ∧ cbuf_at a (c_len_pow2 c) q w s' ∧ sk (cy s') = sk (cy s))
      (Cbufs y' (<[a := set_tail (INC_POINTER (set_lock true c) (c_tail c) 1) (set_lock true c)]>
        (<[a := set_lock true c]> (cmap s))))) as Hend.
  { intros y' He' Ey. apply wp_bind. eapply wp_spin_unlock; [apply lookup_insert_eq|]. apply wp_ret.
    split_and!; [done| |done]. by apply cbuf_at_put. }
  apply wp_bind, wp_when; case_bool_decide as Hd; intros [=]; [|by apply wp_ret, Hend].
  apply wp_bind, wp_on_sync. eapply wp_mono; [by eapply wp_event_unsignal|]. intros _ y' [He' Ey]. by apply wp_ret, wp_ret, Hend.
Qed.

Definition read_char_result (a : positive) (lp : Z) (q : list Z) (w : list thread_ptr) (cur : thread_ptr)
    (block : bool) (r : call (option Z)) (s' : cbufs) : Prop :=
  match r with
  | Returned ch => ch = head q ∧ cbuf_at a lp (drop 1 q) w s' ∧ (block = true → ch ≠ None)
  | Switched => block = true ∧ q = [] ∧ cbuf_at a lp [] (w ++ [cur]) s'
  end.

Lemma wp_read_char_data a lp q w s block cur (again : CB (call (option Z))) :
  cbuf_at a lp q w s → (block = true → q ≠ []) →
  wp (ch ← read_char_locked a; if block && bool_decide (ch = None) then again else mret (Returned ch))
    (read_char_result a lp q w cur block) s.
Proof.
  intros Hat Hb. apply wp_bind. eapply wp_mono; [by eapply wp_read_char_locked|]. intros ch s' (-> & Hat' & _).
  assert (block = true → head q ≠ None) as Hne by (intros ?%Hb; by destruct q).
  apply wp_if; intros Hc; [|by apply wp_ret]. apply andb_true_iff in Hc as [Hbl Hz%bool_decide_eq_true]. by destruct (Hne Hbl).
Qed.

(** [cbuf_read_char] returns the oldest byte, or waits for one when it blocks. *)
Lemma cbuf_read_char_spec n a lp q w s cpu cur block :
  cbuf_at a lp q w s → calling cpu cur (cy s) → ¬ timer_queued (sk (cy s)) (StackTimer cur) →
  wp (cbuf_read_char_from (S n) cpu a block false) (read_char_result a lp q w cur block) s.
Proof.
  intros Hat [Hl Hr] Hnt. cbn [cbuf_read_char_from]. apply wp_bind.
  destruct block; simpl; [|by apply wp_ret, (wp_read_char_data a lp q w s false cur fail)].
  destruct Hat as [He Hc]. apply wp_on_sync. eapply wp_mono; [by eapply (wp_event_wait a _ 0 w _ cpu cur)|].
  intros [ret|] y'; case_bool_decide as Hq; simpl.
  - by intros [[(? & _)|(_ & ? & _)] _].
  - intros [[(_ & _ & He')|(? & _)] _]; [|done]. eapply (wp_read_char_data a lp q w _ true); [|auto]. split; [|done]. by case_bool_decide.
  - intros (_ & _ & He'). apply wp_ret. subst q. by split_and!.
  - by intros (? & _).
Qed.

(** The bytes a region of [cbuf_peek] covers *)
Definition region (c : cbuf) (r : iovec) : list Z :=
  match iov_base r with Some o => default [] (copy_out o (iov_len r) (c_buf c)) | None => [] end.

(** [cbuf_peek] describes exactly the bytes in the buffer, in order. *)
Lemma cbuf_peek_spec a lp q w s :
  cbuf_at a lp q w s →
  wp (cbuf_peek a) (λ r s', r.1.1 = Z.of_nat (length q) ∧ cbuf_at a lp q w s' ∧
    ∀ c, cmap s !! a = Some c → region c r.1.2 ++ region c r.2 = q) s.
Proof.
  intros [He (c & Hc & Hlk & <- & R)].
  apply wp_bind. eapply wp_spin_lock; [done..|]. apply wp_bind. eapply wp_deref; [by rw /= lookup_insert_eq|].
  pose proof (repr_lock true c q R) as R1. pose proof (cr_size c q R) as Hs. pose proof (cr_fits _ _ R) as Hf.
  pose proof (cr_tail _ _ R) as Ht. pose proof (cr_buf _ _ R) as Hbl.
  rw (cbuf_space_used_repr _ _ R1) /cbuf_size /= Z.shiftl_1_l.
  apply wp_bind, wp_assert; [apply Z.ltb_lt; lia|]. apply wp_bind, wp_assert; [apply Z.leb_le; lia|].
  apply wp_bind. eapply wp_spin_unlock; [apply lookup_insert_eq|]. apply wp_ret.
  split_and!; [done|by apply cbuf_at_put|]. simpl. intros ? [= <-]%(eq_trans (eq_sym Hc)).
  destruct (Z.eqb_spec (Z.of_nat (length q)) 0) as [E|E].
  { assert (q = []) as -> by (apply length_zero_iff_nil; lia). rw (proj2 (Z.ltb_ge _ _)) //; simpl; lia. }
  case_match eqn:Hlt; to_prop; rw /region /=.
  - rw (copy_out_repr c q) //; [|lia..]. rw /copy_out Hbl (proj2 (Z.ltb_ge _ _)); [|lia]. simpl.
    set (k := Z.to_nat (2 ^ c_len_pow2 c - c_tail c)). transitivity (take k q ++ drop k q); [f_equal|apply take_drop].
    pose proof (ring_skip _ _ _ k (cr_ring _ _ R)) as HR. rw Hbl in HR.
    rw (_ : (Z.to_nat (c_tail c) + k) `mod` _ = 0)%nat in HR; [|rw (_ : (_ + k = Z.to_nat (2 ^ c_len_pow2 c))%nat); [apply Nat.Div0.mod_same|lia]].
    rw (ring_copy_out _ _ (drop k q)); [apply take_ge; rw length_drop; lia|apply HR; lia|rw length_drop; lia|rw Hbl; lia].
  - rw (copy_out_repr c q) //; [|lia..]. simpl. rw app_nil_r. apply take_ge. lia.
Qed.

(** ** Concrete instances *)

(** A buffer of four bytes at address 5; thread 3 waits for data, thread 2 runs. *)
Definition c_empty : cbuf := Cbuf 3 3 2 [0; 0; 0; 0] false.

Definition with_cbuf : cbufs := Cbufs (with_event k_waiter false 0) {[ 5%positive := c_empty ]}.

Lemma c_empty_repr : cbuf_repr c_empty [].
Proof. split; try by vm_compute. apply ring_nil. Qed.

Lemma with_cbuf_at : cbuf_at 5 2 [] [h 3] with_cbuf.
Proof.
  split; [split; [apply k_waiter_inv|by vm_compute|by vm_compute|done]|].
  exists c_empty. split_and!; [by vm_compute..|apply c_empty_repr].
Qed.

Lemma with_cbuf_running : running_on (cy with_cbuf) 0 (h 2).
Proof. split; [by vm_compute|]. apply not_idle_check. by vm_compute. Qed.

Lemma cbuf_write_equiv_witness :
  write_loop passes c_empty (Some [1; 2; 3; 4]) 4 0 = put_chars c_empty [1; 2; 3; 4].
Proof. apply (cbuf_write_equiv c_empty [] (Some [1; 2; 3; 4]) 4 c_empty_repr). reflexivity. Defined.

Lemma cbuf_write_spec_witness :
  wp (cbuf_write 0 5 (Some [1; 2; 3]) 3 false)
    (λ r s', r.1 = 3 ∧ cbuf_at 5 2 [1; 2; 3] [] s' ∧ delivered (sk (cy s')) (h 3) NO_ERROR) with_cbuf.
Proof.
  eapply wp_mono; [eapply (cbuf_write_spec 5 2 [] [h 3] with_cbuf 0 (h 2) (Some [1; 2; 3]) 3 false)|].
  - apply with_cbuf_at.
  - split; [apply k_waiter_inv|apply with_cbuf_running].
  - reflexivity.
  - reflexivity.
  - intros r s' (-> & Hat & Hd). split; [reflexivity|]. split; [exact Hat|]. apply Hd; [discriminate|left].
Defined.

Lemma cbuf_read_spec_witness :
  wp (cbuf_read 0 5 2 true) (λ r s', r = Switched ∧ cbuf_at 5 2 [] [h 3; h 2] s') with_cbuf.
Proof.
  eapply wp_mono; [eapply (proj1 (cbuf_read_spec 5 2 [] [h 3] with_cbuf 0 (h 2) 2 true with_cbuf_at with_cbuf_running _ _))|].
  - apply k_waiter_inv.
  - intros [bytes|] s'; [intros (-> & _ & Hne); destruct (Hne eq_refl); reflexivity|]. intros (_ & _ & Hat). exact (conj eq_refl Hat).
  Unshelve.
  + apply timer_free. by vm_compute.
  + lia.
Defined.

(** [cbuf_write_char] that may reschedule leaves the spin lock of the buffer held
    while the reader it has woken runs, and the reader spins for it; with the lock
    released the reader returns the byte. *)
Lemma write_char_deadlock :
  ∃ s', cbuf_write_char 0 5 7 true with_cbuf = Some (Switched, s') ∧
    current (sk (cy s')) !! 0%nat = Some (h 3) ∧ cbuf_read_resume 0 5 1 s' = None ∧
    wp (spin_unlock 5;; cbuf_read_resume 0 5 1) (λ r _, r = Returned [7]) s'.
Proof. eexists. split; [vm_compute; reflexivity|]. split_and!; vm_compute; reflexivity. Qed.
