(* ===== verification/Bio.v ===== *)
(** * Block devices

    [src/mk/lib/bio/bio.c], [mem.c] and [subdev.c].  A device has its operations as
    function pointers: those of [bio.c] that work with any device, those of memory
    and of sub-devices, and those of a driver, which is a parameter.  A transfer
    into a buffer takes the bytes of the buffer and returns its new bytes. *)

From S2P Require Import Prelude Bits Bytes.

Definition ERR_IO : Z := -20.
Definition ERR_NOT_SUPPORTED : Z := -24.

Definition BIO_FLAGS_NONE : Z := 0.
Definition BIO_FLAG_CACHE_ALIGNED_READS : Z := 1.
Definition BIO_FLAG_CACHE_ALIGNED_WRITES : Z := 2.

Record bio_erase_geometry_info := Geometry { g_start : Z; g_size : Z; erase_size : Z; erase_shift : Z }.

(** Whose function a pointer of a device is. *)
Inductive hook := Default | Mem | Subdev | Driver.

(** What follows the base structure: the array of a memory device, the parent and
    the first block of a sub-device, the number of a driver's device. *)
Inductive private :=
| NoPrivate
| MemPrivate (ptr : positive)
| SubPrivate (parent : option positive) (offset : Z)
| DriverPrivate (unit_ : positive).

(** [geometry] is empty without erase geometry. *)
Record bdev := Bdev {
  in_list : bool;
  ref : Z;
  b_name : option string;
  total_size : Z;
  block_size : Z;
  block_shift : Z;
  block_count : Z;
  geometry : list bio_erase_geometry_info;
  erase_byte : Z;
  b_flags : Z;
  b_read : hook;
  b_read_block : hook;
  b_write : hook;
  b_write_block : hook;
  b_erase : hook;
  b_ioctl : option hook;
  b_close : option hook;
  b_private : private
}.

(** The functions of a driver: the result and, of a read, the bytes put in the
    buffer. *)
Class BlockDriver (D : Type) := {
  drv_read_block : positive → Z → Z → D → Z * list Z * D;
  drv_write_block : positive → Z → Z → list Z → D → Z * D;
  drv_ioctl : positive → Z → D → Z * D
}.

(** Devices, the list of registered ones, the arrays of memory devices, and the
    state of the driver. *)
Record bio (D : Type) := Bio {
  devs : gmap positive bdev;
  bdevs : list positive;
  ram : gmap positive (list Z);
  drv : D
}.
Arguments Bio {D} devs bdevs ram drv.
Arguments devs {D} b.
Arguments bdevs {D} b.
Arguments ram {D} b.
Arguments drv {D} b.

Definition set_in_list (v : bool) (d : bdev) : bdev :=
  Bdev v (ref d) (b_name d) (total_size d) (block_size d) (block_shift d) (block_count d) (geometry d) (erase_byte d) (b_flags d)
    (b_read d) (b_read_block d) (b_write d) (b_write_block d) (b_erase d) (b_ioctl d) (b_close d) (b_private d).

Definition set_ref (v : Z) (d : bdev) : bdev :=
  Bdev (in_list d) v (b_name d) (total_size d) (block_size d) (block_shift d) (block_count d) (geometry d) (erase_byte d) (b_flags d)
    (b_read d) (b_read_block d) (b_write d) (b_write_block d) (b_erase d) (b_ioctl d) (b_close d) (b_private d).

Definition set_b_name (v : option string) (d : bdev) : bdev :=
  Bdev (in_list d) (ref d) v (total_size d) (block_size d) (block_shift d) (block_count d) (geometry d) (erase_byte d) (b_flags d)
    (b_read d) (b_read_block d) (b_write d) (b_write_block d) (b_erase d) (b_ioctl d) (b_close d) (b_private d).

Definition set_erase_byte (v : Z) (d : bdev) : bdev :=
  Bdev (in_list d) (ref d) (b_name d) (total_size d) (block_size d) (block_shift d) (block_count d) (geometry d) v (b_flags d)
    (b_read d) (b_read_block d) (b_write d) (b_write_block d) (b_erase d) (b_ioctl d) (b_close d) (b_private d).

(** The operations of a driver or of the devices of this component. *)
Definition set_transfers (h : hook) (d : bdev) : bdev :=
  Bdev (in_list d) (ref d) (b_name d) (total_size d) (block_size d) (block_shift d) (block_count d) (geometry d) (erase_byte d) (b_flags d)
    h h h h (b_erase d) (b_ioctl d) (b_close d) (b_private d).

Definition set_erase_close (e : hook) (c : option hook) (d : bdev) : bdev :=
  Bdev (in_list d) (ref d) (b_name d) (total_size d) (block_size d) (block_shift d) (block_count d) (geometry d) (erase_byte d) (b_flags d)
    (b_read d) (b_read_block d) (b_write d) (b_write_block d) e (b_ioctl d) c (b_private d).

Definition set_b_private (v : private) (d : bdev) : bdev :=
  Bdev (in_list d) (ref d) (b_name d) (total_size d) (block_size d) (block_shift d) (block_count d) (geometry d) (erase_byte d) (b_flags d)
    (b_read d) (b_read_block d) (b_write d) (b_write_block d) (b_erase d) (b_ioctl d) (b_close d) v.

(** ** Ranges *)

Definition bio_trim_range (dev : bdev) (offset len : Z) : Z :=
  if offset <? 0 then 0
  else if total_size dev <=? offset then 0
  else if len =? 0 then 0
  else if total_size dev <? s64 (u64 (offset + len)) then u64 (total_size dev - offset)
  else len.

Definition bio_trim_block_range (dev : bdev) (block count : Z) : Z :=
  if block_count dev <? block then 0
  else if count =? 0 then 0
  else if block_count dev <? u32 (block + count) then u32 (block_count dev - block)
  else count.

Section bio.
Context {D : Type} `{!BlockDriver D}.

Abbreviation B := (M (bio D)).

(** [CACHE_LINE] of the architecture. *)
Context (CACHE_LINE : Z).

Definition bio_does_overlap (start1 len1 start2 len2 : Z) : B bool :=
  let end1 := u64 (start1 + len1) in
  let end2 := u64 (start2 + len2) in
  assert (start1 <=? end1);;
  assert (start2 <=? end2);;
  mret (((start2 <=? start1) && (start1 <? end2)) || ((start1 <=? start2) && (start2 <? end1))).

Definition bio_contains_range (container_start container_len contained_start contained_len : Z) : B bool :=
  let container_end := u64 (container_start + container_len) in
  let contained_end := u64 (contained_start + contained_len) in
  assert (container_start <=? container_end);;
  assert (contained_start <=? contained_end);;
  mret ((container_start <=? contained_start) && (contained_end <=? container_end)).

Definition get_dev (a : positive) : B bdev := deref (λ s, devs s !! a).

Definition put_dev (a : positive) (d : bdev) : B unit :=
  modify (λ s, Bio (<[a := d]> (devs s)) (bdevs s) (ram s) (drv s)).

Definition get_ram (ptr : positive) : B (list Z) := deref (λ s, ram s !! ptr).

Definition put_ram (ptr : positive) (l : list Z) : B unit :=
  modify (λ s, Bio (devs s) (bdevs s) (<[ptr := l]> (ram s)) (drv s)).

(** A call into the driver. *)
Definition on_drv {A} (f : D → A * D) : B A :=
  λ s, let '(a, d) := f (drv s) in Some (a, Bio (devs s) (bdevs s) (ram s) d).

Definition get_mem (d : bdev) : B positive := deref (λ _, match b_private d with MemPrivate p => Some p | _ => None end).

Definition get_sub (d : bdev) : B (positive * Z) :=
  deref (λ _, match b_private d with SubPrivate (Some p) o => Some (p, o) | _ => None end).

Definition get_unit (d : bdev) : B positive := deref (λ _, match b_private d with DriverPrivate u => Some u | _ => None end).

(** ** Memory devices, [mem.c] *)

Definition BLOCKSIZE : Z := 512.

(** [memcpy] between the array of the device and the buffer of the caller *)
Definition mem_to_buf (d : bdev) (buf : list Z) (o n : Z) : B (list Z) :=
  ptr ← get_mem d; l ← get_ram ptr;
  bytes ← deref (λ _, copy_out o n l);
  deref (λ _, copy_in 0 bytes buf).

Definition buf_to_mem (d : bdev) (buf : list Z) (o n : Z) : B unit :=
  ptr ← get_mem d; l ← get_ram ptr;
  bytes ← deref (λ _, copy_out 0 n buf);
  l' ← deref (λ _, copy_in o bytes l);
  put_ram ptr l'.

Definition mem_bdev_read (d : bdev) (buf : list Z) (offset len : Z) : B (Z * list Z) :=
  buf' ← mem_to_buf d buf offset len; mret (len, buf').

Definition mem_bdev_read_block (d : bdev) (buf : list Z) (block count : Z) : B (Z * list Z) :=
  buf' ← mem_to_buf d buf (u32 (block * BLOCKSIZE)) (u32 (count * BLOCKSIZE)); mret (u32 (count * BLOCKSIZE), buf').

Definition mem_bdev_write (d : bdev) (buf : list Z) (offset len : Z) : B Z :=
  buf_to_mem d buf offset len;; mret len.

Definition mem_bdev_write_block (d : bdev) (buf : list Z) (block count : Z) : B Z :=
  buf_to_mem d buf (u32 (block * BLOCKSIZE)) (u32 (count * BLOCKSIZE));; mret (u32 (count * BLOCKSIZE)).

(** ** Whole blocks *)

Definition bio_default_read_block : Z := ERR_NOT_SUPPORTED.

Definition bio_default_write_block : Z := ERR_NOT_SUPPORTED.

(** [bio_read_block], with [subdev_read_block] as the case of a sub-device; [n] bounds
    how deep sub-devices are nested. *)
Fixpoint bio_read_block (n : nat) (a : positive) (buf : list Z) (block count : Z) : B (Z * list Z) :=
  dev ← get_dev a;
  assert (0 <? ref dev);;
  let count := bio_trim_block_range dev block count in
  if count =? 0 then mret (0, buf)
  else
    match b_read_block dev with
    | Default => mret (bio_default_read_block, buf)
    | Mem => mem_bdev_read_block dev buf block count
    | Subdev =>
        '(parent, offset) ← get_sub dev;
        match n with
        | S n => bio_read_block n parent buf (u32 (block + offset)) count
        | O => fail
        end
    | Driver =>
        u ← get_unit dev;
        '(r, bytes) ← on_drv (drv_read_block u block count);
        buf' ← deref (λ _, copy_in 0 bytes buf);
        mret (r, buf')
    end.

Fixpoint bio_write_block (n : nat) (a : positive) (buf : list Z) (block count : Z) : B Z :=
  dev ← get_dev a;
  assert (0 <? ref dev);;
  let count := bio_trim_block_range dev block count in
  if count =? 0 then mret 0
  else
    match b_write_block dev with
    | Default => mret bio_default_write_block
    | Mem => mem_bdev_write_block dev buf block count
    | Subdev =>
        '(parent, offset) ← get_sub dev;
        match n with
        | S n => bio_write_block n parent buf (u32 (block + offset)) count
        | O => fail
        end
    | Driver => u ← get_unit dev; on_drv (drv_write_block u block count buf)
    end.

(** ** Bytes *)

(** The test on the result of a block transfer of [want] bytes *)
Definition checked (err want : Z) : Z := if err <? 0 then err else if u64 err =? want then err else ERR_IO.

(** The local variables of [bio_default_read] and [bio_default_write]: the buffer, how
    far into it the transfer is, the bytes left and the next block. *)
Record xfer := Xfer { x_buf : list Z; x_pos : Z; x_len : Z; x_block : Z }.

(** Moving on by [m] bytes and [k] blocks, with the bytes [buf] in the buffer. *)
Definition advance (buf : list Z) (m k : Z) (x : xfer) : xfer :=
  Xfer buf (x_pos x + m) (u64 (x_len x - m)) (u32 (x_block x + k)).

(** The temporary block; what it holds at first is never used. *)
Definition stackbuf (dev : bdev) : list Z := replicate (Z.to_nat (block_size dev)) 0.

(** Partial first block *)
Definition read_first (n : nat) (a : positive) (dev : bdev) (offset : Z) (x : xfer) : B (Z * xfer) :=
  let block_offset := offset mod block_size dev in
  if block_offset =? 0 then mret (0, x)
  else
    '(err, temp) ← bio_read_block n a (stackbuf dev) (x_block x) 1;
    let err := checked err (block_size dev) in
    if err <? 0 then mret (err, x)
    else
      let tocopy := Z.min (block_size dev - block_offset) (x_len x) in
      bytes ← deref (λ _, copy_out block_offset tocopy temp);
      buf' ← deref (λ _, copy_in (x_pos x) bytes (x_buf x));
      mret (err, advance buf' tocopy 1 x).

(** Middle blocks through the temporary one *)
Fixpoint read_middle_loop (fuel : nat) (n : nat) (a : positive) (dev : bdev) (err : Z) (x : xfer) : B (Z * xfer) :=
  if x_len x <? block_size dev then mret (err, x)
  else
    match fuel with
    | O => fail
    | S fuel =>
        '(err, temp) ← bio_read_block n a (stackbuf dev) (x_block x) 1;
        let err := checked err (block_size dev) in
        if err <? 0 then mret (err, x)
        else
          bytes ← deref (λ _, copy_out 0 (block_size dev) temp);
          buf' ← deref (λ _, copy_in (x_pos x) bytes (x_buf x));
          read_middle_loop fuel n a dev err (advance buf' (block_size dev) 1 x)
    end.

(** One pass per block *)
Definition middle_fuel (dev : bdev) (x : xfer) : nat := S (Z.to_nat (x_len x / block_size dev)).

(** [addr] is the address of the buffer. *)
Definition read_middle (n : nat) (a : positive) (dev : bdev) (addr err : Z) (x : xfer) : B (Z * xfer) :=
  if negb (Z.land (b_flags dev) BIO_FLAG_CACHE_ALIGNED_READS =? 0) && negb (IS_ALIGNED (u64 (addr + x_pos x)) CACHE_LINE) then
    read_middle_loop (middle_fuel dev x) n a dev err x
  else
    let num_blocks := divpow2 (u32 (x_len x)) (block_shift dev) in
    '(err, rest) ← bio_read_block n a (drop (Z.to_nat (x_pos x)) (x_buf x)) (x_block x) num_blocks;
    let err := checked err (u64 (block_size dev * num_blocks)) in
    let buf' := take (Z.to_nat (x_pos x)) (x_buf x) ++ rest in
    if err <? 0 then mret (err, Xfer buf' (x_pos x) (x_len x) (x_block x))
    else mret (err, advance buf' err num_blocks x).

(** Partial last block *)
Definition read_last (n : nat) (a : positive) (dev : bdev) (err : Z) (x : xfer) : B (Z * xfer) :=
  if x_len x =? 0 then mret (err, x)
  else
    '(err, temp) ← bio_read_block n a (stackbuf dev) (x_block x) 1;
    let err := checked err (block_size dev) in
    if err <? 0 then mret (err, x)
    else
      bytes ← deref (λ _, copy_out 0 (x_len x) temp);
      buf' ← deref (λ _, copy_in (x_pos x) bytes (x_buf x));
      mret (err, Xfer buf' (x_pos x + x_len x) (x_len x) (x_block x)).

Definition bio_default_read (n : nat) (a : positive) (dev : bdev) (buf : list Z) (addr offset len : Z) : B (Z * list Z) :=
  '(err, x) ← read_first n a dev offset (Xfer buf 0 len (u32 (offset / block_size dev)));
  if err <? 0 then mret (err, x_buf x)
  else
    '(err, x) ← read_middle n a dev addr err x;
    if err <? 0 then mret (err, x_buf x)
    else
      '(err, x) ← read_last n a dev err x;
      mret (if 0 <=? err then x_pos x else err, x_buf x).

(** [bio_read], with [subdev_read] as the case of a sub-device.  No driver has a
    byte-wise function of its own. *)
Fixpoint bio_read (n : nat) (a : positive) (buf : list Z) (addr offset len : Z) : B (Z * list Z) :=
  dev ← get_dev a;
  assert (0 <? ref dev);;
  let len := bio_trim_range dev offset len in
  if len =? 0 then mret (0, buf)
  else
    match b_read dev with
    | Default => bio_default_read n a dev buf addr offset len
    | Mem => mem_bdev_read dev buf offset len
    | Subdev =>
        '(parent, o) ← get_sub dev;
        match n with
        | S n => bio_read n parent buf addr (s64 (u64 (offset + u64 (o * block_size dev)))) len
        | O => fail
        end
    | Driver => fail
    end.

(** Read the block the transfer is at, copy [m] bytes of the buffer to [at_] in it and
    write it back *)
Definition update_block (n : nat) (a : positive) (dev : bdev) (at_ m : Z) (x : xfer) : B Z :=
  '(err, temp) ← bio_read_block n a (stackbuf dev) (x_block x) 1;
  let err := checked err (block_size dev) in
  if err <? 0 then mret err
  else
    bytes ← deref (λ _, copy_out (x_pos x) m (x_buf x));
    temp' ← deref (λ _, copy_in at_ bytes temp);
    err ← bio_write_block n a temp' (x_block x) 1;
    mret (checked err (block_size dev)).

Definition write_first (n : nat) (a : positive) (dev : bdev) (offset : Z) (x : xfer) : B (Z * xfer) :=
  let block_offset := offset mod block_size dev in
  if block_offset =? 0 then mret (0, x)
  else
    let tocopy := Z.min (block_size dev - block_offset) (x_len x) in
    err ← update_block n a dev block_offset tocopy x;
    mret (err, if err <? 0 then x else advance (x_buf x) tocopy 1 x).

Fixpoint write_middle_loop (fuel : nat) (n : nat) (a : positive) (dev : bdev) (err : Z) (x : xfer) : B (Z * xfer) :=
  if x_len x <? block_size dev then mret (err, x)
  else
    match fuel with
    | O => fail
    | S fuel =>
        bytes ← deref (λ _, copy_out (x_pos x) (block_size dev) (x_buf x));
        temp ← deref (λ _, copy_in 0 bytes (stackbuf dev));
        err ← bio_write_block n a temp (x_block x) 1;
        let err := checked err (block_size dev) in
        if err <? 0 then mret (err, x)
        else write_middle_loop fuel n a dev err (advance (x_buf x) (block_size dev) 1 x)
    end.

Definition write_middle (n : nat) (a : positive) (dev : bdev) (addr err : Z) (x : xfer) : B (Z * xfer) :=
  if negb (Z.land (b_flags dev) BIO_FLAG_CACHE_ALIGNED_WRITES =? 0) && negb (IS_ALIGNED (u64 (addr + x_pos x)) CACHE_LINE) then
    write_middle_loop (middle_fuel dev x) n a dev err x
  else
    let block_count := divpow2 (u32 (x_len x)) (block_shift dev) in
    err ← bio_write_block n a (drop (Z.to_nat (x_pos x)) (x_buf x)) (x_block x) block_count;
    let err := checked err (u64 (block_size dev * block_count)) in
    mret (err, if err <? 0 then x else advance (x_buf x) err block_count x).

Definition write_last (n : nat) (a : positive) (dev : bdev) (err : Z) (x : xfer) : B (Z * xfer) :=
  if x_len x =? 0 then mret (err, x)
  else
    err ← update_block n a dev 0 (x_len x) x;
    mret (err, if err <? 0 then x else Xfer (x_buf x) (x_pos x + x_len x) (x_len x) (x_block x)).

Definition bio_default_write (n : nat) (a : positive) (dev : bdev) (buf : list Z) (addr offset len : Z) : B Z :=
  '(err, x) ← write_first n a dev offset (Xfer buf 0 len (u32 (offset / block_size dev)));
  if err <? 0 then mret err
  else
    '(err, x) ← write_middle n a dev addr err x;
    if err <? 0 then mret err
    else
      '(err, x) ← write_last n a dev err x;
      mret (if 0 <=? err then x_pos x else err).

Fixpoint bio_write (n : nat) (a : positive) (buf : list Z) (addr offset len : Z) : B Z :=
  dev ← get_dev a;
  assert (0 <? ref dev);;
  let len := bio_trim_range dev offset len in
  if len =? 0 then mret 0
  else
    match b_write dev with
    | Default => bio_default_write n a dev buf addr offset len
    | Mem => mem_bdev_write dev buf offset len
    | Subdev =>
        '(parent, o) ← get_sub dev;
        match n with
        | S n => bio_write n parent buf addr (s64 (u64 (offset + u64 (o * block_size dev)))) len
        | O => fail
        end
    | Driver => fail
    end.

(** The loop of [bio_default_erase]; the erase buffer is aligned to a cache line. *)
Fixpoint erase_loop (fuel : nat) (n : nat) (a : positive) (dev : bdev) (erased pos remaining : Z) : B Z :=
  if remaining =? 0 then mret erased
  else
    match fuel with
    | O => fail
    | S fuel =>
        let towrite := Z.min remaining (block_size dev) in
        written ← bio_write n a (replicate (Z.to_nat (block_size dev)) (erase_byte dev)) 0 pos towrite;
        if written <? 0 then mret written
        else if u64 written <? towrite then mret (erased + written)
        else erase_loop fuel n a dev (erased + written) (pos + written) (u64 (remaining - written))
    end.

Definition bio_default_erase (n : nat) (a : positive) (dev : bdev) (offset len : Z) : B Z :=
  erase_loop (S (Z.to_nat (len / block_size dev))) n a dev 0 offset len.

Fixpoint bio_erase (n : nat) (a : positive) (offset len : Z) : B Z :=
  dev ← get_dev a;
  assert (0 <? ref dev);;
  let len := bio_trim_range dev offset len in
  if len =? 0 then mret 0
  else
    match b_erase dev with
    | Default => bio_default_erase n a dev offset len
    | Subdev =>
        '(parent, o) ← get_sub dev;
        match n with
        | S n => bio_erase n parent (s64 (u64 (offset + u64 (o * block_size dev)))) len
        | O => fail
        end
    | Mem | Driver => fail
    end.

Definition bio_ioctl (a : positive) (request : Z) : B Z :=
  dev ← get_dev a;
  match b_ioctl dev with
  | None => mret ERR_NOT_SUPPORTED
  | Some _ => u ← get_unit dev; on_drv (drv_ioctl u request)
  end.

(** ** References and registration *)

Definition bdev_inc_ref (a : positive) : B unit := d ← get_dev a; put_dev a (set_ref (ref d + 1) d).

(** [bdev_dec_ref], with [subdev_close] as the close function of a sub-device; only
    the name of a device is freed. *)
Fixpoint bdev_dec_ref (n : nat) (a : positive) : B unit :=
  d ← get_dev a;
  put_dev a (set_ref (ref d - 1) d);;
  if ref d =? 1 then
    assert (negb (in_list d));;
    match b_close d with
    | Some Subdev =>
        '(parent, o) ← get_sub d;
        match n with
        | S n =>
            bdev_dec_ref n parent;;
            d ← get_dev a;
            put_dev a (set_b_private (SubPrivate None o) d)
        | O => fail
        end
    | Some _ => fail
    | None => mret ()
    end;;
    d ← get_dev a;
    put_dev a (set_b_name None d)
  else mret ().

Definition bio_close (n : nat) (a : positive) : B unit := bdev_dec_ref n a.

(** The walk of [bio_open] *)
Fixpoint find_dev (name : string) (l : list positive) : B (option positive) :=
  match l with
  | [] => mret None
  | a :: l =>
      d ← get_dev a;
      assert (0 <? ref d);;
      nm ← deref (λ _, b_name d);
      if bool_decide (nm = name) then bdev_inc_ref a;; mret (Some a) else find_dev name l
  end.

Definition bio_open (name : string) : B (option positive) := l ← gets bdevs; find_dev name l.

(** [old] is what the memory of the structure holds; the pointer [ioctl] is not set. *)
Definition bio_initialize_bdev (a : positive) (old : bdev) (name : string) (block_size block_count : Z)
    (geometry : list bio_erase_geometry_info) (flags : Z) : B unit :=
  assert (negb (block_size =? 0) && ispow2 (u32 block_size));;
  let shift := log2_uint (u32 block_size) in
  put_dev a (Bdev false 0 (Some name) (s64 (Z.shiftl block_count shift)) block_size shift block_count geometry 0 flags
    Default Default Default Default Default (b_ioctl old) None (b_private old)).

Definition bio_register_device (a : positive) : B unit :=
  bdev_inc_ref a;;
  d ← get_dev a; put_dev a (set_in_list true d);;
  modify (λ s, Bio (devs s) (bdevs s ++ [a]) (ram s) (drv s)).

Definition bio_unregister_device (n : nat) (a : positive) : B unit :=
  d ← get_dev a;
  assert (in_list d);;
  put_dev a (set_in_list false d);;
  modify (λ s, Bio (devs s) (filter (.≠ a) (bdevs s)) (ram s) (drv s));;
  bdev_dec_ref n a.

Fixpoint iter_devices (callback : positive → B bool) (l : list positive) : B unit :=
  match l with
  | [] => mret ()
  | a :: l => go ← callback a; if (go : bool) then iter_devices callback l else mret ()
  end.

Definition bio_iter_devices (callback : positive → B bool) : B unit := l ← gets bdevs; iter_devices callback l.

(** [mem] and [old]: where [malloc] puts the structure, and what is there *)
Definition create_membdev (mem : positive) (old : bdev) (name : string) (ptr : positive) (len : Z) : B Z :=
  bio_initialize_bdev mem old name BLOCKSIZE (u32 (len / BLOCKSIZE)) [] BIO_FLAGS_NONE;;
  d ← get_dev mem; put_dev mem (set_transfers Mem (set_b_private (MemPrivate ptr) d));;
  bio_register_device mem;;
  mret 0.

(** The search of [bio_publish_subdevice]: the region that contains the range, or
    the last one looked at *)
Fixpoint search_geometry (l : list bio_erase_geometry_info) (start size : Z) (geo : option bio_erase_geometry_info) :
    B (option bio_erase_geometry_info) :=
  match l with
  | [] => mret geo
  | g :: l =>
      c ← bio_contains_range (u64 (g_start g)) (u64 (g_size g)) start size;
      if (c : bool) then mret (Some g) else search_geometry l start size (Some g)
  end.

(** The geometry of the new device, or an error *)
Definition subdev_geometry (pd : bdev) (startblock count : Z) : B (Z + list bio_erase_geometry_info) :=
  match geometry pd with
  | _ :: _ =>
      let byte_start := u64 (Z.shiftl startblock (block_shift pd)) in
      let byte_size := u64 (Z.shiftl count (block_shift pd)) in
      geo ← search_geometry (geometry pd) byte_start byte_size None;
      match geo with
      | None => mret (inl ERR_INVALID_ARGS)
      | Some geo =>
          let erase_mask := u64 (u64 (Z.shiftl 1 (erase_shift geo)) - 1) in
          if negb (Z.land byte_start erase_mask =? 0) || negb (Z.land byte_size erase_mask =? 0)
          then mret (inl ERR_INVALID_ARGS)
          else mret (inr [Geometry 0 (s64 byte_size) (erase_size geo) (erase_shift geo)])
      end
  | [] =>
      let endblock := u32 (startblock + count) in
      if (endblock <? startblock) || (block_count pd <? endblock) then mret (inl ERR_INVALID_ARGS) else mret (inr [])
  end.

(** [mem] is what [malloc] returns, [old] what is there. *)
Definition bio_publish_subdevice (n : nat) (mem : option positive) (old : bdev) (parent_dev subdev : string)
    (startblock count : Z) : B Z :=
  parent ← bio_open parent_dev;
  match parent with
  | None => mret ERR_NOT_FOUND
  | Some parent =>
      match mem with
      | None => bio_close n parent;; mret ERR_NO_MEMORY
      | Some sub =>
          pd ← get_dev parent;
          g ← subdev_geometry pd startblock count;
          match g with
          | inl err => bio_close n parent;; mret err
          | inr geo =>
              bio_initialize_bdev sub old subdev (block_size pd) count geo BIO_FLAGS_NONE;;
              d ← get_dev sub;
              put_dev sub (set_erase_close Subdev (Some Subdev) (set_transfers Subdev
                (set_erase_byte (erase_byte pd) (set_b_private (SubPrivate (Some parent) startblock) d))));;
              bio_register_device sub;;
              mret NO_ERROR
          end
      end
  end.
End bio.
