(* ===== verification/BioSpec.v ===== *)
(** * Block devices: transfers

    Every device stands for a range of the storage at its root, the array of a
    memory device or the blocks of a driver.  Reads and writes of blocks and of
    bytes, through any number of sub-devices, act on exactly that range. *)

From S2P Require Import Prelude Bits Bytes Bio.

(** A negative [status_t], which is an [int]. *)
Abbreviation is_error ret := (- 2 ^ 31 ≤ ret < 0).

(** What a driver promises: a device is an array of bytes; a transfer of blocks that
    lie inside it reads or replaces exactly these blocks, or reports an error, with
    the blocks of a failed write undefined. *)
Class BlockDriverLaws (D : Type) `{!BlockDriver D} := {
  drv_bytes : D → positive → list Z;
  drv_bsize : positive → Z;
  drv_read_law u b n d r bytes d' :
    drv_read_block u b n d = (r, bytes, d') → 0 ≤ b → 0 < n → (b + n) * drv_bsize u ≤ zlen (drv_bytes d u) →
    (∀ v, drv_bytes d' v = drv_bytes d v) ∧
    (is_error r ∧ zlen bytes ≤ n * drv_bsize u ∨
     r = n * drv_bsize u ∧ bytes = slice (b * drv_bsize u) (n * drv_bsize u) (drv_bytes d u));
  drv_write_law u b n buf d r d' :
    drv_write_block u b n buf d = (r, d') → 0 ≤ b → 0 < n → (b + n) * drv_bsize u ≤ zlen (drv_bytes d u) →
    n * drv_bsize u ≤ zlen buf →
    (∀ v, v ≠ u → drv_bytes d' v = drv_bytes d v) ∧
    ∃ bytes, zlen bytes = n * drv_bsize u ∧ drv_bytes d' u = splice (b * drv_bsize u) bytes (drv_bytes d u) ∧
      (is_error r ∨ r = n * drv_bsize u ∧ bytes = slice 0 (n * drv_bsize u) buf)
}.

Inductive root := RMem (ptr : positive) | RDriver (u : positive).

#[global] Instance root_eq_dec : EqDecision root.
Proof. solve_decision. Defined.

(** A device as [bio_initialize_bdev] leaves it, in use. *)
Record shape (d : bdev) : Prop := {
  sh_ref : 0 < ref d;
  sh_shift : 0 ≤ block_shift d < 31;
  sh_size : block_size d = 2 ^ block_shift d;
  sh_count : 0 ≤ block_count d < 2 ^ 32;
  sh_total : total_size d = block_count d * block_size d
}.

Definition transfers (h hb : hook) (d : bdev) : Prop :=
  b_read d = h ∧ b_write d = h ∧ b_read_block d = hb ∧ b_write_block d = hb.

Section spec.
Context {D : Type} `{!BlockDriver D, !BlockDriverLaws D}.
Implicit Types (s : bio D) (a : positive) (d : bdev) (r : root) (o : Z).

Abbreviation B := (M (bio D)).

(** The bytes at a root. *)
Definition storage s r : list Z :=
  match r with RMem p => default [] (ram s !! p) | RDriver u => drv_bytes (drv s) u end.

(** The device at [a] is the part at byte [o] of the storage of [r]; at most [n]
    sub-devices are on the way. *)
Inductive dev_at s : nat → positive → root → Z → Prop :=
| at_mem n a d p :
    devs s !! a = Some d → shape d → transfers Mem Mem d → b_private d = MemPrivate p →
    block_size d = BLOCKSIZE → total_size d < 2 ^ 32 → total_size d ≤ zlen (storage s (RMem p)) → is_Some (ram s !! p) →
    dev_at s n a (RMem p) 0
| at_driver n a d u :
    devs s !! a = Some d → shape d → transfers Default Driver d → b_private d = DriverPrivate u →
    block_size d = drv_bsize u → total_size d ≤ zlen (storage s (RDriver u)) →
    dev_at s n a (RDriver u) 0
| at_sub n a d parent pd k r o :
    devs s !! a = Some d → shape d → transfers Subdev Subdev d → b_private d = SubPrivate (Some parent) k →
    dev_at s n parent r o → devs s !! parent = Some pd → block_shift d = block_shift pd →
    0 ≤ k → k + block_count d ≤ block_count pd →
    dev_at s (S n) a r (o + k * block_size d).

(** Nothing stored has changed. *)
Record unchanged s s' : Prop := {
  un_devs : devs s' = devs s;
  un_list : bdevs s' = bdevs s;
  un_ram : ram s' = ram s;
  un_drv u : drv_bytes (drv s') u = drv_bytes (drv s) u
}.

(** The bytes at [o] of the root [r] have been replaced, and nothing else. *)
Record written r o (bytes : list Z) s s' : Prop := {
  wr_devs : devs s' = devs s;
  wr_list : bdevs s' = bdevs s;
  wr_dom p : is_Some (ram s !! p) → is_Some (ram s' !! p);
  wr_storage r' : storage s' r' = if decide (r' = r) then splice o bytes (storage s r) else storage s r'
}.

(** Only bytes in [lo, hi) of the root [r] have changed. *)
Record confined r (lo hi : Z) s s' : Prop := {
  cf_devs : devs s' = devs s;
  cf_list : bdevs s' = bdevs s;
  cf_dom p : is_Some (ram s !! p) → is_Some (ram s' !! p);
  cf_other r' : r' ≠ r → storage s' r' = storage s r';
  cf_length : length (storage s' r) = length (storage s r);
  cf_outside (i : nat) : ¬ (lo ≤ Z.of_nat i < hi) → storage s' r !! i = storage s r !! i
}.

Lemma confined_trans r lo hi s1 s2 s3 : confined r lo hi s1 s2 → confined r lo hi s2 s3 → confined r lo hi s1 s3.
Proof.
  intros [E1 E2 E3 E4 E5 E6] [F1 F2 F3 F4 F5 F6]. split; try congruence; [auto| |].
  - intros r' Hr. by rw F4 // E4.
  - intros i Hi. by rw F6 // E6.
Qed.

Lemma unchanged_refl s : unchanged s s.
Proof. done. Qed.

Lemma unchanged_trans s1 s2 s3 : unchanged s1 s2 → unchanged s2 s3 → unchanged s1 s3.
Proof. intros [] []. split; intros; congruence. Qed.

Lemma unchanged_storage s s' r : unchanged s s' → storage s' r = storage s r.
Proof. intros [_ _ Er Ed]. destruct r; simpl; [by rw Er|apply Ed]. Qed.

Lemma written_length r o bytes s s' r' : written r o bytes s s' → length (storage s' r') = length (storage s r').
Proof. intros [_ _ _ H]. rw H. case_decide; [subst; apply length_splice|done]. Qed.

Lemma unchanged_confined r lo hi s s' : unchanged s s' → confined r lo hi s s'.
Proof.
  intros U. pose proof U as [? ? Er _]. split; try done; [by rw Er|intros..]; by rw (unchanged_storage s s').
Qed.

Lemma written_confined r o bytes lo hi s s' :
  written r o bytes s s' → 0 ≤ o → o + zlen bytes ≤ zlen (storage s r) → lo ≤ o → o + zlen bytes ≤ hi → confined r lo hi s s'.
Proof.
  intros W Ho Hin Hlo Hhi. pose proof (written_length r o bytes s s' r W) as Hl. destruct W as [? ? ? Hst]. split; try done.
  - intros r' Hr. by rw Hst decide_False.
  - intros i Hi. rw Hst decide_True // lookup_splice //. by rw decide_False; [|lia].
Qed.

Lemma written_app r o b1 b2 s1 s2 s3 :
  written r o b1 s1 s2 → written r (o + zlen b1) b2 s2 s3 → 0 ≤ o → o + zlen b1 + zlen b2 ≤ zlen (storage s1 r) →
  written r o (b1 ++ b2) s1 s3.
Proof.
  intros [E1 E2 E3 E4] [F1 F2 F3 F4] Ho Hin. split; try congruence; [auto|]. intros r'. rw F4. case_decide as E; subst.
  - rw E4 decide_True // splice_app //.
  - by rw E4 decide_False.
Qed.

Lemma unchanged_written r o bytes s1 s2 s3 : unchanged s1 s2 → written r o bytes s2 s3 → written r o bytes s1 s3.
Proof.
  intros U [F1 F2 F3 F4]. pose proof U as [? ? Er _]. split; try congruence; [by rw -Er|].
  intros r'. by rw F4 !(unchanged_storage s1 s2).
Qed.

Lemma written_unchanged r o bytes s1 s2 s3 : written r o bytes s1 s2 → unchanged s2 s3 → written r o bytes s1 s3.
Proof.
  intros [F1 F2 F3 F4] U. pose proof U as [? ? Er _]. split; try congruence; [rw Er; auto|].
  intros r'. by rw (unchanged_storage s2 s3).
Qed.

(** What a device stands for depends on the devices and the size of the storage. *)
Lemma dev_at_mono s s' n a r o :
  dev_at s n a r o → devs s' = devs s → (∀ r', length (storage s' r') = length (storage s r')) →
  (∀ p, is_Some (ram s !! p) → is_Some (ram s' !! p)) → dev_at s' n a r o.
Proof.
  intros H Ed El Ep. induction H.
  - eapply at_mem; try done; [by rw Ed|by rw El|by apply Ep].
  - eapply at_driver; try done; [by rw Ed|by rw El].
  - eapply at_sub; try done; by rw Ed.
Qed.

Lemma dev_at_unchanged s s' n a r o : dev_at s n a r o → unchanged s s' → dev_at s' n a r o.
Proof.
  intros H U. pose proof U as [Ed _ Er _]. eapply dev_at_mono; [done..| |by rw Er]. intros r'. by rw (unchanged_storage s s').
Qed.

Lemma dev_at_written s s' n a r o r' o' bytes : dev_at s n a r o → written r' o' bytes s s' → dev_at s' n a r o.
Proof. intros H W. pose proof W as [Ed _ Ep _]. eapply dev_at_mono; try done. intros. by eapply written_length. Qed.

Lemma dev_at_dev s n a r o : dev_at s n a r o → ∃ d, devs s !! a = Some d ∧ shape d.
Proof. intros []; eauto. Qed.

(** A device lies inside the storage of its root. *)
Lemma dev_at_range s n a r o d :
  dev_at s n a r o → devs s !! a = Some d → 0 ≤ o ∧ o + total_size d ≤ zlen (storage s r).
Proof.
  intros H. revert d. induction H as [| |n a d parent pd k r o Hd Sh Ht Hp Hat IH Hpd Hsh Hk Hle]; intros d' Hd'; simplify_eq;
    [lia..|]. destruct (IH _ Hpd) as [? ?]. destruct (dev_at_dev _ _ _ _ _ Hat) as (? & ? & Shp). simplify_eq.
  destruct Sh as [_ _ Hs _ Ht1], Shp as [_ ? Hs' ? Ht2]. rw Ht1. rw Ht2 in H0. rw Hs' -Hsh -Hs in H0.
  assert (0 ≤ block_size d) by (rw Hs; lia). nia.
Qed.

Lemma trim_block_id d block count :
  shape d → 0 ≤ block → 0 ≤ count → block + count ≤ block_count d → bio_trim_block_range d block count = count.
Proof.
  intros Sh Hb Hc Hle. destruct Sh as [_ _ _ Hn _]. rw /bio_trim_block_range (proj2 (Z.ltb_ge _ _)); [|lia].
  destruct (Z.eqb_spec count 0); [done|]. rw u32_small; [|lia]. rw (proj2 (Z.ltb_ge _ _)) //.
Qed.

Lemma trim_id d offset len :
  shape d → 0 ≤ offset → 0 < len → offset + len ≤ total_size d → bio_trim_range d offset len = len.
Proof.
  intros Sh Ho Hl Hle. assert (total_size d < 2 ^ 63).
  { destruct Sh as [_ Hs Hb Hc ->]. rw Hb. assert (2 ^ block_shift d ≤ 2 ^ 30) by (apply Z.pow_le_mono_r; lia). nia. }
  rw /bio_trim_range (proj2 (Z.ltb_ge _ _)); [|lia]. rw (proj2 (Z.leb_gt _ _)); [|lia].
  rw (proj2 (Z.eqb_neq _ _)); [|lia]. rw u64_small; [|lia]. rw s64_small; [|lia]. by rw (proj2 (Z.ltb_ge _ _)).
Qed.

(** ** Whole blocks *)

(** What a read leaves in the buffer: [bytes], or anything if it failed. *)
Definition read_into (buf : list Z) (bytes : list Z) (ret : Z) (buf' : list Z) : Prop :=
  length buf' = length buf ∧ (is_error ret ∨ ret = zlen bytes ∧ buf' = splice 0 bytes buf).

Lemma wp_on_drv {A} (f : D → A * D) (Q : A → bio D → Prop) s :
  (∀ x e, f (drv s) = (x, e) → Q x (Bio (devs s) (bdevs s) (ram s) e)) → wp (on_drv f) Q s.
Proof. intros HQ. rw /wp /on_drv. destruct (f (drv s)) as [x e] eqn:E. by apply HQ. Qed.

Lemma wp_mem_to_buf d buf off m p (Q : list Z → bio D → Prop) s :
  b_private d = MemPrivate p → is_Some (ram s !! p) → 0 ≤ off → 0 ≤ m → off + m ≤ zlen (storage s (RMem p)) → m ≤ zlen buf →
  Q (splice 0 (slice off m (storage s (RMem p))) buf) s → wp (mem_to_buf d buf off m) Q s.
Proof.
  intros Hp [l Hl] Ho Hm Hle Hb HQ. simpl in Hle, HQ. rw Hl /= in Hle HQ.
  apply wp_bind. eapply wp_deref; [by rw Hp|]. apply wp_bind. eapply wp_deref; [done|].
  apply wp_bind. eapply wp_deref; [by apply copy_out_slice|].
  eapply wp_deref; [apply copy_in_splice; rw length_slice; lia|done].
Qed.

Lemma wp_buf_to_mem d buf off m p (Q : unit → bio D → Prop) s :
  b_private d = MemPrivate p → is_Some (ram s !! p) → 0 ≤ off → 0 ≤ m → off + m ≤ zlen (storage s (RMem p)) → m ≤ zlen buf →
  (∀ s', written (RMem p) off (slice 0 m buf) s s' → Q () s') → wp (buf_to_mem d buf off m) Q s.
Proof.
  intros Hp [l Hl] Ho Hm Hle Hb HQ. simpl in Hle. rw Hl /= in Hle.
  apply wp_bind. eapply wp_deref; [by rw Hp|]. apply wp_bind. eapply wp_deref; [done|].
  apply wp_bind. eapply wp_deref; [by apply copy_out_slice|].
  apply wp_bind. eapply wp_deref; [apply copy_in_splice; rw length_slice; lia|]. apply wp_modify, HQ. split; simpl; try done.
  - intros q. rw lookup_insert_is_Some. destruct (decide (p = q)); auto.
  - intros [q|v]; case_decide as E; simplify_eq; simpl; [by rw lookup_insert_eq Hl|by rw lookup_insert_ne; [|congruence]|done].
Qed.

(** The checks before a block transfer that lies inside the device *)
Lemma wp_block_guard {A} a d block count (z : A) (m : bdev → B A) (Q : A → bio D → Prop) s :
  devs s !! a = Some d → shape d → 0 ≤ block → 0 ≤ count → block + count ≤ block_count d →
  (count = 0 → Q z s) → (0 < count → wp (m d) Q s) →
  wp (dev ← get_dev a; assert (0 <? ref dev);;
      if bio_trim_block_range dev block count =? 0 then mret z else m dev) Q s.
Proof.
  intros Hd Sh Hb Hc Hle H0 H1. apply wp_bind. eapply wp_deref; [done|]. apply wp_bind, wp_assert; [apply Z.ltb_lt, Sh|].
  rw trim_block_id //. destruct (Z.eqb_spec count 0); [by apply wp_ret, H0|apply H1; lia].
Qed.

Lemma read_into_ok buf bytes : read_into buf bytes (zlen bytes) (splice 0 bytes buf).
Proof. split; [apply length_splice|by right]. Qed.

Lemma read_into_none buf l o : read_into buf (slice o 0 l) 0 buf.
Proof. split; [done|]. right. by rw slice_0. Qed.

Lemma wp_mem_read_block d p buf block count s :
  shape d → b_private d = MemPrivate p → is_Some (ram s !! p) → block_size d = BLOCKSIZE → total_size d < 2 ^ 32 →
  total_size d ≤ zlen (storage s (RMem p)) → 0 ≤ block → 0 ≤ count → block + count ≤ block_count d →
  count * block_size d ≤ zlen buf →
  wp (mem_bdev_read_block d buf block count) (λ res s', unchanged s s' ∧
    read_into buf (slice (block * block_size d) (count * block_size d) (storage s (RMem p))) res.1 res.2) s.
Proof.
  intros [_ _ _ _ Ht] Hp Hram Hbs H32 Htot Hb Hc Hin Hbuf. rw Hbs /BLOCKSIZE in Ht Hbuf |- *.
  apply wp_bind. rw /BLOCKSIZE !u32_small; [|lia..]. eapply wp_mem_to_buf; [done..|lia|lia|lia|done|]. apply wp_ret. split; [done|].
  rw -{2}(length_slice (block * 512) (count * 512) (storage s (RMem p))); [apply read_into_ok|lia..].
Qed.

Lemma wp_driver_read_block d u buf block count s :
  shape d → block_size d = drv_bsize u → total_size d ≤ zlen (storage s (RDriver u)) → 
  0 ≤ block → 0 < count → block + count ≤ block_count d → count * block_size d ≤ zlen buf →
  wp ('(r, bytes) ← on_drv (drv_read_block u block count); buf' ← deref (λ _, copy_in 0 bytes buf); mret (r, buf'))
    (λ res s', unchanged s s' ∧
      read_into buf (slice (block * block_size d) (count * block_size d) (storage s (RDriver u))) res.1 res.2) s.
Proof.
  intros [_ ? Hs _ Ht] Hbs Htot Hb Hc Hin Hbuf. assert (0 ≤ block_size d) by (rw Hs; lia). simpl in *.
  apply wp_bind, wp_on_drv. intros [r bytes] e He. apply (drv_read_law u block count) in He as [Hsame Hres]; [|lia|lia|rw -Hbs; nia].
  assert (zlen bytes ≤ zlen buf).
  { rw -Hbs in Hres. destruct Hres as [[_ ?]|[_ ->]]; [lia|]. rw length_slice; nia. }
  apply wp_bind. eapply wp_deref; [apply copy_in_splice; lia|]. apply wp_ret. split; [done|]. simpl.
  split; [apply length_splice|]. rw -Hbs in Hres. destruct Hres as [[? _]|[-> ->]]; [by left|right].
  split; [|done]. rw length_slice; nia.
Qed.

Lemma wp_bio_read_block n a r o d buf block count s :
  dev_at s n a r o → devs s !! a = Some d → 0 ≤ block → 0 ≤ count → block + count ≤ block_count d →
  count * block_size d ≤ zlen buf →
  wp (bio_read_block n a buf block count) (λ res s', unchanged s s' ∧
    read_into buf (slice (o + block * block_size d) (count * block_size d) (storage s r)) res.1 res.2) s.
Proof.
  intros H. revert d block. induction H as [n a d p Hd Sh (_ & _ & Hrb & _) Hp Hbs H32 Htot Hram|
    n a d u Hd Sh (_ & _ & Hrb & _) Hp Hbs Htot|n a d parent pd k r o Hd Sh (_ & _ & Hrb & _) Hp Hat IH Hpd Hsh Hk Hle];
    intros d' block Hd' Hb Hc Hin Hbuf; simplify_eq.
  all: assert (0 ≤ block_size d) as Hs0 by (destruct Sh as [_ ? -> _ _]; lia).
  all: assert ((block + count) * block_size d ≤ total_size d) as Hin' by (destruct Sh as [_ _ _ _ ->]; nia).
  - destruct n; cbn [bio_read_block]; (eapply wp_block_guard; [done..|intros ->; split; [done|apply read_into_none]|]);
      intros Hpos; rw Hrb trim_block_id //; by apply wp_mem_read_block.
  - destruct n; cbn [bio_read_block]; (eapply wp_block_guard; [done..|intros ->; split; [done|apply read_into_none]|]);
      intros Hpos; rw Hrb trim_block_id //; apply wp_bind; (eapply wp_deref; [by rw Hp|]); by apply wp_driver_read_block.
  - cbn [bio_read_block]. eapply wp_block_guard; [done..|intros ->; split; [done|apply read_into_none]|].
    intros Hpos. rw Hrb trim_block_id // /=. apply wp_bind. eapply wp_deref; [by rw Hp|].
    destruct (dev_at_dev _ _ _ _ _ Hat) as (? & ? & Shp). simplify_eq.
    assert (block_size pd = block_size d) as Eb by (destruct Sh as [_ _ -> _ _], Shp as [_ _ -> _ _]; by rw Hsh).
    pose proof (sh_count _ Shp). rw u32_small; [|lia]. eapply wp_mono; [apply (IH pd); [done|lia|lia|lia|by rw Eb]|].
    rw Eb. intros res s'. by rw (_ : o + (block + k) * block_size d = o + k * block_size d + block * block_size d); [|lia].
Qed.

(** What a write leaves at [o] of the root: the first [m] bytes of the buffer, or
    anything if it failed. *)
Definition write_from (buf : list Z) r o (m : Z) (ret : Z) s s' : Prop :=
  ∃ bytes, zlen bytes = m ∧ written r o bytes s s' ∧ (is_error ret ∨ ret = m ∧ bytes = slice 0 m buf).

Lemma written_none r o s : written r o [] s s.
Proof. split; try done. intros r'. case_decide; by subst. Qed.

Lemma write_from_none buf r o s : write_from buf r o 0 0 s s.
Proof. exists []. split_and!; [done|apply written_none|by right]. Qed.

Lemma wp_mem_write_block d p buf block count s :
  shape d → b_private d = MemPrivate p → is_Some (ram s !! p) → block_size d = BLOCKSIZE → total_size d < 2 ^ 32 →
  total_size d ≤ zlen (storage s (RMem p)) → 0 ≤ block → 0 ≤ count → block + count ≤ block_count d →
  count * block_size d ≤ zlen buf →
  wp (mem_bdev_write_block d buf block count)
    (λ ret s', write_from buf (RMem p) (block * block_size d) (count * block_size d) ret s s') s.
Proof.
  intros [_ _ _ _ Ht] Hp Hram Hbs H32 Htot Hb Hc Hin Hbuf. rw Hbs /BLOCKSIZE in Ht Hbuf |- *.
  apply wp_bind. rw /BLOCKSIZE !u32_small; [|lia..]. eapply wp_buf_to_mem; [done..|lia|lia|lia|done|]. intros s' W.
  apply wp_ret. exists (slice 0 (count * 512) buf). split_and!; [rw length_slice; lia|done|by right].
Qed.

Lemma wp_driver_write_block d u buf block count s :
  shape d → block_size d = drv_bsize u → total_size d ≤ zlen (storage s (RDriver u)) → 
  0 ≤ block → 0 < count → block + count ≤ block_count d → count * block_size d ≤ zlen buf →
  wp (on_drv (drv_write_block u block count buf))
    (λ ret s', write_from buf (RDriver u) (block * block_size d) (count * block_size d) ret s s') s.
Proof.
  intros [_ ? Hs _ Ht] Hbs Htot Hb Hc Hin Hbuf. assert (0 ≤ block_size d) by (rw Hs; lia). simpl in *.
  apply wp_on_drv. intros r e He.
  apply (drv_write_law u block count) in He as (Hsame & bytes & Hl & Hb' & Hres); [|lia|lia|rw -Hbs; nia|by rw -Hbs].
  rw -Hbs in Hl Hb' Hres. exists bytes. split_and!; [done| |done]. split; try done.
  intros [q|v]; case_decide as E; simplify_eq; simpl; [done|done|]. apply Hsame. congruence.
Qed.

Lemma wp_bio_write_block n a r o d buf block count s :
  dev_at s n a r o → devs s !! a = Some d → 0 ≤ block → 0 ≤ count → block + count ≤ block_count d →
  count * block_size d ≤ zlen buf →
  wp (bio_write_block n a buf block count)
    (λ ret s', write_from buf r (o + block * block_size d) (count * block_size d) ret s s') s.
Proof.
  intros H. revert d block. induction H as [n a d p Hd Sh (_ & _ & _ & Hrb) Hp Hbs H32 Htot Hram|
    n a d u Hd Sh (_ & _ & _ & Hrb) Hp Hbs Htot|n a d parent pd k r o Hd Sh (_ & _ & _ & Hrb) Hp Hat IH Hpd Hsh Hk Hle];
    intros d' block Hd' Hb Hc Hin Hbuf; simplify_eq.
  - destruct n; cbn [bio_write_block]; (eapply wp_block_guard; [done..|intros ->; apply write_from_none|]);
      intros Hpos; rw Hrb trim_block_id //; by apply wp_mem_write_block.
  - destruct n; cbn [bio_write_block]; (eapply wp_block_guard; [done..|intros ->; apply write_from_none|]);
      intros Hpos; rw Hrb trim_block_id //; apply wp_bind; (eapply wp_deref; [by rw Hp|]); by apply wp_driver_write_block.
  - cbn [bio_write_block]. eapply wp_block_guard; [done..|intros ->; apply write_from_none|].
    intros Hpos. rw Hrb trim_block_id // /=. apply wp_bind. eapply wp_deref; [by rw Hp|].
    destruct (dev_at_dev _ _ _ _ _ Hat) as (? & ? & Shp). simplify_eq.
    assert (block_size pd = block_size d) as Eb by (destruct Sh as [_ _ -> _ _], Shp as [_ _ -> _ _]; by rw Hsh).
    pose proof (sh_count _ Shp). rw u32_small; [|lia]. eapply wp_mono; [apply (IH pd); [done|lia|lia|lia|by rw Eb]|].
    rw Eb. intros res s'. by rw (_ : o + (block + k) * block_size d = o + k * block_size d + block * block_size d); [|lia].
Qed.
End spec.
