(* ===== verification/BioBytes.v ===== *)
(** * Block devices: transfers of bytes

    [bio_default_read] and [bio_default_write] cut a range of bytes into a partial
    first block, whole blocks and a partial last block; the result is that of
    copying the range. *)

From S2P Require Import Prelude Bits Bytes Bio BioSpec.

Lemma checked_ok m : 0 ≤ m < 2 ^ 64 → checked m m = m.
Proof. intros. rw /checked (proj2 (Z.ltb_ge _ _)); [|lia]. rw u64_small // Z.eqb_refl //. Qed.

Lemma error_ltb err : is_error err → (err <? 0) = true.
Proof. intros. apply Z.ltb_lt. lia. Qed.

Lemma checked_err err m : is_error err → checked err m = err.
Proof. intros. by rw /checked error_ltb. Qed.

Section read.
Context {D : Type} `{!BlockDriver D, !BlockDriverLaws D} (CACHE_LINE : Z).
Implicit Types (s : bio D) (x : xfer).

(** The device, and the range to transfer. *)
Context (n : nat) (a : positive) (r : root) (o : Z) (d : bdev) (buf : list Z) (off len : Z) (st : list Z).
Context (Sh : shape d) (Hoff : 0 ≤ off) (Hlen : 0 < len < 2 ^ 32) (Hin : off + len ≤ total_size d) (Hbuf : len ≤ zlen buf).

#[local] Notation bs := (block_size d).

(** The device holds what it did at the start. *)
Definition holds_dev s : Prop := dev_at s n a r o ∧ devs s !! a = Some d ∧ storage s r = st.

Lemma holds_dev_unchanged s s' : holds_dev s → unchanged s s' → holds_dev s'.
Proof.
  intros (H & Hd & Hs) U. split_and!; [by eapply dev_at_unchanged|by rw (un_devs _ _ U)|by rw (unchanged_storage s s')].
Qed.

Lemma bs_pos : 0 < bs < 2 ^ 31.
Proof.
  destruct Sh as [_ ? -> _ _]. split; [lia|]. apply Z.pow_lt_mono_r; lia.
Qed.

(** How far the transfer has got. *)
Record reading x : Prop := {
  rd_pos : 0 ≤ x_pos x;
  rd_len : 0 ≤ x_len x;
  rd_sum : x_pos x + x_len x = len;
  rd_buf : x_buf x = splice 0 (slice (o + off) (x_pos x) st) buf
}.

(** The next byte is the first of the next block. *)
Definition on_block x : Prop :=
  0 ≤ x_block x ≤ block_count d ∧ (x_len x = 0 ∨ x_block x * bs = off + x_pos x).

Lemma holds_dev_range s : holds_dev s → 0 ≤ o ∧ o + total_size d ≤ zlen st.
Proof. intros (H & Hd & <-). by eapply dev_at_range. Qed.

Lemma block_range s b : holds_dev s → 0 ≤ b < block_count d → 0 ≤ o + b * bs ∧ o + b * bs + bs ≤ zlen st.
Proof.
  intros Hs Hb. destruct (holds_dev_range s Hs). pose proof bs_pos. rw (sh_total _ Sh) in H0. nia.
Qed.

(** Copying [m] more bytes *)
Lemma reading_advance s x m k :
  holds_dev s → reading x → 0 ≤ m ≤ x_len x → 0 ≤ x_block x + k < 2 ^ 32 →
  let bytes := slice (o + off + x_pos x) m st in
  copy_in (x_pos x) bytes (x_buf x) = Some (splice (x_pos x) bytes (x_buf x)) ∧
  reading (advance (splice (x_pos x) bytes (x_buf x)) m k x).
Proof.
  intros Hs [Hp Hl Hsum Hb] Hm Hk bytes. destruct (holds_dev_range s Hs) as [Ho Hr].
  assert (zlen bytes = m) as Em by (rw /bytes length_slice; lia).
  assert (zlen (x_buf x) = zlen buf) as Eb by by rw Hb length_splice.
  split; [apply copy_in_splice; lia|]. split; simpl; [lia| | |].
  - rw u64_small; lia.
  - rw u64_small; lia.
  - rw Hb -{1}(Z.add_0_l (x_pos x)). rw -{1}(length_slice (o + off) (x_pos x) st); [|lia..].
    rw -splice_app; [|lia|rw length_slice; lia]. by rw -slice_app; [|lia..].
Qed.

(** One block into the temporary buffer *)
Lemma wp_read_temp b s (Q : Z * list Z → bio D → Prop) :
  holds_dev s → 0 ≤ b < block_count d →
  (∀ err temp s', holds_dev s' → unchanged s s' → is_error (checked err bs) ∨ checked err bs = bs ∧ temp = slice (o + b * bs) bs st →
    Q (err, temp) s') →
  wp (bio_read_block n a (stackbuf d) b 1) Q s.
Proof.
  intros Hs Hb HQ. pose proof Hs as (Hat & Hd & Est). pose proof bs_pos as Hbs. destruct (holds_dev_range s Hs) as [Ho Hr].
  assert (zlen (stackbuf d) = bs) as Et by (rw /stackbuf length_replicate; lia).
  assert ((b + 1) * bs ≤ total_size d) by (rw (sh_total _ Sh); nia).
  eapply wp_mono; [eapply wp_bio_read_block; [done|done|lia|lia|lia|lia]|]. intros [err temp] s' [U [_ Hres]]. simpl in Hres.
  apply HQ; [by eapply holds_dev_unchanged|done|]. rw Z.mul_1_l Est length_slice in Hres; [|nia..].
  destruct Hres as [Hneg|[-> ->]].
  - left. by rw checked_err.
  - right. rw checked_ok; [|lia]. split; [done|].
    apply splice_all. pose proof (length_slice (o + b * bs) bs st). nia.
Qed.

(** Where a phase of a read ends: with an error, or with [P] of the transfer. *)
Definition phase (P : xfer → Prop) s (res : Z * xfer) s' : Prop :=
  unchanged s s' ∧ length (x_buf res.2) = length buf ∧ (is_error res.1 ∨ 0 ≤ res.1 ∧ reading res.2 ∧ P res.2).

Lemma reading_length x : reading x → length (x_buf x) = length buf.
Proof. intros [_ _ _ ->]. apply length_splice. Qed.

Lemma wp_read_first s x :
  holds_dev s → reading x → x_pos x = 0 → x_block x = off / bs →
  wp (read_first n a d off x) (phase on_block s) s.
Proof.
  intros Hs Rx Hp Hb. pose proof bs_pos as Hbs. pose proof Rx as [_ Hl Hsum _].
  pose proof (Z.div_mod off bs ltac:(lia)) as Hdm. pose proof (Z.mod_pos_bound off bs ltac:(lia)) as Hm.
  assert (0 ≤ off / bs < block_count d) as Hbr.
  { pose proof (sh_total _ Sh). split; [apply Z.div_pos; lia|]. apply Z.div_lt_upper_bound; nia. }
  rw /read_first. destruct (Z.eqb_spec (off mod bs) 0) as [E|E].
  { apply wp_ret. split_and!; [done|by apply reading_length|right]. simpl. split_and!; [lia|done|]. split; [rw Hb; lia|]. right. rw Hb Hp. lia. }
  apply wp_bind, wp_read_temp; [done|by rw Hb|]. intros err temp s' Hs' U [Hneg|[Herr ->]].
  { rw error_ltb //. apply wp_ret. split_and!; [done|by apply reading_length|by left]. }
  rw Herr (proj2 (Z.ltb_ge _ _)); [|lia]. set (m := Z.min (bs - off mod bs) (x_len x)).
  pose proof (sh_count _ Sh). destruct (block_range s (x_block x) Hs) as [Hb1 Hb2]; [by rw Hb|].
  destruct (reading_advance s' x m 1 Hs' Rx) as [Hcp Rx']; [lia|lia|].
  apply wp_bind. eapply wp_deref; [apply copy_out_slice; rw length_slice; lia|].
  rw slice_slice; [|lia..]. rw (_ : o + x_block x * bs + off mod bs = o + off + x_pos x); [|rw Hb Hp; lia].
  apply wp_bind. eapply wp_deref; [done|]. apply wp_ret.
  split_and!; [done|by apply reading_length|right]. simpl. split_and!; [lia|done|].
  rw /on_block /= u64_small; [|lia]. rw u32_small; [|lia]. rw Hb Hp. subst m. split; [lia|]. nia.
Qed.

Lemma block_next x : reading x → on_block x → x_len x ≠ 0 → 0 ≤ x_block x < block_count d ∧ x_block x * bs = off + x_pos x.
Proof.
  intros [? ? ? _] [? [?|E]] Hn; [done|]. split; [|done]. pose proof bs_pos. pose proof (sh_total _ Sh). nia.
Qed.

Lemma phase_trans P s s1 res s' : unchanged s s1 → phase P s1 res s' → phase P s res s'.
Proof. intros U (U' & ? & ?). split_and!; [by eapply unchanged_trans|done..]. Qed.

Lemma wp_read_middle_loop fuel s x err :
  holds_dev s → reading x → on_block x → 0 ≤ err → (Z.to_nat (x_len x / bs) < fuel)%nat →
  wp (read_middle_loop fuel n a d err x) (phase (λ x, on_block x ∧ x_len x < bs) s) s.
Proof.
  revert s x err. induction fuel as [|fuel IH]; intros s x err Hs Rx Hx Herr Hf; [lia|]. cbn [read_middle_loop].
  destruct (Z.ltb_spec (x_len x) bs) as [Hlt|Hge].
  { apply wp_ret. split_and!; [done|by apply reading_length|by right]. }
  pose proof bs_pos as Hbs. destruct (block_next x Rx Hx) as [Hb Eb]; [lia|]. pose proof Rx as [Hp Hl Hsum _].
  apply wp_bind, wp_read_temp; [done..|]. intros err' temp s' Hs' U [Hneg|[Herr' ->]].
  { rw error_ltb //. apply wp_ret. split_and!; [done|by apply reading_length|by left]. }
  rw Herr' (proj2 (Z.ltb_ge _ _)); [|lia]. pose proof (sh_count _ Sh).
  destruct (block_range s (x_block x) Hs Hb) as [Hb1 Hb2].
  destruct (reading_advance s' x bs 1 Hs' Rx) as [Hcp Rx']; [lia|lia|].
  apply wp_bind. eapply wp_deref; [apply copy_out_slice; rw length_slice; lia|].
  rw slice_slice; [|lia..]. rw (_ : o + x_block x * bs + 0 = o + off + x_pos x); [|lia].
  apply wp_bind. eapply wp_deref; [done|]. eapply wp_mono; [apply IH|]; try done.
  - split; simpl; [rw u32_small; lia|]. rw u32_small; [|lia]. right. lia.
  - lia.
  - rw /= u64_small; [|lia]. assert (x_len x / bs = 1 + (x_len x - bs) / bs) as E.
    { rw -{1}(Z.sub_add bs (x_len x)) -{2}(Z.mul_1_l bs) Z.div_add; lia. }
    pose proof (Z.div_pos (x_len x - bs) bs). lia.
  - intros res s2. by apply phase_trans.
Qed.

Lemma divpow2_len l : 0 ≤ l < 2 ^ 32 → divpow2 (u32 l) (block_shift d) = l / bs.
Proof. intros. rw /divpow2 u32_small // Z.shiftr_div_pow2; [|apply Sh]. by rw (sh_size _ Sh). Qed.

Lemma wp_read_middle s x addr err :
  holds_dev s → reading x → on_block x → 0 ≤ err →
  wp (read_middle CACHE_LINE n a d addr err x) (phase (λ x, on_block x ∧ x_len x < bs) s) s.
Proof.
  intros Hs Rx Hx Herr. rw /read_middle. case_match; [apply wp_read_middle_loop; try done; rw /middle_fuel; lia|].
  pose proof Rx as [Hp Hl Hsum Hb]. pose proof bs_pos as Hbs. pose proof Hs as (Hat & Hd & Est).
  rw divpow2_len; [|lia]. set (k := x_len x / bs). assert (0 ≤ k ∧ k * bs ≤ x_len x < k * bs + bs) as [Hk0 Hk].
  { pose proof (Z.div_mod (x_len x) bs). pose proof (Z.mod_pos_bound (x_len x) bs). split; [apply Z.div_pos; lia|]. lia. }
  assert (x_block x + k ≤ block_count d) as Hkb.
  { destruct Hx as [? [E|E]]; [assert (k = 0) as -> by (rw /k E; by apply Z.div_0_l; lia); lia|].
    pose proof (sh_total _ Sh). nia. }
  pose proof (reading_length x Rx) as Elen. pose proof (sh_count _ Sh) as Hc. destruct (holds_dev_range s Hs) as [Ho Hr].
  destruct Hx as [Hxb Hx].
  apply wp_bind. eapply wp_mono; [eapply wp_bio_read_block; [done|done|lia|done|done|rw length_drop; lia]|].
  intros [err' rest] s' [U [Hlen' Hres]]. simpl in Hlen', Hres.
  assert (length (take (Z.to_nat (x_pos x)) (x_buf x) ++ rest) = length buf) as Elen'.
  { rw length_app length_take Hlen' length_drop. lia. }
  rw /checked. destruct Hres as [Hneg|[Hret ->]].
  { rw !(error_ltb err') //. apply wp_ret. split_and!; [done|done|by left]. }
  assert (slice (o + x_block x * bs) (k * bs) (storage s r) = slice (o + off + x_pos x) (k * bs) st) as Ebytes.
  { rw Est. destruct (decide (k = 0)) as [->|]; [done|]. f_equal. destruct Hx; lia. }
  destruct (reading_advance s x (k * bs) k Hs Rx) as [_ Rx']; [lia|lia|].
  rw Ebytes length_slice in Hret; [|lia..]. rw Ebytes splice_drop; [|lia|rw length_slice; lia].
  rw (proj2 (Z.ltb_ge err' 0)); [|lia]. rw (_ : u64 (bs * k) = u64 err'); [|f_equal; lia]. rw Z.eqb_refl (proj2 (Z.ltb_ge err' 0)); [|lia].
  rw Hret. apply wp_ret. split_and!; [done|by apply reading_length|right]. simpl. split_and!; [lia|done| |].
  - split; simpl; [rw u32_small; lia|]. rw u64_small; [|lia]. rw u32_small; [|lia]. destruct Hx; lia.
  - rw u64_small; lia.
Qed.

Lemma wp_read_last s x err :
  holds_dev s → reading x → on_block x → x_len x < bs → 0 ≤ err →
  wp (read_last n a d err x) (λ res s', unchanged s s' ∧ length (x_buf res.2) = length buf ∧
    (is_error res.1 ∨ 0 ≤ res.1 ∧ x_pos res.2 = len ∧ x_buf res.2 = splice 0 (slice (o + off) len st) buf)) s.
Proof.
  intros Hs Rx Hx Hlt Herr. pose proof Rx as [Hp Hl Hsum Hb]. pose proof bs_pos as Hbs. rw /read_last.
  destruct (Z.eqb_spec (x_len x) 0) as [E|E].
  { apply wp_ret. assert (x_pos x = len) as Ep by lia. split_and!; [done|by apply reading_length|right]. by rw -Ep. }
  destruct (block_next x Rx Hx E) as [Hbn Eb].
  apply wp_bind, wp_read_temp; [done..|]. intros err' temp s' Hs' U [Hneg|[Herr' ->]].
  { rw error_ltb //. apply wp_ret. split_and!; [done|by apply reading_length|by left]. }
  rw Herr' (proj2 (Z.ltb_ge _ _)); [|lia]. pose proof (sh_count _ Sh).
  destruct (block_range s (x_block x) Hs Hbn) as [Hb1 Hb2].
  destruct (reading_advance s' x (x_len x) 0 Hs' Rx) as [Hcp Rx']; [lia|lia|].
  apply wp_bind. eapply wp_deref; [apply copy_out_slice; rw length_slice; lia|].
  rw slice_slice; [|lia..]. rw (_ : o + x_block x * bs + 0 = o + off + x_pos x); [|lia].
  apply wp_bind. eapply wp_deref; [done|]. apply wp_ret.
  split_and!; [done|apply (reading_length _ Rx')|right]. simpl. split_and!; [lia|lia|]. destruct Rx' as [_ _ _ Hb']. simpl in Hb'. by rw Hsum in Hb'.
Qed.

Lemma wp_bio_default_read s addr :
  holds_dev s →
  wp (bio_default_read CACHE_LINE n a d buf addr off len) (λ res s', unchanged s s' ∧
    read_into buf (slice (o + off) len st) res.1 res.2) s.
Proof.
  intros Hs. pose proof bs_pos as Hbs. pose proof (sh_total _ Sh). pose proof (sh_count _ Sh).
  destruct (holds_dev_range s Hs) as [Ho Hr].
  assert (0 ≤ off / bs < block_count d) by (split; [apply Z.div_pos; lia|]; apply Z.div_lt_upper_bound; nia).
  assert (reading (Xfer buf 0 len (u32 (off / bs)))) as R0 by (split; simpl; [lia|lia|lia|by rw slice_0]).
  apply wp_bind. eapply wp_mono; [apply (wp_read_first s); [done..|rw /= u32_small; lia]|].
  intros [err1 x1] s1 (U1 & L1 & P1). simpl in *. destruct (Z.ltb_spec err1 0).
  { apply wp_ret. split; [done|]. split; [done|left; destruct P1 as [?|[? _]]; simpl; lia]. }
  destruct P1 as [?|(_ & R1 & X1)]; [lia|]. pose proof (holds_dev_unchanged _ _ Hs U1) as Hs1.
  apply wp_bind. eapply wp_mono; [by apply (wp_read_middle s1)|].
  intros [err2 x2] s2 (U2 & L2 & P2). simpl in *. destruct (Z.ltb_spec err2 0).
  { apply wp_ret. split; [by eapply unchanged_trans|]. split; [done|left; destruct P2 as [?|[? _]]; simpl; lia]. }
  destruct P2 as [?|(_ & R2 & X2 & X2')]; [lia|]. pose proof (holds_dev_unchanged _ _ Hs1 U2) as Hs2.
  apply wp_bind. eapply wp_mono; [by apply (wp_read_last s2)|].
  intros [err3 x3] s3 (U3 & L3 & P3). simpl in *. apply wp_ret.
  split; [by eapply unchanged_trans; [|eapply unchanged_trans]|]. split; [done|].
  destruct P3 as [Hneg|(Hpos & -> & ->)]; simpl.
  - left. rw (proj2 (Z.leb_gt _ _)); lia.
  - right. split; [|done]. rw (proj2 (Z.leb_le _ _)); [|done]. rw length_slice; lia.
Qed.
End read.

Section write.
Context {D : Type} `{!BlockDriver D, !BlockDriverLaws D} (CACHE_LINE : Z).
Implicit Types (s : bio D) (x : xfer).

Context (n : nat) (a : positive) (r : root) (o : Z) (d : bdev) (buf : list Z) (off len : Z).
Context (Sh : shape d) (Hoff : 0 ≤ off) (Hlen : 0 < len < 2 ^ 32) (Hin : off + len ≤ total_size d) (Hbuf : len ≤ zlen buf).

#[local] Notation bs := (block_size d).

Definition is_dev s : Prop := dev_at s n a r o ∧ devs s !! a = Some d.

(** The blocks that the range meets. *)
#[local] Notation lo := (o + off / bs * bs).
#[local] Notation hi := (o + (off + len + bs - 1) / bs * bs).

Lemma is_dev_confined s s' l h : is_dev s → confined r l h s s' → is_dev s'.
Proof.
  intros [H Hd] [Ed _ Ep Ho El _]. split; [|by rw Ed]. eapply dev_at_mono; try done.
  intros r'. destruct (decide (r' = r)) as [->|]; [done|by rw Ho].
Qed.

Lemma is_dev_range s : is_dev s → 0 ≤ o ∧ o + total_size d ≤ zlen (storage s r).
Proof. intros [H Hd]. by eapply dev_at_range. Qed.

Lemma bs_pos' : 0 < bs < 2 ^ 31.
Proof. by apply bs_pos. Qed.

(** A block that meets the range is among them, and inside the device. *)
Lemma block_in_hull s b :
  is_dev s → off / bs ≤ b → b * bs < off + len →
  0 ≤ b < block_count d ∧ lo ≤ o + b * bs ∧ o + b * bs + bs ≤ hi ∧ 0 ≤ o + b * bs ∧ o + b * bs + bs ≤ zlen (storage s r).
Proof.
  intros Hs Hb1 Hb2. pose proof bs_pos' as Hbs. destruct (is_dev_range s Hs) as [Ho Hr]. pose proof (sh_total _ Sh) as Ht.
  assert (0 ≤ off / bs) by (apply Z.div_pos; lia).
  assert (b + 1 ≤ (off + len + bs - 1) / bs) by (apply Z.div_le_lower_bound; lia).
  assert (b < block_count d) by (apply (Z.mul_lt_mono_pos_r bs); lia).
  assert (off / bs * bs ≤ b * bs) by (apply Z.mul_le_mono_nonneg_r; lia).
  assert ((b + 1) * bs ≤ (off + len + bs - 1) / bs * bs) by (apply Z.mul_le_mono_nonneg_r; lia).
  assert ((b + 1) * bs ≤ block_count d * bs) by (apply Z.mul_le_mono_nonneg_r; lia).
  assert (0 ≤ b * bs) by (apply Z.mul_nonneg_nonneg; lia). lia.
Qed.

(** How far the transfer has got since [s0]. *)
Record writing s0 x s : Prop := {
  wt_pos : 0 ≤ x_pos x;
  wt_len : 0 ≤ x_len x;
  wt_sum : x_pos x + x_len x = len;
  wt_buf : x_buf x = buf;
  wt_written : written r (o + off) (slice 0 (x_pos x) buf) s0 s
}.

Definition wphase (P : xfer → Prop) s0 (res : Z * xfer) s' : Prop :=
  confined r lo hi s0 s' ∧ (is_error res.1 ∨ 0 ≤ res.1 ∧ writing s0 res.2 s' ∧ P res.2).

Lemma writing_advance s0 s s' x m k :
  is_dev s0 → writing s0 x s → 0 ≤ m ≤ x_len x → written r (o + off + x_pos x) (slice (x_pos x) m buf) s s' →
  writing s0 (advance (x_buf x) m k x) s'.
Proof.
  intros Hs [Hp Hl Hsum Hb W] Hm W'. destruct (is_dev_range s0 Hs) as [Ho Hr].
  split; simpl; [lia|rw u64_small; lia|rw u64_small; lia|done|].
  rw slice_app; [|lia..]. rw Z.add_0_l. eapply written_app; [done| |lia|rw !length_slice; lia].
  rw length_slice; [done|lia..].
Qed.

(** Part of one block: read it, change it, write it back *)
Lemma wp_update_block s x at_ m :
  is_dev s → 0 ≤ x_pos x → x_pos x + m ≤ zlen (x_buf x) → off / bs ≤ x_block x → x_block x * bs < off + len →
  0 ≤ at_ → 0 ≤ m → at_ + m ≤ bs →
  wp (update_block n a d at_ m x) (λ err s', confined r lo hi s s' ∧
    (is_error err ∨ err = bs ∧ written r (o + x_block x * bs + at_) (slice (x_pos x) m (x_buf x)) s s')) s.
Proof.
  intros Hs Hp Hpm Hb1 Hb2 Ha Hm Ham. pose proof bs_pos' as Hbs.
  destruct (block_in_hull s (x_block x) Hs) as (Hb & Hlo & Hhi & H0 & Hst); [done..|].
  assert (zlen (stackbuf d) = bs) as Et by (rw /stackbuf length_replicate; lia). pose proof Hs as [Hat Hd].
  apply wp_bind, (wp_read_temp n a r o d buf (storage s r) Sh); [by split_and!|done|]. intros err temp s' (Hat' & Hd' & Est') U Hres.
  assert (is_dev s') as Hs' by by split. pose proof (unchanged_confined r lo hi _ _ U) as C1.
  cbv zeta. destruct Hres as [Hneg|[Herr ->]]; [rw error_ltb //; apply wp_ret; split; [done|by left]|].
  rw Herr (proj2 (Z.ltb_ge _ _)); [|lia]. apply wp_bind. eapply wp_deref; [by apply copy_out_slice|].
  apply wp_bind. eapply wp_deref; [apply copy_in_splice; rw !length_slice; lia|].
  set (temp := splice at_ _ _). assert (zlen temp = bs) as El by (rw /temp length_splice length_slice; lia).
  apply wp_bind. eapply wp_mono; [eapply wp_bio_write_block; [done|done|lia|lia|lia|lia]|].
  intros err' s2 (bytes & Hbl & W & Hres). rw Z.mul_1_l in Hbl Hres. apply wp_ret.
  assert (confined r lo hi s' s2) as C2 by (eapply written_confined; [done|lia|rw Est'; lia|lia|lia]).
  split; [by eapply confined_trans|]. destruct Hres as [Hneg|[-> ->]]; [left; by rw checked_err|right].
  rw checked_ok; [|lia]. split; [done|].
  eapply unchanged_written; [done|]. rw (_ : slice 0 bs temp = temp) in W; [|by rw -El slice_all]. destruct W as [W1 W2 W3 W4]. split; try done.
  intros r'. rw W4. case_decide; [|done]. subst. rw Est' /temp. apply splice_splice_in; try lia; rw length_slice; lia.
Qed.

Lemma confined_refl s : confined r lo hi s s.
Proof. done. Qed.

Lemma wp_write_first s x :
  is_dev s → writing s x s → x_pos x = 0 → x_block x = off / bs →
  wp (write_first n a d off x) (wphase (on_block d off) s) s.
Proof.
  intros Hs Wx Hp Hb. pose proof bs_pos' as Hbs. pose proof Wx as [_ Hl Hsum Hbf _].
  pose proof (Z.div_mod off bs ltac:(lia)) as Hdm. pose proof (Z.mod_pos_bound off bs ltac:(lia)) as Hm.
  destruct (block_in_hull s (off / bs) Hs) as (Hbr & _); [lia|lia|]. pose proof (sh_count _ Sh).
  rw /write_first. destruct (Z.eqb_spec (off mod bs) 0) as [E|E].
  { apply wp_ret. split; [done|right]. simpl. split_and!; [lia|done|]. split; [rw Hb; lia|]. right. rw Hb Hp. lia. }
  set (m := Z.min (bs - off mod bs) (x_len x)). apply wp_bind.
  eapply wp_mono; [apply (wp_update_block s x); rw ?Hb ?Hp ?Hbf; [done|lia..]|]. intros err s' [C Hres]. apply wp_ret.
  split; [done|]. simpl. destruct Hres as [Hneg|[-> W]]; [by left|right].
  rw (proj2 (Z.ltb_ge _ _)); [|lia]. split_and!; [lia| |].
  - apply (writing_advance s s s' x m 1); try done; [lia|].
    by rw Hbf (_ : o + x_block x * bs + off mod bs = o + off + x_pos x) in W; [|rw Hb Hp; lia].
  - rw /on_block /= u64_small; [|lia]. rw u32_small; [|lia]. rw Hb Hp. subst m. split; [lia|]. nia.
Qed.

Lemma wblock_next x s0 s : writing s0 x s → on_block d off x → x_len x ≠ 0 →
  off / bs ≤ x_block x ∧ x_block x * bs < off + len ∧ x_block x * bs = off + x_pos x.
Proof.
  intros [? ? ? _ _] [? [?|E]] Hn; [done|]. pose proof bs_pos'. split_and!; [|lia|done].
  apply Z.div_le_upper_bound; lia.
Qed.

Lemma wphase_trans P s0 s1 res s' :
  confined r lo hi s0 s1 → (∀ x, writing s1 x s' → writing s0 x s') → wphase P s1 res s' → wphase P s0 res s'.
Proof. intros C HW [C' H]. split; [by eapply confined_trans|]. naive_solver. Qed.

Lemma wp_write_middle_loop fuel s0 s x err :
  is_dev s0 → confined r lo hi s0 s → writing s0 x s → on_block d off x → 0 ≤ err → (Z.to_nat (x_len x / bs) < fuel)%nat →
  wp (write_middle_loop fuel n a d err x) (wphase (λ x, on_block d off x ∧ x_len x < bs) s0) s.
Proof.
  intros Hs0. revert s x err. induction fuel as [|fuel IH]; intros s x err C Wx Hx Herr Hf; [lia|]. cbn [write_middle_loop].
  destruct (Z.ltb_spec (x_len x) bs) as [Hlt|Hge]; [apply wp_ret; split; [done|by right]|].
  pose proof bs_pos' as Hbs. destruct (wblock_next x s0 s Wx Hx) as (Hb1 & Hb2 & Eb); [lia|].
  pose proof (is_dev_confined _ _ _ _ Hs0 C) as Hs. destruct (block_in_hull s (x_block x) Hs) as (Hb & Hlo & Hhi & H0 & Hst); [done..|].
  pose proof Wx as [Hp Hl Hsum Hbf _]. pose proof (sh_count _ Sh). pose proof Hs as [Hat Hd].
  apply wp_bind. eapply wp_deref; [apply copy_out_slice; rw Hbf; lia|].
  assert (zlen (stackbuf d) = bs) as Et by (rw /stackbuf length_replicate; lia).
  assert (zlen (slice (x_pos x) bs (x_buf x)) = bs) as El by (rw Hbf length_slice; lia).
  apply wp_bind. eapply wp_deref; [apply copy_in_splice; lia|]. rw splice_all; [|lia].
  apply wp_bind. eapply wp_mono; [eapply wp_bio_write_block; [done|done|lia|lia|lia|lia]|].
  intros err' s2 (bytes & Hbl & W & Hres). rw Z.mul_1_l in Hbl Hres. cbv zeta.
  assert (confined r lo hi s s2) as C2 by (eapply written_confined; [done|lia..]).
  assert (confined r lo hi s0 s2) as C3 by by eapply confined_trans.
  destruct Hres as [Hneg|[-> ->]]; [rw checked_err // error_ltb //; apply wp_ret; split; [done|by left]|].
  rw checked_ok; [|lia]. rw (proj2 (Z.ltb_ge _ _)); [|lia].
  rw (_ : slice 0 bs (slice (x_pos x) bs (x_buf x)) = slice (x_pos x) bs (x_buf x)) in W; [|by rw -{1}El slice_all].
  apply IH; try done.
  - apply (writing_advance s0 s s2); try done; [lia|]. by rw Hbf (_ : o + x_block x * bs = o + off + x_pos x) in W; [|lia].
  - split; simpl; [rw u32_small; lia|]. rw u32_small; [|lia]. right. lia.
  - lia.
  - rw /= u64_small; [|lia]. assert (x_len x / bs = 1 + (x_len x - bs) / bs) as E.
    { rw -{1}(Z.sub_add bs (x_len x)) -{2}(Z.mul_1_l bs) Z.div_add; lia. }
    pose proof (Z.div_pos (x_len x - bs) bs). lia.
Qed.

Lemma wp_write_middle s0 s x addr err :
  is_dev s0 → confined r lo hi s0 s → writing s0 x s → on_block d off x → 0 ≤ err →
  wp (write_middle CACHE_LINE n a d addr err x) (wphase (λ x, on_block d off x ∧ x_len x < bs) s0) s.
Proof.
  intros Hs0 C Wx Hx Herr. rw /write_middle. case_match; [apply wp_write_middle_loop; try done; rw /middle_fuel; lia|].
  pose proof Wx as [Hp Hl Hsum Hbf _]. pose proof bs_pos' as Hbs. pose proof (is_dev_confined _ _ _ _ Hs0 C) as Hs.
  pose proof Hs as [Hat Hd]. rw (divpow2_len d Sh); [|lia]. set (k := x_len x / bs).
  assert (0 ≤ k ∧ k * bs ≤ x_len x < k * bs + bs) as [Hk0 Hk].
  { pose proof (Z.div_mod (x_len x) bs). pose proof (Z.mod_pos_bound (x_len x) bs). split; [apply Z.div_pos; lia|]. lia. }
  destruct (is_dev_range s Hs) as [Ho Hr]. pose proof (sh_count _ Sh) as Hc. pose proof (sh_total _ Sh) as Htot.
  assert (k = 0 ∨ x_block x * bs = off + x_pos x) as Hkx.
  { destruct Hx as [_ [E|E]]; [left; rw /k E; by apply Z.div_0_l; lia|by right]. }
  assert (x_block x + k ≤ block_count d) as Hkb by (destruct Hkx as [->|]; destruct Hx; nia).
  assert (off + len ≤ (off + len + bs - 1) / bs * bs) as Hhi.
  { pose proof (Z.div_mod (off + len + bs - 1) bs). pose proof (Z.mod_pos_bound (off + len + bs - 1) bs). lia. }
  assert (off / bs * bs ≤ off) as Hlo by (pose proof (Z.div_mod off bs); pose proof (Z.mod_pos_bound off bs); lia).
  destruct Hx as [Hxb Hx]. apply wp_bind.
  eapply wp_mono; [eapply wp_bio_write_block; [done|done|lia|done|done|rw length_drop Hbf; lia]|].
  intros err' s2 (bytes & Hbl & W & Hres). apply wp_ret. rw Hbf in Hres |- *.
  assert (written r (o + off + x_pos x) bytes s s2) as W'.
  { destruct Hkx as [E|E]; [|by rw (_ : o + off + x_pos x = o + x_block x * bs); [|lia]].
    rw E /= in Hbl. assert (bytes = []) as -> by (apply length_zero_iff_nil; lia). by destruct W. }
  assert (confined r lo hi s s2) as C2 by (eapply written_confined; [done|lia..]).
  split; [by eapply confined_trans|]. destruct Hres as [Hneg|[-> ->]]; [left; by rw checked_err|right]. simpl.
  rw (Z.mul_comm bs k) u64_small; [|lia]. rw checked_ok; [|lia]. rw (proj2 (Z.ltb_ge _ _)); [|lia]. split_and!; [lia| | |].
  - rw -Hbf. apply (writing_advance s0 s s2); try done. lia.
  - split; simpl; [rw u32_small; lia|]. rw u64_small; [|lia]. rw u32_small; [|lia]. destruct Hx; lia.
  - rw /= u64_small; lia.
Qed.

Lemma wp_write_last s0 s x err :
  is_dev s0 → confined r lo hi s0 s → writing s0 x s → on_block d off x → x_len x < bs → 0 ≤ err →
  wp (write_last n a d err x) (λ res s', confined r lo hi s0 s' ∧
    (is_error res.1 ∨ 0 ≤ res.1 ∧ x_pos res.2 = len ∧ written r (o + off) (slice 0 len buf) s0 s')) s.
Proof.
  intros Hs0 C Wx Hx Hlt Herr. pose proof Wx as [Hp Hl Hsum Hbf W0]. pose proof bs_pos' as Hbs.
  pose proof (is_dev_confined _ _ _ _ Hs0 C) as Hs. rw /write_last. destruct (Z.eqb_spec (x_len x) 0) as [E|E].
  { apply wp_ret. assert (x_pos x = len) as Ep by lia. split; [done|right]. by rw -Ep. }
  destruct (wblock_next x s0 s Wx Hx E) as (Hb1 & Hb2 & Eb). apply wp_bind.
  eapply wp_mono; [apply (wp_update_block s x); rw ?Hbf; [done|lia..]|]. intros err' s' [C' Hres]. apply wp_ret.
  split; [by eapply confined_trans|]. simpl. destruct Hres as [Hneg|[-> W]]; [by left|right].
  rw (proj2 (Z.ltb_ge _ _)); [|lia]. simpl. split_and!; [lia|lia|].
  rw Z.add_0_r Hbf (_ : o + x_block x * bs = o + off + x_pos x) in W; [|lia].
  destruct (writing_advance s0 s s' x (x_len x) 0) as [_ _ _ _ W']; [done|done|lia|done|]. simpl in W'. by rw Hsum in W'.
Qed.

Lemma wp_bio_default_write s addr :
  is_dev s →
  wp (bio_default_write CACHE_LINE n a d buf addr off len) (λ ret s', confined r lo hi s s' ∧
    (is_error ret ∨ ret = len ∧ written r (o + off) (slice 0 len buf) s s')) s.
Proof.
  intros Hs. pose proof bs_pos' as Hbs. pose proof (sh_count _ Sh).
  pose proof (Z.div_mod off bs ltac:(lia)). pose proof (Z.mod_pos_bound off bs ltac:(lia)).
  destruct (block_in_hull s (off / bs) Hs) as (Hbr & _); [lia|lia|].
  assert (writing s (Xfer buf 0 len (u32 (off / bs))) s) as W0 by (split; simpl; [lia|lia|lia|done|apply written_none]).
  apply wp_bind. eapply wp_mono; [apply (wp_write_first s); [done..|rw /= u32_small; lia]|].
  intros [err1 x1] s1 (C1 & P1). simpl in *. destruct (Z.ltb_spec err1 0); [apply wp_ret; split; [done|left; destruct P1 as [?|[? _]]; simpl; lia]|].
  destruct P1 as [?|(_ & W1 & X1)]; [lia|].
  apply wp_bind. eapply wp_mono; [by apply (wp_write_middle s s1)|].
  intros [err2 x2] s2 (C2 & P2). simpl in *. destruct (Z.ltb_spec err2 0); [apply wp_ret; split; [done|left; destruct P2 as [?|[? _]]; simpl; lia]|].
  destruct P2 as [?|(_ & W2 & X2 & X2')]; [lia|].
  apply wp_bind. eapply wp_mono; [by apply (wp_write_last s s2)|].
  intros [err3 x3] s3 (C3 & P3). simpl in *. apply wp_ret. split; [done|].
  destruct P3 as [Hneg|(Hpos & -> & W3)]; simpl.
  - left. rw (proj2 (Z.leb_gt _ _)); lia.
  - right. split; [|done]. by rw (proj2 (Z.leb_le _ _)).
Qed.
End write.
