(* ===== verification/BioApi.v ===== *)
(** * Block devices: the calls

    [bio_read], [bio_write] and [bio_erase] on a device of any kind: what they return
    and which bytes they touch. *)

From S2P Require Import Prelude Bits Bytes Bio BioSpec BioBytes.

(** The part of a range that lies on the device. *)
Definition trimmed (d : bdev) (off len : Z) : Z :=
  if 0 <=? off then Z.max 0 (Z.min len (total_size d - off)) else 0.

Definition is_driver (r : root) : Prop := match r with RDriver _ => True | RMem _ => False end.

Section api.
Context {D : Type} `{!BlockDriver D, !BlockDriverLaws D} (CACHE_LINE : Z).
Implicit Types (s : bio D) (a : positive) (d : bdev) (r : root) (o : Z).

Abbreviation B := (M (bio D)).

Lemma total_bound d : shape d → 0 ≤ total_size d < 2 ^ 63.
Proof.
  intros [_ Hs Hb Hc ->]. rw Hb. assert (2 ^ block_shift d ≤ 2 ^ 30) by (apply Z.pow_le_mono_r; lia).
  assert (0 < 2 ^ block_shift d) by lia. nia.
Qed.

Lemma trim_spec d off len :
  shape d → 0 ≤ len → off + len < 2 ^ 63 → bio_trim_range d off len = trimmed d off len.
Proof.
  intros Sh Hl Hn. pose proof (total_bound d Sh) as Ht. rw /bio_trim_range /trimmed.
  destruct (Z.ltb_spec off 0); [by rw (proj2 (Z.leb_gt _ _))|]. rw (proj2 (Z.leb_le 0 off)); [|lia].
  destruct (Z.leb_spec (total_size d) off); [lia|]. destruct (Z.eqb_spec len 0); [lia|].
  rw u64_small; [|lia]. rw s64_small; [|lia]. destruct (Z.ltb_spec (total_size d) (off + len)); [rw u64_small; lia|lia].
Qed.

Lemma trimmed_range d off len : 0 ≤ total_size d → 0 ≤ len → 0 ≤ trimmed d off len ≤ len ∧
  (0 < trimmed d off len → 0 ≤ off ∧ off + trimmed d off len ≤ total_size d).
Proof. intros. rw /trimmed. destruct (Z.leb_spec 0 off); lia. Qed.

(** The checks before a transfer of bytes *)
Lemma wp_guard {A} a d off len (z : A) (m : bdev → B A) (Q : A → bio D → Prop) s :
  devs s !! a = Some d → shape d → 0 ≤ len → off + len < 2 ^ 63 →
  (trimmed d off len = 0 → Q z s) →
  (0 < trimmed d off len → 0 ≤ off → off + trimmed d off len ≤ total_size d → wp (m d) Q s) →
  wp (dev ← get_dev a; assert (0 <? ref dev);;
      if bio_trim_range dev off len =? 0 then mret z else m dev) Q s.
Proof.
  intros Hd Sh Hl Hn H0 H1. apply wp_bind. eapply wp_deref; [done|]. apply wp_bind, wp_assert; [apply Z.ltb_lt, Sh|].
  rw trim_spec //. pose proof (total_bound d Sh).
  destruct (trimmed_range d off len) as [? Hpos]; [lia|done|].
  destruct (Z.eqb_spec (trimmed d off len) 0); [by apply wp_ret, H0|]. apply H1; [lia|apply Hpos; lia|apply Hpos; lia].
Qed.

(** How a read of [m] bytes at [p] of the root ends. *)
Definition read_result r (p m : Z) (buf : list Z) s (res : Z * list Z) s' : Prop :=
  unchanged s s' ∧ length res.2 = length buf ∧
  (res.1 = m ∧ res.2 = splice 0 (slice p m (storage s r)) buf ∨ is_error res.1 ∧ is_driver r).

Lemma trimmed_id d off len : 0 ≤ off → 0 ≤ len → off + len ≤ total_size d → trimmed d off len = len.
Proof. intros. rw /trimmed (proj2 (Z.leb_le _ _)); lia. Qed.

(** A sub-device passes the call on. *)
Lemma sub_offset d pd k off len :
  shape d → shape pd → block_shift d = block_shift pd → 0 ≤ k → k + block_count d ≤ block_count pd →
  0 ≤ off → 0 < len → off + len ≤ total_size d →
  s64 (u64 (off + u64 (k * block_size d))) = off + k * block_size d ∧ 0 ≤ off + k * block_size d ∧
  off + k * block_size d + len ≤ total_size pd.
Proof.
  intros Sh Shp Hsh Hk Hle Ho Hl Hin. pose proof (total_bound pd Shp) as Hb.
  rewrite (sh_total _ Sh) in Hin. rewrite (sh_total _ Shp) (sh_size _ Shp) -Hsh -(sh_size _ Sh) in Hb |- *.
  assert (0 < block_size d) by (destruct Sh as [_ ? -> _ _]; lia).
  assert (0 ≤ k * block_size d) by nia. assert (off + k * block_size d + len ≤ block_count pd * block_size d) by nia.
  rewrite (u64_small (k * block_size d)); [|lia]. rewrite u64_small; [|lia]. rewrite s64_small; lia.
Qed.

Lemma wp_bio_read n a r o d buf addr off len s :
  dev_at s n a r o → devs s !! a = Some d → 0 ≤ len → off + len < 2 ^ 63 →
  trimmed d off len < 2 ^ 32 → trimmed d off len ≤ zlen buf →
  wp (bio_read CACHE_LINE n a buf addr off len) (read_result r (o + off) (trimmed d off len) buf s) s.
Proof.
  intros H. revert d off len. induction H as [n a d p Hd Sh (Hrb & _ & _ & _) Hp Hbs H32 Htot Hram|
    n a d u Hd Sh Htr Hp Hbs Htot|n a d parent pd k r o Hd Sh (Hrb & _ & _ & _) Hp Hat IH Hpd Hsh Hk Hle];
    intros d' off len Hd' Hl Hn Hm Hbuf; simplify_eq.
  - destruct n; cbn [bio_read]; (apply (wp_guard a d off len); [done..|intros ->; by split_and!; auto|]);
      intros Hpos Ho Hin; rw Hrb trim_spec //; apply wp_bind; (eapply wp_mem_to_buf; [done..|lia|lia|lia|]);
      apply wp_ret; (split_and!; [done|apply length_splice|by left]).
  - pose proof Htr as (Hrb & _). assert (dev_at s n a (RDriver u) 0) as Hat by by eapply at_driver.
    destruct n; cbn [bio_read]; (apply (wp_guard a d off len); [done..|intros ->; by split_and!; auto|]);
      intros Hpos Ho Hin; rw Hrb trim_spec //;
      (eapply wp_mono; [eapply (wp_bio_default_read CACHE_LINE); [done|done|lia|done|done|by split_and!]|]);
      intros res s' (U & Hlen & Hres); (split_and!; [done|done|]); (rw length_slice in Hres; [simpl in *; tauto|lia..]).
  - cbn [bio_read]. apply (wp_guard a d off len); [done..|intros ->; by split_and!; auto|].
    intros Hpos Ho Hin. rw Hrb trim_spec //. apply wp_bind. eapply wp_deref; [by rw Hp|].
    destruct (dev_at_dev _ _ _ _ _ Hat) as (? & ? & Shp). simplify_eq. pose proof (total_bound pd Shp).
    destruct (sub_offset d pd k off (trimmed d off len)) as (-> & H1 & H2); [done..|].
    assert (trimmed pd (off + k * block_size d) (trimmed d off len) = trimmed d off len) as Et by (apply trimmed_id; lia).
    eapply wp_mono; [apply (IH pd); [done|lia|lia|by rw Et..]|]. intros res s'. rw Et.
    by rw (_ : o + (off + k * block_size d) = o + k * block_size d + off); [|lia].
Qed.

(** How a write of the first [m] bytes of the buffer at [p] of the root ends; one
    that fails spoils at most the blocks, of [bs] bytes from [o] on, that the range
    at [off] meets. *)
Definition write_result r o (off m bs : Z) (buf : list Z) s (ret : Z) s' : Prop :=
  ret = m ∧ written r (o + off) (slice 0 m buf) s s' ∨
  is_error ret ∧ 0 < m ∧ is_driver r ∧ confined r (o + off / bs * bs) (o + (off + m + bs - 1) / bs * bs) s s'.

Lemma write_result_none r o off bs buf s : write_result r o off 0 bs buf s 0 s.
Proof. left. split; [done|apply written_none]. Qed.

(** The result at the parent is that at the sub-device. *)
Lemma write_result_sub r o d pd k off m buf s ret s' :
  shape d → shape pd → block_shift d = block_shift pd →
  write_result r o (off + k * block_size d) m (block_size pd) buf s ret s' →
  write_result r (o + k * block_size d) off m (block_size d) buf s ret s'.
Proof.
  intros Sh Shp Hsh. assert (block_size pd = block_size d) as -> by (by rw (sh_size _ Sh) (sh_size _ Shp) Hsh).
  assert (0 < block_size d) by (destruct Sh as [_ ? -> _ _]; lia). rw /write_result.
  rw (_ : o + (off + k * block_size d) = o + k * block_size d + off); [|lia]. rw Z.div_add; [|lia].
  rw (_ : off + k * block_size d + m + block_size d - 1 = off + m + block_size d - 1 + k * block_size d); [|lia].
  rw Z.div_add; [|lia]. by rw !Z.mul_add_distr_r !Z.add_assoc !(Z.add_comm _ (k * block_size d)) !Z.add_assoc.
Qed.

Lemma wp_bio_write n a r o d buf addr off len s :
  dev_at s n a r o → devs s !! a = Some d → 0 ≤ len → off + len < 2 ^ 63 →
  trimmed d off len < 2 ^ 32 → trimmed d off len ≤ zlen buf →
  wp (bio_write CACHE_LINE n a buf addr off len) (write_result r o off (trimmed d off len) (block_size d) buf s) s.
Proof.
  intros H. revert d off len. induction H as [n a d p Hd Sh (_ & Hrb & _ & _) Hp Hbs H32 Htot Hram|
    n a d u Hd Sh Htr Hp Hbs Htot|n a d parent pd k r o Hd Sh (_ & Hrb & _ & _) Hp Hat IH Hpd Hsh Hk Hle];
    intros d' off len Hd' Hl Hn Hm Hbuf; simplify_eq.
  - destruct n; cbn [bio_write]; (apply (wp_guard a d off len); [done..|intros ->; apply write_result_none|]);
      intros Hpos Ho Hin; rw Hrb trim_spec //; apply wp_bind; (eapply wp_buf_to_mem; [done..|lia|lia|lia|]);
      intros s' W; apply wp_ret; left; done.
  - pose proof Htr as (_ & Hrb & _). assert (dev_at s n a (RDriver u) 0) as Hat by by eapply at_driver.
    destruct n; cbn [bio_write]; (apply (wp_guard a d off len); [done..|intros ->; apply write_result_none|]);
      intros Hpos Ho Hin; rw Hrb trim_spec //;
      (eapply wp_mono; [eapply (wp_bio_default_write CACHE_LINE); [done|done|lia|done|done|by split]|]);
      intros ret s' (C & [?|[? ?]]); [by right|by left|by right|by left].
  - cbn [bio_write]. apply (wp_guard a d off len); [done..|intros ->; apply write_result_none|].
    intros Hpos Ho Hin. rw Hrb trim_spec //. apply wp_bind. eapply wp_deref; [by rw Hp|].
    destruct (dev_at_dev _ _ _ _ _ Hat) as (? & ? & Shp). simplify_eq. pose proof (total_bound pd Shp).
    destruct (sub_offset d pd k off (trimmed d off len)) as (-> & H1 & H2); [done..|].
    assert (trimmed pd (off + k * block_size d) (trimmed d off len) = trimmed d off len) as Et by (apply trimmed_id; lia).
    eapply wp_mono; [apply (IH pd); [done|lia|lia|by rw Et..]|]. intros res s'. rw Et. by apply write_result_sub.
Qed.

(** A write stays inside the device, also when it fails. *)
Lemma write_result_confined n a r o d off m buf s ret s' :
  dev_at s n a r o → devs s !! a = Some d → 0 ≤ off → 0 ≤ m → off + m ≤ total_size d → m ≤ zlen buf →
  write_result r o off m (block_size d) buf s ret s' → confined r o (o + total_size d) s s'.
Proof.
  intros Hat Hd Ho Hm Hin Hb Hres. destruct (dev_at_range _ _ _ _ _ _ Hat Hd) as [Hr0 Hr].
  destruct (dev_at_dev _ _ _ _ _ Hat) as (? & ? & Sh). simplify_eq. pose proof (sh_total _ Sh) as Ht. pose proof (sh_count _ Sh).
  assert (0 < block_size d) as Hbs by (destruct Sh as [_ ? -> _ _]; lia).
  destruct Hres as [[-> W]|(_ & _ & _ & C)].
  - eapply written_confined; [done|lia|rw length_slice; lia|lia|rw length_slice; lia].
  - destruct C as [C1 C2 C3 C4 C5 C6]. split; try done. intros i Hi. apply C6. intros Hi'. apply Hi.
    assert (0 ≤ off / block_size d * block_size d) by (pose proof (Z.div_pos off (block_size d)); nia).
    assert ((off + m + block_size d - 1) / block_size d ≤ block_count d).
    { apply Z.lt_succ_r, Z.div_lt_upper_bound; [done|]. rewrite Z.mul_succ_r. lia. }
    assert ((off + m + block_size d - 1) / block_size d * block_size d ≤ block_count d * block_size d)
      by (apply Z.mul_le_mono_nonneg_r; lia). lia.
Qed.

Lemma confined_dev r lo hi s s' n b r' o' : confined r lo hi s s' → dev_at s n b r' o' → dev_at s' n b r' o'.
Proof.
  intros [Ed _ Ep Ho El _] H. eapply dev_at_mono; try done. intros q. destruct (decide (q = r)) as [->|]; [done|by rw Ho].
Qed.

Lemma confined_slice r lo hi s s' r' p m :
  confined r lo hi s s' → 0 ≤ p → r' ≠ r ∨ p + m ≤ lo ∨ hi ≤ p → slice p m (storage s' r') = slice p m (storage s r').
Proof.
  intros [_ _ _ Ho _ Hout] Hp Hd. destruct (decide (r' = r)) as [->|Hne]; [|by rw Ho].
  destruct Hd as [?|Hd]; [done|]. apply list_eq. intros i. rw !lookup_slice //. case_decide; [|done]. apply Hout. lia.
Qed.

(** C31: a write through one device, whether it succeeds or fails, never changes the
    bytes of a device that occupies another part of the storage, and leaves every
    device where it is. *)
Theorem bio_write_isolated n a r o d n' b r' o' d' buf addr off len s :
  dev_at s n a r o → devs s !! a = Some d → dev_at s n' b r' o' → devs s !! b = Some d' →
  r' ≠ r ∨ o' + total_size d' ≤ o ∨ o + total_size d ≤ o' →
  0 ≤ len → off + len < 2 ^ 63 → trimmed d off len < 2 ^ 32 → trimmed d off len ≤ zlen buf →
  wp (bio_write CACHE_LINE n a buf addr off len) (λ _ s',
    slice o' (total_size d') (storage s' r') = slice o' (total_size d') (storage s r') ∧ dev_at s' n' b r' o') s.
Proof.
  intros Hat Hd Hat' Hd' Hdis Hl Hn Hm Hb. destruct (dev_at_range _ _ _ _ _ _ Hat' Hd') as [Ho' _].
  eapply wp_mono; [by eapply wp_bio_write|]. intros ret s' Hres.
  destruct (dev_at_dev _ _ _ _ _ Hat) as (? & ? & Sh). simplify_eq. pose proof (total_bound d Sh).
  destruct (trimmed_range d off len) as [Ht Hpos]; [lia|done|].
  assert (confined r o (o + total_size d) s s') as C.
  { destruct (decide (trimmed d off len = 0)) as [E|E]; [|].
    2: { eapply (write_result_confined n a r o d off (trimmed d off len) buf s ret); [done|done|apply Hpos; lia|lia|apply Hpos; lia|done|done]. }
    rw E in Hres. destruct Hres as [[_ W]|(_ & ? & _)]; [|lia]. destruct W as [? ? ? Hst].
    split; try done; [intros r'' ?; by rw Hst decide_False|by rw Hst decide_True|]. intros i _. by rw Hst decide_True. }
  split; [by eapply confined_slice|by eapply confined_dev].
Qed.

(** [bio_read] reads the part of the range that lies on the device, through any
    number of sub-devices and whatever the alignment of the range and the buffer:
    it returns the number of bytes and puts exactly them at the front of the
    buffer; nothing stored changes, and only a driver can make it fail. *)
Theorem bio_read_spec n a r o d buf addr off len s :
  dev_at s n a r o → devs s !! a = Some d → 0 ≤ len → off + len < 2 ^ 63 →
  trimmed d off len < 2 ^ 32 → trimmed d off len ≤ zlen buf →
  wp (bio_read CACHE_LINE n a buf addr off len) (read_result r (o + off) (trimmed d off len) buf s) s.
Proof. apply wp_bio_read. Qed.

(** C32: what [bio_write] has reported as written is what [bio_read] returns. *)
Theorem bio_write_read n a r o d buf buf2 addr addr2 off len s :
  dev_at s n a r o → devs s !! a = Some d → 0 ≤ len → off + len < 2 ^ 63 →
  trimmed d off len < 2 ^ 32 → trimmed d off len ≤ zlen buf → trimmed d off len ≤ zlen buf2 →
  wp (w ← bio_write CACHE_LINE n a buf addr off len;
      res ← bio_read CACHE_LINE n a buf2 addr2 off len; mret (w, res)) (λ '(w, res) _,
    (is_driver r ∨ 0 ≤ w ∧ 0 ≤ res.1) ∧
    (0 ≤ w → 0 ≤ res.1 → w = trimmed d off len ∧ res.1 = trimmed d off len ∧
      slice 0 (trimmed d off len) res.2 = slice 0 (trimmed d off len) buf)) s.
Proof.
  intros Hat Hd Hl Hn Hm Hb Hb2. destruct (dev_at_dev _ _ _ _ _ Hat) as (? & ? & Sh). simplify_eq. pose proof (total_bound d Sh).
  destruct (dev_at_range _ _ _ _ _ _ Hat Hd) as [Ho Hr]. destruct (trimmed_range d off len) as [Ht Hpos]; [lia|done|].
  apply wp_bind. eapply wp_mono; [by eapply wp_bio_write|]. intros w s1 Hw.
  assert (dev_at s1 n a r o ∧ devs s1 !! a = Some d) as [Hat1 Hd1].
  { destruct Hw as [[_ W]|(_ & _ & _ & C)]; [|by split; [eapply confined_dev|rw (cf_devs _ _ _ _ _ C)]].
    split; [by eapply dev_at_written|by rw (wr_devs _ _ _ _ _ W)]. }
  apply wp_bind. eapply wp_mono; [by eapply wp_bio_read|]. intros [ret out] s2 (_ & Hlen & Hres). apply wp_ret. simpl in *.
  split; [destruct Hw as [[-> _]|(? & _ & ? & _)]; [|by left]; destruct Hres as [[-> _]|[_ ?]]; [right; lia|by left]|].
  intros Hw0 Hr0. destruct Hw as [[-> W]|(? & _)]; [|lia]. destruct Hres as [[-> ->]|[? _]]; [|lia]. split_and!; [done..|].
  set (m := trimmed d off len) in *. destruct (decide (m = 0)) as [->|Hm0]; [done|]. destruct Hpos as [Hp1 Hp2]; [lia|].
  assert (slice (o + off) m (storage s1 r) = slice 0 m buf) as ->.
  { rw (wr_storage _ _ _ _ _ W) decide_True //. assert (zlen (slice 0 m buf) = m) as El by (rw length_slice; lia).
    rw -{1}El. apply slice_splice_same; lia. }
  rw -{1}(length_slice 0 m buf); [|lia..]. apply slice_splice_same; [lia|rw length_slice; lia].
Qed.
End api.
