(* ===== verification/BioReg.v ===== *)
(** * Block devices: registration, erasing and memory devices

    The list of registered devices, opening by name, and the devices that
    [bio_publish_subdevice] and [create_membdev] add.  [bio_erase] writes the erase byte
    over the range. *)

From S2P Require Import Prelude Bits Bytes Bio BioSpec BioBytes BioApi.

Section registry.
Context {D : Type} `{!BlockDriver D, !BlockDriverLaws D}.
Implicit Types (s : bio D) (a : positive) (d : bdev) (r : root) (o : Z).

Abbreviation B := (M (bio D)).

(** Every registered device is in use, has a name and stands for some storage. *)
Record registry s : Prop := {
  rg_dev a : a ∈ bdevs s → ∃ d, devs s !! a = Some d ∧ 0 < ref d ∧ is_Some (b_name d);
  rg_at a : a ∈ bdevs s → ∃ n r o, dev_at s n a r o
}.

Definition with_devs (m : gmap positive bdev) s : bio D := Bio m (bdevs s) (ram s) (drv s).

(** The same device, perhaps with other references. *)
Definition same_dev d d' : Prop := 0 < ref d' ∧ (d' = d ∨ ∃ v b, d' = set_in_list b (set_ref v d)).

Lemma same_dev_refl d : 0 < ref d → same_dev d d.
Proof. intros. split; [done|by left]. Qed.

Lemma same_dev_fields d d' : same_dev d d' →
  (shape d → shape d') ∧ (∀ h hb, transfers h hb d → transfers h hb d') ∧ b_private d' = b_private d ∧
  block_size d' = block_size d ∧ total_size d' = total_size d ∧ block_shift d' = block_shift d ∧ block_count d' = block_count d.
Proof. intros [Hr [->|(v & b & ->)]]; [done|]. split_and!; try done. by intros []. Qed.

(** Devices stay where they are when references change or devices are added. *)
Lemma dev_at_same s s' n a r o :
  dev_at s n a r o → (∀ b d, devs s !! b = Some d → 0 < ref d → ∃ d', devs s' !! b = Some d' ∧ same_dev d d') →
  ram s' = ram s → drv s' = drv s → dev_at s' n a r o.
Proof.
  intros H Hd Er Ed. assert (∀ q, storage s' q = storage s q) as Es by (intros []; simpl; by rw ?Er ?Ed).
  induction H as [n a d p Hda Sh Ht Hp Hbs H32 Htot Hram|n a d u Hda Sh Ht Hp Hbs Htot|
    n a d parent pd k r o Hda Sh Ht Hp Hat IH Hpd Hsh Hk Hle].
  all: destruct (Hd _ _ Hda (sh_ref _ Sh)) as (d' & Hd' & (Hs & Htr & Epr & Ebs & Etot & Eshf & Ecnt)%same_dev_fields).
  - eapply at_mem; [done|by apply Hs|by apply Htr|by rw Epr|by rw Ebs|by rw Etot|by rw Etot Es|by rw Er].
  - eapply at_driver; [done|by apply Hs|by apply Htr|by rw Epr|by rw Ebs|by rw Etot Es].
  - destruct (dev_at_dev _ _ _ _ _ Hat) as (? & ? & Shp). simplify_eq.
    destruct (Hd _ _ Hpd (sh_ref _ Shp)) as (pd' & Hpd' & (_ & _ & _ & _ & _ & Eps & Epc)%same_dev_fields).
    rw -Ebs. eapply at_sub; [done|auto|auto|by rw Epr|done|done|congruence|done|]. by rw Ecnt Epc.
Qed.

(** ** Opening *)

(** One more reference to the device [d] at [a]. *)
Definition opened s a d : bio D := with_devs (<[a := set_ref (ref d + 1) d]> (devs s)) s.

Lemma opened_same s a d : devs s !! a = Some d → 0 < ref d →
  ∀ b d', devs s !! b = Some d' → 0 < ref d' → ∃ d'', devs (opened s a d) !! b = Some d'' ∧ same_dev d' d''.
Proof.
  intros Ha Hr b d' Hb Hr'. simpl. destruct (decide (b = a)) as [->|]; [|rw lookup_insert_ne //; exists d'; by split; [|apply same_dev_refl]].
  simplify_eq. rw lookup_insert_eq. eexists. split; [done|]. split; [simpl; lia|]. right. by exists (ref d + 1), (in_list d).
Qed.

Lemma wp_find_dev name l s (Q : option positive → bio D → Prop) :
  (∀ a, a ∈ l → ∃ d, devs s !! a = Some d ∧ 0 < ref d ∧ is_Some (b_name d)) →
  (∀ a d, a ∈ l → devs s !! a = Some d → b_name d = Some name → Q (Some a) (opened s a d)) →
  ((∀ a d, a ∈ l → devs s !! a = Some d → b_name d ≠ Some name) → Q None s) →
  wp (find_dev name l) Q s.
Proof.
  induction l as [|a l IH]; intros Hl HS HN; [apply HN; by intros ? ? ?%not_elem_of_nil|]. cbn [find_dev].
  destruct (Hl a) as (d & Hd & Hr & nm & Hnm); [set_solver|].
  apply wp_bind. eapply wp_deref; [done|]. apply wp_bind, wp_assert; [by apply Z.ltb_lt|].
  apply wp_bind. eapply wp_deref; [done|]. case_bool_decide as E.
  - subst. apply wp_bind, wp_bind. eapply wp_deref; [done|]. apply wp_modify, wp_ret. apply (HS a d); [set_solver|done..].
  - apply IH; [set_solver|intros b d' ?; apply HS; set_solver|]. intros Hno. apply HN. intros b d' [->|Hb]%elem_of_cons Hd'; [congruence|by eapply Hno].
Qed.

(** ** Sub-devices *)

(** The new device of [bio_publish_subdevice], registered. *)
Definition sub_dev (pd old : bdev) (parent : positive) (name : string) (start count : Z) : bdev :=
  Bdev true 1 (Some name) (count * block_size pd) (block_size pd) (block_shift pd) count [] (erase_byte pd) BIO_FLAGS_NONE
    Subdev Subdev Subdev Subdev Subdev (b_ioctl old) (Some Subdev) (SubPrivate (Some parent) start).

Lemma close_opened s a d n : devs s !! a = Some d → 0 < ref d → wp (bio_close n a) (λ _ s', s' = s) (opened s a d).
Proof.
  intros Ha Hr. rw /bio_close. assert (with_devs (<[a := set_ref (ref d + 1 - 1) (set_ref (ref d + 1) d)]> (<[a := set_ref (ref d + 1) d]> (devs s))) s = s) as E.
  { rw /with_devs insert_insert_eq insert_id; [by destruct s|]. rw Ha. destruct d. rw /set_ref /=. do 2 f_equal. lia. }
  destruct n; cbn [bdev_dec_ref]; apply wp_bind; (eapply wp_deref; [by rw /= lookup_insert_eq|]);
    apply wp_bind, wp_modify; rw (proj2 (Z.eqb_neq _ _)); [by apply wp_ret|simpl; lia|by apply wp_ret|simpl; lia].
Qed.

(** The state after a sub-device has been published. *)
Definition published s parent pd sub (d : bdev) : bio D :=
  Bio (<[sub := d]> (<[parent := set_ref (ref pd + 1) pd]> (devs s))) (bdevs s ++ [sub]) (ram s) (drv s).

Lemma wp_make_subdevice s parent pd sub old name start count (Q : Z → bio D → Prop) :
  shape pd → 0 ≤ count < 2 ^ 32 →
  Q NO_ERROR (published s parent pd sub (sub_dev pd old parent name start count)) →
  wp (bio_initialize_bdev sub old name (block_size pd) count [] BIO_FLAGS_NONE;;
      d ← get_dev sub;
      put_dev sub (set_erase_close Subdev (Some Subdev) (set_transfers Subdev
        (set_erase_byte (erase_byte pd) (set_b_private (SubPrivate (Some parent) start) d))));;
      bio_register_device sub;;
      mret NO_ERROR) Q (opened s parent pd).
Proof.
  intros [_ Hsh Hbs _ _] Hc HQ. destruct (log2_pow2 (block_shift pd) Hsh) as [Hp Hlog].
  assert (2 ^ block_shift pd < 2 ^ 31) by (apply Z.pow_lt_mono_r; lia). assert (0 < 2 ^ block_shift pd) by lia.
  apply wp_bind, wp_bind, wp_assert; [rw Hbs Hp (proj2 (Z.eqb_neq _ _)) //; lia|]. apply wp_modify.
  apply wp_bind. eapply wp_deref; [by rw /= lookup_insert_eq|]. apply wp_bind, wp_modify.
  apply wp_bind, wp_bind, wp_bind. eapply wp_deref; [by rw /= lookup_insert_eq|]. apply wp_modify.
  apply wp_bind. eapply wp_deref; [by rw /= lookup_insert_eq|]. apply wp_bind, wp_modify, wp_modify, wp_ret.
  simpl. rw !insert_insert_eq Hbs Hlog Z.shiftl_mul_pow2; [|lia]. rw s64_small; [|nia].
  rw /published /sub_dev Hbs in HQ. exact HQ.
Qed.

(** A well-formed device stays where it is, and the new one is the part of its
    parent that was asked for. *)
Lemma published_at s n parent pd sub old name start count r o :
  devs s !! parent = Some pd → devs s !! sub = None → dev_at s n parent r o → 0 ≤ start → 0 ≤ count →
  start + count ≤ block_count pd →
  let s' := published s parent pd sub (sub_dev pd old parent name start count) in
  dev_at s' (S n) sub r (o + start * block_size pd) ∧ (∀ n b r o, dev_at s n b r o → dev_at s' n b r o).
Proof.
  intros Hp Hsub Hat Hs Hc Hle s'. destruct (dev_at_dev _ _ _ _ _ Hat) as (? & ? & Sh). simplify_eq.
  assert (sub ≠ parent) as Hne by congruence.
  assert (∀ n b r o, dev_at s n b r o → dev_at s' n b r o) as Hkeep.
  { intros n' b r' o' Hb. eapply dev_at_same; [done| |done|done]. intros c d Hd Hr. destruct (opened_same s parent pd Hp (sh_ref _ Sh) c d Hd Hr) as (d' & Hd' & ?).
    exists d'. split; [|done]. simpl. rw lookup_insert_ne; [done|congruence]. }
  split; [|done]. pose proof (sh_count _ Sh). assert (0 < block_size pd) by (destruct Sh as [_ ? -> _ _]; lia).
  eapply (at_sub s' n sub (sub_dev pd old parent name start count) parent (set_ref (ref pd + 1) pd) start).
  - simpl. by rw lookup_insert_eq.
  - destruct Sh as [? ? ? ? ?]. split; simpl; try done. lia.
  - done.
  - done.
  - by apply Hkeep.
  - simpl. rw lookup_insert_ne // lookup_insert_eq //.
  - done.
  - done.
  - done.
Qed.

(** [bio_publish_subdevice] on devices without erase geometry either adds a device
    that stands for exactly the blocks asked for, all of them on the parent, and
    keeps every other device where it is; or changes nothing and says why: there is
    no such parent, no memory, or the blocks are not on it. *)
Theorem bio_publish_subdevice_spec n mem old parent_dev name start count s :
  registry s → (∀ a d, a ∈ bdevs s → devs s !! a = Some d → geometry d = []) →
  (∀ sub, mem = Some sub → devs s !! sub = None) → 0 ≤ start < 2 ^ 32 → 0 ≤ count < 2 ^ 32 →
  wp (bio_publish_subdevice n mem old parent_dev name start count) (λ ret s',
    (s' = s ∧ (ret = ERR_NOT_FOUND ∧ (∀ a d, a ∈ bdevs s → devs s !! a = Some d → b_name d ≠ Some parent_dev) ∨
               ret = ERR_NO_MEMORY ∧ mem = None ∨
               ret = ERR_INVALID_ARGS ∧ ∃ a d, a ∈ bdevs s ∧ devs s !! a = Some d ∧ b_name d = Some parent_dev ∧
                 block_count d < start + count)) ∨
    (ret = NO_ERROR ∧ registry s' ∧ (∀ n b r o, dev_at s n b r o → dev_at s' n b r o) ∧
     ∃ sub k parent pd r o, mem = Some sub ∧ parent ∈ bdevs s ∧ devs s !! parent = Some pd ∧ b_name pd = Some parent_dev ∧
       start + count ≤ block_count pd ∧ dev_at s k parent r o ∧ dev_at s' (S k) sub r (o + start * block_size pd))) s.
Proof.
  intros [Hreg Hrat] Hgeo Hfresh Hs Hc. apply wp_bind, wp_bind, wp_gets. apply wp_find_dev; [done| |].
  2: { intros Hno. apply wp_ret. left. split; [done|]. by left. }
  intros parent pd Hin Hpd Hname. destruct (Hreg parent Hin) as (? & ? & Hr & _). simplify_eq. destruct (Hrat parent Hin) as (k & r & o & Hat).
  destruct (dev_at_dev _ _ _ _ _ Hat) as (? & ? & Sh). simplify_eq. pose proof (sh_count _ Sh) as Hcnt.
  destruct mem as [sub|]; [|apply wp_bind; eapply wp_mono; [by apply close_opened|]; intros _ s' ->; apply wp_ret; left; split; [done|]; by right; left].
  apply wp_bind. eapply wp_deref; [by rw /= lookup_insert_eq|]. apply wp_bind. rw /subdev_geometry /= (Hgeo parent pd) //.
  assert (u32 (start + count) = start + count ∨ 2 ^ 32 ≤ start + count ∧ u32 (start + count) = start + count - 2 ^ 32) as Hu.
  { destruct (decide (start + count < 2 ^ 32)); [left; apply u32_small; lia|right]. split; [lia|]. rw /u32 -(Z.mod_add _ (-1)) //. apply Z.mod_small. lia. }
  case_match eqn:Hck.
  - apply wp_ret, wp_bind. eapply wp_mono; [by apply close_opened|]. intros _ s' ->. apply wp_ret. left. split; [done|]. right. right. split; [done|].
    exists parent, pd. split_and!; try done. apply orb_true_iff in Hck as [?%Z.ltb_lt|?%Z.ltb_lt]; lia.
  - apply orb_false_iff in Hck as [?%Z.ltb_ge ?%Z.ltb_ge]. apply wp_ret. apply wp_make_subdevice; [done|lia|]. right.
    destruct (published_at s k parent pd sub old name start count r o) as [Hnew Hkeep]; try done; [auto|lia..|].
    split_and!; [done| |done|exists sub, k, parent, pd, r, o; split_and!; try done; lia]. specialize (Hfresh sub eq_refl).
    split; intros b [Hb| ->%list_elem_of_singleton]%elem_of_app.
    + destruct (Hreg b Hb) as (d & Hd & Hr' & Hn). destruct (decide (b = parent)) as [->|Hne]; simpl.
      * rw lookup_insert_ne; [|congruence]. rw lookup_insert_eq. simplify_eq. eexists. split_and!; [done|simpl; lia|done].
      * rw lookup_insert_ne; [|congruence]. rw lookup_insert_ne //. by exists d.
    + simpl. rw lookup_insert_eq. eexists. by split_and!.
    + destruct (Hrat b Hb) as (n' & r' & o' & Hb'). exists n', r', o'. by apply Hkeep.
    + by exists (S k), r, (o + start * block_size pd).
Qed.
End registry.

Section erase.
Context {D : Type} `{!BlockDriver D, !BlockDriverLaws D} (CACHE_LINE : Z).
Implicit Types (s : bio D) (a : positive) (d : bdev) (r : root) (o : Z).

Abbreviation B := (M (bio D)).

Lemma confined_mono r lo hi lo' hi' s s' : confined r lo hi s s' → lo' ≤ lo → hi ≤ hi' → confined r lo' hi' s s'.
Proof. intros [] ? ?. split; try done. intros i Hi. auto with lia. Qed.

Lemma slice_replicate (m k : Z) (x : Z) : 0 ≤ m ≤ k → slice 0 m (replicate (Z.to_nat k) x) = replicate (Z.to_nat m) x.
Proof. intros. rw /slice drop_0 take_replicate. f_equal. lia. Qed.

(** The blocks that a range meets grow with the range. *)
Lemma blocks_mono bs (p m p' m' : Z) : 0 < bs → p ≤ p' → p' + m' ≤ p + m →
  p / bs * bs ≤ p' / bs * bs ∧ (p' + m' + bs - 1) / bs * bs ≤ (p + m + bs - 1) / bs * bs.
Proof. intros. split; apply Z.mul_le_mono_nonneg_r; try lia; apply Z.div_le_mono; lia. Qed.

(** How an erase of [m] bytes at [pos] ends, when [erased] are done before. *)
Definition erase_result d r o (erased pos m : Z) s (ret : Z) s' : Prop :=
  ret = erased + m ∧ written r (o + pos) (replicate (Z.to_nat m) (erase_byte d)) s s' ∨
  is_error ret ∧ 0 < m ∧ is_driver r ∧
    confined r (o + pos / block_size d * block_size d) (o + (pos + m + block_size d - 1) / block_size d * block_size d) s s'.

Lemma erase_result_step d r o erased pos m t s s1 ret s' :
  0 < block_size d → 0 ≤ o + pos → 0 < t ≤ m → o + pos + m ≤ zlen (storage s r) →
  written r (o + pos) (replicate (Z.to_nat t) (erase_byte d)) s s1 →
  erase_result d r o (erased + t) (pos + t) (m - t) s1 ret s' → erase_result d r o erased pos m s ret s'.
Proof.
  intros Hbs Ho Ht Hin W [[-> W']|(? & ? & ? & C)]; [left|right]; split_and!; try done; try lia.
  - rw (_ : Z.to_nat m = (Z.to_nat t + Z.to_nat (m - t))%nat); [|lia]. rw replicate_add.
    eapply written_app; [done| |done|rw !length_replicate; lia]. rw length_replicate.
    by rw (_ : o + pos + Z.of_nat (Z.to_nat t) = o + (pos + t)); [|lia].
  - destruct (blocks_mono (block_size d) pos m (pos + t) (m - t)) as [? ?]; [lia..|].
    eapply confined_trans; [|eapply confined_mono; [done|lia|lia]].
    eapply written_confined; [done|done|rw length_replicate; lia|pose proof (Z.mul_div_le pos (block_size d)); lia|].
    rw length_replicate. pose proof (Z.div_mod (pos + m + block_size d - 1) (block_size d)).
    pose proof (Z.mod_pos_bound (pos + m + block_size d - 1) (block_size d)). lia.
Qed.

Lemma wp_erase_loop fuel n a r o d erased pos m s :
  dev_at s n a r o → devs s !! a = Some d → 0 ≤ pos → 0 ≤ m → pos + m ≤ total_size d → m ≤ Z.of_nat fuel * block_size d →
  wp (erase_loop CACHE_LINE fuel n a d erased pos m) (erase_result d r o erased pos m s) s.
Proof.
  revert erased pos m s. induction fuel as [|fuel IH]; intros erased pos m s Hat Hd Hp Hm Hin Hf; simpl.
  all: destruct (Z.eqb_spec m 0) as [->|Hm0]; [apply wp_ret; left; split; [lia|apply written_none]|].
  { simpl in Hf. lia. }
  destruct (dev_at_dev _ _ _ _ _ Hat) as (? & ? & Sh). simplify_eq. pose proof (total_bound d Sh).
  destruct (dev_at_range _ _ _ _ _ _ Hat Hd) as [Ho Hr].
  assert (0 < block_size d < 2 ^ 32) as Hbs by (destruct Sh as [_ ? -> _ _]; split; [lia|apply Z.pow_lt_mono_r; lia]).
  set (t := Z.min m (block_size d)). assert (trimmed d pos t = t) as Et by (apply trimmed_id; lia).
  apply wp_bind. eapply wp_mono; [eapply (wp_bio_write CACHE_LINE); [done|done|lia|lia|lia|rw length_replicate; lia]|].
  intros w s1. rw Et. intros [[-> W]|(? & _ & ? & C)].
  - rw slice_replicate in W; [|lia]. rw (proj2 (Z.ltb_ge t 0)); [|lia]. rw u64_small; [|lia]. rw Z.ltb_irrefl u64_small; [|lia].
    eapply wp_mono; [apply IH; [by eapply dev_at_written|by rw (wr_devs _ _ _ _ _ W)|lia..]|].
    intros ret s' R. eapply erase_result_step; [lia| | |lia|done|done]; lia.
  - rw error_ltb //. apply wp_ret. right. split; [done|]. split_and!; [lia|done|].
    destruct (blocks_mono (block_size d) pos m pos t); [lia..|]. eapply confined_mono; [done|lia|lia].
Qed.

(** The hooks for erasing are those that the library sets; a sub-device has the
    erase byte of its parent. *)
Definition erase_hooks s : Prop :=
  ∀ a d, devs s !! a = Some d →
    match b_private d with
    | SubPrivate p _ =>
        b_erase d = Subdev ∧ ∀ parent pd, p = Some parent → devs s !! parent = Some pd → erase_byte d = erase_byte pd
    | _ => b_erase d = Default
    end.

Lemma erase_result_none d r o off s : erase_result d r o 0 off 0 s 0 s.
Proof. left. split; [done|apply written_none]. Qed.

Lemma erase_result_sub r o d pd k off m s ret s' :
  shape d → shape pd → block_shift d = block_shift pd → erase_byte d = erase_byte pd → 0 ≤ m →
  erase_result pd r o 0 (off + k * block_size d) m s ret s' → erase_result d r (o + k * block_size d) 0 off m s ret s'.
Proof.
  intros Sh Shp Hsh Heb Hm.
  pose proof (write_result_sub r o d pd k off m (replicate (Z.to_nat m) (erase_byte d)) s ret s' Sh Shp Hsh) as H.
  rw /write_result slice_replicate in H; [|lia]. by rw /erase_result -Heb.
Qed.

Lemma wp_default_erase n a r o d off m s :
  dev_at s n a r o → devs s !! a = Some d → 0 ≤ off → 0 ≤ m → off + m ≤ total_size d →
  wp (bio_default_erase CACHE_LINE n a d off m) (erase_result d r o 0 off m s) s.
Proof.
  intros Hat Hd Ho Hm Hin. destruct (dev_at_dev _ _ _ _ _ Hat) as (? & ? & Sh). simplify_eq.
  assert (0 < block_size d) by (destruct Sh as [_ ? -> _ _]; lia).
  apply wp_erase_loop; try done. pose proof (Z.div_mod m (block_size d)). pose proof (Z.mod_pos_bound m (block_size d)).
  pose proof (Z.div_pos m (block_size d)). rw Nat2Z.inj_succ Z2Nat.id; lia.
Qed.

Lemma wp_bio_erase n a r o d off len s :
  dev_at s n a r o → erase_hooks s → devs s !! a = Some d → 0 ≤ len → off + len < 2 ^ 63 →
  wp (bio_erase CACHE_LINE n a off len) (erase_result d r o 0 off (trimmed d off len) s) s.
Proof.
  intros H He. revert d off len. induction H as [n a d p Hd Sh Htr Hp Hbs H32 Htot Hram|
    n a d u Hd Sh Htr Hp Hbs Htot|n a d parent pd k r o Hd Sh _ Hp Hat IH Hpd Hsh Hk Hle];
    intros d' off len Hd' Hl Hn; simplify_eq; pose proof (He _ _ Hd) as Hb; rw Hp in Hb.
  - assert (dev_at s n a (RMem p) 0) as Hat by by eapply at_mem.
    destruct n; cbn [bio_erase]; (apply (wp_guard a d off len); [done..|intros ->; apply erase_result_none|]);
      intros Hpos Ho Hin; rw Hb trim_spec //; (apply wp_default_erase; [done|done|lia|lia|done]).
  - assert (dev_at s n a (RDriver u) 0) as Hat by by eapply at_driver.
    destruct n; cbn [bio_erase]; (apply (wp_guard a d off len); [done..|intros ->; apply erase_result_none|]);
      intros Hpos Ho Hin; rw Hb trim_spec //; (apply wp_default_erase; [done|done|lia|lia|done]).
  - destruct Hb as [Hb Heb]. cbn [bio_erase]. apply (wp_guard a d off len); [done..|intros ->; apply erase_result_none|].
    intros Hpos Ho Hin. rw Hb trim_spec //. apply wp_bind. eapply wp_deref; [by rw Hp|].
    destruct (dev_at_dev _ _ _ _ _ Hat) as (? & ? & Shp). simplify_eq. pose proof (total_bound pd Shp).
    destruct (sub_offset d pd k off (trimmed d off len)) as (-> & H1 & H2); [done..|].
    assert (trimmed pd (off + k * block_size d) (trimmed d off len) = trimmed d off len) as Et by (apply trimmed_id; lia).
    eapply wp_mono; [apply (IH pd); [done|lia|lia]|]. intros res s'. rw Et. apply erase_result_sub; try done; [|lia].
    by eapply Heb.
Qed.

(** [bio_erase] leaves the erase byte in exactly the part of the range that lies
    on the device, however long, and returns its length; only a driver can make it
    fail, and then only blocks that the range meets may have changed. *)
Theorem bio_erase_spec n a r o d off len s :
  dev_at s n a r o → erase_hooks s → devs s !! a = Some d → 0 ≤ len → off + len < 2 ^ 63 →
  wp (bio_erase CACHE_LINE n a off len) (erase_result d r o 0 off (trimmed d off len) s) s.
Proof. apply wp_bio_erase. Qed.

(** The device that [create_membdev] makes. *)
Definition mem_dev (name : string) (ptr : positive) (len : Z) (ioctl : option hook) : bdev :=
  Bdev true 1 (Some name) (len / BLOCKSIZE * BLOCKSIZE) BLOCKSIZE 9 (len / BLOCKSIZE) [] 0 BIO_FLAGS_NONE
    Mem Mem Mem Mem Default ioctl None (MemPrivate ptr).

Lemma wp_create_membdev mem old name ptr len s :
  devs s !! mem = None → 0 ≤ len < 2 ^ 32 →
  wp (create_membdev mem old name ptr len) (λ ret s', ret = 0 ∧
    s' = Bio (<[mem := mem_dev name ptr len (b_ioctl old)]> (devs s)) (bdevs s ++ [mem]) (ram s) (drv s)) s.
Proof.
  intros Hn Hl. assert (0 ≤ len / BLOCKSIZE < 2 ^ 23) as Hc.
  { split; [apply Z.div_pos; rw /BLOCKSIZE; lia|apply Z.div_lt_upper_bound; rw /BLOCKSIZE; lia]. }
  rw /create_membdev /bio_initialize_bdev u32_small; [|lia].
  apply wp_bind, wp_bind, wp_assert; [done|]. apply wp_modify.
  apply wp_bind. eapply wp_deref; [by rw /= lookup_insert_eq|]. apply wp_bind, wp_modify.
  apply wp_bind, wp_bind, wp_bind. eapply wp_deref; [by rw /= lookup_insert_eq|]. apply wp_modify.
  apply wp_bind. eapply wp_deref; [by rw /= lookup_insert_eq|]. apply wp_bind, wp_modify, wp_modify, wp_ret.
  split; [done|]. simpl. rw !insert_insert_eq /mem_dev. change (log2_uint (u32 BLOCKSIZE)) with 9.
  rw Z.shiftl_mul_pow2; [|lia]. change (2 ^ 9) with BLOCKSIZE. rw s64_small //. rw /BLOCKSIZE in Hc |- *. lia.
Qed.

(** An array that [create_membdev] registers is a device over the whole blocks
    of the array; every other device stays where it is and the list of devices well
    formed. *)
Theorem create_membdev_spec mem old name ptr len l s :
  registry s → devs s !! mem = None → ram s !! ptr = Some l → 0 ≤ len < 2 ^ 32 → len ≤ zlen l →
  wp (create_membdev mem old name ptr len) (λ ret s',
    ret = 0 ∧ registry s' ∧ dev_at s' 0 mem (RMem ptr) 0 ∧
    (∃ d, devs s' !! mem = Some d ∧ len - BLOCKSIZE < total_size d ≤ len) ∧
    (∀ n a r o, dev_at s n a r o → dev_at s' n a r o)) s.
Proof.
  intros Hreg Hn Hr Hl Hlen. eapply wp_mono; [by apply wp_create_membdev|]. intros ret s' [-> ->].
  assert (0 ≤ len / BLOCKSIZE < 2 ^ 23 ∧ len - BLOCKSIZE < len / BLOCKSIZE * BLOCKSIZE ≤ len) as [Hc Ht].
  { rw /BLOCKSIZE. pose proof (Z.div_mod len 512). pose proof (Z.mod_pos_bound len 512). lia. }
  set (s' := Bio _ _ _ _). set (d := mem_dev name ptr len (b_ioctl old)).
  assert (∀ n a r o, dev_at s n a r o → dev_at s' n a r o) as Hk.
  { intros n a r o Hat. eapply (dev_at_same s); try done. intros b e Hb.
    exists e. split; [by rw /= lookup_insert_ne; [|congruence]|by apply same_dev_refl]. }
  assert (devs s' !! mem = Some d) as Hd by apply lookup_insert_eq.
  assert (dev_at s' 0 mem (RMem ptr) 0) as Hat.
  { eapply at_mem; try done; [split; try done; simpl; lia|simpl; lia|rw /= Hr /=; lia]. }
  split_and!; [done| |done|by exists d|done].
  split; intros b [Hb| ->%list_elem_of_singleton]%elem_of_app.
  - destruct (rg_dev _ Hreg b Hb) as (e & He & ?). exists e. by rw /= lookup_insert_ne; [|congruence].
  - by exists d.
  - destruct (rg_at _ Hreg b Hb) as (n & r & o & ?). eauto.
  - eauto.
Qed.
End erase.
