(* ===== verification/BioRun.v ===== *)
(** * Block devices: concrete runs

    A driver that keeps its blocks in memory, devices on it, and runs of [Bio]: the
    instances of the theorems and the behaviour of the code at its limits. *)

From S2P Require Import Prelude Bits Bytes Bio BioSpec BioBytes BioApi BioReg.

(** Units of blocks of four bytes. *)
#[global] Instance ram_driver : BlockDriver (gmap positive (list Z)) := {
  drv_read_block u b n m :=
    match copy_out (b * 4) (n * 4) (default [] (m !! u)) with Some l => (n * 4, l, m) | None => (ERR_IO, [], m) end;
  drv_write_block u b n buf m :=
    let l := default [] (m !! u) in
    if (n * 4 <=? zlen buf) && ((b + n) * 4 <=? zlen l)
    then (n * 4, <[u := splice (b * 4) (slice 0 (n * 4) buf) l]> m) else (ERR_IO, m);
  drv_ioctl u request m := (ERR_NOT_SUPPORTED, m)
}.

#[global] Program Instance ram_driver_laws : BlockDriverLaws (gmap positive (list Z)) := {
  drv_bytes m u := default [] (m !! u);
  drv_bsize u := 4
}.
Next Obligation.
  intros u b n m r bytes m'. simpl. intros H Hb Hn Hle. rewrite copy_out_slice in H; [|lia]. injection H as <- <- <-. split; [done|by right].
Qed.
Next Obligation.
  intros u b n buf m r m'. simpl. intros H Hb Hn Hle Hl.
  rewrite (proj2 (Z.leb_le _ _) Hl) (proj2 (Z.leb_le _ _) Hle) in H. injection H as <- <-. split; [intros v Hv; by rw lookup_insert_ne|].
  exists (slice 0 (n * 4) buf). split_and!; [rewrite length_slice; lia|by rw lookup_insert_eq|by right].
Qed.

(** A disk of eight blocks and its blocks 2 to 5. *)
Definition disk : bdev :=
  Bdev true 2 (Some "disk") 32 4 2 8 [] 0 1 Default Driver Default Driver Default None None (DriverPrivate 1).

Definition part : bdev := sub_dev disk disk 1 "part" 2 4.

Definition bio_disk : bio (gmap positive (list Z)) :=
  Bio {[ 1%positive := disk ]} [1%positive] ∅ {[ 1%positive := replicate 32 7 ]}.

Definition bio_demo : bio (gmap positive (list Z)) := published bio_disk 1 disk 2 part.

Lemma disk_shape : shape disk.
Proof. by split. Qed.

Lemma disk_at : dev_at bio_disk 0 1 (RDriver 1) 0.
Proof. by eapply at_driver; [|apply disk_shape|..]. Qed.

Lemma demo_at : dev_at bio_demo 1 2 (RDriver 1) 8 ∧ dev_at bio_demo 0 1 (RDriver 1) 0.
Proof.
  destruct (published_at bio_disk 0 1 disk 2 disk "part" 2 4 (RDriver 1) 0) as [H Hk]; [done|done|apply disk_at|done..|].
  split; [exact H|by apply Hk, disk_at].
Qed.

Lemma disk_registry : registry bio_disk.
Proof.
  split; intros a ->%list_elem_of_singleton; [exists disk; by split_and!|]. exists 0%nat, (RDriver 1), 0. apply disk_at.
Qed.

Lemma bio_read_spec_witness :
  wp (bio_read 64 1 2 (replicate 6 0) 3 1 6) (λ res _, res.2 = replicate 6 7 ∨ res.1 < 0) bio_demo.
Proof.
  eapply wp_mono; [apply (bio_read_spec 64 1 2 (RDriver 1) 8 part (replicate 6 0) 3 1 6 bio_demo)|].
  - apply demo_at.
  - reflexivity.
  - lia.
  - reflexivity.
  - reflexivity.
  - discriminate.
  - intros res s' (_ & _ & [[_ ->]|[? _]]); [left; vm_compute; reflexivity|right; lia].
Defined.

Lemma bio_write_read_witness :
  wp (w ← bio_write 64 1 2 [1; 2; 3; 4; 5; 6] 3 1 6; res ← bio_read 64 1 2 (replicate 6 0) 3 1 6; mret (w, res))
    (λ '(w, res) _, 0 ≤ w → 0 ≤ res.1 → slice 0 6 res.2 = [1; 2; 3; 4; 5; 6]) bio_demo.
Proof.
  eapply wp_mono; [apply (bio_write_read 64 1 2 (RDriver 1) 8 part [1; 2; 3; 4; 5; 6] (replicate 6 0) 3 3 1 6 bio_demo)|].
  - apply demo_at.
  - reflexivity.
  - lia.
  - reflexivity.
  - reflexivity.
  - discriminate.
  - discriminate.
  - intros [w res] s' [_ H] Hw Hr. destruct (H Hw Hr) as (_ & _ & E). exact E.
Defined.

(** A second part, of blocks 6 and 7. *)
Definition part2 : bdev := sub_dev disk disk 1 "tail" 6 2.

Definition bio_demo2 : bio (gmap positive (list Z)) := published bio_demo 1 (set_ref 3 disk) 3 (sub_dev (set_ref 3 disk) disk 1 "tail" 6 2).

Lemma demo2_at : dev_at bio_demo2 1 3 (RDriver 1) 24 ∧ dev_at bio_demo2 1 2 (RDriver 1) 8.
Proof.
  destruct (published_at bio_demo 0 1 (set_ref 3 disk) 3 disk "tail" 6 2 (RDriver 1) 0) as [H Hk]; [done|done|apply demo_at|done..|].
  split; [exact H|apply Hk, demo_at].
Qed.

Lemma bio_write_isolated_witness :
  wp (bio_write 64 1 2 (replicate 16 1) 0 0 16) (λ _ s', slice 24 8 (storage s' (RDriver 1)) = replicate 8 7) bio_demo2.
Proof.
  eapply wp_mono; [apply (bio_write_isolated 64 1 2 (RDriver 1) 8 part 1 3 (RDriver 1) 24 part2 (replicate 16 1) 0 0 16 bio_demo2)|].
  - apply demo2_at.
  - reflexivity.
  - apply demo2_at.
  - reflexivity.
  - right. right. vm_compute. discriminate.
  - lia.
  - reflexivity.
  - reflexivity.
  - discriminate.
  - intros ret s' [E _]. change 8 with (total_size part2) at 1. rewrite E. vm_compute. reflexivity.
Defined.

Lemma bio_publish_subdevice_spec_witness :
  wp (bio_publish_subdevice 1 (Some 2%positive) disk "disk" "part" 2 4) (λ ret _, ret ≠ ERR_NO_MEMORY) bio_disk.
Proof.
  eapply wp_mono; [apply (bio_publish_subdevice_spec 1 (Some 2%positive) disk "disk" "part" 2 4 bio_disk)|].
  - apply disk_registry.
  - intros a d ->%list_elem_of_singleton [= <-]. reflexivity.
  - intros sub [= <-]. reflexivity.
  - lia.
  - lia.
  - intros ret s' [[_ [[-> _]|[[_ ?]|[-> _]]]]|[-> _]]; discriminate.
Defined.

Lemma bio_erase_spec_witness :
  wp (bio_erase 64 1 2 1 6) (λ ret s', ret = 6 ∧ slice 8 8 (storage s' (RDriver 1)) = [7; 0; 0; 0; 0; 0; 0; 7] ∨ ret < 0) bio_demo.
Proof.
  eapply wp_mono; [apply (bio_erase_spec 64 1 2 (RDriver 1) 8 part 1 6 bio_demo)|].
  - apply demo_at.
  - intros a d. rewrite /bio_demo /published /=.
    destruct (decide (a = 2%positive)) as [->|]; [intros [= <-]; split; [reflexivity|]|].
    + intros parent pd [= <-] [= <-]. reflexivity.
    + rewrite lookup_insert_ne; [|done]. destruct (decide (a = 1%positive)) as [->|]; [intros [= <-]; reflexivity|].
      by rewrite !lookup_insert_ne.
  - reflexivity.
  - lia.
  - reflexivity.
  - intros ret s' [[-> W]|[? _]]; [|right; lia]. left. split; [reflexivity|]. rewrite (wr_storage _ _ _ _ _ W). vm_compute. reflexivity.
Defined.

Lemma create_membdev_spec_witness :
  wp (create_membdev 2 disk "mem" 5 1024) (λ ret s', ret = 0 ∧ dev_at s' 0 2 (RMem 5) 0)
    (Bio (devs bio_disk) (bdevs bio_disk) {[ 5%positive := replicate 1024 0 ]} (drv bio_disk)).
Proof.
  eapply wp_mono; [apply (create_membdev_spec 2 disk "mem" 5 1024 (replicate 1024 0))|].
  - split; intros a ->%list_elem_of_singleton; [exists disk; by split_and!|]. exists 0%nat, (RDriver 1), 0.
    by eapply at_driver; [|apply disk_shape|..].
  - reflexivity.
  - reflexivity.
  - split; [discriminate|reflexivity].
  - discriminate.
  - intros ret s' (? & _ & ? & _). by split.
Defined.

(** ** At the limits *)

(** [divpow2] takes 32 bits: of 4 GiB, no whole block is read, and the copy of the
    "partial last block" runs out of the temporary one. *)
Definition huge : bdev :=
  Bdev true 1 (Some "huge") (2 ^ 33) 4 2 (2 ^ 31) [] 0 0 Default Driver Default Driver Default None None (DriverPrivate 1).

Lemma bio_read_4g_overruns buf :
  bio_read 64 0 1 buf 0 0 (2 ^ 32) (Bio {[ 1%positive := huge ]} [] ∅ ({[ 1%positive := replicate 32 7 ]} : gmap positive (list Z))) = None.
Proof. vm_compute. reflexivity. Qed.

(** The end of a range of blocks is computed in 32 bits, so that one that wraps is
    not cut off. *)
Lemma trim_block_range_wraps : bio_trim_block_range disk 7 (2 ^ 32 - 5) = 2 ^ 32 - 5.
Proof. reflexivity. Qed.

(** The offset of a block in a memory device is computed in 32 bits: block [2 ^ 23]
    is block 0. *)
Lemma mem_block_wraps (d : bdev) (buf : list Z) :
  mem_bdev_read_block (D := gmap positive (list Z)) d buf (2 ^ 23) 1 = mem_bdev_read_block d buf 0 1.
Proof. reflexivity. Qed.

(** With erase geometry the search never comes out empty: blocks 100 to 103 of a
    disk of eight are published. *)
Definition flash : bdev :=
  Bdev true 2 (Some "flash") 32 4 2 8 [Geometry 0 32 8 3] 0 0 Default Driver Default Driver Default None None (DriverPrivate 1).

Lemma publish_outside_parent :
  wp (bio_publish_subdevice 1 (Some 2%positive) disk "flash" "part" 100 4) (λ ret s', ret = NO_ERROR ∧
    ∃ d, devs s' !! 2%positive = Some d ∧ b_private d = SubPrivate (Some 1%positive) 100)
    (Bio {[ 1%positive := flash ]} [1%positive] ∅ ({[ 1%positive := replicate 32 7 ]} : gmap positive (list Z))).
Proof. vm_compute. split; [reflexivity|]. eexists. split; reflexivity. Qed.

(** [bio_initialize_bdev] leaves the pointer [ioctl] as it was in the memory the
    device was allocated in: [bio_ioctl] on a new memory device may call it. *)
Lemma membdev_ioctl_wild :
  wp (create_membdev 2 (set_b_private NoPrivate (Bdev false 0 None 0 0 0 0 [] 0 0 Default Default Default Default Default (Some Driver) None NoPrivate))
        "mem" 1 1024) (λ _ s', bio_ioctl 2 0 s' = None)
    (Bio ∅ [] {[ 1%positive := replicate 1024 0 ]} (∅ : gmap positive (list Z))).
Proof. vm_compute. reflexivity. Qed.
