(* ===== verification/Bcache.v ===== *)
(** * The block cache, [src/mk/lib/bcache/bcache.c]

    The cache keeps its blocks on two intrusive lists, which are here the pointer
    structure of [ListH]; the device under it is one of [Bio].  A block is named by
    the address of its [struct bcache_block], whose first field is the list node. *)

From S2P Require Import Prelude ListH Bits Bytes Bio.

Record bcache_block := BcacheBlock { blocknum : Z; ref_count : Z; is_dirty : bool; ptr : Z }.

Record bcache_stats := BcacheStats { hits : Z; st_depth : Z; misses : Z; reads : Z; writes : Z }.

(** The fields of [struct bcache] that never change; the two lists are the addresses
    of their sentinels, [c_blocks] the addresses of the elements of the array. *)
Record bcache := Bcache {
  c_dev : positive;
  c_block_size : Z;
  c_count : Z;
  free_list : Z;
  lru_list : Z;
  c_blocks : list Z
}.

(** The memory: the devices, the list nodes, the other fields of the blocks, the
    buffers they point to and the counters. *)
Record world (D : Type) := World {
  w_bio : bio D;
  w_nodes : heap;
  w_blocks : gmap Z bcache_block;
  w_bufs : gmap Z (list Z);
  w_stats : bcache_stats
}.
Arguments World {D} w_bio w_nodes w_blocks w_bufs w_stats.
Arguments w_bio {D} w.
Arguments w_nodes {D} w.
Arguments w_blocks {D} w.
Arguments w_bufs {D} w.
Arguments w_stats {D} w.

Definition set_blocknum (v : Z) (k : bcache_block) : bcache_block := BcacheBlock v (ref_count k) (is_dirty k) (ptr k).

Definition set_ref_count (v : Z) (k : bcache_block) : bcache_block := BcacheBlock (blocknum k) v (is_dirty k) (ptr k).

Definition set_is_dirty (v : bool) (k : bcache_block) : bcache_block := BcacheBlock (blocknum k) (ref_count k) v (ptr k).

(** [hits++; depth += depth], [misses++], [reads++], [writes++] *)
Definition count_hit (depth : Z) (t : bcache_stats) : bcache_stats :=
  BcacheStats (u32 (hits t + 1)) (u32 (st_depth t + depth)) (misses t) (reads t) (writes t).

Definition count_miss (t : bcache_stats) : bcache_stats :=
  BcacheStats (hits t) (st_depth t) (u32 (misses t + 1)) (reads t) (writes t).

Definition count_read (t : bcache_stats) : bcache_stats :=
  BcacheStats (hits t) (st_depth t) (misses t) (u32 (reads t + 1)) (writes t).

Definition count_write (t : bcache_stats) : bcache_stats :=
  BcacheStats (hits t) (st_depth t) (misses t) (reads t) (u32 (writes t + 1)).

Section bcache.
Context {D : Type} `{!BlockDriver D} (CACHE_LINE : Z).

Abbreviation C := (M (world D)).

(** Calls into the layers below *)
Definition in_bio {A} (m : M (bio D) A) : C A := λ w,
  '(a, s) ← m (w_bio w); Some (a, World s (w_nodes w) (w_blocks w) (w_bufs w) (w_stats w)).

Definition in_nodes {A} (m : M heap A) : C A := λ w,
  '(a, h) ← m (w_nodes w); Some (a, World (w_bio w) h (w_blocks w) (w_bufs w) (w_stats w)).

Definition block_at (b : Z) : C bcache_block := deref (λ w, w_blocks w !! b).

Definition put_block (b : Z) (k : bcache_block) : C unit :=
  modify (λ w, World (w_bio w) (w_nodes w) (<[b := k]> (w_blocks w)) (w_bufs w) (w_stats w)).

Definition buf_at (p : Z) : C (list Z) := deref (λ w, w_bufs w !! p).

Definition put_buf (p : Z) (l : list Z) : C unit :=
  modify (λ w, World (w_bio w) (w_nodes w) (w_blocks w) (<[p := l]> (w_bufs w)) (w_stats w)).

Definition stat (f : bcache_stats → bcache_stats) : C unit :=
  modify (λ w, World (w_bio w) (w_nodes w) (w_blocks w) (w_bufs w) (f (w_stats w))).

(** What [malloc] returns is memory with any contents: the nodes, blocks and buffers
    of [w] at these addresses.  The loop sets up the blocks. *)
Fixpoint init_blocks (free : Z) (l : list Z) : C unit :=
  match l with
  | [] => mret ()
  | b :: l =>
      k ← block_at b;
      put_block b (set_is_dirty false (set_ref_count 0 k));;
      in_nodes (list_add_head free b);;
      init_blocks free l
  end.

Definition bcache_create (dev : positive) (block_size : Z) (block_count : Z) (free lru : Z) (blocks : list Z) : C bcache :=
  stat (λ _, BcacheStats 0 0 0 0 0);;
  in_nodes (list_initialize free);;
  in_nodes (list_initialize lru);;
  init_blocks free (take (Z.to_nat block_count) blocks);;
  mret (Bcache dev block_size block_count free lru blocks).

(** [n]: how many sub-devices a call to the device may go through *)
Definition flush_block (n : nat) (cache : bcache) (block : Z) : C Z :=
  k ← block_at block;
  l ← buf_at (ptr k);
  ret ← in_bio (bio_write CACHE_LINE n (c_dev cache) l (ptr k) (s64 (u64 (blocknum k * c_block_size cache))) (c_block_size cache));
  let rc := s32 ret in
  if rc <? 0 then mret rc
  else
    put_block block (set_is_dirty false k);;
    stat count_write;;
    mret 0.

Fixpoint destroy_blocks (l : list Z) : C unit :=
  match l with
  | [] => mret ()
  | b :: l =>
      k ← block_at b;
      assert (ref_count k =? 0);;
      modify (λ w, World (w_bio w) (w_nodes w) (w_blocks w) (delete (ptr k) (w_bufs w)) (w_stats w));;
      destroy_blocks l
  end.

Definition bcache_destroy (cache : bcache) : C unit := destroy_blocks (take (Z.to_nat (c_count cache)) (c_blocks cache)).

Definition to_lru_tail (cache : bcache) (block : Z) : C unit :=
  in_nodes (list_delete block);; in_nodes (list_add_tail (lru_list cache) block).

(** The walk of [find_block]; [NULL] is 0. *)
Fixpoint find_loop (fuel : nat) (cache : bcache) (num depth node : Z) : C Z :=
  if node =? lru_list cache then stat count_miss;; mret 0
  else
    match fuel with
    | O => fail
    | S fuel =>
        k ← block_at node;
        let depth := u32 (depth + 1) in
        if blocknum k =? num then to_lru_tail cache node;; stat (count_hit depth);; mret node
        else next ← in_nodes (load_next node); find_loop fuel cache num depth next
    end.

Definition find_block (cache : bcache) (num : Z) : C Z :=
  first ← in_nodes (load_next (lru_list cache)); find_loop (length (c_blocks cache)) cache num 0 first.

(** The walk of [alloc_block] *)
Fixpoint alloc_loop (fuel : nat) (n : nat) (cache : bcache) (node : Z) : C Z :=
  if node =? lru_list cache then mret 0
  else
    match fuel with
    | O => fail
    | S fuel =>
        k ← block_at node;
        if ref_count k =? 0 then
          err ← (if is_dirty k then flush_block n cache node else mret 0);
          if negb (err =? 0) then mret 0
          else to_lru_tail cache node;; mret node
        else next ← in_nodes (load_next node); alloc_loop fuel n cache next
    end.

Definition alloc_block (n : nat) (cache : bcache) : C Z :=
  block ← in_nodes (list_remove_head (free_list cache));
  if negb (block =? 0) then
    k ← block_at block;
    put_block block (set_ref_count 0 k);;
    in_nodes (list_add_tail (lru_list cache) block);;
    mret block
  else first ← in_nodes (load_next (lru_list cache)); alloc_loop (length (c_blocks cache)) n cache first.

Definition find_or_fill_block (n : nat) (cache : bcache) (num : Z) : C Z :=
  block ← find_block cache num;
  block ← (if block =? 0 then
      block ← alloc_block n cache;
      assert (negb (block =? 0));;
      k ← block_at block;
      put_block block (set_blocknum num k);;
      l ← buf_at (ptr k);
      '(ret, l) ← in_bio (bio_read CACHE_LINE n (c_dev cache) l (ptr k) (s64 (u64 (num * c_block_size cache))) (c_block_size cache));
      put_buf (ptr k) l;;
      if s32 ret <? 0 then in_nodes (list_add_tail (free_list cache) block);; mret 0
      else stat count_read;; mret block
    else mret block);
  if block =? 0 then mret 0
  else k ← block_at block; assert (blocknum k =? num);; mret block.

(** The caller's buffer comes back changed. *)
Definition bcache_read_block (n : nat) (cache : bcache) (buf : list Z) (num : Z) : C (Z * list Z) :=
  block ← find_or_fill_block n cache num;
  if block =? 0 then mret (-1, buf)
  else
    k ← block_at block;
    l ← buf_at (ptr k);
    l ← deref (λ _, copy_out 0 (c_block_size cache) l);
    buf ← deref (λ _, copy_in 0 l buf);
    mret (0, buf).

(** With what it puts into [*ptr] *)
Definition bcache_get_block (n : nat) (cache : bcache) (num : Z) : C (Z * Z) :=
  block ← find_or_fill_block n cache num;
  if block =? 0 then mret (-1, 0)
  else
    k ← block_at block;
    put_block block (set_ref_count (s32 (ref_count k + 1)) k);;
    mret (0, ptr k).

Definition bcache_put_block (cache : bcache) (num : Z) : C Z :=
  block ← find_block cache num;
  assert (negb (block =? 0));;
  k ← block_at block;
  assert (0 <? ref_count k);;
  put_block block (set_ref_count (ref_count k - 1) k);;
  mret 0.

Definition bcache_mark_block_dirty (cache : bcache) (num : Z) : C Z :=
  block ← find_block cache num;
  if block =? 0 then mret (-1)
  else k ← block_at block; put_block block (set_is_dirty true k);; mret 0.

Definition bcache_zero_block (n : nat) (cache : bcache) (num : Z) : C Z :=
  block ← find_block cache num;
  block ← (if block =? 0 then
      block ← alloc_block n cache;
      if block =? 0 then mret 0
      else k ← block_at block; put_block block (set_blocknum num k);; mret block
    else mret block);
  if block =? 0 then mret (-1)
  else
    k ← block_at block;
    l ← buf_at (ptr k);
    l ← deref (λ _, copy_in 0 (replicate (Z.to_nat (c_block_size cache)) 0) l);
    put_buf (ptr k) l;;
    put_block block (set_is_dirty true k);;
    mret 0.

Fixpoint flush_loop (fuel : nat) (n : nat) (cache : bcache) (node : Z) : C Z :=
  if node =? lru_list cache then mret 0
  else
    match fuel with
    | O => fail
    | S fuel =>
        k ← block_at node;
        err ← (if is_dirty k then flush_block n cache node else mret 0);
        if negb (err =? 0) then mret err
        else next ← in_nodes (load_next node); flush_loop fuel n cache next
    end.

Definition bcache_flush (n : nat) (cache : bcache) : C Z :=
  first ← in_nodes (load_next (lru_list cache)); flush_loop (length (c_blocks cache)) n cache first.

(** A holder of the pointer writes through it. *)
Definition write_ptr (p : Z) (l : list Z) : C unit := buf_at p;; put_buf p l.
End bcache.
