(* ===== verification/BcacheData.v ===== *)
(** * The block cache: its lists, and what it holds

    The pointer structure under the cache is the two sequences [F] of free blocks and
    [L] of blocks in use, the least recently used first.  [V] is the contents that the
    cache and its device stand for together, block by block.  A cached block holds its
    part of [V]; where no cached block is dirty, the device does.  Blocks move between
    the free ones and those in use by two steps, [cached_drop] and [cached_install]. *)

From S2P Require Import Prelude ListH Bits Bytes Bio Bcache BioSpec BioBytes BioApi BioReg.

Section lists.
Context {D : Type} `{!BlockDriver D} (c : bcache).
Implicit Types (w : world D) (h : heap) (F L : list Z) (b : Z).

Abbreviation C := (M (world D)).

Definition with_bio (s : bio D) w : world D := World s (w_nodes w) (w_blocks w) (w_bufs w) (w_stats w).

Definition with_nodes h w : world D := World (w_bio w) h (w_blocks w) (w_bufs w) (w_stats w).

Definition with_block b (k : bcache_block) w : world D :=
  World (w_bio w) (w_nodes w) (<[b := k]> (w_blocks w)) (w_bufs w) (w_stats w).

Definition with_buf (p : Z) (l : list Z) w : world D :=
  World (w_bio w) (w_nodes w) (w_blocks w) (<[p := l]> (w_bufs w)) (w_stats w).

Definition with_stats (t : bcache_stats) w : world D := World (w_bio w) (w_nodes w) (w_blocks w) (w_bufs w) t.

Lemma wp_in_bio {A} (m : M (bio D) A) Q w : wp m (λ a s, Q a (with_bio s w)) (w_bio w) → wp (in_bio m) Q w.
Proof. rw /wp /in_bio. by destruct (m (w_bio w)) as [[a s]|]. Qed.

Lemma wp_in_nodes {A} (m : M heap A) Q w : wp m (λ a h, Q a (with_nodes h w)) (w_nodes w) → wp (in_nodes m) Q w.
Proof. rw /wp /in_nodes. by destruct (m (w_nodes w)) as [[a s]|]. Qed.

Record rings F L h : Prop := {
  rg_free : dll h (free_list c) F;
  rg_lru : dll h (lru_list c) L;
  rg_disj a : a ∈ free_list c :: F → a ∉ lru_list c :: L
}.

Lemma rings_node F L h b : rings F L h → b ∈ L → b ≠ lru_list c ∧ b ≠ 0.
Proof. intros [_ H _]. by eapply dll_not_sentinel. Qed.

(** Taking a block to the end of the list of blocks in use *)
Lemma wp_to_lru_tail F L1 b L2 (Q : unit → world D → Prop) w :
  rings F (L1 ++ b :: L2) (w_nodes w) →
  (∀ h, rings F (L1 ++ L2 ++ [b]) h → Q () (with_nodes h w)) → wp (to_lru_tail c b) Q w.
Proof.
  intros R HQ. destruct (rings_node _ _ _ b R) as [Hb1 Hb0]; [set_solver|]. destruct R as [RF RL Rd].
  pose proof RL as (Hnd & _ & _).
  assert (b ∉ L1 ++ L2) as Hb2.
  { rewrite ring_middle in Hnd. apply NoDup_cons in Hnd as [Hnb _]. set_solver. }
  apply wp_bind, wp_in_nodes. eapply wp_mono; [by apply list_delete_spec|]. intros [] h1 (RL1 & Hn1 & _ & Hf1).
  apply wp_in_nodes. simpl. eapply wp_mono; [apply wp_list_add_tail; [done|done|set_solver|by rw Hn1]|].
  intros [] h2 [RL2 Hf2]. rw -app_assoc in RL2. apply HQ. split; [|done|].
  - eapply dll_frame; [eapply dll_frame; [exact RF|exact Hf1|]|exact Hf2|]; intros a Ha%Rd; set_solver.
  - intros a Ha%Rd. set_solver.
Qed.

(** The head of the free list goes to the end of the blocks in use. *)
Lemma wp_take_free F L (Q : Z → world D → Prop) w :
  rings F L (w_nodes w) →
  match F with [] => Q 0 w | b :: F' => ∀ h, dll h (free_list c) F' → dll h (lru_list c) L → is_Some (nxt h b) → Q b (with_nodes h w) end →
  wp (in_nodes (list_remove_head (free_list c))) Q w.
Proof.
  intros [RF RL Rd] HQ. apply wp_in_nodes. eapply wp_mono; [by apply wp_list_remove_head|]. intros b h.
  destruct F as [|b' F']; [intros [-> ->]; by destruct w|]. intros (-> & RF' & Hn & _ & Hf). apply HQ; [done| |by rw Hn].
  eapply dll_frame; [exact RL|exact Hf|]. intros a Ha Ha'. by apply (Rd a).
Qed.

(** ** Finding a block *)

Definition has_num (K : gmap Z bcache_block) b (num : Z) : Prop := ∃ k, K !! b = Some k ∧ blocknum k = num.

Lemma wp_find_loop fuel num depth F L1 L2 (Q : Z → world D → Prop) w :
  rings F (L1 ++ L2) (w_nodes w) → (length L2 ≤ fuel)%nat → (∀ b, b ∈ L2 → is_Some (w_blocks w !! b)) →
  (∀ b, b ∈ L1 → ¬ has_num (w_blocks w) b num) →
  (∀ t, (∀ b, b ∈ L1 ++ L2 → ¬ has_num (w_blocks w) b num) → Q 0 (with_stats t w)) →
  (∀ h t A b B, L1 ++ L2 = A ++ b :: B → has_num (w_blocks w) b num → rings F (A ++ B ++ [b]) h →
    Q b (with_stats t (with_nodes h w))) →
  wp (find_loop fuel c num depth (default (lru_list c) (head L2))) Q w.
Proof.
  revert fuel depth L1. induction L2 as [|b L2 IH]; intros fuel depth L1 R Hf Hk Hno H0 H1; simpl.
  - assert (find_loop fuel c num depth (lru_list c) = (stat count_miss;; mret 0 : C Z)) as ->
      by (destruct fuel; simpl; by rw Z.eqb_refl).
    apply wp_bind, wp_modify, wp_ret. apply (H0 (count_miss (w_stats w))). by rw app_nil_r.
  - destruct fuel as [|fuel]; simpl in Hf; [lia|]. simpl. destruct (rings_node _ _ _ b R) as [Hb _]; [set_solver|].
    rw (proj2 (Z.eqb_neq _ _) Hb). destruct (Hk b) as [k Hkb]; [set_solver|]. apply wp_bind. eapply wp_deref; [done|].
    destruct (Z.eqb_spec (blocknum k) num) as [E|E].
    + apply wp_bind. eapply wp_to_lru_tail; [done|]. intros h Rh. apply wp_bind, wp_modify, wp_ret.
      eapply (H1 h _ L1 b L2); [done|by exists k|done].
    + apply wp_bind, wp_in_nodes. eapply wp_load_next; [by apply (dll_next _ _ _ _ _ (rg_lru _ _ _ R))|]. simpl.
      replace (with_nodes (w_nodes w) w) with w by by destruct w.
      rw (cons_middle b L1 L2) app_assoc in R H0 H1. apply (IH fuel _ (L1 ++ [b])); [done|lia|set_solver| |done|done].
      intros b' [?| ->%list_elem_of_singleton]%elem_of_app; [auto|]. intros (k' & ? & ?). simplify_eq.
Qed.

Lemma wp_find_block num F L (Q : Z → world D → Prop) w :
  rings F L (w_nodes w) → (length L ≤ length (c_blocks c))%nat → (∀ b, b ∈ L → is_Some (w_blocks w !! b)) →
  (∀ t, (∀ b, b ∈ L → ¬ has_num (w_blocks w) b num) → Q 0 (with_stats t w)) →
  (∀ h t A b B, L = A ++ b :: B → has_num (w_blocks w) b num → rings F (A ++ B ++ [b]) h →
    Q b (with_stats t (with_nodes h w))) →
  wp (find_block c num) Q w.
Proof.
  intros R Hl Hk H0 H1. apply wp_bind, wp_in_nodes. eapply wp_load_next; [by apply dll_head, (rg_lru _ _ _ R)|].
  replace (with_nodes (w_nodes w) w) with w by by destruct w. apply (wp_find_loop _ _ _ F []); try done. set_solver.
Qed.
End lists.

(** Membership in lists put together *)
Ltac mem := repeat match goal with
  | H : _ ∈ _ ++ _ |- _ => apply elem_of_app in H
  | H : _ ∈ _ :: _ |- _ => apply elem_of_cons in H
  | H : _ ∨ _ |- _ => destruct H
  end; rewrite ?(elem_of_app, elem_of_cons); subst; tauto.

Section data.
Context {D : Type} `{!BlockDriver D, !BlockDriverLaws D} (n : nat) (c : bcache) (r : root) (o : Z) (d : bdev).
Implicit Types (s : bio D) (F L : list Z) (b num : Z) (X N : gset Z) (K : gmap Z bcache_block) (U : gmap Z (list Z)).

(** The block is whole on the device. *)
Definition on_device num : Prop := 0 ≤ num ∧ (num + 1) * c_block_size c ≤ total_size d.

Definition device_block s num : list Z := slice (o + num * c_block_size c) (c_block_size c) (storage s r).

(** [X]: the blocks that their holders have changed and not yet marked dirty; [N]:
    the numbers of blocks that are being replaced. *)
Record cached X N F L (V : Z → list Z) s K U : Prop := {
  cd_at : dev_at s n (c_dev c) r o;
  cd_dev : devs s !! c_dev c = Some d;
  cd_block b : b ∈ F ++ L → ∃ k l, K !! b = Some k ∧ U !! ptr k = Some l ∧ zlen l = c_block_size c;
  cd_ptr b b' k k' : b ∈ F ++ L → b' ∈ F ++ L → K !! b = Some k → K !! b' = Some k' → ptr k = ptr k' → b = b';
  cd_num b b' k k' : b ∈ L → b' ∈ L → K !! b = Some k → K !! b' = Some k' → blocknum k = blocknum k' → b = b';
  cd_lru b k : b ∈ L → K !! b = Some k → on_device (blocknum k) ∧ U !! ptr k = Some (V (blocknum k)) ∧ 0 ≤ ref_count k < 2 ^ 31;
  cd_view num : on_device num → num ∉ N →
    (∀ b k, b ∈ L → K !! b = Some k → blocknum k = num → is_dirty k = false ∧ b ∉ X) → V num = device_block s num;
  cd_open b : b ∈ X → b ∈ L ∧ ∀ k, K !! b = Some k → 0 < ref_count k
}.

Lemma cached_perm X N F L F' L' V s K U : F ≡ₚ F' → L ≡ₚ L' → cached X N F L V s K U → cached X N F' L' V s K U.
Proof.
  intros EF EL [A1 A2 A3 A4 A5 A6 A7 A8]. assert (∀ b, b ∈ F' ++ L' ↔ b ∈ F ++ L) as E1 by (intros; by rw EF EL).
  assert (∀ b, b ∈ L' ↔ b ∈ L) as E2 by (intros; by rw EL).
  split; try done.
  - intros b. rw E1. apply A3.
  - intros b b' k k'. rw !E1. apply A4.
  - intros b b' k k'. rw !E2. apply A5.
  - intros b k. rw E2. apply A6.
  - intros num H1 H2 H3. apply A7; [done..|]. intros b k. rw -E2. apply H3.
  - intros b. rw E2. apply A8.
Qed.

Lemma cached_ext X N F L V V' s K U : (∀ num, V num = V' num) → cached X N F L V s K U → cached X N F L V' s K U.
Proof.
  intros E [A1 A2 A3 A4 A5 A6 A7 A8]. split; try done; [intros b k; rw -E; apply A6|intros num; rw -E; apply A7].
Qed.

(** Only where its buffer is matters of a free block. *)
Lemma cached_set_free X N F L b k k' V s K U :
  b ∉ L → cached X N F L V s K U → K !! b = Some k → ptr k' = ptr k → cached X N F L V s (<[b := k']> K) U.
Proof.
  intros Hb [A1 A2 A3 A4 A5 A6 A7 A8] Hk Ep.
  assert (∀ b' k1, <[b := k']> K !! b' = Some k1 → ∃ k2, K !! b' = Some k2 ∧ ptr k1 = ptr k2) as E.
  { intros b' k1 [[<- <-]|[? ?]]%lookup_insert_Some; eauto. }
  assert (∀ b', b' ∈ L → <[b := k']> K !! b' = K !! b') as EL by (intros b' ?; apply lookup_insert_ne; congruence).
  split; try done.
  - intros b' (k1 & l & Hk1 & ? & ?)%A3. destruct (decide (b' = b)) as [->|]; [|exists k1, l; by rw lookup_insert_ne].
    exists k', l. rw lookup_insert_eq Ep. by simplify_eq.
  - intros b1 b2 k1 k2 ? ? (k1' & H1 & E1)%E (k2' & H2 & E2)%E ?. eapply A4; try done. congruence.
  - intros b1 b2 k1 k2 ? ?. rw !EL //. by apply A5.
  - intros b' k1 ?. rw EL //. by apply A6.
  - intros num Hn HN Hc. apply A7; [done..|]. intros b' k1 ? ?. by apply Hc; [|rw EL].
  - intros b' [Hb' Hx]%A8. by rw EL.
Qed.

Lemma cached_unchanged X N F L V s s' K U : unchanged s s' → cached X N F L V s K U → cached X N F L V s' K U.
Proof.
  intros Hu [A1 A2 A3 A4 A5 A6 A7 A8]. split; try done; [by eapply dev_at_unchanged|by rw (un_devs _ _ Hu)|].
  intros num Hn HN Hc. rw A7 // /device_block. by rw (unchanged_storage _ _ _ Hu).
Qed.

(** A block leaves those in use: its number may be replaced now, unless the device
    has its contents. *)
Lemma cached_drop X F L b k V s K U :
  NoDup (b :: L) → cached X ∅ F (b :: L) V s K U → K !! b = Some k →
  cached (X ∖ {[ b ]}) {[ blocknum k ]} (b :: F) L V s K U ∧
  (is_dirty k = false → b ∉ X → cached X ∅ (b :: F) L V s K U).
Proof.
  intros [Hb _]%NoDup_cons [A1 A2 A3 A4 A5 A6 A7 A8] Hk. split; [|intros Hc Hx]; split; try done.
  1, 7: intros b' ?; apply A3; mem.
  1, 6: intros b' b'' k' k'' ? ?; apply A4; mem.
  1, 5: intros b' b'' k' k'' ? ?; apply A5; mem.
  1, 4: intros b' k' ?; apply A6; mem.
  - intros num Hn HN Hno. apply A7; [done|set_solver|]. intros b' k' [->|Hb']%elem_of_cons Hk' E; [simplify_eq; set_solver|].
    destruct (Hno b' k' Hb' Hk' E). set_solver.
  - intros b' [Hb' Hne]%elem_of_difference. destruct (A8 b' Hb'). set_solver.
  - intros num Hn HN Hno. apply A7; [done..|]. intros b' k' [->|Hb']%elem_of_cons Hk' E; [by simplify_eq|]. by apply Hno.
  - intros b' Hb'. destruct (A8 b' Hb'). set_solver.
Qed.

Definition upd (V : Z → list Z) num (l : list Z) : Z → list Z := λ x, if decide (x = num) then l else V x.

(** A free block comes into use, with contents of a number that no block has. *)
Lemma cached_install X X' F L b k k' l num V s K U :
  NoDup (b :: F ++ L) → cached X {[ num ]} (b :: F) L V s K U → K !! b = Some k →
  ptr k' = ptr k → blocknum k' = num → on_device num → 0 ≤ ref_count k' < 2 ^ 31 → zlen l = c_block_size c →
  (∀ b', b' ∈ L → ¬ has_num K b' num) →
  X ⊆ X' → X' ⊆ X ∪ {[ b ]} → (b ∈ X' → 0 < ref_count k') →
  is_dirty k' = true ∨ b ∈ X' ∨ l = device_block s num →
  cached X' ∅ F (b :: L) (upd V num l) s (<[b := k']> K) (<[ptr k := l]> U).
Proof.
  intros [Hb _]%NoDup_cons [A1 A2 A3 A4 A5 A6 A7 A8] Hk Ep En Hon Hr Hl Hno HX HX' Hrx Hl'.
  assert (∀ b' k1, b' ∈ F ++ L → K !! b' = Some k1 → ptr k1 ≠ ptr k) as Hp.
  { intros b' k1 Hb' Hk1 E. assert (b' = b) as -> by (apply (A4 b' b k1 k); [set_solver..]). done. }
  assert (∀ b', b' ∈ F ++ L → b' ≠ b) as Hne by set_solver.
  split; try done.
  - intros b' Hb'. destruct (decide (b' = b)) as [->|Hn]; [exists k', l; rw lookup_insert_eq Ep lookup_insert_eq; auto|].
    destruct (A3 b') as (k1 & l1 & Hk1 & Hl1 & ?); [mem|]. exists k1, l1.
    rw lookup_insert_ne // lookup_insert_ne //. intros E. eapply (Hp b' k1); [mem|done|done].
  - intros b1 b2 k1 k2 H1 H2.
    destruct (decide (b1 = b)) as [->|], (decide (b2 = b)) as [->|]; rw ?lookup_insert_eq ?lookup_insert_ne //; intros Hk1 Hk2 E; simplify_eq.
    + exfalso. apply (Hp b2 k2); [mem|done|congruence].
    + exfalso. apply (Hp b1 k1); [mem|done|congruence].
    + eapply A4; try done; mem.
  - intros b1 b2 k1 k2 H1 H2.
    destruct (decide (b1 = b)) as [->|], (decide (b2 = b)) as [->|]; rw ?lookup_insert_eq ?lookup_insert_ne //; intros Hk1 Hk2 E; simplify_eq.
    + exfalso. apply (Hno b2); [mem|by exists k2].
    + exfalso. apply (Hno b1); [mem|by exists k1].
    + eapply A5; try done; mem.
  - intros b' k1 Hb'. destruct (decide (b' = b)) as [->|Hn].
    + rw lookup_insert_eq. intros [= <-]. by rw Ep En lookup_insert_eq /upd decide_True.
    + rw (lookup_insert_ne K) //. intros Hk1. assert (b' ∈ L) as HL by mem. rw lookup_insert_ne; [|intros E; by eapply (Hp b' k1); [mem|done|]].
      rw /upd decide_False; [by apply (A6 b')|]. intros E. apply (Hno b' HL). by exists k1.
  - intros x Hx _ Hc. rw /upd. case_decide as E; [subst x|].
    + destruct (Hc b k') as [? ?]; [mem|apply lookup_insert_eq|done|]. destruct Hl' as [?|[?|?]]; congruence.
    + apply A7; [done|set_solver|]. intros b' k1 Hb' Hk1 E1. destruct (Hc b' k1) as [? ?]; [mem| |done|split; [done|auto]].
      rw lookup_insert_ne //. apply not_eq_sym, Hne. mem.
  - intros b' Hb'. destruct (decide (b' = b)) as [->|Hn].
    + split; [mem|]. rw lookup_insert_eq. intros ? [= <-]. auto.
    + destruct (A8 b') as [? ?]; [apply HX', elem_of_union in Hb' as [?|?%elem_of_singleton]; done|]. split; [mem|]. by rw lookup_insert_ne.
Qed.

(** Both steps at once: a block in use changes, and keeps its number. *)
Lemma cached_update X X' F L b k k' l V s K U :
  NoDup (F ++ L) → b ∈ L → cached X ∅ F L V s K U → K !! b = Some k →
  ptr k' = ptr k → blocknum k' = blocknum k → 0 ≤ ref_count k' < 2 ^ 31 → zlen l = c_block_size c →
  X ∖ {[ b ]} ⊆ X' → X' ⊆ X ∪ {[ b ]} → (b ∈ X' → 0 < ref_count k') →
  is_dirty k' = true ∨ b ∈ X' ∨ l = device_block s (blocknum k) →
  cached X' ∅ F L (upd V (blocknum k) l) s (<[b := k']> K) (<[ptr k := l]> U).
Proof.
  intros Hnd [L1 [L2 ->]]%list_elem_of_split Hc Hk Ep En Hr Hl HX HX' Hrx Hl'.
  assert (b :: L1 ++ L2 ≡ₚ L1 ++ b :: L2) as EL by apply Permutation_middle.
  assert (NoDup (b :: F ++ L1 ++ L2)) as Hnd' by (by rw -EL -Permutation_middle in Hnd).
  assert (NoDup (b :: L1 ++ L2)) as HndL.
  { apply NoDup_cons in Hnd' as [? [_ [_ ?]]%NoDup_app]. apply NoDup_cons. split; [set_solver|done]. }
  apply (cached_perm _ _ F (b :: L1 ++ L2)); [done..|].
  apply (cached_perm _ _ _ _ F (b :: L1 ++ L2)) in Hc; [|done..].
  destruct (cd_lru _ _ _ _ _ _ _ _ Hc b k) as (Hon & _); [set_solver|done|].
  destruct (cached_drop X F (L1 ++ L2) b k V s K U HndL Hc Hk) as [Hc' _].
  eapply (cached_install (X ∖ {[ b ]})); try done; [|intros x ?; destruct (decide (x = b)); set_solver].
  intros b' Hb' (k1 & Hk1 & E). apply NoDup_cons in HndL as [Hnb _].
  assert (b' = b) as -> by (eapply (cd_num _ _ _ _ _ _ _ _ Hc); [set_solver..|done]). done.
Qed.

(** ** Transfers between a block and the device *)

Hypothesis Hbs : 0 < c_block_size c < 2 ^ 31.
Hypothesis Hdiv : (block_size d | c_block_size c).

Lemma cached_range X N F L V s K U num : cached X N F L V s K U → on_device num →
  0 ≤ o ∧ 0 ≤ num * c_block_size c ∧ o + num * c_block_size c + c_block_size c ≤ zlen (storage s r) ∧
  num * c_block_size c + c_block_size c ≤ total_size d ∧ total_size d < 2 ^ 63.
Proof.
  intros Hc [? ?]. pose proof (cd_at _ _ _ _ _ _ _ _ Hc) as Hat. pose proof (cd_dev _ _ _ _ _ _ _ _ Hc) as Hd.
  destruct (dev_at_range _ _ _ _ _ _ Hat Hd). destruct (dev_at_dev _ _ _ _ _ Hat) as (? & ? & Sh). simplify_eq.
  pose proof (total_bound d Sh). nia.
Qed.

(** The device may change under a dirty block. *)
Lemma cached_confined X F L V s s' K U b k :
  cached X ∅ F L V s K U → b ∈ L → K !! b = Some k → is_dirty k = true →
  confined r (o + blocknum k * c_block_size c) (o + (blocknum k + 1) * c_block_size c) s s' → cached X ∅ F L V s' K U.
Proof.
  intros Hc Hb Hk Hd C. pose proof (cached_range _ _ _ _ _ _ _ _ (blocknum k) Hc) as Hr.
  destruct Hc as [A1 A2 A3 A4 A5 A6 A7 A8]. split; try done; [by eapply confined_dev|by rw (cf_devs _ _ _ _ _ C)|].
  intros num Hn HN Hc'. rw A7 //. rw /device_block. symmetry. destruct (A6 b k Hb Hk) as (Hon & _). destruct (Hr Hon) as (? & ? & ? & ?).
  destruct (decide (num = blocknum k)) as [->|Hne]; [destruct (Hc' b k); [done..|congruence]|].
  eapply confined_slice; [done| |right; destruct Hn; nia]. destruct Hn; nia.
Qed.
End data.

#[global] Arguments cd_at {_ _ _ _ _ _ _ _ _ _ _ _ _ _ _ _} _.
#[global] Arguments cd_dev {_ _ _ _ _ _ _ _ _ _ _ _ _ _ _ _} _.
#[global] Arguments cd_block {_ _ _ _ _ _ _ _ _ _ _ _ _ _ _ _} _.
#[global] Arguments cd_ptr {_ _ _ _ _ _ _ _ _ _ _ _ _ _ _ _} _.
#[global] Arguments cd_num {_ _ _ _ _ _ _ _ _ _ _ _ _ _ _ _} _.
#[global] Arguments cd_lru {_ _ _ _ _ _ _ _ _ _ _ _ _ _ _ _} _.
#[global] Arguments cd_view {_ _ _ _ _ _ _ _ _ _ _ _ _ _ _ _} _.
#[global] Arguments cd_open {_ _ _ _ _ _ _ _ _ _ _ _ _ _ _ _} _.
