(* ===== verification/BcacheSpec.v ===== *)
(** * The block cache: its operations

    Every operation acts on the contents [V] that the cache and its device stand for
    as the caller expects, whichever blocks are cached, and keeps the lists and the
    blocks consistent. *)

From S2P Require Import Prelude ListH Bits Bytes Bio BioSpec BioBytes BioApi BioReg Bcache BcacheData.

Section spec.
Context {D : Type} `{!BlockDriver D, !BlockDriverLaws D} (CACHE_LINE : Z).
Context (n : nat) (c : bcache) (r : root) (o : Z) (d : bdev).
Implicit Types (w : world D) (s : bio D) (F L : list Z) (b num : Z) (X N : gset Z) (K : gmap Z bcache_block) (U : gmap Z (list Z)).

Abbreviation C := (M (world D)).

(** The blocks of the cache are cut up into sectors of the device. *)
Record fits : Prop := {
  ft_size : 0 < c_block_size c < 2 ^ 31;
  ft_div : (block_size d | c_block_size c)
}.

Context (Hfit : fits).

Abbreviation cached := (cached n c r o d).

Definition holds X F L (V : Z → list Z) w : Prop :=
  rings c F L (w_nodes w) ∧ F ++ L ≡ₚ c_blocks c ∧ cached X ∅ F L V (w_bio w) (w_blocks w) (w_bufs w).

(** The cache stands for the contents [V]. *)
Definition stands_for X (V : Z → list Z) w : Prop := ∃ F L, holds X F L V w.

Lemma rings_nodup F L h : rings c F L h → NoDup (F ++ L).
Proof.
  intros [(HF & _) (HL & _) Hd]. apply NoDup_cons in HF as [? HF]. apply NoDup_cons in HL as [? HL].
  apply NoDup_app. split_and!; [done| |done]. intros a Ha Ha'. by apply (Hd a); [right|right].
Qed.

Lemma on_device_offset num : on_device c d num → 0 ≤ total_size d < 2 ^ 63 →
  s64 (u64 (num * c_block_size c)) = num * c_block_size c ∧ 0 ≤ num * c_block_size c ∧
  trimmed d (num * c_block_size c) (c_block_size c) = c_block_size c.
Proof.
  intros [? ?] ?. destruct Hfit as [? _]. assert (0 ≤ num * c_block_size c ≤ total_size d - c_block_size c) by nia.
  split_and!; [rw u64_small; [apply s64_small; lia|lia]|lia|apply trimmed_id; lia].
Qed.

(** Whole blocks of the cache are whole sectors. *)
Lemma sector_aligned num : 0 < block_size d →
  num * c_block_size c / block_size d * block_size d = num * c_block_size c ∧
  (num * c_block_size c + c_block_size c + block_size d - 1) / block_size d * block_size d = (num + 1) * c_block_size c.
Proof.
  intros Hb. destruct (ft_div Hfit) as [q ->]. rw Z.mul_assoc Z.div_mul; [|lia]. split; [done|].
  rw (_ : num * q * block_size d + q * block_size d + block_size d - 1 = block_size d - 1 + (num * q + q) * block_size d); [|lia].
  rw Z.div_add; [|lia]. rw Z.div_small; lia.
Qed.

Lemma wp_flush_block F L V X b k (Q : Z → world D → Prop) w :
  NoDup (F ++ L) → cached X ∅ F L V (w_bio w) (w_blocks w) (w_bufs w) → b ∈ L → w_blocks w !! b = Some k → is_dirty k = true →
  (∀ s t, cached X ∅ F L V s (<[b := set_is_dirty false k]> (w_blocks w)) (w_bufs w) →
    Q 0 (with_stats t (with_block b (set_is_dirty false k) (with_bio s w)))) →
  (∀ s rc, rc < 0 → is_driver r → cached X ∅ F L V s (w_blocks w) (w_bufs w) → Q rc (with_bio s w)) →
  wp (flush_block CACHE_LINE n c b) Q w.
Proof.
  intros Hnd Hc Hb Hk Hd H0 H1. pose proof (cd_at Hc) as Hat. pose proof (cd_dev Hc) as Hdev.
  destruct (dev_at_dev _ _ _ _ _ Hat) as (? & ? & Sh). simplify_eq. pose proof (total_bound d Sh) as Htb.
  assert (0 < block_size d) as Hbd by (destruct Sh as [_ ? -> _ _]; lia). destruct (ft_size Hfit) as [Hbs1 Hbs2].
  destruct (cd_lru Hc b k Hb Hk) as (Hon & HU & Hrf).
  destruct (cd_block Hc b) as (k' & l & Hk' & Hl & Hlen); [set_solver|]. simplify_eq.
  destruct (on_device_offset _ Hon Htb) as (Eo & Ho & Et). destruct (sector_aligned (blocknum k) Hbd) as [Ea Eb].
  destruct (cached_range n c r o d (ft_size Hfit) _ _ _ _ _ _ _ _ _ Hc Hon) as (? & ? & ? & ? & ?).
  apply wp_bind. eapply wp_deref; [done|]. apply wp_bind. eapply wp_deref; [done|]. rw Eo. apply wp_bind, wp_in_bio.
  eapply wp_mono; [eapply (wp_bio_write CACHE_LINE); [done|done|lia|lia|lia|by rw Et Hlen]|].
  intros ret s'. cbv zeta. rw Et. intros [[-> W]|(Herr & _ & Hdr & Cf)].
  - rw s32_small; [|lia]. rw (proj2 (Z.ltb_ge _ _)); [|lia]. apply wp_bind, wp_modify, wp_bind, wp_modify, wp_ret. apply H0.
    rewrite -Hlen slice_all in W.
    assert (cached X ∅ F L V s' (w_blocks w) (w_bufs w)) as Hc'.
    { eapply cached_confined; try done. eapply written_confined; [done|lia|lia|lia|lia]. }
    rewrite <- (insert_id (w_bufs w) (ptr k) _ HU). eapply cached_ext; [|eapply (cached_update _ _ _ _ _ X X)]; try done.
    + intros x. rw /upd. by case_decide; [subst|].
    + set_solver.
    + set_solver.
    + intros Hx. destruct (cd_open Hc b Hx) as [_ Hx']. by apply (Hx' k).
    + right. right. rw /device_block (wr_storage _ _ _ _ _ W) decide_True // -Hlen. symmetry. apply slice_splice_same; lia.
  - rw s32_small; [|lia]. rw error_ltb //. apply wp_ret. apply H1; [lia|done|].
    eapply cached_confined; try done. by rewrite Ea Eb in Cf.
Qed.
(** ** Allocating a block *)

(** [b] is at the end of the list of blocks in use, but holds no block yet. *)
Definition detached X F L b (V : Z → list Z) w : Prop :=
  rings c F (L ++ [b]) (w_nodes w) ∧ F ++ L ++ [b] ≡ₚ c_blocks c ∧
  cached X ∅ (b :: F) L V (w_bio w) (w_blocks w) (w_bufs w) ∧ ∃ k, w_blocks w !! b = Some k ∧ ref_count k = 0.

(** The blocks of [L'] were in [L], with the same numbers. *)
Definition keeps_nums L L' w w' : Prop :=
  ∀ b num, b ∈ L' → has_num (w_blocks w') b num → b ∈ L ∧ has_num (w_blocks w) b num.

(** Nobody has got hold of a block. *)
Definition keeps_refs w w' : Prop :=
  ∀ b k', w_blocks w' !! b = Some k' → ref_count k' = 0 ∨ ∃ k, w_blocks w !! b = Some k ∧ ref_count k' = ref_count k.

Lemma keeps_refs_refl w w' : w_blocks w' = w_blocks w → keeps_refs w w'.
Proof. intros E b k. rw E. eauto. Qed.

Lemma keeps_refs_trans w1 w2 w3 : keeps_refs w1 w2 → keeps_refs w2 w3 → keeps_refs w1 w3.
Proof. intros H1 H2 b k3 [?|(k2 & Hk2 & E)]%H2; [by left|]. rw E. by apply H1. Qed.

Lemma keeps_refs_insert w w' b k k' :
  w_blocks w !! b = Some k → w_blocks w' = <[b := k']> (w_blocks w) → ref_count k' = 0 ∨ ref_count k' = ref_count k → keeps_refs w w'.
Proof. intros Hk E Hr b' k1. rw E. intros [[<- <-]|[? ?]]%lookup_insert_Some; [destruct Hr; eauto|eauto]. Qed.

(** Why there may be no block to use: all are held, or one that is dirty cannot be
    written. *)
Definition stuck L w : Prop :=
  (∀ b k, b ∈ L → w_blocks w !! b = Some k → ref_count k ≠ 0) ∨
  is_driver r ∧ ∃ b k, b ∈ L ∧ w_blocks w !! b = Some k ∧ is_dirty k = true ∧ ref_count k = 0.

Lemma wp_detach X F L1 b L2 k V (Q : Z → world D → Prop) w :
  holds X F (L1 ++ b :: L2) V w → w_blocks w !! b = Some k → is_dirty k = false → ref_count k = 0 →
  (∀ h, detached X F (L1 ++ L2) b V (with_nodes h w) → Q b (with_nodes h w)) → wp (to_lru_tail c b;; mret b) Q w.
Proof.
  intros (R & Hp & Hc) Hk Hd Hr HQ. pose proof (rings_nodup _ _ _ R) as Hnd.
  assert (b :: L1 ++ L2 ≡ₚ L1 ++ b :: L2) as EL by apply Permutation_middle.
  apply wp_bind. eapply wp_to_lru_tail; [done|]. intros h Rh. apply wp_ret, HQ. rw app_assoc in Rh.
  split_and!; [done| | |by exists k].
  - rw -Hp -EL. f_equiv. apply (Permutation_app_comm _ [b]).
  - apply cached_drop with k; [|by eapply cached_perm; [| |exact Hc]|done|done|].
    + apply NoDup_app in Hnd as (_ & _ & Hnd). by rw EL.
    + intros Hx. destruct (cd_open Hc b Hx) as [_ Hx']. specialize (Hx' k Hk). lia.
Qed.

Lemma has_num_insert K b k k' b' num : K !! b = Some k → blocknum k' = blocknum k → has_num (<[b := k']> K) b' num → has_num K b' num.
Proof. intros Hk E (k1 & [[<- <-]|[? ?]]%lookup_insert_Some & <-); [by exists k|by exists k1]. Qed.

Lemma wp_alloc_loop fuel X F L1 L2 V (Q : Z → world D → Prop) w :
  holds X F (L1 ++ L2) V w → (length L2 ≤ fuel)%nat →
  (∀ b k, b ∈ L1 → w_blocks w !! b = Some k → ref_count k ≠ 0) →
  (∀ L b w', detached X F L b V w' → keeps_nums (L1 ++ L2) L w w' → keeps_refs w w' → Q b w') →
  (∀ w', holds X F (L1 ++ L2) V w' → stuck (L1 ++ L2) w → keeps_refs w w' → Q 0 w') →
  wp (alloc_loop CACHE_LINE fuel n c (default (lru_list c) (head L2))) Q w.
Proof.
  revert fuel L1. induction L2 as [|b L2 IH]; intros fuel L1 H Hf Hheld H1 H0; simpl.
  { assert (alloc_loop CACHE_LINE fuel n c (lru_list c) = (mret 0 : C Z)) as -> by (destruct fuel; simpl; by rw Z.eqb_refl).
    apply wp_ret, H0; [done|left; by rw app_nil_r|by apply keeps_refs_refl]. }
  destruct fuel as [|fuel]; simpl in Hf; [lia|]. simpl. pose proof H as (R & Hp & Hc).
  destruct (rings_node _ _ _ _ b R) as [Hb Hb0]; [set_solver|]. rw (proj2 (Z.eqb_neq _ _) Hb).
  destruct (cd_block Hc b) as (k & l & Hk & _); [set_solver|]. apply wp_bind. eapply wp_deref; [done|].
  destruct (Z.eqb_spec (ref_count k) 0) as [Hr|Hr].
  - apply wp_bind. destruct (is_dirty k) eqn:Hd; [eapply wp_flush_block; [by eapply rings_nodup|done|set_solver|done|done|..]|].
    + intros s t Hc'. eapply wp_detach; [split_and!; [exact R|done|exact Hc']|apply lookup_insert_eq|done|done|].
      intros h Hdet. eapply H1; [done| |by eapply keeps_refs_insert; [exact Hk|reflexivity|right]].
      intros b' num Hb' Hn. split; [set_solver|]. by eapply has_num_insert; [exact Hk| |exact Hn].
    + intros s rc Hrc Hdr Hc'. rw (proj2 (Z.eqb_neq rc 0)); [|lia]. apply wp_ret, H0; [done| |by apply keeps_refs_refl]. right. split; [done|].
      exists b, k. split_and!; [set_solver|done..].
    + apply wp_ret. eapply wp_detach; [exact H|done..|]. intros h Hdet. eapply H1; [done| |by apply keeps_refs_refl].
      intros b' num Hb' Hn. split; [set_solver|done].
  - apply wp_bind, wp_in_nodes. eapply wp_load_next; [by apply (dll_next _ _ _ _ _ (rg_lru _ _ _ _ R))|]. simpl.
    replace (with_nodes (w_nodes w) w) with w by by destruct w.
    rw (cons_middle b L1 L2) app_assoc in H H0 H1. apply (IH fuel (L1 ++ [b])); [done|lia| |done|done].
    intros b' k' [?| ->%list_elem_of_singleton]%elem_of_app ?; [by eapply Hheld|congruence].
Qed.

Lemma wp_alloc_block X F L V (Q : Z → world D → Prop) w :
  holds X F L V w →
  (∀ F' L' b w', b ≠ 0 → detached X F' L' b V w' → keeps_nums L L' w w' → keeps_refs w w' → Q b w') →
  (∀ w', holds X F L V w' → F = [] → stuck L w → keeps_refs w w' → Q 0 w') →
  wp (alloc_block CACHE_LINE n c) Q w.
Proof.
  intros H H1 H0. pose proof H as (R & Hp & Hc). apply wp_bind. eapply wp_take_free; [done|]. destruct F as [|b F].
  - simpl. apply wp_bind, wp_in_nodes. eapply wp_load_next; [by apply dll_head, (rg_lru _ _ _ _ R)|].
    replace (with_nodes (w_nodes w) w) with w by by destruct w. eapply (wp_alloc_loop _ X [] []); [done| |set_solver| |].
    + by rw -(Permutation_length Hp).
    + intros L' b w' Hdet. eapply H1; [|done]. destruct Hdet as [R' _]. eapply (rings_node _ _ _ _ b R'). set_solver.
    + intros w' ? ? ?. by apply H0.
  - intros h RF RL Hn. pose proof R as [RF0 _ Rd]. destruct (dll_not_sentinel _ _ _ b RF0) as [Hb Hb0]; [set_solver|].
    rw (proj2 (Z.eqb_neq b 0)) //. destruct (cd_block Hc b) as (k & l & Hk & _); [set_solver|].
    simpl. apply wp_bind. eapply wp_deref; [done|]. apply wp_bind, wp_modify, wp_bind, wp_in_nodes.
    eapply wp_mono; [apply wp_list_add_tail; [done|done|apply Rd; set_solver|done]|]. intros [] h' [RL' Hf]. apply wp_ret.
    pose proof (rings_nodup _ _ _ R) as Hnd. apply NoDup_cons in Hnd as [Hbn _]. destruct RF0 as (HndF & _ & _).
    apply (H1 F L); [done| | |by eapply keeps_refs_insert; [exact Hk|reflexivity|left]].
    + split_and!; [split; [|done|]|..].
      * eapply dll_frame; [exact RF|exact Hf|]. intros a Ha Ha'. apply (Rd a); [set_solver|].
        apply elem_of_cons in Ha' as [->|?]; [|done]. apply NoDup_cons in HndF as [? HndF]. set_solver.
      * intros a Ha Ha'. apply (Rd a); [set_solver|]. apply elem_of_cons. apply elem_of_cons in Ha' as [?|Ha']; [by left|].
        apply elem_of_app in Ha' as [?| ->%list_elem_of_singleton]; [by right|]. set_solver.
      * rw -Hp /= (Permutation_app_comm L [b]) /=. by rw Permutation_middle.
      * simpl. eapply cached_set_free; [set_solver|done|done|done].
      * exists (set_ref_count 0 k). by rw lookup_insert_eq.
    + intros b' num Hb' Hn'. split; [done|]. by eapply has_num_insert; [exact Hk| |exact Hn'].
Qed.
End spec.
