(* ===== verification/BcacheOps.v ===== *)
(** * The block cache: the interface

    The functions of [bcache.h] as operations on the contents [V], and the runs of
    any sequence of them against a plain array of blocks. *)

From S2P Require Import Prelude ListH Bits Bytes Bio BioSpec BioBytes BioApi BioReg Bcache BcacheData BcacheSpec.

Lemma wp_list_add_tail_any h hd x p :
  prv h hd = Some p → is_Some (nxt h p) → is_Some (nxt h x) → x ≠ hd → wp (list_add_tail hd x) (λ _ _, True) h.
Proof.
  intros Hp [y Hy] Hsx Hne. assert (is_Some (nxt h hd)) as [z Hz] by (apply is_Some_prv_nxt; by rw Hp).
  rw /list_add_tail. heap_step. heap_step; [exact Hp|]. heap_step. heap_step; [by apply is_Some_prv_nxt|].
  heap_step. heap_step; [by heap_simpl|]. heap_step. heap_step; [heap_simpl; by rw decide_False|].
  heap_step. heap_step; [heap_simpl; rw Hy; by case_decide|]. heap_step; [|done].
  apply is_Some_prv_nxt. heap_simpl. rw Hz. repeat case_decide; by eexists.
Qed.

Section ops.
Context {D : Type} `{!BlockDriver D, !BlockDriverLaws D} (CACHE_LINE : Z).
Context (n : nat) (c : bcache) (r : root) (o : Z) (d : bdev) (Hfit : fits c d).
Implicit Types (w : world D) (s : bio D) (F L : list Z) (b num : Z) (X : gset Z) (V : Z → list Z).

Abbreviation holds := (holds n c r o d).
Abbreviation stands_for := (stands_for n c r o d).
Abbreviation on_device := (on_device c d).

(** Some block can be had, and no block that could be taken has to be written to a
    device that may fail. *)
Definition room w : Prop := ∃ b k, b ∈ c_blocks c ∧ w_blocks w !! b = Some k ∧ ref_count k = 0.

Definition calm w : Prop :=
  is_driver r → ∀ b k, b ∈ c_blocks c → w_blocks w !! b = Some k → is_dirty k = true → ref_count k ≠ 0.

Lemma room_not_stuck X L V w : holds X [] L V w → room w → calm w → stuck r L w → False.
Proof.
  intros (_ & Hp & _) (b & k & Hb & Hk & Hr) Hcalm [Hs|(Hd & b' & k' & Hb' & Hk' & Hd' & Hr')]; simpl in Hp.
  - by apply (Hs b k); [rw Hp|..].
  - by apply (Hcalm Hd b' k'); [rw -Hp|..].
Qed.

(** The block [b] is cached under [num]. *)
Definition cached_at X V b num w : Prop := b ≠ 0 ∧ ∃ F L, holds X F L V w ∧ b ∈ L ∧ has_num (w_blocks w) b num.

Lemma wp_find_in X F L V num (Q : Z → world D → Prop) w :
  holds X F L V w →
  (∀ w', holds X F L V w' → w_blocks w' = w_blocks w → (∀ b, b ∈ L → ¬ has_num (w_blocks w') b num) → Q 0 w') →
  (∀ b L' w', holds X F L' V w' → L' ≡ₚ L → b ∈ L → has_num (w_blocks w') b num → w_blocks w' = w_blocks w → Q b w') →
  wp (find_block c num) Q w.
Proof.
  intros (R & Hp & Hc) H0 H1. eapply wp_find_block; [done| | | |].
  - rw -(Permutation_length Hp) length_app. lia.
  - intros b Hb. destruct (cd_block Hc b) as (k & ? & ? & _); [set_solver|]. by exists k.
  - intros t Hno. eapply H0; [by split_and!|done|done].
  - intros h t A b B -> Hn Rh. assert (A ++ B ++ [b] ≡ₚ A ++ b :: B) as E by (f_equiv; apply (Permutation_app_comm _ [b])).
    eapply (H1 b _ _ _ E); [set_solver|done|done]. Unshelve. split_and!; [done|by rw E|]. by eapply cached_perm; [|symmetry; exact E|exact Hc].
Qed.

Lemma wp_find X V num (Q : Z → world D → Prop) w :
  stands_for X V w →
  (∀ F L w', holds X F L V w' → w_blocks w' = w_blocks w → (∀ b, b ∈ L → ¬ has_num (w_blocks w') b num) → Q 0 w') →
  (∀ b w', cached_at X V b num w' → w_blocks w' = w_blocks w → Q b w') →
  wp (find_block c num) Q w.
Proof.
  intros (F & L & H) H0 H1. eapply wp_find_in; [done|eauto|]. intros b L' w' H' E Hb Hn. apply H1.
  split; [eapply (rings_node c F L'); [apply H'|by rw E]|]. exists F, L'. split_and!; [done|by rw E|done].
Qed.

(** The contents of a detached block become those of [num]. *)
Lemma attach X F L b k k' l num V s h K U t :
  rings c F (L ++ [b]) h → F ++ L ++ [b] ≡ₚ c_blocks c → cached n c r o d X ∅ (b :: F) L V s K U → K !! b = Some k →
  ptr k' = ptr k → blocknum k' = num → on_device num → 0 ≤ ref_count k' < 2 ^ 31 → zlen l = c_block_size c →
  (∀ b', b' ∈ L → ¬ has_num K b' num) → is_dirty k' = true ∨ l = device_block c r o s num →
  holds X F (L ++ [b]) (upd V num l) (World s h (<[b := k']> K) (<[ptr k := l]> U) t).
Proof.
  intros R Hp Hc Hk Ep En Hon Hr Hl Hno Hl'. pose proof (rings_nodup _ _ _ _ R) as Hnd.
  split_and!; [done|done|]. simpl. apply (cached_perm n c r o d _ _ F (b :: L)); [done|apply (Permutation_app_comm [b])|].
  eapply (cached_install n c r o d X X); try done; [| |set_solver| |tauto].
  - by rw app_assoc (Permutation_app_comm _ [b]) in Hnd.
  - destruct Hc as [A1 A2 A3 A4 A5 A6 A7 A8]. split; try done. intros x ? _. by apply A7; [|set_solver].
  - intros Hx. destruct (cd_open Hc b Hx) as [Hbl _]. rewrite app_assoc in Hnd. apply NoDup_app in Hnd as (_ & Hn & _).
    exfalso. apply (Hn b); set_solver.
Qed.
Lemma upd_id V num l : V num = l → ∀ x, upd V num l x = V x.
Proof. intros <- x. rw /upd. by case_decide; subst. Qed.

Lemma holds_ext X F L V V' w : (∀ x, V x = V' x) → holds X F L V w → holds X F L V' w.
Proof. intros E (? & ? & ?). split_and!; [done..|]. by eapply cached_ext. Qed.

(** A read of a whole block into a buffer of its size *)
Lemma wp_read_device s l addr num (Q : Z * list Z → bio D → Prop) :
  dev_at s n (c_dev c) r o → devs s !! c_dev c = Some d → on_device num → zlen l = c_block_size c →
  (∀ s', unchanged s s' → Q (c_block_size c, device_block c r o s num) s') →
  (∀ ret l' s', is_error ret → is_driver r → unchanged s s' → zlen l' = c_block_size c → Q (ret, l') s') →
  wp (bio_read CACHE_LINE n (c_dev c) l addr (s64 (u64 (num * c_block_size c))) (c_block_size c)) Q s.
Proof.
  intros Hat Hd Hon Hl H1 H0. destruct (dev_at_dev _ _ _ _ _ Hat) as (? & ? & Sh). simplify_eq. pose proof (total_bound d Sh) as Htb.
  destruct (on_device_offset c d Hfit _ Hon Htb) as (-> & Ho & Et). destruct (ft_size _ _ Hfit). destruct Hon as [? Hon].
  destruct (dev_at_range _ _ _ _ _ _ Hat Hd) as [? ?].
  eapply wp_mono; [eapply (wp_bio_read CACHE_LINE); [done|done|lia|nia|lia|by rw Et Hl]|].
  intros [ret l'] s'. rw Et. intros (Hu & Hlen & [[E1 E2]|[? ?]]); simpl in *; [|apply H0; [done..|congruence]].
  subst ret l'. rewrite splice_all; [by apply H1|].
  pose proof (length_slice (o + num * c_block_size c) (c_block_size c) (storage s r)). lia.
Qed.

Lemma wp_find_or_fill X V num (Q : Z → world D → Prop) w :
  stands_for X V w → on_device num → room w → calm w →
  (∀ b w', cached_at X V b num w' → keeps_refs w w' → Q b w') → (∀ w', is_driver r → Q 0 w') →
  wp (find_or_fill_block CACHE_LINE n c num) Q w.
Proof.
  intros H Hon Hroom Hcalm H1 H0. apply wp_bind. eapply wp_find; [done| |].
  2: { intros b w' Hb E. pose proof Hb as (Hb0 & F & L & _ & _ & k & Hk & Hn).
       rw (proj2 (Z.eqb_neq b 0)) //. apply wp_bind, wp_ret. rw (proj2 (Z.eqb_neq b 0)) //. apply wp_bind. eapply wp_deref; [done|].
       apply wp_bind, wp_assert; [by apply Z.eqb_eq|]. apply wp_ret, H1; [done|]. by apply keeps_refs_refl. }
  intros F L w1 H1' E1 Hno. simpl. apply wp_bind, wp_bind. eapply wp_alloc_block; [done|done| |].
  2: { intros w2 _ -> Hst _. exfalso. eapply room_not_stuck; [done|by rw /room E1|by rw /calm E1|done]. }
  intros F2 L2 b w2 Hb0 (R2 & Hp2 & Hc2 & k & Hk & Hr) Hnums Hrefs.
  apply wp_bind, wp_assert; [by rw (proj2 (Z.eqb_neq b 0))|]. apply wp_bind. eapply wp_deref; [done|]. apply wp_bind, wp_modify.
  destruct (cd_block Hc2 b) as (k' & l & Hk' & Hl & Hlen); [set_solver|]. simplify_eq.
  assert (∀ b', b' ∈ L2 → ¬ has_num (w_blocks w2) b' num) as Hno2 by (intros b' Hb' [? ?]%Hnums; [by eapply Hno|done]).
  apply wp_bind. eapply wp_deref; [done|]. apply wp_bind, wp_in_bio. simpl.
  eapply wp_read_device; [apply (cd_at Hc2)|apply (cd_dev Hc2)|done|done| |]; cbv beta iota.
  - intros s' Hu. apply wp_bind, wp_modify. destruct (ft_size _ _ Hfit). rw s32_small; [|lia]. rw (proj2 (Z.ltb_ge _ _)); [|lia].
    apply wp_bind, wp_modify, wp_ret. rw (proj2 (Z.eqb_neq b 0)) //. apply wp_bind. eapply wp_deref; [apply lookup_insert_eq|].
    apply wp_bind, wp_assert; [by apply Z.eqb_eq|]. apply wp_ret. apply H1.
    + assert (V num = device_block c r o (w_bio w2) num) as EV.
      { apply (cd_view Hc2); [done|set_solver|]. intros b' k' Hb' Hk' En. exfalso. apply (Hno2 b' Hb'). by exists k'. }
      assert (device_block c r o s' num = device_block c r o (w_bio w2) num) as Ed by (by rw /device_block (unchanged_storage _ _ _ Hu)).
      split; [done|]. exists F2, (L2 ++ [b]). split_and!; [|set_solver|eexists; split; [apply lookup_insert_eq|done]].
      eapply holds_ext; [by apply (upd_id V num)|]. eapply attach; try done; [by eapply cached_unchanged|simpl; lia| |right; by rw /= Ed].
      destruct (cached_range n c r o d (ft_size _ _ Hfit) _ _ _ _ _ _ _ _ _ Hc2 Hon) as (? & ? & ? & ? & ?).
      rw length_slice; lia.
    + eapply keeps_refs_trans; [by apply keeps_refs_refl|]. eapply keeps_refs_trans; [done|].
      eapply keeps_refs_insert; [done|reflexivity|by right].
  - intros ret l' s' Herr Hdr Hu Hlen'. apply wp_bind, wp_modify. rw s32_small; [|lia]. rw error_ltb //. apply wp_bind, wp_in_nodes.
    pose proof R2 as [RF RL Rd]. eapply wp_mono; [eapply wp_list_add_tail_any; [by apply dll_last| | |]|].
    + eapply dll_node; [exact RF|]. destruct (last F2) as [a|] eqn:El; simpl; [|by left]. right. by eapply last_Some_elem_of.
    + rw (dll_next _ _ L2 b [] RL). done.
    + intros ->. apply (Rd (free_list c)); set_solver.
    + intros [] h' _. apply wp_ret. simpl. by apply wp_ret, H0.
Qed.
(** ** Changing a cached block *)

Lemma cached_at_block X V b num w : cached_at X V b num w →
  ∃ k, w_blocks w !! b = Some k ∧ blocknum k = num ∧ w_bufs w !! ptr k = Some (V num) ∧ zlen (V num) = c_block_size c ∧
    on_device num ∧ 0 ≤ ref_count k < 2 ^ 31 ∧ (b ∈ X → 0 < ref_count k).
Proof.
  intros (_ & F & L & (_ & _ & Hc) & Hb & k & Hk & <-). destruct (cd_lru Hc b k Hb Hk) as (Hon & HU & Hr).
  destruct (cd_block Hc b) as (k' & l & ? & ? & ?); [set_solver|]. simplify_eq. exists k. split_and!; try done; [lia..|].
  intros [_ Hx]%(cd_open Hc). auto.
Qed.

Lemma cached_at_stands X V b num w : cached_at X V b num w → stands_for X V w.
Proof. intros (_ & F & L & H & _). by exists F, L. Qed.

Lemma cached_at_update X X' V b num k k' l w t :
  cached_at X V b num w → w_blocks w !! b = Some k → ptr k' = ptr k → blocknum k' = blocknum k → 0 ≤ ref_count k' < 2 ^ 31 →
  zlen l = c_block_size c → X ∖ {[ b ]} ⊆ X' → X' ⊆ X ∪ {[ b ]} → (b ∈ X' → 0 < ref_count k') →
  is_dirty k' = true ∨ b ∈ X' ∨ l = device_block c r o (w_bio w) num →
  cached_at X' (upd V num l) b num (World (w_bio w) (w_nodes w) (<[b := k']> (w_blocks w)) (<[ptr k := l]> (w_bufs w)) t).
Proof.
  intros (Hb0 & F & L & (R & Hp & Hc) & Hb & k1 & Hk1 & <-) Hk Ep En Hr Hl HX HX' Hrx Hl'. simplify_eq.
  split; [done|]. exists F, L. split_and!; [split_and!; [done|done|]|done|exists k'; split; [apply lookup_insert_eq|done]].
  eapply cached_update; try done. by eapply rings_nodup.
Qed.

Lemma cached_at_set X X' V b num k k' w t :
  cached_at X V b num w → w_blocks w !! b = Some k → ptr k' = ptr k → blocknum k' = blocknum k → 0 ≤ ref_count k' < 2 ^ 31 →
  X ∖ {[ b ]} ⊆ X' → X' ⊆ X ∪ {[ b ]} → (b ∈ X' → 0 < ref_count k') →
  is_dirty k' = true ∨ b ∈ X' ∨ is_dirty k = false ∧ b ∉ X →
  cached_at X' V b num (World (w_bio w) (w_nodes w) (<[b := k']> (w_blocks w)) (w_bufs w) t).
Proof.
  intros H Hk Ep En Hr HX HX' Hrx Hd. destruct (cached_at_block _ _ _ _ _ H) as (k1 & Hk1 & Hn & HU & Hl & Hon & _). simplify_eq.
  rewrite -{1}(insert_id (w_bufs w) (ptr k) _ HU).
  assert (cached_at X' (upd V (blocknum k) (V (blocknum k))) b (blocknum k) (World (w_bio w) (w_nodes w) (<[b := k']> (w_blocks w))
    (<[ptr k := V (blocknum k)]> (w_bufs w)) t)) as (Hb0 & F & L & Hh & Hb).
  { eapply cached_at_update; try done. destruct Hd as [?|[?|[Hd Hx]]]; [by left|by right; left|]. right. right.
    destruct H as (_ & F & L & (_ & _ & Hc) & Hb & _). apply (cd_view Hc); [done|set_solver|]. intros b' k1 Hb' Hk1' E.
    assert (b' = b) as -> by by eapply (cd_num Hc). by simplify_eq. }
  split; [done|]. exists F, L. split; [|done]. eapply holds_ext; [|done]. by apply upd_id.
Qed.

(** Finding a block that is known to be cached *)
Lemma wp_find_cached X V b num (Q : Z → world D → Prop) w :
  cached_at X V b num w → (∀ w', cached_at X V b num w' → w_blocks w' = w_blocks w → Q b w') → wp (find_block c num) Q w.
Proof.
  intros (Hb0 & F & L & H & Hb & k & Hk & Hn) HQ. pose proof H as (R & Hp & Hc). eapply wp_find_in; [done| |].
  - intros w' _ E Hno. exfalso. apply (Hno b Hb). exists k. by rw E.
  - intros b' L' w' H' EL Hb' (k' & Hk' & Hn') E. rw E in Hk'. assert (b' = b) as -> by (eapply (cd_num Hc); try done; congruence).
    apply HQ; [|done]. split; [done|]. exists F, L'. split_and!; [done|by rw EL|exists k; by rw E].
Qed.

(** ** The interface *)

Lemma wp_read_block X V num buf w :
  stands_for X V w → on_device num → room w → calm w → c_block_size c ≤ zlen buf →
  wp (bcache_read_block CACHE_LINE n c buf num) (λ res w',
    res.1 = 0 ∧ res.2 = splice 0 (V num) buf ∧ stands_for X V w' ∧ keeps_refs w w' ∨ res = (-1, buf) ∧ is_driver r) w.
Proof.
  intros H Hon Hroom Hcalm Hbuf. apply wp_bind. eapply wp_find_or_fill; try done; [|intros w' Hd; apply wp_ret; by right].
  intros b w' Hb Hrefs. destruct (cached_at_block _ _ _ _ _ Hb) as (k & Hk & _ & HU & Hl & _). pose proof Hb as [Hb0 _].
  rw (proj2 (Z.eqb_neq b 0)) //. apply wp_bind. eapply wp_deref; [done|]. apply wp_bind. eapply wp_deref; [done|].
  apply wp_bind. eapply wp_deref; [apply copy_out_slice; lia|]. rw -Hl slice_all.
  apply wp_bind. eapply wp_deref; [apply copy_in_splice; lia|]. apply wp_ret. left. split_and!; [done..|by eapply cached_at_stands|done].
Qed.

(** Nobody holds a block; only the holder of [b] holds one. *)
Definition idle w : Prop := ∀ b k, w_blocks w !! b = Some k → ref_count k = 0.

Definition held_only b w : Prop := ∀ b' k, w_blocks w !! b' = Some k → ref_count k = if decide (b' = b) then 1 else 0.

Lemma idle_keeps w w' : idle w → keeps_refs w w' → idle w'.
Proof. intros Hi Hk b k' [?|(k & Hb & ->)]%Hk; [done|by eapply Hi]. Qed.

Lemma wp_get_block X V num w :
  stands_for X V w → on_device num → room w → calm w → idle w →
  wp (bcache_get_block CACHE_LINE n c num) (λ res w',
    (∃ b k, res = (0, ptr k) ∧ w_blocks w' !! b = Some k ∧ cached_at X V b num w' ∧ held_only b w') ∨ res = (-1, 0) ∧ is_driver r) w.
Proof.
  intros H Hon Hroom Hcalm Hi. apply wp_bind. eapply wp_find_or_fill; try done; [|intros w' Hd; apply wp_ret; by right].
  intros b w' Hb Hrefs. pose proof (idle_keeps _ _ Hi Hrefs) as Hi'. pose proof Hb as [Hb0 _].
  destruct (cached_at_block _ _ _ _ _ Hb) as (k & Hk & _ & _ & _ & _ & _ & Hx). pose proof (Hi' b k Hk) as Hr.
  rw (proj2 (Z.eqb_neq b 0)) //. apply wp_bind. eapply wp_deref; [done|]. apply wp_bind, wp_modify, wp_ret. left.
  rw Hr. exists b, (set_ref_count 1 k). split_and!; [done|apply lookup_insert_eq| |].
  - eapply (cached_at_set X X); try done; [set_solver..|]. destruct (decide (b ∈ X)) as [?|?]; [by right; left|]. simpl. destruct (is_dirty k); auto.
  - intros b' k'. simpl. intros [[<- <-]|[? ?]]%lookup_insert_Some; [by rw decide_True|]. rw decide_False //. by eapply Hi'.
Qed.

Lemma wp_write_ptr X V b k l num w :
  cached_at X V b num w → w_blocks w !! b = Some k → held_only b w → zlen l = c_block_size c →
  wp (write_ptr (ptr k) l) (λ _ w', cached_at ({[ b ]} ∪ X) (upd V num l) b num w' ∧ w_blocks w' = w_blocks w) w.
Proof.
  intros H Hk Hh Hl. destruct (cached_at_block _ _ _ _ _ H) as (k1 & Hk1 & Hn & HU & _ & _ & Hr & _). simplify_eq.
  apply wp_bind. eapply wp_deref; [done|]. apply wp_modify. split; [|done].
  pose proof (Hh b k Hk) as Hr1. rw decide_True // in Hr1. rewrite -{1}(insert_id (w_blocks w) b k Hk).
  eapply cached_at_update; try done; [set_solver|set_solver|lia|right; left; set_solver].
Qed.

Lemma wp_mark_dirty X V b k num w :
  cached_at X V b num w → w_blocks w !! b = Some k →
  wp (bcache_mark_block_dirty c num) (λ ret w', ret = 0 ∧ cached_at (X ∖ {[ b ]}) V b num w' ∧
    w_blocks w' = <[b := set_is_dirty true k]> (w_blocks w)) w.
Proof.
  intros H Hk. apply wp_bind. eapply wp_find_cached; [done|]. intros w' Hb E. pose proof Hb as [Hb0 _].
  destruct (cached_at_block _ _ _ _ _ Hb) as (k1 & Hk1 & _ & _ & _ & _ & Hr & _). rewrite E in Hk1. simplify_eq.
  rw (proj2 (Z.eqb_neq b 0)) //. apply wp_bind. eapply wp_deref; [by rw E|]. apply wp_bind, wp_modify, wp_ret.
  split_and!; [done| |by rw /= E]. apply (cached_at_set X _ _ _ _ k); try done; [by rw E|set_solver|set_solver|by left].
Qed.

Lemma wp_put_block X V b num w :
  cached_at X V b num w → held_only b w → b ∉ X →
  wp (bcache_put_block c num) (λ ret w', ret = 0 ∧ stands_for X V w' ∧ idle w') w.
Proof.
  intros H Hh Hx. apply wp_bind. eapply wp_find_cached; [done|]. intros w' Hb E. pose proof Hb as [Hb0 _].
  destruct (cached_at_block _ _ _ _ _ Hb) as (k & Hk & _ & _ & _ & _ & Hr & _). assert (w_blocks w !! b = Some k) as Hk0 by by rw -E.
  pose proof (Hh b k Hk0) as Hr1. rw decide_True // in Hr1.
  apply wp_bind, wp_assert; [by rw (proj2 (Z.eqb_neq b 0))|]. apply wp_bind. eapply wp_deref; [done|]. apply wp_bind, wp_assert; [by rw Hr1|].
  apply wp_bind, wp_modify, wp_ret. split_and!; [done| |].
  - eapply cached_at_stands, (cached_at_set X X); try done; [simpl; lia|set_solver..|]. simpl. destruct (is_dirty k); auto.
  - intros b' k'. simpl. intros [[<- <-]|[? Hk']]%lookup_insert_Some; [by rw /= Hr1|]. rewrite E in Hk'. rw (Hh b' k' Hk') decide_False //.
Qed.
Definition zeros : list Z := replicate (Z.to_nat (c_block_size c)) 0.

Lemma zeros_length : zlen zeros = c_block_size c.
Proof. rw length_replicate. pose proof (ft_size _ _ Hfit). lia. Qed.

Lemma wp_zero_block X V num w :
  stands_for X V w → on_device num →
  wp (bcache_zero_block CACHE_LINE n c num) (λ ret w', keeps_refs w w' ∧
    (ret = 0 ∧ stands_for X (upd V num zeros) w' ∨ ret = -1 ∧ stands_for X V w' ∧ (room w → ¬ calm w))) w.
Proof.
  intros H Hon. pose proof zeros_length as Hz. apply wp_bind. eapply wp_find; [done| |].
  - intros F L w1 H1 E1 Hno. simpl. apply wp_bind, wp_bind. eapply wp_alloc_block; [done|done| |].
    + intros F2 L2 b w2 Hb0 (R2 & Hp2 & Hc2 & k & Hk & Hr) Hnums Hrefs. rw (proj2 (Z.eqb_neq b 0)) //.
      destruct (cd_block Hc2 b) as (k' & l & Hk' & Hl & Hlen); [set_solver|]. simplify_eq.
      apply wp_bind. eapply wp_deref; [done|]. apply wp_bind, wp_modify, wp_ret. rw (proj2 (Z.eqb_neq b 0)) //.
      apply wp_bind. eapply wp_deref; [apply lookup_insert_eq|]. apply wp_bind. eapply wp_deref; [done|]. apply wp_bind.
      eapply wp_deref; [apply copy_in_splice; rw -/zeros; lia|]. rw -/zeros splice_all; [|lia]. apply wp_bind, wp_modify, wp_bind, wp_modify, wp_ret.
      split.
      * eapply keeps_refs_trans; [by apply keeps_refs_refl|]. eapply keeps_refs_trans; [done|].
        eapply (keeps_refs_insert _ _ b k (set_is_dirty true (set_blocknum num k))); [done| |by right]. simpl. by rw insert_insert_eq.
      * left. split; [done|]. exists F2, (L2 ++ [b]). simpl. rw insert_insert_eq. eapply attach; try done; [simpl; lia| |by left].
        intros b' Hb' [? ?]%Hnums; [by eapply Hno|done].
    + intros w2 H2 -> Hst Hrefs. apply wp_ret. simpl. apply wp_ret.
      split; [eapply keeps_refs_trans; [by apply keeps_refs_refl|done]|]. right. split_and!; [done|by eexists _, _|].
      intros Hroom Hcalm. eapply (room_not_stuck X L V w1); [done|by rw /room E1|by rw /calm E1|done].
  - intros b w1 Hb E1. pose proof Hb as [Hb0 _]. rw (proj2 (Z.eqb_neq b 0)) //. apply wp_bind, wp_ret. rw (proj2 (Z.eqb_neq b 0)) //.
    destruct (cached_at_block _ _ _ _ _ Hb) as (k & Hk & Hn & HU & Hl & _ & Hr & Hx).
    apply wp_bind. eapply wp_deref; [done|]. apply wp_bind. eapply wp_deref; [done|]. apply wp_bind.
    eapply wp_deref; [apply copy_in_splice; rw -/zeros; lia|]. rw -/zeros splice_all; [|lia]. apply wp_bind, wp_modify, wp_bind, wp_modify, wp_ret.
    split; [eapply (keeps_refs_insert w _ b k); [by rw -E1|by rw /= E1|by right]|].
    left. split; [done|]. eapply cached_at_stands, (cached_at_update X X V b num k _ zeros w1); try done; [set_solver|set_solver|by left].
Qed.

(** ** Flushing *)

Definition clean L w : Prop := ∀ b k, b ∈ L → w_blocks w !! b = Some k → is_dirty k = false.

Lemma wp_flush_loop fuel X F L1 L2 V (Q : Z → world D → Prop) w :
  holds X F (L1 ++ L2) V w → (length L2 ≤ fuel)%nat → clean L1 w →
  (∀ w', holds X F (L1 ++ L2) V w' → clean (L1 ++ L2) w' → keeps_refs w w' → Q 0 w') →
  (∀ rc w', rc < 0 → is_driver r → holds X F (L1 ++ L2) V w' → keeps_refs w w' → Q rc w') →
  wp (flush_loop CACHE_LINE fuel n c (default (lru_list c) (head L2))) Q w.
Proof.
  revert fuel L1 w. induction L2 as [|b L2 IH]; intros fuel L1 w H Hf Hcl H0 H1; simpl.
  { assert (flush_loop CACHE_LINE fuel n c (lru_list c) = (mret 0 : M (world D) Z)) as -> by (destruct fuel; simpl; by rw Z.eqb_refl).
    apply wp_ret, H0; [done|by rw app_nil_r|by apply keeps_refs_refl]. }
  destruct fuel as [|fuel]; simpl in Hf; [lia|]. simpl. pose proof H as (R & Hp & Hc).
  destruct (rings_node _ _ _ _ b R) as [Hb _]; [set_solver|]. rw (proj2 (Z.eqb_neq _ _) Hb).
  destruct (cd_block Hc b) as (k & l & Hk & _); [set_solver|]. apply wp_bind. eapply wp_deref; [done|].
  assert (∀ w', holds X F (L1 ++ b :: L2) V w' → clean (L1 ++ [b]) w' → keeps_refs w w' →
    wp (next ← in_nodes (load_next b); flush_loop CACHE_LINE fuel n c next) Q w') as Hnext.
  { intros w' H' Hcl' Hr'. apply wp_bind, wp_in_nodes. destruct H' as (R' & Hrest).
    eapply wp_load_next; [by apply (dll_next _ _ _ _ _ (rg_lru _ _ _ _ R'))|]. replace (with_nodes (w_nodes w') w') with w' by by destruct w'.
    assert (holds X F (L1 ++ b :: L2) V w') as H' by by split. rw (cons_middle b L1 L2) app_assoc in H' H0 H1.
    eapply (IH fuel (L1 ++ [b])); [done|lia|done|..].
    - intros w2 ? ? ?. apply H0; [done..|by eapply keeps_refs_trans].
    - intros rc w2 ? ? ? ?. apply H1; [done..|by eapply keeps_refs_trans]. }
  apply wp_bind. destruct (is_dirty k) eqn:Hd; [eapply wp_flush_block; [done|by eapply rings_nodup|done|set_solver|done|done|..]|].
  - intros s t Hc'. apply Hnext; [by split_and!| |by eapply keeps_refs_insert; [exact Hk|reflexivity|right]].
    intros b' k' Hb'. simpl. intros [[<- <-]|[? ?]]%lookup_insert_Some; [done|]. eapply Hcl; [|done]. set_solver.
  - intros s rc Hrc Hdr Hc'. rw (proj2 (Z.eqb_neq rc 0)); [|lia]. apply wp_ret, H1; [done|done|by split_and!|by apply keeps_refs_refl].
  - apply wp_ret, Hnext; [done| |by apply keeps_refs_refl].
    intros b' k' [?| ->%list_elem_of_singleton]%elem_of_app ?; [by eapply Hcl|by simplify_eq].
Qed.

Lemma wp_flush X V w :
  stands_for X V w →
  wp (bcache_flush CACHE_LINE n c) (λ ret w', stands_for X V w' ∧ keeps_refs w w' ∧
    (ret = 0 ∧ (X = ∅ → ∀ num, on_device num → device_block c r o (w_bio w') num = V num) ∨ ret < 0 ∧ is_driver r)) w.
Proof.
  intros (F & L & H). pose proof H as (R & Hp & Hc). apply wp_bind, wp_in_nodes.
  eapply wp_load_next; [by apply dll_head, (rg_lru _ _ _ _ R)|]. replace (with_nodes (w_nodes w) w) with w by by destruct w.
  eapply (wp_flush_loop _ X F []); [done| |by intros ? ? ?%elem_of_nil|..].
  - rw -(Permutation_length Hp) length_app. lia.
  - intros w' H' Hcl Hr. split_and!; [by exists F, L|done|]. left. split; [done|]. intros -> num Hon. symmetry.
    destruct H' as (_ & _ & Hc'). apply (cd_view Hc'); [done|set_solver|]. intros b k Hb Hk _. split; [by eapply Hcl|set_solver].
  - intros rc w' ? ? ? ?. split_and!; [by exists F, L|done|by right].
Qed.
End ops.
