(* ===== verification/BcacheSeq.v ===== *)
(** * The block cache: creation, and sequences of calls

    A new cache stands for the contents of its device.  Any sequence of calls on a
    cache over memory gives what the same calls on a plain array of blocks give. *)

From S2P Require Import Prelude ListH Bits Bytes Bio BioSpec BioBytes BioApi BioReg.
From S2P Require Import Bcache BcacheData BcacheSpec BcacheOps.

Section seq.
Context {D : Type} `{!BlockDriver D, !BlockDriverLaws D} (CACHE_LINE : Z).

Abbreviation C := (M (world D)).

(** ** Creation *)

(** The memory that a cache is made of: nodes, blocks and buffers at distinct
    addresses, with any contents. *)
Record allocated (free lru : Z) (blocks : list Z) (bs : Z) (w : world D) : Prop := {
  al_nodup : NoDup (free :: lru :: blocks);
  al_null : 0 ∉ free :: lru :: blocks;
  al_node a : a ∈ free :: lru :: blocks → is_Some (w_nodes w !! a);
  al_block b : b ∈ blocks → ∃ k l, w_blocks w !! b = Some k ∧ w_bufs w !! ptr k = Some l ∧ zlen l = bs;
  al_ptr b b' k k' : b ∈ blocks → b' ∈ blocks → w_blocks w !! b = Some k → w_blocks w !! b' = Some k' → ptr k = ptr k' → b = b'
}.

Lemma wp_list_initialize a (h : heap) :
  is_Some (h !! a) → a ≠ 0 → wp (list_initialize a) (λ _ h', dll h' a [] ∧ frame [a] h h') h.
Proof.
  intros [x Hx] Ha. assert (nxt h a = Some (next x)) as Hn by by rw /nxt Hx. assert (prv h a = Some (prev x)) as Hp by by rw /prv Hx.
  rw /list_initialize. heap_step. heap_step; [by rw Hn|]. heap_step; [heap_simpl; by rw Hp|].
  split; [split_and!; [apply NoDup_singleton|set_solver|split; [|done]; split; heap_simpl]|].
  - by rw decide_True // Hn.
  - by rw decide_True // Hp.
  - intros b Hb. rw /set_next /set_prev !lookup_alter_ne //; set_solver.
Qed.

Definition fresh (k k' : bcache_block) : Prop := ptr k' = ptr k ∧ ref_count k' = 0.

Lemma wp_init_blocks free lru F l (w : world D) (Q : unit → world D → Prop) :
  NoDup (free :: lru :: F ++ l) → 0 ∉ l → dll (w_nodes w) free F → dll (w_nodes w) lru [] →
  (∀ b, b ∈ l → is_Some (nxt (w_nodes w) b) ∧ is_Some (w_blocks w !! b)) →
  (∀ h K, dll h free (reverse l ++ F) → dll h lru [] →
    (∀ b, b ∉ l → K !! b = w_blocks w !! b) → (∀ b, b ∈ l → ∃ k k', w_blocks w !! b = Some k ∧ K !! b = Some k' ∧ fresh k k') →
    Q () (World (w_bio w) h K (w_bufs w) (w_stats w))) →
  wp (init_blocks free l) Q w.
Proof.
  revert F w. induction l as [|b l IH]; intros F w Hnd H0 RF RL Hb HQ; simpl.
  - apply wp_ret. specialize (HQ (w_nodes w) (w_blocks w) RF RL). destruct w. apply HQ; set_solver.
  - destruct (Hb b) as [Hsn [k Hk]]; [set_solver|]. apply wp_bind. eapply wp_deref; [done|]. apply wp_bind, wp_modify, wp_bind, wp_in_nodes.
    rw -Permutation_middle in Hnd. apply NoDup_cons in Hnd as [Hf [Hl Hnd]%NoDup_cons]. pose proof Hnd as [Hbn (_ & Hdis & _)%NoDup_app]%NoDup_cons.
    eapply wp_mono; [apply wp_list_add_head; [done|set_solver|set_solver|done]|]. intros [] h' [RF' Hfr].
    apply (IH (b :: F)); [apply NoDup_cons; split; [set_solver|]; apply NoDup_cons; split; [set_solver|done]|set_solver|done| | |].
    + eapply dll_frame; [exact RL|exact Hfr|]. intros a ->%list_elem_of_singleton. set_solver.
    + intros b' Hb'. destruct (Hb b') as [[x Hx] [k' Hk']]; [set_solver|]. simpl.
      assert (b' ≠ b) by (intros ->; apply Hbn, elem_of_app; by right).
      assert (b' ∉ b :: free :: F) as Hnin.
      { intros [?|[->|?]%elem_of_cons]%elem_of_cons; [done|apply Hf; mem|by eapply Hdis]. }
      split; [rw /nxt Hfr //; by eexists|]. by rw lookup_insert_ne.
    + simpl. intros h K RF2 RL2 Hother Hin. rw reverse_cons -app_assoc in HQ. apply HQ; [done|done| |].
      * intros b' Hb'. rw Hother; [|set_solver]. by rw lookup_insert_ne; [|set_solver].
      * intros b' [->|Hb']%elem_of_cons.
        -- exists k. rw Hother; [|set_solver]. rw lookup_insert_eq. by eexists.
        -- destruct (Hin b' Hb') as (k1 & k2 & Hk1 & Hk2 & ?). rw lookup_insert_ne in Hk1; [|set_solver]. by exists k1, k2.
Qed.

Context (n : nat) (r : root) (o : Z) (d : bdev).

Lemma wp_bcache_create dev bs free lru blocks (w : world D) :
  dev_at (w_bio w) n dev r o → devs (w_bio w) !! dev = Some d → allocated free lru blocks bs w →
  wp (bcache_create dev bs (Z.of_nat (length blocks)) free lru blocks) (λ c w',
    c = Bcache dev bs (Z.of_nat (length blocks)) free lru blocks ∧
    stands_for n c r o d ∅ (device_block c r o (w_bio w)) w' ∧
    w_bio w' = w_bio w ∧ ∀ b k, b ∈ blocks → w_blocks w' !! b = Some k → ref_count k = 0) w.
Proof.
  intros Hat Hd [Hnd H0 Hn Hb Hp]. pose proof Hnd as [Hfl [Hlb _]%NoDup_cons]%NoDup_cons.
  apply wp_bind, wp_modify, wp_bind, wp_in_nodes. eapply wp_mono; [apply wp_list_initialize; [apply Hn; set_solver|set_solver]|].
  intros [] h1 [RF Hf1]. apply wp_bind, wp_in_nodes.
  eapply wp_mono; [apply wp_list_initialize; [rw /= Hf1; [apply Hn|]; set_solver|set_solver]|]. intros [] h2 [RL Hf2]. simpl in *.
  apply wp_bind. rw Nat2Z.id firstn_all. apply (wp_init_blocks free lru []); simpl; [done|set_solver| |done| |].
  - eapply dll_frame; [exact RF|exact Hf2|]. intros a ->%list_elem_of_singleton. set_solver.
  - intros b Hbb. split; [|destruct (Hb b Hbb) as (k & _ & ? & _); by exists k].
    rw /nxt Hf2; [|set_solver]. rw Hf1; [|set_solver]. destruct (Hn b) as [x ->]; [set_solver|by eexists].
  - intros h K RF' RL' _ HK. apply wp_ret. rw app_nil_r in RF'.
    assert (∀ b k', b ∈ blocks → K !! b = Some k' → ∃ k, w_blocks w !! b = Some k ∧ fresh k k') as HK'.
    { intros b k' Hbb Hk'. destruct (HK b Hbb) as (k & k1 & ? & ? & ?). simplify_eq. by exists k. }
    split_and!; [done| |done|intros b k' Hbb Hk'; destruct (HK' b k' Hbb Hk') as (? & _ & _ & ?); done].
    exists (reverse blocks), []. split_and!; [split; [done|done|]|by rw app_nil_r reverse_Permutation|].
    + intros a Ha ->%list_elem_of_singleton. apply elem_of_cons in Ha as [?|?%elem_of_reverse]; set_solver.
    + assert (∀ b, b ∈ reverse blocks ++ [] ↔ b ∈ blocks) as E by (intros b; by rw app_nil_r elem_of_reverse).
      split; try done; [| |by intros ? ? ? ? ?%elem_of_nil|by intros ? ? ?%elem_of_nil].
      * intros b. rw E. intros Hbb. destruct (HK b Hbb) as (k & k' & Hk & Hk' & Ep & _). destruct (Hb b Hbb) as (? & l & ? & ? & ?). simplify_eq.
        exists k', l. by rw Ep.
      * intros b b' k k'. rw !E. intros H1 H2 (k1 & ? & E1 & _)%HK' (k2 & ? & E2 & _)%HK'; [|done..]. intros. eapply Hp; try done. congruence.
Qed.

(** ** Sequences of calls *)

Context (c : bcache) (Hfit : fits c d).

(** How the holder of a block changes it *)
Definition write_block (num : Z) (l : list Z) : C Z :=
  '(ret, p) ← bcache_get_block CACHE_LINE n c num;
  if negb (ret =? 0) then mret ret
  else
    write_ptr p l;;
    ret ← bcache_mark_block_dirty c num;
    if negb (ret =? 0) then mret ret else bcache_put_block c num.

Inductive call := Read (num : Z) (buf : list Z) | Write (num : Z) (l : list Z) | Zero (num : Z) | Flush.

Definition run_call (op : call) : C (Z * list Z) :=
  match op with
  | Read num buf => bcache_read_block CACHE_LINE n c buf num
  | Write num l => ret ← write_block num l; mret (ret, [])
  | Zero num => ret ← bcache_zero_block CACHE_LINE n c num; mret (ret, [])
  | Flush => ret ← bcache_flush CACHE_LINE n c; mret (ret, [])
  end.

Fixpoint run_calls (ops : list call) : C (list (Z * list Z)) :=
  match ops with
  | [] => mret []
  | op :: ops => res ← run_call op; rest ← run_calls ops; mret (res :: rest)
  end.

(** The same on an array of blocks *)
Definition spec_call (op : call) (V : Z → list Z) : (Z * list Z) * (Z → list Z) :=
  match op with
  | Read num buf => ((0, splice 0 (V num) buf), V)
  | Write num l => ((0, []), upd V num l)
  | Zero num => ((0, []), upd V num (zeros c))
  | Flush => ((0, []), V)
  end.

Fixpoint spec_calls (ops : list call) (V : Z → list Z) : list (Z * list Z) * (Z → list Z) :=
  match ops with
  | [] => ([], V)
  | op :: ops =>
      let '(res, V) := spec_call op V in
      let '(rest, V) := spec_calls ops V in (res :: rest, V)
  end.

Definition call_ok (op : call) : Prop :=
  match op with
  | Read num buf => on_device c d num ∧ c_block_size c ≤ zlen buf
  | Write num l => on_device c d num ∧ zlen l = c_block_size c
  | Zero num => on_device c d num
  | Flush => True
  end.

Context (Hmem : ¬ is_driver r) (Hsome : c_blocks c ≠ []).

Abbreviation ready := (λ V w, stands_for n c r o d ∅ V w ∧ idle w).

Lemma ready_room V (w : world D) : ready V w → room c w ∧ calm c r w.
Proof.
  intros [(F & L & R & Hp & Hc) Hi]. destruct (c_blocks c) as [|b l] eqn:E; [done|].
  destruct (cd_block Hc b) as (k & _ & Hk & _); [rw Hp; by left|]. split; [|by intros ?]. exists b, k. rw E. split_and!; [by left|done|by eapply Hi].
Qed.

Lemma wp_write_block V num l (w : world D) :
  ready V w → on_device c d num → zlen l = c_block_size c →
  wp (write_block num l) (λ ret w', ret = 0 ∧ ready (upd V num l) w') w.
Proof.
  intros Hr Hon Hl. destruct (ready_room V w Hr) as [Hroom Hcalm]. destruct Hr as [H Hi].
  apply wp_bind. eapply wp_mono; [by eapply wp_get_block|]. intros res w1 [(b & k & -> & Hk & Hb & Hh)|[_ ?]]; [|done]. simpl.
  apply wp_bind. eapply wp_mono; [by eapply wp_write_ptr|]. intros [] w2 [Hb2 E2].
  apply wp_bind. eapply wp_mono; [by eapply wp_mark_dirty; [..|by rw E2]|]. intros ret w3 (-> & Hb3 & E3). simpl.
  assert (∀ b' k', w_blocks w3 !! b' = Some k' → ∃ k1, w_blocks w1 !! b' = Some k1 ∧ ref_count k' = ref_count k1) as Hrefs.
  { intros b' k'. rw E3 E2. intros [[<- <-]|[? ?]]%lookup_insert_Some; [by exists k|by exists k']. }
  eapply wp_mono; [eapply wp_put_block; [done|done| |set_solver]|].
  - intros b' k' (k1 & Hk1 & ->)%Hrefs. by apply Hh.
  - intros ret w4 (-> & H4 & ?). split_and!; [done| |done]. by rw (_ : ({[b]} ∪ ∅) ∖ {[b]} = ∅ :> gset Z) in H4; [|set_solver].
Qed.

Lemma wp_run_call op V (w : world D) :
  ready V w → call_ok op → wp (run_call op) (λ res w', res = (spec_call op V).1 ∧ ready (spec_call op V).2 w') w.
Proof.
  intros Hr Hok. destruct (ready_room V w Hr) as [Hroom Hcalm]. pose proof Hr as [H Hi]. destruct op as [num buf|num l|num|]; simpl in *.
  - destruct Hok. eapply wp_mono; [by eapply wp_read_block|]. intros [ret l] w' [(? & ? & ? & ?)|[_ ?]]; [|done].
    split_and!; [by simpl in *; subst|done|by eapply idle_keeps].
  - destruct Hok. apply wp_bind. eapply wp_mono; [by apply wp_write_block|]. intros ret w' [-> ?]. by apply wp_ret.
  - apply wp_bind. eapply wp_mono; [by eapply wp_zero_block|]. intros ret w' [? [[-> ?]|(_ & _ & Hno)]]; [|by destruct Hno].
    apply wp_ret. split_and!; [done|done|by eapply idle_keeps].
  - apply wp_bind. eapply wp_mono; [by eapply wp_flush|]. intros ret w' (? & ? & [[-> _]|[_ ?]]); [|done].
    apply wp_ret. split_and!; [done|done|by eapply idle_keeps].
Qed.

Lemma wp_run_calls ops V (w : world D) :
  ready V w → Forall call_ok ops →
  wp (run_calls ops) (λ res w', res = (spec_calls ops V).1 ∧ ready (spec_calls ops V).2 w') w.
Proof.
  intros H Hok. revert V w H. induction Hok as [|op ops Hop _ IH]; intros V w H; simpl; [by apply wp_ret|].
  apply wp_bind. eapply wp_mono; [by apply wp_run_call|]. intros res w1 [-> H1]. destruct (spec_call op V) as [res V1]. simpl in *.
  apply wp_bind. eapply wp_mono; [by apply IH|]. intros rest w2 [-> H2]. destruct (spec_calls ops V1) as [rest V2]. by apply wp_ret.
Qed.
End seq.

Section interface.
Context {D : Type} `{!BlockDriver D, !BlockDriverLaws D} (CACHE_LINE : Z).
Context (n : nat) (r : root) (o : Z) (d : bdev).

(** [bcache_create] gives a cache that stands for the contents of its device and
    of which nobody holds a block. *)
Theorem bcache_create_spec dev bs free lru blocks (w : world D) :
  dev_at (w_bio w) n dev r o → devs (w_bio w) !! dev = Some d → allocated free lru blocks bs w →
  wp (bcache_create dev bs (Z.of_nat (length blocks)) free lru blocks) (λ c w',
    c = Bcache dev bs (Z.of_nat (length blocks)) free lru blocks ∧
    stands_for n c r o d ∅ (device_block c r o (w_bio w)) w' ∧
    w_bio w' = w_bio w ∧ ∀ b k, b ∈ blocks → w_blocks w' !! b = Some k → ref_count k = 0) w.
Proof. apply wp_bcache_create. Qed.

(** [bcache_read_block] gives the caller the contents of the block, from the cache
    or from the device, and changes none; it fails only when the driver does. *)
Theorem bcache_read_block_spec c X V num buf (w : world D) :
  fits c d → stands_for n c r o d X V w → on_device c d num → room c w → calm c r w → c_block_size c ≤ zlen buf →
  wp (bcache_read_block CACHE_LINE n c buf num) (λ res w',
    res.1 = 0 ∧ res.2 = splice 0 (V num) buf ∧ stands_for n c r o d X V w' ∧ keeps_refs w w' ∨ res = (-1, buf) ∧ is_driver r) w.
Proof. intros. by apply wp_read_block. Qed.

(** After [bcache_flush] has returned 0 the device holds every block as the cache
    has it; when the driver fails, nothing that the cache stands for is lost. *)
Theorem bcache_flush_spec c V (w : world D) :
  fits c d → stands_for n c r o d ∅ V w →
  wp (bcache_flush CACHE_LINE n c) (λ ret w', stands_for n c r o d ∅ V w' ∧
    (ret = 0 ∧ (∀ num, on_device c d num → device_block c r o (w_bio w') num = V num) ∨ ret < 0 ∧ is_driver r)) w.
Proof. intros Hfit H. eapply wp_mono; [by eapply wp_flush|]. intros ret w' (? & _ & [[? ?]|?]); auto. Qed.
End interface.
