(* ===== verification/BcacheRun.v ===== *)
(** * The block cache: concrete runs *)

From S2P Require Import Prelude ListH Bits Bytes Bio BioSpec BioBytes BioApi BioReg BioRun.
From S2P Require Import Bcache BcacheData BcacheSpec BcacheOps BcacheSeq.

(** A memory device of two blocks, and memory for a cache of one. *)
Definition mem : bdev := set_ref 1 (mem_dev "mem" 5 1024 None).

Definition bio_mem : bio (gmap positive (list Z)) := Bio {[ 1%positive := mem ]} [1%positive] {[ 5%positive := replicate 1024 7 ]} ∅.

Definition heap_of (l : list Z) : heap := list_to_map ((λ a, (a, ListNode 0 0)) <$> l).

Definition world_mem : world (gmap positive (list Z)) :=
  World bio_mem (heap_of [10; 20; 30]) {[ 30 := BcacheBlock 77 5 true 300 ]} {[ 300 := replicate 512 9 ]} (BcacheStats 0 0 0 0 0).

Definition cache_mem : bcache := Bcache 1 512 1 10 20 [30].

Lemma mem_at : dev_at bio_mem 0 1 (RMem 5) 0.
Proof. by eapply at_mem. Qed.

Lemma world_mem_allocated : allocated 10 20 [30] 512 world_mem.
Proof.
  split.
  - by apply (bool_decide_unpack (NoDup [10; 20; 30])).
  - by apply (bool_decide_unpack (0 ∉ [10; 20; 30])).
  - intros a [->|[->|[->|?%elem_of_nil]%elem_of_cons]%elem_of_cons]%elem_of_cons; by exists (ListNode 0 0).
  - intros b ->%list_elem_of_singleton. exists (BcacheBlock 77 5 true 300), (replicate 512 9). by split_and!.
  - by intros b b' k k' ->%list_elem_of_singleton ->%list_elem_of_singleton.
Qed.

Lemma bcache_create_spec_witness :
  wp (bcache_create 1 512 1 10 20 [30])
    (λ c w', c = cache_mem ∧ stands_for 0 c (RMem 5) 0 mem ∅ (device_block c (RMem 5) 0 bio_mem) w') world_mem.
Proof.
  eapply wp_mono; [apply (bcache_create_spec 0 (RMem 5) 0 mem 1 512 10 20 [30] world_mem)|].
  - apply mem_at.
  - reflexivity.
  - apply world_mem_allocated.
  - intros c w' (-> & ? & _). by split.
Defined.

(** The world after creation *)
Definition world_new : world (gmap positive (list Z)) :=
  World bio_mem (<[30 := ListNode 10 10]> (<[20 := ListNode 20 20]> (<[10 := ListNode 30 30]> ∅)))
    {[ 30 := BcacheBlock 77 0 false 300 ]} {[ 300 := replicate 512 9 ]} (BcacheStats 0 0 0 0 0).

Lemma world_new_ok : stands_for 0 cache_mem (RMem 5) 0 mem ∅ (device_block cache_mem (RMem 5) 0 bio_mem) world_new.
Proof.
  pose proof (wp_bcache_create 0 (RMem 5) 0 mem 1 512 10 20 [30] world_mem mem_at eq_refl world_mem_allocated) as H.
  assert (bcache_create 1 512 1 10 20 [30] world_mem = Some (cache_mem, world_new)) as E by (vm_compute; reflexivity).
  rewrite /wp E in H. by destruct H as (_ & H & _).
Qed.

Lemma fits_mem : fits cache_mem mem.
Proof. split; [split; reflexivity|]. by exists 1. Qed.

Lemma idle_new : idle world_new.
Proof. intros b k. simpl. intros [<- <-]%lookup_singleton_Some. reflexivity. Qed.


Lemma bcache_read_block_spec_witness :
  wp (bcache_read_block 64 0 cache_mem (replicate 512 0) 1) (λ res w', res = (0, replicate 512 7)) world_new.
Proof.
  eapply wp_mono; [apply (bcache_read_block_spec 64 0 (RMem 5) 0 mem cache_mem ∅ _ 1 (replicate 512 0) world_new fits_mem world_new_ok)|].
  - split; vm_compute; discriminate.
  - exists 30, (BcacheBlock 77 0 false 300). split_and!; [by left|reflexivity|reflexivity].
  - intros [].
  - discriminate.
  - intros [ret l] w' [(? & ? & _)|[_ []]]. simpl in *. subst. reflexivity.
Defined.

Lemma bcache_flush_spec_witness :
  wp (bcache_flush 64 0 cache_mem) (λ ret w', ret = 0) world_new.
Proof.
  eapply wp_mono; [apply (bcache_flush_spec 64 0 (RMem 5) 0 mem cache_mem _ world_new fits_mem world_new_ok)|].
  intros ret w' [_ [[? _]|[_ []]]]. done.
Defined.

(** ** At the limits *)

(** A block past the end of the device: the short read is not noticed, and the
    caller gets what the block held before. *)
Lemma read_past_end :
  wp (bcache_read_block 64 0 cache_mem (replicate 512 0) 0;; bcache_read_block 64 0 cache_mem (replicate 512 0) 99)
    (λ res _, res = (0, replicate 512 7)) world_new.
Proof. vm_compute. reflexivity. Qed.

(** A driver whose blocks from 4 on cannot be read. *)
Definition bad_driver : BlockDriver (gmap positive (list Z)) := {|
  drv_read_block u b n m := if 4 <=? b then (ERR_IO, [], m) else drv_read_block u b n m;
  drv_write_block u b n buf m := drv_write_block u b n buf m;
  drv_ioctl u request m := drv_ioctl u request m
|}.

Definition world_bad : world (gmap positive (list Z)) :=
  World bio_disk (<[30 := ListNode 10 10]> (<[20 := ListNode 20 20]> (<[10 := ListNode 30 30]> ∅)))
    {[ 30 := BcacheBlock 77 0 false 300 ]} {[ 300 := replicate 4 9 ]} (BcacheStats 0 0 0 0 0).

(** After a read that failed the block is on the free list without having left the
    list of blocks in use: the next walk runs into the other sentinel. *)
Lemma read_error_breaks_lists :
  let c := Bcache 1 4 1 10 20 [30] in
  wp (bcache_read_block (BlockDriver0 := bad_driver) 64 0 c (replicate 4 0) 5) (λ res w', res = (-1, replicate 4 0) ∧
    bcache_read_block (BlockDriver0 := bad_driver) 64 0 c (replicate 4 0) 0 w' = None) world_bad.
Proof. vm_compute. split; reflexivity. Qed.
