(* ===== verification/Miniheap.v ===== *)
(** * The heap

    [src/mk/lib/heap/miniheap/miniheap.c], with the part of
    [src/mk/lib/heap/heap_wrapper.c] that sits on it.  The free list is the sequence
    of its chunks, the header in front of every allocation an entry of [h_allocs]
    under the address given to the caller.  The mutex of the heap brackets every
    function and is not threaded through. *)

From S2P Require Import Prelude Bits.

(** A free chunk or an allocation: where it starts and how long it is. *)
Abbreviation chunk := (Z * Z)%type.

(** [struct heap], the headers, the calls of [page_free] (address and pages) and the
    list of delayed frees. *)
Record heap := Heap {
  h_base : Z;
  h_len : Z;
  h_remaining : Z;
  h_low_watermark : Z;
  h_free : list chunk;
  h_allocs : gmap Z chunk;
  h_paged : list (Z * Z);
  h_delayed : list Z
}.

Definition set_free (l : list chunk) (h : heap) : heap :=
  Heap (h_base h) (h_len h) (h_remaining h) (h_low_watermark h) l (h_allocs h) (h_paged h) (h_delayed h).

Definition set_remaining (v : Z) (h : heap) : heap :=
  Heap (h_base h) (h_len h) v (h_low_watermark h) (h_free h) (h_allocs h) (h_paged h) (h_delayed h).

Definition set_low_watermark (v : Z) (h : heap) : heap :=
  Heap (h_base h) (h_len h) (h_remaining h) v (h_free h) (h_allocs h) (h_paged h) (h_delayed h).

Definition set_allocs (m : gmap Z chunk) (h : heap) : heap :=
  Heap (h_base h) (h_len h) (h_remaining h) (h_low_watermark h) (h_free h) m (h_paged h) (h_delayed h).

Definition set_range (b l : Z) (h : heap) : heap :=
  Heap b l (h_remaining h) (h_low_watermark h) (h_free h) (h_allocs h) (h_paged h) (h_delayed h).

Definition set_paged (l : list (Z * Z)) (h : heap) : heap :=
  Heap (h_base h) (h_len h) (h_remaining h) (h_low_watermark h) (h_free h) (h_allocs h) l (h_delayed h).

Definition set_delayed (l : list Z) (h : heap) : heap :=
  Heap (h_base h) (h_len h) (h_remaining h) (h_low_watermark h) (h_free h) (h_allocs h) (h_paged h) l.

Section miniheap.
(** [debug]: whether [LK_DEBUGLEVEL] is above 1; [SENTINEL]: the address of
    [theheap.free_list]. *)
Context (debug : bool) (SENTINEL : Z).

Abbreviation H := (M heap).

Definition debug_assert (b : bool) : H unit := assert (negb debug || b).

(** The sizes of a pointer, of [struct free_heap_chunk] and of
    [struct alloc_struct_begin], which has the magic number only when debugging *)
Definition POINTER : Z := 8.
Definition FREE_CHUNK : Z := 24.
Definition ALLOC_BEGIN : Z := if debug then 24 else 16.

(** ** The free list *)

(** The walk: the chunks that start no later than [c], and the others *)
Fixpoint insert_walk (c : chunk) (l : list chunk) : list chunk * list chunk :=
  match l with
  | [] => ([], [])
  | next :: l' => if c.1 <? next.1 then ([], l) else let '(before, after) := insert_walk c l' in (next :: before, after)
  end.

Definition merge_prev (before : list chunk) (c : chunk) : list chunk * chunk :=
  match last before with
  | Some prev =>
      if u64 (prev.1 + prev.2) =? c.1 then (removelast before, (prev.1, u64 (prev.2 + c.2))) else (before, c)
  | None => (before, c)
  end.

(** After a walk to the end of the list, [next_chunk] is the sentinel and not [NULL]:
    a chunk that ends there would be merged with what is not a chunk. *)
Definition merge_next (c : chunk) (after : list chunk) : H (list chunk * chunk) :=
  match after with
  | next :: after' =>
      if u64 (c.1 + c.2) =? next.1 then mret (after', (c.1, u64 (c.2 + next.2))) else mret (after, c)
  | [] => assert (negb (u64 (c.1 + c.2) =? SENTINEL));; mret (after, c)
  end.

Definition heap_insert_free_chunk (c : chunk) : H Z :=
  h ← gets id;
  modify (set_remaining (u64 (h_remaining h + c.2)));;
  let '(before, after) := insert_walk c (h_free h) in
  debug_assert (match after with next :: _ => u64 (c.1 + c.2) <=? next.1 | [] => true end);;
  let '(before, c) := merge_prev before c in
  '(after, c) ← merge_next c after;
  modify (set_free (before ++ c :: after));;
  mret c.1.

Definition heap_create_free_chunk (ptr len : Z) : H chunk :=
  debug_assert (len mod POINTER =? 0);;
  debug_assert (FREE_CHUNK <? len);;
  mret (ptr, len).

(** ** Allocation *)

(** The walk to the first chunk that is big enough *)
Fixpoint alloc_walk (size : Z) (before l : list chunk) : H (option (list chunk * chunk * list chunk)) :=
  match l with
  | [] => mret None
  | c :: l' =>
      debug_assert (c.2 mod POINTER =? 0);;
      if size <=? c.2 then mret (Some (before, c, l')) else alloc_walk size (before ++ [c]) l'
  end.

(** What is left of the chunk goes back where the chunk was. *)
Definition alloc_split (size : Z) (c : chunk) : H (list chunk * Z) :=
  if u64 (size + FREE_CHUNK) <? c.2 then
    newchunk ← heap_create_free_chunk (u64 (c.1 + size)) (u64 (c.2 - size));
    mret ([newchunk], u64 (c.2 - u64 (c.2 - size)))
  else mret ([], c.2).

Definition try_alloc (size alignment : Z) : H Z :=
  h ← gets id;
  found ← alloc_walk size [] (h_free h);
  match found with
  | None => mret 0
  | Some (before, c, after) =>
      '(rest, len) ← alloc_split size c;
      debug_assert (size <=? len);;
      let ptr := u64 (c.1 + ALLOC_BEGIN) in
      let ptr := if 0 <? alignment then ROUNDUP ptr alignment else ptr in
      let remaining := u64 (h_remaining h - len) in
      modify (set_free (before ++ rest ++ after));;
      modify (set_allocs (<[ptr := (c.1, len)]> (h_allocs h)));;
      modify (set_remaining remaining);;
      when (remaining <? h_low_watermark h) (modify (set_low_watermark remaining));;
      mret ptr
  end.

(** [page_alloc]: what the page allocator answers to a request for so many pages *)
Definition heap_grow (page_alloc : Z → option Z) (size : Z) : H Z :=
  let size := ROUNDUP size PAGE_SIZE in
  match page_alloc (size / PAGE_SIZE) with
  | None => mret ERR_NO_MEMORY
  | Some ptr =>
      c ← heap_create_free_chunk ptr size;
      heap_insert_free_chunk c;;
      h ← gets id;
      let base := if (ptr <? h_base h) || (h_base h =? 0) then ptr else h_base h in
      let endptr := u64 (ptr + size) in
      modify (set_range base (if u64 (base + h_len h) <? endptr then u64 (endptr - base) else h_len h));;
      mret (s64 size)
  end.

(** The size and the alignment that are looked for *)
Definition request (size alignment : Z) : Z * Z :=
  let size := u64 (size + ALLOC_BEGIN) in
  let size := if size <? FREE_CHUNK then FREE_CHUNK else size in
  let size := ROUNDUP size POINTER in
  if 0 <? alignment then
    let alignment := if alignment <? 16 then 16 else alignment in (u64 (size + alignment), alignment)
  else (size, alignment).

Definition miniheap_alloc (page_alloc : Z → option Z) (size alignment : Z) : H Z :=
  if negb (Z.land alignment (u32 (alignment - 1)) =? 0) then mret 0
  else
    let '(size, alignment) := request size alignment in
    ptr ← try_alloc size alignment;
    if negb (ptr =? 0) then mret ptr
    else
      err ← heap_grow page_alloc size;
      if 0 <=? err then try_alloc size alignment else mret 0.

(** ** Freeing *)

Definition miniheap_free (ptr : Z) : H unit :=
  if ptr =? 0 then mret ()
  else
    c ← deref (λ h, h_allocs h !! ptr);
    modify (λ h, set_allocs (delete ptr (h_allocs h)) h);;
    c ← heap_create_free_chunk c.1 c.2;
    heap_insert_free_chunk c;;
    mret ().

(** Returns the [memcpy] that is made as well: destination, source and length *)
Definition miniheap_realloc (page_alloc : Z → option Z) (ptr size : Z) : H (Z * option (Z * Z * Z)) :=
  if ptr =? 0 then p ← miniheap_alloc page_alloc size 0; mret (p, None)
  else if size =? 0 then miniheap_free ptr;; mret (0, None)
  else
    p ← miniheap_alloc page_alloc size 0;
    if p =? 0 then mret (0, None)
    else miniheap_free ptr;; mret (p, Some (p, ptr, size)).

(** ** Trimming *)

Definition give_pages (start_page end_page : Z) : H unit :=
  modify (λ h, set_paged (h_paged h ++ [(start_page, (end_page - start_page) / PAGE_SIZE)]) h);;
  modify (λ h, set_remaining (u64 (h_remaining h - (end_page - start_page))) h).

(** The pages to give back, after the tries that leave room for a chunk before and
    after them; there are at most three tries. *)
Fixpoint trim_range (fuel : nat) (start end_ start_page end_page : Z) : option (Z * Z) :=
  match fuel with
  | O => None
  | S fuel =>
      if end_page <=? start_page then Some (start_page, end_page)
      else if negb (start_page =? start) && (start_page - start <? FREE_CHUNK) then
        trim_range fuel start end_ (start_page + PAGE_SIZE) end_page
      else if (end_page <? end_) && (end_ - end_page <? FREE_CHUNK) then
        trim_range fuel start end_ start_page (end_page - PAGE_SIZE)
      else Some (start_page, end_page)
  end.

(** What a chunk becomes *)
Definition trim_chunk (c : chunk) : H (list chunk) :=
  let start := c.1 in
  let end_ := u64 (start + c.2) in
  debug_assert (start <? end_);;
  let start_page := ROUNDUP start PAGE_SIZE in
  let end_page := ROUNDDOWN end_ PAGE_SIZE in
  debug_assert (end_page <=? end_);;
  debug_assert (start <=? start_page);;
  '(start_page, end_page) ← deref (λ _, trim_range 3 start end_ start_page end_page);
  if start_page <? end_page then
    after ← (if end_page <? end_ then new ← heap_create_free_chunk end_page (end_ - end_page); mret [new] else mret []);
    let before := if start_page =? start then [] else [(start, start_page - start)] in
    give_pages start_page end_page;;
    mret (before ++ after)
  else mret [c].

Fixpoint trim_walk (l : list chunk) : H (list chunk) :=
  match l with
  | [] => mret []
  | c :: l' => l1 ← trim_chunk c; l2 ← trim_walk l'; mret (l1 ++ l2)
  end.

Definition miniheap_trim : H unit := l ← gets h_free; l' ← trim_walk l; modify (set_free l').

(** ** Statistics and initialisation *)

(** [heap_free] and [heap_max_chunk] *)
Definition chunk_stats (l : list chunk) : Z * Z :=
  foldl (λ '(sum, m) c, (u64 (sum + c.2), if m <? c.2 then c.2 else m)) (0, 0) l.

Definition miniheap_init (ptr len : Z) : H unit :=
  modify (set_free []);;
  '(ptr, len) ← (if 0 <? ptr mod POINTER then
      let aligned_ptr := ROUNDUP ptr POINTER in
      debug_assert (u64 (aligned_ptr - ptr) <? len);;
      mret (aligned_ptr, u64 (len - (aligned_ptr - ptr)))
    else mret (ptr, len));
  modify (λ h, set_low_watermark 0 (set_remaining 0 (set_range ptr len h)));;
  when (0 <? len) (c ← heap_create_free_chunk ptr len; heap_insert_free_chunk c;; mret ()).

(** ** The wrapper *)

Fixpoint free_all (l : list Z) : H unit :=
  match l with
  | [] => mret ()
  | p :: l' => miniheap_free p;; free_all l'
  end.

(** The list is turned round on the way. *)
Definition heap_free_delayed_list : H unit :=
  l ← gets h_delayed; modify (set_delayed []);; free_all (reverse l).

Definition pending : H unit := l ← gets h_delayed; when (negb (bool_decide (l = []))) heap_free_delayed_list.

Definition malloc (page_alloc : Z → option Z) (size : Z) : H Z := pending;; miniheap_alloc page_alloc size 0.

Definition memalign (page_alloc : Z → option Z) (boundary size : Z) : H Z :=
  pending;; miniheap_alloc page_alloc size (u32 boundary).

(** With the number of bytes that are set to zero *)
Definition calloc (page_alloc : Z → option Z) (count size : Z) : H (Z * Z) :=
  pending;;
  let realsize := u64 (count * size) in
  ptr ← miniheap_alloc page_alloc realsize 0;
  mret (ptr, if ptr =? 0 then 0 else realsize).

Definition realloc (page_alloc : Z → option Z) (ptr size : Z) : H (Z * option (Z * Z * Z)) :=
  pending;; miniheap_realloc page_alloc ptr size.

Definition free (ptr : Z) : H unit := miniheap_free ptr.

Definition heap_delayed_free (ptr : Z) : H unit := modify (λ h, set_delayed (ptr :: h_delayed h) h).

Definition heap_trim : H unit := pending;; miniheap_trim.
End miniheap.
