(* ===== verification/MiniheapSpec.v ===== *)
(** * The heap: chunks, the free list and the operations

    Memory is counted byte by byte: [cnt l x] is how many chunks of [l] the address
    [x] is in.  The free list is sorted and no two of its chunks touch.  [given] is the
    memory that the heap was ever given: every byte of it is in one free chunk, in one
    allocation, or back with the page allocator. *)

From S2P Require Import Prelude Bits Miniheap.

Definition inside (c : chunk) (x : Z) : Z := if (c.1 <=? x) && (x <? c.1 + c.2) then 1 else 0.

Fixpoint cnt (l : list chunk) (x : Z) : Z :=
  match l with
  | [] => 0
  | c :: l => inside c x + cnt l x
  end.

Fixpoint total (l : list chunk) : Z :=
  match l with
  | [] => 0
  | c :: l => c.2 + total l
  end.

Lemma inside_cases c x : inside c x = 1 ∧ c.1 ≤ x < c.1 + c.2 ∨ inside c x = 0 ∧ ¬ (c.1 ≤ x < c.1 + c.2).
Proof. rw /inside. destruct (Z.leb_spec c.1 x), (Z.ltb_spec x (c.1 + c.2)); simpl; lia. Qed.

Lemma cnt_app l1 l2 x : cnt (l1 ++ l2) x = cnt l1 x + cnt l2 x.
Proof. induction l1 as [|c l1 IH]; simpl; [done|]. rw IH. lia. Qed.

Lemma total_app l1 l2 : total (l1 ++ l2) = total l1 + total l2.
Proof. induction l1 as [|c l1 IH]; simpl; [done|]. rw IH. lia. Qed.

Lemma cnt_perm l1 l2 x : l1 ≡ₚ l2 → cnt l1 x = cnt l2 x.
Proof. induction 1; simpl; lia. Qed.

Lemma cnt_nonneg l x : 0 ≤ cnt l x.
Proof. induction l as [|c l IH]; simpl; [done|]. destruct (inside_cases c x); lia. Qed.

Lemma cnt_elem c l x : c ∈ l → c.1 ≤ x < c.1 + c.2 → 1 ≤ cnt l x.
Proof.
  intros [l1 [l2 ->]]%list_elem_of_split Hx. rw cnt_app /=. pose proof (cnt_nonneg l1 x). pose proof (cnt_nonneg l2 x).
  destruct (inside_cases c x); lia.
Qed.

(** Two pieces that fit together *)
Lemma inside_join a n m x : 0 ≤ n → 0 ≤ m → inside (a, n) x + inside (a + n, m) x = inside (a, n + m) x.
Proof. intros. destruct (inside_cases (a, n) x), (inside_cases (a + n, m) x), (inside_cases (a, n + m) x); simpl in *; lia. Qed.

(** A chunk as the heap makes them; the last page of the address space is not used. *)
Record chunk_ok (c : chunk) : Prop := {
  ck_start : 0 < c.1;
  ck_align : (8 | c.1);
  ck_len : (8 | c.2);
  ck_big : 24 ≤ c.2;
  ck_end : c.1 + c.2 < 2 ^ 64 - 4096
}.

Lemma chunk_ok_join c c' : chunk_ok c → chunk_ok c' → c.1 + c.2 = c'.1 → chunk_ok (c.1, c.2 + c'.2).
Proof. intros [] [] E. split; simpl; [done|done|by apply Z.divide_add_r|lia|lia]. Qed.

(** Sorted, and no two chunks touch. *)
Fixpoint gaps (l : list chunk) : Prop :=
  match l with
  | [] => True
  | c :: l => (∀ c', c' ∈ l → c.1 + c.2 < c'.1) ∧ gaps l
  end.

Lemma gaps_app l1 l2 : gaps (l1 ++ l2) ↔ gaps l1 ∧ gaps l2 ∧ ∀ c c', c ∈ l1 → c' ∈ l2 → c.1 + c.2 < c'.1.
Proof.
  induction l1 as [|c l1 IH]; simpl; [set_solver|]. rw IH. split.
  - intros (H & ? & ? & ?). split_and!; [set_solver|done|done|]. intros c1 c2 [->|?]%elem_of_cons ?; [set_solver|auto].
  - intros ([? ?] & ? & Hd). split_and!; [|done|done|set_solver]. intros c' [?|?]%elem_of_app; [auto|apply Hd; set_solver].
Qed.

(** Disjoint chunks in order fit into the address space. *)
Lemma chunks_total_bound l : Forall chunk_ok l → gaps l → ∀ b, (∀ c, c ∈ l → b ≤ c.1) → 0 ≤ b < 2 ^ 64 → 0 ≤ total l < 2 ^ 64 - b.
Proof.
  induction 1 as [|c l Hc Hl IH]; simpl; [lia|]. intros [Hg Hgs] b Hb Hb'. destruct Hc.
  assert (0 ≤ total l < 2 ^ 64 - (c.1 + c.2)) as [? ?] by (apply IH; [done| |lia]; intros c' Hc'; specialize (Hg c' Hc'); lia).
  specialize (Hb c ltac:(set_solver)). lia.
Qed.

Lemma total_nonneg l : Forall chunk_ok l → 0 ≤ total l.
Proof. induction 1 as [|c l [] Hl IH]; simpl; lia. Qed.

(** ** Insertion *)

(** Two chunks of which no byte is counted twice *)
Lemma disjoint_order c c' l x : chunk_ok c → chunk_ok c' → c ∈ l → cnt l x + inside c' x ≤ 1 → x = Z.max c.1 c'.1 →
  c.1 + c.2 ≤ c'.1 ∨ c'.1 + c'.2 ≤ c.1.
Proof.
  intros [] [] Hc Hx ->. destruct (decide (c.1 + c.2 ≤ c'.1)) as [|]; [by left|]. destruct (decide (c'.1 + c'.2 ≤ c.1)) as [|]; [by right|].
  pose proof (cnt_elem c l (Z.max c.1 c'.1) Hc). destruct (inside_cases c' (Z.max c.1 c'.1)); lia.
Qed.

Lemma insert_walk_app c l before after : insert_walk c l = (before, after) → l = before ++ after.
Proof.
  revert before. induction l as [|d l IH]; simpl; intros before E; [by simplify_eq|]. destruct (c.1 <? d.1); [by simplify_eq|].
  destruct (insert_walk c l) as [b a]. simplify_eq. simpl. f_equal. by apply IH.
Qed.

Lemma insert_walk_spec c l before after :
  chunk_ok c → Forall chunk_ok l → gaps l → (∀ x, cnt l x + inside c x ≤ 1) → insert_walk c l = (before, after) →
  l = before ++ after ∧ (∀ b, b ∈ before → b.1 + b.2 ≤ c.1) ∧ (∀ a, a ∈ after → c.1 + c.2 ≤ a.1).
Proof.
  intros Hc. revert before. induction l as [|d l IH]; simpl; intros before Hl Hg Hx E; [simplify_eq; set_solver|].
  apply Forall_cons in Hl as [Hd Hl]. destruct Hg as [Hg Hgs]. pose proof (disjoint_order d c [d] (Z.max d.1 c.1) Hd Hc) as Ho.
  destruct Ho as [Ho|Ho]; [set_solver|pose proof (Hx (Z.max d.1 c.1)); pose proof (cnt_nonneg l (Z.max d.1 c.1)); simpl; lia|done| |].
  - destruct (Z.ltb_spec c.1 d.1); [destruct Hd; lia|]. destruct (insert_walk c l) as [b a] eqn:Ew. simplify_eq.
    destruct (IH b) as (-> & Hb & Ha); [done|done| |done|].
    { intros x. pose proof (Hx x). destruct (inside_cases d x); lia. }
    split_and!; [done| |done]. intros b' [->|?]%elem_of_cons; auto.
  - destruct (Z.ltb_spec c.1 d.1); [|destruct Hc; lia]. simplify_eq. split_and!; [done|set_solver|].
    intros a [->|Ha]%elem_of_cons; [done|]. specialize (Hg a Ha). destruct Hd; lia.
Qed.

Lemma merge_prev_spec before c before' c' :
  chunk_ok c → Forall chunk_ok before → gaps before → (∀ b, b ∈ before → b.1 + b.2 ≤ c.1) → merge_prev before c = (before', c') →
  chunk_ok c' ∧ Forall chunk_ok before' ∧ gaps before' ∧ (∀ b, b ∈ before' → b.1 + b.2 < c'.1) ∧ c'.1 ≤ c.1 ∧ c'.1 + c'.2 = c.1 + c.2 ∧
  (∀ x, cnt before' x + inside c' x = cnt before x + inside c x) ∧ total before' + c'.2 = total before + c.2.
Proof.
  intros Hc Hl Hg Hb. rw /merge_prev. destruct (last before) as [p|] eqn:El.
  2: { apply last_None in El as ->. intros [= <- <-]. split_and!; try done. set_solver. }
  apply last_Some in El as [l ->]. pose proof Hl as [Hl' [Hp _]%Forall_cons]%Forall_app. pose proof Hg as (Hg' & _ & Hgl)%gaps_app.
  assert (p.1 + p.2 ≤ c.1) as Hpc by (apply Hb; set_solver). pose proof Hp as []. pose proof Hc as []. rw u64_small; [|lia].
  assert (∀ b, b ∈ l → b.1 + b.2 < p.1) as Hlp by (intros b ?; apply Hgl; set_solver).
  destruct (Z.eqb_spec (p.1 + p.2) c.1) as [E|E]; intros [= <- <-].
  - rw removelast_last u64_small; [|lia]. split_and!; [by apply chunk_ok_join|done..|simpl; lia|simpl; lia| |rw total_app /=; lia].
    intros x. rw cnt_app /= Z.add_0_r -Z.add_assoc. f_equal. rewrite -(inside_join p.1 p.2 c.2 x); [|lia..]. rw E. by destruct p, c.
  - split_and!; [done..| |done|done|done|done].
    intros b [Hb'| ->%list_elem_of_singleton]%elem_of_app; [specialize (Hlp b Hb'); lia|lia].
Qed.

Lemma wp_merge_next S after c h :
  chunk_ok c → Forall chunk_ok after → gaps after → (∀ a, a ∈ after → c.1 + c.2 ≤ a.1) → c.1 + c.2 ≠ S →
  wp (merge_next S c after) (λ '(after', c') h', h' = h ∧
    chunk_ok c' ∧ Forall chunk_ok after' ∧ gaps after' ∧ (∀ a, a ∈ after' → c'.1 + c'.2 < a.1) ∧ c'.1 = c.1 ∧ c.2 ≤ c'.2 ∧
    (∀ x, cnt after' x + inside c' x = cnt after x + inside c x) ∧ total after' + c'.2 = total after + c.2) h.
Proof.
  intros Hc Hl Hg Ha HS. pose proof Hc as []. destruct after as [|n l]; simpl.
  { apply wp_bind, wp_assert; [by rw u64_small; [apply negb_true_iff, Z.eqb_neq|lia]|]. apply wp_ret. split_and!; try done. set_solver. }
  apply Forall_cons in Hl as [Hn Hl]. destruct Hg as [Hgn Hg]. assert (c.1 + c.2 ≤ n.1) as Hcn by (apply Ha; set_solver). pose proof Hn as [].
  rw u64_small; [|lia]. destruct (Z.eqb_spec (c.1 + c.2) n.1) as [E|E]; apply wp_ret.
  - rw u64_small; [|lia]. split_and!; [done|by apply chunk_ok_join|done|done|simpl; intros a Ha'; specialize (Hgn a Ha'); lia|done|simpl; lia| |simpl; lia].
    intros x. rewrite -(inside_join c.1 c.2 n.2 x); [|lia..]. rw E. destruct n, c. simpl. lia.
  - split_and!; [done|done|by apply Forall_cons|done| |done|done|done|done]. intros a [->|Ha']%elem_of_cons; [lia|]. specialize (Hgn a Ha'). lia.
Qed.

Section spec.
Context (debug : bool) (SENTINEL : Z).
Implicit Types (h : heap) (c : chunk) (given moving : list chunk).

Abbreviation BEGIN := (ALLOC_BEGIN debug).

Definition alloc_chunks h : list chunk := (map_to_list (h_allocs h)).*2.

Definition returned h : list chunk := (λ '(a, pages), (a, pages * PAGE_SIZE)) <$> h_paged h.

(** [moving]: chunks on their way between the allocations and the free list *)
Record heap_ok given moving h : Prop := {
  hk_bytes x : cnt (h_free h) x + cnt (alloc_chunks h) x + cnt moving x + cnt (returned h) x = cnt given x;
  hk_once x : cnt given x - cnt (returned h) x ≤ 1;
  hk_gaps : gaps (h_free h);
  hk_free : Forall chunk_ok (h_free h);
  hk_alloc p c : h_allocs h !! p = Some c → chunk_ok c ∧ c.1 + BEGIN ≤ p ≤ c.1 + c.2;
  hk_sentinel : cnt given (SENTINEL - 1) = 0;
  hk_remaining : h_remaining h = total (h_free h)
}.

(** Only the free list differs. *)
Record same_rest h h' : Prop := {
  sr_allocs : h_allocs h' = h_allocs h;
  sr_paged : h_paged h' = h_paged h;
  sr_delayed : h_delayed h' = h_delayed h
}.

Lemma free_disjoint given c moving h x : heap_ok given (c :: moving) h → cnt (h_free h) x + inside c x ≤ 1.
Proof.
  intros Hk. pose proof (hk_bytes _ _ _ Hk x) as Hb. pose proof (hk_once _ _ _ Hk x). simpl in Hb.
  pose proof (cnt_nonneg (alloc_chunks h) x). pose proof (cnt_nonneg moving x). lia.
Qed.

(** A chunk that is not part of the memory before the sentinel does not end there. *)
Lemma not_sentinel given c moving h : heap_ok given (c :: moving) h → chunk_ok c → c.1 + c.2 ≠ SENTINEL.
Proof.
  intros Hk [] E. pose proof (hk_bytes _ _ _ Hk (SENTINEL - 1)) as Hb. rw (hk_sentinel _ _ _ Hk) /= in Hb.
  pose proof (cnt_nonneg (h_free h) (SENTINEL - 1)). pose proof (cnt_nonneg (alloc_chunks h) (SENTINEL - 1)).
  pose proof (cnt_nonneg moving (SENTINEL - 1)). pose proof (cnt_nonneg (returned h) (SENTINEL - 1)).
  destruct (inside_cases c (SENTINEL - 1)); lia.
Qed.

Lemma debug_assert_true b (Q : unit → heap → Prop) h : b = true → Q () h → wp (debug_assert debug b) Q h.
Proof. intros -> ?. apply wp_assert; [by rw orb_true_r|done]. Qed.

Lemma wp_insert given c moving h :
  heap_ok given (c :: moving) h → chunk_ok c →
  wp (heap_insert_free_chunk debug SENTINEL c) (λ _ h', heap_ok given moving h' ∧ same_rest h h' ∧
    total (h_free h') = total (h_free h) + c.2 ∧
    (∃ c', c' ∈ h_free h' ∧ c'.1 ≤ c.1 ∧ c.1 + c.2 ≤ c'.1 + c'.2) ∧ h_low_watermark h' = h_low_watermark h) h.
Proof.
  intros Hk Hc. pose proof Hk as [Hb Ho Hg Hf Ha HS Hr]. apply wp_bind, wp_gets, wp_bind, wp_modify. simpl.
  destruct (insert_walk c (h_free h)) as [before after] eqn:Ew.
  destruct (insert_walk_spec c _ before after Hc Hf Hg) as (El & Hb1 & Ha1); [intros x; by eapply free_disjoint|done|].
  rewrite El in Hf, Hg. apply Forall_app in Hf as [Hf1 Hf2]. apply gaps_app in Hg as (Hg1 & Hg2 & Hg12). pose proof Hc as [].
  apply wp_bind, debug_assert_true.
  { destruct after as [|a ?]; [done|]. rw u64_small; [|lia]. apply Z.leb_le, Ha1. set_solver. }
  destruct (merge_prev before c) as [before' c1] eqn:Em.
  destruct (merge_prev_spec before c before' c1) as (Hc1 & Hf1' & Hg1' & Hb1' & Hle & Ee & Hx1 & Ht1); [done..|].
  apply wp_bind. eapply wp_mono; [apply wp_merge_next; [done|done|done| |]|].
  - intros a Ha'. rw Ee. auto.
  - rw Ee. by eapply not_sentinel.
  - intros [after' c2] h' (-> & Hc2 & Hf2' & Hg2' & Ha2' & Es & Hl2 & Hx2 & Ht2). apply wp_bind, wp_modify, wp_ret.
    assert (Forall chunk_ok (before' ++ c2 :: after')) as HF by (apply Forall_app; split; [done|by constructor]).
    assert (gaps (before' ++ c2 :: after')) as HG.
    { apply gaps_app. split_and!; [done|done|]. intros b a Hb' [->|Ha'']%elem_of_cons; [rw Es; auto|].
      specialize (Hb1' b Hb'). specialize (Ha2' a Ha''). destruct Hc2. lia. }
    assert (total (before' ++ c2 :: after') = total (h_free h) + c.2) as HT by (rw El !total_app /=; lia).
    split_and!; [split; simpl; try done| |done| |done].
    + intros x. rw -Hb El !cnt_app /=. pose proof (Hx1 x). pose proof (Hx2 x). unfold alloc_chunks, returned. simpl. lia.
    + rw HT Hr u64_small; [done|]. rw -HT. pose proof (chunks_total_bound _ HF HG 0) as HB.
      destruct HB as [? ?]; [|lia|lia]. intros c' Hc'. rewrite Forall_forall in HF. destruct (HF c' Hc'). lia.
    + done.
    + exists c2. split_and!; [set_solver|lia|lia].
Qed.
(** ** Allocation *)

Lemma cnt_insert (m : gmap Z chunk) p c x : m !! p = None → cnt (map_to_list (<[p := c]> m)).*2 x = inside c x + cnt (map_to_list m).*2 x.
Proof. intros Hp. rewrite (cnt_perm _ ((p, c) :: map_to_list m).*2 x); [done|]. by rewrite map_to_list_insert. Qed.

Lemma cnt_delete (m : gmap Z chunk) p c x : m !! p = Some c → cnt (map_to_list m).*2 x = inside c x + cnt (map_to_list (delete p m)).*2 x.
Proof. intros Hp. rewrite -{1}(insert_delete_id m p c Hp). apply cnt_insert, lookup_delete_eq. Qed.

(** The byte in front of what the caller gets lies in the allocation. *)
Lemma alloc_byte given moving h p c : heap_ok given moving h → h_allocs h !! p = Some c → 1 ≤ cnt (alloc_chunks h) (p - 1).
Proof.
  intros Hk Hp. destruct (hk_alloc _ _ _ Hk p c Hp) as [[] ?]. assert (0 < BEGIN) by (rw /ALLOC_BEGIN; by destruct debug).
  rw /alloc_chunks (cnt_delete _ _ _ _ Hp). pose proof (cnt_nonneg (map_to_list (delete p (h_allocs h))).*2 (p - 1)).
  destruct (inside_cases c (p - 1)); lia.
Qed.

Lemma wp_alloc_walk size before l h :
  Forall chunk_ok l →
  wp (alloc_walk debug size before l) (λ found h', h' = h ∧
    match found with
    | None => ∀ c, c ∈ l → c.2 < size
    | Some (b, c, a) => before ++ l = b ++ c :: a ∧ size ≤ c.2
    end) h.
Proof.
  intros Hl. revert before. induction Hl as [|c l Hc Hl IH]; intros before; simpl; [apply wp_ret; set_solver|].
  destruct Hc as [_ _ [q Hq] _ _]. apply wp_bind, debug_assert_true; [apply Z.eqb_eq; rw Hq; by apply Z.mod_mul|].
  destruct (Z.leb_spec size c.2); [by apply wp_ret|]. eapply wp_mono; [apply IH|]. intros [[[b c'] a]|] h' [-> H']; (split; [done|]).
  - destruct H' as [E ?]. by rw -E -app_assoc.
  - intros c' [->|?]%elem_of_cons; [lia|auto].
Qed.

(** The alignment asked of the walk: none, or a power of two from 16 on. *)
Definition align_ok (alignment : Z) : Prop := alignment = 0 ∨ ∃ k, 4 ≤ k < 32 ∧ alignment = 2 ^ k.

Lemma aligned_ptr p alignment : align_ok alignment → 0 ≤ p → (8 | p) → p + alignment < 2 ^ 64 →
  let q := if 0 <? alignment then ROUNDUP p alignment else p in
  p ≤ q ≤ p + alignment ∧ (8 | q) ∧ (alignment = 0 ∨ (alignment | q)).
Proof.
  intros [->|(k & Hk & ->)] Hp H8 Hlt; simpl; [split_and!; [lia|lia|done|by left]|].
  assert (0 < 2 ^ k) by lia. rw (proj2 (Z.ltb_lt _ _)) //. destruct (roundup_spec p k) as [Hd Hr]; [lia..|].
  split_and!; [lia|lia| |by right]. eapply Z.divide_trans; [|done]. exists (2 ^ (k - 3)). change 8 with (2 ^ 3). rw -Z.pow_add_r; [|lia..]. f_equal. lia.
Qed.

(** The two ways to take [size] bytes from the front of a chunk *)
Lemma wp_alloc_split size c h :
  chunk_ok c → 24 ≤ size ≤ c.2 → (8 | size) → size < 2 ^ 63 →
  wp (alloc_split debug size c) (λ '(rest, len) h', h' = h ∧ size ≤ len ∧ (8 | len) ∧ len + total rest = c.2 ∧
    Forall chunk_ok rest ∧ gaps rest ∧ (∀ c', c' ∈ rest → c.1 < c'.1 ∧ c'.1 + c'.2 ≤ c.1 + c.2) ∧
    ∀ x, inside (c.1, len) x + cnt rest x = inside c x) h.
Proof.
  intros [] Hs H8 Hlt. rw /alloc_split /FREE_CHUNK u64_small; [|lia]. destruct (Z.ltb_spec (size + 24) c.2) as [Hsp|Hsp].
  - rw !(u64_small (c.2 - size)); [|lia..]. rw !u64_small; [|lia..].
    assert (8 | c.2 - size) as H8' by by apply Z.divide_sub_r.
    apply wp_bind, wp_bind, debug_assert_true; [apply Z.eqb_eq; by apply Z.mod_divide|].
    apply wp_bind, debug_assert_true; [by apply Z.ltb_lt; rw /FREE_CHUNK; lia|]. apply wp_ret, wp_ret.
    split_and!; [done|lia|by rw Z.sub_sub_distr Z.sub_diag|simpl; lia| |by split; [set_solver|]| |].
    + apply Forall_singleton. split; simpl; [lia|by apply Z.divide_add_r|done|lia|lia].
    + intros c' ->%list_elem_of_singleton. simpl. lia.
    + intros x. simpl. rw Z.add_0_r Z.sub_sub_distr Z.sub_diag /=. rewrite inside_join; [|lia..]. destruct c. simpl. f_equal. f_equal. lia.
  - apply wp_ret. split_and!; [done|lia|done|simpl; lia|done|done|set_solver|]. intros x. destruct c. simpl. lia.
Qed.

(** What an allocation of [user] bytes has done: [c] is the new allocation. *)
Definition alloc_result (user alignment p : Z) c h h' : Prop :=
  h_allocs h' = <[p := c]> (h_allocs h) ∧ h_allocs h !! p = None ∧ chunk_ok c ∧ c.1 + BEGIN ≤ p ∧ p + user ≤ c.1 + c.2 ∧
  (8 | p) ∧ (alignment = 0 ∨ (alignment | p)) ∧ h_paged h' = h_paged h ∧ h_delayed h' = h_delayed h.

(** The free list when the chunk between [b] and [a] has been taken apart. *)
Lemma free_split b c a rest len :
  Forall chunk_ok (b ++ c :: a) → gaps (b ++ c :: a) → Forall chunk_ok rest → gaps rest →
  (∀ c', c' ∈ rest → c.1 < c'.1 ∧ c'.1 + c'.2 ≤ c.1 + c.2) → (∀ x, inside (c.1, len) x + cnt rest x = inside c x) → len + total rest = c.2 →
  Forall chunk_ok (b ++ rest ++ a) ∧ gaps (b ++ rest ++ a) ∧ (∀ x, cnt (b ++ rest ++ a) x + inside (c.1, len) x = cnt (b ++ c :: a) x) ∧
  total (b ++ rest ++ a) = total (b ++ c :: a) - len.
Proof.
  intros Hf Hg Hr Hgr Hin Hx Ht. apply Forall_app in Hf as [Hfb [Hc Hfa]%Forall_cons]. apply gaps_app in Hg as (Hgb & [Hca Hga] & Hba). destruct Hc.
  split_and!.
  - by rewrite !Forall_app.
  - apply gaps_app. split_and!; [done|apply gaps_app; split_and!; [done..|]|].
    + intros c1 c2 [? ?]%Hin H2. specialize (Hca c2 H2). lia.
    + intros c1 c2 H1 [[? ?]%Hin|H2]%elem_of_app; [specialize (Hba c1 c H1 ltac:(set_solver)); lia|apply Hba; set_solver].
  - intros x. rw !cnt_app /=. pose proof (Hx x). lia.
  - rw !total_app /=. lia.
Qed.

Lemma wp_try_alloc given size user alignment h :
  heap_ok given [] h → align_ok alignment → 0 ≤ user → BEGIN + user + alignment ≤ size → 24 ≤ size < 2 ^ 63 → (8 | size) →
  wp (try_alloc debug size alignment) (λ p h',
    p = 0 ∧ h' = h ∧ (∀ c, c ∈ h_free h → c.2 < size) ∨ p ≠ 0 ∧ heap_ok given [] h' ∧ ∃ c, alloc_result user alignment p c h h') h.
Proof.
  intros Hk Hal Hu Hsz Hb H8. pose proof Hk as [Hbytes Ho Hg Hf Ha HS Hr]. assert (BEGIN = 16 ∨ BEGIN = 24) as HB by (rw /ALLOC_BEGIN; destruct debug; auto).
  assert (0 ≤ alignment) as Hal0 by (destruct Hal as [->|(k & ? & ->)]; lia).
  apply wp_bind, wp_gets, wp_bind. eapply wp_mono; [by apply wp_alloc_walk|]. intros [[[b c] a]|] h' [-> Hw]; [|apply wp_ret; by left].
  destruct Hw as [El Hsize]. simpl in El, Hf, Hg. rewrite El in Hf, Hg. assert (chunk_ok c) as Hc by (by apply Forall_app in Hf as [_ [? _]%Forall_cons]).
  apply wp_bind. eapply wp_mono; [apply wp_alloc_split; [done|lia|done|lia]|].
  intros [rest len] h' (-> & Hlen & H8l & Hsum & Hfr & Hgr & Hin & Hx).
  apply wp_bind, debug_assert_true; [by apply Z.leb_le|]. pose proof Hc as []. pose proof (total_nonneg rest Hfr).
  destruct (free_split b c a rest len Hf Hg Hfr Hgr Hin Hx Hsum) as (HF & HG & HX & HT).
  rw (u64_small (c.1 + BEGIN)); [|lia].
  destruct (aligned_ptr (c.1 + BEGIN) alignment) as (Hp & Hp8 & Hpa); [done|lia|apply Z.divide_add_r; [done|destruct HB as [->| ->]; by apply Z.mod_divide]|lia|].
  set (p := if 0 <? alignment then _ else _) in *. cbv zeta.
  assert (h_allocs h !! p = None) as Hfresh.
  { apply eq_None_not_Some. intros [c0 H0]. pose proof (alloc_byte _ _ _ _ _ Hk H0). pose proof (Hbytes (p - 1)) as Hb1. pose proof (Ho (p - 1)).
    simpl in Hb1. pose proof (cnt_elem c (h_free h) (p - 1)) as He. rewrite El in He. specialize (He ltac:(set_solver) ltac:(lia)). rewrite El in Hb1. lia. }
  assert (u64 (h_remaining h - len) = h_remaining h - len) as Er.
  { apply u64_small. pose proof (total_nonneg _ HF). pose proof (chunks_total_bound _ Hf Hg 0) as HB0.
    rewrite El in Hr. destruct HB0 as [? ?]; [|lia|lia]. intros c' Hc'. rewrite Forall_forall in Hf. destruct (Hf c' Hc'). lia. }
  assert (∀ low, heap_ok given [] (Heap (h_base h) (h_len h) (h_remaining h - len) low (b ++ rest ++ a) (<[p := (c.1, len)]> (h_allocs h)) (h_paged h) (h_delayed h))) as HOK.
  { intros low. split; try done; simpl.
    - intros x. rw -Hbytes El -HX /alloc_chunks /= cnt_insert //. rw /returned /=. lia.
    - intros q cq [[<- <-]|[? ?]]%lookup_insert_Some; [|by apply Ha]. split; [split; simpl; try done; lia|simpl; lia].
    - rw HT -El. lia. }
  rw Er. apply wp_bind, wp_modify, wp_bind, wp_modify, wp_bind, wp_modify, wp_bind.
  apply wp_when; intros _; [apply wp_modify|]; apply wp_ret; right; (split; [lia|]); (split; [apply HOK|]);
    (exists (c.1, len); split_and!; try done; simpl; try lia; by split; simpl; try lia).
Qed.

(** ** Requests *)

Lemma pow2_test a : 0 < a < 2 ^ 32 → Z.land a (u32 (a - 1)) = 0 → ∃ k, 0 ≤ k < 32 ∧ a = 2 ^ k.
Proof.
  intros Ha. rw u32_small; [|lia]. intros E. pose proof (Z.log2_nonneg a). destruct (Z.log2_spec a) as [Hlo Hhi]; [lia|].
  exists (Z.log2 a). assert (Z.log2 a < 32) by (apply Z.log2_lt_pow2; lia). split; [lia|].
  destruct (Z.eq_dec a (2 ^ Z.log2 a)) as [|Hne]; [done|]. exfalso.
  assert (Z.testbit (Z.land a (a - 1)) (Z.log2 a) = true) as Ht; [|rewrite E Z.bits_0 in Ht; discriminate].
  rw Z.land_spec Z.bit_log2; [|lia]. simpl. rw (_ : Z.log2 a = Z.log2 (a - 1)); [|].
  - apply Z.bit_log2. assert (0 < 2 ^ Z.log2 a) by (apply Z.pow_pos_nonneg; lia). lia.
  - symmetry. apply Z.log2_unique; lia.
Qed.

Lemma request_spec size alignment size' alignment' :
  0 ≤ size < 2 ^ 62 → 0 ≤ alignment < 2 ^ 32 → Z.land alignment (u32 (alignment - 1)) = 0 →
  request debug size alignment = (size', alignment') →
  align_ok alignment' ∧ BEGIN + size + alignment' ≤ size' ∧ 24 ≤ size' < 2 ^ 62 + 2 ^ 33 ∧ (8 | size') ∧
  (alignment = 0 ∨ (alignment | alignment') ∧ 0 < alignment').
Proof.
  intros Hs Ha Hp. assert (BEGIN = 16 ∨ BEGIN = 24) as HB by (rw /ALLOC_BEGIN; destruct debug; auto).
  rw /request /FREE_CHUNK /POINTER (u64_small (size + BEGIN)); [|lia]. set (s1 := if size + BEGIN <? 24 then 24 else size + BEGIN).
  assert (BEGIN + size ≤ s1 ∧ 24 ≤ s1 ≤ BEGIN + size + 24) as [? ?] by (rw /s1; destruct (Z.ltb_spec (size + BEGIN) 24); lia).
  destruct (roundup_spec s1 3) as [Hd Hr]; [lia..|]. change (2 ^ 3) with 8 in *.
  destruct (Z.ltb_spec 0 alignment) as [Hpos|]; [|intros [= <- <-]; split_and!; [left; lia|lia|lia|lia|done|left; lia]].
  destruct (pow2_test alignment) as (k & Hk & ->); [lia|done|]. set (k' := Z.max 4 k).
  assert ((if 2 ^ k <? 16 then 16 else 2 ^ k) = 2 ^ k') as ->.
  { rw /k'. change 16 with (2 ^ 4). destruct (Z.ltb_spec (2 ^ k) (2 ^ 4)) as [Hlt|Hge]; [apply Z.pow_lt_mono_r_iff in Hlt; [|lia..]; by rw Z.max_l; [|lia]|].
    apply Z.pow_le_mono_r_iff in Hge; [|lia..]. by rw Z.max_r. }
  assert (2 ^ 4 ≤ 2 ^ k' < 2 ^ 32) as [? ?] by (split; [apply Z.pow_le_mono_r; lia|apply Z.pow_lt_mono_r; lia]).
  rw u64_small; [|lia]. intros [= <- <-]. split_and!; [right; exists k'; split; [lia|done]|lia|lia|lia| |right; split; [|lia]].
  - apply Z.divide_add_r; [done|]. exists (2 ^ (k' - 3)). change 8 with (2 ^ 3). rw -Z.pow_add_r; [|lia..]. f_equal. lia.
  - exists (2 ^ (k' - k)). rw -Z.pow_add_r; [|lia..]. f_equal. lia.
Qed.

(** What the page allocator promises: whole pages that the heap does not have. *)
Definition pages_ok given h (page_alloc : Z → option Z) : Prop :=
  ∀ pages p, 0 < pages → page_alloc pages = Some p →
    0 < p ∧ (PAGE_SIZE | p) ∧ p + pages * PAGE_SIZE < 2 ^ 64 - PAGE_SIZE ∧ ¬ (p ≤ SENTINEL - 1 < p + pages * PAGE_SIZE) ∧
    ∀ x, p ≤ x < p + pages * PAGE_SIZE → cnt given x = cnt (returned h) x.

(** Memory from outside *)
Lemma heap_ok_give given moving h c :
  heap_ok given moving h → (∀ x, c.1 ≤ x < c.1 + c.2 → cnt given x = cnt (returned h) x) → ¬ (c.1 ≤ SENTINEL - 1 < c.1 + c.2) →
  heap_ok (c :: given) (c :: moving) h.
Proof.
  intros [Hb Ho Hg Hf Ha HS Hr] Hnew Hsen. split; try done; simpl.
  - intros x. rw -Hb. lia.
  - intros x. pose proof (Ho x). destruct (inside_cases c x) as [[-> Hx]|[-> _]]; [rw Hnew //|]; lia.
  - rw HS. destruct (inside_cases c (SENTINEL - 1)); lia.
Qed.

Lemma wp_heap_grow given page_alloc size h :
  heap_ok given [] h → pages_ok given h page_alloc → 24 ≤ size < 2 ^ 62 + 2 ^ 33 →
  wp (heap_grow debug SENTINEL page_alloc size) (λ err h', same_rest h h' ∧
    (err = ERR_NO_MEMORY ∧ h' = h ∧ page_alloc (ROUNDUP size PAGE_SIZE / PAGE_SIZE) = None ∨
     0 ≤ err ∧ (∃ c, heap_ok (c :: given) [] h') ∧ ∃ c, c ∈ h_free h' ∧ size ≤ c.2)) h.
Proof.
  intros Hk Hpa Hs. rw /heap_grow. change PAGE_SIZE with (2 ^ 12). destruct (roundup_spec size 12) as [[q Hq] Hr]; [lia..|].
  rw Hq Z.div_mul; [|lia]. destruct (page_alloc q) as [p|] eqn:Ep; [|apply wp_ret; split; [done|by left]].
  rewrite Hq in Hr. destruct (Hpa q p) as (Hp & Hpd & Hpe & Hps & Hpn); [lia|done|]. change PAGE_SIZE with (2 ^ 12) in *.
  assert (8 | 2 ^ 12) as H8 by (by exists 512).
  assert (chunk_ok (p, q * 2 ^ 12)) as Hc by (split; simpl; [done|by eapply Z.divide_trans|by apply Z.divide_mul_r|lia|lia]).
  apply wp_bind, wp_bind, debug_assert_true; [apply Z.eqb_eq, Z.mod_divide; [done|apply Hc]|].
  apply wp_bind, debug_assert_true; [by apply Z.ltb_lt; rw /FREE_CHUNK; lia|]. apply wp_ret.
  apply wp_bind. eapply wp_mono; [apply wp_insert; [by apply heap_ok_give|done]|].
  intros _ h1 (Hk1 & Hsr & Ht1 & (c' & Hc' & Hle1 & Hle2) & _). apply wp_bind, wp_gets, wp_bind, wp_modify, wp_ret. simpl in *.
  split; [by destruct Hsr|]. right. rw s64_small; [|lia]. split_and!; [lia|eexists; by destruct Hk1|exists c'; split; [done|lia]].
Qed.

(** Nothing fits and the page allocator has nothing. *)
Definition exhausted (page_alloc : Z → option Z) (size : Z) h : Prop :=
  (∀ c, c ∈ h_free h → c.2 < size) ∧ page_alloc (ROUNDUP size PAGE_SIZE / PAGE_SIZE) = None.

Lemma allocated_same user alignment alignment' p c h h1 h' :
  same_rest h h1 → alloc_result user alignment' p c h1 h' → alignment = 0 ∨ (alignment | alignment') ∧ 0 < alignment' →
  alloc_result user alignment p c h h'.
Proof.
  intros [E1 E2 E3] (Ha & Hn & ? & ? & ? & ? & Hp & ? & ?) Hd. rewrite E1 in Ha, Hn. split_and!; try done; [|congruence..].
  destruct Hd as [?|[Hd Hpos]]; [by left|]. right. destruct Hp as [?|Hp]; [lia|by eapply Z.divide_trans].
Qed.

Lemma wp_miniheap_alloc given page_alloc size alignment h :
  heap_ok given [] h → pages_ok given h page_alloc → 0 ≤ size < 2 ^ 62 → 0 ≤ alignment < 2 ^ 32 →
  wp (miniheap_alloc debug SENTINEL page_alloc size alignment) (λ p h', ∃ given', heap_ok given' [] h' ∧
    (p = 0 ∧ h' = h ∧ (Z.land alignment (u32 (alignment - 1)) ≠ 0 ∨ exhausted page_alloc (request debug size alignment).1 h) ∨
     p ≠ 0 ∧ ∃ c, alloc_result size alignment p c h h')) h.
Proof.
  intros Hk Hpa Hs Ha. rw /miniheap_alloc. destruct (Z.eqb_spec (Z.land alignment (u32 (alignment - 1))) 0) as [Hp|]; simpl.
  2: { apply wp_ret. exists given. split; [done|]. left. auto. }
  destruct (request debug size alignment) as [size' alignment'] eqn:Er.
  destruct (request_spec size alignment size' alignment') as (Hal & Hsz & Hb & H8 & Hdiv); [done..|].
  apply wp_bind. eapply wp_mono; [apply (wp_try_alloc given size' size alignment'); [done|done|lia|lia|lia|done]|].
  intros p h1 [(-> & -> & Hno)|(Hp0 & Hk1 & c & Hc)]; simpl.
  2: { rw (proj2 (Z.eqb_neq p 0)) //. apply wp_ret. exists given. split; [done|]. right. split; [done|]. exists c. by eapply (allocated_same _ _ _ _ _ h h). }
  apply wp_bind. eapply wp_mono; [by apply (wp_heap_grow given)|].
  intros err h1 [Hsr [(-> & -> & Hn)|(He & (r & Hk1) & c & Hc & Hcl)]]; simpl; [apply wp_ret; exists given; split; [done|]; left; by split_and!; [..|right]|].
  rw (proj2 (Z.leb_le 0 err)) //.
  eapply wp_mono; [apply (wp_try_alloc (r :: given) size' size alignment'); [done|done|lia|lia|lia|done]|].
  intros p h2 [(_ & _ & Hno')|(Hp0 & Hk2 & c2 & Hc2)]; [specialize (Hno' c Hc); lia|].
  exists (r :: given). split; [done|]. right. split; [done|]. exists c2. by eapply allocated_same.
Qed.

(** ** Freeing *)

Lemma wp_miniheap_free given p c h :
  heap_ok given [] h → h_allocs h !! p = Some c → (debug = true → 24 < c.2) →
  wp (miniheap_free debug SENTINEL p) (λ _ h', heap_ok given [] h' ∧ h_allocs h' = delete p (h_allocs h) ∧
    h_paged h' = h_paged h ∧ h_delayed h' = h_delayed h ∧
    h_remaining h' = h_remaining h + c.2 ∧ ∃ c', c' ∈ h_free h' ∧ c'.1 ≤ c.1 ∧ c.1 + c.2 ≤ c'.1 + c'.2) h.
Proof.
  intros Hk Hp Hd. pose proof Hk as [Hb Ho Hg Hf Ha HS Hr]. destruct (Ha p c Hp) as [Hc Hpr]. pose proof Hc as [].
  assert (0 < BEGIN) by (rw /ALLOC_BEGIN; by destruct debug). rw /miniheap_free (proj2 (Z.eqb_neq p 0)); [|lia].
  apply wp_bind. eapply wp_deref; [done|]. apply wp_bind, wp_modify. apply wp_bind, wp_bind, debug_assert_true; [by apply Z.eqb_eq, Z.mod_divide|].
  apply wp_bind, wp_assert; [|]. { destruct debug; [|done]. apply Z.ltb_lt. by apply Hd. }
  apply wp_ret. apply wp_bind. eapply wp_mono; [apply (wp_insert given _ []); [|by destruct c]|].
  - split; try done; simpl; [|intros q cq [_ ?]%lookup_delete_Some; by apply Ha].
    intros x. rw -Hb /alloc_chunks (cnt_delete _ _ _ x Hp) /=. destruct c. simpl. rw /returned /=. lia.
  - intros _ h1 (Hk1 & [E1 E2 E3] & Ht & Hex & _). apply wp_ret. rewrite (hk_remaining _ _ _ Hk1) Ht Hr. by split_and!.
Qed.
End spec.
