(* ===== verification/MiniheapSys.v ===== *)
(** * The heap: trimming, and any sequence of calls

    [miniheap_trim] gives whole pages that are free back to the page allocator and
    keeps every other byte.  The calls of [heap_wrapper.c] on the heap, in any order:
    none goes wrong, and the allocations never overlap. *)

From S2P Require Import Prelude Bits Miniheap MiniheapSpec.

Section trim.
Context (debug : bool) (SENTINEL : Z).
Implicit Types (h : heap) (c : chunk) (given : list chunk).

(** The bytes of lists of pages *)
Definition page_bytes (l : list (Z * Z)) : list chunk := (λ '(a, pages), (a, pages * PAGE_SIZE)) <$> l.

(** Whole pages, or none *)
Definition whole_pages (r : Z * Z) : Prop := (PAGE_SIZE | r.1) ∧ 0 < r.2.

(** The pages can be cut out of the chunk. *)
Definition good_range (start end_ sp ep : Z) : Prop :=
  (PAGE_SIZE | sp) ∧ (PAGE_SIZE | ep) ∧ start ≤ sp ∧ ep ≤ end_ ∧
  (sp < ep → (sp = start ∨ 24 ≤ sp - start) ∧ (ep = end_ ∨ 24 ≤ end_ - ep)).

(** With room before the pages, two tries are enough. *)
Lemma trim_range_end f start end_ sp ep :
  start ≤ sp → ep ≤ end_ → (PAGE_SIZE | sp) → (PAGE_SIZE | ep) → sp = start ∨ 24 ≤ sp - start →
  ∃ ep', trim_range (S (S f)) start end_ sp ep = Some (sp, ep') ∧ good_range start end_ sp ep' ∧ (ep' = ep ∨ end_ - ep < 24 ∧ ep' = ep - 4096).
Proof.
  intros Hs He Hds Hde Hroom. assert (PAGE_SIZE | ep - 4096) by (apply Z.divide_sub_r; [done|by exists 1]).
  assert (negb (sp =? start) && (sp - start <? FREE_CHUNK) = false) as Hno.
  { destruct Hroom as [->|?]; [by rw Z.eqb_refl|]. rw (proj2 (Z.ltb_ge _ _)); [by rw andb_false_r|done]. }
  cbn [trim_range]. rw !Hno. rw /FREE_CHUNK. change PAGE_SIZE with 4096 in *.
  destruct (Z.leb_spec ep sp); [exists ep; split_and!; [done|split_and!; [done..|lia]|by left]|].
  destruct (Z.ltb_spec ep end_), (Z.ltb_spec (end_ - ep) 24); simpl;
    try (exists ep; split_and!; [done|split_and!; [done..|lia]|by left]).
  exists (ep - 4096). destruct (Z.leb_spec (ep - 4096) sp); [split_and!; [done|split_and!; [done|done|done|lia|lia]|right; lia]|].
  rw (proj2 (Z.ltb_ge (end_ - (ep - 4096)) 24)); [|lia]. rw andb_false_r. split_and!; [done|split_and!; [done|done|done|lia|lia]|right; lia].
Qed.

Lemma trim_range_spec start end_ sp ep :
  start ≤ sp → ep ≤ end_ → (PAGE_SIZE | sp) → (PAGE_SIZE | ep) →
  ∃ sp' ep', trim_range 3 start end_ sp ep = Some (sp', ep') ∧ good_range start end_ sp' ep' ∧ (ep' = ep ∨ end_ - ep < 24 ∧ ep' = ep - 4096).
Proof.
  intros Hs He Hds Hde. destruct (decide (sp = start ∨ 24 ≤ sp - start)) as [Hr|Hr].
  { destruct (trim_range_end 1 start end_ sp ep) as (ep' & ? & ? & ?); [done..|]. by exists sp, ep'. }
  destruct (Z.leb_spec ep sp) as [Hle|Hgt].
  { exists sp, ep. cbn [trim_range]. rw (proj2 (Z.leb_le _ _)) //. split_and!; [done|split_and!; [done..|lia]|by left]. }
  destruct (trim_range_end 0 start end_ (sp + 4096) ep) as (ep' & E & ? & ?); [lia|done|apply Z.divide_add_r; [done|by exists 1]|done|lia|].
  exists (sp + 4096), ep'. split_and!; [|done..]. rewrite -E. change 3%nat with (S 2). cbn [trim_range] in E |- *.
  rw (proj2 (Z.leb_gt ep sp)) // (proj2 (Z.eqb_neq sp start)); [|lia]. rw (proj2 (Z.ltb_lt (sp - start) FREE_CHUNK)); [done|rw /FREE_CHUNK; lia].
Qed.
(** The chunks [l] and the pages [r] are what became of [c]. *)
Record cut c (l : list chunk) (r : list (Z * Z)) : Prop := {
  ct_pages : Forall whole_pages r;
  ct_ok : Forall chunk_ok l;
  ct_gaps : gaps l;
  ct_in c' : c' ∈ l → c.1 ≤ c'.1 ∧ c'.1 + c'.2 ≤ c.1 + c.2;
  ct_bytes x : cnt l x + cnt (page_bytes r) x = inside c x;
  ct_total : total l + total (page_bytes r) = c.2
}.

Definition trimmed_by (r : list (Z * Z)) h h' : Prop :=
  h_free h' = h_free h ∧ h_allocs h' = h_allocs h ∧ h_delayed h' = h_delayed h ∧ h_paged h' = h_paged h ++ r ∧
  (total (page_bytes r) ≤ h_remaining h < 2 ^ 64 → h_remaining h' = h_remaining h - total (page_bytes r)).

Lemma cut_none c : chunk_ok c → cut c [c] [].
Proof.
  intros Hc. split; [done|by apply Forall_singleton|by split; [set_solver|]| |simpl; lia|simpl; lia].
  intros c' ->%list_elem_of_singleton. lia.
Qed.

(** A piece of a chunk, when it is not empty *)
Definition piece (a n : Z) : list chunk := if n =? 0 then [] else [(a, n)].

Lemma piece_spec a n x : 0 ≤ n → cnt (piece a n) x = inside (a, n) x ∧ total (piece a n) = n ∧ gaps (piece a n).
Proof.
  intros. rw /piece. destruct (Z.eqb_spec n 0) as [->|]; simpl; [|split_and!; [lia|lia|set_solver|done]].
  split_and!; [|done|done]. destruct (inside_cases (a, 0) x); simpl in *; lia.
Qed.

Lemma piece_elem a n c : c ∈ piece a n → c = (a, n) ∧ n ≠ 0.
Proof. rw /piece. destruct (Z.eqb_spec n 0); [by intros ?%elem_of_nil|]. by intros ->%list_elem_of_singleton. Qed.

(** Cutting whole pages out of a chunk *)
Lemma cut_pages c sp ep :
  chunk_ok c → good_range c.1 (c.1 + c.2) sp ep → sp < ep →
  cut c (piece c.1 (sp - c.1) ++ piece ep (c.1 + c.2 - ep)) [(sp, (ep - sp) / PAGE_SIZE)].
Proof.
  intros [] (Hds & Hde & Hs & He & Hr) Hlt. destruct (Hr Hlt) as [Hr1 Hr2]. assert (PAGE_SIZE | ep - sp) as [q Hq] by by apply Z.divide_sub_r.
  assert ((ep - sp) / PAGE_SIZE * PAGE_SIZE = ep - sp) as Eq by (rw Hq; change PAGE_SIZE with 4096; rw Z.div_mul; lia). assert (8 | PAGE_SIZE) as H8 by by exists 512.
  pose proof (Z.divide_trans _ _ _ H8 Hds). pose proof (Z.divide_trans _ _ _ H8 Hde). assert (8 | c.1 + c.2) by by apply Z.divide_add_r.
  pose proof (λ x, piece_spec c.1 (sp - c.1) x ltac:(lia)) as Hp1. pose proof (λ x, piece_spec ep (c.1 + c.2 - ep) x ltac:(lia)) as Hp2.
  split.
  - apply Forall_singleton. split; [done|]. simpl. change PAGE_SIZE with 4096 in *. lia.
  - apply Forall_app. split; apply Forall_forall; intros c' [-> ?]%piece_elem; (split; simpl; [lia|done|by apply Z.divide_sub_r|lia|lia]).
  - apply gaps_app. split_and!; [apply (Hp1 0)|apply (Hp2 0)|]. intros c1 c2 [-> ?]%piece_elem [-> ?]%piece_elem. simpl. lia.
  - intros c' [[-> ?]%piece_elem|[-> ?]%piece_elem]%elem_of_app; simpl; lia.
  - intros x. rw cnt_app (proj1 (Hp1 x)) (proj1 (Hp2 x)) /= Eq. pose proof (inside_join c.1 (sp - c.1) (ep - sp) x) as J1.
    pose proof (inside_join c.1 (ep - c.1) (c.1 + c.2 - ep) x) as J2. destruct c as [a n]. simpl in *.
    replace (a + (sp - a)) with sp in J1 by lia. replace (sp - a + (ep - sp)) with (ep - a) in J1 by lia.
    replace (a + (ep - a)) with ep in J2 by lia. replace (ep - a + (a + n - ep)) with n in J2 by lia. lia.
  - rw total_app. destruct (Hp1 0) as (_ & -> & _), (Hp2 0) as (_ & -> & _). simpl. rw Eq. lia.
Qed.

Lemma wp_trim_chunk c h :
  chunk_ok c → (debug = true → (c.1 + c.2) mod 4096 ≠ 24) →
  wp (trim_chunk debug c) (λ l h', ∃ r, cut c l r ∧ trimmed_by r h h') h.
Proof.
  intros Hc Hd. pose proof Hc as []. rw /trim_chunk u64_small; [|lia].
  apply wp_bind, debug_assert_true; [by apply Z.ltb_lt; lia|].
  destruct (roundup_spec c.1 12) as [Hs1 Hs2]; [lia..|]. destruct (rounddown_spec (c.1 + c.2) 12) as (He1 & He2 & He3); [lia..|].
  change PAGE_SIZE with (2 ^ 12). set (sp := ROUNDUP _ _) in *. set (ep := ROUNDDOWN _ _) in *.
  apply wp_bind, debug_assert_true; [apply Z.leb_le; lia|]. apply wp_bind, debug_assert_true; [apply Z.leb_le; lia|].
  destruct (trim_range_spec c.1 (c.1 + c.2) sp ep) as (sp' & ep' & Et & Hg & Hep); [lia|lia|done|done|].
  apply wp_bind. eapply wp_deref; [exact Et|]. cbv beta iota.
  destruct (Z.ltb_spec sp' ep') as [Hlt|Hge].
  2: { apply wp_ret. exists []. split; [by apply cut_none|]. split_and!; [done..|by rw app_nil_r|simpl; lia]. }
  pose proof (cut_pages c sp' ep' Hc Hg Hlt) as Hcut. destruct Hg as (Hd1 & Hd2 & Hg1 & Hg2 & Hr). destruct (Hr Hlt) as [_ Hr2].
  assert ((if sp' =? c.1 then [] else [(c.1, sp' - c.1)]) = piece c.1 (sp' - c.1)) as ->.
  { rw /piece. destruct (Z.eqb_spec sp' c.1), (Z.eqb_spec (sp' - c.1) 0); try done; lia. }
  apply wp_bind.
  assert (wp (if ep' <? c.1 + c.2 then new ← heap_create_free_chunk debug ep' (c.1 + c.2 - ep'); mret [new] else mret [])
    (λ l h', l = piece ep' (c.1 + c.2 - ep') ∧ h' = h) h) as Hafter.
  { rw /piece. destruct (Z.ltb_spec ep' (c.1 + c.2)); [|rw (proj2 (Z.eqb_eq _ 0)); [by apply wp_ret|lia]].
    rw (proj2 (Z.eqb_neq _ 0)); [|lia]. apply wp_bind, wp_bind, debug_assert_true.
    { apply Z.eqb_eq, Z.mod_divide; [done|]. apply Z.divide_sub_r; [by apply Z.divide_add_r|]. eapply Z.divide_trans; [|exact Hd2]. by exists 512. }
    apply wp_bind, wp_assert; [|by apply wp_ret, wp_ret]. destruct debug; [|done]. apply Z.ltb_lt. rw /FREE_CHUNK.
    assert (c.1 + c.2 - ep' ≠ 24); [|lia]. intros E. apply Hd; [done|]. destruct Hep as [->|?]; [|lia]. destruct He1 as [k Hk].
    rw (_ : c.1 + c.2 = 24 + k * 4096); [by rw Z.mod_add|lia]. }
  assert (PAGE_SIZE | ep' - sp') as [q Hq] by by apply Z.divide_sub_r.
  assert ((ep' - sp') / PAGE_SIZE * PAGE_SIZE = ep' - sp') as Eq by (rw Hq; change PAGE_SIZE with 4096; rw Z.div_mul; lia).
  eapply wp_mono; [exact Hafter|]. intros l h' [-> ->]. apply wp_bind, wp_bind, wp_modify, wp_modify, wp_ret.
  exists [(sp', (ep' - sp') / PAGE_SIZE)]. split; [done|]. split_and!; [done..|]. simpl. intros [Hle Hb]. rw u64_small; lia.
Qed.

Lemma page_bytes_app r1 r2 : page_bytes (r1 ++ r2) = page_bytes r1 ++ page_bytes r2.
Proof. apply fmap_app. Qed.

Lemma wp_trim_walk l k h :
  Forall chunk_ok l → gaps l → (debug = true → ∀ c, c ∈ l → (c.1 + c.2) mod 4096 ≠ 24) →
  h_remaining h = k + total l → 0 ≤ k → k + total l < 2 ^ 64 →
  wp (trim_walk debug l) (λ l' h', ∃ r, Forall whole_pages r ∧ Forall chunk_ok l' ∧ gaps l' ∧
    (∀ c', c' ∈ l' → ∃ c, c ∈ l ∧ c.1 ≤ c'.1 ∧ c'.1 + c'.2 ≤ c.1 + c.2) ∧
    (∀ x, cnt l' x + cnt (page_bytes r) x = cnt l x) ∧ h_remaining h' = k + total l' ∧
    h_free h' = h_free h ∧ h_allocs h' = h_allocs h ∧ h_delayed h' = h_delayed h ∧ h_paged h' = h_paged h ++ r) h.
Proof.
  intros Hl. revert k h. induction Hl as [|c l Hc Hl IH]; intros k h Hg Hd Hr Hk Hb; simpl in *.
  { apply wp_ret. exists []. split_and!; try done; [set_solver|by rw app_nil_r]. }
  destruct Hg as [Hgc Hg]. apply wp_bind. eapply wp_mono; [apply wp_trim_chunk; [done|intros; apply Hd; set_solver]|].
  intros l1 h1 (r1 & [P1 O1 G1 I1 B1 T1] & E1 & E2 & E3 & E4 & E5). pose proof (total_nonneg l Hl). pose proof (total_nonneg l1 O1).
  assert (0 ≤ total (page_bytes r1)) by (clear -P1; induction P1 as [|[a n] r [_ ?] ? IH]; simpl in *; [done|]; change PAGE_SIZE with 4096; lia).
  apply wp_bind. eapply wp_mono; [apply (IH (k + total l1)); [done|intros; apply Hd; set_solver|rw E5; lia|lia|lia]|].
  intros l2 h2 (r2 & P2 & O2 & G2 & I2 & B2 & R2 & F1 & F2 & F3 & F4). apply wp_ret. exists (r1 ++ r2).
  split_and!; [by apply Forall_app|by apply Forall_app| | | |rw total_app; lia|congruence..|by rw F4 E4 app_assoc].
  - apply gaps_app. split_and!; [done..|]. intros c1 c2 [? ?]%I1 (c' & Hc' & ? & ?)%I2. specialize (Hgc c' Hc'). lia.
  - intros c' [?%I1|(c2 & ? & ?)%I2]%elem_of_app; [exists c; split; [set_solver|done]|exists c2; split; [set_solver|done]].
  - intros x. rw page_bytes_app !cnt_app -(B1 x) -(B2 x). lia.
Qed.

Lemma wp_miniheap_trim given h :
  heap_ok debug SENTINEL given [] h → (debug = true → ∀ c, c ∈ h_free h → (c.1 + c.2) mod 4096 ≠ 24) →
  wp (miniheap_trim debug) (λ _ h', heap_ok debug SENTINEL given [] h' ∧ h_allocs h' = h_allocs h ∧ h_delayed h' = h_delayed h ∧
    ∃ r, h_paged h' = h_paged h ++ r ∧ Forall whole_pages r ∧ ∀ x, cnt (h_free h') x + cnt (page_bytes r) x = cnt (h_free h) x) h.
Proof.
  intros Hk Hd. pose proof Hk as [Hb Ho Hg Hf Ha HS Hr]. apply wp_bind, wp_gets, wp_bind.
  eapply wp_mono; [apply (wp_trim_walk _ 0); [done|done|done|lia|lia|]|].
  - pose proof (chunks_total_bound _ Hf Hg 0) as HB. destruct HB as [? ?]; [|lia|lia]. intros c Hc. rewrite Forall_forall in Hf. destruct (Hf c Hc). lia.
  - intros l' h' (r & Hp & Hf' & Hg' & _ & Hx & Hr' & F1 & F2 & F3 & F4). apply wp_modify.
    split_and!; [|done|done|by exists r]. split; try done; simpl.
    + intros x. rw -Hb -(Hx x) /alloc_chunks /returned /= F2 F4 fmap_app cnt_app -/(page_bytes r). lia.
    + intros x. rw /returned /= F4 fmap_app cnt_app -/(page_bytes r). pose proof (Ho x) as Ho'. rw /returned in Ho'.
      pose proof (cnt_nonneg (page_bytes r) x). lia.
    + intros p c. rw F2. apply Ha.
Qed.
End trim.

Section sys.
Context (debug : bool) (SENTINEL : Z).
Implicit Types (h : heap) (c : chunk).

Abbreviation heap_ok := (heap_ok debug SENTINEL).

(** In debug builds a chunk of the smallest size cannot be freed; a request for at
    least one byte never gets one. *)
Record heap_inv h : Prop := {
  hi_ok : ∃ given, heap_ok given [] h;
  hi_big : debug = true → ∀ p c, h_allocs h !! p = Some c → 24 < c.2;
  hi_delayed_nodup : NoDup (h_delayed h);
  hi_delayed p : p ∈ h_delayed h → is_Some (h_allocs h !! p)
}.

(** The page allocator gives pages that the heap does not have. *)
Definition pages_fresh h (page_alloc : Z → option Z) : Prop :=
  ∀ pages p, 0 < pages → page_alloc pages = Some p →
    0 < p ∧ (PAGE_SIZE | p) ∧ p + pages * PAGE_SIZE < 2 ^ 64 - PAGE_SIZE ∧ ¬ (p ≤ SENTINEL - 1 < p + pages * PAGE_SIZE) ∧
    ∀ x, p ≤ x < p + pages * PAGE_SIZE → cnt (h_free h) x + cnt (alloc_chunks h) x = 0.

Lemma pages_fresh_ok given h page_alloc : heap_ok given [] h → pages_fresh h page_alloc → pages_ok SENTINEL given h page_alloc.
Proof.
  intros Hk Hf pages p Hp Ep. destruct (Hf pages p Hp Ep) as (? & ? & ? & ? & Hx). split_and!; try done.
  intros x Hx'. rw -(hk_bytes _ _ _ _ _ Hk x) /=. specialize (Hx x Hx'). lia.
Qed.

(** ** The delayed list *)

Lemma wp_free_all l given h :
  heap_ok given [] h → (debug = true → ∀ p c, h_allocs h !! p = Some c → 24 < c.2) → NoDup l → (∀ p, p ∈ l → is_Some (h_allocs h !! p)) →
  wp (free_all debug SENTINEL l) (λ _ h', heap_ok given [] h' ∧ h_paged h' = h_paged h ∧ h_delayed h' = h_delayed h ∧
    ∀ p, h_allocs h' !! p = if decide (p ∈ l) then None else h_allocs h !! p) h.
Proof.
  revert h. induction l as [|p l IH]; intros h Hk Hbig Hnd Hin; simpl; [apply wp_ret; by split_and!|].
  apply NoDup_cons in Hnd as [Hp Hnd]. destruct (Hin p) as [c Hc]; [set_solver|].
  apply wp_bind. eapply wp_mono; [eapply wp_miniheap_free; [done|done|intros; by eapply Hbig]|].
  intros _ h1 (Hk1 & E1 & E2 & E3 & _). eapply wp_mono; [apply (IH h1); [done| |done|]|].
  - intros Hd q cq. rw E1. intros [_ ?]%lookup_delete_Some. by eapply Hbig.
  - intros q Hq. rw E1 lookup_delete_ne; [apply Hin; set_solver|set_solver].
  - intros _ h2 (? & ? & ? & Ha). split_and!; [done|congruence..|]. intros q. rw Ha E1.
    destruct (decide (q = p)) as [->|]; [rw (decide_True (P := p ∈ p :: l)); [|set_solver]; case_decide; [done|apply lookup_delete_eq]|].
    rw lookup_delete_ne //. repeat case_decide; try done; set_solver.
Qed.

(** What the calls do first: the delayed frees *)
Lemma wp_pending given h :
  heap_inv h → heap_ok given [] h →
  wp (pending debug SENTINEL) (λ _ h', heap_ok given [] h' ∧ heap_inv h' ∧ h_paged h' = h_paged h ∧ h_delayed h' = [] ∧
    ∀ p, h_allocs h' !! p = if decide (p ∈ h_delayed h) then None else h_allocs h !! p) h.
Proof.
  intros [_ Hbig Hnd Hin] Hk. apply wp_bind, wp_gets. apply wp_when.
  - intros _. apply wp_bind, wp_gets, wp_bind, wp_modify.
    eapply wp_mono; [apply (wp_free_all _ given); [by destruct Hk|done|by rw reverse_Permutation|intros p; rw elem_of_reverse; apply Hin]|].
    intros _ h' (Hk' & E1 & E2 & Ha).
    assert (∀ p, h_allocs h' !! p = if decide (p ∈ h_delayed h) then None else h_allocs h !! p) as Ha'.
    { intros p. rw Ha. repeat case_decide; try done; set_solver. }
    split_and!; [done|split; [by exists given| | |]|done|done|done]; [|rw E2; apply NoDup_nil_2|rw E2; by intros p ?%elem_of_nil].
    intros Hd p c. rw Ha'. case_decide; [done|]. by apply Hbig.
  - intros E. apply negb_false_iff, bool_decide_eq_true in E. rw E.
    split_and!; [done|split; [by exists given|done|by rw E; apply NoDup_nil_2|rw E; by intros p ?%elem_of_nil]|done..].
Qed.
(** ** The calls *)

Lemma wp_alloc_inv given page_alloc size alignment h :
  heap_inv h → heap_ok given [] h → pages_ok SENTINEL given h page_alloc → 0 ≤ size < 2 ^ 62 → (debug = true → 0 < size) → 0 ≤ alignment < 2 ^ 32 →
  wp (miniheap_alloc debug SENTINEL page_alloc size alignment) (λ p h', heap_inv h' ∧ h_delayed h' = h_delayed h ∧
    ∀ q, is_Some (h_allocs h !! q) → h_allocs h' !! q = h_allocs h !! q) h.
Proof.
  intros Hi Hk Hpa Hs Hpos Ha. pose proof Hi as [_ Hbig Hnd Hin].
  eapply wp_mono; [by eapply wp_miniheap_alloc|]. intros p h' (given' & Hk' & [(_ & -> & _)|(_ & c & E & Hn & Hc & H1 & H2 & _ & _ & _ & Ed)]); [done|].
  split; [split; [by exists given'| |by rw Ed|]|split; [done|]].
  - intros Hd q cq. rw E. intros [[<- <-]|[_ ?]]%lookup_insert_Some; [|by eapply Hbig]. specialize (Hpos Hd). rewrite /ALLOC_BEGIN Hd in H1. lia.
  - rw Ed E. intros q Hq%Hin. destruct (decide (q = p)) as [->|]; [by rw lookup_insert_eq|by rw lookup_insert_ne].
  - intros q [cq Hq]. rw E. apply lookup_insert_ne. congruence.
Qed.

Lemma wp_free_inv p h :
  heap_inv h → p = 0 ∨ is_Some (h_allocs h !! p) ∧ p ∉ h_delayed h → wp (miniheap_free debug SENTINEL p) (λ _ h', heap_inv h' ) h.
Proof.
  intros Hi [->|[[c Hc] Hp]]; [by apply wp_ret|]. pose proof Hi as [[given Hk] Hbig Hnd Hin].
  eapply wp_mono; [eapply wp_miniheap_free; [done|done|intros; by eapply Hbig]|]. intros _ h' (Hk' & E & _ & Ed & _).
  split; [by exists given| |by rw Ed|].
  - intros Hd q cq. rw E. intros [_ ?]%lookup_delete_Some. by eapply Hbig.
  - rw Ed E. intros q Hq. rw lookup_delete_ne; [by apply Hin|congruence].
Qed.

Lemma wp_trim_inv h :
  heap_inv h → (debug = true → ∀ c, c ∈ h_free h → (c.1 + c.2) mod 4096 ≠ 24) → wp (miniheap_trim debug) (λ _ h', heap_inv h') h.
Proof.
  intros [[given Hk] Hbig Hnd Hin] Hd. eapply wp_mono; [by eapply wp_miniheap_trim|]. intros _ h' (Hk' & E & Ed & _).
  split; [by exists given|by rw E|by rw Ed|by rw Ed E].
Qed.

Inductive heap_call :=
| Malloc (page_alloc : Z → option Z) (size : Z)
| Memalign (page_alloc : Z → option Z) (boundary size : Z)
| Calloc (page_alloc : Z → option Z) (count size : Z)
| Realloc (page_alloc : Z → option Z) (ptr size : Z)
| Free (ptr : Z)
| DelayedFree (ptr : Z)
| Trim.

Definition run_heap_call (op : heap_call) : M heap Z :=
  match op with
  | Malloc page_alloc size => malloc debug SENTINEL page_alloc size
  | Memalign page_alloc boundary size => memalign debug SENTINEL page_alloc boundary size
  | Calloc page_alloc count size => res ← calloc debug SENTINEL page_alloc count size; mret res.1
  | Realloc page_alloc ptr size => res ← realloc debug SENTINEL page_alloc ptr size; mret res.1
  | Free ptr => free debug SENTINEL ptr;; mret 0
  | DelayedFree ptr => heap_delayed_free ptr;; mret 0
  | Trim => heap_trim debug SENTINEL;; mret 0
  end.

(** What a caller has to respect: sizes that do not wrap, pointers that it holds; in
    debug builds no empty requests, and no trimming while the free memory after a
    page is as small as a chunk's own structure. *)
Definition heap_call_ok h (op : heap_call) : Prop :=
  match op with
  | Malloc page_alloc size => pages_fresh h page_alloc ∧ 0 ≤ size < 2 ^ 62 ∧ (debug = true → 0 < size)
  | Memalign page_alloc boundary size => pages_fresh h page_alloc ∧ 0 ≤ size < 2 ^ 62 ∧ (debug = true → 0 < size) ∧ 0 ≤ boundary < 2 ^ 32
  | Calloc page_alloc count size => pages_fresh h page_alloc ∧ 0 ≤ count * size < 2 ^ 62 ∧ (debug = true → 0 < count * size)
  | Realloc page_alloc ptr size =>
      pages_fresh h page_alloc ∧ 0 ≤ size < 2 ^ 62 ∧ (debug = true → ptr = 0 → 0 < size) ∧ (ptr = 0 ∨ is_Some (h_allocs h !! ptr) ∧ ptr ∉ h_delayed h)
  | Free ptr => ptr = 0 ∨ is_Some (h_allocs h !! ptr) ∧ ptr ∉ h_delayed h
  | DelayedFree ptr => is_Some (h_allocs h !! ptr) ∧ ptr ∉ h_delayed h
  | Trim => debug = true → h_delayed h = [] ∧ ∀ c, c ∈ h_free h → (c.1 + c.2) mod 4096 ≠ 24
  end.

Lemma pages_ok_same given h h' page_alloc : h_paged h' = h_paged h → pages_ok SENTINEL given h page_alloc → pages_ok SENTINEL given h' page_alloc.
Proof. intros E Hp pages p Hpos Ep. rw /returned E. by apply Hp. Qed.

Lemma wp_pending_alloc {A} page_alloc (m : M heap A) (Q : A → heap → Prop) h :
  heap_inv h → pages_fresh h page_alloc →
  (∀ given h', heap_inv h' → heap_ok given [] h' → pages_ok SENTINEL given h' page_alloc → h_delayed h' = [] →
    (∀ p, p ∉ h_delayed h → h_allocs h' !! p = h_allocs h !! p) → wp m Q h') →
  wp (pending debug SENTINEL;; m) Q h.
Proof.
  intros Hi Hf HQ. pose proof (hi_ok _ Hi) as [given Hk]. apply wp_bind. eapply wp_mono; [by apply (wp_pending given)|].
  intros _ h' (Hk' & Hi' & Ep & Ed & Ha). apply (HQ given); [done|done| |done|].
  - eapply pages_ok_same; [done|]. by apply pages_fresh_ok.
  - intros p Hp. by rw Ha decide_False.
Qed.

Lemma wp_realloc_inv page_alloc ptr size given h :
  heap_inv h → heap_ok given [] h → pages_ok SENTINEL given h page_alloc → h_delayed h = [] → 0 ≤ size < 2 ^ 62 → (debug = true → ptr = 0 → 0 < size) →
  ptr = 0 ∨ is_Some (h_allocs h !! ptr) → wp (miniheap_realloc debug SENTINEL page_alloc ptr size) (λ _ h', heap_inv h') h.
Proof.
  intros Hi Hk Hp Ed Hs Hpos Hptr. rw /miniheap_realloc. destruct (Z.eqb_spec ptr 0) as [->|Hne].
  { apply wp_bind. eapply wp_mono; [apply (wp_alloc_inv given); auto; lia|]. intros p h' [? _]. by apply wp_ret. }
  destruct Hptr as [?|Hptr]; [done|]. destruct (Z.eqb_spec size 0) as [->|Hs0].
  { apply wp_bind. eapply wp_mono; [apply wp_free_inv; [done|right; split; [done|rw Ed; apply not_elem_of_nil]]|]. intros [] h' ?. by apply wp_ret. }
  apply wp_bind. eapply wp_mono; [apply (wp_alloc_inv given); auto; lia|]. intros p h' (Hi' & Ed' & Ha).
  destruct (p =? 0); [by apply wp_ret|]. apply wp_bind. eapply wp_mono; [apply wp_free_inv; [done|]|].
  - right. rw Ha // Ed' Ed. split; [done|apply not_elem_of_nil].
  - intros [] h2 ?. by apply wp_ret.
Qed.

Lemma wp_run_heap_call op h : heap_inv h → heap_call_ok h op → wp (run_heap_call op) (λ _ h', heap_inv h') h.
Proof.
  intros Hi Hok. destruct op as [pa size|pa boundary size|pa count size|pa ptr size|ptr|ptr|]; simpl in *.
  - destruct Hok as (Hp & Hs & Hpos). eapply wp_pending_alloc; [done..|]. intros given h' ? ? ? ? _.
    eapply wp_mono; [apply (wp_alloc_inv given); auto; lia|]. by intros p h2 [? _].
  - destruct Hok as (Hp & Hs & Hpos & Hb). eapply wp_pending_alloc; [done..|]. intros given h' ? ? ? ? _. rw u32_small //.
    eapply wp_mono; [apply (wp_alloc_inv given); auto|]. by intros p h2 [? _].
  - destruct Hok as (Hp & Hs & Hpos). apply wp_bind. eapply wp_pending_alloc; [done..|]. intros given h' ? ? ? ? _. rw u64_small; [|lia].
    apply wp_bind. eapply wp_mono; [apply (wp_alloc_inv given); auto; lia|]. intros p h2 [? _]. by apply wp_ret, wp_ret.
  - destruct Hok as (Hp & Hs & Hpos & Hptr). apply wp_bind. eapply wp_pending_alloc; [done..|]. intros given h' Hi' Hk' Hp' Ed Ha.
    eapply wp_mono; [apply (wp_realloc_inv _ _ _ given); try done|by intros r h2 ?; apply wp_ret].
    destruct Hptr as [?|[? ?]]; [by left|right; by rw Ha].
  - apply wp_bind. eapply wp_mono; [by apply wp_free_inv|]. intros [] h' ?. by apply wp_ret.
  - destruct Hok as [Hs Hn]. apply wp_bind, wp_modify, wp_ret. destruct Hi as [[given Hk] Hbig Hnd Hin].
    split; [exists given; by destruct Hk|done|by apply NoDup_cons|]. intros p [->|?]%elem_of_cons; [done|by apply Hin].
  - apply wp_bind. assert (∀ h', heap_inv h' → (debug = true → ∀ c, c ∈ h_free h' → (c.1 + c.2) mod 4096 ≠ 24) →
      wp (miniheap_trim debug) (λ _ h2, wp (mret 0) (λ (_ : Z) h', heap_inv h') h2) h') as Htrim.
    { intros h' Hi' Hd. eapply wp_mono; [by apply wp_trim_inv|]. intros [] h2 ?. by apply wp_ret. }
    apply wp_bind. destruct (decide (debug = true)) as [Ed|Ed].
    + destruct (Hok Ed) as [E Hc]. apply wp_bind, wp_gets. rw E. by apply Htrim.
    + pose proof (hi_ok _ Hi) as [given Hk]. eapply wp_mono; [by apply (wp_pending given)|]. intros _ h' (_ & ? & _). by apply Htrim.
Qed.

(** ** Reachable states *)

(** From a range of memory given to the heap at the start, by calls. *)
Inductive heap_reachable : heap → Prop :=
| reach_init ptr len h h' :
    chunk_ok (ptr, len) → (debug = true → 24 < len) → ¬ (ptr ≤ SENTINEL - 1 < ptr + len) →
    h_allocs h = ∅ → h_paged h = [] → h_delayed h = [] → miniheap_init debug SENTINEL ptr len h = Some ((), h') → heap_reachable h'
| reach_call h op r h' : heap_reachable h → heap_call_ok h op → run_heap_call op h = Some (r, h') → heap_reachable h'.

Lemma wp_miniheap_init ptr len h :
  chunk_ok (ptr, len) → (debug = true → 24 < len) → ¬ (ptr ≤ SENTINEL - 1 < ptr + len) →
  h_allocs h = ∅ → h_paged h = [] → h_delayed h = [] →
  wp (miniheap_init debug SENTINEL ptr len) (λ _ h', heap_inv h' ∧ heap_ok [(ptr, len)] [] h' ∧ h_low_watermark h' = 0) h.
Proof.
  intros Hc Hd Hs Ea Ep Ed. pose proof Hc as [H0 [q Hq] H8 ? ?]. simpl in *. apply wp_bind, wp_modify. rw /POINTER.
  rewrite {1}Hq Z.mod_mul; [|lia]. simpl. apply wp_bind, wp_ret, wp_bind, wp_modify. rw (proj2 (Z.ltb_lt 0 len)); [|lia]. simpl.
  apply wp_bind, wp_bind, debug_assert_true; [by apply Z.eqb_eq, Z.mod_divide|].
  apply wp_bind, wp_assert; [destruct debug; [|done]; by apply Z.ltb_lt, Hd|]. apply wp_ret, wp_bind.
  eapply wp_mono; [apply (wp_insert debug SENTINEL [(ptr, len)] (ptr, len) [])|]; [|done|].
  - apply heap_ok_give; [|simpl|done]. 2: { intros x ?. by rw /returned /= Ep. }
    split; simpl; [|..]; try done; rw ?/alloc_chunks ?/returned /= ?Ea ?Ep //; by intros p c ?%lookup_empty_Some.
  - intros _ h' (Hk & [E1 E2 E3] & _ & _ & El). apply wp_ret. simpl in *. rewrite Ea in E1. rewrite Ed in E3.
    split_and!; [|done|done]. split; [by exists [(ptr, len)]|rw E1; by intros ? ? ? ?%lookup_empty_Some|rw E3; apply NoDup_nil_2|rw E3; by intros p ?%elem_of_nil].
Qed.

Lemma heap_reachable_inv h : heap_reachable h → heap_inv h.
Proof.
  induction 1 as [ptr len h h' Hc Hd Hs Ea Ep Ed E|h op r h' _ IH Hok E].
  - pose proof (wp_miniheap_init ptr len h Hc Hd Hs Ea Ep Ed) as Hw. rewrite /wp E in Hw. by destruct Hw.
  - pose proof (wp_run_heap_call op h IH Hok) as Hw. by rewrite /wp E in Hw.
Qed.

(** Two chunks of which no byte is counted twice *)
Lemma chunks_apart given h p q c c' :
  heap_ok given [] h → h_allocs h !! p = Some c → h_allocs h !! q = Some c' → p ≠ q → c.1 + c.2 ≤ c'.1 ∨ c'.1 + c'.2 ≤ c.1.
Proof.
  intros Hk Hp Hq Hne. destruct (hk_alloc _ _ _ _ _ Hk p c Hp) as [Hc _], (hk_alloc _ _ _ _ _ Hk q c' Hq) as [Hc' _].
  eapply (disjoint_order c c' [c] (Z.max c.1 c'.1)); [done|done|set_solver| |done]. simpl. rw Z.add_0_r.
  pose proof (hk_bytes _ _ _ _ _ Hk (Z.max c.1 c'.1)) as Hb. pose proof (hk_once _ _ _ _ _ Hk (Z.max c.1 c'.1)).
  rewrite /alloc_chunks (cnt_delete _ _ _ _ Hp) (cnt_delete (delete p (h_allocs h)) q c') /= in Hb; [|by rw lookup_delete_ne].
  pose proof (cnt_nonneg (h_free h) (Z.max c.1 c'.1)). pose proof (cnt_nonneg (map_to_list (delete q (delete p (h_allocs h)))).*2 (Z.max c.1 c'.1)). lia.
Qed.

End sys.
