(* ===== verification/MiniheapRun.v ===== *)
(** * The heap: its theorems at work

    The specifications of the single calls, concrete runs, and the behaviour of the
    code at its limits. *)

From S2P Require Import Prelude Bits Miniheap MiniheapSpec MiniheapSys.


(** [miniheap_free] takes exactly the chunk of the allocation back into the free
    list, merged with its neighbours. *)
Theorem miniheap_free_spec debug SENTINEL given p c (h : heap) :
  heap_ok debug SENTINEL given [] h → h_allocs h !! p = Some c → (debug = true → 24 < c.2) →
  wp (miniheap_free debug SENTINEL p) (λ _ h', heap_ok debug SENTINEL given [] h' ∧ h_allocs h' = delete p (h_allocs h) ∧
    h_paged h' = h_paged h ∧ h_delayed h' = h_delayed h ∧
    h_remaining h' = h_remaining h + c.2 ∧ ∃ c', c' ∈ h_free h' ∧ c'.1 ≤ c.1 ∧ c.1 + c.2 ≤ c'.1 + c'.2) h.
Proof. apply wp_miniheap_free. Qed.

(** [miniheap_trim] gives only whole pages back, of memory that was free, and
    loses no byte. *)
Theorem miniheap_trim_spec debug SENTINEL given (h : heap) :
  heap_ok debug SENTINEL given [] h → (debug = true → ∀ c, c ∈ h_free h → (c.1 + c.2) mod 4096 ≠ 24) →
  wp (miniheap_trim debug) (λ _ h', heap_ok debug SENTINEL given [] h' ∧ h_allocs h' = h_allocs h ∧ h_delayed h' = h_delayed h ∧
    ∃ r, h_paged h' = h_paged h ++ r ∧ Forall whole_pages r ∧ ∀ x, cnt (h_free h') x + cnt (page_bytes r) x = cnt (h_free h) x) h.
Proof. apply wp_miniheap_trim. Qed.

(** ** A heap of two pages and a bit *)

Definition empty : heap := Heap 0 0 0 0 [] ∅ [] [].

Definition heap1 (debug : bool) (len : Z) : heap := Heap 4096 len len 0 [(4096, len)] ∅ [] [].

Lemma init_run debug : miniheap_init debug 64 4096 8200 empty = Some ((), heap1 debug 8200).
Proof. by destruct debug. Qed.

Lemma chunk_demo : chunk_ok (4096, 8200).
Proof. split; simpl; [lia|by exists 512|by exists 1025|lia|lia]. Qed.

Lemma heap1_ok debug : heap_ok debug 64 [(4096, 8200)] [] (heap1 debug 8200).
Proof.
  pose proof (wp_miniheap_init debug 64 4096 8200 empty chunk_demo) as Hw. rewrite /wp init_run in Hw.
  destruct Hw as (_ & Hk & _); [done|lia|done|done|done|done].
Qed.

Lemma heap1_reachable : heap_reachable true 64 (heap1 true 8200).
Proof. eapply (reach_init true 64 4096 8200 empty); [apply chunk_demo|done|lia|done|done|done|]. apply init_run. Qed.

(** No pages to be had *)
Definition no_pages : Z → option Z := λ _, None.


(** After [miniheap_alloc (100, 64)] *)
Definition heap2 : heap := Heap 4096 8200 8008 0 [(4288, 8008)] {[ 4160 := (4096, 192) ]} [] [].

Lemma alloc_run : miniheap_alloc true 64 no_pages 100 64 (heap1 true 8200) = Some (4160, heap2).
Proof. vm_compute. reflexivity. Qed.

Lemma heap2_ok : ∃ given, heap_ok true 64 given [] heap2.
Proof.
  pose proof (wp_miniheap_alloc true 64 [(4096, 8200)] no_pages 100 64 (heap1 true 8200) (heap1_ok true)) as Hw.
  rewrite /wp alloc_run in Hw. destruct Hw as (given & Hk & _); [by intros pages p _ [=]|lia|lia|]. by exists given.
Qed.

Lemma miniheap_free_spec_witness :
  ∃ given, heap_ok true 64 given [] heap2 ∧ wp (miniheap_free true 64 4160) (λ _ h', h_allocs h' = ∅ ∧ h_remaining h' = 8200) heap2.
Proof.
  destruct heap2_ok as [given Hk]. exists given. split; [exact Hk|].
  eapply wp_mono; [apply (miniheap_free_spec true 64 given 4160 (4096, 192) heap2 Hk)|].
  - reflexivity.
  - reflexivity.
  - intros [] h' (_ & E & _ & _ & Er & _). split; [by rewrite E|by rewrite Er].
Defined.

Lemma miniheap_trim_spec_witness :
  wp (miniheap_trim true) (λ _ h', ∃ r, h_paged h' = r ∧ Forall whole_pages r) (heap1 true 8200).
Proof.
  eapply wp_mono; [apply (miniheap_trim_spec true 64 [(4096, 8200)] (heap1 true 8200) (heap1_ok true))|].
  - intros _ c ->%list_elem_of_singleton. discriminate.
  - intros [] h' (_ & _ & _ & r & E & ? & _). by exists r.
Defined.


(** ** At the limits *)

(** The size of the header is added to the request in 64 bits: a request that wraps
    gets the smallest chunk. *)
Lemma alloc_wraps : wp (miniheap_alloc false 64 no_pages (2 ^ 64 - 10) 0) (λ p h', h_allocs h' !! p = Some (4096, 24)) (heap1 false 8200).
Proof. vm_compute. reflexivity. Qed.

(** So does the product in [calloc]. *)
Lemma calloc_wraps : wp (calloc false 64 no_pages (2 ^ 32) (2 ^ 32)) (λ '(p, zeroed) h', p ≠ 0 ∧ zeroed = 0 ∧ h_allocs h' !! p = Some (4096, 24)) (heap1 false 8200).
Proof. vm_compute. split; [discriminate|split; reflexivity]. Qed.

(** In a debug build the chunk of an empty request is exactly as long as
    [struct free_heap_chunk], and [heap_create_free_chunk] asks for more. *)
Lemma free_empty_panics : wp (miniheap_alloc true 64 no_pages 0 0) (λ p h', p ≠ 0 ∧ miniheap_free true 64 p h' = None) (heap1 true 8200).
Proof. vm_compute. split; [discriminate|reflexivity]. Qed.

(** Trimming has the same problem with what is left behind the last page. *)
Lemma trim_panics : miniheap_trim true (heap1 true 8216) = None.
Proof. vm_compute. reflexivity. Qed.

(** The low watermark starts at 0 and stays there. *)
Lemma low_watermark_stuck : wp (miniheap_alloc true 64 no_pages 100 0) (λ p h', h_remaining h' < h_remaining (heap1 true 8200) ∧ h_low_watermark h' = 0) (heap1 true 8200).
Proof. vm_compute. split; reflexivity. Qed.

(** Pages below the heap move its start but not its length: the range then ends
    before the memory it had. *)
Lemma grow_below :
  wp (heap_grow true 64 (λ _, Some 8192) 100) (λ _ h', h_base h' = 8192 ∧ h_base h' + h_len h' = 16392) (Heap 40960 8200 0 0 [] ∅ [] []).
Proof. vm_compute. split; reflexivity. Qed.

(** [realloc] copies as many bytes as the new size, from a block that has fewer. *)
Lemma realloc_overreads :
  wp (p ← miniheap_alloc true 64 no_pages 8 0;
      c ← deref (λ h, h_allocs h !! p);
      res ← miniheap_realloc true 64 no_pages p 4096;
      mret (c, res.2)) (λ '(c, copy) _, c = (4096, 32) ∧ copy = Some (4152, 4120, 4096)) (heap1 true 8200).
Proof. vm_compute. split; reflexivity. Qed.
