(* ===== verification/Novm.v ===== *)
(** * The page allocator without virtual memory

    [src/mk/kernel/novm/novm.c].  An arena has a map with one byte for each of its
    pages, 0 for a free page.  The mutex of an arena brackets every use of its map
    and is not threaded through. *)

From S2P Require Import Prelude Bits Bytes.

Definition NOVM_ARENA_ANY : Z := 2 ^ 32 - 1.

Definition MINIMUM_USEFUL_UNALIGNED_SIZE : Z := 64.

(** [struct novm_arena]: [n_map] is where the map lies, [n_bytes] what it holds. *)
Record novm_arena := NovmArena {
  n_name : string;
  n_pages : Z;
  n_map : Z;
  n_bytes : list Z;
  n_base : Z;
  n_size : Z;
  n_unaligned_area : Z;
  n_unaligned_size : Z
}.

(** The array [arena], of [NOVM_MAX_ARENAS] elements *)
Abbreviation arenas := (list novm_arena).

Abbreviation NV := (M arenas).

Definition set_bytes (l : list Z) (n : novm_arena) : novm_arena :=
  NovmArena (n_name n) (n_pages n) (n_map n) l (n_base n) (n_size n) (n_unaligned_area n) (n_unaligned_size n).

Definition set_unaligned (a s : Z) (n : novm_arena) : novm_arena :=
  NovmArena (n_name n) (n_pages n) (n_map n) (n_bytes n) (n_base n) (n_size n) a s.

Definition get_arena (i : nat) : NV novm_arena := deref (λ s : arenas, s !! i).

Definition put_arena (i : nat) (n : novm_arena) : NV unit := modify (λ s : arenas, <[i := n]> s).

(** ** Queries *)

(** The first [number_of_ranges] ranges; how many are written is their number at most. *)
Definition novm_get_arenas (number_of_ranges : nat) (s : arenas) : Z * list (Z * Z) :=
  let l := take number_of_ranges s in
  (foldl (λ found '(i, n), if 0 <? n_pages n then i + 1 else found) 0 (imap (λ i n, (Z.of_nat i, n)) l),
   (λ n, (n_base n, u64 (Z.shiftl (n_pages n) PAGE_SIZE_SHIFT))) <$> l).

Definition in_arena (n : novm_arena) (p : Z) : bool :=
  if n_size n =? 0 then false else (n_base n <=? p) && (p <? u64 (n_base n + n_size n)).

(** The walk over the array that looks for the arena of an address *)
Fixpoint find_arena (i : nat) (s : arenas) (p : Z) : option nat :=
  match s with
  | [] => None
  | n :: s => if in_arena n p then Some i else find_arena (S i) s p
  end.

(** ** Allocation *)

(** The inner loop: the first page of the run from [i] on, at [j] or later, that is in use *)
Fixpoint run_busy (fuel : nat) (map : list Z) (i j pages : Z) : option (option Z) :=
  if pages <=? j then Some None
  else
    match fuel with
    | O => None
    | S fuel => b ← map !! Z.to_nat (i + j); if b =? 0 then run_busy fuel map i (j + 1) pages else Some (Some j)
    end.

(** The outer loop: the start of a free run *)
Fixpoint find_run (fuel : nat) (map : list Z) (total pages i : Z) : option (option Z) :=
  if total - pages <? i then Some None
  else
    match fuel with
    | O => None
    | S fuel =>
        busy ← run_busy (Z.to_nat pages) map i 0 pages;
        match busy with
        | None => Some (Some i)
        | Some j => find_run fuel map total pages (i + j + 1)
        end
    end.

(** [memset (map + i, v, pages)] *)
Definition fill (i pages v : Z) (map : list Z) : option (list Z) := copy_in i (replicate (Z.to_nat pages) v) map.

(** The pages of arena [i]; the result is [NULL] or the address of the first page. *)
Definition novm_alloc_helper (i : nat) (pages : Z) : NV Z :=
  n ← get_arena i;
  if (pages =? 0) || (n_pages n <? pages) then mret 0
  else
    found ← deref (λ _, find_run (Z.to_nat (n_pages n)) (n_bytes n) (n_pages n) pages 0);
    match found with
    | None => mret 0
    | Some k =>
        map ← deref (λ _, fill k pages 1 (n_bytes n));
        put_arena i (set_bytes map n);;
        mret (u64 (n_base n + Z.shiftl k PAGE_SIZE_SHIFT))
    end.

(** The loop of [novm_alloc_pages] over the arenas whose bits are set *)
Fixpoint alloc_from (l : list nat) (pages arena_bitmap : Z) : NV Z :=
  match l with
  | [] => mret 0
  | i :: l =>
      if negb (Z.land arena_bitmap (u32 (Z.shiftl 1 (Z.of_nat i))) =? 0) then
        result ← novm_alloc_helper i pages;
        if negb (result =? 0) then mret result else alloc_from l pages arena_bitmap
      else alloc_from l pages arena_bitmap
  end.

Definition novm_alloc_pages (pages arena_bitmap : Z) : NV Z :=
  s ← gets id; alloc_from (seq 0 (length s)) pages arena_bitmap.

(** With what it puts into [*size_return] *)
Definition novm_alloc_unaligned : NV (Z * Z) :=
  n ← get_arena 0;
  if negb (n_unaligned_area n =? 0) then
    put_arena 0 (set_unaligned 0 0 n);;
    mret (n_unaligned_area n, n_unaligned_size n)
  else result ← novm_alloc_pages 1 NOVM_ARENA_ANY; mret (result, PAGE_SIZE).

(** ** Freeing *)

(** The index of the page of an address; pages that the arena does not have are
    outside its map. *)
Definition page_index (n : novm_arena) (address : Z) : Z := Z.shiftr (address - n_base n) PAGE_SIZE_SHIFT.

Definition novm_free_pages (address pages : Z) : NV unit :=
  s ← gets id;
  match find_arena 0 s address with
  | None => mret ()
  | Some i =>
      n ← get_arena i;
      map ← deref (λ _, fill (page_index n address) pages 0 (n_bytes n));
      put_arena i (set_bytes map n)
  end.

Definition novm_alloc_specific_pages (address pages : Z) : NV Z :=
  s ← gets id;
  match find_arena 0 s address with
  | None => mret ERR_NOT_FOUND
  | Some i =>
      n ← get_arena i;
      busy ← deref (λ _, run_busy (Z.to_nat pages) (n_bytes n) (page_index n address) 0 pages);
      match busy with
      | Some _ => mret ERR_NO_MEMORY
      | None =>
          map ← deref (λ _, fill (page_index n address) pages 1 (n_bytes n));
          put_arena i (set_bytes map n);;
          mret NO_ERROR
      end
  end.

(** ** Set-up *)

(** The loop that makes room for the map in front of the pages *)
Fixpoint make_room (fuel : nat) (arena_start start size map_size : Z) : option (Z * Z * Z) :=
  if u64 (start - arena_start) <? map_size then
    match fuel with
    | O => None
    | S fuel => make_room fuel arena_start (u64 (start + PAGE_SIZE)) (u64 (size - PAGE_SIZE)) (u64 (map_size - 1))
    end
  else Some (start, size, map_size).

(** [default_map]: where a map has been set aside, and how long it is *)
Definition novm_init_helper (i : nat) (name : string) (arena_start arena_size : Z) (default_map : option (Z * Z)) : NV unit :=
  n ← get_arena i;
  let start := ROUNDUP arena_start PAGE_SIZE in
  let size := u64 (ROUNDDOWN (u64 (arena_start + arena_size)) PAGE_SIZE - start) in
  let map_size := Z.shiftr size PAGE_SIZE_SHIFT in
  let own := match default_map with Some (map, len) => len <? map_size | None => true end in
  '(map, start, size, map_size, area, area_size) ← (
    if own then
      '(start, size, map_size) ← deref (λ _, make_room (Z.to_nat map_size) arena_start start size map_size);
      let after := u64 (arena_start + ROUNDUP map_size 4) in
      if MINIMUM_USEFUL_UNALIGNED_SIZE <=? s64 (start - after)
      then mret (arena_start, start, size, map_size, after, u64 (start - after))
      else mret (arena_start, start, size, map_size, n_unaligned_area n, n_unaligned_size n)
    else
      let map := match default_map with Some (map, _) => map | None => 0 end in
      if MINIMUM_USEFUL_UNALIGNED_SIZE <=? u64 (start - arena_start)
      then mret (map, start, size, map_size, arena_start, u64 (start - arena_start))
      else mret (map, start, size, map_size, n_unaligned_area n, n_unaligned_size n));
  put_arena i (NovmArena name map_size map (replicate (Z.to_nat map_size) 0) start size area area_size).

(** [END_OF_KERNEL] is the end of the kernel's own memory. *)
Fixpoint add_to_free (END_OF_KERNEL : Z) (l : list nat) (name : string) (arena_start arena_size : Z) : NV unit :=
  match l with
  | [] => fail
  | i :: l =>
      n ← get_arena i;
      if n_pages n =? 0 then
        if (arena_start <? END_OF_KERNEL) && (END_OF_KERNEL <? u64 (arena_start + arena_size))
        then novm_init_helper i name END_OF_KERNEL (u64 (arena_size - (END_OF_KERNEL - arena_start))) None
        else novm_init_helper i name arena_start arena_size None
      else add_to_free END_OF_KERNEL l name arena_start arena_size
  end.

Definition novm_add_arena (END_OF_KERNEL : Z) (name : string) (arena_start arena_size : Z) : NV unit :=
  s ← gets id; add_to_free END_OF_KERNEL (seq 0 (length s)) name arena_start arena_size.

(** The default arena: what the board leaves after the kernel, with a static map *)
Definition novm_init (END_OF_KERNEL MEMBASE MEMSIZE mem_allocation_map : Z) : NV unit :=
  novm_init_helper 0 "main" END_OF_KERNEL (u64 (MEMBASE + MEMSIZE - END_OF_KERNEL))
    (Some (mem_allocation_map, Z.shiftr MEMSIZE PAGE_SIZE_SHIFT)).
