(* ===== verification/NovmRun.v ===== *)
(** * The page allocator without virtual memory: its operations, and the heap on it

    An allocation is the lowest free run of the first arena that has one; freeing it
    gives the map back as it was. *)

From S2P Require Import Prelude Bits Bytes Novm Miniheap MiniheapSpec MiniheapSys.

(** The pages [k .. k + pages) are free. *)
Definition free_run (map : list Z) (k pages : Z) : Prop := ∀ x, k ≤ x < k + pages → map !! Z.to_nat x = Some 0.

Lemma run_busy_spec fuel map i j pages :
  0 ≤ i → 0 ≤ j ≤ pages → i + pages ≤ zlen map → pages - j ≤ Z.of_nat fuel → free_run map i j →
  ∃ r, run_busy fuel map i j pages = Some r ∧
    match r with
    | None => free_run map i pages
    | Some j' => j ≤ j' < pages ∧ ∃ b, map !! Z.to_nat (i + j') = Some b ∧ b ≠ 0
    end.
Proof.
  revert j. induction fuel as [|fuel IH]; intros j Hi Hj Hlen Hf Hfree; simpl.
  - rw (proj2 (Z.leb_le pages j)); [|lia]. exists None. split; [done|]. by replace pages with j by lia.
  - destruct (Z.leb_spec pages j); [exists None; split; [done|]; by replace pages with j by lia|].
    destruct (lookup_lt_is_Some_2 map (Z.to_nat (i + j))) as [b Hb]; [lia|]. rw Hb /=. destruct (Z.eqb_spec b 0) as [->|Hne].
    + destruct (IH (j + 1)) as ([j'|] & E & Hr); [lia|lia|lia|lia| |exists (Some j'); split; [done|]; split; [lia|apply Hr]|by exists None].
      intros x Hx. destruct (decide (x = i + j)) as [->|]; [done|apply Hfree; lia].
    + exists (Some j). split; [done|]. split; [lia|by exists b].
Qed.

Lemma find_run_spec fuel map pages i :
  0 ≤ i → 0 < pages ≤ zlen map → zlen map - pages + 1 - i ≤ Z.of_nat fuel → (∀ k, 0 ≤ k < i → ¬ free_run map k pages) →
  ∃ r, find_run fuel map (zlen map) pages i = Some r ∧
    match r with
    | None => ∀ k, 0 ≤ k → k + pages ≤ zlen map → ¬ free_run map k pages
    | Some k => 0 ≤ k ∧ k + pages ≤ zlen map ∧ free_run map k pages ∧ ∀ k', 0 ≤ k' < k → ¬ free_run map k' pages
    end.
Proof.
  revert i. induction fuel as [|fuel IH]; intros i Hi Hp Hf Hno; simpl.
  - rw (proj2 (Z.ltb_lt (zlen map - pages) i)); [|lia]. exists None. split; [done|]. intros k ? ?. apply Hno. lia.
  - destruct (Z.ltb_spec (zlen map - pages) i); [exists None; split; [done|]; intros k ? ?; apply Hno; lia|].
    destruct (run_busy_spec (Z.to_nat pages) map i 0 pages) as ([j|] & -> & Hr); [lia|lia|lia|lia|intros x ?; lia| |]; simpl.
    + destruct Hr as (Hj & b & Hb & Hne). apply IH; [lia|lia|lia|]. intros k Hk Hfree. destruct (decide (k < i)) as [|Hki]; [apply (Hno k); [lia|done]|].
      specialize (Hfree (i + j) ltac:(lia)). congruence.
    + exists (Some i). split; [done|]. split_and!; [lia|lia|done|done].
Qed.

(** ** Arenas *)

Record arena_ok (n : novm_arena) : Prop := {
  ao_pages : 0 ≤ n_pages n;
  ao_map : zlen (n_bytes n) = n_pages n;
  ao_size : n_size n = n_pages n * PAGE_SIZE;
  ao_base : 0 < n_base n;
  ao_aligned : (PAGE_SIZE | n_base n);
  ao_end : n_base n + n_size n < 2 ^ 64
}.

(** The arena of an address is the only one. *)
Record arenas_ok (s : arenas) : Prop := {
  as_ok : Forall arena_ok s;
  as_disjoint i j n m p : s !! i = Some n → s !! j = Some m → in_arena n p = true → in_arena m p = true → i = j
}.

Lemma in_arena_spec n p : arena_ok n → in_arena n p = true ↔ n_base n ≤ p < n_base n + n_size n.
Proof.
  intros [? ? Hs ? ? ?]. rw /in_arena. destruct (Z.eqb_spec (n_size n) 0) as [->|]; [split; [done|lia]|].
  assert (0 ≤ n_size n) by (rw Hs; change PAGE_SIZE with 4096; lia).
  rw u64_small; [|lia]. by rewrite andb_true_iff Z.leb_le Z.ltb_lt.
Qed.

Lemma find_arena_spec i k s p n : (∀ j m, s !! j = Some m → in_arena m p = true → j = i) → s !! i = Some n → in_arena n p = true →
  find_arena k s p = Some (k + i)%nat.
Proof.
  revert i k. induction s as [|m s IH]; intros i k Huniq Hi Hp; simpl; [by rewrite lookup_nil in Hi|].
  destruct (in_arena m p) eqn:Em; [rewrite <- (Huniq 0%nat m); [by rw Nat.add_0_r|done|done]|].
  destruct i as [|i]; simpl in Hi; [congruence|]. rw (IH i (S k)); [f_equal; lia| |done|done].
  intros j m' Hj Hp'. specialize (Huniq (S j) m' Hj Hp'). lia.
Qed.

Definition no_run (n : novm_arena) (pages : Z) : Prop := ∀ k, 0 ≤ k → k + pages ≤ n_pages n → ¬ free_run (n_bytes n) k pages.

(** The pages that arena [i] gives: the lowest run. *)
Definition first_run (n : novm_arena) (pages k : Z) : Prop :=
  0 ≤ k ∧ k + pages ≤ n_pages n ∧ free_run (n_bytes n) k pages ∧ ∀ k', 0 ≤ k' < k → ¬ free_run (n_bytes n) k' pages.

Definition mark (n : novm_arena) (k pages v : Z) : novm_arena :=
  set_bytes (splice k (replicate (Z.to_nat pages) v) (n_bytes n)) n.

Lemma page_address n k : arena_ok n → 0 ≤ k ≤ n_pages n → u64 (n_base n + Z.shiftl k PAGE_SIZE_SHIFT) = n_base n + k * PAGE_SIZE.
Proof.
  intros [] ?. change PAGE_SIZE_SHIFT with 12. rw Z.shiftl_mul_pow2; [|lia]. change (2 ^ 12) with 4096. change PAGE_SIZE with 4096 in *.
  rw u64_small; [done|]. nia.
Qed.

Lemma fill_spec n k pages v : arena_ok n → 0 ≤ k → 0 ≤ pages → k + pages ≤ n_pages n →
  fill k pages v (n_bytes n) = Some (n_bytes (mark n k pages v)).
Proof. intros [] ? ? ?. apply copy_in_splice. rw length_replicate. lia. Qed.

Lemma wp_alloc_helper i n pages s :
  s !! i = Some n → arena_ok n → 0 < pages →
  wp (novm_alloc_helper i pages) (λ p s',
    p = 0 ∧ s' = s ∧ no_run n pages ∨
    ∃ k, first_run n pages k ∧ p = n_base n + k * PAGE_SIZE ∧ p ≠ 0 ∧ s' = <[i := mark n k pages 1]> s) s.
Proof.
  intros Hi Hn Hp. pose proof Hn as [? Hm ? ? ? ?]. apply wp_bind. eapply wp_deref; [done|]. rw (proj2 (Z.eqb_neq pages 0)); [|lia]. simpl.
  destruct (Z.ltb_spec (n_pages n) pages); [apply wp_ret; left; split_and!; [done|done|intros k ? ?; lia]|]. rw -Hm.
  destruct (find_run_spec (Z.to_nat (zlen (n_bytes n))) (n_bytes n) pages 0) as ([k|] & E & Hr); [lia|lia|lia|lia| |].
  - destruct Hr as (Hk & Hkp & Hfree & Hlow). apply wp_bind. eapply wp_deref; [exact E|]. apply wp_bind. eapply wp_deref; [apply fill_spec; [done|lia..]|].
    apply wp_bind, wp_modify, wp_ret. right. exists k. rw page_address //; [|lia]. split_and!; [by split_and!; [lia|lia|..]|done| |done].
    change PAGE_SIZE with 4096. lia.
  - apply wp_bind. eapply wp_deref; [exact E|]. apply wp_ret. left. split_and!; [done|done|]. rw /no_run -Hm. done.
Qed.

(** ** The interface *)

Definition selected (arena_bitmap : Z) (i : nat) : bool := negb (Z.land arena_bitmap (u32 (Z.shiftl 1 (Z.of_nat i))) =? 0).

(** The first selected arena that has a free run gives its lowest one; there is none
    when no selected arena has. *)
Definition alloc_spec (l : list nat) (pages arena_bitmap : Z) (s : arenas) (p : Z) (s' : arenas) : Prop :=
  p = 0 ∧ s' = s ∧ (∀ i n, i ∈ l → s !! i = Some n → selected arena_bitmap i = true → no_run n pages) ∨
  ∃ l1 i l2 n k, l = l1 ++ i :: l2 ∧ s !! i = Some n ∧ selected arena_bitmap i = true ∧
    (∀ j m, j ∈ l1 → s !! j = Some m → selected arena_bitmap j = true → no_run m pages) ∧
    first_run n pages k ∧ p = n_base n + k * PAGE_SIZE ∧ p ≠ 0 ∧ s' = <[i := mark n k pages 1]> s.

Lemma wp_alloc_from l pages arena_bitmap s :
  Forall arena_ok s → 0 < pages → (∀ i, i ∈ l → is_Some (s !! i)) →
  wp (alloc_from l pages arena_bitmap) (alloc_spec l pages arena_bitmap s) s.
Proof.
  intros Hs Hp. induction l as [|i l IH]; intros Hl; simpl; [apply wp_ret; left; set_solver|].
  destruct (Hl i) as [n Hn]; [set_solver|]. rw -/(selected arena_bitmap i).
  assert (∀ m, (selected arena_bitmap i = true → no_run n pages) → wp m (alloc_spec l pages arena_bitmap s) s →
    wp m (alloc_spec (i :: l) pages arena_bitmap s) s) as Hskip.
  { intros m Hno Hw. eapply wp_mono; [exact Hw|]. intros p s' [(? & ? & Hnone)|(l1 & j & l2 & m' & k & -> & ? & ? & Hbef & ?)].
    - left. split_and!; [done|done|]. intros j m' [->|?]%elem_of_cons ?; [by simplify_eq|by apply Hnone].
    - right. exists (i :: l1), j, l2, m', k. split_and!; [done..| |tauto|tauto|tauto|tauto]. intros j' m2 [->|?]%elem_of_cons ?; [by simplify_eq|by apply Hbef]. }
  destruct (selected arena_bitmap i) eqn:Es; [|apply Hskip; [done|]; apply IH; set_solver].
  apply wp_bind. eapply wp_mono; [apply wp_alloc_helper; [done|by eapply Forall_lookup_1|done]|].
  intros p s' [(-> & -> & Hno)|(k & Hk & -> & Hne & ->)]; simpl; [apply Hskip; [done|]; apply IH; set_solver|].
  rw (proj2 (Z.eqb_neq _ 0)) //. apply wp_ret. right. exists [], i, l, n, k. split_and!; try done. set_solver.
Qed.

Lemma wp_novm_alloc_pages pages arena_bitmap s :
  arenas_ok s → 0 < pages → wp (novm_alloc_pages pages arena_bitmap) (alloc_spec (seq 0 (length s)) pages arena_bitmap s) s.
Proof.
  intros [Hs _] Hp. apply wp_bind, wp_gets, wp_alloc_from; [done..|]. intros i [? ?]%elem_of_seq. apply lookup_lt_is_Some_2. lia.
Qed.

Lemma page_index_spec n k : 0 ≤ k → page_index n (n_base n + k * PAGE_SIZE) = k.
Proof.
  intros. rw /page_index. change PAGE_SIZE_SHIFT with 12. rw Z.shiftr_div_pow2; [|lia]. change (2 ^ 12) with 4096. change PAGE_SIZE with 4096.
  rw (_ : n_base n + k * 4096 - n_base n = k * 4096); [|lia]. by rw Z.div_mul.
Qed.

(** A page address of arena [i] is found there. *)
Lemma find_page s i n k : arenas_ok s → s !! i = Some n → 0 ≤ k < n_pages n → find_arena 0 s (n_base n + k * PAGE_SIZE) = Some i.
Proof.
  intros [Hs Hd] Hi Hk. pose proof (Forall_lookup_1 _ _ _ _ Hs Hi) as Hn. pose proof Hn as [? ? Hsz ? ? ?].
  assert (in_arena n (n_base n + k * PAGE_SIZE) = true) as Hin.
  { apply in_arena_spec; [done|]. rw Hsz. change PAGE_SIZE with 4096. lia. }
  apply (find_arena_spec i 0 s _ n); [|done|done]. intros j m Hj Hp. by eapply Hd.
Qed.

Lemma wp_novm_free_pages s i n k pages :
  arenas_ok s → s !! i = Some n → 0 ≤ k → 0 < pages → k + pages ≤ n_pages n →
  wp (novm_free_pages (n_base n + k * PAGE_SIZE) pages) (λ _ s', s' = <[i := mark n k pages 0]> s) s.
Proof.
  intros Hs Hi Hk Hp Hle. pose proof (Forall_lookup_1 _ _ _ _ (as_ok _ Hs) Hi) as Hn. apply wp_bind, wp_gets.
  rw (find_page s i n k) //; [|lia]. apply wp_bind. eapply wp_deref; [done|]. rw page_index_spec //. apply wp_bind.
  eapply wp_deref; [apply fill_spec; [done|lia..]|]. by apply wp_modify.
Qed.

Lemma wp_novm_alloc_specific_pages s i n k pages :
  arenas_ok s → s !! i = Some n → 0 ≤ k → 0 < pages → k + pages ≤ n_pages n →
  wp (novm_alloc_specific_pages (n_base n + k * PAGE_SIZE) pages) (λ ret s',
    ret = NO_ERROR ∧ free_run (n_bytes n) k pages ∧ s' = <[i := mark n k pages 1]> s ∨
    ret = ERR_NO_MEMORY ∧ ¬ free_run (n_bytes n) k pages ∧ s' = s) s.
Proof.
  intros Hs Hi Hk Hp Hle. pose proof (Forall_lookup_1 _ _ _ _ (as_ok _ Hs) Hi) as Hn. pose proof Hn as [? Hm ? ? ? ?]. apply wp_bind, wp_gets.
  rw (find_page s i n k) //; [|lia]. apply wp_bind. eapply wp_deref; [done|]. rw page_index_spec //.
  destruct (run_busy_spec (Z.to_nat pages) (n_bytes n) k 0 pages) as ([j|] & E & Hr); [lia|lia|lia|lia|intros x ?; lia| |];
    (apply wp_bind; eapply wp_deref; [exact E|]).
  - apply wp_ret. right. split_and!; [done| |done]. destruct Hr as (? & b & Hb & Hne). intros Hfree. specialize (Hfree (k + j) ltac:(lia)). congruence.
  - apply wp_bind. eapply wp_deref; [apply fill_spec; [done|lia..]|]. apply wp_bind, wp_modify, wp_ret. by left.
Qed.

(** Freeing undoes the marks of an allocation. *)
Lemma mark_mark n k pages : arena_ok n → 0 ≤ k → 0 < pages → k + pages ≤ n_pages n → free_run (n_bytes n) k pages →
  mark (mark n k pages 1) k pages 0 = n.
Proof.
  intros [? Hm ? ? ? ?] Hk Hp Hle Hfree. destruct n as [nm pg mp bytes base sz ua us]. rw /mark /set_bytes /=. f_equal. simpl in *.
  apply list_eq. intros x. rw lookup_splice; [|lia|rw length_splice length_replicate; lia]. rw lookup_splice; [|lia|rw length_replicate; lia]. rw !length_replicate.
  destruct (decide (k ≤ Z.of_nat x < k + Z.of_nat (Z.to_nat pages))) as [Hx|]; [|done].
  rw lookup_replicate_2; [|lia]. rewrite -(Hfree (Z.of_nat x)); [|lia]. by rw Nat2Z.id.
Qed.

Lemma mark_ok n k pages v : arena_ok n → arena_ok (mark n k pages v).
Proof. intros []. split; try done. by rw /= length_splice. Qed.

Lemma in_arena_mark n k pages v p : in_arena (mark n k pages v) p = in_arena n p.
Proof. done. Qed.

Lemma arenas_ok_mark s i n k pages v : arenas_ok s → s !! i = Some n → arenas_ok (<[i := mark n k pages v]> s).
Proof.
  intros [Hs Hd] Hi. pose proof (lookup_lt_Some _ _ _ Hi) as Hlt. split.
  - apply Forall_insert; [done|]. eapply mark_ok, Forall_lookup_1; done.
  - intros j1 j2 n1 n2 p [(<- & <- & _)|[? H1]]%list_lookup_insert_Some [(<- & <- & _)|[? H2]]%list_lookup_insert_Some Hp1 Hp2; [done|..].
    + rewrite in_arena_mark in Hp1. by eapply (Hd i j2).
    + rewrite in_arena_mark in Hp2. by eapply (Hd j1 i).
    + by eapply (Hd j1 j2).
Qed.

(** ** Set-up *)

(** The loop that makes room takes at most one page of every 4097. *)
Lemma make_room_spec fuel arena_start start size map_size :
  0 ≤ arena_start ≤ start → 0 ≤ map_size → size = map_size * PAGE_SIZE → start + size < 2 ^ 64 → map_size - (start - arena_start) ≤ Z.of_nat fuel →
  ∃ k, 0 ≤ k ∧ make_room fuel arena_start start size map_size = Some (start + k * PAGE_SIZE, size - k * PAGE_SIZE, map_size - k) ∧
    k ≤ map_size ∧ map_size - k ≤ start + k * PAGE_SIZE - arena_start.
Proof.
  change PAGE_SIZE with 4096. revert start size map_size. induction fuel as [|fuel IH]; intros start size map_size Hs Hm -> He Hf; cbn [make_room].
  - rw u64_small; [|lia]. rw (proj2 (Z.ltb_ge _ _)); [|lia]. exists 0. split_and!; [lia|f_equal; f_equal; [f_equal|]; lia|lia|lia].
  - rw u64_small; [|lia]. destruct (Z.ltb_spec (start - arena_start) map_size).
    2: { exists 0. split_and!; [lia|f_equal; f_equal; [f_equal|]; lia|lia|lia]. }
    change PAGE_SIZE with 4096. rw !u64_small; [|lia..].
    destruct (IH (start + 4096) (map_size * 4096 - 4096) (map_size - 1)) as (k & Hk & -> & Hk1 & Hk2); [lia..|].
    exists (k + 1). split_and!; [lia|f_equal; f_equal; [f_equal|]; lia|lia|lia].
Qed.

(** What [novm_init_helper] makes of a range of memory: the map, when the arena has
    to hold it, lies in front of the pages; everything lies in the range. *)
Lemma wp_novm_init_helper s i n0 name arena_start arena_size :
  s !! i = Some n0 → 0 < arena_start → 0 ≤ arena_size → arena_start + arena_size < 2 ^ 64 - 4096 →
  ROUNDUP arena_start PAGE_SIZE ≤ ROUNDDOWN (arena_start + arena_size) PAGE_SIZE →
  wp (novm_init_helper i name arena_start arena_size None) (λ _ s', ∃ n, s' = <[i := n]> s ∧ arena_ok n ∧
    (∀ k, k < n_pages n → 0 ≤ k → free_run (n_bytes n) k 1) ∧
    n_map n = arena_start ∧ n_map n + n_pages n ≤ n_base n ∧ n_base n + n_size n ≤ arena_start + arena_size) s.
Proof.
  intros Hi Ha Hs He Hle. apply wp_bind. eapply wp_deref; [done|]. cbv zeta. rw (u64_small (arena_start + arena_size)); [|lia].
  change PAGE_SIZE with (2 ^ 12) in Hle |- *.
  destruct (roundup_spec arena_start 12) as [Hs1 Hs2]; [lia..|]. destruct (rounddown_spec (arena_start + arena_size) 12) as (He1 & He2 & He3); [lia..|].
  set (start := ROUNDUP _ _) in *. set (end_ := ROUNDDOWN _ _) in *. rw (u64_small (end_ - start)); [|lia].
  assert (2 ^ 12 | end_ - start) as [q Hq] by by apply Z.divide_sub_r. change PAGE_SIZE_SHIFT with 12. rw Z.shiftr_div_pow2; [|lia]. rw Hq Z.div_mul; [|lia].
  destruct (make_room_spec (Z.to_nat q) arena_start start (q * 2 ^ 12) q) as (k & Hk0 & Em & Hk & Hk2); [lia|lia|done|lia|lia|].
  change PAGE_SIZE with 4096 in *. change (2 ^ 12) with 4096 in *.
  apply wp_bind.
  set (n := λ area area_size, NovmArena name (q - k) arena_start (replicate (Z.to_nat (q - k)) 0) (start + k * 4096) (q * 4096 - k * 4096) area area_size).
  assert (∀ area area_size, ∃ n1, <[i := n area area_size]> s = <[i := n1]> s ∧ arena_ok n1 ∧
    (∀ k, k < n_pages n1 → 0 ≤ k → free_run (n_bytes n1) k 1) ∧
    n_map n1 = arena_start ∧ n_map n1 + n_pages n1 ≤ n_base n1 ∧ n_base n1 + n_size n1 ≤ arena_start + arena_size) as Hgood.
  { intros area area_size. exists (n area area_size). split; [done|]. split; [|split_and!; simpl; try done; try lia].
    - split; simpl; change PAGE_SIZE with 4096; [lia|rw length_replicate; lia|lia|lia|apply Z.divide_add_r; [done|apply Z.divide_factor_r]|lia].
    - intros x Hx1 Hx2 y Hy. apply lookup_replicate_2. lia. }
  apply wp_bind. eapply wp_deref; [exact Em|]. cbv beta iota zeta. destruct (Z.leb_spec MINIMUM_USEFUL_UNALIGNED_SIZE (s64 (start + k * 4096 - u64 (arena_start + ROUNDUP (q - k) 4))));
    apply wp_ret; cbv beta iota; apply wp_modify, Hgood.
Qed.

(** [novm_alloc_pages] is sound and complete: the first arena of the bitmap that
    has enough free pages in a row gives the lowest such run, and only that is marked;
    the result is [NULL] only when no arena of the bitmap has. *)
Theorem novm_alloc_pages_spec pages arena_bitmap (s : arenas) :
  arenas_ok s → 0 < pages → wp (novm_alloc_pages pages arena_bitmap) (alloc_spec (seq 0 (length s)) pages arena_bitmap s) s.
Proof. apply wp_novm_alloc_pages. Qed.

(** Pages that are allocated and freed again leave the arenas as they were. *)
Theorem novm_alloc_free pages arena_bitmap (s : arenas) :
  arenas_ok s → 0 < pages →
  wp (p ← novm_alloc_pages pages arena_bitmap; when (negb (p =? 0)) (novm_free_pages p pages)) (λ _ s', s' = s) s.
Proof.
  intros Hs Hp. apply wp_bind. eapply wp_mono; [by apply wp_novm_alloc_pages|].
  intros p s' [(-> & -> & _)|(l1 & i & l2 & n & k & _ & Hi & _ & _ & (Hk & Hle & Hfree & _) & -> & Hne & ->)]; [done|].
  rw (proj2 (Z.eqb_neq _ 0)) //=. pose proof (Forall_lookup_1 _ _ _ _ (as_ok _ Hs) Hi) as Hn. pose proof (lookup_lt_Some _ _ _ Hi).
  eapply wp_mono; [apply (wp_novm_free_pages (<[i := mark n k pages 1]> s) i (mark n k pages 1) k pages)|].
  - by apply arenas_ok_mark.
  - by apply list_lookup_insert_eq.
  - done.
  - done.
  - done.
  - intros [] s' ->. rw list_insert_insert_eq mark_mark //. by apply list_insert_id.
Qed.

(** The arena that [novm_init_helper] makes of a range of memory lies inside it,
    and its map lies in front of its pages, all of which are free. *)
Theorem novm_init_helper_spec (s : arenas) i n0 name arena_start arena_size :
  s !! i = Some n0 → 0 < arena_start → 0 ≤ arena_size → arena_start + arena_size < 2 ^ 64 - 4096 →
  ROUNDUP arena_start PAGE_SIZE ≤ ROUNDDOWN (arena_start + arena_size) PAGE_SIZE →
  wp (novm_init_helper i name arena_start arena_size None) (λ _ s', ∃ n, s' = <[i := n]> s ∧ arena_ok n ∧
    (∀ k, k < n_pages n → 0 ≤ k → free_run (n_bytes n) k 1) ∧
    n_map n = arena_start ∧ n_map n + n_pages n ≤ n_base n ∧ n_base n + n_size n ≤ arena_start + arena_size) s.
Proof. apply wp_novm_init_helper. Qed.

(** ** Sequences of calls *)

Inductive novm_call :=
  | AllocPages (pages arena_bitmap : Z)
  | AllocUnaligned
  | FreePages (address pages : Z)
  | AllocSpecific (address pages : Z).

Definition run_novm_call (c : novm_call) : NV unit :=
  match c with
  | AllocPages pages arena_bitmap => novm_alloc_pages pages arena_bitmap;; mret ()
  | AllocUnaligned => novm_alloc_unaligned;; mret ()
  | FreePages address pages => novm_free_pages address pages
  | AllocSpecific address pages => novm_alloc_specific_pages address pages;; mret ()
  end.

Fixpoint run_novm_calls (l : list novm_call) : NV unit :=
  match l with [] => mret () | c :: l => run_novm_call c;; run_novm_calls l end.

(** The pages of the call are pages of one arena. *)
Definition in_pages (s : arenas) (address pages : Z) : Prop :=
  ∃ i n k, s !! i = Some n ∧ address = n_base n + k * PAGE_SIZE ∧ 0 ≤ k ∧ 0 < pages ∧ k + pages ≤ n_pages n.

Definition novm_call_ok (s : arenas) (c : novm_call) : Prop :=
  match c with
  | AllocPages pages _ => 0 < pages
  | AllocUnaligned => s ≠ []
  | FreePages address pages | AllocSpecific address pages => in_pages s address pages
  end.

(** Nothing but the marks, and the area in front of the pages, ever changes. *)
Definition place (n : novm_arena) : string * Z * Z * Z * Z := (n_name n, n_pages n, n_map n, n_base n, n_size n).

Definition typed (s s' : arenas) : Prop := arenas_ok s' ∧ place <$> s' = place <$> s.

Lemma place_insert (s : arenas) i n n' : s !! i = Some n → place n' = place n → place <$> <[i := n']> s = place <$> s.
Proof. intros Hi E. rw list_fmap_insert E. apply list_insert_id. by rw list_lookup_fmap Hi. Qed.

Lemma typed_mark s i n k pages v : arenas_ok s → s !! i = Some n → typed s (<[i := mark n k pages v]> s).
Proof. intros Hs Hi. split; [by apply arenas_ok_mark|by eapply place_insert]. Qed.

Lemma typed_unaligned s n : arenas_ok s → s !! 0%nat = Some n → typed s (<[0%nat := set_unaligned 0 0 n]> s).
Proof.
  intros [Hs Hd] Hi. split; [|by eapply place_insert]. pose proof (Forall_lookup_1 _ _ _ _ Hs Hi) as [? ? ? ? ? ?]. split.
  - by apply Forall_insert.
  - intros j1 j2 n1 n2 p [(<- & <- & _)|[? H1]]%list_lookup_insert_Some [(<- & <- & _)|[? H2]]%list_lookup_insert_Some Hp1 Hp2; [done|..].
    + by eapply (Hd 0%nat j2).
    + by eapply (Hd j1 0%nat).
    + by eapply (Hd j1 j2).
Qed.

Lemma typed_alloc pages bits s : arenas_ok s → 0 < pages → wp (novm_alloc_pages pages bits) (λ _ s', typed s s') s.
Proof.
  intros Hs Hp. eapply wp_mono; [by apply wp_novm_alloc_pages|].
  intros p s' [(_ & -> & _)|(? & i & ? & n & k & _ & Hi & _ & _ & _ & _ & _ & ->)]; [done|by apply typed_mark].
Qed.

Lemma typed_call s c : arenas_ok s → novm_call_ok s c → wp (run_novm_call c) (λ _ s', typed s s') s.
Proof.
  intros Hs Hc. destruct c as [pages bits| |address pages|address pages]; simpl in *.
  - apply wp_bind. eapply wp_mono; [by apply typed_alloc|]. intros p s' ?. by apply wp_ret.
  - destruct s as [|n s]; [done|]. apply wp_bind, wp_bind. eapply wp_deref; [done|]. destruct (n_unaligned_area n =? 0); simpl.
    + apply wp_bind. eapply wp_mono; [by apply typed_alloc|]. intros p s' ?. by do 2 apply wp_ret.
    + apply wp_bind, wp_modify. do 2 apply wp_ret. by apply (typed_unaligned (n :: s)).
  - destruct Hc as (i & n & k & Hi & -> & Hk & Hp & Hle). eapply wp_mono; [by eapply wp_novm_free_pages|].
    intros [] s' ->. by apply typed_mark.
  - destruct Hc as (i & n & k & Hi & -> & Hk & Hp & Hle). apply wp_bind. eapply wp_mono; [by eapply wp_novm_alloc_specific_pages|].
    intros ret s' [(_ & _ & ->)|(_ & _ & ->)]; apply wp_ret; [by apply typed_mark|done].
Qed.

Lemma novm_call_ok_place s s' c : place <$> s' = place <$> s → novm_call_ok s c → novm_call_ok s' c.
Proof.
  intros E. assert (∀ address pages, in_pages s address pages → in_pages s' address pages) as Hin.
  { intros address pages (i & n & k & Hi & ? & ? & ? & ?). assert (place <$> s' !! i = Some (place n)) as Hi' by (by rw -list_lookup_fmap E list_lookup_fmap Hi).
    destruct (s' !! i) as [n'|] eqn:En; [|done]. simplify_eq/=. exists i, n', k. by split_and!; [|congruence|..|congruence]. }
  destruct c; simpl; [done| |apply Hin..]. intros Hne ->. by destruct s.
Qed.


(** ** The heap on these pages *)

(** What [page_alloc] answers in a build without virtual memory *)
Definition novm_answer (s : arenas) (pages : Z) : option Z :=
  match novm_alloc_pages pages NOVM_ARENA_ANY s with
  | Some (p, _) => if p =? 0 then None else Some p
  | None => None
  end.

(** No page that is free in its arena holds a byte of the heap, or the one before the
    sentinel of its list. *)
Definition apart (SENTINEL : Z) (h : heap) (s : arenas) : Prop :=
  ∀ i n k x, s !! i = Some n → 0 ≤ k → n_bytes n !! Z.to_nat k = Some 0 → n_base n + k * PAGE_SIZE ≤ x < n_base n + (k + 1) * PAGE_SIZE →
    cnt (h_free h) x + cnt (alloc_chunks h) x = 0 ∧ x ≠ SENTINEL - 1.


(** ** An arena of six pages, the second in use *)

Definition demo : novm_arena := NovmArena "ram" 6 4096 [0; 1; 0; 0; 0; 0] 8192 24576 0 0.

Lemma demo_ok : arenas_ok [demo].
Proof.
  split.
  - apply Forall_singleton. split; simpl; [lia|done|done|lia|by exists 2|lia].
  - intros i j n m p Hi Hj _ _. apply list_lookup_singleton_Some in Hi as [-> _]. by apply list_lookup_singleton_Some in Hj as [-> _].
Qed.

Lemma novm_alloc_pages_spec_witness : wp (novm_alloc_pages 2 NOVM_ARENA_ANY) (alloc_spec [0%nat] 2 NOVM_ARENA_ANY [demo]) [demo].
Proof.
  apply (novm_alloc_pages_spec 2 NOVM_ARENA_ANY [demo]).
  - apply demo_ok.
  - reflexivity.
Defined.

Lemma novm_alloc_run : novm_alloc_pages 2 NOVM_ARENA_ANY [demo] = Some (16384, [NovmArena "ram" 6 4096 [0; 1; 1; 1; 0; 0] 8192 24576 0 0]).
Proof. vm_compute. reflexivity. Qed.

Lemma novm_alloc_free_witness :
  wp (p ← novm_alloc_pages 2 NOVM_ARENA_ANY; when (negb (p =? 0)) (novm_free_pages p 2)) (λ _ s', s' = [demo]) [demo].
Proof.
  apply (novm_alloc_free 2 NOVM_ARENA_ANY [demo]).
  - apply demo_ok.
  - reflexivity.
Defined.

Lemma novm_init_helper_spec_witness :
  wp (novm_init_helper 0 "ram" 5000 40000 None) (λ _ s', ∃ n, s' = [n] ∧ arena_ok n) [NovmArena "" 0 0 [] 0 0 0 0].
Proof.
  eapply wp_mono; [apply (novm_init_helper_spec [NovmArena "" 0 0 [] 0 0 0 0] 0 (NovmArena "" 0 0 [] 0 0 0 0) "ram" 5000 40000)|].
  - reflexivity.
  - reflexivity.
  - discriminate.
  - reflexivity.
  - vm_compute. discriminate.
  - intros [] s' (n & -> & ? & _). by exists n.
Defined.



(** ** At the limits *)

(** A range without a whole page: the size wraps, and the loop that makes room for
    the map of so large an arena runs on to the end of the address space. *)
Lemma init_too_small : u64 (ROUNDDOWN (5000 + 100) PAGE_SIZE - ROUNDUP 5000 PAGE_SIZE) = 2 ^ 64 - 4096.
Proof. vm_compute. reflexivity. Qed.

(** Nothing checks that the pages to free, or the specific ones asked for, are in the
    arena: past the end of the map another byte is read or written. *)
Lemma free_past_end : novm_free_pages 28672 2 [demo] = None.
Proof. vm_compute. reflexivity. Qed.

Lemma specific_past_end : novm_alloc_specific_pages 28672 2 [demo] = None.
Proof. vm_compute. reflexivity. Qed.
