(* ===== verification/Mem.v ===== *)
(** * Flat memory of bytes

    The memory that the functions of the C library work on: a partial map from
    addresses to bytes.  Access to an address that is not mapped fails. *)

From S2P Require Import Prelude Bytes.

Definition mem : Type := gmap Z Z.

Definition load (a : Z) : M mem Z := deref (λ m : mem, m !! a).

Definition store (a v : Z) : M mem unit := load a;; modify (λ m : mem, <[a := v]> m).

Fixpoint load_bytes (n : nat) (a : Z) : M mem (list Z) :=
  match n with
  | O => mret []
  | S n => b ← load a; l ← load_bytes n (a + 1); mret (b :: l)
  end.

Fixpoint store_bytes (a : Z) (l : list Z) : M mem unit :=
  match l with [] => mret () | b :: l => store a b;; store_bytes (a + 1) l end.

(** A word is the eight bytes that represent it; words are read and written at
    multiples of their size only. *)
Definition load_word (a : Z) : M mem (list Z) := assert (Z.land a 7 =? 0);; load_bytes 8 a.

Definition store_word (a : Z) (w : list Z) : M mem unit := assert (Z.land a 7 =? 0);; store_bytes a w.

(** The representation of an integer, lowest byte first *)
Definition word_bytes (v : Z) : list Z := (λ i, Z.land (Z.shiftr v (8 * i)) 255) <$> [0; 1; 2; 3; 4; 5; 6; 7].

(** A loop over a string reads a further byte in each round, so it can go round no
    more often than there are bytes. *)
Definition steps (m : mem) : nat := S (size m).

(** ** Ranges *)

(** [m] holds the bytes [l] at [a]. *)
Definition has (m : mem) (a : Z) (l : list Z) : Prop := ∀ i b, l !! i = Some b → m !! (a + Z.of_nat i) = Some b.

Definition mapped (m : mem) (a n : Z) : Prop := ∀ x, a ≤ x < a + n → is_Some (m !! x).

(** [m] with the bytes [l] written at [a] *)
Fixpoint blit (a : Z) (l : list Z) (m : mem) : mem :=
  match l with [] => m | b :: l => blit (a + 1) l (<[a := b]> m) end.

(** A string and its terminator *)
Definition cstring (m : mem) (a : Z) (l : list Z) : Prop := has m a (l ++ [0]) ∧ 0 ∉ l.

(** The two ranges have no byte in common. *)
Definition separate (a n b k : Z) : Prop := a + n ≤ b ∨ b + k ≤ a.

Section ranges.
Implicit Types (m : mem) (a b n : Z) (l : list Z).

Lemma has_nil m a : has m a [].
Proof. intros i b. by rw lookup_nil. Qed.

Lemma has_app m a l k : has m a (l ++ k) ↔ has m a l ∧ has m (a + zlen l) k.
Proof.
  split.
  - intros H. split; intros i b Hi.
    + apply H. by apply lookup_app_l_Some.
    + rewrite -(H (length l + i)%nat b); [f_equal; lia|]. rewrite lookup_app_r; [|lia]. rewrite -Hi. f_equal. lia.
  - intros [H1 H2] i b [Hi|[Hle Hi]]%lookup_app_Some; [by apply H1|]. rewrite -(H2 _ _ Hi). f_equal. lia.
Qed.

Lemma has_cons m a b l : has m a (b :: l) ↔ m !! a = Some b ∧ has m (a + 1) l.
Proof.
  rewrite (has_app m a [b] l) /=. split; intros [H ?]; (split; [|done]).
  - rewrite -(H 0%nat b); [f_equal; simpl; lia|done].
  - intros i b' Hi. apply list_lookup_singleton_Some in Hi as [-> ->]. by rw Z.add_0_r.
Qed.

Lemma has_mapped m a l : has m a l → mapped m a (zlen l).
Proof.
  intros H x Hx. destruct (lookup_lt_is_Some_2 l (Z.to_nat (x - a))) as [b Hb]; [lia|].
  exists b. rewrite -(H _ _ Hb). f_equal. lia.
Qed.

Lemma mapped_has m a n : 0 ≤ n → mapped m a n → ∃ l, zlen l = n ∧ has m a l.
Proof.
  intros Hn. rewrite -(Z2Nat.id n) //. generalize (Z.to_nat n) as k. clear n Hn. induction k as [|k IH]; intros Hm; [by exists []; split; [|apply has_nil]|].
  destruct IH as (l & Hl & H); [intros x ?; apply Hm; lia|]. destruct (Hm (a + Z.of_nat k)) as [b Hb]; [lia|].
  exists (l ++ [b]). split; [rw length_app /=; lia|]. apply has_app. split; [done|]. rw Hl. apply has_cons. by split; [|apply has_nil].
Qed.

Lemma mapped_sub m a n b k : mapped m a n → a ≤ b → b + k ≤ a + n → mapped m b k.
Proof. intros H ? ? x ?. apply H. lia. Qed.

Lemma lookup_blit a l m x :
  blit a l m !! x = if decide (a ≤ x < a + zlen l) then l !! Z.to_nat (x - a) else m !! x.
Proof.
  revert a m. induction l as [|b l IH]; intros a m; simpl; [by rw decide_False; [|lia]|].
  rw IH. destruct (decide (x = a)) as [->|Hne].
  - rw decide_False; [|lia]. rw decide_True; [|lia]. rw lookup_insert_eq Z.sub_diag //.
  - rw lookup_insert_ne //. case_decide; [rw decide_True; [|lia]|rw decide_False; [done|lia]].
    by rw (_ : Z.to_nat (x - a) = S (Z.to_nat (x - (a + 1)))); [|lia].
Qed.

Lemma lookup_blit_ne a l m x : ¬ (a ≤ x < a + zlen l) → blit a l m !! x = m !! x.
Proof. intros. by rw lookup_blit decide_False. Qed.

Lemma has_blit_eq a l m : has (blit a l m) a l.
Proof.
  intros i b Hi. pose proof (lookup_lt_Some _ _ _ Hi). rw lookup_blit decide_True; [|lia].
  by rw (_ : Z.to_nat (a + Z.of_nat i - a) = i); [|lia].
Qed.

Lemma has_blit_ne a l m b k : separate a (zlen l) b (zlen k) → has (blit a l m) b k ↔ has m b k.
Proof.
  intros Hs. split; intros H i c Hi; pose proof (lookup_lt_Some _ _ _ Hi); specialize (H i c Hi).
  - rewrite lookup_blit_ne in H; [done|]. destruct Hs; lia.
  - rw lookup_blit_ne //. destruct Hs; lia.
Qed.

Lemma mapped_blit a l m b n : mapped m b n → mapped (blit a l m) b n.
Proof.
  intros H x Hx. rw lookup_blit. case_decide; [|by apply H]. apply lookup_lt_is_Some_2. lia.
Qed.

Lemma blit_app a l k m : blit a (l ++ k) m = blit (a + zlen l) k (blit a l m).
Proof.
  revert a m. induction l as [|b l IH]; intros a m; simpl; [by rw Z.add_0_r|]. rw IH. f_equal. lia.
Qed.

(** Ranges that do not meet can be written in any order. *)
Lemma blit_comm a l b k m : separate a (zlen l) b (zlen k) → blit a l (blit b k m) = blit b k (blit a l m).
Proof.
  intros Hs. apply map_eq. intros x. rw !lookup_blit. repeat case_decide; try done. destruct Hs; lia.
Qed.

Lemma blit_same a l m : has m a l → blit a l m = m.
Proof.
  intros H. apply map_eq. intros x. rw lookup_blit. case_decide; [|done].
  destruct (lookup_lt_is_Some_2 l (Z.to_nat (x - a))) as [b Hb]; [lia|]. rw Hb -(H _ _ Hb). f_equal. lia.
Qed.

(** What a range holds is determined. *)
Lemma has_inj m a l k : has m a l → has m a k → length l = length k → l = k.
Proof.
  intros H1 H2 Hl. apply list_eq_same_length with (length l); [done|done|].
  intros i x y _ Hx Hy. specialize (H1 _ _ Hx). specialize (H2 _ _ Hy). congruence.
Qed.

(** A range in memory has no more bytes than the memory. *)
Lemma mapped_size m a n : mapped m a n → (Z.to_nat n ≤ size m)%nat.
Proof.
  intros H. rewrite -size_dom. transitivity (size (list_to_set (seqZ a n) : gset Z)).
  - rw size_list_to_set; [by rw length_seqZ|apply NoDup_seqZ].
  - apply subseteq_size. intros x Hx. apply elem_of_list_to_set, elem_of_seqZ in Hx. apply elem_of_dom, H. lia.
Qed.

Lemma has_steps m a l : has m a l → (length l < steps m)%nat.
Proof. intros H%has_mapped%mapped_size. rw /steps. lia. Qed.
End ranges.

(** ** Access *)

Section access.
Implicit Types (m : mem) (a b n : Z) (l : list Z).

Lemma wp_load a v (Q : Z → mem → Prop) m : m !! a = Some v → Q v m → wp (load a) Q m.
Proof. intros. by eapply wp_deref. Qed.

Lemma wp_store a v (Q : unit → mem → Prop) m : is_Some (m !! a) → Q () (blit a [v] m) → wp (store a v) Q m.
Proof. intros [b Hb] HQ. apply wp_bind. eapply wp_load; [done|]. by apply wp_modify. Qed.

Lemma wp_load_bytes a l (Q : list Z → mem → Prop) m : has m a l → Q l m → wp (load_bytes (length l) a) Q m.
Proof.
  revert a Q. induction l as [|b l IH]; intros a Q H HQ; simpl; [by apply wp_ret|]. apply has_cons in H as [Hb H].
  apply wp_bind. eapply wp_load; [done|]. apply wp_bind. apply (IH (a + 1)); [done|]. by apply wp_ret.
Qed.

Lemma wp_store_bytes a l (Q : unit → mem → Prop) m : mapped m a (zlen l) → Q () (blit a l m) → wp (store_bytes a l) Q m.
Proof.
  revert a m. induction l as [|b l IH]; intros a m H HQ; simpl; [by apply wp_ret|].
  apply wp_bind, wp_store; [apply H; simpl; lia|]. apply IH; [|done]. apply mapped_blit. eapply mapped_sub; [done|simpl; lia..].
Qed.
End access.
