(* ===== verification/Libc.v ===== *)
(** * The string functions of the C library

    Model of [src/mk/lib/libc/string/*.c] and [src/mk/lib/libc/ctype.c].  Pointers
    are addresses in the flat memory of [Mem]; a [char] has the values 0 to 255, as
    on ARM and RISC-V. *)

From S2P Require Import Prelude Bytes Mem.

(** ** Character classes *)

Definition isblank (c : Z) : bool := (c =? 32) || (c =? 9).
Definition isspace (c : Z) : bool := (c =? 32) || (c =? 12) || (c =? 10) || (c =? 13) || (c =? 9) || (c =? 11).
Definition islower (c : Z) : bool := (97 <=? c) && (c <=? 122).
Definition isupper (c : Z) : bool := (65 <=? c) && (c <=? 90).
Definition isdigit (c : Z) : bool := (48 <=? c) && (c <=? 57).
Definition isalpha (c : Z) : bool := isupper c || islower c.
Definition isalnum (c : Z) : bool := isalpha c || isdigit c.
Definition isxdigit (c : Z) : bool := isdigit c || (97 <=? c) && (c <=? 102) || (65 <=? c) && (c <=? 70).
Definition isgraph (c : Z) : bool := (32 <? c) && (c <? 127).
Definition iscntrl (c : Z) : bool := (c <? 32) || (c =? 127).
Definition isprint (c : Z) : bool := (32 <=? c) && (c <? 127).
Definition ispunct (c : Z) : bool := isgraph c && negb (isalnum c).
Definition tolower (c : Z) : Z := if (65 <=? c) && (c <=? 90) then c + 32 else c.
Definition toupper (c : Z) : Z := if (97 <=? c) && (c <=? 122) then c - 32 else c.

(** ** Copies *)

(** [for (; len > 0; len--) *d++ = *s++;] *)
Fixpoint copy_up (len : nat) (d s : Z) : M mem (Z * Z) :=
  match len with
  | O => mret (d, s)
  | S len => b ← load s; store d b;; copy_up len (d + 1) (s + 1)
  end.

(** The same with words *)
Fixpoint words_up (len : nat) (d s : Z) : M mem (Z * Z) :=
  match len with
  | O => mret (d, s)
  | S len => w ← load_word s; store_word d w;; words_up len (d + 8) (s + 8)
  end.

(** [for (; len > 0; len--) *--d = *--s;] *)
Fixpoint copy_down (len : nat) (d s : Z) : M mem (Z * Z) :=
  match len with
  | O => mret (d, s)
  | S len => b ← load (s - 1); store (d - 1) b;; copy_down len (d - 1) (s - 1)
  end.

Fixpoint words_down (len : nat) (d s : Z) : M mem (Z * Z) :=
  match len with
  | O => mret (d, s)
  | S len => w ← load_word (s - 8); store_word (d - 8) w;; words_down len (d - 8) (s - 8)
  end.

Definition lsize : Z := 8.
Definition lmask : Z := 7.

(** The copy upwards, common to [memcpy] and [memmove]; [len] is an [int]. *)
Definition copy_forward (dest src count : Z) : M mem unit :=
  '(d, s, count) ← (
    if negb (Z.land (Z.lor dest src) lmask =? 0) then
      let len := if negb (Z.land (Z.lxor dest src) lmask =? 0) || (count <? lsize) then s32 count
                 else lsize - Z.land dest lmask in
      '(d, s) ← copy_up (Z.to_nat len) dest src;
      mret (d, s, u64 (count - len))
    else mret (dest, src, count));
  '(d, s) ← words_up (Z.to_nat (s32 (count / lsize))) d s;
  copy_up (Z.to_nat (Z.land count lmask)) d s;;
  mret ().

Definition memcpy (dest src count : Z) : M mem Z :=
  if (count =? 0) || (dest =? src) then mret dest
  else copy_forward dest src count;; mret dest.

(** The copy downwards, from the ends of the two ranges *)
Definition copy_backward (d s count : Z) : M mem unit :=
  '(d, s, count) ← (
    if negb (Z.land (Z.lor d s) lmask =? 0) then
      let len := if negb (Z.land (Z.lxor d s) lmask =? 0) || (count <=? lsize) then s32 count
                 else Z.land d lmask in
      '(d, s) ← copy_down (Z.to_nat len) d s;
      mret (d, s, u64 (count - len))
    else mret (d, s, count));
  '(d, s) ← words_down (Z.to_nat (s32 (count / lsize))) d s;
  copy_down (Z.to_nat (Z.land count lmask)) d s;;
  mret ().

Definition memmove (dest src count : Z) : M mem Z :=
  if (count =? 0) || (dest =? src) then mret dest
  else if s64 dest <? s64 src then copy_forward dest src count;; mret dest
  else copy_backward (dest + count) (src + count) count;; mret dest.

Definition bcopy (src dest count : Z) : M mem unit := memcpy dest src count;; mret ().

(** [for (; len > 0; len--) *xs++ = c;] *)
Fixpoint set_up (len : nat) (xs c : Z) : M mem Z :=
  match len with
  | O => mret xs
  | S len => store xs (u8 c);; set_up len (xs + 1) c
  end.

Fixpoint set_words (len : nat) (xs cc : Z) : M mem Z :=
  match len with
  | O => mret xs
  | S len => store_word xs (word_bytes cc);; set_words len (xs + 8) cc
  end.

Definition memset (s c count : Z) : M mem Z :=
  let len := Z.land (u64 (- s)) 7 in
  '(xs, count) ← (
    if len <? count then
      let count := count - len in
      let cc := Z.land c 255 in
      let cc := Z.lor cc (Z.shiftl cc 8) in
      let cc := Z.lor cc (Z.shiftl cc 16) in
      let cc := Z.lor cc (Z.shiftl cc 32) in
      xs ← set_up (Z.to_nat len) s c;
      xs ← set_words (Z.to_nat (count / 8)) xs cc;
      mret (xs, Z.land count 7)
    else mret (s, count));
  set_up (Z.to_nat count) xs c;;
  mret s.

Definition bzero (dst count : Z) : M mem unit := memset dst 0 count;; mret ().

(** ** Comparison and search in memory *)

(** Whole numbers are subtracted, and the result is cut to a [signed char]. *)
Fixpoint memcmp_loop (count : nat) (su1 su2 res : Z) : M mem Z :=
  match count with
  | O => mret res
  | S count =>
      a ← load su1;
      b ← load su2;
      let res := s8 (a - b) in
      if negb (res =? 0) then mret res else memcmp_loop count (su1 + 1) (su2 + 1) res
  end.

Definition memcmp (cs ct count : Z) : M mem Z := memcmp_loop (Z.to_nat count) cs ct 0.

(** The null pointer is 0. *)
Fixpoint memchr_loop (len : nat) (b x : Z) : M mem Z :=
  match len with
  | O => mret 0
  | S len => y ← load b; if y =? x then mret b else memchr_loop len (b + 1) x
  end.

Definition memchr (buf c len : Z) : M mem Z := memchr_loop (Z.to_nat len) buf (Z.land c 255).

Fixpoint memscan_loop (size : nat) (p c : Z) : M mem Z :=
  match size with
  | O => mret p
  | S size => y ← load p; if y =? c then mret p else memscan_loop size (p + 1) c
  end.

Definition memscan (addr c size : Z) : M mem Z := memscan_loop (Z.to_nat size) addr c.

(** ** Lengths *)

Fixpoint strlen_loop (fuel : nat) (s i : Z) : M mem Z :=
  match fuel with
  | O => fail
  | S fuel => c ← load (s + i); if c =? 0 then mret i else strlen_loop fuel s (i + 1)
  end.

Definition strlen (s : Z) : M mem Z := fuel ← gets steps; strlen_loop fuel s 0.

Fixpoint strnlen_loop (fuel : nat) (s sc count : Z) : M mem Z :=
  match fuel with
  | O => fail
  | S fuel =>
      if count =? 0 then mret (sc - s)
      else c ← load sc; if c =? 0 then mret (sc - s) else strnlen_loop fuel s (sc + 1) (count - 1)
  end.

Definition strnlen (s count : Z) : M mem Z := fuel ← gets steps; strnlen_loop fuel s s count.

(** ** Copies of strings *)

(** [while (( *dest++ = *src++) != 0);] *)
Fixpoint strcpy_loop (fuel : nat) (dest src : Z) : M mem unit :=
  match fuel with
  | O => fail
  | S fuel => c ← load src; store dest c;; if c =? 0 then mret () else strcpy_loop fuel (dest + 1) (src + 1)
  end.

Definition strcpy (dest src : Z) : M mem Z := fuel ← gets steps; strcpy_loop fuel dest src;; mret dest.

(** [while ( *dest) dest++;] *)
Fixpoint seek_end (fuel : nat) (dest : Z) : M mem Z :=
  match fuel with
  | O => fail
  | S fuel => c ← load dest; if c =? 0 then mret dest else seek_end fuel (dest + 1)
  end.

Definition strcat (dest src : Z) : M mem Z :=
  fuel ← gets steps;
  e ← seek_end fuel dest;
  strcpy_loop fuel e src;;
  mret dest.

Fixpoint strncat_loop (fuel : nat) (dest src count : Z) : M mem unit :=
  match fuel with
  | O => fail
  | S fuel =>
      c ← load src;
      store dest c;;
      if c =? 0 then mret ()
      else if count - 1 =? 0 then store (dest + 1) 0 else strncat_loop fuel (dest + 1) (src + 1) (count - 1)
  end.

Definition strncat (dest src count : Z) : M mem Z :=
  fuel ← gets steps;
  when (0 <? count) (e ← seek_end fuel dest; strncat_loop fuel e src count);;
  mret dest.

(** [i] counts as in the C loop, one ahead of the copied bytes. *)
Fixpoint strncpy_loop (fuel : nat) (dest src i count : Z) : M mem (Z * Z) :=
  match fuel with
  | O => fail
  | S fuel =>
      if i <? count then
        c ← load src;
        store dest c;;
        if c =? 0 then mret (dest + 1, i + 1) else strncpy_loop fuel (dest + 1) (src + 1) (i + 1) count
      else mret (dest, i + 1)
  end.

Definition strncpy (dest src count : Z) : M mem Z :=
  fuel ← gets steps;
  '(d, i) ← strncpy_loop fuel dest src 0 count;
  set_up (Z.to_nat (count - i)) d 0;;
  mret dest.

(** [for (i = 0; i < s - 1 && src[i]; i++) dst[i] = src[i];] *)
Fixpoint strl_loop (fuel : nat) (dst src i s : Z) : M mem Z :=
  match fuel with
  | O => fail
  | S fuel =>
      if i <? s - 1 then
        c ← load (src + i);
        if c =? 0 then mret i else store (dst + i) c;; strl_loop fuel dst src (i + 1) s
      else mret i
  end.

Definition strlcpy (dst src s : Z) : M mem Z :=
  if s =? 0 then strlen src
  else
    fuel ← gets steps;
    i ← strl_loop fuel dst src 0 s;
    store (dst + i) 0;;
    n ← strlen (src + i);
    mret (i + n).

Definition strlcat (dst src s : Z) : M mem Z :=
  j ← strnlen dst s;
  if s =? 0 then n ← strlen src; mret (j + n)
  else
    fuel ← gets steps;
    i ← strl_loop fuel (dst + j) src 0 s;
    store (dst + j + i) 0;;
    n ← strlen (src + i);
    mret (j + i + n).

(** [copy] is what [malloc] returns. *)
Definition strdup (copy str : Z) : M mem Z :=
  n ← strlen str;
  if copy =? 0 then mret 0 else memcpy copy str (n + 1);; mret copy.

Definition strxfrm (dest src n : Z) : M mem Z :=
  len ← strlen src;
  when (negb (n =? 0)) (
    let copy_len := if len <? n then len else n - 1 in
    memcpy dest src copy_len;;
    store (dest + copy_len) 0);;
  mret len.

(** ** Comparison of strings *)

Fixpoint strcmp_loop (fuel : nat) (cs ct : Z) : M mem Z :=
  match fuel with
  | O => fail
  | S fuel =>
      a ← load cs;
      b ← load ct;
      let res := s8 (a - b) in
      if negb (res =? 0) || (a =? 0) then mret res else strcmp_loop fuel (cs + 1) (ct + 1)
  end.

Definition strcmp (cs ct : Z) : M mem Z := fuel ← gets steps; strcmp_loop fuel cs ct.

Definition strcoll (s1 s2 : Z) : M mem Z := strcmp s1 s2.

Fixpoint strncmp_loop (fuel : nat) (cs ct count res : Z) : M mem Z :=
  match fuel with
  | O => fail
  | S fuel =>
      if 0 <? count then
        a ← load cs;
        b ← load ct;
        let res := s8 (a - b) in
        if negb (res =? 0) || (a =? 0) then mret res else strncmp_loop fuel (cs + 1) (ct + 1) (count - 1) res
      else mret res
  end.

Definition strncmp (cs ct count : Z) : M mem Z := fuel ← gets steps; strncmp_loop fuel cs ct count 0.

Fixpoint strcasecmp_loop (fuel : nat) (cs ct : Z) : M mem Z :=
  match fuel with
  | O => fail
  | S fuel =>
      a ← load cs;
      b ← load ct;
      let res := s8 (tolower a - tolower b) in
      if negb (res =? 0) || (a =? 0) then mret res else strcasecmp_loop fuel (cs + 1) (ct + 1)
  end.

Definition strcasecmp (cs ct : Z) : M mem Z := fuel ← gets steps; strcasecmp_loop fuel cs ct.

(** The body of the loop is left by [break] with the pair of characters compared last. *)
Fixpoint strnicmp_loop (fuel : nat) (s1 s2 len : Z) : M mem (Z * Z) :=
  match fuel with
  | O => fail
  | S fuel =>
      c1 ← load s1;
      c2 ← load s2;
      let again (p : Z * Z) := if len - 1 =? 0 then mret p else strnicmp_loop fuel (s1 + 1) (s2 + 1) (len - 1) in
      if c1 =? 0 then mret (c1, c2)
      else if c2 =? 0 then mret (c1, c2)
      else if c1 =? c2 then again (c1, c2)
      else if negb (u8 (tolower c1) =? u8 (tolower c2)) then mret (u8 (tolower c1), u8 (tolower c2))
      else again (u8 (tolower c1), u8 (tolower c2))
  end.

Definition strnicmp (s1 s2 len : Z) : M mem Z :=
  fuel ← gets steps;
  '(c1, c2) ← (if 0 <? len then strnicmp_loop fuel s1 s2 len else mret (0, 0));
  mret (c1 - c2).

(** ** Search in strings *)

Fixpoint strchr_loop (fuel : nat) (s c : Z) : M mem Z :=
  match fuel with
  | O => fail
  | S fuel =>
      b ← load s;
      if b =? u8 c then mret s else if b =? 0 then mret 0 else strchr_loop fuel (s + 1) c
  end.

Definition strchr (s c : Z) : M mem Z := fuel ← gets steps; strchr_loop fuel s c.

(** [c] is not converted to a [char]. *)
Fixpoint strrchr_loop (fuel : nat) (s c last : Z) : M mem Z :=
  match fuel with
  | O => fail
  | S fuel =>
      b ← load s;
      if b =? 0 then mret last else strrchr_loop fuel (s + 1) c (if b =? c then s else last)
  end.

Definition strrchr (s c : Z) : M mem Z := fuel ← gets steps; strrchr_loop fuel s c (if c =? 0 then s else 0).

(** The inner loop of [strpbrk] and [strspn]: whether the character is in the set. *)
Fixpoint in_set (fuel : nat) (c a : Z) : M mem bool :=
  match fuel with
  | O => fail
  | S fuel => b ← load a; if b =? 0 then mret false else if c =? b then mret true else in_set fuel c (a + 1)
  end.

Fixpoint strpbrk_loop (fuel : nat) (sc1 ct : Z) : M mem Z :=
  match fuel with
  | O => fail
  | S fuel =>
      c ← load sc1;
      if c =? 0 then mret 0
      else
        inner ← gets steps;
        hit ← in_set inner c ct;
        if hit : bool then mret sc1 else strpbrk_loop fuel (sc1 + 1) ct
  end.

Definition strpbrk (cs ct : Z) : M mem Z := fuel ← gets steps; strpbrk_loop fuel cs ct.

Fixpoint strspn_loop (fuel : nat) (p accept count : Z) : M mem Z :=
  match fuel with
  | O => fail
  | S fuel =>
      c ← load p;
      if c =? 0 then mret count
      else
        inner ← gets steps;
        hit ← in_set inner c accept;
        if hit : bool then strspn_loop fuel (p + 1) accept (count + 1) else mret count
  end.

Definition strspn (s accept : Z) : M mem Z := fuel ← gets steps; strspn_loop fuel s accept 0.

(** The lengths are [int]s. *)
Fixpoint strstr_loop (fuel : nat) (s1 s2 l1 l2 : Z) : M mem Z :=
  match fuel with
  | O => fail
  | S fuel =>
      if l2 <=? l1 then
        r ← memcmp s1 s2 l2;
        if r =? 0 then mret s1 else strstr_loop fuel (s1 + 1) s2 (l1 - 1) l2
      else mret 0
  end.

Definition strstr (s1 s2 : Z) : M mem Z :=
  l2 ← strlen s2;
  if s32 l2 =? 0 then mret s1
  else
    l1 ← strlen s1;
    fuel ← gets steps;
    strstr_loop fuel s1 s2 (s32 l1) (s32 l2).

(** ** Tokens *)

(** [saved] is the static variable [___strtok]; the result comes with its new value. *)
Definition strtok (s ct saved : Z) : M mem (Z * Z) :=
  let sbegin := if s =? 0 then saved else s in
  if sbegin =? 0 then mret (0, saved)
  else
    n ← strspn sbegin ct;
    let sbegin := sbegin + n in
    c ← load sbegin;
    if c =? 0 then mret (0, 0)
    else
      send ← strpbrk sbegin ct;
      send ← (if send =? 0 then mret send
              else e ← load send; if e =? 0 then mret send else store send 0;; mret (send + 1));
      mret (sbegin, send).
