(* ===== verification/LibcMem.v ===== *)
(** * Copying, filling and comparing memory

    [memcpy], [memmove] and [memset] move words where they can: they leave the same
    memory as a copy byte by byte of what was there before, for any alignment and,
    in the case of [memmove], any overlap.  No word is accessed at an address that is
    not a multiple of its size. *)

From S2P Require Import Prelude Bytes Mem Libc.

Section copies.
Implicit Types (m : mem) (d s : Z) (l : list Z).

(** A copy upwards does not overwrite what it has yet to read. *)
Abbreviation upward d s n := (d ≤ s ∨ s + n ≤ d).

Lemma wp_copy_up l d s m :
  has m s l → mapped m d (zlen l) → upward d s (zlen l) →
  wp (copy_up (length l) d s) (λ r m', r = (d + zlen l, s + zlen l) ∧ m' = blit d l m) m.
Proof.
  revert d s m. induction l as [|b l IH]; intros d s m H Hd Hup; simpl; [apply wp_ret; by rw !Z.add_0_r|].
  apply has_cons in H as [Hb H]. apply wp_bind. eapply wp_load; [done|]. apply wp_bind, wp_store; [apply Hd; simpl; lia|].
  eapply wp_mono; [apply IH|].
  - apply (has_blit_ne d [b]); [|done]. rw /separate /=. simpl in Hup. lia.
  - apply mapped_blit. eapply mapped_sub; [done|simpl; lia..].
  - simpl in Hup. lia.
  - intros r m' [-> ->]. split; [f_equal; lia|done].
Qed.

Lemma wp_load_word a l (Q : list Z → mem → Prop) m : (8 | a) → length l = 8%nat → has m a l → Q l m → wp (load_word a) Q m.
Proof.
  intros [k ->] Hl H HQ. apply wp_bind, wp_assert; [rw (land_ones_mod _ 3) // Z.mod_mul //|]. rewrite -Hl. by apply wp_load_bytes.
Qed.

Lemma wp_store_word a l (Q : unit → mem → Prop) m : (8 | a) → mapped m a (zlen l) → Q () (blit a l m) → wp (store_word a l) Q m.
Proof.
  intros [k ->] H HQ. apply wp_bind, wp_assert; [rw (land_ones_mod _ 3) // Z.mod_mul //|]. by apply wp_store_bytes.
Qed.

Lemma wp_words_up (n : nat) l d s m :
  length l = (8 * n)%nat → (n = 0%nat ∨ (8 | d) ∧ (8 | s)) → has m s l → mapped m d (zlen l) → upward d s (zlen l) →
  wp (words_up n d s) (λ r m', r = (d + zlen l, s + zlen l) ∧ m' = blit d l m) m.
Proof.
  revert l d s m. induction n as [|n IH]; intros l d s m Hl Hal H Hd Hup; cbn [words_up].
  { destruct l; [|simpl in Hl; lia]. apply wp_ret. by rw !Z.add_0_r. }
  destruct Hal as [|[Hd8 Hs8]]; [done|]. rewrite -(take_drop 8 l) in H. apply has_app in H as [Hw Hr]. pose proof (length_take l 8) as Ht. pose proof (length_drop l 8) as Hdr.
  rewrite (_ : zlen (take 8 l) = 8) in Hr; [|lia]. apply wp_bind. eapply (wp_load_word s (take 8 l)); [done|lia|done|].
  apply wp_bind, wp_store_word; [done|eapply mapped_sub; [done|lia..]|]. eapply wp_mono; [apply (IH (drop 8 l))|].
  - lia.
  - right. by split; (apply Z.divide_add_r; [|exists 1]).
  - apply has_blit_ne; [|done]. rw /separate. lia.
  - apply mapped_blit. eapply mapped_sub; [done|lia..].
  - lia.
  - intros r m' [-> ->]. split; [f_equal; lia|]. rewrite -[X in _ = blit _ X _](take_drop 8 l) blit_app. f_equal. lia.
Qed.

(** The pointers of a copy downwards are to the ends of the ranges. *)
Abbreviation downward d s n := (s ≤ d ∨ d ≤ s - n).

Lemma wp_copy_down l d s m :
  has m (s - zlen l) l → mapped m (d - zlen l) (zlen l) → downward d s (zlen l) →
  wp (copy_down (length l) d s) (λ r m', r = (d - zlen l, s - zlen l) ∧ m' = blit (d - zlen l) l m) m.
Proof.
  revert d s m. induction l as [|b l IH] using rev_ind; intros d s m H Hd Hdn; [apply wp_ret; simpl; by rw !Z.sub_0_r|].
  rewrite length_app Nat.add_1_r /= in H Hd Hdn |- *. apply has_app in H as [H Hb]. apply has_cons in Hb as [Hb _].
  rewrite (_ : s - Z.of_nat (S (length l)) + zlen l = s - 1) in Hb; [|lia].
  apply wp_bind. eapply wp_load; [done|]. apply wp_bind, wp_store; [apply Hd; lia|]. eapply wp_mono; [apply IH|].
  - rewrite (_ : s - 1 - zlen l = s - Z.of_nat (S (length l))); [|lia]. apply has_blit_ne; [|done]. rw /separate /=. lia.
  - apply mapped_blit. eapply mapped_sub; [done|lia..].
  - lia.
  - intros r m' [-> ->]. split; [f_equal; lia|]. rewrite blit_app blit_comm; [|rw /separate /=; lia]. f_equal; [lia|f_equal; lia].
Qed.

Lemma wp_words_down (n : nat) l d s m :
  length l = (8 * n)%nat → (n = 0%nat ∨ (8 | d) ∧ (8 | s)) → has m (s - zlen l) l → mapped m (d - zlen l) (zlen l) → downward d s (zlen l) →
  wp (words_down n d s) (λ r m', r = (d - zlen l, s - zlen l) ∧ m' = blit (d - zlen l) l m) m.
Proof.
  revert l d s m. induction n as [|n IH]; intros l d s m Hl Hal H Hd Hdn; cbn [words_down].
  { destruct l; [|simpl in Hl; lia]. apply wp_ret. simpl. by rw !Z.sub_0_r. }
  destruct Hal as [|[Hd8 Hs8]]; [done|]. set (k := (8 * n)%nat) in *. pose proof (length_take l k) as Ht. pose proof (length_drop l k) as Hdr.
  rewrite -{2}(take_drop k l) in H. apply has_app in H as [Hr Hw]. rewrite (_ : s - zlen l + zlen (take k l) = s - 8) in Hw; [|lia].
  apply wp_bind. eapply (wp_load_word _ (drop k l)); [by apply Z.divide_sub_r; [|exists 1]|lia|done|].
  apply wp_bind, wp_store_word; [by apply Z.divide_sub_r; [|exists 1]|eapply mapped_sub; [done|lia..]|]. eapply wp_mono; [apply (IH (take k l))|].
  - lia.
  - right. by split; (apply Z.divide_sub_r; [|exists 1]).
  - rewrite (_ : s - 8 - zlen (take k l) = s - zlen l); [|lia]. apply has_blit_ne; [|done]. rw /separate. lia.
  - apply mapped_blit. eapply mapped_sub; [done|lia..].
  - lia.
  - intros r m' [-> ->]. split; [f_equal; lia|]. rewrite -[X in _ = blit _ X _](take_drop k l) blit_app blit_comm; [|rw /separate; lia]. f_equal; [lia|f_equal; lia].
Qed.
End copies.

(** ** Alignment *)

Lemma land_7 z : Z.land z lmask = z mod 8.
Proof. apply (land_ones_mod z 3). lia. Qed.

Lemma lor_aligned a b : Z.land (Z.lor a b) lmask = 0 → (8 | a) ∧ (8 | b).
Proof.
  rewrite Z.land_lor_distr_l Z.lor_eq_0_iff !land_7. intros [? ?]. by split; apply Z.mod_divide.
Qed.

Lemma lxor_aligned a b : Z.land (Z.lxor a b) lmask = 0 → a mod 8 = b mod 8.
Proof.
  intros H. rewrite -!land_7. apply Z.bits_inj'. intros i Hi. rewrite !Z.land_spec.
  assert (Z.testbit (Z.land (Z.lxor a b) lmask) i = false) as E by (by rw H Z.testbit_0_l).
  rewrite Z.land_spec Z.lxor_spec in E. destruct (Z.testbit a i), (Z.testbit b i), (Z.testbit lmask i); simpl in *; congruence.
Qed.

(** Three pieces of the bytes to copy: up to an address with the alignment of words, the
    words, and the rest. *)
Lemma split3 (l : list Z) p q : 0 ≤ p → 0 ≤ q → p + q ≤ zlen l →
  ∃ l1 l2 l3, l = l1 ++ l2 ++ l3 ∧ zlen l1 = p ∧ zlen l2 = q ∧ zlen l3 = zlen l - p - q.
Proof.
  intros. exists (take (Z.to_nat p) l), (take (Z.to_nat q) (drop (Z.to_nat p) l)), (drop (Z.to_nat q) (drop (Z.to_nat p) l)).
  rewrite !take_drop !length_take !length_drop. split_and!; [done|lia..].
Qed.

Lemma count_split c : 0 ≤ c < 2 ^ 31 → s32 (c / 8) = c / 8 ∧ 0 ≤ c / 8 ∧ Z.land c lmask = c mod 8 ∧ 0 ≤ c mod 8 ∧ c = 8 * (c / 8) + c mod 8.
Proof.
  intros. pose proof (Z.div_mod c 8). pose proof (Z.mod_pos_bound c 8). split_and!; [apply s32_small; lia|lia|by rw land_7|lia|lia].
Qed.

(** ** Copies *)

(** From addresses with the alignment of words, or with fewer bytes than a word *)
Lemma wp_forward_rest l d s m :
  has m s l → mapped m d (zlen l) → zlen l < 2 ^ 31 → (d ≤ s ∨ s + zlen l ≤ d) → (zlen l < 8 ∨ (8 | d) ∧ (8 | s)) →
  wp ('(d, s) ← words_up (Z.to_nat (s32 (zlen l / lsize))) d s; copy_up (Z.to_nat (Z.land (zlen l) lmask)) d s;; mret ()) (λ _ m', m' = blit d l m) m.
Proof.
  intros H Hd Hlen Hup Hal. destruct (count_split (zlen l)) as (E1 & ? & E2 & ? & Hc); [lia|]. rw E1 E2.
  destruct (split3 l 0 (8 * (zlen l / 8))) as ([|] & l2 & l3 & -> & E & Hl2 & Hl3); [lia..| |simpl in E; lia]. simpl in *.
  set (c := zlen (l2 ++ l3)) in *. apply has_app in H as [H2 H3]. rewrite blit_app.
  apply wp_bind. eapply wp_mono; [apply (wp_words_up _ l2 d s m)|]; [lia| |done|eapply mapped_sub; [done|lia..]|lia|].
  { destruct Hal; [left; lia|by right]. }
  intros r m' [-> ->]. apply wp_bind. rewrite (_ : Z.to_nat (c mod 8) = length l3); [|lia].
  eapply wp_mono; [apply wp_copy_up|]; [| |lia|by intros r m' [-> ->]; apply wp_ret].
  - apply has_blit_ne; [rw /separate; lia|done].
  - apply mapped_blit. eapply mapped_sub; [done|lia..].
Qed.

Lemma wp_backward_rest l d s m :
  has m (s - zlen l) l → mapped m (d - zlen l) (zlen l) → zlen l < 2 ^ 31 → (s ≤ d ∨ d ≤ s - zlen l) → (zlen l < 8 ∨ (8 | d) ∧ (8 | s)) →
  wp ('(d, s) ← words_down (Z.to_nat (s32 (zlen l / lsize))) d s; copy_down (Z.to_nat (Z.land (zlen l) lmask)) d s;; mret ())
    (λ _ m', m' = blit (d - zlen l) l m) m.
Proof.
  intros H Hd Hlen Hdn Hal. destruct (count_split (zlen l)) as (E1 & ? & E2 & ? & Hc); [lia|]. rw E1 E2.
  destruct (split3 l 0 (zlen l mod 8)) as ([|] & l2 & l3 & -> & E & Hl2 & Hl3); [lia..| |simpl in E; lia]. simpl in *.
  set (c := zlen (l2 ++ l3)) in *. apply has_app in H as [H2 H3]. rewrite blit_app.
  apply wp_bind. eapply wp_mono; [apply (wp_words_down _ l3 d s m)|]; [lia| | |eapply mapped_sub; [done|lia..]|lia|].
  { destruct Hal; [left; lia|by right]. }
  { by rewrite (_ : s - zlen l3 = s - c + zlen l2); [|lia]. }
  intros r m' [-> ->]. apply wp_bind. rewrite (_ : Z.to_nat (c mod 8) = length l2); [|lia].
  eapply wp_mono; [apply wp_copy_down|]; [| |lia|].
  - rewrite (_ : s - zlen l3 - zlen l2 = s - c); [|lia]. apply has_blit_ne; [rw /separate; lia|done].
  - apply mapped_blit. eapply mapped_sub; [done|lia..].
  - intros r m' [-> ->]. apply wp_ret. rewrite blit_comm; [|rw /separate; lia]. f_equal; [lia|f_equal; lia].
Qed.

Lemma wp_copy_forward l dest src m :
  has m src l → mapped m dest (zlen l) → zlen l < 2 ^ 31 → (dest ≤ src ∨ src + zlen l ≤ dest) →
  wp (copy_forward dest src (zlen l)) (λ _ m', m' = blit dest l m) m.
Proof.
  intros H Hd Hlen Hup. rw /copy_forward. destruct (Z.land (Z.lor dest src) lmask =? 0) eqn:E; simpl.
  { apply Z.eqb_eq, lor_aligned in E. apply wp_bind, wp_ret, wp_forward_rest; auto. }
  pose proof (Z.mod_pos_bound dest 8). cbv zeta. rw (land_7 dest). set (b := negb _ || _).
  assert (∃ p, (if b then s32 (zlen l) else lsize - dest mod 8) = p ∧ 0 ≤ p ≤ zlen l ∧ (zlen l - p < 8 ∨ (8 | dest + p) ∧ (8 | src + p))) as (p & -> & Hp & Hal).
  { destruct b eqn:Eb; eexists; (split; [done|]); [rw s32_small; lia|]. apply orb_false_iff in Eb as [Ex%negb_false_iff%Z.eqb_eq%lxor_aligned Ec%Z.ltb_ge].
    change lsize with 8 in *. split; [lia|]. right. pose proof (Z.div_mod dest 8). pose proof (Z.div_mod src 8).
    split; [exists (dest / 8 + 1); lia|exists (src / 8 + 1); lia]. }
  destruct (split3 l 0 p) as ([|] & l1 & l2 & -> & E1 & Hl1 & Hl2); [lia..| |simpl in E1; lia]. simpl in *. apply has_app in H as [H1 H2].
  set (c := zlen (l1 ++ l2)) in *. rewrite blit_app u64_small; [|lia]. apply wp_bind, wp_bind. rewrite (_ : Z.to_nat p = length l1); [|lia].
  eapply wp_mono; [apply wp_copy_up|]; [done|eapply mapped_sub; [done|lia..]|lia|]. intros r m' [-> ->]. apply wp_ret.
  rewrite (_ : c - p = zlen l2); [|lia]. apply wp_forward_rest; [| |lia|lia|].
  - apply has_blit_ne; [rw /separate; lia|done].
  - apply mapped_blit. eapply mapped_sub; [done|lia..].
  - rewrite Hl1. destruct Hal; [left; lia|by right].
Qed.

Lemma wp_copy_backward l d s m :
  has m (s - zlen l) l → mapped m (d - zlen l) (zlen l) → zlen l < 2 ^ 31 → (s ≤ d ∨ d ≤ s - zlen l) →
  wp (copy_backward d s (zlen l)) (λ _ m', m' = blit (d - zlen l) l m) m.
Proof.
  intros H Hd Hlen Hdn. rw /copy_backward. destruct (Z.land (Z.lor d s) lmask =? 0) eqn:E; simpl.
  { apply Z.eqb_eq, lor_aligned in E. apply wp_bind, wp_ret, wp_backward_rest; auto. }
  pose proof (Z.mod_pos_bound d 8). cbv zeta. rw (land_7 d). set (b := negb _ || _).
  assert (∃ p, (if b then s32 (zlen l) else d mod 8) = p ∧ 0 ≤ p ≤ zlen l ∧ (zlen l - p < 8 ∨ (8 | d - p) ∧ (8 | s - p))) as (p & -> & Hp & Hal).
  { destruct b eqn:Eb; eexists; (split; [done|]); [rw s32_small; lia|]. apply orb_false_iff in Eb as [Ex%negb_false_iff%Z.eqb_eq%lxor_aligned Ec%Z.leb_gt].
    change lsize with 8 in *. split; [lia|]. right. pose proof (Z.div_mod d 8). pose proof (Z.div_mod s 8).
    split; [exists (d / 8); lia|exists (s / 8); lia]. }
  destruct (split3 l 0 (zlen l - p)) as ([|] & l1 & l2 & -> & E1 & Hl1 & Hl2); [lia..| |simpl in E1; lia]. simpl in *. apply has_app in H as [H1 H2].
  set (c := zlen (l1 ++ l2)) in *. rewrite blit_app u64_small; [|lia]. apply wp_bind, wp_bind. rewrite (_ : Z.to_nat p = length l2); [|lia].
  eapply wp_mono; [apply wp_copy_down|]; [by rewrite (_ : s - zlen l2 = s - c + zlen l1); [|lia]|eapply mapped_sub; [done|lia..]|lia|]. intros r m' [-> ->]. apply wp_ret.
  rewrite (_ : c - p = zlen l1); [|lia]. eapply wp_mono; [apply wp_backward_rest|]; [| |lia|lia| |].
  - rewrite (_ : s - zlen l2 - zlen l1 = s - c); [|lia]. apply has_blit_ne; [rw /separate; lia|done].
  - apply mapped_blit. eapply mapped_sub; [done|lia..].
  - rewrite (_ : zlen l2 = p); [|lia]. destruct Hal; [left; lia|by right].
  - intros _ m' ->. rewrite blit_comm; [|rw /separate; lia]. f_equal; [lia|f_equal; lia].
Qed.

(** ** The functions *)

Lemma wp_memcpy l dest src m :
  has m src l → mapped m dest (zlen l) → zlen l < 2 ^ 31 → (dest ≤ src ∨ src + zlen l ≤ dest) →
  wp (memcpy dest src (zlen l)) (λ r m', r = dest ∧ m' = blit dest l m) m.
Proof.
  intros H Hd Hlen Hup. rw /memcpy. destruct (Z.eqb_spec (zlen l) 0); [by destruct l|]. destruct (Z.eqb_spec dest src) as [->|]; simpl.
  - apply wp_ret. by rw blit_same.
  - apply wp_bind. eapply wp_mono; [by apply wp_copy_forward|]. intros _ m' ->. by apply wp_ret.
Qed.

(** A range that does not meet the middle of the address space *)
Definition one_half (a n : Z) : Prop := 0 ≤ a ∧ a + n ≤ 2 ^ 63 ∨ 2 ^ 63 ≤ a ∧ a + n ≤ 2 ^ 64.

Lemma s64_halves a : 0 ≤ a < 2 ^ 64 → s64 a = if decide (a < 2 ^ 63) then a else a - 2 ^ 64.
Proof.
  intros. rw /s64. case_decide; [rw Z.mod_small; lia|].
  rewrite (_ : a + 2 ^ 63 = a - 2 ^ 63 + 1 * 2 ^ 64); [|lia]. rw Z.mod_add // Z.mod_small; lia.
Qed.

Lemma wp_memmove l dest src m :
  has m src l → mapped m dest (zlen l) → zlen l < 2 ^ 31 → one_half dest (zlen l) → one_half src (zlen l) →
  wp (memmove dest src (zlen l)) (λ r m', r = dest ∧ m' = blit dest l m) m.
Proof.
  intros H Hd Hlen Hhd Hhs. rw /memmove. destruct (Z.eqb_spec (zlen l) 0); [by destruct l|]. destruct (Z.eqb_spec dest src) as [->|]; simpl.
  { apply wp_ret. by rw blit_same. }
  rw /one_half in Hhd Hhs. rw !s64_halves; [|lia..]. destruct (Z.ltb_spec (if decide (dest < 2 ^ 63) then dest else dest - 2 ^ 64) (if decide (src < 2 ^ 63) then src else src - 2 ^ 64)) as [Hlt|Hge].
  { apply wp_bind. eapply wp_mono; [apply wp_copy_forward; [done..|repeat case_decide; lia]|]. intros _ m' ->. by apply wp_ret. }
  apply wp_bind. eapply wp_mono; [apply wp_copy_backward|]; [| |done|repeat case_decide; lia|].
  - by rewrite Z.add_simpl_r.
  - by rewrite Z.add_simpl_r.
  - intros _ m' ->. apply wp_ret. by rewrite Z.add_simpl_r.
Qed.

(** ** Filling *)

Lemma wp_set_up (n : nat) xs c m : mapped m xs (Z.of_nat n) →
  wp (set_up n xs c) (λ r m', r = xs + Z.of_nat n ∧ m' = blit xs (replicate n (u8 c)) m) m.
Proof.
  revert xs m. induction n as [|n IH]; intros xs m H; simpl; [apply wp_ret; by rw Z.add_0_r|].
  apply wp_bind, wp_store; [apply H; lia|]. eapply wp_mono; [apply IH; apply mapped_blit; eapply mapped_sub; [done|lia..]|].
  intros r m' [-> ->]. split; [lia|done].
Qed.

(** The byte [c] in every place of a word *)
Definition spread (c : Z) : Z :=
  let cc := Z.land c 255 in
  let cc := Z.lor cc (Z.shiftl cc 8) in
  let cc := Z.lor cc (Z.shiftl cc 16) in
  Z.lor cc (Z.shiftl cc 32).

Lemma spread_bytes c : word_bytes (spread c) = replicate 8 (u8 c).
Proof.
  rewrite /spread (land_ones_mod c 8) // -/(u8 c). assert (0 ≤ u8 c < 256) as Hc by (by apply Z.mod_pos_bound).
  assert (Forall (λ b, word_bytes (let cc := b in let cc := Z.lor cc (Z.shiftl cc 8) in let cc := Z.lor cc (Z.shiftl cc 16) in Z.lor cc (Z.shiftl cc 32)) = replicate 8 b)
    (seqZ 0 256)) as Hall by (apply (bool_decide_unpack _); vm_compute; exact I).
  rewrite Forall_forall in Hall. apply Hall, elem_of_seqZ. lia.
Qed.

Lemma wp_set_words (n : nat) xs c m : (n = 0%nat ∨ (8 | xs)) → mapped m xs (8 * Z.of_nat n) →
  wp (set_words n xs (spread c)) (λ r m', r = xs + 8 * Z.of_nat n ∧ m' = blit xs (replicate (8 * n) (u8 c)) m) m.
Proof.
  revert xs m. induction n as [|n IH]; intros xs m Hal H; cbn [set_words]; [apply wp_ret; by rw Z.add_0_r|]. destruct Hal as [|Hal]; [done|].
  apply wp_bind, wp_store_word; [done|eapply mapped_sub; [done|simpl; lia..]|].
  eapply wp_mono; [apply IH; [right; by apply Z.divide_add_r; [|exists 1]|apply mapped_blit; eapply mapped_sub; [done|lia..]]|].
  intros r m' [-> ->]. split; [lia|]. rewrite spread_bytes (_ : (8 * S n = 8 + 8 * n)%nat); [|lia]. by rewrite replicate_add blit_app length_replicate.
Qed.

Lemma wp_memset s c count m : mapped m s count → 0 ≤ count → 0 ≤ s →
  wp (memset s c count) (λ r m', r = s ∧ m' = blit s (replicate (Z.to_nat count) (u8 c)) m) m.
Proof.
  intros H Hc Hs. rw /memset. cbv zeta. rewrite -/(spread c) (land_ones_mod _ 3) //. change (2 ^ 3) with 8.
  set (len := u64 (- s) mod 8). assert (0 ≤ len < 8 ∧ (8 | s + len)) as [Hl Hal].
  { split; [by apply Z.mod_pos_bound|]. rw /len /u64 -Znumtheory.Zmod_div_mod //; [|by exists (2 ^ 61)]. pose proof (Z.div_mod (- s) 8). exists (- (- s / 8)). lia. }
  clearbody len. destruct (Z.ltb_spec len count).
  2: { apply wp_bind, wp_ret, wp_bind. eapply wp_mono; [apply wp_set_up; eapply mapped_sub; [done|lia..]|]. intros r m' [-> ->]. by apply wp_ret. }
  pose proof (Z.div_mod (count - len) 8). pose proof (Z.mod_pos_bound (count - len) 8). rewrite (land_ones_mod _ 3) //. change (2 ^ 3) with 8.
  apply wp_bind, wp_bind. eapply wp_mono; [apply wp_set_up; eapply mapped_sub; [done|lia..]|]. intros r m' [-> ->]. apply wp_bind. rewrite Z2Nat.id; [|lia].
  eapply wp_mono; [apply wp_set_words; [by right|apply mapped_blit; eapply mapped_sub; [done|lia..]]|]. intros r m' [-> ->]. apply wp_ret, wp_bind.
  eapply wp_mono; [apply wp_set_up; do 2 apply mapped_blit; eapply mapped_sub; [done|lia..]|]. intros r m' [-> ->]. apply wp_ret. split; [done|].
  rewrite (_ : Z.to_nat count = (Z.to_nat len + (8 * Z.to_nat ((count - len) / 8) + Z.to_nat ((count - len) mod 8)))%nat); [|lia].
  rewrite (replicate_add (Z.to_nat len)) (replicate_add (8 * _)) !blit_app !length_replicate. f_equal; [lia|f_equal; lia].
Qed.

(** ** Comparison and search *)

(** What [memcmp] computes: the difference of the first two bytes that differ, cut to
    a [signed char] *)
Fixpoint byte_diff (l k : list Z) : Z :=
  match l, k with
  | a :: l, b :: k => if a =? b then byte_diff l k else s8 (a - b)
  | _, _ => 0
  end.

Definition byte (b : Z) : Prop := 0 ≤ b < 256.

Lemma byte_0 : byte 0.
Proof. by rewrite /byte. Qed.

#[export] Hint Resolve byte_0 : core.

Lemma s8_diff a b : byte a → byte b → s8 (a - b) = 0 ↔ a = b.
Proof.
  rewrite /s8 /byte. intros ? ?. split; [|intros ->; by rw Z.sub_diag]. intros E.
  pose proof (Z.div_mod (a - b + 2 ^ 7) (2 ^ 8)). lia.
Qed.

Lemma byte_diff_zero l k : Forall byte l → Forall byte k → length l = length k → byte_diff l k = 0 ↔ l = k.
Proof.
  intros Hl. revert k. induction Hl as [|a l Ha Hl IH]; intros k Hk Hlen; destruct Hk as [|b k Hb Hk]; simplify_eq/=; [done|].
  destruct (Z.eqb_spec a b) as [->|Hne]; [rw IH //; naive_solver|]. rw s8_diff //. naive_solver.
Qed.

Lemma wp_memcmp l k cs ct m :
  has m cs l → has m ct k → length l = length k → Forall byte l → Forall byte k →
  wp (memcmp cs ct (zlen l)) (λ r m', r = byte_diff l k ∧ m' = m) m.
Proof.
  intros H1 H2 Hlen Hl Hk. rw /memcmp Nat2Z.id. revert k cs ct H1 H2 Hlen Hk.
  induction Hl as [|a l Ha Hl IH]; intros k cs ct H1 H2 Hlen Hk; destruct Hk as [|b k Hb Hk]; simplify_eq/=; [by apply wp_ret|].
  apply has_cons in H1 as [Ea H1]. apply has_cons in H2 as [Eb H2]. apply wp_bind. eapply wp_load; [done|]. apply wp_bind. eapply wp_load; [done|].
  pose proof (s8_diff a b Ha Hb). destruct (Z.eqb_spec a b) as [->|Hne].
  - rewrite Z.sub_diag. by apply IH.
  - rw (proj2 (Z.eqb_neq (s8 (a - b)) 0)); [by apply wp_ret|naive_solver].
Qed.

(** The address of the first byte with a property in a range at [a], or [none] *)
Definition found (P : Z → Prop) `{∀ b, Decision (P b)} (l : list Z) (a none : Z) : Z :=
  match list_find P l with Some (i, _) => a + Z.of_nat i | None => none end.

Lemma found_cons (P : Z → Prop) `{∀ b, Decision (P b)} b l a none :
  found P (b :: l) a none = if decide (P b) then a else found P l (a + 1) none.
Proof.
  rw /found /=. case_decide; [by rw Z.add_0_r|]. destruct (list_find P l) as [[i c]|]; simpl; [lia|done].
Qed.

Lemma wp_memchr l buf c m : has m buf l → wp (memchr buf c (zlen l)) (λ r m', r = found (.= u8 c) l buf 0 ∧ m' = m) m.
Proof.
  rw /memchr Nat2Z.id (land_ones_mod c 8) // -/(u8 c). revert buf. induction l as [|b l IH]; intros buf H; simpl; [by apply wp_ret|].
  apply has_cons in H as [Hb H]. apply wp_bind. eapply wp_load; [done|]. rw found_cons. destruct (Z.eqb_spec b (u8 c)).
  - by rw decide_True.
  - rw decide_False //. by apply IH.
Qed.

Lemma wp_memscan l addr c m : has m addr l → wp (memscan addr c (zlen l)) (λ r m', r = found (.= c) l addr (addr + zlen l) ∧ m' = m) m.
Proof.
  rw /memscan Nat2Z.id. revert addr. induction l as [|b l IH]; intros addr H; simpl; [apply wp_ret; by rw Z.add_0_r|].
  apply has_cons in H as [Hb H]. apply wp_bind. eapply wp_load; [done|]. rw found_cons. destruct (Z.eqb_spec b c).
  - by rw decide_True.
  - rw decide_False //. eapply wp_mono; [by apply IH|]. intros r m' [-> ->]. split; [f_equal; lia|done].
Qed.
