(* ===== verification/LibcStr.v ===== *)
(** * Strings

    What the functions on strings compute, in terms of the sequence of characters in
    front of the terminator. *)

From S2P Require Import Prelude Bytes Mem Libc LibcMem.

(** At most [count] characters of [l] *)
Abbreviation upto count l := (take (Z.to_nat count) l).

(** A further round of a loop *)
Ltac more fuel := destruct fuel as [|fuel]; [simpl in *; lia|]; simpl in *.

(** The next instruction reads a byte that is known. *)
Ltac load := apply wp_bind; eapply wp_load; [done|].

Ltac not_nul c := rewrite (proj2 (Z.eqb_neq c 0)); [|done].

Section strings.
Implicit Types (m : mem) (a s : Z) (l k : list Z).

Lemma cstring_nil m a : cstring m a [] ↔ m !! a = Some 0.
Proof. rw /cstring /= has_cons. split; [tauto|]. intros ?. split_and!; [done|apply has_nil|set_solver]. Qed.

Lemma cstring_cons m a c l : cstring m a (c :: l) ↔ m !! a = Some c ∧ c ≠ 0 ∧ cstring m (a + 1) l.
Proof. rw /cstring /= has_cons not_elem_of_cons. naive_solver. Qed.

Lemma cstring_app m a l k : cstring m a (l ++ k) ↔ has m a l ∧ 0 ∉ l ∧ cstring m (a + zlen l) k.
Proof. rw /cstring -app_assoc has_app not_elem_of_app. naive_solver. Qed.

Lemma cstring_steps m a l : cstring m a l → (S (length l) < steps m)%nat.
Proof. intros [H _]. pose proof (has_steps _ _ _ H) as Hl. rewrite length_app /= in Hl. lia. Qed.

Lemma cstring_mapped m a l : cstring m a l → mapped m a (zlen l + 1).
Proof. intros [H%has_mapped _]. by rewrite length_app Nat2Z.inj_add in H. Qed.

Lemma cstring_blit_ne b k m a l : separate b (zlen k) a (zlen l + 1) → cstring (blit b k m) a l ↔ cstring m a l.
Proof. intros Hs. rw /cstring has_blit_ne // length_app Nat2Z.inj_add //. Qed.

(** A string is determined by where it starts. *)
Lemma cstring_inj m a l k : cstring m a l → cstring m a k → l = k.
Proof.
  revert a k. induction l as [|c l IH]; intros a [|d k]; rewrite ?cstring_nil ?cstring_cons; [done|naive_solver congruence..|].
  intros (E1 & _ & H1) (E2 & _ & H2). f_equal; [congruence|by eapply IH].
Qed.

(** ** Lengths *)

Lemma wp_strlen_loop fuel s i l m : cstring m (s + i) l → (length l < fuel)%nat → wp (strlen_loop fuel s i) (λ r m', r = i + zlen l ∧ m' = m) m.
Proof.
  revert i fuel. induction l as [|c l IH]; intros i fuel H Hf; more fuel.
  - apply cstring_nil in H. load. apply wp_ret. split; [lia|done].
  - apply cstring_cons in H as (Hc & Hne & H). load. not_nul c.
    eapply wp_mono; [apply (IH (i + 1)); [by rewrite Z.add_assoc|lia]|]. intros r m' [-> ->]. split; [lia|done].
Qed.

Lemma wp_strlen s l m : cstring m s l → wp (strlen s) (λ r m', r = zlen l ∧ m' = m) m.
Proof.
  intros H. apply wp_bind, wp_gets. pose proof (cstring_steps _ _ _ H). rewrite -(Z.add_0_l (zlen l)). apply wp_strlen_loop; [by rw Z.add_0_r|lia].
Qed.

Lemma wp_strnlen_loop fuel s sc l count m :
  has m sc l → 0 ∉ l → count = zlen l ∨ zlen l < count ∧ m !! (sc + zlen l) = Some 0 → (length l < fuel)%nat →
  wp (strnlen_loop fuel s sc count) (λ r m', r = sc + zlen l - s ∧ m' = m) m.
Proof.
  revert fuel sc count. induction l as [|c l IH]; intros fuel sc count H H0 Hc Hf; more fuel.
  - rewrite Z.add_0_r in Hc |- *. destruct Hc as [->|[? Hz]]; [by apply wp_ret|]. rewrite (proj2 (Z.eqb_neq count 0)); [|lia].
    load. by apply wp_ret.
  - apply has_cons in H as [Hb H]. apply not_elem_of_cons in H0 as [? H0]. rewrite (proj2 (Z.eqb_neq count 0)); [|lia].
    load. not_nul c. eapply wp_mono; [apply IH; [done|done| |lia]|].
    + destruct Hc as [->|[? Hz]]; [left; lia|right]. split; [lia|]. rewrite -Hz. f_equal. lia.
    + intros r m' [-> ->]. split; [lia|done].
Qed.

(** At most [count] characters are looked at. *)
Lemma wp_strnlen s l count m :
  has m s l → 0 ∉ l → count = zlen l ∨ zlen l < count ∧ m !! (s + zlen l) = Some 0 → wp (strnlen s count) (λ r m', r = zlen l ∧ m' = m) m.
Proof.
  intros H H0 Hc. apply wp_bind, wp_gets. rewrite -(Z.add_simpl_l s (zlen l)). apply wp_strnlen_loop; [done..|]. by eapply has_steps.
Qed.

(** ** Copies *)

Lemma wp_strcpy_loop fuel dest src l m :
  cstring m src l → mapped m dest (zlen l + 1) → separate dest (zlen l + 1) src (zlen l + 1) → (length l < fuel)%nat →
  wp (strcpy_loop fuel dest src) (λ _ m', m' = blit dest (l ++ [0]) m) m.
Proof.
  revert fuel dest src m. induction l as [|c l IH]; intros fuel dest src m H Hd Hs Hf; more fuel.
  - apply cstring_nil in H. load. apply wp_bind, wp_store; [apply Hd; lia|]. by apply wp_ret.
  - apply cstring_cons in H as (Hc & Hne & H). load. apply wp_bind, wp_store; [apply Hd; lia|].
    not_nul c. rw /separate in Hs. apply IH; [|apply mapped_blit; eapply mapped_sub; [done|lia..]|rw /separate; lia|lia].
    apply (cstring_blit_ne dest [c]); [rw /separate /=; lia|done].
Qed.

Lemma wp_strcpy dest src l m :
  cstring m src l → mapped m dest (zlen l + 1) → separate dest (zlen l + 1) src (zlen l + 1) →
  wp (strcpy dest src) (λ r m', r = dest ∧ m' = blit dest (l ++ [0]) m) m.
Proof.
  intros H Hd Hs. apply wp_bind, wp_gets, wp_bind. pose proof (cstring_steps _ _ _ H).
  eapply wp_mono; [apply wp_strcpy_loop; [done..|lia]|]. intros _ m' ->. by apply wp_ret.
Qed.

Lemma wp_seek_end fuel a l m : cstring m a l → (length l < fuel)%nat → wp (seek_end fuel a) (λ r m', r = a + zlen l ∧ m' = m) m.
Proof.
  revert fuel a. induction l as [|c l IH]; intros fuel a H Hf; more fuel.
  - apply cstring_nil in H. load. apply wp_ret. split; [lia|done].
  - apply cstring_cons in H as (Hc & Hne & H). load. not_nul c.
    eapply wp_mono; [apply IH; [done|lia]|]. intros r m' [-> ->]. split; [lia|done].
Qed.

Lemma wp_strcat dest src l k m :
  cstring m dest k → cstring m src l → mapped m dest (zlen k + zlen l + 1) → separate dest (zlen k + zlen l + 1) src (zlen l + 1) →
  wp (strcat dest src) (λ r m', r = dest ∧ m' = blit (dest + zlen k) (l ++ [0]) m) m.
Proof.
  intros Hk H Hd Hs. apply wp_bind, wp_gets, wp_bind. pose proof (cstring_steps _ _ _ H). pose proof (cstring_steps _ _ _ Hk).
  eapply wp_mono; [apply wp_seek_end; [done|lia]|]. intros e m' [-> ->]. apply wp_bind.
  eapply wp_mono; [apply wp_strcpy_loop; [done|eapply mapped_sub; [done|lia..]|rw /separate in Hs |- *; lia|lia]|]. intros _ m' ->. by apply wp_ret.
Qed.

Lemma upto_cons count c l : 0 < count → upto count (c :: l) = c :: upto (count - 1) l.
Proof. intros. rewrite (_ : Z.to_nat count = S (Z.to_nat (count - 1))); [done|lia]. Qed.

Lemma wp_strncat_loop fuel dest src count l m :
  0 < count → cstring m src l → mapped m dest (zlen (upto count l) + 1) → separate dest (zlen (upto count l) + 1) src (zlen l + 1) → (length l < fuel)%nat →
  wp (strncat_loop fuel dest src count) (λ _ m', m' = blit dest (upto count l ++ [0]) m) m.
Proof.
  revert fuel dest src count m. induction l as [|c l IH]; intros fuel dest src count m Hc H Hd Hs Hf; more fuel.
  - apply cstring_nil in H. load. rewrite take_nil in Hd |- *. apply wp_bind, wp_store; [apply Hd; simpl; lia|]. by apply wp_ret.
  - apply cstring_cons in H as (Hb & Hne & H). rewrite upto_cons // in Hd Hs |- *. simpl in Hd, Hs. load. apply wp_bind, wp_store; [apply Hd; lia|].
    not_nul c. destruct (Z.eqb_spec (count - 1) 0) as [E|].
    + rewrite E. apply wp_store; [|done]. apply mapped_blit with (n := 2) (b := dest); [eapply mapped_sub; [done|lia..]|lia].
    + rw /separate in Hs. apply IH; [lia| |apply mapped_blit; eapply mapped_sub; [done|lia..]|rw /separate; lia|lia].
      apply (cstring_blit_ne dest [c]); [rw /separate /=; lia|done].
Qed.

Lemma wp_strncat dest src count l k m :
  0 ≤ count → cstring m dest k → cstring m src l → mapped m dest (zlen k + zlen (upto count l) + 1) →
  separate dest (zlen k + zlen (upto count l) + 1) src (zlen l + 1) →
  wp (strncat dest src count) (λ r m', r = dest ∧ m' = blit (dest + zlen k) (upto count l ++ [0]) m) m.
Proof.
  intros Hc Hk H Hd Hs. pose proof (cstring_steps _ _ _ H). pose proof (cstring_steps _ _ _ Hk). apply wp_bind, wp_gets, wp_bind. rewrite /when.
  destruct (Z.ltb_spec 0 count).
  - apply wp_bind. eapply wp_mono; [apply wp_seek_end; [done|lia]|]. intros e m' [-> ->]. rw /separate in Hs.
    eapply wp_mono; [apply wp_strncat_loop; [done|done|eapply mapped_sub; [done|lia..]|rw /separate; lia|lia]|]. intros _ m' ->. by apply wp_ret.
  - rewrite (_ : count = 0); [|lia]. apply wp_ret, wp_ret. split; [done|]. symmetry. apply blit_same. simpl.
    apply cstring_app with (k := []). by rewrite app_nil_r.
Qed.

Lemma wp_strncpy_loop fuel dest src i count l m :
  0 ≤ i ≤ count → cstring m src l → mapped m dest (count - i) → separate dest (count - i) src (zlen l + 1) → (S (length l) < fuel)%nat →
  wp (strncpy_loop fuel dest src i count) (λ r m',
    zlen l < count - i ∧ r = (dest + zlen l + 1, i + zlen l + 1) ∧ m' = blit dest (l ++ [0]) m ∨
    count - i ≤ zlen l ∧ r = (dest + (count - i), count + 1) ∧ m' = blit dest (upto (count - i) l) m) m.
Proof.
  revert fuel dest src i m. induction l as [|c l IH]; intros fuel dest src i m Hi H Hd Hs Hf; more fuel;
    (destruct (Z.ltb_spec i count); [|rewrite (_ : i = count); [|lia]; apply wp_ret; right; rewrite Z.sub_diag Z.add_0_r; split_and!; [lia|done|done]]).
  - apply cstring_nil in H. load. apply wp_bind, wp_store; [apply Hd; lia|]. apply wp_ret. left. split_and!; [lia|f_equal; lia|done].
  - apply cstring_cons in H as (Hb & Hne & H). load. apply wp_bind, wp_store; [apply Hd; lia|]. not_nul c. rw /separate in Hs.
    eapply wp_mono; [apply IH; [lia| |apply mapped_blit; eapply mapped_sub; [done|lia..]|rw /separate; lia|lia]|].
    + apply (cstring_blit_ne dest [c]); [rw /separate /=; lia|done].
    + intros r m' [(? & -> & ->)|(? & -> & ->)]; [left|right]; (split; [lia|]); [split; [f_equal; lia|done]|].
      rewrite upto_cons; [|lia]. rewrite (_ : count - i - 1 = count - (i + 1)); [|lia]. split; [f_equal; lia|done].
Qed.

(** Exactly [count] characters are written: those of the string, then zeros. *)
Lemma wp_strncpy dest src count l m :
  0 ≤ count → cstring m src l → mapped m dest count → separate dest count src (zlen l + 1) →
  wp (strncpy dest src count) (λ r m', r = dest ∧ m' = blit dest (upto count l ++ replicate (Z.to_nat (count - zlen l)) 0) m) m.
Proof.
  intros Hc H Hd Hs. pose proof (cstring_steps _ _ _ H). apply wp_bind, wp_gets, wp_bind.
  eapply wp_mono; [apply wp_strncpy_loop; [lia|done|by rw Z.sub_0_r..|done]|]. rewrite Z.sub_0_r.
  intros r m' [(? & -> & ->)|(? & -> & ->)]; apply wp_bind.
  - eapply wp_mono; [apply wp_set_up; apply mapped_blit; eapply mapped_sub; [done|lia..]|]. intros r m' [_ ->]. apply wp_ret. split; [done|].
    rewrite take_ge; [|lia]. rewrite (_ : Z.to_nat (count - zlen l) = S (Z.to_nat (count - (0 + zlen l + 1)))); [|lia].
    rewrite (blit_app _ l) /= (blit_app _ l) /=. f_equal; lia.
  - eapply wp_mono; [apply wp_set_up; intros x ?; lia|]. intros r m' [_ ->]. apply wp_ret. split; [done|].
    rewrite (_ : Z.to_nat (count - (count + 1)) = 0%nat); [|lia]. rewrite (_ : Z.to_nat (count - zlen l) = 0%nat); [|lia]. by rewrite app_nil_r.
Qed.

Lemma wp_strl_loop fuel dst src i s l m :
  cstring m (src + i) l → mapped m (dst + i) (zlen (upto (s - 1 - i) l)) → separate (dst + i) (zlen (upto (s - 1 - i) l)) (src + i) (zlen l + 1) → (length l < fuel)%nat →
  wp (strl_loop fuel dst src i s) (λ r m', r = i + zlen (upto (s - 1 - i) l) ∧ m' = blit (dst + i) (upto (s - 1 - i) l) m) m.
Proof.
  revert fuel i m. induction l as [|c l IH]; intros fuel i m H Hd Hs Hf; more fuel;
    (destruct (Z.ltb_spec i (s - 1)); [|rewrite (_ : Z.to_nat (s - 1 - i) = 0%nat); [|lia]; apply wp_ret; rewrite take_0; split; [simpl; lia|done]]).
  - apply cstring_nil in H. load. apply wp_ret. rewrite take_nil. split; [simpl; lia|done].
  - apply cstring_cons in H as (Hb & Hne & H). load. not_nul c. rewrite upto_cons in Hd Hs |- *; [|lia..]. rewrite /separate /= in Hs. simpl in Hd.
    rewrite (_ : s - 1 - i - 1 = s - 1 - (i + 1)) in Hd Hs |- *; [|lia..].
    apply wp_bind, wp_store; [apply Hd; lia|]. eapply wp_mono; [apply (IH fuel (i + 1)); [|apply mapped_blit; eapply mapped_sub; [done|lia..]|rw /separate; lia|lia]|].
    + apply (cstring_blit_ne _ [c]); [rw /separate /=; lia|by rewrite Z.add_assoc].
    + intros r m' [-> ->]. simpl. split; [lia|]. f_equal. lia.
Qed.

(** [strlcpy] copies what fits, terminates it, and returns the length of the source. *)
Lemma wp_strlcpy dst src s l m :
  0 < s → cstring m src l → mapped m dst (zlen (upto (s - 1) l) + 1) → separate dst (zlen (upto (s - 1) l) + 1) src (zlen l + 1) →
  wp (strlcpy dst src s) (λ r m', r = zlen l ∧ m' = blit dst (upto (s - 1) l ++ [0]) m) m.
Proof.
  intros Hs H Hd Hsep. rw /strlcpy. rewrite (proj2 (Z.eqb_neq s 0)); [|lia]. pose proof (cstring_steps _ _ _ H). apply wp_bind, wp_gets, wp_bind.
  rw /separate in Hsep. eapply wp_mono; [apply wp_strl_loop|]; rewrite ?Z.add_0_r ?Z.sub_0_r; [done|eapply mapped_sub; [done|lia..]|rw /separate; lia|lia|].
  intros i m' [-> ->]. set (n := zlen _). apply wp_bind, wp_store; [apply mapped_blit with (b := dst) (n := n + 1); [done|lia]|].
  rewrite -{1}(take_drop (Z.to_nat (s - 1)) l) in H. apply cstring_app in H as (_ & _ & H). pose proof (length_drop l (Z.to_nat (s - 1))). pose proof (length_take l (Z.to_nat (s - 1))).
  apply wp_bind. eapply wp_mono; [apply (wp_strlen _ (drop (Z.to_nat (s - 1)) l))|].
  - do 2 (apply cstring_blit_ne; [rw /separate /=; lia|]). done.
  - intros r m' [-> ->]. apply wp_ret. split; [lia|]. by rewrite blit_app.
Qed.

Lemma wp_strdup copy str l m :
  cstring m str l → copy ≠ 0 → mapped m copy (zlen l + 1) → separate copy (zlen l + 1) str (zlen l + 1) → zlen l < 2 ^ 31 - 1 →
  wp (strdup copy str) (λ r m', r = copy ∧ m' = blit copy (l ++ [0]) m) m.
Proof.
  intros H Hne Hd Hs Hl. apply wp_bind. eapply wp_mono; [by apply wp_strlen|]. intros n m' [-> ->]. not_nul copy. apply wp_bind.
  assert (zlen l + 1 = zlen (l ++ [0])) as E by (rw length_app /=; lia). rewrite E. rewrite E in Hd. rw /separate in Hs.
  eapply wp_mono; [apply wp_memcpy; [apply H|done|lia|lia]|]. intros r m' [_ ->]. by apply wp_ret.
Qed.

(** ** Comparison *)

(** The terminators take part in the comparison. *)
Lemma wp_strcmp cs ct l k m :
  cstring m cs l → cstring m ct k → Forall byte l → Forall byte k → wp (strcmp cs ct) (λ r m', r = byte_diff (l ++ [0]) (k ++ [0]) ∧ m' = m) m.
Proof.
  intros Hl Hk Bl Bk. apply wp_bind, wp_gets. pose proof (cstring_steps _ _ _ Hl) as Hf. revert Hf. generalize (steps m) as fuel. revert cs ct k Hl Hk Bk.
  induction Bl as [|a l Ha Bl IH]; intros cs ct k Hl Hk Bk fuel Hf; more fuel.
  - apply cstring_nil in Hl. load. destruct Bk as [|b k Hb Bk].
    + apply cstring_nil in Hk. load. by apply wp_ret.
    + apply cstring_cons in Hk as (Eb & Hne & Hk). load. rewrite orb_true_r. apply wp_ret. simpl. by destruct b.
  - apply cstring_cons in Hl as (Ea & Hne & Hl). load. rewrite (proj2 (Z.eqb_neq a 0) Hne). destruct Bk as [|b k Hb Bk].
    + apply cstring_nil in Hk. load. rewrite orb_false_r. rewrite (proj2 (Z.eqb_neq (s8 (a - 0)) 0)); [apply wp_ret; simpl; by rewrite (proj2 (Z.eqb_neq a 0) Hne)|]. intros E. by apply (proj1 (s8_diff a 0 Ha byte_0)) in E.
    + apply cstring_cons in Hk as (Eb & Hne' & Hk). load. rewrite orb_false_r. simpl. pose proof (s8_diff a b Ha Hb). destruct (Z.eqb_spec a b) as [->|?].
      * rewrite Z.sub_diag. apply IH; [done..|lia].
      * rewrite (proj2 (Z.eqb_neq (s8 (a - b)) 0)); [by apply wp_ret|naive_solver].
Qed.

Lemma tolower_byte a : byte a → byte (tolower a) ∧ (tolower a = 0 ↔ a = 0).
Proof.
  rewrite /byte /tolower. intros ?. destruct (Z.leb_spec 65 a), (Z.leb_spec a 90); simpl; lia.
Qed.

(** The same without regard to case *)
Lemma wp_strcasecmp cs ct l k m :
  cstring m cs l → cstring m ct k → Forall byte l → Forall byte k →
  wp (strcasecmp cs ct) (λ r m', r = byte_diff ((tolower <$> l) ++ [0]) ((tolower <$> k) ++ [0]) ∧ m' = m) m.
Proof.
  intros Hl Hk Bl Bk. apply wp_bind, wp_gets. pose proof (cstring_steps _ _ _ Hl) as Hf. revert Hf. generalize (steps m) as fuel. revert cs ct k Hl Hk Bk.
  induction Bl as [|a l Ha Bl IH]; intros cs ct k Hl Hk Bk fuel Hf; more fuel.
  - apply cstring_nil in Hl. load. destruct Bk as [|b k Hb Bk].
    + apply cstring_nil in Hk. load. by apply wp_ret.
    + apply cstring_cons in Hk as (Eb & Hne & Hk). load. rewrite orb_true_r. apply wp_ret. destruct (tolower_byte b Hb) as [_ Hz].
      split; [|done]. simpl. destruct (tolower b) eqn:E; [|done..]. by destruct Hne; apply Hz.
  - apply cstring_cons in Hl as (Ea & Hne & Hl). load. rewrite (proj2 (Z.eqb_neq a 0) Hne). destruct (tolower_byte a Ha) as [Ta Hz]. destruct Bk as [|b k Hb Bk].
    + apply cstring_nil in Hk. load. change (tolower 0) with 0. rewrite orb_false_r (proj2 (Z.eqb_neq (s8 (tolower a - 0)) 0)).
      * apply wp_ret. cbn [fmap list_fmap app byte_diff]. by rewrite (proj2 (Z.eqb_neq (tolower a) 0)); [|naive_solver].
      * intros E. by apply (proj1 (s8_diff _ 0 Ta byte_0)) in E; apply Hz in E.
    + apply cstring_cons in Hk as (Eb & Hne' & Hk). destruct (tolower_byte b Hb) as [Tb _]. load. rewrite orb_false_r. cbn [fmap list_fmap app byte_diff].
      pose proof (s8_diff _ _ Ta Tb). destruct (Z.eqb_spec (tolower a) (tolower b)) as [->|?].
      * rewrite Z.sub_diag. apply IH; [done..|lia].
      * rewrite (proj2 (Z.eqb_neq (s8 (tolower a - tolower b)) 0)); [by apply wp_ret|naive_solver].
Qed.

Lemma byte_diff_terminated l k : 0 ∉ l → 0 ∉ k → Forall byte l → Forall byte k → byte_diff (l ++ [0]) (k ++ [0]) = 0 ↔ l = k.
Proof.
  intros H0. revert k. induction l as [|a l IH]; intros [|b k] H0' Bl Bk; cbn [app byte_diff]; [done|..].
  - apply not_elem_of_cons in H0' as [? ?]. apply Forall_cons in Bk as [? ?]. rewrite (proj2 (Z.eqb_neq 0 b)) //. rewrite s8_diff; [naive_solver|done..].
  - apply not_elem_of_cons in H0 as [? ?]. apply Forall_cons in Bl as [? ?]. rewrite (proj2 (Z.eqb_neq a 0)) //. rewrite s8_diff; [naive_solver|done..].
  - apply not_elem_of_cons in H0 as [? ?], H0' as [? ?]. apply Forall_cons in Bl as [? ?], Bk as [? ?].
    destruct (Z.eqb_spec a b) as [->|]; [rewrite IH //; naive_solver|]. rewrite s8_diff; [naive_solver|done..].
Qed.

(** The order of characters, first one first *)
Fixpoint lex (l k : list Z) : comparison :=
  match l, k with
  | [], [] => Eq
  | [], _ :: _ => Lt
  | _ :: _, [] => Gt
  | a :: l, b :: k => match a ?= b with Eq => lex l k | c => c end
  end.

Definition ascii7 (b : Z) : Prop := 0 < b < 128.

(** For characters of 7 bits the sign of the result is the order of the strings. *)
Lemma byte_diff_lex l k : Forall ascii7 l → Forall ascii7 k → (byte_diff (l ++ [0]) (k ++ [0]) ?= 0) = lex l k.
Proof.
  assert (∀ a b, 0 ≤ a < 128 → 0 ≤ b < 128 → s8 (a - b) = a - b) as Hs by (intros a b ? ?; rw /s8 Z.mod_small; lia).
  intros Hl. revert k. induction Hl as [|a l Ha Hl IH]; intros k Hk; destruct Hk as [|b k Hb Hk]; cbn [app byte_diff lex]; [done|..].
  - destruct Hb. rewrite (proj2 (Z.eqb_neq 0 b)); [|lia]. rewrite Hs; [|lia..]. apply Z.compare_lt_iff. lia.
  - destruct Ha. rewrite (proj2 (Z.eqb_neq a 0)); [|lia]. rewrite Hs; [|lia..]. apply Z.compare_gt_iff. lia.
  - destruct Ha, Hb. destruct (Z.eqb_spec a b) as [->|]; [rewrite Z.compare_refl; by apply IH|]. rewrite Hs; [|lia..].
    destruct (Z.compare_spec a b); [done|apply Z.compare_lt_iff; lia|apply Z.compare_gt_iff; lia].
Qed.

Lemma wp_strncmp cs ct count l k m :
  0 ≤ count → cstring m cs l → cstring m ct k → Forall byte l → Forall byte k →
  wp (strncmp cs ct count) (λ r m', r = byte_diff (upto count (l ++ [0])) (upto count (k ++ [0])) ∧ m' = m) m.
Proof.
  intros Hc Hl Hk Bl Bk. apply wp_bind, wp_gets. pose proof (cstring_steps _ _ _ Hl) as Hf. revert Hf. generalize (steps m) as fuel. revert cs ct count k Hc Hl Hk Bk.
  induction Bl as [|a l Ha Bl IH]; intros cs ct count k Hc Hl Hk Bk fuel Hf; more fuel;
    (destruct (Z.ltb_spec 0 count); [|rewrite (_ : count = 0); [|lia]; by apply wp_ret]); rewrite upto_cons //.
  - apply cstring_nil in Hl. load. destruct Bk as [|b k Hb Bk].
    + apply cstring_nil in Hk. load. apply wp_ret. by rewrite upto_cons //= take_nil.
    + apply cstring_cons in Hk as (Eb & Hne & Hk). load. rewrite orb_true_r. apply wp_ret. rewrite upto_cons //=. by destruct b.
  - apply cstring_cons in Hl as (Ea & Hne & Hl). load. rewrite (proj2 (Z.eqb_neq a 0) Hne). destruct Bk as [|b k Hb Bk].
    + apply cstring_nil in Hk. load. rewrite orb_false_r (proj2 (Z.eqb_neq (s8 (a - 0)) 0)).
      * apply wp_ret. by rewrite upto_cons //= (proj2 (Z.eqb_neq a 0) Hne).
      * intros E. by apply (proj1 (s8_diff a 0 Ha byte_0)) in E.
    + apply cstring_cons in Hk as (Eb & Hne' & Hk). load. rewrite orb_false_r -/(upto count _) /= upto_cons //=. pose proof (s8_diff a b Ha Hb). destruct (Z.eqb_spec a b) as [->|?].
      * rewrite Z.sub_diag. apply IH; [lia|done..|lia].
      * rewrite (proj2 (Z.eqb_neq (s8 (a - b)) 0)); [by apply wp_ret|naive_solver].
Qed.

(** ** Search *)

Lemma wp_strchr s c l m : cstring m s l → wp (strchr s c) (λ r m', r = found (.= u8 c) (l ++ [0]) s 0 ∧ m' = m) m.
Proof.
  intros H. apply wp_bind, wp_gets. pose proof (cstring_steps _ _ _ H) as Hf. revert s H Hf. generalize (steps m) as fuel.
  induction l as [|b l IH]; intros fuel s H Hf; more fuel; rewrite found_cons.
  - apply cstring_nil in H. load. destruct (Z.eqb_spec 0 (u8 c)); [by rewrite decide_True|by rewrite decide_False].
  - apply cstring_cons in H as (Hb & Hne & H). load. destruct (Z.eqb_spec b (u8 c)); [by rewrite decide_True|]. rewrite decide_False //. not_nul b. apply IH; [done|lia].
Qed.

Lemma found_app (P : Z → Prop) `{∀ b, Decision (P b)} l k a none : found P (l ++ k) a none = found P l a (found P k (a + zlen l) none).
Proof.
  revert a. induction l as [|b l IH]; intros a; [by rewrite Z.add_0_r|]. rewrite -app_comm_cons !found_cons IH. case_decide; [done|]. do 2 f_equal. simpl. lia.
Qed.

(** The last character that is [c], and the start of the string for the terminator *)
Lemma wp_strrchr s c l m : cstring m s l → c ≠ 0 →
  wp (strrchr s c) (λ r m', m' = m ∧ (r = 0 ∧ c ∉ l ∨ ∃ l1 l2, l = l1 ++ c :: l2 ∧ c ∉ l2 ∧ r = s + zlen l1)) m.
Proof.
  intros H Hc. apply wp_bind, wp_gets. not_nul c. pose proof (cstring_steps _ _ _ H) as Hf.
  assert (∀ fuel s last, cstring m s l → (length l < fuel)%nat →
    wp (strrchr_loop fuel s c last) (λ r m', m' = m ∧ (r = last ∧ c ∉ l ∨ ∃ l1 l2, l = l1 ++ c :: l2 ∧ c ∉ l2 ∧ r = s + zlen l1)) m) as Hg; [|apply Hg; [done|lia]].
  clear H Hf s. induction l as [|b l IH]; intros fuel s last H Hf; more fuel.
  - apply cstring_nil in H. load. apply wp_ret. split; [done|]. left. split; [done|set_solver].
  - apply cstring_cons in H as (Hb & Hne & H). load. not_nul b. eapply wp_mono; [apply IH; [done|lia]|].
    intros r m' [-> [[-> Hn]|(l1 & l2 & -> & Hn & ->)]]; (split; [done|]).
    + destruct (Z.eqb_spec b c) as [->|]; [right; exists [], l; split_and!; [done|done|simpl; lia]|left]. split; [done|]. by apply not_elem_of_cons.
    + right. exists (b :: l1), l2. split_and!; [done|done|simpl; lia].
Qed.

Lemma wp_in_set fuel c a set m : cstring m a set → (length set < fuel)%nat → wp (in_set fuel c a) (λ r m', r = bool_decide (c ∈ set) ∧ m' = m) m.
Proof.
  revert fuel a. induction set as [|b set IH]; intros fuel a H Hf; more fuel.
  - apply cstring_nil in H. load. by apply wp_ret.
  - apply cstring_cons in H as (Hb & Hne & H). load. not_nul b. destruct (Z.eqb_spec c b) as [->|].
    + apply wp_ret. split; [|done]. symmetry. apply bool_decide_eq_true. set_solver.
    + eapply wp_mono; [apply IH; [done|lia]|]. intros r m' [-> ->]. split; [|done]. apply bool_decide_ext. rewrite elem_of_cons. naive_solver.
Qed.

Lemma wp_strpbrk cs ct l set m : cstring m cs l → cstring m ct set → wp (strpbrk cs ct) (λ r m', r = found (.∈ set) l cs 0 ∧ m' = m) m.
Proof.
  intros H Hs. apply wp_bind, wp_gets. pose proof (cstring_steps _ _ _ H) as Hf. pose proof (cstring_steps _ _ _ Hs). revert cs H Hf. generalize (steps m) at 1 2 as fuel.
  induction l as [|b l IH]; intros fuel cs H' Hf; more fuel.
  - apply cstring_nil in H'. load. by apply wp_ret.
  - apply cstring_cons in H' as (Hb & Hne & H'). load. not_nul b. apply wp_bind, wp_gets, wp_bind. eapply wp_mono; [apply wp_in_set; [done|lia]|].
    intros hit m' [-> ->]. rewrite found_cons. case_bool_decide; [by rewrite decide_True|]. rewrite decide_False //. apply IH; [done|lia].
Qed.

(** The longest prefix whose characters are in the set *)
Fixpoint span (set l : list Z) : nat :=
  match l with [] => 0%nat | b :: l => if decide (b ∈ set) then S (span set l) else 0%nat end.

Lemma wp_strspn s accept l set m : cstring m s l → cstring m accept set → wp (strspn s accept) (λ r m', r = Z.of_nat (span set l) ∧ m' = m) m.
Proof.
  intros H Hs. apply wp_bind, wp_gets. pose proof (cstring_steps _ _ _ H) as Hf. pose proof (cstring_steps _ _ _ Hs).
  assert (∀ fuel s count, cstring m s l → (length l < fuel)%nat → wp (strspn_loop fuel s accept count) (λ r m', r = count + Z.of_nat (span set l) ∧ m' = m) m) as Hg.
  2: { apply Hg; [done|lia]. }
  clear H Hf s. induction l as [|b l IH]; intros fuel s count H' Hf; more fuel.
  - apply cstring_nil in H'. load. apply wp_ret. split; [lia|done].
  - apply cstring_cons in H' as (Hb & Hne & H'). load. not_nul b. apply wp_bind, wp_gets, wp_bind. eapply wp_mono; [apply wp_in_set; [done|lia]|].
    intros hit m' [-> ->]. case_bool_decide; [rewrite decide_True //|rewrite decide_False //; apply wp_ret; split; [lia|done]].
    eapply wp_mono; [apply IH; [done|lia]|]. intros r m' [-> ->]. split; [lia|done].
Qed.

(** ** Occurrences of a string in another *)

Lemma prefix_take k l : k `prefix_of` l ↔ take (length k) l = k.
Proof.
  split; [intros [k' ->]; apply take_app_length|]. intros E. rewrite -(take_drop (length k) l) E. by eexists.
Qed.

Lemma wp_strstr_loop fuel s1 s2 l k m :
  cstring m s1 l → has m s2 k → k ≠ [] → Forall byte l → Forall byte k → (length l < fuel)%nat →
  wp (strstr_loop fuel s1 s2 (zlen l) (zlen k)) (λ r m', m' = m ∧
    (r = 0 ∧ (∀ i, ¬ k `prefix_of` drop i l) ∨ ∃ i, r = s1 + Z.of_nat i ∧ k `prefix_of` drop i l ∧ ∀ j, (j < i)%nat → ¬ k `prefix_of` drop j l)) m.
Proof.
  revert fuel s1. induction l as [|a l IH]; intros fuel s1 Hl Hk Hne Bl Bk Hf; (destruct fuel as [|fuel]; [simpl in *; lia|]); cbn [strstr_loop].
  - destruct k as [|c k]; [done|]. simpl. apply wp_ret. split; [done|]. left. split; [done|]. intros i. rewrite drop_nil. by intros ?%prefix_nil_inv.
  - destruct (Z.leb_spec (zlen k) (zlen (a :: l))) as [Hle|Hgt].
    2: { apply wp_ret. split; [done|]. left. split; [done|]. intros i Hp%prefix_length. rewrite length_drop in Hp. lia. }
    set (w := take (length k) (a :: l)). pose proof (length_take (a :: l) (length k)) as Hw. fold w in Hw.
    assert (has m s1 w) as Hhw. { apply (has_app _ _ w (drop (length k) (a :: l) ++ [0])). rewrite app_assoc take_drop. apply Hl. }
    assert (Forall byte w) as Bw by (by apply Forall_take). apply wp_bind.
    rewrite {1}(_ : length k = length w); [|lia]. eapply wp_mono; [apply (wp_memcmp w k); [done..|lia|done|done]|]. intros r m' [-> ->].
    pose proof (byte_diff_zero w k Bw Bk ltac:(lia)) as Ez. destruct (Z.eqb_spec (byte_diff w k) 0) as [E|E]; rewrite Ez in E.
    + apply wp_ret. split; [done|]. right. exists 0%nat. split_and!; [lia|by apply prefix_take|lia].
    + apply cstring_cons in Hl as (_ & _ & Hl). apply Forall_cons in Bl as [_ Bl]. rewrite (_ : zlen (a :: l) - 1 = zlen l); [|simpl; lia].
      assert (¬ k `prefix_of` a :: l) as Hno by (by rewrite prefix_take).
      eapply wp_mono; [apply IH; [done..|simpl in Hf; lia]|]. intros r m' [-> [[-> Hn]|(i & -> & Hp & Hn)]]; (split; [done|]); [left|right].
      * split; [done|]. intros [|i]; [done|apply Hn].
      * exists (S i). split_and!; [lia|done|]. intros [|j] Hj; [done|apply Hn; lia].
Qed.

(** The first occurrence of the second string in the first *)
Lemma wp_strstr s1 s2 l k m :
  cstring m s1 l → cstring m s2 k → Forall byte l → Forall byte k → zlen l < 2 ^ 31 → zlen k < 2 ^ 31 →
  wp (strstr s1 s2) (λ r m', m' = m ∧
    (r = 0 ∧ (∀ i, ¬ k `prefix_of` drop i l) ∨ ∃ i, r = s1 + Z.of_nat i ∧ k `prefix_of` drop i l ∧ ∀ j, (j < i)%nat → ¬ k `prefix_of` drop j l)) m.
Proof.
  intros Hl Hk Bl Bk Ll Lk. apply wp_bind. eapply wp_mono; [by apply wp_strlen|]. intros n m' [-> ->]. rewrite s32_small; [|lia].
  destruct (Z.eqb_spec (zlen k) 0) as [E|Hne].
  - destruct k; [|done]. apply wp_ret. split; [done|]. right. exists 0%nat. split_and!; [lia|apply prefix_nil|lia].
  - apply wp_bind. eapply wp_mono; [by apply wp_strlen|]. intros n m' [-> ->]. apply wp_bind, wp_gets. rewrite s32_small; [|lia]. pose proof (cstring_steps _ _ _ Hl).
    apply wp_strstr_loop; [done| |by intros ->|done..|lia]. by apply (has_app _ _ k [0]), Hk.
Qed.

(** ** Tokens *)

(** The pieces of a string between characters of [set], without the empty ones;
    [acc] is what has been read of the current one. *)
Fixpoint fields (set l acc : list Z) : list (list Z) :=
  match l with
  | [] => match acc with [] => [] | _ => [acc] end
  | b :: l =>
      if decide (b ∈ set) then match acc with [] => fields set l [] | _ => acc :: fields set l [] end
      else fields set l (acc ++ [b])
  end.

Lemma fields_skip set l : fields set (drop (span set l) l) [] = fields set l [].
Proof. induction l as [|b l IH]; simpl; [done|]. case_decide; simpl; [done|]. by rewrite decide_False. Qed.

Lemma fields_token set t l acc : Forall (.∉ set) t → fields set (t ++ l) acc = fields set l (acc ++ t).
Proof.
  intros Ht. revert acc. induction Ht as [|b t Hb Ht IH]; intros acc; simpl; [by rewrite app_nil_r|]. rewrite decide_False // IH. by rewrite -app_assoc.
Qed.

(** A string that does not start with a delimiter is a token and what follows it. *)
Lemma token_split (set l : list Z) s : (∀ b l', l = b :: l' → b ∉ set) → l ≠ [] →
  ∃ t, t ≠ [] ∧ Forall (.∉ set) t ∧
    (l = t ∧ found (.∈ set) l s 0 = 0 ∨ ∃ d l', l = t ++ d :: l' ∧ d ∈ set ∧ found (.∈ set) l s 0 = s + zlen t).
Proof.
  intros Hhd Hne. rewrite /found. destruct (list_find (.∈ set) l) as [[i d]|] eqn:E.
  - apply list_find_Some in E as (Hi & Hd & Hbef). pose proof (lookup_lt_Some _ _ _ Hi). exists (take i l). split_and!.
    + destruct i, l; try done. simpl in *. simplify_eq. by destruct (Hhd d l).
    + apply Forall_lookup. intros j b [Hb Hj]%lookup_take_Some. by eapply Hbef.
    + right. exists d, (drop (S i) l). rewrite take_drop_middle //. split_and!; [done|done|]. rewrite length_take. lia.
  - apply list_find_None in E. exists l. split_and!; [done|done|by left].
Qed.

(** All the tokens of a string, by calls of [strtok] with the string and then with the
    null pointer, until that returns the null pointer *)
Fixpoint strtok_all (fuel : nat) (s ct saved : Z) : M mem (list Z) :=
  match fuel with
  | O => fail
  | S fuel =>
      '(p, saved) ← strtok s ct saved;
      if p =? 0 then mret [] else ps ← strtok_all fuel 0 ct saved; mret (p :: ps)
  end.

Lemma span_drop set l b l' : drop (span set l) l = b :: l' → b ∉ set.
Proof. induction l as [|c l IH]; simpl; [done|]. case_decide; [done|]. naive_solver. Qed.

Lemma span_le set l : (span set l ≤ length l)%nat.
Proof. induction l as [|c l IH]; simpl; [done|]. case_decide; lia. Qed.

(** One call, on the rest [l] of the string, at [a] *)
Lemma wp_strtok_next s ct saved a l set m :
  a = (if s =? 0 then saved else s) → 0 < a → cstring m a l → cstring m ct set → separate a (zlen l + 1) ct (zlen set + 1) →
  wp (strtok s ct saved) (λ r m',
    r = (0, 0) ∧ m' = m ∧ fields set l [] = [] ∨
    ∃ q t l' n, r.1 = q ∧ a ≤ q ∧ fields set l [] = t :: fields set l' [] ∧ cstring m' q t ∧ (length l' < length l)%nat ∧
      (∀ x, ¬ (a ≤ x < a + zlen l) → m' !! x = m !! x) ∧
      (r.2 = 0 ∧ l' = [] ∨ r.2 = n ∧ q + zlen t + 1 = n ∧ n + zlen l' = a + zlen l ∧ cstring m' n l')) m.
Proof.
  intros Ea Hpos Hl Hs Hsep. rewrite /strtok -Ea. rewrite (proj2 (Z.eqb_neq a 0)); [|lia]. apply wp_bind. eapply wp_mono; [by eapply wp_strspn|]. intros n m' [-> ->].
  pose proof (span_le set l) as Hle. set (k := span set l) in *. rewrite -(fields_skip set l) -/k. set (r := drop k l) in *.
  assert (cstring m (a + Z.of_nat k) r) as Hr.
  { rewrite -{1}(take_drop k l) in Hl. apply cstring_app in Hl as (_ & _ & Hl). by rewrite length_take Nat.min_l in Hl. }
  assert (length r = (length l - k)%nat) as Lr by apply length_drop. destruct (decide (r = [])) as [E|Hne].
  { rewrite E in Hr |- *. apply cstring_nil in Hr. load. apply wp_ret. by left. }
  assert (∃ c, m !! (a + Z.of_nat k) = Some c ∧ c ≠ 0) as (c & Hc & Hc0).
  { destruct r as [|c r']; [done|]. apply cstring_cons in Hr as (? & ? & _). by exists c. }
  load. not_nul c. apply wp_bind. eapply wp_mono; [by eapply wp_strpbrk|]. intros send m' [-> ->].
  destruct (token_split set r (a + Z.of_nat k)) as (t & Ht & Hnd & Hcase); [intros ? ?; apply span_drop|done|].
  assert (∀ l', fields set (t ++ l') [] = fields set l' t) as Hft by (intros l'; by apply fields_token).
  destruct Hcase as [[E ->]|(d & l' & E & Hd & ->)].
  - apply wp_bind, wp_ret, wp_ret. right. exists (a + Z.of_nat k), t, [], 0. simpl. rewrite E in Lr, Hr |- *.
    assert (fields set t [] = [t]) as -> by (rewrite -(app_nil_r t) Hft app_nil_r; by destruct t).
    split_and!; [done|lia|done|done|destruct t; [done|simpl in *; lia]|done|by left].
  - rewrite E in Lr, Hr |- *. rewrite length_app /= in Lr. apply cstring_app in Hr as (Hht & H0t & Hr). apply cstring_cons in Hr as (Ed & Hd0 & Hr).
    rewrite (proj2 (Z.eqb_neq (a + Z.of_nat k + zlen t) 0)); [|lia]. apply wp_bind, wp_bind. eapply wp_load; [done|]. not_nul d.
    apply wp_bind, wp_store; [by eexists|]. apply wp_ret, wp_ret. right. exists (a + Z.of_nat k), t, l', (a + Z.of_nat k + zlen t + 1). simpl.
    rewrite Hft /= decide_True //. split_and!; [done|lia|by destruct t| |lia| |].
    + split; [|done]. apply has_app. split; [apply (has_blit_ne _ [0]); [rw /separate; lia|done]|]. apply has_cons. split; [by rewrite lookup_insert_eq|apply has_nil].
    + intros x Hx. rewrite lookup_insert_ne //. lia.
    + right. split_and!; [done|done|lia|]. apply (cstring_blit_ne _ [0]); [rw /separate /=; lia|done].
Qed.

(** Repeated calls of [strtok] give the tokens of the string, in order, and change
    nothing outside it. *)
Lemma wp_strtok_all fuel s ct saved a l set m :
  a = (if s =? 0 then saved else s) → 0 < a → cstring m a l → cstring m ct set → separate a (zlen l + 1) ct (zlen set + 1) → (length l < fuel)%nat →
  wp (strtok_all fuel s ct saved) (λ ps m', Forall2 (cstring m') ps (fields set l []) ∧ ∀ x, ¬ (a ≤ x < a + zlen l) → m' !! x = m !! x) m.
Proof.
  revert s saved a l m. induction fuel as [|fuel IH]; intros s saved a l m Ea Hpos Hl Hs Hsep Hf; [lia|]. cbn [strtok_all]. apply wp_bind.
  eapply wp_mono; [by apply (wp_strtok_next s ct saved a l set)|]. intros [p sv] m' [([= -> ->] & -> & ->)|(q & t & l' & n & Hq & Hge & -> & Hqt & Hlt & Hfr & Hnext)].
  { by apply wp_ret. }
  simpl in *. subst q. rewrite (proj2 (Z.eqb_neq p 0)); [|lia]. apply wp_bind.
  assert (cstring m' ct set) as Hs'.
  { destruct Hs as [Hs H0]. split; [|done]. intros i b Hi. rewrite -(Hs i b Hi). apply Hfr. pose proof (lookup_lt_Some _ _ _ Hi) as Hlen. rewrite length_app /= in Hlen. rw /separate in Hsep. lia. }
  destruct Hnext as [[-> ->]|(-> & <- & Hn & Hnl)].
  - destruct fuel as [|fuel]; [lia|]. cbn [strtok_all]. apply wp_bind. rewrite /strtok /=. apply wp_ret, wp_ret, wp_ret. split; [by constructor|done].
  - eapply wp_mono; [apply (IH 0 _ (p + zlen t + 1) l'); [done|lia|done|done|rw /separate in Hsep |- *; lia|lia]|]. intros ps m'' [Hps Hfr']. apply wp_ret. split.
    + constructor; [|done]. destruct Hqt as [Hqt ?]. split; [|done]. intros i b Hi. rewrite -(Hqt i b Hi). apply Hfr'. pose proof (lookup_lt_Some _ _ _ Hi) as Hlen. rewrite length_app /= in Hlen. lia.
    + intros x Hx. rewrite Hfr'; [apply Hfr; lia|lia].
Qed.
End strings.
