(* ===== verification/LibcRun.v ===== *)
(** * The string functions: theorems and runs *)

From S2P Require Import Prelude Bytes Mem Libc LibcMem LibcStr.

(** C40: [memmove] moves words where it can, upwards or downwards: for any alignment
    and any overlap of the two ranges the destination holds what the source held
    before, nothing else changes, and no access to a word is misaligned. *)
Theorem memmove_spec l dest src (m : mem) :
  has m src l → mapped m dest (zlen l) → zlen l < 2 ^ 31 → one_half dest (zlen l) → one_half src (zlen l) →
  wp (memmove dest src (zlen l)) (λ r m', r = dest ∧ m' = blit dest l m) m.
Proof. apply wp_memmove. Qed.

(** [strcmp] returns 0 exactly for equal strings, and for characters of 7 bits
    the sign of its result is the order of the strings. *)
Theorem strcmp_spec cs ct l k (m : mem) :
  cstring m cs l → cstring m ct k → Forall byte l → Forall byte k →
  wp (strcmp cs ct) (λ r m', m' = m ∧ (r = 0 ↔ l = k) ∧ (Forall ascii7 l → Forall ascii7 k → (r ?= 0) = lex l k)) m.
Proof.
  intros Hl Hk Bl Bk. eapply wp_mono; [by apply wp_strcmp|]. intros r m' [-> ->].
  split_and!; [done| |by apply byte_diff_lex]. apply byte_diff_terminated; [apply Hl|apply Hk|done|done].
Qed.

(** Calls of [strtok] until it returns [NULL] give the non-empty pieces of the
    string between the delimiters, in order and each of them terminated, and change
    nothing outside the string. *)
Theorem strtok_tokens s ct saved l set (m : mem) :
  0 < s → cstring m s l → cstring m ct set → separate s (zlen l + 1) ct (zlen set + 1) →
  wp (strtok_all (S (length l)) s ct saved) (λ ps m', Forall2 (cstring m') ps (fields set l []) ∧ ∀ x, ¬ (s ≤ x < s + zlen l) → m' !! x = m !! x) m.
Proof.
  intros Hs Hl Hset Hsep. apply wp_strtok_all; [|done..|lia]. rewrite (proj2 (Z.eqb_neq s 0)); [done|lia].
Qed.

(** ** A memory with two strings and some room *)

(** ["a,bc,"] at 100, [","] at 200, and 32 bytes at 300 *)
Definition page : mem := blit 100 [97; 44; 98; 99; 44; 0] (blit 200 [44; 0] (blit 300 (replicate 32 7) ∅)).

Lemma has_dec m a l : bool_decide (Forall (λ x, m !! x.1 = Some x.2) (zip (seqZ a (zlen l)) l)) = true → has m a l.
Proof.
  intros H%bool_decide_eq_true i b Hi. rewrite Forall_forall in H. apply (H (a + Z.of_nat i, b)). apply list_elem_of_lookup. exists i.
  apply lookup_zip_Some. split; [|done]. apply lookup_seqZ. pose proof (lookup_lt_Some _ _ _ Hi). lia.
Qed.

Lemma mapped_dec m a n : 0 ≤ n → bool_decide (Forall (λ x, is_Some (m !! x)) (seqZ a n)) = true → mapped m a n.
Proof. intros Hn H%bool_decide_eq_true x Hx. rewrite Forall_forall in H. apply H, elem_of_seqZ. lia. Qed.

Lemma memmove_spec_witness : wp (memmove 304 301 20) (λ r m', r = 304 ∧ m' = blit 304 (replicate 20 7) page) page.
Proof.
  apply (memmove_spec (replicate 20 7) 304 301 page).
  - apply has_dec. vm_compute. reflexivity.
  - apply mapped_dec; [done|]. vm_compute. reflexivity.
  - reflexivity.
  - left. vm_compute. by split.
  - left. vm_compute. by split.
Defined.

Lemma comma : cstring page 200 [44].
Proof. split; [apply has_dec; vm_compute; reflexivity|set_solver]. Qed.

Lemma letters : cstring page 100 [97; 44; 98; 99; 44].
Proof. split; [apply has_dec; vm_compute; reflexivity|set_solver]. Qed.

Lemma strcmp_spec_witness : wp (strcmp 100 200) (λ r m', (r ?= 0) = lex [97; 44; 98; 99; 44] [44]) page.
Proof.
  eapply wp_mono; [apply (strcmp_spec 100 200 [97; 44; 98; 99; 44] [44] page)|].
  - apply letters.
  - apply comma.
  - by repeat constructor.
  - by repeat constructor.
  - intros r m' (_ & _ & ->); [done|by repeat constructor..].
Defined.

Lemma strtok_tokens_witness :
  wp (strtok_all 6 100 200 0) (λ ps m', Forall2 (cstring m') ps [[97]; [98; 99]]) page.
Proof.
  eapply wp_mono; [apply (strtok_tokens 100 200 0 [97; 44; 98; 99; 44] [44] page)|].
  - reflexivity.
  - apply letters.
  - apply comma.
  - left. vm_compute. discriminate.
  - intros ps m' [H _]. exact H.
Defined.

(** ** At the limits *)

(** The difference of two bytes is cut to a [signed char]: 200 comes before 10. *)
Lemma memcmp_sign : wp (memcmp 0 1 1) (λ r _, r < 0) (blit 0 [200; 10] ∅).
Proof. vm_compute. reflexivity. Qed.

(** [strlcat] bounds what it appends, not the result, by the size: eight bytes hold
    ["abcd"], and "efgh" is appended with its terminator, out of bounds. *)
Lemma strlcat_overruns : strlcat 0 100 8 (blit 0 [97; 98; 99; 100; 0; 0; 0; 0] (blit 100 [101; 102; 103; 104; 0] ∅)) = None.
Proof. vm_compute. reflexivity. Qed.

(** The terminator is found at the start of the string. *)
Lemma strrchr_nul : wp (strrchr 100 0) (λ r _, r = 100) page.
Proof. vm_compute. reflexivity. Qed.
