(* ===== verification/Strto.v ===== *)
(** * Numbers from strings

    Model of [src/mk/lib/libc/strtol.c], [strtoll.c] and [atoi.c].  The functions
    that set [*endptr] and [errno] return them with the value: the end pointer, and
    the error if there is one. *)

From S2P Require Import Prelude Bytes Mem Libc.

Definition LONG_MAX : Z := 2 ^ 63 - 1.
Definition LONG_MIN : Z := - 2 ^ 63.
Definition LLONG_MAX : Z := 2 ^ 63 - 1.
Definition LLONG_MIN : Z := - 2 ^ 63.
Definition ULONG_MAX : Z := 2 ^ 64 - 1.

Inductive errno := ERANGE | EINVAL.

(** ** strtol and strtoll *)

(** [do c = *s++; while (isspace(c))]: the character and the pointer behind it *)
Fixpoint skip_space (fuel : nat) (s : Z) : M mem (Z * Z) :=
  match fuel with
  | O => fail
  | S fuel => c ← load s; if isspace c then skip_space fuel (s + 1) else mret (c, s + 1)
  end.

(** The value of a digit, [None] for other characters *)
Definition digit_val (c : Z) : option Z :=
  if isdigit c then Some (c - 48)
  else if isalpha c then Some (c - (if isupper c then 65 - 10 else 97 - 10))
  else None.

(** The loop over the digits; [any] is 0, 1, or -1 after an overflow. *)
Fixpoint strtol_loop (fuel : nat) (MIN MAX base cutoff cutlim : Z) (neg : bool) (acc any : Z) (err : option errno) (c s : Z) :
    M mem (Z * Z * option errno * Z) :=
  match fuel with
  | O => fail
  | S fuel =>
      match digit_val c with
      | None => mret (acc, any, err, s)
      | Some v =>
          if base <=? v then mret (acc, any, err, s)
          else
            c' ← load s;
            if any <? 0 then strtol_loop fuel MIN MAX base cutoff cutlim neg acc any err c' (s + 1)
            else if neg then
              if (acc <? cutoff) || (acc =? cutoff) && (cutlim <? v)
              then strtol_loop fuel MIN MAX base cutoff cutlim neg MIN (-1) (Some ERANGE) c' (s + 1)
              else strtol_loop fuel MIN MAX base cutoff cutlim neg (s64 (s64 (acc * base) - v)) 1 err c' (s + 1)
            else
              if (cutoff <? acc) || (acc =? cutoff) && (cutlim <? v)
              then strtol_loop fuel MIN MAX base cutoff cutlim neg MAX (-1) (Some ERANGE) c' (s + 1)
              else strtol_loop fuel MIN MAX base cutoff cutlim neg (s64 (s64 (acc * base) + v)) 1 err c' (s + 1)
      end
  end.

(** [cutoff] and [cutlim]; [/] and [%] of C round towards zero. *)
Definition limits (MIN MAX base : Z) (neg : bool) : Z * Z :=
  let cutoff := if neg then MIN else MAX in
  let cutlim := s32 (Z.rem cutoff base) in
  let cutoff := Z.quot cutoff base in
  if neg then if 0 <? cutlim then (cutoff + 1, - (cutlim - base)) else (cutoff, - cutlim)
  else (cutoff, cutlim).

Definition strto (MIN MAX : Z) (nptr base : Z) : M mem (Z * Z * option errno) :=
  fuel ← gets steps;
  '(c, s) ← skip_space fuel nptr;
  '(neg, c, s) ← (
    if c =? 45 then c ← load s; mret (true, c, s + 1)
    else if c =? 43 then c ← load s; mret (false, c, s + 1)
    else mret (false, c, s));
  '(base, c, s) ← (
    if ((base =? 0) || (base =? 16)) && (c =? 48) then
      x ← load s;
      if (x =? 120) || (x =? 88) then c ← load (s + 1); mret (16, c, s + 2) else mret (base, c, s)
    else mret (base, c, s));
  let base := if base =? 0 then if c =? 48 then 8 else 10 else base in
  assert (negb (base =? 0));;
  let '(cutoff, cutlim) := limits MIN MAX base neg in
  '(acc, any, err, s) ← strtol_loop fuel MIN MAX base cutoff cutlim neg 0 0 None c s;
  mret (acc, if any =? 0 then nptr else s - 1, err).

Definition strtol (nptr base : Z) : M mem (Z * Z * option errno) := strto LONG_MIN LONG_MAX nptr base.

Definition strtoll (nptr base : Z) : M mem (Z * Z * option errno) := strto LLONG_MIN LLONG_MAX nptr base.

(** ** atoi.c *)

Definition hexval (c : Z) : Z :=
  if (48 <=? c) && (c <=? 57) then c - 48
  else if (97 <=? c) && (c <=? 102) then c - 97 + 10
  else if (65 <=? c) && (c <=? 70) then c - 65 + 10
  else 0.

(** [while ( *num && isxdigit( *num)) value = value * 16 + hexval( *num++);] *)
Fixpoint hex_loop (fuel : nat) (wrap : Z → Z) (num value : Z) : M mem Z :=
  match fuel with
  | O => fail
  | S fuel =>
      c ← load num;
      if negb (c =? 0) && isxdigit c then hex_loop fuel wrap (num + 1) (wrap (value * 16 + hexval c)) else mret value
  end.

Fixpoint dec_loop (fuel : nat) (wrap : Z → Z) (num value : Z) : M mem Z :=
  match fuel with
  | O => fail
  | S fuel =>
      c ← load num;
      if negb (c =? 0) && isdigit c then dec_loop fuel wrap (num + 1) (wrap (value * 10 + c - 48)) else mret value
  end.

(** The test for "0x", which does not read past the terminator *)
Definition has_0x (num : Z) : M mem bool :=
  c ← load num;
  if c =? 48 then x ← load (num + 1); mret (x =? 120) else mret false.

Definition atol (num : Z) : M mem Z :=
  fuel ← gets steps;
  hex ← has_0x num;
  if hex : bool then hex_loop fuel s64 (num + 2) 0
  else
    c ← load num;
    if c =? 45 then value ← dec_loop fuel s64 (num + 1) 0; mret (s64 (- value))
    else dec_loop fuel s64 num 0.

Definition atoi (num : Z) : M mem Z := value ← atol num; mret (s32 value).

Definition atoul (num : Z) : M mem Z :=
  fuel ← gets steps;
  hex ← has_0x num;
  if hex : bool then hex_loop fuel u64 (num + 2) 0 else dec_loop fuel u64 num 0.

Definition atoui (num : Z) : M mem Z := value ← atoul num; mret (u32 value).

Definition atoull (num : Z) : M mem Z := atoul num.

(** ** strtoul *)

Fixpoint strtoul_skip (fuel : nat) (nptr : Z) : M mem Z :=
  match fuel with
  | O => fail
  | S fuel => c ← load nptr; if isspace c then strtoul_skip fuel (nptr + 1) else mret nptr
  end.

Definition strtoul_digit (c : Z) : Z :=
  if (65 <=? c) && (c <=? 90) then c - 65 + 10
  else if (97 <=? c) && (c <=? 122) then c - 97 + 10
  else if (48 <=? c) && (c <=? 57) then c - 48
  else -1.

Fixpoint strtoul_loop (fuel : nat) (base nptr ret : Z) (err : option errno) : M mem (Z * Z * option errno) :=
  match fuel with
  | O => fail
  | S fuel =>
      c ← load nptr;
      let v := strtoul_digit c in
      if (v <? 0) || (base <=? v) then mret (ret, nptr, err)
      else
        let new_ret := u64 (ret * base) in
        if negb (new_ret / base =? ret) || (u64 (new_ret + v) <? new_ret) || (ret =? ULONG_MAX)
        then strtoul_loop fuel base (nptr + 1) ULONG_MAX (Some ERANGE)
        else strtoul_loop fuel base (nptr + 1) (u64 (new_ret + v)) err
  end.

(** No end pointer is set for a base that is not valid. *)
Definition strtoul (nptr base : Z) : M mem (Z * option Z * option errno) :=
  if (base <? 0) || (base =? 1) || (36 <? base) then mret (0, None, Some EINVAL)
  else
    fuel ← gets steps;
    nptr ← strtoul_skip fuel nptr;
    c ← load nptr;
    let '(neg, nptr) := if c =? 43 then (false, nptr + 1) else if c =? 45 then (true, nptr + 1) else (false, nptr) in
    hex ← (if (base =? 0) || (base =? 16) then has_0x nptr else mret false);
    c ← load nptr;
    let '(base, nptr) :=
      if hex : bool then (16, nptr + 2)
      else if (base =? 0) && (c =? 48) then (8, nptr + 1)
      else if base =? 0 then (10, nptr) else (base, nptr) in
    '(ret, nptr, err) ← strtoul_loop fuel base nptr 0 None;
    mret (if neg && negb (ret =? ULONG_MAX) then u64 (- ret) else ret, Some nptr, err).
