(* ===== verification/StrtoSpec.v ===== *)
(** * Numbers from strings: what they are

    A numeral is optional space, an optional sign, an optional prefix and digits.
    The functions return its value, clamped to the type, and a pointer to what
    follows it. *)

From S2P Require Import Prelude Bytes Mem Libc LibcMem LibcStr Strto.

(** The value of digits, continued from [n] *)
Definition numeral (base n : Z) (vs : list Z) : Z := foldl (λ a d, a * base + d) n vs.

(** The characters [ds] are digits of the base, with the values [vs]. *)
Definition digits (base : Z) (ds vs : list Z) : Prop := Forall2 (λ c v, digit_val c = Some v ∧ v < base) ds vs.

(** What follows does not start with a digit. *)
Definition stops (base : Z) (rest : list Z) : Prop :=
  match rest with [] => True | c :: _ => match digit_val c with Some v => base ≤ v | None => True end end.

Definition in_range (neg : bool) (n : Z) : bool := if neg then n <=? 2 ^ 63 else n <? 2 ^ 63.

(** The value of a signed numeral, and the error *)
Definition clamp (neg : bool) (n : Z) : Z * option errno :=
  if in_range neg n then (if neg then - n else n, None) else (if neg then - 2 ^ 63 else 2 ^ 63 - 1, Some ERANGE).

Lemma digit_val_range c v : digit_val c = Some v → 0 ≤ v < 36.
Proof.
  rewrite /digit_val /isdigit /isalpha /isupper /islower. intros E.
  destruct (Z.leb_spec 48 c), (Z.leb_spec c 57), (Z.leb_spec 65 c), (Z.leb_spec c 90), (Z.leb_spec 97 c), (Z.leb_spec c 122); simpl in E; simplify_eq; lia.
Qed.

(** The comparison with [cutoff] and [cutlim] finds out whether a further digit leaves
    the range. *)
Lemma limits_spec base neg cutoff cutlim n v :
  2 ≤ base ≤ 36 → limits (- 2 ^ 63) (2 ^ 63 - 1) base neg = (cutoff, cutlim) → 0 ≤ n → 0 ≤ v < base →
  (if neg then (- n <? cutoff) || (- n =? cutoff) && (cutlim <? v) else (cutoff <? n) || (n =? cutoff) && (cutlim <? v)) =
    negb (in_range neg (n * base + v)).
Proof.
  intros Hb E Hn Hv. rewrite /limits in E. set (X := if neg then - 2 ^ 63 else 2 ^ 63 - 1) in E.
  pose proof (Z.quot_rem' X base) as Hq. pose proof (Z.rem_bound_abs X base ltac:(lia)) as Ha. rewrite s32_small in E; [|lia].
  destruct neg; unfold X in *; clear X.
  - pose proof (Z.rem_bound_pos_neg (- 2 ^ 63) base ltac:(lia) ltac:(lia)) as Hr. rewrite (proj2 (Z.ltb_ge 0 _)) in E; [|lia]. injection E as <- <-.
    generalize dependent (Z.quot (- 2 ^ 63) base). generalize dependent (Z.rem (- 2 ^ 63) base). intros r Ha Hr q Hq. cbn [in_range].
    destruct (Z.ltb_spec (- n) q), (Z.eqb_spec (- n) q), (Z.ltb_spec (- r) v), (Z.leb_spec (n * base + v) (2 ^ 63)); simpl; try done; nia.
  - pose proof (Z.rem_bound_pos (2 ^ 63 - 1) base ltac:(lia) ltac:(lia)) as Hr. injection E as <- <-.
    generalize dependent (Z.quot (2 ^ 63 - 1) base). generalize dependent (Z.rem (2 ^ 63 - 1) base). intros r Ha Hr q Hq. cbn [in_range].
    destruct (Z.ltb_spec q n), (Z.eqb_spec n q), (Z.ltb_spec r v), (Z.ltb_spec (n * base + v) (2 ^ 63)); simpl; try done; nia.
Qed.

Lemma clamp_out neg n base v : 0 ≤ n → 2 ≤ base → 0 ≤ v → in_range neg n = false → in_range neg (n * base + v) = false ∧ clamp neg (n * base + v) = clamp neg n.
Proof.
  intros Hn Hb Hv H. assert (in_range neg (n * base + v) = false) as E.
  { destruct neg; cbn [in_range] in *; [apply Z.leb_gt in H; apply Z.leb_gt; nia|apply Z.ltb_ge in H; apply Z.ltb_ge; nia]. }
  by rewrite /clamp H E.
Qed.

Lemma cstring_next m a c t : cstring m a (c :: t) → ∃ c', m !! (a + 1) = Some c'.
Proof. intros (_ & _ & H)%cstring_cons. destruct t; [apply cstring_nil in H; eauto|apply cstring_cons in H as (? & _); eauto]. Qed.

(** [n] is the value of the digits read so far. *)
Lemma wp_strtol_loop fuel base cutoff cutlim neg n acc any err c s ds vs rest m :
  2 ≤ base ≤ 36 → limits (- 2 ^ 63) (2 ^ 63 - 1) base neg = (cutoff, cutlim) → 0 ≤ n →
  clamp neg n = (acc, err) → (any <? 0) = negb (in_range neg n) →
  cstring m (s - 1) (ds ++ rest) → m !! (s - 1) = Some c → digits base ds vs → stops base rest → (length ds < fuel)%nat →
  wp (strtol_loop fuel (- 2 ^ 63) (2 ^ 63 - 1) base cutoff cutlim neg acc any err c s) (λ '(acc', any', err', s') m',
    m' = m ∧ clamp neg (numeral base n vs) = (acc', err') ∧ s' = s + zlen ds ∧ (any ≠ 0 ∨ ds ≠ [] → any' ≠ 0)) m.
Proof.
  intros Hb Hlim Hn Hcl Hany Ht Hc Hds Hstop. revert fuel n acc any err c s Hn Hcl Hany Ht Hc.
  induction Hds as [|d v ds vs [Hd Hv] Hds IH]; intros fuel n acc any err c s Hn Hcl Hany Ht Hc Hf; (destruct fuel as [|fuel]; [simpl in *; lia|]); cbn [strtol_loop].
  - assert (match digit_val c with Some v => base <=? v | None => true end = true) as Hend.
    { destruct rest as [|r rest]; [apply cstring_nil in Ht; by simplify_eq|]. apply cstring_cons in Ht as (? & _). simplify_eq. simpl in Hstop.
      destruct (digit_val r); [by apply Z.leb_le|done]. }
    destruct (digit_val c) as [v|]; [rewrite Hend|]; apply wp_ret; (split_and!; [done|done|simpl; lia|by intros [?|?]]).
  - destruct (cstring_next _ _ _ _ Ht) as [c' Hc']. rewrite Z.sub_add in Hc'. apply cstring_cons in Ht as (? & _ & Ht). simplify_eq. rewrite Hd.
    rewrite (proj2 (Z.leb_gt base v)) //. apply wp_bind. eapply wp_load; [done|]. pose proof (digit_val_range _ _ Hd) as Hv0.
    pose proof (limits_spec base neg cutoff cutlim n v Hb Hlim Hn ltac:(lia)) as Hcut.
    assert (∀ acc' any' err', clamp neg (n * base + v) = (acc', err') → (any' <? 0) = negb (in_range neg (n * base + v)) → any' ≠ 0 →
      wp (strtol_loop fuel (- 2 ^ 63) (2 ^ 63 - 1) base cutoff cutlim neg acc' any' err' c' (s + 1)) (λ '(acc', any', err', s') m',
        m' = m ∧ clamp neg (numeral base n (v :: vs)) = (acc', err') ∧ s' = s + zlen (d :: ds) ∧ (any ≠ 0 ∨ d :: ds ≠ [] → any' ≠ 0)) m) as Hgo.
    { intros acc' any' err' E1 E2 Hnz. eapply wp_mono; [apply (IH fuel (n * base + v)); [nia|done|done|by rewrite Z.add_simpl_r Z.sub_add in Ht |- *|by rewrite Z.add_simpl_r|simpl in Hf; lia]|].
      intros [[[a3 n3] e3] s3] m' (-> & E & -> & Hz). split_and!; [done|done|simpl; lia|]. intros _. apply Hz. by left. }
    destruct (in_range neg n) eqn:Ein; simpl in Hany; rewrite Hany.
    2: { destruct (clamp_out neg n base v) as [E1 E2]; [lia..|done|]. apply Hgo; [congruence|by rewrite E1 Hany|]. intros ->. done. }
    rewrite /clamp Ein in Hcl. injection Hcl as <- <-. rewrite /clamp in Hgo.
    destruct neg; rewrite Hcut; (destruct (in_range _ (n * base + v)) eqn:Eout; cbn [negb]; apply Hgo; [|done..|done|done|done]).
    + f_equal. cbn [in_range] in Eout. apply Z.leb_le in Eout. rewrite !s64_small; nia.
    + f_equal. cbn [in_range] in Eout. apply Z.ltb_lt in Eout. rewrite !s64_small; nia.
Qed.

(** ** Space, sign and prefix *)

(** The character a string starts with, its terminator included *)
Abbreviation first t := (List.hd 0 t).

Lemma cstring_first m a t : cstring m a t → m !! a = Some (first t).
Proof. destruct t; [by intros ?%cstring_nil|by intros (? & _)%cstring_cons]. Qed.

Lemma cstring_tail m a t : cstring m a t → t ≠ [] → cstring m (a + 1) (tail t).
Proof. destruct t; [done|by intros (_ & _ & ?)%cstring_cons]. Qed.

Inductive signed : list Z → bool → Prop :=
  | signed_none : signed [] false
  | signed_plus : signed [43] false
  | signed_minus : signed [45] true.

Definition no_0x (text : list Z) : Prop := first text = 48 → first (tail text) ≠ 120 ∧ first (tail text) ≠ 88.

(** The base of the digits that follow the prefix [pre] *)
Inductive radix (base : Z) (pre text : list Z) : Z → Prop :=
  | radix_hex x : base = 0 ∨ base = 16 → pre = [48; x] → x = 120 ∨ x = 88 → radix base pre text 16
  | radix_given : pre = [] → 2 ≤ base ≤ 36 → (base = 16 → no_0x text) → radix base pre text base
  | radix_oct : pre = [] → base = 0 → first text = 48 → no_0x text → radix base pre text 8
  | radix_dec : pre = [] → base = 0 → first text ≠ 48 → radix base pre text 10.

Lemma wp_skip_space fuel s ws t m :
  cstring m s (ws ++ t) → Forall (λ c, isspace c = true) ws → isspace (first t) = false → (length ws < fuel)%nat →
  wp (skip_space fuel s) (λ r m', r = (first t, s + zlen ws + 1) ∧ m' = m) m.
Proof.
  intros H Hws Ht. revert fuel s H. induction Hws as [|c ws Hc _ IH]; intros fuel s H Hf; more fuel.
  - apply wp_bind. eapply wp_load; [by apply cstring_first|]. rewrite Ht. apply wp_ret. split; [f_equal; lia|done].
  - apply cstring_cons in H as (Hb & _ & H). load. rewrite Hc. eapply wp_mono; [apply IH; [done|lia]|]. intros r m' [-> ->]. split; [f_equal; lia|done].
Qed.

(** A digit is neither space nor a sign. *)
Lemma digit_plain d v : digit_val d = Some v → isspace d = false ∧ d ≠ 45 ∧ d ≠ 43 ∧ d ≠ 0.
Proof.
  rewrite /digit_val /isdigit /isalpha /isupper /islower /isspace. intros E.
  assert (48 ≤ d) as Hd. { destruct (Z.leb_spec 48 d), (Z.leb_spec 65 d), (Z.leb_spec 97 d); simpl in E; try lia. done. }
  rewrite !(proj2 (Z.eqb_neq d _)); [|lia..]. split_and!; [done|lia..].
Qed.

Lemma radix_range base pre text r : radix base pre text r → 2 ≤ r ≤ 36.
Proof. by destruct 1. Qed.

(** The prefix, or the choice of the base without one *)
Lemma wp_prefix base pre text r a m :
  cstring m a (pre ++ text) → radix base pre text r → text ≠ [] →
  wp (if ((base =? 0) || (base =? 16)) && (first (pre ++ text) =? 48) then
      x ← load (a + 1);
      if (x =? 120) || (x =? 88) then c ← load (a + 1 + 1); mret (16, c, a + 1 + 2) else mret (base, first (pre ++ text), a + 1)
    else mret (base, first (pre ++ text), a + 1))
  (λ '(b, c, s) m', m' = m ∧ (if b =? 0 then if c =? 48 then 8 else 10 else b) = r ∧ c = first text ∧ s = a + zlen pre + 1) m.
Proof.
  intros H Hr Hne.
  assert (pre = [] → first text = 48 → no_0x text → ∀ (k : M mem (Z * Z * Z)) Q, Q (base, 48, a + 1) m →
    wp (x ← load (a + 1); if (x =? 120) || (x =? 88) then k else mret (base, 48, a + 1)) Q m) as Hno.
  { intros -> Hf Hno k Q HQ. destruct (Hno Hf) as [? ?]. apply wp_bind. eapply wp_load; [by eapply cstring_first, cstring_tail|].
    rewrite (proj2 (Z.eqb_neq (first (tail text)) 120)) // (proj2 (Z.eqb_neq (first (tail text)) 88)) //. }
  destruct Hr as [x Hb -> Hx|Hp Hb H0x|Hp -> Hf H0x|Hp -> Hf].
  - simpl in *. apply cstring_cons in H as (_ & _ & H). pose proof (cstring_first _ _ _ H). apply cstring_cons in H as (_ & _ & H). pose proof (cstring_first _ _ _ H).
    assert (((base =? 0) || (base =? 16)) = true) as -> by (destruct Hb as [-> | ->]; done). simpl. load. simpl.
    assert (((x =? 120) || (x =? 88)) = true) as -> by (destruct Hx as [-> | ->]; done). load. apply wp_ret. split_and!; [done|done|done|lia].
  - rewrite Hp /=. rewrite (proj2 (Z.eqb_neq base 0)); [|lia]. simpl. destruct (Z.eqb_spec base 16) as [E|]; simpl.
    + destruct (Z.eqb_spec (first text) 48) as [E2|]; [|apply wp_ret; rewrite E; split_and!; [done|done|done|lia]].
      rewrite E2. apply Hno; [done|done|by apply H0x|]. rewrite E. split_and!; [done|done|done|lia].
    + apply wp_ret. rewrite (proj2 (Z.eqb_neq base 0)); [|lia]. split_and!; [done|done|done|lia].
  - rewrite Hp /= Hf /=. apply Hno; [done|done|done|]. split_and!; [done|done|done|lia].
  - rewrite Hp /=. rewrite (proj2 (Z.eqb_neq _ 48) Hf). apply wp_ret. split_and!; [done| |done|lia]. by rewrite (proj2 (Z.eqb_neq _ 48) Hf).
Qed.

Lemma wp_strto nptr base ws sign neg pre ds vs rest r m :
  cstring m nptr (ws ++ sign ++ pre ++ ds ++ rest) → Forall (λ c, isspace c = true) ws → signed sign neg →
  radix base pre (ds ++ rest) r → digits r ds vs → ds ≠ [] → stops r rest →
  wp (strto (- 2 ^ 63) (2 ^ 63 - 1) nptr base) (λ '(v, e, err) m', m' = m ∧ clamp neg (numeral r 0 vs) = (v, err) ∧ e = nptr + zlen (ws ++ sign ++ pre ++ ds)) m.
Proof.
  intros H Hws Hsign Hr Hds Hne Hstop. pose proof (cstring_steps _ _ _ H) as Hf. rewrite !length_app in Hf. apply wp_bind, wp_gets, wp_bind.
  assert (∃ d v, first (ds ++ rest) = d ∧ digit_val d = Some v) as (d & v & Ed & Hdv).
  { destruct Hds as [|d v ds vs [? _] _]; [done|]. by exists d, v. }
  destruct (digit_plain d v Hdv) as (Hsp & H45 & H43 & _).
  assert (∃ p, first (pre ++ ds ++ rest) = p ∧ isspace p = false ∧ p ≠ 45 ∧ p ≠ 43) as (p & Ep & Hpsp & Hp45 & Hp43).
  { destruct Hr as [x _ -> _ | -> _ _ | -> _ _ _ | -> _ _]; [by exists 48|by exists d..]. }
  eapply wp_mono; [apply (wp_skip_space _ _ ws _ _ H Hws); [|lia]|].
  { destruct Hsign; [by rewrite Ep|done|done]. }
  intros [c s] m' [ [= -> ->] ->]. apply cstring_app in H as (_ & _ & H). apply wp_bind.
  set (a := nptr + zlen ws) in *. set (t2 := pre ++ ds ++ rest) in *.
  assert (wp (if first (sign ++ t2) =? 45 then c ← load (a + 1); mret (true, c, a + 1 + 1)
    else if first (sign ++ t2) =? 43 then c ← load (a + 1); mret (false, c, a + 1 + 1) else mret (false, first (sign ++ t2), a + 1))
    (λ r m', r = (neg, p, a + zlen sign + 1) ∧ m' = m) m) as Hs.
  { destruct Hsign; simpl.
    - rewrite Ep (proj2 (Z.eqb_neq p 45)) // (proj2 (Z.eqb_neq p 43)) //. apply wp_ret. by rewrite Z.add_0_r.
    - apply cstring_cons in H as (_ & _ & H). apply wp_bind. eapply wp_load; [by apply cstring_first|]. apply wp_ret. by rewrite Ep.
    - apply cstring_cons in H as (_ & _ & H). apply wp_bind. eapply wp_load; [by apply cstring_first|]. apply wp_ret. by rewrite Ep. }
  eapply wp_mono; [exact Hs|]. intros [[neg' c] s] m' [ [= -> -> ->] ->]. clear Hs. apply cstring_app in H as (_ & _ & H).
  apply wp_bind. rewrite -Ep. eapply wp_mono; [apply (wp_prefix _ _ _ r); [done|done|by destruct ds]|]. intros [[b c] s] m' (-> & Eb & -> & ->). cbv zeta. rewrite Eb.
  pose proof (radix_range _ _ _ _ Hr). apply wp_bind, wp_assert; [by rewrite (proj2 (Z.eqb_neq r 0)); [|lia]|]. destruct (limits _ _ r neg) as [cutoff cutlim] eqn:El.
  apply cstring_app in H as (_ & _ & H). apply wp_bind. eapply wp_mono; [apply (wp_strtol_loop _ r cutoff cutlim neg 0 _ _ _ _ _ ds vs rest); [done|done|done|by destruct neg|by destruct neg|..|lia]|].
  - by rewrite Z.add_simpl_r.
  - rewrite Z.add_simpl_r. by apply cstring_first.
  - done.
  - done.
  - intros [[[acc any] err] s] m' (-> & Ecl & -> & Hany). apply wp_ret. rewrite (proj2 (Z.eqb_neq any 0)); [|apply Hany; by right].
    split_and!; [done|done|]. rewrite !length_app. lia.
Qed.

(** ** strtoul *)

Definition uclamp (n : Z) : Z * option errno := if n <=? ULONG_MAX then (n, None) else (ULONG_MAX, Some ERANGE).

Lemma strtoul_digit_spec c : strtoul_digit c = match digit_val c with Some v => v | None => -1 end.
Proof.
  rewrite /strtoul_digit /digit_val /isdigit /isalpha /isupper /islower.
  destruct (Z.leb_spec 48 c), (Z.leb_spec c 57), (Z.leb_spec 65 c), (Z.leb_spec c 90), (Z.leb_spec 97 c), (Z.leb_spec c 122); simpl; lia.
Qed.

(** The tests of the loop find out whether a further digit leaves the range. *)
Lemma uclamp_step base n v ret err :
  2 ≤ base ≤ 36 → 0 ≤ v < base → 0 ≤ n → uclamp n = (ret, err) →
  (if negb (u64 (ret * base) / base =? ret) || (u64 (u64 (ret * base) + v) <? u64 (ret * base)) || (ret =? ULONG_MAX)
   then (ULONG_MAX, Some ERANGE) else (u64 (u64 (ret * base) + v), err)) = uclamp (n * base + v).
Proof.
  intros Hb Hv Hn E. rewrite /uclamp in E |- *. destruct (Z.leb_spec n ULONG_MAX) as [Hle|Hgt]; injection E as <- <-.
  2: { rewrite Z.eqb_refl orb_true_r. rewrite (proj2 (Z.leb_gt _ _)) //. rewrite /ULONG_MAX in Hgt |- *. nia. }
  destruct (Z.eqb_spec n ULONG_MAX) as [->|Hne].
  { rewrite orb_true_r. rewrite (proj2 (Z.leb_gt _ _)) //. rewrite /ULONG_MAX. lia. }
  rewrite orb_false_r. rewrite /ULONG_MAX in Hle Hne |- *. destruct (decide (n * base < 2 ^ 64)) as [Hs|Hb'].
  - rewrite (u64_small (n * base)); [|nia]. rewrite Z.div_mul; [|lia]. rewrite Z.eqb_refl /=. destruct (Z.leb_spec (n * base + v) (2 ^ 64 - 1)).
    + rewrite u64_small; [|nia]. rewrite (proj2 (Z.ltb_ge _ _)) //. lia.
    + assert (u64 (n * base + v) = n * base + v - 2 ^ 64) as ->.
      { rewrite /u64. rewrite -(Z.mod_add (n * base + v) (-1)) //. rewrite Z.mod_small; lia. }
      rewrite (proj2 (Z.ltb_lt _ _)) //. lia.
  - rewrite (proj2 (Z.leb_gt _ _)); [|lia]. rewrite (proj2 (Z.eqb_neq _ _)) //.
    assert (u64 (n * base) < n * base) by (pose proof (Z.mod_pos_bound (n * base) (2 ^ 64)); rewrite /u64; lia).
    assert (u64 (n * base) / base < n); [|lia]. apply Z.div_lt_upper_bound; lia.
Qed.

Lemma wp_strtoul_loop fuel base nptr n ret err ds vs rest m :
  2 ≤ base ≤ 36 → 0 ≤ n → uclamp n = (ret, err) → cstring m nptr (ds ++ rest) → digits base ds vs → stops base rest → (length ds < fuel)%nat →
  wp (strtoul_loop fuel base nptr ret err) (λ '(ret', e, err') m', m' = m ∧ uclamp (numeral base n vs) = (ret', err') ∧ e = nptr + zlen ds) m.
Proof.
  intros Hb Hn Hcl Ht Hds Hstop. revert fuel n ret err nptr Hn Hcl Ht.
  induction Hds as [|d v ds vs [Hd Hv] Hds IH]; intros fuel n ret err nptr Hn Hcl Ht Hf; (destruct fuel as [|fuel]; [simpl in *; lia|]); cbn [strtoul_loop]; cbv zeta.
  - cbn [app] in Ht. apply wp_bind. eapply wp_load; [by apply cstring_first|]. rewrite strtoul_digit_spec. assert (((match digit_val (first rest) with Some v => v | None => -1 end <? 0) || (base <=? match digit_val (first rest) with Some v => v | None => -1 end)) = true) as ->.
    { destruct rest as [|r rest]; [done|]. simpl in *. destruct (digit_val r); [|done]. by rewrite (proj2 (Z.leb_le _ _) Hstop) orb_true_r. }
    apply wp_ret. split_and!; [done|done|simpl; lia].
  - apply wp_bind. eapply wp_load; [by apply cstring_first|]. simpl. rewrite strtoul_digit_spec Hd. pose proof (digit_val_range _ _ Hd) as Hv0.
    rewrite (proj2 (Z.ltb_ge v 0)); [|lia]. rewrite (proj2 (Z.leb_gt base v)) //=. apply cstring_cons in Ht as (_ & _ & Ht).
    pose proof (uclamp_step base n v ret err Hb ltac:(lia) Hn Hcl) as Hstep.
    assert (∀ ret' err', uclamp (n * base + v) = (ret', err') → wp (strtoul_loop fuel base (nptr + 1) ret' err')
      (λ '(ret', e, err') m', m' = m ∧ uclamp (numeral base n (v :: vs)) = (ret', err') ∧ e = nptr + zlen (d :: ds)) m) as Hgo.
    { intros ret' err' E. eapply wp_mono; [apply (IH fuel (n * base + v)); [nia|done|done|simpl in Hf; lia]|].
      intros [[r e] er] m' (-> & ? & ->). split_and!; [done|done|simpl; lia]. }
    destruct (negb _ || _ || _); by apply Hgo.
Qed.

Inductive uradix (base : Z) (pre text : list Z) : Z → Prop :=
  | uradix_hex : base = 0 ∨ base = 16 → pre = [48; 120] → uradix base pre text 16
  | uradix_given : pre = [] → 2 ≤ base ≤ 36 → (base = 16 → first text = 48 → first (tail text) ≠ 120) → uradix base pre text base
  | uradix_oct : pre = [48] → base = 0 → first text ≠ 120 → uradix base pre text 8
  | uradix_dec : pre = [] → base = 0 → first text ≠ 48 → uradix base pre text 10.

Lemma wp_has_0x a t m : cstring m a t → wp (has_0x a) (λ r m', r = (first t =? 48) && (first (tail t) =? 120) ∧ m' = m) m.
Proof.
  intros H. apply wp_bind. eapply wp_load; [by apply cstring_first|]. destruct (Z.eqb_spec (first t) 48) as [E|]; [|by apply wp_ret].
  apply wp_bind. eapply wp_load; [eapply cstring_first, cstring_tail; [done|by intros ->]|]. by apply wp_ret.
Qed.

Lemma wp_strtoul_skip fuel s ws t m :
  cstring m s (ws ++ t) → Forall (λ c, isspace c = true) ws → isspace (first t) = false → (length ws < fuel)%nat →
  wp (strtoul_skip fuel s) (λ r m', r = s + zlen ws ∧ m' = m) m.
Proof.
  intros H Hws Ht. revert fuel s H. induction Hws as [|c ws Hc _ IH]; intros fuel s H Hf; more fuel.
  - apply wp_bind. eapply wp_load; [by apply cstring_first|]. rewrite Ht. apply wp_ret. split; [lia|done].
  - apply cstring_cons in H as (Hb & _ & H). load. rewrite Hc. eapply wp_mono; [apply IH; [done|lia]|]. intros r m' [-> ->]. split; [lia|done].
Qed.

(** The base and where its digits start *)
Lemma uradix_spec base pre text r a :
  uradix base pre text r →
  (if ((base =? 0) || (base =? 16)) && ((first (pre ++ text) =? 48) && (first (tail (pre ++ text)) =? 120)) then (16, a + 2) else
   if (base =? 0) && (first (pre ++ text) =? 48) then (8, a + 1) else if base =? 0 then (10, a) else (base, a)) = (r, a + zlen pre).
Proof.
  destruct 1 as [Hb ->| -> Hb H0x| -> -> Hf| -> -> Hf]; simpl.
  - destruct Hb as [-> | ->]; done.
  - rewrite (proj2 (Z.eqb_neq base 0)); [|lia]. simpl. rewrite Z.add_0_r. destruct (Z.eqb_spec base 16) as [->|]; [|done]. simpl.
    destruct (Z.eqb_spec (first text) 48); [|done]. by rewrite (proj2 (Z.eqb_neq _ 120)); [|apply H0x].
  - by rewrite (proj2 (Z.eqb_neq _ 120)).
  - by rewrite (proj2 (Z.eqb_neq _ 48)) // Z.add_0_r.
Qed.

(** The value with a sign; the largest value has no negative. *)
Definition unegate (neg : bool) (ret : Z) : Z := if neg && negb (ret =? ULONG_MAX) then u64 (- ret) else ret.

Lemma wp_strtoul nptr base ws sign neg pre ds vs rest r m :
  cstring m nptr (ws ++ sign ++ pre ++ ds ++ rest) → Forall (λ c, isspace c = true) ws → signed sign neg →
  uradix base pre (ds ++ rest) r → digits r ds vs → pre ++ ds ≠ [] → stops r rest →
  wp (strtoul nptr base) (λ '(v, e, err) m', m' = m ∧ (∃ n, uclamp (numeral r 0 vs) = (n, err) ∧ v = unegate neg n) ∧
    e = Some (nptr + zlen (ws ++ sign ++ pre ++ ds))) m.
Proof.
  intros H Hws Hsign Hr Hds Hne Hstop. pose proof (cstring_steps _ _ _ H) as Hf. rewrite !length_app in Hf.
  assert (0 ≤ base ≤ 36 ∧ base ≠ 1 ∧ 2 ≤ r ≤ 36) as (Hb1 & Hb2 & Hr2) by (destruct Hr as [[-> | ->] _|_ ? _|_ -> _|_ -> _]; lia).
  rewrite /strtoul (proj2 (Z.ltb_ge base 0)); [|lia]. rewrite (proj2 (Z.eqb_neq base 1)) // (proj2 (Z.ltb_ge 36 base)) /=; [|lia].
  assert (∃ p, first (pre ++ ds ++ rest) = p ∧ isspace p = false ∧ p ≠ 45 ∧ p ≠ 43) as (p & Ep & Hpsp & Hp45 & Hp43).
  { destruct pre as [|p pre]; simpl; [|exists 48; destruct Hr; naive_solver]. destruct Hds as [|d v ds vs [Hd _] _]; [done|].
    destruct (digit_plain d v Hd) as (? & ? & ? & _). by exists d. }
  apply wp_bind, wp_gets, wp_bind. eapply wp_mono; [apply (wp_strtoul_skip _ _ ws _ _ H Hws); [|lia]|].
  { destruct Hsign; [by rewrite Ep|done|done]. }
  intros s m' [-> ->]. apply cstring_app in H as (_ & _ & H). set (a := nptr + zlen ws) in *. apply wp_bind. eapply wp_load; [by apply cstring_first|].
  assert ((if first (sign ++ pre ++ ds ++ rest) =? 43 then (false, a + 1) else if first (sign ++ pre ++ ds ++ rest) =? 45 then (true, a + 1) else (false, a)) = (neg, a + zlen sign)) as ->.
  { destruct Hsign; simpl; [|done..]. rewrite Ep (proj2 (Z.eqb_neq p 45)) // (proj2 (Z.eqb_neq p 43)) //. by rewrite Z.add_0_r. }
  apply cstring_app in H as (_ & _ & H). set (a2 := a + zlen sign) in *. set (t := pre ++ ds ++ rest) in *. apply wp_bind.
  apply wp_mono with (Q := λ h m', h = ((base =? 0) || (base =? 16)) && ((first t =? 48) && (first (tail t) =? 120)) ∧ m' = m).
  { destruct ((base =? 0) || (base =? 16)); [by apply wp_has_0x|by apply wp_ret]. }
  intros h m' [-> ->]. apply wp_bind. eapply wp_load; [by apply cstring_first|].
  rewrite (uradix_spec _ _ _ _ a2 Hr). apply cstring_app in H as (_ & _ & H). apply wp_bind.
  eapply wp_mono; [apply (wp_strtoul_loop _ r _ 0 _ _ ds vs rest); [done..|lia]|].
  intros [[n e] err] m' (-> & Ecl & ->). apply wp_ret. split_and!; [done|by exists n|]. f_equal. rewrite !length_app. lia.
Qed.

(** ** atoi and atol *)

Lemma s64_cong x k : s64 (x + k * 2 ^ 64) = s64 x.
Proof. rewrite /s64 (_ : x + k * 2 ^ 64 + 2 ^ 63 = x + 2 ^ 63 + k * 2 ^ 64); [|lia]. by rewrite Z.mod_add. Qed.

Lemma s64_mod x : ∃ k, s64 x = x + k * 2 ^ 64.
Proof. exists (- ((x + 2 ^ 63) / 2 ^ 64)). rewrite /s64. pose proof (Z.div_mod (x + 2 ^ 63) (2 ^ 64)). lia. Qed.

Lemma s64_step x d : s64 (s64 x * 10 + d) = s64 (x * 10 + d).
Proof. destruct (s64_mod x) as [k ->]. rewrite (_ : (x + k * 2 ^ 64) * 10 + d = x * 10 + d + (k * 10) * 2 ^ 64); [|lia]. apply s64_cong. Qed.

Lemma digit_val_decimal c v : digit_val c = Some v → v < 10 → isdigit c = true ∧ v = c - 48.
Proof.
  rewrite /digit_val. intros Hc Hv. destruct (isdigit c); [by simplify_eq|]. destruct (isalpha c) eqn:Ea; [|done]. exfalso. move: Ea Hc. rewrite /isalpha /isupper /islower.
  destruct (Z.leb_spec 65 c), (Z.leb_spec c 90), (Z.leb_spec 97 c), (Z.leb_spec c 122); simpl; intros; simplify_eq; lia.
Qed.

Lemma numeral_ge base n ds vs : digits base ds vs → 1 ≤ base → 0 ≤ n → n ≤ numeral base n vs.
Proof.
  intros Hds Hb. revert n. induction Hds as [|d v ds vs [Hd Hv] Hds IH]; intros n Hn; simpl; [lia|]. pose proof (digit_val_range _ _ Hd).
  etrans; [|apply IH; nia]. nia.
Qed.

Lemma wp_dec_loop fuel num n ds vs rest m :
  cstring m num (ds ++ rest) → digits 10 ds vs → isdigit (first rest) = false → (length ds < fuel)%nat →
  wp (dec_loop fuel s64 num (s64 n)) (λ r m', r = s64 (numeral 10 n vs) ∧ m' = m) m.
Proof.
  intros H Hds Hstop. revert fuel num n H. induction Hds as [|d v ds vs [Hd Hv] Hds IH]; intros fuel num n H Hf; (destruct fuel as [|fuel]; [simpl in *; lia|]); cbn [dec_loop].
  - apply wp_bind. eapply wp_load; [by apply cstring_first|]. rewrite Hstop andb_false_r. by apply wp_ret.
  - apply cstring_cons in H as (Hb & Hne & H). load. destruct (digit_val_decimal d v Hd Hv) as [Hdig ->].
    rewrite Hdig (proj2 (Z.eqb_neq d 0) Hne) /=. rewrite -Z.add_sub_assoc s64_step. apply IH; [done|simpl in Hf; lia].
Qed.

(** Digits with a minus sign or without: the value, reduced to the type *)
Lemma wp_atol num sign neg ds vs rest m :
  cstring m num (sign ++ ds ++ rest) → (sign = [] ∧ neg = false ∨ sign = [45] ∧ neg = true) → digits 10 ds vs → ds ≠ [] → isdigit (first rest) = false →
  (first (ds ++ rest) = 48 → first (tail (ds ++ rest)) ≠ 120) →
  wp (atol num) (λ r m', r = s64 (if neg then - numeral 10 0 vs else numeral 10 0 vs) ∧ m' = m) m.
Proof.
  intros H Hsign Hds Hne Hstop H0x. pose proof (cstring_steps _ _ _ H) as Hf. rewrite !length_app in Hf. apply wp_bind, wp_gets. generalize dependent (steps m). intros fuel Hf. apply wp_bind.
  eapply wp_mono; [by apply wp_has_0x|]. intros h m' [-> ->]. destruct Hsign as [[-> ->]|[-> ->]]; simpl in *.
  - assert ((first (ds ++ rest) =? 48) && (first (tail (ds ++ rest)) =? 120) = false) as ->.
    { destruct (Z.eqb_spec (first (ds ++ rest)) 48); [|done]. by rewrite (proj2 (Z.eqb_neq _ 120)); [|apply H0x]. }
    apply wp_bind. eapply wp_load; [by apply cstring_first|]. rewrite (proj2 (Z.eqb_neq _ 45)).
    + eapply (wp_dec_loop _ _ 0); [done..|lia].
    + destruct Hds as [|d v ds vs [Hd _] _]; [done|]. by destruct (digit_plain d v Hd) as (_ & ? & _).
  - apply cstring_cons in H as (Hb & _ & H). apply wp_bind. eapply wp_load; [done|]. simpl. apply wp_bind.
    eapply wp_mono; [eapply (wp_dec_loop _ _ 0); [done..|lia]|]. intros r m' [-> ->]. apply wp_ret. split; [|done].
    destruct (s64_mod (numeral 10 0 vs)) as [k ->]. rewrite (_ : - (numeral 10 0 vs + k * 2 ^ 64) = - numeral 10 0 vs + - k * 2 ^ 64); [|lia]. apply s64_cong.
Qed.
