(* ===== verification/Printf.v ===== *)
(** * printf

    Model of [src/mk/lib/libc/printf.c].  The output function is a parameter, as in
    the code; [vsnprintf] is the engine with the output function that fills a
    buffer.  The buffer for numbers is an array of 32 bytes with checked accesses.
    A [double] is its 64 bits; arithmetic on it is that of the standard library's
    model of IEEE 754. *)

From Stdlib Require Import SpecFloat.
From S2P Require Import Prelude Bytes Mem Libc.

(** ** The buffer for numbers *)

Abbreviation buffer := (list Z).

Definition put (i v : Z) (b : buffer) : option buffer :=
  if (0 <=? i) && (i <? zlen b) then Some (<[Z.to_nat i := v]> b) else None.

(** The string that starts at an index *)
Fixpoint upto_nul (l : list Z) : option (list Z) :=
  match l with
  | [] => None
  | c :: l => if c =? 0 then Some [] else t ← upto_nul l; Some (c :: t)
  end.

Definition text_at (pos : Z) (b : buffer) : option (list Z) := if pos <? 0 then None else upto_nul (drop (Z.to_nat pos) b).

(** ** Flags *)

Definition LONGFLAG : Z := 0x1.
Definition LONGLONGFLAG : Z := 0x2.
Definition HALFFLAG : Z := 0x4.
Definition HALFHALFFLAG : Z := 0x8.
Definition SIZETFLAG : Z := 0x10.
Definition INTMAXFLAG : Z := 0x20.
Definition PTRDIFFFLAG : Z := 0x40.
Definition ALTFLAG : Z := 0x80.
Definition CAPSFLAG : Z := 0x100.
Definition SHOWSIGNFLAG : Z := 0x200.
Definition SIGNEDFLAG : Z := 0x400.
Definition LEFTFORMATFLAG : Z := 0x800.
Definition LEADZEROFLAG : Z := 0x1000.
Definition BLANKPOSFLAG : Z := 0x2000.

Definition flagged (flags f : Z) : bool := negb (Z.land flags f =? 0).

(** ** Integers *)

(** [while (n >= 10)]: at most 19 rounds for a number of 64 bits *)
Fixpoint decimal_loop (fuel : nat) (n pos : Z) (buf : buffer) : option (Z * Z * buffer) :=
  if 10 <=? n then
    match fuel with
    | O => None
    | S fuel => buf ← put (pos - 1) (n mod 10 + 48) buf; decimal_loop fuel (n / 10) (pos - 1) buf
    end
  else Some (n, pos, buf).

(** The buffer, where the string starts in it, and [*signchar] *)
Definition longlong_to_string (buf : buffer) (n len flag : Z) : option (buffer * Z * Z) :=
  let negative := flagged flag SIGNEDFLAG && (s64 n <? 0) in
  let n := if negative then u64 (- n) else n in
  buf ← put (len - 1) 0 buf;
  '(n, pos, buf) ← decimal_loop 20 n (len - 1) buf;
  buf ← put (pos - 1) (n + 48) buf;
  let signchar := if negative then 45 else if flagged flag SHOWSIGNFLAG then 43 else if flagged flag BLANKPOSFLAG then 32 else 0 in
  Some (buf, pos - 1, signchar).

Definition hextable : list Z := [48; 49; 50; 51; 52; 53; 54; 55; 56; 57; 97; 98; 99; 100; 101; 102].
Definition hextable_caps : list Z := [48; 49; 50; 51; 52; 53; 54; 55; 56; 57; 65; 66; 67; 68; 69; 70].

Definition hexdigit (flag digit : Z) : option Z := (if flagged flag CAPSFLAG then hextable_caps else hextable) !! Z.to_nat digit.

(** [do ... while (u != 0)]: at most 16 rounds *)
Fixpoint hexstring_loop (fuel : nat) (flag u pos : Z) (buf : buffer) : option (Z * buffer) :=
  match fuel with
  | O => None
  | S fuel =>
      d ← hexdigit flag (u mod 16);
      buf ← put (pos - 1) d buf;
      if u / 16 =? 0 then Some (pos - 1, buf) else hexstring_loop fuel flag (u / 16) (pos - 1) buf
  end.

Definition longlong_to_hexstring (buf : buffer) (u len flag : Z) : option (buffer * Z) :=
  buf ← put (len - 1) 0 buf;
  '(pos, buf) ← hexstring_loop 17 flag u (len - 1) buf;
  Some (buf, pos).

(** ** Doubles *)

(** [OUT] and [OUTSTR] *)
Definition OUT (c : Z) (x : buffer * Z) : option (buffer * Z) := buf ← put x.2 c x.1; Some (buf, x.2 + 1).

Fixpoint OUTSTR (str : list Z) (x : buffer * Z) : option (buffer * Z) :=
  match str with [] => Some x | c :: str => x ← OUT c x; OUTSTR str x end.

Fixpoint exponent_loop (fuel : nat) (exponent i : Z) (buf : buffer) : option buffer :=
  match fuel with
  | O => None
  | S fuel =>
      buf ← put (i - 1) (exponent mod 10 + 48) buf;
      if exponent / 10 =? 0 then Some buf else exponent_loop fuel (exponent / 10) (i - 1) buf
  end.

(** [at_] is where in the buffer the exponent goes. *)
Definition exponent_to_string (buf : buffer) (at_ exponent : Z) : option (buffer * Z) :=
  buf ← put at_ (if exponent <? 0 then 45 else 43) buf;
  let exponent := Z.abs exponent in
  let pos := 1 + (if 1000 <=? exponent then 4 else if 100 <=? exponent then 3 else if 10 <=? exponent then 2 else 1) in
  buf ← exponent_loop 5 exponent (at_ + pos) buf;
  Some (buf, pos).

Definition double_exponent (d : Z) : Z := Z.land (Z.shiftr d 52) 0x7ff.
Definition double_fraction (d : Z) : Z := Z.land d (2 ^ 52 - 1).
Definition double_neg (d : Z) : bool := Z.testbit d 63.

Definition capital (flag : Z) (caps small : list Z) : list Z := if flagged flag CAPSFLAG then caps else small.

(** "inf", "nan" and "den" *)
Definition INF flag := capital flag [73; 78; 70] [105; 110; 102].
Definition NAN flag := capital flag [78; 65; 78] [110; 97; 110].
Definition DEN flag := capital flag [68; 69; 78] [100; 101; 110].

(** The value of a normalized number, and the integers and the constant [.5] *)
Definition double_value (d : Z) : spec_float :=
  S754_finite false (Z.to_pos (2 ^ 52 + double_fraction d)) (double_exponent d - 1023 - 52).

Definition double_of (u : Z) : spec_float := binary_normalize 53 1024 u 0 false.

Definition half : spec_float := binary_normalize 53 1024 1 (-1) false.

(** [(uint32_t)(((d - u) * 1000000) + .5)] *)
Definition fraction_digits (d u : Z) : Z :=
  match SFadd 53 1024 (SFmul 53 1024 (SFsub 53 1024 (double_value d) (double_of u)) (double_of 1000000)) half with
  | S754_finite false m e => u32 (Z.shiftl (Zpos m) e)
  | _ => 0
  end.

Fixpoint fraction_loop (fuel : nat) (frac i : Z) (buf : buffer) : option buffer :=
  if frac =? 0 then Some buf
  else
    match fuel with
    | O => None
    | S fuel => buf ← put (i - 1) (frac mod 10 + 48) buf; fraction_loop fuel (frac / 10) (i - 1) buf
    end.

(** At the start of the buffer the code gives up; there is no result then, and with a
    buffer of 32 bytes that does not happen. *)
Definition OUTREV (c : Z) (x : buffer * Z) : option (buffer * Z) := buf ← put (x.2 - 1) c x.1; Some (buf, x.2 - 1).

Fixpoint OUTREVS (n : nat) (c : Z) (x : buffer * Z) : option (buffer * Z) :=
  match n with O => Some x | S n => x ← OUTREV c x; OUTREVS n c x end.

(** The part for numbers that can be printed *)
Definition double_digits (buf : buffer) (len d flag : Z) : option (buffer * Z) :=
  let exponent_signed := double_exponent d - 1023 in
  x ← OUTREV 0 (buf, len);
  '(buf, pos) ← OUTREVS 7 48 x;
  let decimal_spot := pos in
  '(u, buf, pos) ← (
    if 0 <=? exponent_signed then
      let u := Z.shiftr (Z.lor (double_fraction d) (2 ^ 52)) (52 - exponent_signed) in
      '(buf, pos, _) ← longlong_to_string buf u (pos + 1) flag;
      Some (u, buf, pos)
    else '(buf, pos) ← OUTREV 48 (buf, pos); Some (0, buf, pos));
  buf ← put decimal_spot 46 buf;
  buf ← fraction_loop 10 (fraction_digits d u) (decimal_spot + 6 + 1) buf;
  if double_neg d then OUTREV 45 (buf, pos) else Some (buf, pos).

Definition double_to_string (buf : buffer) (len d flag : Z) : option (buffer * Z) :=
  let exponent := double_exponent d in
  let fraction := double_fraction d in
  x ← (if double_neg d then OUT 45 (buf, 0) else Some (buf, 0));
  let finish (x : buffer * Z) := buf ← put x.2 0 x.1; Some (buf, 0) in
  if exponent =? 0x7ff then x ← OUTSTR (if fraction =? 0 then INF flag else NAN flag) x; finish x
  else if exponent =? 0 then x ← OUTSTR (if fraction =? 0 then [48; 46; 48; 48; 48; 48; 48; 48] else DEN flag) x; finish x
  else if (exponent - 1023 <? -52) || (52 <? exponent - 1023) then x ← OUTSTR [60; 114; 97; 110; 103; 101; 62] x; finish x
  else double_digits x.1 len d flag.

(** The thirteen hexadecimal digits of the fraction, from bit [i] on; zeros are held
    back until a digit follows. *)
Fixpoint mantissa_loop (n : nat) (i fraction zero_count flag : Z) (dot : bool) (x : buffer * Z) : option (buffer * Z) :=
  match n with
  | O => Some x
  | S n =>
      let digit := Z.land (Z.shiftr fraction i) 15 in
      if digit =? 0 then mantissa_loop n (i - 4) fraction (zero_count + 1) flag dot x
      else
        x ← (if dot then Some x else OUT 46 x);
        x ← OUTSTR (replicate (Z.to_nat zero_count) 48) x;
        c ← hexdigit flag digit;
        x ← OUT c x;
        mantissa_loop n (i - 4) fraction 0 flag true x
  end.

Definition double_to_hexstring (buf : buffer) (d flag : Z) : option (buffer * Z) :=
  let exponent := double_exponent d in
  let fraction := double_fraction d in
  x ← (if double_neg d then OUT 45 (buf, 0) else Some (buf, 0));
  x ← (
    if exponent =? 0x7ff then OUTSTR (if fraction =? 0 then INF flag else NAN flag) x
    else if exponent =? 0 then
      OUTSTR (if fraction =? 0 then capital flag [48; 88; 48; 80; 43; 48] [48; 120; 48; 112; 43; 48] else DEN flag) x
    else
      x ← OUTSTR (capital flag [48; 88; 49] [48; 120; 49]) x;
      x ← mantissa_loop 13 48 fraction 0 flag false x;
      x ← OUT (if flagged flag CAPSFLAG then 80 else 112) x;
      '(buf, n) ← exponent_to_string x.1 x.2 (exponent - 1023);
      Some (buf, x.2 + n));
  buf ← put x.2 0 x.1;
  Some (buf, 0).

(** ** The engine *)

(** An argument of the call: an integer or a pointer, or the bits of a [double] *)
Inductive arg := ArgInt (z : Z) | ArgDouble (d : Z).

(** The computation goes on, or it leaves the engine with an error of the output
    function. *)
Inductive outcome (A : Type) := Go (a : A) | Exit (err : Z).
Arguments Go {A} a.
Arguments Exit {A} err.

Section engine.
Context {T : Type}.

(** The memory, the state of the output function, [chars_written] and the arguments
    that are left *)
Record engine := Engine { e_mem : mem; e_out : T; e_written : Z; e_args : list arg }.

Definition P (A : Type) : Type := engine → option (outcome A * engine).

#[global] Instance P_ret : MRet P := λ A a e, Some (Go a, e).

#[global] Instance P_bind : MBind P := λ A B k m e,
  match m e with Some (Go a, e') => k a e' | Some (Exit err, e') => Some (Exit err, e') | None => None end.

Definition on_mem {A} (c : M mem A) : P A := λ e,
  match c (e_mem e) with Some (a, m) => Some (Go a, Engine m (e_out e) (e_written e) (e_args e)) | None => None end.

Definition of_option {A} (o : option A) : P A := λ e, match o with Some a => Some (Go a, e) | None => None end.

Definition va_int : P Z := λ e,
  match e_args e with ArgInt z :: l => Some (Go z, Engine (e_mem e) (e_out e) (e_written e) l) | _ => None end.

Definition va_double : P Z := λ e,
  match e_args e with ArgDouble d :: l => Some (Go d, Engine (e_mem e) (e_out e) (e_written e) l) | _ => None end.

Definition written : P Z := λ e, Some (Go (e_written e), e).

(** The output function, with the characters it is given *)
Context (out : list Z → mem * T → option (Z * (mem * T))).

(** [OUTPUT_STRING]; the result is [err]. *)
Definition OUTPUT_STRING (str : list Z) : P Z := λ e,
  match out str (e_mem e, e_out e) with
  | Some (err, (m, t)) =>
      if err <? 0 then Some (Exit err, Engine m t (e_written e) (e_args e))
      else Some (Go err, Engine m t (u64 (e_written e + err)) (e_args e))
  | None => None
  end.

Definition OUTPUT_CHAR (c : Z) : P unit := OUTPUT_STRING [c];; mret ().

Fixpoint OUTPUT_CHARS (n : nat) (c : Z) : P unit := match n with O => mret () | S n => OUTPUT_CHAR c;; OUTPUT_CHARS n c end.

(** The characters up to a percent sign or the end: they, what ended them, and the
    pointer behind that *)
Fixpoint scan_literal (fuel : nat) (fmt : Z) : M mem (list Z * Z * Z) :=
  match fuel with
  | O => fail
  | S fuel =>
      c ← load fmt;
      if (c =? 0) || (c =? 37) then mret ([], c, fmt + 1)
      else '(l, e, fmt) ← scan_literal fuel (fmt + 1); mret (c :: l, e, fmt)
  end.

(** [next_format]: flags and width, up to the character that says what to print *)
Fixpoint next_format (fuel : nat) (fmt flags format_num : Z) : M mem (Z * Z * Z * Z) :=
  match fuel with
  | O => fail
  | S fuel =>
      c ← load fmt;
      let fmt := fmt + 1 in
      let go flags := next_format fuel fmt flags format_num in
      if (48 <=? c) && (c <=? 57) then
        let flags := if (c =? 48) && (format_num =? 0) then Z.lor flags LEADZEROFLAG else flags in
        next_format fuel fmt flags (u32 (u32 (format_num * 10) + (c - 48)))
      else if c =? 46 then go flags
      else if c =? 45 then go (Z.lor flags LEFTFORMATFLAG)
      else if c =? 43 then go (Z.lor flags SHOWSIGNFLAG)
      else if c =? 32 then go (Z.lor flags BLANKPOSFLAG)
      else if c =? 35 then go (Z.lor flags ALTFLAG)
      else if c =? 108 then go (Z.lor (if flagged flags LONGFLAG then Z.lor flags LONGLONGFLAG else flags) LONGFLAG)
      else if c =? 104 then go (Z.lor (if flagged flags HALFFLAG then Z.lor flags HALFHALFFLAG else flags) HALFFLAG)
      else if c =? 122 then go (Z.lor flags SIZETFLAG)
      else if c =? 106 then go (Z.lor flags INTMAXFLAG)
      else if c =? 116 then go (Z.lor flags PTRDIFFFLAG)
      else mret (c, flags, format_num, fmt)
  end.

(** The argument of [d] and [i], as an [unsigned long long] *)
Definition signed_arg (flags z : Z) : Z :=
  u64 (if flagged flags LONGLONGFLAG then s64 z
       else if flagged flags LONGFLAG then s64 z
       else if flagged flags HALFHALFFLAG then s8 (s32 z)
       else if flagged flags HALFFLAG then (s32 z + 2 ^ 15) mod 2 ^ 16 - 2 ^ 15
       else if flagged flags SIZETFLAG then s64 z
       else if flagged flags INTMAXFLAG then s64 z
       else if flagged flags PTRDIFFFLAG then s64 z
       else s32 z).

Definition unsigned_arg (flags z : Z) : Z :=
  if flagged flags LONGLONGFLAG then u64 z
  else if flagged flags LONGFLAG then u64 z
  else if flagged flags HALFHALFFLAG then u8 (u32 z)
  else if flagged flags HALFFLAG then u16 (u32 z)
  else if flagged flags SIZETFLAG then u64 z
  else if flagged flags INTMAXFLAG then u64 z
  else if flagged flags PTRDIFFFLAG then u64 z
  else u32 z.

(** The shared output code [_output_string] *)
Definition output_string (s : list Z) (flags format_num signchar c : Z) : P unit :=
  let string_len := zlen s in
  if flagged flags LEFTFORMATFLAG then
    written ← OUTPUT_STRING s;
    OUTPUT_CHARS (Z.to_nat (format_num - u32 written)) 32
  else
    let format_num := if negb (signchar =? 0) && (0 <? format_num) then format_num - 1 else format_num in
    (if flagged flags LEADZEROFLAG && negb (signchar =? 0) then OUTPUT_CHAR signchar else mret ());;
    format_num ← (
      if (c =? 120) && flagged flags ALTFLAG then
        OUTPUT_CHAR 48;;
        OUTPUT_CHAR (if flagged flags CAPSFLAG then 88 else 120);;
        mret (if 2 <=? format_num then format_num - 2 else format_num)
      else mret format_num);
    OUTPUT_CHARS (Z.to_nat (format_num - string_len)) (if flagged flags LEADZEROFLAG then 48 else 32);;
    (if negb (flagged flags LEADZEROFLAG) && negb (signchar =? 0) then OUTPUT_CHAR signchar else mret ());;
    OUTPUT_STRING s;;
    mret ().

(** The string at a pointer *)
Fixpoint read_string (fuel : nat) (s : Z) : M mem (list Z) :=
  match fuel with
  | O => fail
  | S fuel => c ← load s; if c =? 0 then mret [] else l ← read_string fuel (s + 1); mret (c :: l)
  end.

Definition num_buffer : buffer := replicate 32 0.

(** "<null>" *)
Definition NULL_STRING : list Z := [60; 110; 117; 108; 108; 62].

(** [%n]: the size of what the pointer points to *)
Definition count_size (flags : Z) : nat :=
  if flagged flags LONGLONGFLAG then 8%nat
  else if flagged flags LONGFLAG then 8%nat
  else if flagged flags HALFHALFFLAG then 1%nat
  else if flagged flags HALFFLAG then 2%nat
  else if flagged flags SIZETFLAG then 8%nat
  else 4%nat.

Definition hex_conversion (flags format_num : Z) : P unit :=
  z ← va_int;
  let n := unsigned_arg flags z in
  '(buf, pos) ← of_option (longlong_to_hexstring num_buffer n 32 flags);
  s ← of_option (text_at pos buf);
  output_string s (if n =? 0 then Z.ldiff flags ALTFLAG else flags) format_num 0 120.

(** The [switch], once the flags and the width have been read *)
Definition convert (fuel : nat) (c flags format_num : Z) : P unit :=
  if c =? 37 then OUTPUT_CHAR 37
  else if c =? 99 then z ← va_int; OUTPUT_CHAR (u8 z)
  else if c =? 115 then
    s ← va_int;
    s ← (if s =? 0 then mret NULL_STRING else on_mem (read_string fuel s));
    output_string s (Z.ldiff flags LEADZEROFLAG) format_num 0 c
  else if (c =? 105) || (c =? 100) then
    z ← va_int;
    let n := signed_arg flags z in
    let flags := Z.lor flags SIGNEDFLAG in
    '(buf, pos, signchar) ← of_option (longlong_to_string num_buffer n 32 flags);
    s ← of_option (text_at pos buf);
    output_string s flags format_num signchar c
  else if c =? 117 then
    z ← va_int;
    '(buf, pos, signchar) ← of_option (longlong_to_string num_buffer (unsigned_arg flags z) 32 flags);
    s ← of_option (text_at pos buf);
    output_string s flags format_num signchar c
  else if c =? 112 then hex_conversion (Z.lor flags (Z.lor SIZETFLAG ALTFLAG)) format_num
  else if c =? 88 then hex_conversion (Z.lor flags CAPSFLAG) format_num
  else if c =? 120 then hex_conversion flags format_num
  else if c =? 110 then
    ptr ← va_int;
    n ← written;
    on_mem (store_bytes ptr (take (count_size flags) (word_bytes n)))
  else if (c =? 70) || (c =? 102) then
    let flags := if c =? 70 then Z.lor flags CAPSFLAG else flags in
    d ← va_double;
    '(buf, pos) ← of_option (double_to_string num_buffer 32 d flags);
    s ← of_option (text_at pos buf);
    output_string s flags format_num 0 c
  else if (c =? 65) || (c =? 97) then
    let flags := if c =? 65 then Z.lor flags CAPSFLAG else flags in
    d ← va_double;
    '(buf, pos) ← of_option (double_to_hexstring num_buffer d flags);
    s ← of_option (text_at pos buf);
    output_string s flags format_num 0 c
  else OUTPUT_CHAR 37;; OUTPUT_CHAR c.

(** The outer loop; [fuel] bounds the length of the format and of the strings that are
    printed, and any bound that is large enough will do. *)
Fixpoint engine_loop (fuel bound : nat) (fmt : Z) : P unit :=
  match fuel with
  | O => λ _, None
  | S fuel =>
      '(s, c, fmt) ← on_mem (scan_literal bound fmt);
      OUTPUT_STRING s;;
      if c =? 0 then mret ()
      else
        '(c, flags, format_num, fmt) ← on_mem (next_format bound fmt 0 0);
        if c =? 0 then mret () else convert bound c flags format_num;; engine_loop fuel bound fmt
  end.

(** The result of [_printf_engine], an [int], with the memory and the state of the
    output function *)
Definition _printf_engine (bound : nat) (fmt : Z) (ap : list arg) (m : mem) (t : T) : option (Z * (mem * T)) :=
  match engine_loop bound bound fmt (Engine m t 0 ap) with
  | Some (Go _, e) => Some (s32 (e_written e), (e_mem e, e_out e))
  | Some (Exit err, e) => Some (err, (e_mem e, e_out e))
  | None => None
  end.
End engine.
Arguments engine : clear implicits.
Arguments P : clear implicits.

(** ** vsnprintf *)

Record _output_args := OutputArgs { outstr : Z; o_len : Z; o_pos : Z }.

(** The characters that fit are stored; all of them are counted. *)
Fixpoint _vsnprintf_output (str : list Z) (x : mem * _output_args) : option (Z * (mem * _output_args)) :=
  match str with
  | [] => Some (0, x)
  | c :: str =>
      let '(m, args) := x in
      x ← (if o_pos args <? o_len args then
             match store (outstr args + o_pos args) c m with
             | Some (_, m) => Some (m, OutputArgs (outstr args) (o_len args) (o_pos args + 1))
             | None => None
             end
           else Some (m, args));
      '(count, x) ← _vsnprintf_output str x;
      Some (count + 1, x)
  end.

Definition vsnprintf (bound : nat) (str len fmt : Z) (ap : list arg) : M mem Z := λ m,
  '(wlen, (m, args)) ← _printf_engine _vsnprintf_output bound fmt ap m (OutputArgs str len 0);
  if len =? 0 then Some (wlen, m)
  else
    match store (if len <=? o_pos args then str + (len - 1) else str + wlen) 0 m with
    | Some (_, m) => Some (wlen, m)
    | None => None
    end.

Definition snprintf := vsnprintf.

Definition vsprintf (bound : nat) (str fmt : Z) (ap : list arg) : M mem Z := vsnprintf bound str (2 ^ 31 - 1) fmt ap.

Definition sprintf := vsprintf.
