(* ===== verification/PrintfSim.v ===== *)
(** * The strings of numbers, and vsnprintf

    [longlong_to_string] and [longlong_to_hexstring] produce the digits of their
    argument, most significant first, and stay inside the buffer.

    The engine does not depend on its output function but for what that returns: run
    with the buffer of [vsnprintf] it does what it does when the output is just
    collected, and the buffer holds the part of the output that fits, terminated. *)

From S2P Require Import Prelude Bytes Mem Libc LibcMem LibcStr Strto StrtoSpec Printf.

(** Writing in front of what is there *)
Lemma put_down pos v (buf : buffer) : 0 < pos ≤ zlen buf →
  ∃ buf', put (pos - 1) v buf = Some buf' ∧ drop (Z.to_nat (pos - 1)) buf' = v :: drop (Z.to_nat pos) buf ∧ length buf' = length buf.
Proof.
  intros Hp. rewrite /put. rewrite (proj2 (Z.leb_le _ _)); [|lia]. rewrite (proj2 (Z.ltb_lt _ _)); [|lia]. eexists. split_and!; [done| |apply length_insert].
  rewrite (drop_S _ v); [|apply list_lookup_insert_eq; lia]. f_equal. rewrite (_ : S (Z.to_nat (pos - 1)) = Z.to_nat pos); [|lia]. apply drop_insert_lt. lia.
Qed.

(** The characters of decimal digits *)
Lemma decimal_char d : 0 ≤ d < 10 → digit_val (d + 48) = Some d ∧ d + 48 ≠ 0.
Proof.
  intros. split; [|lia]. rewrite /digit_val /isdigit. rewrite (proj2 (Z.leb_le _ _)); [|lia]. rewrite (proj2 (Z.leb_le _ _)); [|lia]. simpl. f_equal. lia.
Qed.

Lemma numeral_app base n vs ws : numeral base n (vs ++ ws) = numeral base (numeral base n vs) ws.
Proof. apply foldl_app. Qed.

Lemma decimal_loop_spec fuel n pos buf :
  0 ≤ n < 10 * 10 ^ Z.of_nat fuel → Z.of_nat fuel ≤ pos ≤ zlen buf →
  ∃ n' pos' buf' ds vs, decimal_loop fuel n pos buf = Some (n', pos', buf') ∧ 0 ≤ n' < 10 ∧ digits 10 ds vs ∧ numeral 10 n' vs = n ∧
    (1 ≤ n → 1 ≤ n') ∧ pos' = pos - zlen ds ∧ (length ds ≤ fuel)%nat ∧ length buf' = length buf ∧ drop (Z.to_nat pos') buf' = ds ++ drop (Z.to_nat pos) buf.
Proof.
  revert n pos buf. induction fuel as [|fuel IH]; intros n pos buf Hn Hp; cbn [decimal_loop]; destruct (Z.leb_spec 10 n).
  - simpl in Hn. lia.
  - exists n, pos, buf, [], []. split_and!; [done|lia..|constructor|done|lia|simpl; lia|simpl; lia|done|done].
  - destruct (put_down pos (n mod 10 + 48) buf) as (buf1 & -> & Hd & Hl); [lia|]. simpl. pose proof (Z.mod_pos_bound n 10 ltac:(lia)) as Hm.
    pose proof (Z.div_mod n 10 ltac:(lia)) as Hdm. rewrite Nat2Z.inj_succ Z.pow_succ_r in Hn; [|lia].
    destruct (IH (n / 10) (pos - 1) buf1) as (n' & pos' & buf' & ds & vs & -> & Hn' & Hds & Hnum & Hlead & -> & Hlen & Hl' & Hdrop).
    { split; [apply Z.div_pos; lia|]. apply Z.div_lt_upper_bound; lia. }
    { rewrite Hl. lia. }
    exists n', (pos - 1 - zlen ds), buf', (ds ++ [n mod 10 + 48]), (vs ++ [n mod 10]). split_and!; [done|lia..| | | | | | |].
    + apply Forall2_app; [done|]. apply Forall2_cons. split; [|constructor]. split; [by apply decimal_char|lia].
    + rewrite numeral_app Hnum /=. lia.
    + intros _. apply Hlead. apply Z.div_le_lower_bound; lia.
    + rewrite length_app /=. lia.
    + rewrite length_app /=. lia.
    + congruence.
    + by rewrite Hdrop Hd -app_assoc.
  - exists n, pos, buf, [], []. split_and!; [done|lia..|constructor|done|lia|simpl; lia|simpl; lia|done|done].
Qed.

Lemma upto_nul_spec l k : 0 ∉ l → upto_nul (l ++ 0 :: k) = Some l.
Proof.
  induction l as [|c l IH]; simpl; [done|]. intros [? H0]%not_elem_of_cons. rewrite (proj2 (Z.eqb_neq c 0)) // IH //.
Qed.

Lemma digits_no_nul base ds vs : digits base ds vs → 0 ∉ ds.
Proof.
  induction 1 as [|d v ds vs [Hd _] _ IH]; [set_solver|]. apply not_elem_of_cons. split; [|done]. intros <-. by destruct (digit_plain _ _ Hd) as (_ & _ & _ & ?).
Qed.

(** A number without leading zeros *)
Definition canonical (n : Z) (vs : list Z) : Prop := vs = [0] ∧ n = 0 ∨ ∃ v ws, vs = v :: ws ∧ 1 ≤ v.

Lemma longlong_to_string_spec buf n len flag :
  0 ≤ n < 2 ^ 64 → 22 ≤ len ≤ zlen buf →
  let negative := flagged flag SIGNEDFLAG && (s64 n <? 0) in
  ∃ buf' pos ds vs, longlong_to_string buf n len flag =
      Some (buf', pos, if negative then 45 else if flagged flag SHOWSIGNFLAG then 43 else if flagged flag BLANKPOSFLAG then 32 else 0) ∧
    text_at pos buf' = Some ds ∧ digits 10 ds vs ∧ ds ≠ [] ∧ canonical n vs ∧ numeral 10 0 vs = (if negative then u64 (- n) else n) ∧
    length buf' = length buf ∧ pos = len - 1 - zlen ds ∧ (length ds ≤ 21)%nat ∧ drop (Z.to_nat pos) buf' = ds ++ 0 :: drop (Z.to_nat len) buf.
Proof.
  intros Hn Hlen negative. rewrite /longlong_to_string -/negative. set (n1 := if negative then u64 (- n) else n).
  assert (0 ≤ n1 < 2 ^ 64) as Hn1 by (rewrite /n1; destruct negative; [apply u64_range|done]).
  assert (n1 = 0 → n = 0) as H0.
  { rewrite /n1. destruct negative; [|done]. rewrite /u64. intros E. pose proof (Z.div_mod (- n) (2 ^ 64)). lia. }
  destruct (put_down len 0 buf) as (buf1 & -> & Hd1 & Hl1); [lia|]. cbn [mbind option_bind].
  destruct (decimal_loop_spec 20 n1 (len - 1) buf1) as (n' & pos & buf2 & ds & vs & E & Hn' & Hds & Hnum & Hlead & -> & Hdl & Hl2 & Hd2).
  { split; [lia|]. by transitivity (2 ^ 64); [lia|]. }
  { rewrite Hl1. lia. }
  rewrite E. cbn [mbind option_bind].
  destruct (put_down (len - 1 - zlen ds) (n' + 48) buf2) as (buf3 & -> & Hd3 & Hl3); [lia|]. cbn [mbind option_bind].
  assert (digits 10 (n' + 48 :: ds) (n' :: vs)) as Hdig.
  { constructor; [|done]. split; [by apply decimal_char|lia]. }
  assert (drop (Z.to_nat (len - 1 - zlen ds - 1)) buf3 = (n' + 48 :: ds) ++ 0 :: drop (Z.to_nat len) buf) as Htext by (by rewrite Hd3 Hd2 Hd1).
  exists buf3, (len - 1 - zlen ds - 1), (n' + 48 :: ds), (n' :: vs). split_and!; [done| |done|done| | |congruence|simpl; lia|simpl; lia|done].
  - rewrite /text_at (proj2 (Z.ltb_ge _ _)); [|lia]. rewrite Htext. apply upto_nul_spec. by eapply digits_no_nul.
  - destruct (decide (1 ≤ n1)); [right; exists n', vs; auto|]. left. assert (n1 = 0) as E0 by lia. rewrite E0 in E. injection E as <- Hz _.
    destruct Hds; [by rewrite H0|simpl in Hz; lia].
  - rewrite -Hnum. by destruct negative.
Qed.

(** ** Hexadecimal *)

Lemma hex_char flag d : 0 ≤ d < 16 → ∃ c, hexdigit flag d = Some c ∧ digit_val c = Some d.
Proof.
  intros Hd. assert (Forall (λ d, hextable !! Z.to_nat d ≫= digit_val = Some d ∧ hextable_caps !! Z.to_nat d ≫= digit_val = Some d) (seqZ 0 16)) as H
    by (repeat constructor).
  rewrite Forall_forall in H. destruct (H d) as [H1 H2]; [apply elem_of_seqZ; lia|]. rewrite /hexdigit.
  destruct (flagged flag CAPSFLAG); [apply bind_Some in H2 as (c & ? & ?)|apply bind_Some in H1 as (c & ? & ?)]; by exists c.
Qed.

Lemma hexstring_loop_spec fuel flag u pos buf :
  0 ≤ u < 16 ^ Z.of_nat fuel → Z.of_nat fuel ≤ pos ≤ zlen buf → (0 < fuel)%nat →
  ∃ pos' buf' ds vs, hexstring_loop fuel flag u pos buf = Some (pos', buf') ∧ digits 16 ds vs ∧ ds ≠ [] ∧ canonical u vs ∧ numeral 16 0 vs = u ∧
    pos' = pos - zlen ds ∧ (length ds ≤ fuel)%nat ∧ length buf' = length buf ∧ drop (Z.to_nat pos') buf' = ds ++ drop (Z.to_nat pos) buf.
Proof.
  revert u pos buf. induction fuel as [|fuel IH]; intros u pos buf Hu Hp Hf; [lia|]. cbn [hexstring_loop]. pose proof (Z.mod_pos_bound u 16 ltac:(lia)) as Hm.
  pose proof (Z.div_mod u 16 ltac:(lia)) as Hdm. destruct (hex_char flag (u mod 16) Hm) as (c & -> & Hc). cbn [mbind option_bind].
  destruct (put_down pos c buf) as (buf1 & -> & Hd & Hl); [lia|]. cbn [mbind option_bind]. rewrite Nat2Z.inj_succ Z.pow_succ_r in Hu; [|lia].
  assert (digits 16 [c] [u mod 16]) as Hdig by (constructor; [split; [done|lia]|constructor]). destruct (Z.eqb_spec (u / 16) 0) as [E|E].
  - exists (pos - 1), buf1, [c], [u mod 16]. split_and!; [done|done|done| |simpl; lia|simpl; lia|simpl; lia|done|done].
    destruct (decide (u mod 16 = 0)) as [E0|]; [left; split; [by rewrite E0|lia]|right; exists (u mod 16), []; split; [done|lia]].
  - destruct (IH (u / 16) (pos - 1) buf1) as (pos' & buf' & ds & vs & -> & Hds & Hne & Hcan & Hnum & -> & Hlen & Hl' & Hdrop).
    { split; [apply Z.div_pos; lia|]. apply Z.div_lt_upper_bound; lia. }
    { rewrite Hl. lia. }
    { destruct fuel; [|lia]. simpl in Hu. rewrite Z.div_small in E; lia. }
    exists (pos - 1 - zlen ds), buf', (ds ++ [c]), (vs ++ [u mod 16]). split_and!; [done|by apply Forall2_app|by destruct ds| | | | |congruence|].
    + destruct Hcan as [[_ ?]|(v & ws & -> & ?)]; [lia|]. right. by exists v, (ws ++ [u mod 16]).
    + rewrite numeral_app Hnum /=. lia.
    + rewrite length_app /=. lia.
    + rewrite length_app /=. lia.
    + by rewrite Hdrop Hd -app_assoc.
Qed.

Lemma longlong_to_hexstring_spec buf u len flag :
  0 ≤ u < 2 ^ 64 → 19 ≤ len ≤ zlen buf →
  ∃ buf' pos ds vs, longlong_to_hexstring buf u len flag = Some (buf', pos) ∧ text_at pos buf' = Some ds ∧
    digits 16 ds vs ∧ ds ≠ [] ∧ canonical u vs ∧ numeral 16 0 vs = u ∧ (length ds ≤ 17)%nat.
Proof.
  intros Hu Hlen. rewrite /longlong_to_hexstring. destruct (put_down len 0 buf) as (buf1 & -> & Hd1 & Hl1); [lia|]. cbn [mbind option_bind].
  destruct (hexstring_loop_spec 17 flag u (len - 1) buf1) as (pos & buf' & ds & vs & -> & Hds & Hne & Hcan & Hnum & -> & Hdl & Hl' & Hdrop).
  { split; [lia|]. by transitivity (2 ^ 64); [lia|]. }
  { rewrite Hl1. lia. }
  { lia. }
  cbn [mbind option_bind]. exists buf', (len - 1 - zlen ds), ds, vs. split_and!; try done.
  rewrite /text_at (proj2 (Z.ltb_ge _ _)); [|lia]. rewrite Hdrop Hd1. apply upto_nul_spec. by eapply digits_no_nul.
Qed.

(** The output function that collects *)
Definition collect (str : list Z) (x : mem * list Z) : option (Z * (mem * list Z)) := Some (zlen str, (x.1, x.2 ++ str)).

(** ** Frames *)

(** A computation that succeeds in a part of the memory does the same in all of it. *)
Definition framed {A} (c : M mem A) : Prop :=
  ∀ m a m' F, c m = Some (a, m') → m ##ₘ F → c (m ∪ F) = Some (a, m' ∪ F) ∧ m' ##ₘ F.

Lemma framed_ret {A} (a : A) : framed (mret a).
Proof. intros m a' m' F [= <- <-] Hd. done. Qed.

Lemma framed_bind {A B} (c : M mem A) (k : A → M mem B) : framed c → (∀ a, framed (k a)) → framed (c ≫= k).
Proof.
  intros Hc Hk m b m' F E Hd. rewrite /mbind /M_bind in E |- *. destruct (c m) as [[a m1]|] eqn:Ec; [|done].
  destruct (Hc _ _ _ _ Ec Hd) as [-> Hd']. by apply Hk.
Qed.

Lemma framed_fail {A} : framed (fail : M mem A).
Proof. done. Qed.

Lemma framed_load a : framed (load a).
Proof.
  intros m b m' F E Hd. rewrite /load /deref in E |- *. destruct (m !! a) as [v|] eqn:Ev; [|done]. injection E as <- <-.
  by rewrite (lookup_union_Some_l _ _ _ _ Ev).
Qed.

Lemma framed_store a v : framed (store a v).
Proof.
  intros m b m' F E Hd. rewrite /store /mbind /M_bind /load /deref in E |- *. destruct (m !! a) as [w|] eqn:Ew; [|done]. injection E as <- <-.
  rewrite (lookup_union_Some_l _ _ _ _ Ew) /=. rewrite -insert_union_l. split; [done|]. apply map_disjoint_insert_l. split; [|done].
  by eapply map_disjoint_Some_l.
Qed.

Lemma framed_store_bytes a l : framed (store_bytes a l).
Proof. revert a. induction l as [|b l IH]; intros a; [apply framed_ret|]. apply framed_bind; [apply framed_store|]. intros _. apply IH. Qed.

Lemma framed_scan fuel fmt : framed (scan_literal fuel fmt).
Proof.
  revert fmt. induction fuel as [|fuel IH]; intros fmt; [apply framed_fail|]. apply framed_bind; [apply framed_load|]. intros c.
  destruct ((c =? 0) || (c =? 37)); [apply framed_ret|]. apply framed_bind; [apply IH|]. intros [[l e] f]. apply framed_ret.
Qed.

Lemma framed_read fuel s : framed (read_string fuel s).
Proof.
  revert s. induction fuel as [|fuel IH]; intros s; [apply framed_fail|]. apply framed_bind; [apply framed_load|]. intros c.
  destruct (c =? 0); [apply framed_ret|]. apply framed_bind; [apply IH|]. intros l. apply framed_ret.
Qed.

Lemma framed_next fuel fmt flags num : framed (next_format fuel fmt flags num).
Proof.
  revert fmt flags num. induction fuel as [|fuel IH]; intros fmt flags num; [apply framed_fail|]. cbn [next_format]. apply framed_bind; [apply framed_load|]. intros c.
  cbv zeta. destruct (_ && _); [apply IH|]. do 10 (destruct (_ =? _); [apply IH|]). apply framed_ret.
Qed.

(** The terminator in place of the last character of a buffer that is full *)
Lemma overwrite_last (B : mem) str len t : 0 < len ≤ zlen t → <[str + (len - 1) := 0]> (blit str (upto len t) B) = blit str (upto (len - 1) t ++ [0]) B.
Proof.
  intros Hl. rewrite blit_app length_take (_ : Z.of_nat (Z.to_nat (len - 1) `min` length t) = len - 1) /=; [|lia]. apply map_eq. intros x.
  destruct (decide (x = str + (len - 1))) as [->|Hne]; [by rewrite !lookup_insert_eq|]. rewrite !lookup_insert_ne // !lookup_blit !length_take.
  destruct (decide (str ≤ x < str + (len - 1))).
  - rewrite !decide_True; [|lia..]. by rewrite !lookup_take_lt; [|lia..].
  - by rewrite !decide_False; [|lia..].
Qed.

(** ** The engine with a buffer *)

Section sim.
Context (str len cap : Z) (B : mem).
Context (Hcap : 0 ≤ cap ≤ len) (HB : mapped B str cap).

(** The buffer has [len] bytes, or at least one more than the output. *)
Definition fits (t : list Z) : Prop := cap = len ∨ zlen t < cap.

Lemma fits_prefix (t t' : list Z) : t `prefix_of` t' → fits t' → fits t.
Proof. intros Hp%prefix_length [?|?]; [by left|right; lia]. Qed.

(** The buffer as [vsnprintf] has filled it *)
Definition filled (t : list Z) : mem := blit str (upto len t) B.

Lemma length_upto (t : list Z) : zlen (upto len t) = Z.min len (zlen t).
Proof. rewrite length_take. lia. Qed.

Lemma filled_disjoint (m : mem) t : fits t → m ##ₘ B → m ##ₘ filled t.
Proof.
  intros Hf Hd. apply map_disjoint_spec. intros x v w Hv Hw. rewrite /filled lookup_blit in Hw. pose proof (length_upto t).
  case_decide as Hx; [|by eapply map_disjoint_spec in Hd].
  assert (is_Some (B !! x)) as [w' Hw'] by (apply HB; destruct Hf; lia). by eapply map_disjoint_spec in Hd.
Qed.

Record related (e1 : engine (list Z)) (e2 : engine _output_args) : Prop := {
  rel_written : e_written e2 = e_written e1;
  rel_count : e_written e1 = u64 (zlen (e_out e1));
  rel_args : e_args e2 = e_args e1;
  rel_apart : e_mem e1 ##ₘ B;
  rel_mem : e_mem e2 = e_mem e1 ∪ filled (e_out e1);
  rel_out : e_out e2 = OutputArgs str len (zlen (upto len (e_out e1)))
}.

(** [c2] follows [c1] as long as the output fits. *)
Definition psim {A} (c1 : P (list Z) A) (c2 : P _output_args A) : Prop :=
  (∀ e1 r e1', c1 e1 = Some (r, e1') → e_out e1 `prefix_of` e_out e1' ∧ ∃ a, r = Go a) ∧
  (∀ e1 e2 r e1', related e1 e2 → c1 e1 = Some (r, e1') → fits (e_out e1') → ∃ e2', c2 e2 = Some (r, e2') ∧ related e1' e2').

Lemma psim_ret {A} (a : A) : psim (mret a) (mret a).
Proof. split; [intros e1 r e1' [= <- <-]; split; [done|by exists a]|]. intros e1 e2 r e1' Hr [= <- <-] _. by exists e2. Qed.

Lemma psim_fail {A} (c : P _output_args A) : psim (λ _, None) c.
Proof. by split. Qed.

Lemma psim_bind {A C} (c1 : P (list Z) A) c2 (k1 : A → P (list Z) C) k2 : psim c1 c2 → (∀ a, psim (k1 a) (k2 a)) → psim (c1 ≫= k1) (c2 ≫= k2).
Proof.
  intros [Hm Hs] Hk. rewrite /mbind /P_bind. split.
  - intros e1 r e1' E. destruct (c1 e1) as [[[a|err] e]|] eqn:Ec; [|by destruct (Hm _ _ _ Ec) as [_ [? ?]]|done].
    destruct (Hm _ _ _ Ec) as [Hp _]. destruct (Hk a) as [Hm' _]. destruct (Hm' _ _ _ E) as [Hp' Hr]. split; [by etrans|done].
  - intros e1 e2 r e1' Hr E Hf. destruct (c1 e1) as [[[a|err] e]|] eqn:Ec; [| |done].
    + assert (fits (e_out e)) as Hf' by (eapply fits_prefix; [eapply (Hk a), E|done]). destruct (Hs _ _ _ _ Hr Ec Hf') as (e2' & -> & Hr'). by eapply (Hk a).
    + simplify_eq. destruct (Hs _ _ _ _ Hr Ec Hf) as (e2' & -> & Hr'). by exists e2'.
Qed.

Lemma psim_on_mem {A} (c : M mem A) : framed c → psim (on_mem c) (on_mem c).
Proof.
  intros Hc. rewrite /on_mem. split.
  - intros e1 r e1' E. destruct (c (e_mem e1)) as [[a m]|]; [|done]. simplify_eq. split; [done|by exists a].
  - intros [m1 t w ap] e2 r e1' [E1 E2 E3 E4 E5 E6] E Hf. simpl in *. destruct (c m1) as [[a m]|] eqn:Ec; [|done]. simplify_eq/=.
    destruct (Hc _ _ _ (filled t) Ec) as [E Hd]; [by apply filled_disjoint|]. rewrite E5 E. eexists. split; [done|]. split; simpl; try done.
    apply map_disjoint_spec. intros x v v' Hv Hv'. assert (is_Some (filled t !! x)) as [w' Hw'].
    { rewrite /filled lookup_blit. case_decide; [apply lookup_lt_is_Some_2; lia|by eexists]. }
    by eapply (proj1 (map_disjoint_spec _ _) Hd).
Qed.

(** One more character *)
Lemma output_char (m : mem) t c : fits (t ++ [c]) → m ##ₘ B →
  (if zlen (upto len t) <? len then
     match store (str + zlen (upto len t)) c (m ∪ filled t) with
     | Some (_, m) => Some (m, OutputArgs str len (zlen (upto len t) + 1))
     | None => None
     end
   else Some (m ∪ filled t, OutputArgs str len (zlen (upto len t)))) =
  Some (m ∪ filled (t ++ [c]), OutputArgs str len (zlen (upto len (t ++ [c])))).
Proof.
  intros Hf Hd. pose proof (length_upto t) as Hl. rewrite /fits length_app /= in Hf. destruct (Z.ltb_spec (zlen (upto len t)) len).
  - assert (upto len t = t) as E by (apply take_ge; lia). assert (upto len (t ++ [c]) = t ++ [c]) as E' by (apply take_ge; rewrite length_app /=; lia).
    rewrite /filled E E' length_app /=. set (x := str + zlen t). assert (is_Some (B !! x)) as [b Hb] by (apply HB; lia).
    assert (m !! x = None) as Hm by (by eapply map_disjoint_Some_r). assert (blit str t B !! x = Some b) as Hx by (rewrite lookup_blit_ne //; lia).
    rewrite /store /mbind /M_bind /load /deref lookup_union_r // Hx /=. rewrite insert_union_r // blit_app /=. do 3 f_equal. lia.
  - assert (upto len (t ++ [c]) = upto len t) as E by (apply take_app_le; lia). by rewrite /filled E.
Qed.

Lemma output_spec s (m : mem) t : fits (t ++ s) → m ##ₘ B →
  _vsnprintf_output s (m ∪ filled t, OutputArgs str len (zlen (upto len t))) =
    Some (zlen s, (m ∪ filled (t ++ s), OutputArgs str len (zlen (upto len (t ++ s))))).
Proof.
  revert t. induction s as [|c s IH]; intros t Hf Hd; cbn [_vsnprintf_output]; [by rewrite app_nil_r|].
  rewrite (cons_middle c t s) app_assoc in Hf |- *. assert (fits (t ++ [c])) as Hf' by (eapply fits_prefix; [by eexists|done]).
  pose proof (output_char m t c Hf' Hd) as E. cbn [o_pos o_len outstr] in *. rewrite E. cbn [mbind option_bind]. rewrite IH //. cbn [mbind option_bind]. do 2 f_equal. simpl. lia.
Qed.

Lemma psim_output s : psim (OUTPUT_STRING collect s) (OUTPUT_STRING _vsnprintf_output s).
Proof.
  rewrite /OUTPUT_STRING /collect /=. rewrite (proj2 (Z.ltb_ge (zlen s) 0)); [|lia]. split.
  - intros e1 r e1' [= <- <-]. by split; eexists.
  - intros [m1 t w ap] e2 r e1' [E1 E2 E3 E4 E5 E6] [= <- <-] Hf. simpl in *. rewrite E5 E6 output_spec //. rewrite (proj2 (Z.ltb_ge (zlen s) 0)); [|lia].
    eexists. split; [done|]. split; simpl; try done; [by rewrite E1|]. rewrite E2 length_app Nat2Z.inj_add. rewrite /u64. by rewrite Z.add_mod_idemp_l.
Qed.

(** ** The whole engine *)

Lemma psim_of_option {A} (o : option A) : psim (of_option o) (of_option o).
Proof. rewrite /of_option. destruct o; [apply psim_ret|apply psim_fail]. Qed.

Lemma psim_va_int : psim va_int va_int.
Proof.
  rewrite /va_int. split.
  - intros e1 r e1' E. destruct (e_args e1) as [|[z|d] l]; simplify_eq. split; [done|by eexists].
  - intros [m1 t w ap] e2 r e1' [E1 E2 E3 E4 E5 E6] E Hf. simpl in *. rewrite E3. destruct ap as [|[z|d] l]; simplify_eq. eexists. by split.
Qed.

Lemma psim_va_double : psim va_double va_double.
Proof.
  rewrite /va_double. split.
  - intros e1 r e1' E. destruct (e_args e1) as [|[z|d] l]; simplify_eq. split; [done|by eexists].
  - intros [m1 t w ap] e2 r e1' [E1 E2 E3 E4 E5 E6] E Hf. simpl in *. rewrite E3. destruct ap as [|[z|d] l]; simplify_eq. eexists. by split.
Qed.

Lemma psim_written : psim written written.
Proof. split; [intros e1 r e1' [= <- <-]; split; [done|by eexists]|]. intros e1 e2 r e1' Hr [= <- <-] _. exists e2. rewrite /written (rel_written _ _ Hr). by split. Qed.

Lemma psim_char c : psim (OUTPUT_CHAR collect c) (OUTPUT_CHAR _vsnprintf_output c).
Proof. apply psim_bind; [apply psim_output|]. intros _. apply psim_ret. Qed.

Lemma psim_chars n c : psim (OUTPUT_CHARS collect n c) (OUTPUT_CHARS _vsnprintf_output n c).
Proof. induction n as [|n IH]; [apply psim_ret|]. apply psim_bind; [apply psim_char|]. by intros _. Qed.

Create HintDb psim.
Hint Resolve psim_ret psim_of_option psim_va_int psim_va_double psim_written psim_output psim_char psim_chars : psim.
Hint Extern 2 (psim (on_mem _) _) => apply psim_on_mem : psim.
Hint Resolve framed_store_bytes framed_scan framed_read framed_next : psim.

(** Follows the structure of the two computations. *)
Ltac follow := repeat match goal with
  | |- psim (mbind _ _) _ => apply psim_bind; [eauto with psim; try done|intros ?]
  | |- psim (if ?b then _ else _) _ => destruct b
  | |- psim (let '(_, _) := ?x in _) _ => destruct x
  | |- psim _ _ => solve [eauto with psim]
  end.

Lemma psim_output_string s flags num signchar c :
  psim (output_string collect s flags num signchar c) (output_string _vsnprintf_output s flags num signchar c).
Proof. rewrite /output_string. cbv zeta. follow. Qed.

Hint Resolve psim_output_string : psim.

Lemma psim_hex flags num : psim (hex_conversion collect flags num) (hex_conversion _vsnprintf_output flags num).
Proof. rewrite /hex_conversion. cbv zeta. follow. Qed.

Hint Resolve psim_hex : psim.

Lemma psim_convert bound c flags num : psim (convert collect bound c flags num) (convert _vsnprintf_output bound c flags num).
Proof. rewrite /convert. cbv zeta. follow. Qed.

Hint Resolve psim_convert : psim.

Lemma psim_engine fuel bound fmt : psim (engine_loop collect fuel bound fmt) (engine_loop _vsnprintf_output fuel bound fmt).
Proof. revert fmt. induction fuel as [|fuel IH]; intros fmt; cbn [engine_loop]; [apply psim_fail|]. follow. Qed.

(** What [vsnprintf] leaves in the buffer *)
Definition printed (t : list Z) : mem := if len =? 0 then B else blit str (upto (len - 1) t ++ [0]) B.

Lemma run_vsnprintf bound fmt ap (m m' : mem) t n :
  _printf_engine collect bound fmt ap m [] = Some (n, (m', t)) → m ##ₘ B → zlen t < 2 ^ 31 → fits t →
  n = zlen t ∧ vsnprintf bound str len fmt ap (m ∪ B) = Some (n, m' ∪ printed t) ∧ m' ##ₘ B.
Proof.
  intros E Hd Ht Hf. rewrite /_printf_engine in E. destruct (engine_loop collect bound bound fmt (Engine m [] 0 ap)) as [[r e1]|] eqn:Ee; [|done].
  assert (related (Engine m [] 0 ap) (Engine (m ∪ B) (OutputArgs str len 0) 0 ap)) as Hr.
  { split; try done; simpl; [by rewrite /filled take_nil|by rewrite take_nil]. }
  assert (e_out e1 = t ∧ e_mem e1 = m') as [Eo Em] by (destruct r; by simplify_eq).
  destruct (psim_engine bound bound fmt) as [Hgo Hs]. destruct (Hgo _ _ _ Ee) as [_ [[] ->]].
  destruct (Hs _ _ _ _ Hr Ee) as (e2 & Ee2 & [E1 E2 E3 E4 E5 E6]); [by rewrite Eo|].
  rewrite Eo Em in E2 E4 E5 E6. injection E as <- _ _. assert (s32 (e_written e1) = zlen t) as En by (rewrite E2 u64_small ?s32_small; lia).
  rewrite En. split_and!; [done| |done]. rewrite /vsnprintf /_printf_engine Ee2 E1 En E5 E6. cbn [mbind option_bind o_pos]. rewrite /printed.
  pose proof (length_upto t) as Hl. rewrite /fits in Hf. destruct (Z.eqb_spec len 0) as [El|Hne]; [rewrite /filled El take_0 //|].
  assert (∀ k, 0 ≤ k < cap → store (str + k) 0 (m' ∪ filled t) = Some ((), m' ∪ <[str + k := 0]> (filled t))) as Hst.
  { intros k Hk. assert (is_Some (B !! (str + k))) as [b Hb] by (apply HB; lia). assert (m' !! (str + k) = None) as Hn by (by eapply map_disjoint_Some_r).
    assert (is_Some (filled t !! (str + k))) as [b' Hb']. { rewrite /filled lookup_blit. case_decide; [apply lookup_lt_is_Some_2; lia|by eexists]. }
    by rewrite /store /mbind /M_bind /load /deref lookup_union_r // Hb' /= /modify insert_union_r. }
  destruct (Z.leb_spec len (zlen (upto len t))) as [Hle|Hgt]; (rewrite Hst; [|lia]); do 3 f_equal; rewrite /filled.
  - apply overwrite_last. lia.
  - rewrite !take_ge; [|lia..]. by rewrite blit_app.
Qed.
End sim.
