(* ===== verification/PrintfSpec.v ===== *)
(** * Numbers printed and read back

    What the engine prints for an integer, with a width and a zero flag or without, is
    the numeral that [strtol] reads; what it prints for a pointer is what [strtoul]
    reads. *)

From S2P Require Import Prelude Bytes Mem Libc LibcMem LibcStr Strto StrtoSpec Printf PrintfSim.

(** ** The engine with collected output *)

(** The computation goes on, with a result and in a state of which [Q] holds. *)
Definition pwp {A} (c : P (list Z) A) (Q : A → engine (list Z) → Prop) (e : engine (list Z)) : Prop :=
  match c e with Some (Go a, e') => Q a e' | _ => False end.

Lemma pwp_ret {A} (a : A) (Q : A → engine (list Z) → Prop) e : Q a e → pwp (mret a) Q e.
Proof. done. Qed.

Lemma pwp_bind {A C} (c : P (list Z) A) (k : A → P (list Z) C) (Q : C → engine (list Z) → Prop) e : pwp c (λ a, pwp (k a) Q) e → pwp (c ≫= k) Q e.
Proof. rewrite /pwp /mbind /P_bind. by destruct (c e) as [[[a|err] e']|]. Qed.

Lemma pwp_mono {A} (c : P (list Z) A) (Q Q' : A → engine (list Z) → Prop) e : pwp c Q e → (∀ a e', Q a e' → Q' a e') → pwp c Q' e.
Proof. rewrite /pwp. destruct (c e) as [[[a|err] e']|]; naive_solver. Qed.

Lemma pwp_on_mem {A} (c : M mem A) (Q : A → engine (list Z) → Prop) m t w ap :
  wp c (λ a m', Q a (Engine m' t w ap)) m → pwp (on_mem c) Q (Engine m t w ap).
Proof. rewrite /wp /pwp /on_mem /=. by destruct (c m) as [[a m']|]. Qed.

Lemma pwp_of_option {A} (o : option A) a (Q : A → engine (list Z) → Prop) e : o = Some a → Q a e → pwp (of_option o) Q e.
Proof. by intros ->. Qed.

Lemma pwp_va_int z ap (Q : Z → engine (list Z) → Prop) m t w : Q z (Engine m t w ap) → pwp va_int Q (Engine m t w (ArgInt z :: ap)).
Proof. done. Qed.

(** The state after the output of [s] *)
Definition said (s : list Z) (e : engine (list Z)) : engine (list Z) := Engine (e_mem e) (e_out e ++ s) (u64 (e_written e + zlen s)) (e_args e).

Lemma said_said s s' e : said s' (said s e) = said (s ++ s') e.
Proof.
  rewrite /said /= app_assoc length_app. f_equal. rewrite /u64 Z.add_mod_idemp_l //. f_equal. lia.
Qed.

Lemma said_nil e : e_written e = u64 (e_written e) → said [] e = e.
Proof. destruct e. rewrite /said /= app_nil_r Z.add_0_r. by intros <-. Qed.

Lemma pwp_output s (Q : Z → engine (list Z) → Prop) e : Q (zlen s) (said s e) → pwp (OUTPUT_STRING collect s) Q e.
Proof. rewrite /pwp /OUTPUT_STRING /collect /=. by rewrite (proj2 (Z.ltb_ge (zlen s) 0)); [|lia]. Qed.

Lemma pwp_char c (Q : unit → engine (list Z) → Prop) e : Q () (said [c] e) → pwp (OUTPUT_CHAR collect c) Q e.
Proof. intros HQ. apply pwp_bind, pwp_output. by apply pwp_ret. Qed.

Lemma pwp_chars n c (Q : unit → engine (list Z) → Prop) e : e_written e = u64 (e_written e) → Q () (said (replicate n c) e) → pwp (OUTPUT_CHARS collect n c) Q e.
Proof.
  revert e. induction n as [|n IH]; intros e He HQ; simpl in *; [apply pwp_ret; by rewrite said_nil in HQ|].
  apply pwp_bind, pwp_char, IH; [simpl; by rewrite /u64 Z.mod_mod|]. by rewrite said_said.
Qed.

(** ** Output with a width *)

(** What is printed for a number with the sign [sg], nothing or one character, and with
    no "0x" in front of it *)
Definition padded (zero : bool) (num : Z) (sg ds : list Z) : list Z :=
  let k := Z.to_nat (num - zlen sg - zlen ds) in
  if zero then sg ++ replicate k 48 ++ ds else replicate k 32 ++ sg ++ ds.

Lemma length_padded zero num sg ds : zlen (padded zero num sg ds) = Z.max num (zlen sg + zlen ds).
Proof. rewrite /padded. destruct zero; rewrite !length_app length_replicate; lia. Qed.

Lemma pwp_output_string ds flags num signchar c (Q : unit → engine (list Z) → Prop) e :
  flagged flags LEFTFORMATFLAG = false → (c =? 120) && flagged flags ALTFLAG = false → e_written e = u64 (e_written e) → 0 ≤ num →
  Q () (said (padded (flagged flags LEADZEROFLAG) num (if signchar =? 0 then [] else [signchar]) ds) e) →
  pwp (output_string collect ds flags num signchar c) Q e.
Proof.
  intros Hleft Halt He Hnum HQ. rewrite /output_string Hleft. cbv zeta. rewrite Halt. set (z := flagged flags LEADZEROFLAG) in *.
  assert (∀ s, e_written (said s e) = u64 (e_written (said s e))) as Hs by (intros s; rewrite /= /u64 Z.mod_mod //).
  assert (Z.to_nat ((if negb (signchar =? 0) && (0 <? num) then num - 1 else num) - zlen ds) =
    Z.to_nat (num - zlen (if signchar =? 0 then [] else [signchar]) - zlen ds)) as Ek.
  { destruct (signchar =? 0); simpl; [lia|]. destruct (Z.ltb_spec 0 num); lia. }
  rewrite /padded -Ek in HQ. set (k := Z.to_nat _) in *. apply pwp_bind. destruct z, (signchar =? 0); cbn [app negb andb] in HQ |- *.
  - apply pwp_ret, pwp_bind, pwp_ret, pwp_bind, pwp_chars; [done|]. apply pwp_bind, pwp_ret, pwp_bind, pwp_output, pwp_ret. by rewrite said_said.
  - apply pwp_char, pwp_bind, pwp_ret, pwp_bind, pwp_chars; [done|]. apply pwp_bind, pwp_ret, pwp_bind, pwp_output, pwp_ret. by rewrite !said_said.
  - apply pwp_ret, pwp_bind, pwp_ret, pwp_bind, pwp_chars; [done|]. apply pwp_bind, pwp_ret, pwp_bind, pwp_output, pwp_ret. by rewrite said_said.
  - apply pwp_ret, pwp_bind, pwp_ret, pwp_bind, pwp_chars; [done|]. apply pwp_bind, pwp_char, pwp_bind, pwp_output, pwp_ret. by rewrite !said_said.
Qed.

(** ** Formats *)

(** The digits of a width, once one that is not zero has been read *)
Lemma wp_width fuel fmt flags num ws vs t m (Q : Z * Z * Z * Z → mem → Prop) :
  cstring m fmt (ws ++ t) → digits 10 ws vs → 0 < num → numeral 10 num vs < 2 ^ 32 → (length ws ≤ fuel)%nat →
  wp (next_format (fuel - length ws) (fmt + zlen ws) flags (numeral 10 num vs)) Q m → wp (next_format fuel fmt flags num) Q m.
Proof.
  intros H Hds. revert fuel fmt num H. induction Hds as [|c v ws vs [Hc Hv] Hds IH]; intros fuel fmt num H Hnum Hb Hf HQ; [by rewrite Nat.sub_0_r Z.add_0_r in HQ|].
  destruct fuel as [|fuel]; [simpl in Hf; lia|]. apply cstring_cons in H as (Ec & _ & H). cbn [next_format]. load.
  destruct (digit_val_decimal c v Hc Hv) as [Hdig ->]. pose proof (digit_val_range _ _ Hc). cbv zeta. rewrite /isdigit in Hdig. rewrite Hdig.
  rewrite (proj2 (Z.eqb_neq num 0)); [|lia]. rewrite andb_false_r. pose proof (numeral_ge 10 (num * 10 + (c - 48)) ws vs Hds ltac:(lia) ltac:(lia)) as Hge.
  simpl in Hb. rewrite !u32_small; [|lia..]. apply (IH fuel); [done|lia|done|simpl in Hf; lia|].
  simpl in HQ. rewrite (_ : fmt + 1 + zlen ws = fmt + Z.of_nat (S (length ws))); [done|lia].
Qed.

(** The zero flag and the width, as they are written *)
Inductive width : list Z → bool → Z → Prop :=
  | width_none : width [] false 0
  | width_zero : width [48] true 0
  | width_some ws vs v : digits 10 ws (v :: vs) → 0 < v → numeral 10 0 (v :: vs) < 2 ^ 32 → width ws false (numeral 10 0 (v :: vs))
  | width_padded ws vs v : digits 10 ws (v :: vs) → 0 < v → numeral 10 0 (v :: vs) < 2 ^ 32 → width (48 :: ws) true (numeral 10 0 (v :: vs)).

Definition zero_flag (zero : bool) : Z := if zero then LEADZEROFLAG else 0.

(** A width whose first digit is not zero *)
Lemma wp_width_first fuel fmt flags ws vs v t m (Q : Z * Z * Z * Z → mem → Prop) :
  cstring m fmt (ws ++ t) → digits 10 ws (v :: vs) → 0 < v → numeral 10 0 (v :: vs) < 2 ^ 32 → (length ws ≤ fuel)%nat →
  wp (next_format (fuel - length ws) (fmt + zlen ws) flags (numeral 10 0 (v :: vs))) Q m → wp (next_format fuel fmt flags 0) Q m.
Proof.
  intros H Hds Hpos Hb Hf HQ. inversion Hds as [|c v' ws' vs' [Hc Hv] Hds']; subst. destruct fuel as [|fuel]; [simpl in Hf; lia|].
  apply cstring_cons in H as (Ec & _ & H). cbn [next_format]. load. destruct (digit_val_decimal c v Hc Hv) as [Hdig ->]. cbv zeta.
  rewrite /isdigit in Hdig. rewrite Hdig. rewrite (proj2 (Z.eqb_neq c 48)); [|lia]. rewrite andb_false_l. rewrite (u32_small (0 * 10)) //.
  rewrite u32_small; [|lia]. apply (wp_width fuel _ _ _ ws' vs t); [done|done|lia|done|simpl in Hf; lia|].
  simpl in HQ |- *. rewrite (_ : fmt + 1 + zlen ws' = fmt + Z.of_nat (S (length ws'))); [done|lia].
Qed.

Lemma wp_next_width fuel fmt ws zero num t m (Q : Z * Z * Z * Z → mem → Prop) :
  cstring m fmt (ws ++ t) → width ws zero num → (length ws ≤ fuel)%nat →
  wp (next_format (fuel - length ws) (fmt + zlen ws) (zero_flag zero) num) Q m → wp (next_format fuel fmt 0 0) Q m.
Proof.
  intros H Hw Hf HQ. destruct Hw as [| |ws vs v Hds Hv Hb|ws vs v Hds Hv Hb].
  - by rewrite Nat.sub_0_r Z.add_0_r in HQ.
  - destruct fuel as [|fuel]; [simpl in Hf; lia|]. apply cstring_cons in H as (Ec & _ & H). cbn [next_format]. load. cbv zeta. simpl.
    simpl in HQ. by rewrite Nat.sub_0_r in HQ.
  - by eapply wp_width_first.
  - destruct fuel as [|fuel]; [simpl in Hf; lia|]. apply cstring_cons in H as (Ec & _ & H). cbn [next_format]. load. cbv zeta. simpl.
    eapply wp_width_first; [done|done|done|done|simpl in Hf; lia|]. simpl in HQ |- *. rewrite (_ : fmt + 1 + zlen ws = fmt + Z.of_nat (S (length ws))); [done|lia].
Qed.

(** ** Signed numbers *)

Lemma u64_signed n : - 2 ^ 63 ≤ n < 2 ^ 63 → u64 n = if n <? 0 then n + 2 ^ 64 else n.
Proof.
  intros. destruct (Z.ltb_spec n 0); [|apply u64_small; lia]. rewrite /u64 -(Z.mod_add n 1) // Z.mod_small; lia.
Qed.

Lemma s64_u64 n : - 2 ^ 63 ≤ n < 2 ^ 63 → s64 (u64 n) = n.
Proof.
  intros. rewrite u64_signed //. destruct (Z.ltb_spec n 0); [|apply s64_small; lia].
  rewrite (_ : n + 2 ^ 64 = n + 1 * 2 ^ 64) // s64_cong s64_small; lia.
Qed.

(** The sign and the digits of a number *)
Definition sign_of (n : Z) : list Z := if n <? 0 then [45] else [].

Lemma wp_scan_end fuel fmt t c m : cstring m fmt t → first t = c → c = 0 ∨ c = 37 → (0 < fuel)%nat → wp (scan_literal fuel fmt) (λ r m', r = ([], c, fmt + 1) ∧ m' = m) m.
Proof.
  intros H Hc Hcase Hf. destruct fuel as [|fuel]; [lia|]. cbn [scan_literal]. apply wp_bind. eapply wp_load; [by apply cstring_first|]. rewrite Hc.
  destruct Hcase as [-> | ->]; by apply wp_ret.
Qed.

Lemma pwp_signed fuel flags num n (Q : unit → engine (list Z) → Prop) m t w ap :
  - 2 ^ 63 ≤ n < 2 ^ 63 → signed_arg flags n = u64 n →
  flagged (Z.lor flags SIGNEDFLAG) LEFTFORMATFLAG = false → flagged (Z.lor flags SIGNEDFLAG) SHOWSIGNFLAG = false →
  flagged (Z.lor flags SIGNEDFLAG) BLANKPOSFLAG = false → flagged (Z.lor flags SIGNEDFLAG) SIGNEDFLAG = true →
  w = u64 w → 0 ≤ num →
  (∀ ds vs, digits 10 ds vs → ds ≠ [] → numeral 10 0 vs = Z.abs n → (length ds ≤ 21)%nat →
    Q () (said (padded (flagged (Z.lor flags SIGNEDFLAG) LEADZEROFLAG) num (sign_of n) ds) (Engine m t w ap))) →
  pwp (convert collect fuel 100 flags num) Q (Engine m t w (ArgInt n :: ap)).
Proof.
  intros Hn Harg F1 F2 F3 F4 Hw Hnum HQ. rewrite /convert /=. apply pwp_bind, pwp_va_int. cbv zeta. rewrite Harg.
  destruct (longlong_to_string_spec num_buffer (u64 n) 32 (Z.lor flags SIGNEDFLAG)) as (buf & pos & ds & vs & E & Htext & Hds & Hne & _ & Hval & _ & _ & Hlen & _).
  { apply u64_range. }
  { done. }
  rewrite F2 F3 F4 s64_u64 // andb_true_l in E Hval. apply pwp_bind. eapply pwp_of_option; [exact E|]. apply pwp_bind. eapply pwp_of_option; [exact Htext|].
  apply pwp_output_string; [done|done|done|done|]. rewrite (_ : (if (if n <? 0 then 45 else 0) =? 0 then [] else [if n <? 0 then 45 else 0]) = sign_of n).
  2: { rewrite /sign_of. by destruct (n <? 0). }
  apply (HQ ds vs); [done|done| |done]. rewrite Hval (u64_signed n) //. destruct (Z.ltb_spec n 0).
  - rewrite /u64 -(Z.mod_add _ 1) // Z.mod_small; lia.
  - lia.
Qed.

Lemma engine_loop_S fuel bound fmt :
  engine_loop collect (S fuel) bound fmt =
    ('(s, c, fmt) ← on_mem (scan_literal bound fmt);
     OUTPUT_STRING collect s;;
     if c =? 0 then mret ()
     else
       '(c, flags, format_num, fmt) ← on_mem (next_format bound fmt 0 0);
       if c =? 0 then mret () else convert collect bound c flags format_num;; engine_loop collect fuel bound fmt).
Proof. done. Qed.

(** Nothing is left of the format. *)
Lemma pwp_engine_end fuel bound fmt (Q : unit → engine (list Z) → Prop) m t w ap :
  cstring m fmt [] → (0 < fuel)%nat → (0 < bound)%nat → w = u64 w → Q () (Engine m t w ap) → pwp (engine_loop collect fuel bound fmt) Q (Engine m t w ap).
Proof.
  intros H Hf Hb Hw HQ. destruct fuel as [|fuel]; [lia|]. rewrite engine_loop_S. apply pwp_bind, pwp_on_mem.
  eapply wp_mono; [by apply (wp_scan_end _ _ [] 0); [done|done|left|lia]|]. intros r m' [-> ->]. apply pwp_bind, pwp_output. by rewrite said_nil.
Qed.

(** One conversion is all of the format: [c] is its last character, and it leaves the
    memory alone. *)
Lemma pwp_engine_one bound fmt ws zero num spec c flags (m : mem) ap (Q : unit → engine (list Z) → Prop) :
  cstring m fmt (37 :: ws ++ spec) → width ws zero num → (length ws + length spec + 1 ≤ bound)%nat → c ≠ 0 → spec ≠ [] →
  (∀ k a, cstring m a spec → (length spec ≤ k)%nat →
    wp (next_format k a (zero_flag zero) num) (λ r m', r = (c, flags, num, a + zlen spec) ∧ m' = m) m) →
  pwp (convert collect bound c flags num) (λ r e, e_mem e = m ∧ e_written e = u64 (e_written e) ∧ Q r e) (Engine m [] 0 ap) →
  pwp (engine_loop collect bound bound fmt) Q (Engine m [] 0 ap).
Proof.
  intros Hfmt Hw Hb Hc Hspec Hnext Hconv. destruct bound as [|bound']; [lia|]. set (bound := S bound') in *. rewrite {1}/bound engine_loop_S. apply pwp_bind, pwp_on_mem.
  eapply wp_mono; [by eapply (wp_scan_end _ _ _ 37); [done|done|right|lia]|]. intros r m' [-> ->]. apply pwp_bind, pwp_output. rewrite said_nil; [|done].
  apply cstring_cons in Hfmt as (_ & _ & Hfmt). change (37 =? 0) with false. apply pwp_bind, pwp_on_mem. eapply (wp_next_width _ _ ws); [done|done|lia|].
  apply cstring_app in Hfmt as (_ & _ & Hfmt). eapply wp_mono; [apply Hnext; [done|lia]|]. intros r m' [-> ->]. rewrite (proj2 (Z.eqb_neq c 0) Hc).
  apply pwp_bind. eapply pwp_mono; [exact Hconv|]. intros [] [m1 t w ap'] (Em & Hw' & HQ). simpl in Em, Hw'. subst m1.
  apply pwp_engine_end; [|destruct spec; [done|]; unfold bound in Hb; simpl in Hb; lia|unfold bound; lia|done|done]. rewrite -(app_nil_r spec) in Hfmt. by apply cstring_app in Hfmt as (_ & _ & ?).
Qed.

(** Format "%ld", with a width: the number, padded, and nothing else *)
Lemma engine_ld bound fmt ws zero num n (m : mem) :
  cstring m fmt (37 :: ws ++ [108; 100]) → width ws zero num → num < 2 ^ 31 - 30 → - 2 ^ 63 ≤ n < 2 ^ 63 → (length ws + 3 ≤ bound)%nat →
  ∃ ds vs, digits 10 ds vs ∧ ds ≠ [] ∧ numeral 10 0 vs = Z.abs n ∧ zlen (padded zero num (sign_of n) ds) < 2 ^ 31 ∧
    _printf_engine collect bound fmt [ArgInt n] m [] = Some (zlen (padded zero num (sign_of n) ds), (m, padded zero num (sign_of n) ds)) ∧ (length ds ≤ 21)%nat.
Proof.
  intros Hfmt Hw Hnum Hn Hb. assert (0 ≤ num) as Hnum0.
  { destruct Hw as [| |ws vs v Hds Hv _|ws vs v Hds Hv _]; [done|done|..]; apply (numeral_ge 10 0 ws); done. }
  assert (pwp (engine_loop collect bound bound fmt) (λ _ e, ∃ ds vs, digits 10 ds vs ∧ ds ≠ [] ∧ numeral 10 0 vs = Z.abs n ∧ (length ds ≤ 21)%nat ∧
    e = said (padded zero num (sign_of n) ds) (Engine m [] 0 [])) (Engine m [] 0 [ArgInt n])) as Hrun.
  { eapply (pwp_engine_one _ _ ws zero num [108; 100] 100 (Z.lor (zero_flag zero) LONGFLAG)); [done|done|simpl; lia|done|done| |].
    - intros k a H Hk. destruct k as [|[|k]]; [simpl in Hk; lia..|]. apply cstring_cons in H as (H1 & _ & H). apply cstring_cons in H as (H2 & _ & _).
      cbn [next_format]. load. cbv zeta. cbn -[next_format zero_flag]. cbn [next_format]. load. cbv zeta. apply wp_ret. split; [|done]. f_equal; [|simpl; lia]. by destruct zero.
    - assert (signed_arg (Z.lor (zero_flag zero) LONGFLAG) n = u64 (s64 n)) as Harg by (by destruct zero). rewrite s64_small // in Harg.
      apply pwp_signed; [done|done|by destruct zero..|done|done|]. intros ds vs Hds Hne Hval Hlen. split_and!; [done|simpl; by rewrite /u64 Z.mod_mod|].
      exists ds, vs. split_and!; [done..|]. by destruct zero. }
  rewrite /pwp in Hrun. destruct (engine_loop collect bound bound fmt _) as [[[[]|err] e]|] eqn:E; [|done|done].
  destruct Hrun as (ds & vs & Hds & Hne & Hval & Hlen & ->). exists ds, vs. set (t := padded _ _ _ _).
  assert (zlen t < 2 ^ 31) as Ht.
  { rewrite /t length_padded. assert (zlen (sign_of n) ≤ 1) by (rewrite /sign_of; destruct (n <? 0); simpl; lia). lia. }
  split_and!; [done..| |done]. rewrite /_printf_engine E. cbn [said e_written e_mem e_out app]. rewrite -/t Z.add_0_l u64_small; [|lia]. by rewrite s32_small; [|lia].
Qed.

(** ** Reading back *)

Lemma digits_zeros base k ds vs : 2 ≤ base → digits base ds vs → digits base (replicate k 48 ++ ds) (replicate k 0 ++ vs).
Proof. intros Hb Hds. apply Forall2_app; [|done]. apply Forall2_replicate. split; [done|lia]. Qed.

Lemma numeral_zeros base k vs : numeral base 0 (replicate k 0 ++ vs) = numeral base 0 vs.
Proof. induction k as [|k IH]; [done|]. done. Qed.

Lemma signed_sign_of n : signed (sign_of n) (n <? 0).
Proof. rewrite /sign_of. destruct (n <? 0); constructor. Qed.

Lemma clamp_abs n : - 2 ^ 63 ≤ n < 2 ^ 63 → clamp (n <? 0) (Z.abs n) = (n, None).
Proof.
  intros. rewrite /clamp /in_range. destruct (Z.ltb_spec n 0).
  - rewrite (proj2 (Z.leb_le _ _)); [|lia]. f_equal. lia.
  - rewrite (proj2 (Z.ltb_lt _ _)); [|lia]. f_equal. lia.
Qed.

(** [strtol] reads a padded number, to its end. *)
Lemma wp_strtol_padded a zero num n ds vs m :
  cstring m a (padded zero num (sign_of n) ds) → - 2 ^ 63 ≤ n < 2 ^ 63 → digits 10 ds vs → ds ≠ [] → numeral 10 0 vs = Z.abs n →
  wp (strtol a 10) (λ r m', m' = m ∧ r = (n, a + zlen (padded zero num (sign_of n) ds), None)) m.
Proof.
  intros H Hn Hds Hne Hval. rewrite /padded in H |- *. set (k := Z.to_nat _) in *.
  assert (∃ ws sp zs, (if zero then sign_of n ++ replicate k 48 ++ ds else replicate k 32 ++ sign_of n ++ ds) = ws ++ sign_of n ++ [] ++ sp ++ [] ∧
    Forall (λ c, isspace c = true) ws ∧ digits 10 sp zs ∧ sp ≠ [] ∧ numeral 10 0 zs = Z.abs n) as (ws & sp & zs & E & Hws & Hsp & Hspne & Hzs).
  { destruct zero.
    - exists [], (replicate k 48 ++ ds), (replicate k 0 ++ vs). split_and!; [by rewrite app_nil_r|done|by apply digits_zeros|by destruct k|by rewrite numeral_zeros].
    - exists (replicate k 32), ds, vs. split_and!; [by rewrite app_nil_r|by apply Forall_replicate|done|done|done]. }
  rewrite E in H |- *. eapply wp_mono; [apply (wp_strto a 10 ws (sign_of n) (n <? 0) [] sp zs [] 10)|]; [done|done|apply signed_sign_of| |done|done|done|].
  - by apply radix_given.
  - intros [[v e] err] m' (-> & Ecl & ->). rewrite Hzs clamp_abs // in Ecl. injection Ecl as <- <-. by rewrite !app_nil_r.
Qed.

(** The text that [vsnprintf] has left in a buffer that is large enough *)
Lemma printed_cstring (m B : mem) str len t : m ##ₘ B → mapped B str len → zlen t < len → 0 ∉ t → cstring (m ∪ printed str len B t) str t.
Proof.
  intros Hd HB Hlen H0. rewrite /printed. rewrite (proj2 (Z.eqb_neq len 0)); [|lia]. rewrite take_ge; [|lia]. split; [|done].
  intros i b Hi. pose proof (lookup_lt_Some _ _ _ Hi) as Hl. rewrite length_app /= in Hl. destruct (HB (str + Z.of_nat i)) as [b' Hb']; [lia|].
  rewrite lookup_union_r; [|by eapply map_disjoint_Some_r]. by apply has_blit_eq.
Qed.

Lemma padded_no_nul zero num n ds vs : digits 10 ds vs → 0 ∉ padded zero num (sign_of n) ds.
Proof.
  intros Hds%digits_no_nul. rewrite /padded /sign_of. destruct zero, (n <? 0); rewrite ?not_elem_of_app; repeat split; try done; rewrite ?elem_of_replicate; set_solver by lia.
Qed.

(** ** Pointers *)

(** What "%p" prints for an address *)
Definition pointer_text (n : Z) (ds : list Z) : list Z := if n =? 0 then ds else [48; 120] ++ ds.

Lemma pwp_pointer fuel n (Q : unit → engine (list Z) → Prop) m ap :
  0 ≤ n < 2 ^ 64 →
  (∀ ds vs, digits 16 ds vs → ds ≠ [] → canonical n vs → numeral 16 0 vs = n → (length ds ≤ 17)%nat → Q () (said (pointer_text n ds) (Engine m [] 0 ap))) →
  pwp (convert collect fuel 112 0 0) Q (Engine m [] 0 (ArgInt n :: ap)).
Proof.
  intros Hn HQ. change (pwp (hex_conversion collect (Z.lor SIZETFLAG ALTFLAG) 0) Q (Engine m [] 0 (ArgInt n :: ap))).
  rewrite /hex_conversion. apply pwp_bind, pwp_va_int. cbv zeta. change (unsigned_arg _ n) with (u64 n). rewrite u64_small //.
  destruct (longlong_to_hexstring_spec num_buffer n 32 (Z.lor SIZETFLAG ALTFLAG)) as (buf & pos & ds & vs & E & Htext & Hds & Hne & Hcan & Hval & Hlen); [done|done|].
  apply pwp_bind. eapply pwp_of_option; [exact E|]. apply pwp_bind. eapply pwp_of_option; [exact Htext|].
  specialize (HQ ds vs Hds Hne Hcan Hval Hlen). rewrite /pointer_text in HQ. destruct (n =? 0).
  - apply pwp_output_string; [done|done|done|done|]. rewrite /padded /= in HQ |- *. rewrite (_ : Z.to_nat (0 - 0 - zlen ds) = 0%nat); [done|lia].
  - rewrite /output_string. change (flagged _ LEFTFORMATFLAG) with false. cbv zeta. apply pwp_bind, pwp_ret, pwp_bind, pwp_bind, pwp_char, pwp_bind, pwp_char, pwp_ret.
    apply pwp_bind. rewrite (_ : Z.to_nat _ = 0%nat).
    + apply pwp_ret, pwp_bind, pwp_ret, pwp_bind, pwp_output, pwp_ret. by rewrite !said_said.
    + simpl. lia.
Qed.

Lemma engine_p bound fmt n (m : mem) :
  cstring m fmt [37; 112] → 0 ≤ n < 2 ^ 64 → (2 ≤ bound)%nat →
  ∃ ds vs, digits 16 ds vs ∧ ds ≠ [] ∧ canonical n vs ∧ numeral 16 0 vs = n ∧ zlen (pointer_text n ds) ≤ 19 ∧
    _printf_engine collect bound fmt [ArgInt n] m [] = Some (zlen (pointer_text n ds), (m, pointer_text n ds)).
Proof.
  intros Hfmt Hn Hb. assert (pwp (engine_loop collect bound bound fmt) (λ _ e, ∃ ds vs, digits 16 ds vs ∧ ds ≠ [] ∧ canonical n vs ∧ numeral 16 0 vs = n ∧ (length ds ≤ 17)%nat ∧
    e = said (pointer_text n ds) (Engine m [] 0 [])) (Engine m [] 0 [ArgInt n])) as Hrun.
  { eapply (pwp_engine_one _ _ [] false 0 [112] 112 0); [done|constructor|simpl; lia|done|done| |].
    - intros k a H Hk. destruct k as [|k]; [simpl in Hk; lia|]. apply cstring_cons in H as (H1 & _ & _). cbn [next_format]. load. by apply wp_ret.
    - apply pwp_pointer; [done|]. intros ds vs Hds Hne Hcan Hval Hlen. split_and!; [done|simpl; by rewrite /u64 Z.mod_mod|]. by exists ds, vs. }
  rewrite /pwp in Hrun. destruct (engine_loop collect bound bound fmt _) as [[[[]|err] e]|] eqn:E; [|done|done].
  destruct Hrun as (ds & vs & Hds & Hne & Hcan & Hval & Hlen & ->). exists ds, vs. set (t := pointer_text n ds).
  assert (zlen t ≤ 19) as Ht by (rewrite /t /pointer_text; destruct (n =? 0); simpl; lia).
  split_and!; [done..|]. rewrite /_printf_engine E. cbn [said e_written e_mem e_out app]. rewrite -/t Z.add_0_l u64_small; [|lia]. by rewrite s32_small; [|lia].
Qed.

Lemma pointer_no_nul n ds vs : digits 16 ds vs → 0 ∉ pointer_text n ds.
Proof. intros Hds%digits_no_nul. rewrite /pointer_text. destruct (n =? 0); [done|]. rewrite /= !not_elem_of_cons. done. Qed.

Lemma wp_strtoul_pointer a n ds vs m :
  cstring m a (pointer_text n ds) → 0 ≤ n < 2 ^ 64 → digits 16 ds vs → ds ≠ [] → canonical n vs → numeral 16 0 vs = n →
  wp (strtoul a 0) (λ r m', m' = m ∧ r = (n, Some (a + zlen (pointer_text n ds)), None)) m.
Proof.
  intros H Hn Hds Hne Hcan Hval. rewrite /pointer_text in H |- *. destruct (Z.eqb_spec n 0) as [->|Hnz].
  - assert (ds = [48]) as ->.
    { destruct Hcan as [[-> _]|(v & ws & -> & Hv)].
      - inversion Hds as [|c v ds' vs' [Hc _] Hds']; subst. inversion Hds'; subst. destruct (digit_val_decimal c 0 Hc) as [_ E]; [lia|]. f_equal. lia.
      - exfalso. inversion Hds as [|c v' ds' vs' [Hc Hlt] Hds']; subst. pose proof (numeral_ge 16 (0 * 16 + v) ds' ws Hds' ltac:(lia) ltac:(lia)). simpl in *. lia. }
    eapply wp_mono; [apply (wp_strtoul a 0 [] [] false [48] [] [] [] 8); [done|done|constructor|by apply uradix_oct|constructor|done|done]|].
    intros [[v e] err] m' (-> & (k & [= <- <-] & ->) & ->). done.
  - eapply wp_mono; [apply (wp_strtoul a 0 [] [] false [48; 120] ds vs [] 16)|]; [by rewrite app_nil_r|done|constructor|apply uradix_hex; auto|done|done|done|].
    intros [[v e] err] m' (-> & (k & Ecl & ->) & ->). rewrite Hval /uclamp (proj2 (Z.leb_le _ _)) in Ecl; [|rewrite /ULONG_MAX; lia]. by simplify_eq.
Qed.
