(* ===== verification/PrintfDouble.v ===== *)
(** * The strings of doubles

    Whatever the 64 bits, the text stays inside the buffer of 32 bytes and is
    terminated. *)

From Stdlib Require Import SpecFloat.
From S2P Require Import Prelude Bytes Mem Libc LibcMem LibcStr Strto StrtoSpec Printf PrintfSim.

(** The buffer, with a terminator in its last byte *)
Definition terminated (b : buffer) : Prop := length b = 32%nat ∧ b !! 31%nat = Some 0.

Lemma put_terminated i v b : 0 ≤ i < 31 → terminated b → ∃ b', put i v b = Some b' ∧ terminated b'.
Proof.
  intros Hi [Hl H31]. rewrite /put (proj2 (Z.leb_le _ _)); [|lia]. rewrite (proj2 (Z.ltb_lt _ _)); [|lia]. eexists. split; [done|]. split; [by rewrite length_insert|].
  rewrite list_lookup_insert_ne //. lia.
Qed.

Lemma upto_nul_some l : 0 ∈ l → is_Some (upto_nul l).
Proof.
  induction l as [|c l IH]; simpl; [by intros ?%elem_of_nil|]. destruct (Z.eqb_spec c 0); [by eexists|]. intros [?|Hin]%elem_of_cons; [done|].
  destruct (IH Hin) as [t ->]. by eexists.
Qed.

Lemma text_terminated pos b : terminated b → 0 ≤ pos ≤ 31 → is_Some (text_at pos b).
Proof.
  intros [Hl H31] Hp. rewrite /text_at (proj2 (Z.ltb_ge _ _)); [|lia]. apply upto_nul_some, list_elem_of_lookup. exists (31 - Z.to_nat pos)%nat.
  rewrite lookup_drop (_ : (Z.to_nat pos + (31 - Z.to_nat pos) = 31)%nat) //. lia.
Qed.

(** ** Writing upwards *)

Lemma OUT_fits c b pos : terminated b → 0 ≤ pos < 31 → ∃ b', OUT c (b, pos) = Some (b', pos + 1) ∧ terminated b'.
Proof. intros Hb Hp. rewrite /OUT /=. destruct (put_terminated pos c b Hp Hb) as (b' & -> & ?). by exists b'. Qed.

Lemma OUTSTR_fits str b pos : terminated b → 0 ≤ pos → pos + zlen str ≤ 31 → ∃ b', OUTSTR str (b, pos) = Some (b', pos + zlen str) ∧ terminated b'.
Proof.
  revert b pos. induction str as [|c str IH]; intros b pos Hb Hp Hl; simpl in *; [exists b; by rewrite Z.add_0_r|].
  destruct (OUT_fits c b pos) as (b' & -> & Hb'); [done|lia|]. simpl. destruct (IH b' (pos + 1)) as (b'' & -> & ?); [done|lia|lia|]. exists b''. split; [do 2 f_equal; lia|done].
Qed.

(** The end of the functions: a terminator, and the text from the start of the buffer *)
Lemma finish_fits b pos : terminated b → 0 ≤ pos < 31 → ∃ b' s, (buf ← put pos 0 b; Some (buf, 0)) = Some (b', 0) ∧ text_at 0 b' = Some s.
Proof.
  intros Hb Hp. destruct (put_terminated pos 0 b Hp Hb) as (b' & -> & Hb'). destruct (text_terminated 0 b' Hb') as [s Hs]; [lia|]. by exists b', s.
Qed.

Lemma num_buffer_terminated : terminated num_buffer.
Proof. done. Qed.

(** The sign in front *)
Lemma sign_fits (neg : bool) : ∃ b pos, (if neg then OUT 45 (num_buffer, 0) else Some (num_buffer, 0)) = Some (b, pos) ∧ terminated b ∧ 0 ≤ pos ≤ 1.
Proof.
  destruct neg; [|by exists num_buffer, 0]. destruct (OUT_fits 45 num_buffer 0) as (b & -> & Hb); [done|done|]. by exists b, 1.
Qed.

Lemma capital_length flag a b : length a = length b → length (capital flag a b) = length a.
Proof. rewrite /capital. by destruct (flagged flag CAPSFLAG). Qed.

(** ** %f *)

Lemma fraction_loop_fits fuel frac i b :
  0 ≤ frac < 10 ^ Z.of_nat fuel → terminated b → Z.of_nat fuel ≤ i ≤ 31 → ∃ b', fraction_loop fuel frac i b = Some b' ∧ terminated b'.
Proof.
  revert frac i b. induction fuel as [|fuel IH]; intros frac i b Hf Hb Hi; cbn [fraction_loop]; destruct (Z.eqb_spec frac 0); [by exists b|simpl in Hf; lia|by exists b|].
  destruct (put_terminated (i - 1) (frac mod 10 + 48) b) as (b' & -> & Hb'); [lia|done|]. cbn [mbind option_bind]. rewrite Nat2Z.inj_succ Z.pow_succ_r in Hf; [|lia].
  apply IH; [|done|lia]. split; [apply Z.div_pos; lia|apply Z.div_lt_upper_bound; lia].
Qed.

Lemma fraction_digits_range d u : 0 ≤ fraction_digits d u < 2 ^ 32.
Proof. rewrite /fraction_digits. destruct (SFadd _ _ _ _) as [| | |[] m e]; try done. apply u32_range. Qed.

(** The integer part ends where the point goes. *)
Lemma integer_fits b u flag : terminated b → 0 ≤ u < 2 ^ 64 →
  ∃ b' pos sg, longlong_to_string b u 25 flag = Some (b', pos, sg) ∧ terminated b' ∧ 3 ≤ pos ≤ 24.
Proof.
  intros [Hl H31] Hu. destruct (longlong_to_string_spec b u 25 flag) as (b' & pos & ds & vs & -> & _ & _ & _ & _ & _ & Hl' & -> & Hlen & Hdrop); [done|lia|].
  eexists _, _, _. split_and!; [done| |lia|lia]. split; [lia|].
  assert (b' !! 31%nat = drop (Z.to_nat (25 - 1 - zlen ds)) b' !! (7 + length ds)%nat) as ->.
  { rewrite lookup_drop. f_equal. lia. }
  rewrite Hdrop lookup_app_r; [|lia]. rewrite (_ : (7 + length ds - length ds = 7)%nat); [|lia]. simpl. by rewrite lookup_drop.
Qed.

Lemma OUTREV_fits c b pos : terminated b → 0 < pos ≤ 31 → ∃ b', OUTREV c (b, pos) = Some (b', pos - 1) ∧ terminated b'.
Proof. intros Hb Hp. rewrite /OUTREV /=. destruct (put_terminated (pos - 1) c b) as (b' & -> & ?); [lia|done|]. by exists b'. Qed.

Lemma OUTREVS_fits b : terminated b → ∃ b', OUTREVS 7 48 (b, 31) = Some (b', 24) ∧ terminated b'.
Proof.
  assert (∀ n b pos, terminated b → Z.of_nat n < pos ≤ 31 → ∃ b', OUTREVS n 48 (b, pos) = Some (b', pos - Z.of_nat n) ∧ terminated b') as H; [|by intros; apply (H 7%nat b 31)].
  induction n as [|n IH]; intros b' pos Hb' Hp; cbn [OUTREVS]; [exists b'; by rewrite Z.sub_0_r|].
  destruct (OUTREV_fits 48 b' pos) as (b1 & -> & ?); [done|lia|]. cbn [mbind option_bind]. destruct (IH b1 (pos - 1)) as (b2 & -> & ?); [done|lia|].
  exists b2. split; [do 2 f_equal; lia|done].
Qed.

Lemma double_fraction_range d : 0 ≤ double_fraction d < 2 ^ 52.
Proof. rewrite /double_fraction (land_ones_mod d 52) //. by apply Z.mod_pos_bound. Qed.

Lemma mantissa_range d k : 0 ≤ k → 0 ≤ Z.shiftr (Z.lor (double_fraction d) (2 ^ 52)) k < 2 ^ 64.
Proof.
  intros Hk. pose proof (double_fraction_range d). rewrite Z.shiftr_div_pow2 //. set (x := Z.lor _ _).
  assert (0 ≤ x) by (apply Z.lor_nonneg; lia). assert (x < 2 ^ 64).
  { destruct (decide (x = 0)) as [->|]; [done|]. apply Z.log2_lt_pow2; [lia|]. rewrite Z.log2_lor; [|lia..]. change (Z.log2 (2 ^ 52)) with 52.
    assert (Z.log2 (double_fraction d) ≤ 52); [|lia]. rewrite -(Z.log2_pow2 52) //. apply Z.log2_le_mono. lia. }
  split; [apply Z.div_pos; lia|]. apply Z.le_lt_trans with x; [|done]. apply Z.div_le_upper_bound; [lia|]. nia.
Qed.

Lemma double_digits_fits b d flag : terminated b → 0 ≤ d < 2 ^ 64 → -52 ≤ double_exponent d - 1023 ≤ 52 →
  ∃ b' pos s, double_digits b 32 d flag = Some (b', pos) ∧ text_at pos b' = Some s.
Proof.
  intros Hb Hd He. rewrite /double_digits. cbv zeta.
  assert (∃ b1, OUTREV 0 (b, 32) = Some (b1, 31) ∧ terminated b1) as (b1 & -> & Hb1).
  { rewrite /OUTREV /put /=. destruct Hb as [Hl _]. rewrite Hl /=. eexists. split; [done|]. split; [by rewrite length_insert|]. apply list_lookup_insert_eq. lia. }
  cbn [mbind option_bind].
  assert (∃ b2, OUTREVS 7 48 (b1, 31) = Some (b2, 24) ∧ terminated b2) as (b2 & -> & Hb2) by (by apply OUTREVS_fits).
  cbn [mbind option_bind].
  assert (∃ u b3 pos, (if 0 <=? double_exponent d - 1023 then
      '(buf, pos, _) ← longlong_to_string b2 (Z.shiftr (Z.lor (double_fraction d) (2 ^ 52)) (52 - (double_exponent d - 1023))) (24 + 1) flag;
      Some (Z.shiftr (Z.lor (double_fraction d) (2 ^ 52)) (52 - (double_exponent d - 1023)), buf, pos)
    else '(buf, pos) ← OUTREV 48 (b2, 24); Some (0, buf, pos)) = Some (u, b3, pos) ∧ terminated b3 ∧ 3 ≤ pos ≤ 24) as (u & b3 & pos & -> & Hb3 & Hpos).
  { destruct (Z.leb_spec 0 (double_exponent d - 1023)).
    - set (u := Z.shiftr _ _). assert (0 ≤ u < 2 ^ 64) as Hu by (apply mantissa_range; lia).
      destruct (integer_fits b2 u flag Hb2 Hu) as (b' & pos & sg & E & ? & ?). change (24 + 1) with 25. rewrite E. by exists u, b', pos.
    - destruct (OUTREV_fits 48 b2 24) as (b' & -> & ?); [done|lia|]. by exists 0, b', 23. }
  cbn [mbind option_bind]. destruct (put_terminated 24 46 b3) as (b4 & -> & Hb4); [lia|done|]. cbn [mbind option_bind].
  destruct (fraction_loop_fits 10 (fraction_digits d u) (24 + 6 + 1) b4) as (b5 & -> & Hb5); [|done|done|].
  { pose proof (fraction_digits_range d u). lia. }
  cbn [mbind option_bind]. destruct (double_neg d).
  - destruct (OUTREV_fits 45 b5 pos) as (b6 & -> & Hb6); [done|lia|]. destruct (text_terminated (pos - 1) b6) as [s Hs]; [done|lia|]. by exists b6, (pos - 1), s.
  - destruct (text_terminated pos b5) as [s Hs]; [done|lia|]. by exists b5, pos, s.
Qed.

Lemma double_to_string_fits d flag : 0 ≤ d < 2 ^ 64 → ∃ b pos s, double_to_string num_buffer 32 d flag = Some (b, pos) ∧ text_at pos b = Some s.
Proof.
  intros Hd. rewrite /double_to_string. destruct (sign_fits (double_neg d)) as (b & pos & -> & Hb & Hp). cbn [mbind option_bind]. cbv zeta.
  assert (∀ str : list Z, zlen str ≤ 20 → ∃ b' pos' s, (x ← OUTSTR str (b, pos); buf ← put x.2 0 x.1; Some (buf, 0)) = Some (b', pos') ∧ text_at pos' b' = Some s) as Hout.
  { intros str Hl. destruct (OUTSTR_fits str b pos) as (b1 & -> & Hb1); [done|lia|lia|]. cbn [mbind option_bind fst snd].
    destruct (finish_fits b1 (pos + zlen str)) as (b2 & s & E & Hs); [done|lia|]. by exists b2, 0, s. }
  destruct (double_exponent d =? 2047); [apply Hout; destruct (double_fraction d =? 0); by rewrite capital_length|].
  destruct (double_exponent d =? 0); [apply Hout; destruct (double_fraction d =? 0); [done|by rewrite capital_length]|].
  destruct (Z.ltb_spec (double_exponent d - 1023) (-52)); [by apply Hout|]. destruct (Z.ltb_spec 52 (double_exponent d - 1023)); [by apply Hout|].
  apply double_digits_fits; [done|done|lia].
Qed.

(** ** %a *)

Lemma mantissa_fits n i fraction z flag (dot : bool) b pos :
  terminated b → 0 ≤ pos → 0 ≤ z → pos + (if dot then 0 else 1) + z + Z.of_nat n ≤ 31 →
  ∃ b' pos', mantissa_loop n i fraction z flag dot (b, pos) = Some (b', pos') ∧ terminated b' ∧ pos ≤ pos' ≤ pos + (if dot then 0 else 1) + z + Z.of_nat n.
Proof.
  revert i z dot b pos. induction n as [|n IH]; intros i z dot b pos Hb Hp Hz Hl; cbn [mantissa_loop]; [exists b, pos; split_and!; [done|done|lia|destruct dot; lia]|]. cbv zeta.
  destruct (Z.eqb_spec (Z.land (Z.shiftr fraction i) 15) 0).
  { destruct (IH (i - 4) (z + 1) dot b pos) as (b' & pos' & -> & ? & ?); [done|lia|lia|lia|]. exists b', pos'. split_and!; [done|done|lia|lia]. }
  assert (∃ b1 p1, (if dot then Some (b, pos) else OUT 46 (b, pos)) = Some (b1, p1) ∧ terminated b1 ∧ p1 = pos + (if dot then 0 else 1)) as (b1 & p1 & -> & Hb1 & Hp1).
  { destruct dot; [exists b, pos; split_and!; [done|done|lia]|]. destruct (OUT_fits 46 b pos) as (b1 & -> & ?); [done|lia|]. by exists b1, (pos + 1). }
  cbn [mbind option_bind]. destruct (OUTSTR_fits (replicate (Z.to_nat z) 48) b1 p1) as (b2 & -> & Hb2); [done|destruct dot; lia|rewrite length_replicate; destruct dot; lia|].
  cbn [mbind option_bind]. rewrite length_replicate.
  destruct (hex_char flag (Z.land (Z.shiftr fraction i) 15)) as (c & -> & _); [rewrite (land_ones_mod _ 4) //; by apply Z.mod_pos_bound|]. cbn [mbind option_bind].
  destruct (OUT_fits c b2 (p1 + Z.of_nat (Z.to_nat z))) as (b3 & -> & Hb3); [done|destruct dot; lia|]. cbn [mbind option_bind].
  destruct (IH (i - 4) 0 true b3 (p1 + Z.of_nat (Z.to_nat z) + 1)) as (b' & pos' & -> & ? & ?); [done|destruct dot; lia|lia|destruct dot; lia|].
  exists b', pos'. split_and!; [done|done|destruct dot; lia|destruct dot; lia].
Qed.

Lemma exponent_loop_fits fuel e i b : 0 ≤ e < 10 ^ Z.of_nat fuel → (0 < fuel)%nat → terminated b → Z.of_nat fuel ≤ i ≤ 31 → ∃ b', exponent_loop fuel e i b = Some b' ∧ terminated b'.
Proof.
  revert e i b. induction fuel as [|fuel IH]; intros e i b He Hf Hb Hi; [lia|]. cbn [exponent_loop].
  destruct (put_terminated (i - 1) (e mod 10 + 48) b) as (b' & -> & Hb'); [lia|done|]. cbn [mbind option_bind]. destruct (Z.eqb_spec (e / 10) 0) as [E|E]; [by exists b'|].
  rewrite Nat2Z.inj_succ Z.pow_succ_r in He; [|lia]. apply IH; [split; [apply Z.div_pos; lia|apply Z.div_lt_upper_bound; lia]| |done|lia].
  destruct fuel; [|lia]. simpl in He. rewrite Z.div_small in E; lia.
Qed.

Lemma exponent_fits b at_ e : terminated b → 4 ≤ at_ ≤ 25 → -1023 ≤ e ≤ 1024 → ∃ b' n, exponent_to_string b at_ e = Some (b', n) ∧ terminated b' ∧ 0 ≤ n ≤ 5.
Proof.
  intros Hb Ha He. rewrite /exponent_to_string. destruct (put_terminated at_ (if e <? 0 then 45 else 43) b) as (b1 & -> & Hb1); [lia|done|]. cbn [mbind option_bind]. cbv zeta.
  set (pos := 1 + _). assert (2 ≤ pos ≤ 5) as Hpos by (rewrite /pos; repeat case_match; lia).
  destruct (exponent_loop_fits 5 (Z.abs e) (at_ + pos) b1) as (b2 & E & Hb2); [lia|lia|done|lia|]. rewrite E. exists b2, pos. split_and!; [done|done|lia|lia].
Qed.

Lemma double_to_hexstring_fits d flag : 0 ≤ d < 2 ^ 64 → ∃ b pos s, double_to_hexstring num_buffer d flag = Some (b, pos) ∧ text_at pos b = Some s.
Proof.
  intros Hd. rewrite /double_to_hexstring. destruct (sign_fits (double_neg d)) as (b & pos & -> & Hb & Hp). cbn [mbind option_bind]. cbv zeta.
  set (body := if _ =? _ then _ else _). assert (∃ b1 p1, body = Some (b1, p1) ∧ terminated b1 ∧ 0 ≤ p1 < 31) as (b1 & p1 & -> & Hb1 & Hp1).
  2: { cbn [mbind option_bind fst snd]. destruct (finish_fits b1 p1 Hb1 Hp1) as (b2 & s & E & Hs). by exists b2, 0, s. }
  assert (∀ str : list Z, zlen str ≤ 20 → ∃ b1 p1, OUTSTR str (b, pos) = Some (b1, p1) ∧ terminated b1 ∧ 0 ≤ p1 < 31) as Hout.
  { intros str Hl. destruct (OUTSTR_fits str b pos) as (b1 & -> & Hb1); [done|lia|lia|]. exists b1, (pos + zlen str). split_and!; [done|done|lia|lia]. }
  rewrite /body. destruct (double_exponent d =? 2047); [apply Hout; destruct (double_fraction d =? 0); by rewrite capital_length|].
  destruct (double_exponent d =? 0); [apply Hout; destruct (double_fraction d =? 0); by rewrite capital_length|].
  destruct (OUTSTR_fits (capital flag [48; 88; 49] [48; 120; 49]) b pos) as (b1 & E1 & Hb1); [done|lia|rewrite capital_length //; simpl; lia|].
  rewrite E1 capital_length //. cbn [mbind option_bind length]. destruct (mantissa_fits 13 48 (double_fraction d) 0 flag false b1 (pos + Z.of_nat 3)) as (b2 & p2 & -> & Hb2 & Hp2); [done|lia|lia|lia|].
  cbn [mbind option_bind]. destruct (OUT_fits (if flagged flag CAPSFLAG then 80 else 112) b2 p2) as (b3 & -> & Hb3); [done|lia|]. cbn [mbind option_bind fst snd].
  destruct (exponent_fits b3 (p2 + 1) (double_exponent d - 1023)) as (b4 & n & -> & Hb4 & Hn); [done|lia| |].
  { rewrite /double_exponent (land_ones_mod _ 11) //. pose proof (Z.mod_pos_bound (Z.shiftr d 52) (2 ^ 11)). lia. }
  cbn [mbind option_bind]. exists b4, (p2 + 1 + n). split_and!; [done|done|lia|lia].
Qed.
