(* ===== verification/PrintfRun.v ===== *)
(** * printf and numbers: theorems and runs *)

From S2P Require Import Prelude Bytes Mem Libc LibcMem LibcStr LibcRun Strto StrtoSpec Printf PrintfSim PrintfSpec PrintfDouble.

(** [strtol] reads space, sign, prefix and digits in any base: it returns the value
    clamped to the range of [long], [ERANGE] exactly when that is not the value, and
    the address behind the digits. *)
Theorem strtol_spec nptr base ws sign neg pre ds vs rest r (m : mem) :
  cstring m nptr (ws ++ sign ++ pre ++ ds ++ rest) → Forall (λ c, isspace c = true) ws → signed sign neg →
  radix base pre (ds ++ rest) r → digits r ds vs → ds ≠ [] → stops r rest →
  wp (strtol nptr base) (λ '(v, e, err) m', m' = m ∧ clamp neg (numeral r 0 vs) = (v, err) ∧ e = nptr + zlen (ws ++ sign ++ pre ++ ds)) m.
Proof. apply wp_strto. Qed.

(** [strtoul] does the same for [unsigned long]. *)
Theorem strtoul_spec nptr base ws sign neg pre ds vs rest r (m : mem) :
  cstring m nptr (ws ++ sign ++ pre ++ ds ++ rest) → Forall (λ c, isspace c = true) ws → signed sign neg →
  uradix base pre (ds ++ rest) r → digits r ds vs → pre ++ ds ≠ [] → stops r rest →
  wp (strtoul nptr base) (λ '(v, e, err) m', m' = m ∧ (∃ n, uclamp (numeral r 0 vs) = (n, err) ∧ v = unegate neg n) ∧
    e = Some (nptr + zlen (ws ++ sign ++ pre ++ ds))) m.
Proof. apply wp_strtoul. Qed.


(** C38: a number printed with "%ld", with or without a width and a zero flag, and read
    back with [strtol] is the number. *)
Theorem printf_strtol bound fmt str len ws zero num n (m B : mem) :
  cstring m fmt (37 :: ws ++ [108; 100]) → width ws zero num → - 2 ^ 63 ≤ n < 2 ^ 63 → (length ws + 3 ≤ bound)%nat →
  m ##ₘ B → mapped B str len → 23 ≤ len → num < len → num < 2 ^ 31 - 30 →
  wp (vsnprintf bound str len fmt [ArgInt n];; strtol str 10) (λ r _, r.1.1 = n ∧ r.2 = None) (m ∪ B).
Proof.
  intros Hfmt Hw Hn Hb Hd HB Hlen Hnl Hnum. destruct (engine_ld bound fmt ws zero num n m Hfmt Hw Hnum Hn Hb) as (ds & vs & Hds & Hne & Hval & Ht & E & Hdl).
  assert (zlen (padded zero num (sign_of n) ds) < len) as Hfit.
  { rewrite length_padded. assert (zlen (sign_of n) ≤ 1) by (rewrite /sign_of; destruct (n <? 0); simpl; lia). lia. }
  destruct (run_vsnprintf str len len B ltac:(lia) HB bound fmt _ m m _ _ E Hd Ht) as (_ & Hrun & _); [by left|].
  apply wp_bind. rewrite /wp Hrun. apply (wp_mono _ (λ r m', m' = m ∪ printed str len B (padded zero num (sign_of n) ds) ∧ r = (n, str + zlen (padded zero num (sign_of n) ds), None))).
  - by eapply wp_strtol_padded; [apply printed_cstring; [done..|by eapply padded_no_nul]|..].
  - by intros r m' [_ ->].
Qed.

(** An address printed with "%p" and read back with [strtoul] is the address. *)
Theorem printf_strtoul bound fmt str len n (m B : mem) :
  cstring m fmt [37; 112] → 0 ≤ n < 2 ^ 64 → (2 ≤ bound)%nat → m ##ₘ B → mapped B str len → 20 ≤ len →
  wp (vsnprintf bound str len fmt [ArgInt n];; strtoul str 0) (λ r _, r.1.1 = n ∧ r.2 = None) (m ∪ B).
Proof.
  intros Hfmt Hn Hb Hd HB Hlen. destruct (engine_p bound fmt n m Hfmt Hn Hb) as (ds & vs & Hds & Hne & Hcan & Hval & Ht & E).
  destruct (run_vsnprintf str len len B ltac:(lia) HB bound fmt _ m m _ _ E Hd) as (_ & Hrun & _); [lia|by left|].
  apply wp_bind. rewrite /wp Hrun. apply (wp_mono _ (λ r m', m' = m ∪ printed str len B (pointer_text n ds) ∧ r = (n, Some (str + zlen (pointer_text n ds)), None))).
  - eapply wp_strtoul_pointer; [apply printed_cstring; [done|done|lia|by eapply pointer_no_nul]|done..].
  - by intros r m' [_ ->].
Qed.


(** ** Runs *)

(** ["%08ld"], ["%p"] and [" -0x7fg"] in memory, and a buffer of 40 bytes at 1000 *)
Definition formats : mem := blit 100 [37; 48; 56; 108; 100; 0] (blit 200 [37; 112; 0] (blit 300 [32; 45; 48; 120; 55; 102; 103; 0] ∅)).

Definition room : mem := blit 1000 (replicate 40 0) ∅.

Lemma formats_room : formats ##ₘ room.
Proof. apply (bool_decide_unpack _). vm_compute. exact I. Qed.

Lemma room_mapped : mapped room 1000 40.
Proof. apply mapped_dec; [done|]. vm_compute. reflexivity. Qed.

Lemma format_ld : cstring formats 100 (37 :: [48; 56] ++ [108; 100]).
Proof. split; [apply has_dec; vm_compute; reflexivity|set_solver]. Qed.

Lemma strtol_spec_witness : wp (strtol 300 16) (λ '(v, e, err) _, v = -127 ∧ e = 306 ∧ err = None) formats.
Proof.
  eapply wp_mono; [apply (strtol_spec 300 16 [32] [45] true [48; 120] [55; 102] [7; 15] [103] 16 formats)|].
  - split; [apply has_dec; vm_compute; reflexivity|set_solver].
  - by repeat constructor.
  - constructor.
  - by apply (radix_hex _ _ _ 120); [right| |left].
  - by repeat constructor.
  - discriminate.
  - vm_compute. discriminate.
  - intros [[v e] err] m' (_ & [= <- <-] & ->). done.
Defined.

Lemma strtoul_spec_witness : wp (strtoul 300 16) (λ '(v, e, err) _, v = 2 ^ 64 - 127 ∧ e = Some 306 ∧ err = None) formats.
Proof.
  eapply wp_mono; [apply (strtoul_spec 300 16 [32] [45] true [48; 120] [55; 102] [7; 15] [103] 16 formats)|].
  - split; [apply has_dec; vm_compute; reflexivity|set_solver].
  - by repeat constructor.
  - constructor.
  - by apply uradix_hex; [right|].
  - by repeat constructor.
  - discriminate.
  - vm_compute. discriminate.
  - intros [[v e] err] m' (_ & (n & [= <- <-] & ->) & ->). done.
Defined.


Lemma printf_strtol_witness : wp (vsnprintf 10 1000 40 100 [ArgInt (-42)];; strtol 1000 10) (λ r _, r.1.1 = -42 ∧ r.2 = None) (formats ∪ room).
Proof.
  apply (printf_strtol 10 100 1000 40 [48; 56] true 8 (-42) formats room).
  - apply format_ld.
  - apply (width_padded [56] [] 8); [by repeat constructor|reflexivity|reflexivity].
  - lia.
  - simpl. lia.
  - apply formats_room.
  - apply room_mapped.
  - lia.
  - lia.
  - lia.
Defined.

Lemma printf_strtoul_witness : wp (vsnprintf 10 1000 40 200 [ArgInt 0xffff8000];; strtoul 1000 0) (λ r _, r.1.1 = 0xffff8000 ∧ r.2 = None) (formats ∪ room).
Proof.
  apply (printf_strtoul 10 200 1000 40 0xffff8000 formats room).
  - split; [apply has_dec; vm_compute; reflexivity|set_solver].
  - lia.
  - lia.
  - apply formats_room.
  - apply room_mapped.
  - lia.
Defined.


(** ** At the limits *)

(** The text that is printed for a format and arguments *)
Definition prints (fmt : list Z) (ap : list arg) : option (list Z) :=
  '(_, (_, t)) ← _printf_engine collect 100 100 ap (blit 100 (fmt ++ [0]) ∅) []; Some t.

(** "%-5d" of -3: the sign is lost in text that is justified to the left. *)
Lemma left_loses_sign : prints [37; 45; 53; 100] [ArgInt (-3)] = Some [51; 32; 32; 32; 32].
Proof. vm_compute. reflexivity. Qed.

(** "%-#6x" of 255 has no "0x". *)
Lemma left_loses_prefix : prints [37; 45; 35; 54; 120] [ArgInt 255] = Some [102; 102; 32; 32; 32; 32].
Proof. vm_compute. reflexivity. Qed.

(** "%f" of the largest number below 1 is "01000000": the digits of the fraction are
    rounded up to one more than there is room for, over the point. *)
Lemma rounding_overwrites_point : prints [37; 102] [ArgDouble 0x3fefffffffffffff] = Some [48; 49; 48; 48; 48; 48; 48; 48].
Proof. vm_compute. reflexivity. Qed.

(** "-18446744073709551615" is the largest number, which is not negated, rather than 1. *)
Lemma strtoul_largest_negative :
  wp (strtoul 0 10) (λ r _, r = (ULONG_MAX, Some 21, None)) (blit 0 [45; 49; 56; 52; 52; 54; 55; 52; 52; 48; 55; 51; 55; 48; 57; 53; 53; 49; 54; 49; 53; 0] ∅).
Proof. vm_compute. reflexivity. Qed.

(** "0xg" with base 16: no conversion, although the 0 is a number. *)
Lemma strtol_bare_prefix : wp (strtol 0 16) (λ r _, r = (0, 0, None)) (blit 0 [48; 120; 103; 0] ∅).
Proof. vm_compute. reflexivity. Qed.
