(* ===== verification/Sort.v ===== *)
(** * Sorting, searching and random numbers

    [qsort.c], [bsearch.c] and [rand.c] of [src/mk/lib/libc], on the memory of [Mem].
    The comparison of the caller is an argument. *)

From S2P Require Import Prelude Bytes Mem.

(** ** [qsort] *)

Definition SIZEOF_LONG : Z := 8.

(** [swapcode(char, ...)]: one byte after the other, [i] of them *)
Fixpoint swap_bytes (i : nat) (pi pj : Z) : M mem unit :=
  match i with
  | O => mret ()
  | S i => t ← load pi; u ← load pj; store pi u;; store pj t;; swap_bytes i (pi + 1) (pj + 1)
  end.

(** [swapcode(long, ...)] *)
Fixpoint swap_longs (i : nat) (pi pj : Z) : M mem unit :=
  match i with
  | O => mret ()
  | S i =>
    t ← load_word pi; u ← load_word pj; store_word pi u;; store_word pj t;;
    swap_longs i (pi + SIZEOF_LONG) (pj + SIZEOF_LONG)
  end.

(** [do { ... } while (--i > 0)]: the number of swap_rounds *)
Definition swap_rounds (i : Z) : nat := Z.to_nat (Z.max 1 i).

Definition SWAPINIT (a es : Z) : Z :=
  if negb (a mod SIZEOF_LONG =? 0) || negb (es mod SIZEOF_LONG =? 0) then 2
  else if es =? SIZEOF_LONG then 0 else 1.

(** [n] is an [int]. *)
Definition swapfunc (a b n swaptype : Z) : M mem unit :=
  if swaptype <=? 1 then swap_longs (swap_rounds (s64 (u64 n / SIZEOF_LONG))) a b
  else swap_bytes (swap_rounds (s64 (u64 n))) a b.

Definition swap (es swaptype a b : Z) : M mem unit :=
  if swaptype =? 0 then t ← load_word a; u ← load_word b; store_word a u;; store_word b t
  else swapfunc a b (s32 es) swaptype.

Definition vecswap (swaptype a b n : Z) : M mem unit :=
  when (n >? 0) (swapfunc a b n swaptype).

Section qsort.
Context (cmp : Z → Z → M mem Z).

Definition med3 (a b c : Z) : M mem Z :=
  ab ← cmp a b;
  if ab <? 0 then
    bc ← cmp b c;
    if bc <? 0 then mret b else ac ← cmp a c; mret (if ac <? 0 then c else a)
  else
    bc ← cmp b c;
    if bc >? 0 then mret b else ac ← cmp a c; mret (if ac <? 0 then a else c).

(** [for (pl = pm; pl > a && cmp(pl - es, pl) > 0; pl -= es) swap(pl, pl - es);] *)
Fixpoint sift (fuel : nat) (a es swaptype pl : Z) : M mem unit :=
  match fuel with
  | O => fail
  | S fuel =>
    if pl >? a then
      r ← cmp (pl - es) pl;
      if r >? 0 then swap es swaptype pl (pl - es);; sift fuel a es swaptype (pl - es) else mret ()
    else mret ()
  end.

(** [for (pm = a + es; pm < a + n * es; pm += es)], from [pm] *)
Fixpoint insertion (fuel : nat) (a n es swaptype pm : Z) : M mem unit :=
  match fuel with
  | O => fail
  | S fuel =>
    if pm <? a + u64 (n * es) then
      sift (S (Z.to_nat n)) a es swaptype pm;; insertion fuel a n es swaptype (pm + es)
    else mret ()
  end.

(** [while (pb <= pc && (r = cmp(pb, a)) <= 0)] *)
Fixpoint scan_up (fuel : nat) (a es swaptype pc pa pb swap_cnt : Z) : M mem (Z * Z * Z) :=
  match fuel with
  | O => fail
  | S fuel =>
    if pb <=? pc then
      r ← cmp pb a;
      if r <=? 0 then
        if r =? 0 then swap es swaptype pa pb;; scan_up fuel a es swaptype pc (pa + es) (pb + es) 1
        else scan_up fuel a es swaptype pc pa (pb + es) swap_cnt
      else mret (pa, pb, swap_cnt)
    else mret (pa, pb, swap_cnt)
  end.

(** [while (pb <= pc && (r = cmp(pc, a)) >= 0)] *)
Fixpoint scan_down (fuel : nat) (a es swaptype pb pc pd swap_cnt : Z) : M mem (Z * Z * Z) :=
  match fuel with
  | O => fail
  | S fuel =>
    if pb <=? pc then
      r ← cmp pc a;
      if r >=? 0 then
        if r =? 0 then swap es swaptype pc pd;; scan_down fuel a es swaptype pb (pc - es) (pd - es) 1
        else scan_down fuel a es swaptype pb (pc - es) pd swap_cnt
      else mret (pc, pd, swap_cnt)
    else mret (pc, pd, swap_cnt)
  end.

(** [for (;;)]: the partition around the element at [a] *)
Fixpoint partition_loop (fuel : nat) (n a es swaptype pa pb pc pd swap_cnt : Z) : M mem (Z * Z * Z * Z * Z) :=
  match fuel with
  | O => fail
  | S fuel =>
    '(pa, pb, swap_cnt) ← scan_up (S (Z.to_nat n)) a es swaptype pc pa pb swap_cnt;
    '(pc, pd, swap_cnt) ← scan_down (S (Z.to_nat n)) a es swaptype pb pc pd swap_cnt;
    if pb >? pc then mret (pa, pb, pc, pd, swap_cnt)
    else swap es swaptype pb pc;; partition_loop fuel n a es swaptype pa (pb + es) (pc - es) pd 1
  end.

(** The choice of the element to partition around, [if (n > 7)]; [d] is an [int]. *)
Definition pivot (a n es : Z) : M mem Z :=
  let pm := a + u64 (n / 2 * es) in
  if n >? 7 then
    let pl := a in
    let pn := a + u64 ((n - 1) * es) in
    '(pl, pm, pn) ← (
      if n >? 40 then
        let d := s32 (u64 (n / 8 * es)) in
        pl ← med3 pl (pl + d) (pl + s32 (2 * d));
        pm ← med3 (pm - d) pm (pm + d);
        pn ← med3 (pn - s32 (2 * d)) (pn - d) pn;
        mret (pl, pm, pn)
      else mret (pl, pm, pn));
    med3 pl pm pn
  else mret pm.

(** [fuel] bounds the depth of the calls and of the jumps to [loop]. *)
Fixpoint qsort (fuel : nat) (a n es : Z) : M mem unit :=
  match fuel with
  | O => fail
  | S fuel =>
    let swaptype := SWAPINIT a es in
    if n <? 7 then insertion (S (Z.to_nat n)) a n es swaptype (a + es)
    else
      pm ← pivot a n es;
      swap es swaptype a pm;;
      let pe := a + u64 ((n - 1) * es) in
      '(pa, pb, pc, pd, swap_cnt) ← partition_loop (S (Z.to_nat n)) n a es swaptype (a + es) (a + es) pe pe 0;
      if swap_cnt =? 0 then insertion (S (Z.to_nat n)) a n es swaptype (a + es)
      else
        let pn := a + u64 (n * es) in
        let r := s32 (Z.min (pa - a) (pb - pa)) in
        vecswap swaptype a (pb - r) r;;
        let r := s32 (Z.min (pd - pc) (pn - pd - s32 es)) in
        vecswap swaptype pb (pn - r) r;;
        let r := s32 (pb - pa) in
        when (r >? s32 es) (qsort fuel a (u64 r / es) es);;
        let r := s32 (pd - pc) in
        when (r >? s32 es) (qsort fuel (pn - r) (u64 r / es) es)
  end.
End qsort.

(** ** [bsearch] *)

Section bsearch.
Context (compare : Z → Z → M mem Z).

Fixpoint bsearch_loop (fuel : nat) (key base size low high : Z) : M mem (option Z) :=
  match fuel with
  | O => fail
  | S fuel =>
    let mid := u64 (low + u64 (high - low) / 2) in
    let mid_elem := u64 (base + u64 (mid * size)) in
    r ← compare key mid_elem;
    if r <? 0 then
      if mid =? 0 then mret None
      else bsearch_loop fuel key base size low (mid - 1)
    else if r >? 0 then
      let low := u64 (mid + 1) in
      if (low <? mid) || (low >? high) then mret None
      else bsearch_loop fuel key base size low high
    else mret (Some mid_elem)
  end.

(** [NULL] is [None]. *)
Definition bsearch (fuel : nat) (key base num_elems size : Z) : M mem (option Z) :=
  if num_elems =? 0 then mret None else bsearch_loop fuel key base size 0 (num_elems - 1).
End bsearch.

(** ** [rand] *)

(** The state is [randseed]. *)
Definition randseed0 : Z := 12345.

Definition srand (seed : Z) : Z := seed.

Fixpoint mix_entropy (enp : Z) (buf : list Z) : Z :=
  match buf with
  | [] => enp
  | c :: buf => mix_entropy (Z.lxor (Z.lor (u32 (Z.shiftl enp 8)) (Z.shiftr enp 24)) c) buf
  end.

Definition rand_add_entropy (buf : list Z) (randseed : Z) : Z :=
  if zlen buf =? 0 then randseed else Z.lxor randseed (mix_entropy 0 buf).

(** The result and the new state *)
Definition rand (randseed : Z) : Z * Z :=
  let randseed := u32 (u32 (randseed * 1664525) + 1013904223) in (s32 randseed, randseed).
