(* ===== verification/SortSpec.v ===== *)
(** * Sorting: exchange of elements, insertion and partition

    An array is the concatenation of its elements, lists of [es] bytes each; the lemmas
    state what the loops of [qsort] do to the list of elements. *)

From S2P Require Import Prelude Bytes Mem Libc LibcMem Sort.

(** ** Exchange of two ranges *)

Section exchange.
Implicit Types (m : mem) (p q : Z) (x y z l : list Z).

(** [m] with the contents [x] at [p] and [y] at [q] exchanged *)
Abbreviation exchanged p x q y m := (blit q x (blit p y m)).

Lemma wp_swap_bytes x y p q m :
  length x = length y → has m p x → has m q y → separate p (zlen x) q (zlen y) →
  wp (swap_bytes (length x) p q) (λ _ m', m' = exchanged p x q y m) m.
Proof.
  revert y p q m. induction x as [|b x IH]; intros [|c y] p q m Hl Hp Hq Hs; try done. simpl in Hl. injection Hl as Hl.
  apply has_cons in Hp as [Hb Hp]. apply has_cons in Hq as [Hc Hq]. rw /separate /= in Hs. simpl.
  apply wp_bind. eapply wp_load; [done|]. apply wp_bind. eapply wp_load; [done|].
  apply wp_bind, wp_store; [done|]. apply wp_bind, wp_store; [apply (mapped_blit p [c] m q 1); [|simpl; lia]; intros i ?; rewrite (_ : i = q); [done|lia]|].
  eapply wp_mono; [apply (IH y)|]; [done|..].
  - rewrite !has_blit_ne; [done|rw /separate /=; lia..].
  - rewrite !has_blit_ne; [done|rw /separate /=; lia..].
  - rw /separate. lia.
  - intros _ m' ->. cbn [blit]. f_equal. rewrite (blit_comm (p + 1) y q [b]) //. rw /separate /=. lia.
Qed.

Lemma wp_swap_longs (n : nat) x y p q m :
  length x = (8 * n)%nat → length y = (8 * n)%nat → (8 | p) → (8 | q) → has m p x → has m q y → separate p (zlen x) q (zlen y) →
  wp (swap_longs n p q) (λ _ m', m' = exchanged p x q y m) m.
Proof.
  revert x y p q m. induction n as [|n IH]; intros x y p q m Hx Hy Ap Aq Hp Hq Hs; cbn [swap_longs]; unfold SIZEOF_LONG.
  { destruct x; [|simpl in Hx; lia]. destruct y; [|simpl in Hy; lia]. by apply wp_ret. }
  pose proof (length_take x 8). pose proof (length_drop x 8). pose proof (length_take y 8). pose proof (length_drop y 8).
  rewrite -(take_drop 8 x) in Hp. rewrite -(take_drop 8 y) in Hq. apply has_app in Hp as [Hp1 Hp2]. apply has_app in Hq as [Hq1 Hq2].
  rewrite /separate in Hs. rewrite (_ : zlen (take 8 x) = 8) in Hp2; [|lia]. rewrite (_ : zlen (take 8 y) = 8) in Hq2; [|lia].
  apply wp_bind. eapply (wp_load_word p (take 8 x)); [done|lia|done|]. apply wp_bind. eapply (wp_load_word q (take 8 y)); [done|lia|done|].
  apply wp_bind, wp_store_word; [done|eapply mapped_sub; [apply (has_mapped _ _ _ Hp1)|lia..]|].
  apply wp_bind, wp_store_word; [done|apply mapped_blit; eapply mapped_sub; [apply (has_mapped _ _ _ Hq1)|lia..]|].
  eapply wp_mono; [apply (IH (drop 8 x) (drop 8 y))|]; [lia|lia|by apply Z.divide_add_r; [|exists 1]|by apply Z.divide_add_r; [|exists 1]|..].
  - rewrite !has_blit_ne; [done|rw /separate; lia..].
  - rewrite !has_blit_ne; [done|rw /separate; lia..].
  - rw /separate. lia.
  - intros _ m' ->. rewrite -{3}(take_drop 8 x) -{3}(take_drop 8 y) !blit_app.
    rewrite (_ : zlen (take 8 x) = 8); [|lia]. rewrite (_ : zlen (take 8 y) = 8); [|lia].
    f_equal. rewrite (blit_comm (p + 8) (drop 8 y) q (take 8 x)) //. rw /separate. lia.
Qed.

(** How [qsort] moves elements of [es] bytes at [p]: in words only where that is possible *)
Definition movable (swaptype p n : Z) : Prop := swaptype = 2 ∨ swaptype ≤ 1 ∧ (8 | p) ∧ (8 | n).

Lemma wp_swapfunc x y p q st m :
  length x = length y → 0 < zlen x < 2 ^ 31 → movable st p (zlen x) → movable st q (zlen x) → has m p x → has m q y → separate p (zlen x) q (zlen y) →
  wp (swapfunc p q (zlen x) st) (λ _ m', m' = exchanged p x q y m) m.
Proof.
  intros Hl Hn Hp Hq Hx Hy Hs. rewrite /swapfunc u64_small; [|lia]. destruct Hp as [->|(Hst & Ap & [k Hk])].
  - simpl. rewrite s64_small; [|lia]. rewrite /swap_rounds (_ : Z.to_nat _ = length x); [|lia]. by apply wp_swap_bytes.
  - destruct Hq as [->|(_ & Aq & _)]; [done|]. rewrite (proj2 (Z.leb_le st 1) Hst). rewrite Hk /SIZEOF_LONG Z.div_mul // s64_small; [|lia].
    apply wp_swap_longs; rewrite /swap_rounds; (done || lia).
Qed.

(** A range exchanged with itself *)
Lemma wp_swap_bytes_self x p m : has m p x → wp (swap_bytes (length x) p p) (λ _ m', m' = m) m.
Proof.
  revert p. induction x as [|b x IH]; intros p H; [by apply wp_ret|]. apply has_cons in H as [Hb H]. simpl.
  assert (blit p [b] m = m) as E by (apply blit_same, has_cons; by split; [|apply has_nil]).
  do 2 (apply wp_bind; eapply wp_load; [done|]). do 2 (apply wp_bind, wp_store; rewrite ?E; [done|]). by apply IH.
Qed.

Lemma wp_swap_longs_self (n : nat) x p m : length x = (8 * n)%nat → (8 | p) → has m p x → wp (swap_longs n p p) (λ _ m', m' = m) m.
Proof.
  revert x p. induction n as [|n IH]; intros x p Hl Ap H; cbn [swap_longs]; unfold SIZEOF_LONG; [by apply wp_ret|].
  pose proof (length_take x 8). pose proof (length_drop x 8). rewrite -(take_drop 8 x) in H. apply has_app in H as [Hw Hr].
  rewrite (_ : zlen (take 8 x) = 8) in Hr; [|lia]. do 2 (apply wp_bind; eapply (wp_load_word p (take 8 x)); [done|lia|done|]).
  do 2 (apply wp_bind, wp_store_word; rewrite ?blit_same //; [by apply has_mapped|]). eapply (IH (drop 8 x)); [lia|by apply Z.divide_add_r; [|exists 1]|done].
Qed.

Lemma wp_swap x y p q es st m :
  zlen x = es → zlen y = es → 0 < es < 2 ^ 31 → (st = 0 → es = 8) → movable st p es → movable st q es → has m p x → has m q y →
  separate p es q es ∨ p = q →
  wp (swap es st p q) (λ _ m', m' = exchanged p x q y m) m.
Proof.
  intros Hx Hy Hes H0 Mp Mq Hp Hq Hs.
  assert (wp (swapfunc p q es st) (λ _ m', m' = exchanged p x q y m) m) as W.
  { destruct Hs as [Hs| <-].
    - rewrite -Hx. apply wp_swapfunc; rewrite ?Hx ?Hy //; lia.
    - rewrite (has_inj m p y x Hq Hp); [|lia]. rewrite !blit_same //. rewrite -Hx in Hes Mp |- *. rewrite /swapfunc u64_small; [|lia].
      destruct Mp as [->|(Hst & Ap & [k Hk])].
      + simpl. rewrite s64_small; [|lia]. rewrite /swap_rounds (_ : Z.to_nat _ = length x); [|lia]. by apply wp_swap_bytes_self.
      + rewrite (proj2 (Z.leb_le st 1) Hst) Hk /SIZEOF_LONG Z.div_mul // s64_small; [|lia]. apply (wp_swap_longs_self _ x); rewrite /swap_rounds; (done || lia). }
  rewrite /swap. destruct (Z.eqb_spec st 0) as [->|Hne]; [|by rewrite s32_small; [|lia]].
  rewrite H0 // in W. change (swapfunc p q 8 0) with (swap_longs 1 p q) in W.
  do 3 (apply wp_bind; apply wp_bind_inv in W; eapply wp_mono; [exact W|]; clear W; intros ? ? W).
  apply wp_bind_inv in W. eapply wp_mono; [exact W|]. by intros [] ?.
Qed.

(** Exchange of the ends of a range *)
Lemma wp_swap_ends x y z p q st m :
  length x = length z → 0 < zlen x < 2 ^ 31 → movable st p (zlen x) → movable st q (zlen x) → q = p + zlen (x ++ y) → has m p (x ++ y ++ z) →
  wp (swapfunc p q (zlen x) st) (λ _ m', m' = blit p (z ++ y ++ x) m) m.
Proof.
  intros Hl Hn Hp Hq -> H. rewrite length_app in Hq |- *. apply has_app in H as [Hx H]. apply has_app in H as [Hy Hz].
  eapply wp_mono; [apply (wp_swapfunc x z); try done|].
  - by rewrite Nat2Z.inj_add Z.add_assoc.
  - rw /separate. lia.
  - intros _ m' ->. rewrite !blit_app (blit_same _ y); [f_equal; lia|]. rewrite -Hl. apply has_blit_ne; [|done]. rw /separate. lia.
Qed.
End exchange.

Lemma blit_over a l k m : length l = length k → blit a l (blit a k m) = blit a l m.
Proof.
  intros Hl. apply map_eq. intros x. rw !lookup_blit. case_decide; [done|]. by rw decide_False; [|lia].
Qed.

(** Part of a range overwritten *)
Lemma blit_mid a l k k' r m : length k = length k' → blit (a + zlen l) k' (blit a (l ++ k ++ r) m) = blit a (l ++ k' ++ r) m.
Proof.
  intros Hl. rewrite !blit_app -Hl (blit_comm (a + zlen l) k'); [|rw /separate; lia]. by rewrite blit_over.
Qed.

(** ** Arrays *)

(** What [qsort] asks of the order: it is total and transitive. *)
Class Ordering (c : list Z → list Z → Z) := {
  c_flip x y : c x y < 0 ↔ 0 < c y x;
  c_trans x y z : c x y ≤ 0 → c y z ≤ 0 → c x z ≤ 0;
}.

(** The comparison of two elements in memory reads them and does nothing else. *)
Class Compares (es : Z) (cmp : Z → Z → M mem Z) (c : list Z → list Z → Z) :=
  compares a b x y m : zlen x = es → zlen y = es → has m a x → has m b y → wp (cmp a b) (λ r m', r = c x y ∧ m' = m) m.

(** Bytes of a list of elements *)
Definition zsize (L : list (list Z)) : Z := zlen (concat L).

Definition sized (es : Z) (L : list (list Z)) : Prop := Forall (λ x, zlen x = es) L.

Lemma zsize_app A B : zsize (A ++ B) = zsize A + zsize B.
Proof. by rewrite /zsize concat_app length_app Nat2Z.inj_add. Qed.

Lemma zsize_cons x A : zsize (x :: A) = zlen x + zsize A.
Proof. by rewrite /zsize /= length_app Nat2Z.inj_add. Qed.

Lemma zsize_nil : zsize [] = 0.
Proof. done. Qed.

#[export] Hint Rewrite zsize_app zsize_cons zsize_nil : zsize.

Lemma zsize_nonneg A : 0 ≤ zsize A.
Proof. rewrite /zsize. lia. Qed.

Lemma zsize_perm A B : A ≡ₚ B → zsize A = zsize B.
Proof. induction 1; rewrite ?zsize_cons; lia. Qed.

Lemma sized_zsize es L : sized es L → zsize L = zlen L * es.
Proof. induction 1 as [|x L Hx _ IH]; [done|]. rewrite zsize_cons IH Hx /=. lia. Qed.

Lemma sized_perm es A B : A ≡ₚ B → sized es A → sized es B.
Proof. intros E. by rewrite /sized E. Qed.

Lemma app_cons_assoc {T} (A : list T) x B C : A ++ x :: B ++ C = (A ++ x :: B) ++ C.
Proof. by rewrite -assoc. Qed.

Section arrays.
Context (a es : Z) (m : mem).
Implicit Types (x y : list Z) (A B C L : list (list Z)).

Abbreviation arr L := (blit a (concat L) m).
Abbreviation st := (SWAPINIT a es).

Lemma has_elem A x C : has (arr (A ++ x :: C)) (a + zsize A) x.
Proof.
  pose proof (has_blit_eq a (concat (A ++ x :: C)) m) as H. rewrite {2}concat_app /= in H.
  apply has_app in H as [_ H]. by apply has_app in H as [H _].
Qed.

Lemma has_part A S C : has (arr (A ++ S ++ C)) (a + zsize A) (concat S).
Proof.
  pose proof (has_blit_eq a (concat (A ++ S ++ C)) m) as H. rewrite {2}(concat_app A) (concat_app S) in H.
  apply has_app in H as [_ H]. by apply has_app in H as [H _].
Qed.

(** Some of the elements overwritten *)
Lemma arr_mid A S S' C : zsize S = zsize S' → blit (a + zsize A) (concat S') (arr (A ++ S ++ C)) = arr (A ++ S' ++ C).
Proof. rewrite /zsize. intros H. rewrite !concat_app. apply blit_mid. lia. Qed.

Lemma arr_set A x y C : zlen x = zlen y → blit (a + zsize A) y (arr (A ++ x :: C)) = arr (A ++ y :: C).
Proof.
  intros H. pose proof (arr_mid A [x] [y] C) as E. rewrite /= app_nil_r in E. apply E. rewrite !zsize_cons. lia.
Qed.

Lemma SWAPINIT_0 : st = 0 → es = 8.
Proof. rewrite /SWAPINIT. case_match; [done|]. by destruct (Z.eqb_spec es SIZEOF_LONG). Qed.

Lemma movable_elem k n : movable st (a + k * es) (n * es).
Proof.
  rewrite /SWAPINIT /movable /SIZEOF_LONG. case_match eqn:E; [by left|]. right. to_prop.
  assert (8 | a) by (by apply Z.mod_divide). assert (8 | es) by (by apply Z.mod_divide).
  split_and!; [by case_match|apply Z.divide_add_r; [done|by apply Z.divide_mul_r]|by apply Z.divide_mul_r].
Qed.

Lemma movable_at A B : sized es A → sized es B → movable st (a + zsize A) (zsize B).
Proof. intros HA HB. rewrite (sized_zsize es A) // (sized_zsize es B) //. apply movable_elem. Qed.

Lemma movable_one A : sized es A → movable st (a + zsize A) es.
Proof. intros HA. rewrite (sized_zsize es A) // -{3}(Z.mul_1_l es). apply movable_elem. Qed.

Context (Hes : 0 < es < 2 ^ 31).

(** Two elements exchanged, whichever of them is named first *)
Lemma wp_exchange A x B y C p q :
  sized es (A ++ x :: B ++ y :: C) → (p = a + zsize A ∧ q = a + zsize (A ++ x :: B) ∨ q = a + zsize A ∧ p = a + zsize (A ++ x :: B)) →
  wp (swap es st p q) (λ _ m', m' = arr (A ++ y :: B ++ x :: C)) (arr (A ++ x :: B ++ y :: C)).
Proof.
  intros Hs Hpq. rewrite /sized !Forall_app !Forall_cons !Forall_app !Forall_cons in Hs. destruct Hs as (HA & Hx & HB & Hy & HC).
  assert (has (arr (A ++ x :: B ++ y :: C)) (a + zsize A) x) as Hp by apply has_elem.
  assert (has (arr (A ++ x :: B ++ y :: C)) (a + zsize (A ++ x :: B)) y) as Hq.
  { rewrite app_cons_assoc. apply has_elem. }
  assert (movable st (a + zsize A) es) as Mp by (by apply movable_one).
  assert (movable st (a + zsize (A ++ x :: B)) es) as Mq by (apply movable_one; rewrite /sized Forall_app Forall_cons; done).
  assert (separate (a + zsize A) es (a + zsize (A ++ x :: B)) es) as Hsep.
  { rewrite zsize_app zsize_cons /separate. pose proof (zsize_nonneg B). lia. }
  assert (blit (a + zsize (A ++ x :: B)) x (blit (a + zsize A) y (arr (A ++ x :: B ++ y :: C))) = arr (A ++ y :: B ++ x :: C)) as E.
  { rewrite arr_set; [|lia]. rewrite !(app_cons_assoc A) (_ : zsize (A ++ x :: B) = zsize (A ++ y :: B)); [|rewrite !zsize_app !zsize_cons; lia].
    apply arr_set. lia. }
  destruct Hpq as [[-> ->]|[-> ->]].
  - eapply wp_mono; [eapply (wp_swap x y); eauto using SWAPINIT_0|]. intros _ m' ->. done.
  - eapply wp_mono; [eapply (wp_swap y x); eauto using SWAPINIT_0; left; rw /separate; rw /separate in Hsep; lia|].
    intros _ m' ->. rewrite blit_comm; [done|]. rw /separate. rw /separate in Hsep. lia.
Qed.

Lemma wp_exchange_self A x C p : sized es (A ++ x :: C) → p = a + zsize A →
  wp (swap es st p p) (λ _ m', m' = arr (A ++ x :: C)) (arr (A ++ x :: C)).
Proof.
  intros Hs ->. rewrite /sized Forall_app Forall_cons in Hs. destruct Hs as (HA & Hx & _). pose proof (has_elem A x C) as H.
  eapply wp_mono; [eapply (wp_swap x x); eauto using SWAPINIT_0, movable_one|]. intros _ m' ->. by rewrite !(blit_same _ _ _ H).
Qed.
End arrays.
