(* ===== verification/SortLoops.v ===== *)
(** * Sorting: the loops

    Insertion sort, the choice of the pivot and the partition. *)

From S2P Require Import Prelude Bytes Mem Libc LibcMem Sort SortSpec.

Section loops.
Context (cmp : Z → Z → M mem Z) (c : list Z → list Z → Z) (es : Z) `{!Ordering c} `{!Compares es cmp c}.
Context (a : Z) (m : mem) (Hes : 0 < es < 2 ^ 31).
Implicit Types (x y : list Z) (A B C L : list (list Z)).

Abbreviation arr L := (blit a (concat L) m).
Abbreviation st := (SWAPINIT a es).
Abbreviation le := (λ x y, c x y ≤ 0).

Lemma c_gt x y : 0 < c x y → c y x ≤ 0.
Proof. rewrite -c_flip. lia. Qed.

Lemma c_le x y : c x y ≤ 0 → 0 ≤ c y x.
Proof. pose proof (c_flip y x). lia. Qed.

Lemma c_eq x y : c x y = 0 → c y x = 0.
Proof. intros H. pose proof (c_flip x y). pose proof (c_flip y x). lia. Qed.

Lemma wp_cmp L A x C A' y C' p q :
  sized es L → L = A ++ x :: C → L = A' ++ y :: C' → p = a + zsize A → q = a + zsize A' →
  wp (cmp p q) (λ r m', r = c x y ∧ m' = arr L) (arr L).
Proof.
  intros Hs E1 E2 -> ->. apply compares.
  - rewrite E1 /sized Forall_app Forall_cons in Hs. naive_solver.
  - rewrite E2 /sized Forall_app Forall_cons in Hs. naive_solver.
  - rewrite {1}E1. apply has_elem.
  - rewrite {1}E2. apply has_elem.
Qed.

(** ** Insertion sort *)

Lemma sorted_sift A y x B : StronglySorted le ((A ++ [y]) ++ B) → Forall (le x) B → c y x ≤ 0 → StronglySorted le ((A ++ [y]) ++ x :: B).
Proof.
  rewrite !(StronglySorted_app _ (A ++ [y])) StronglySorted_cons. intros (H1 & HA & HB) HxB Hyx. split_and!; [|done..].
  intros z w Hz [->|Hw]%elem_of_cons; [|by apply H1]. apply elem_of_app in Hz as [Hz| ->%list_elem_of_singleton]; [|done].
  apply StronglySorted_app in HA as (HA & _). apply (c_trans _ y); [apply HA; set_solver|done].
Qed.

Lemma wp_sift A x B R fuel pl :
  sized es (A ++ x :: B ++ R) → StronglySorted le (A ++ B) → Forall (le x) B → (length A < fuel)%nat → pl = a + zsize A →
  wp (sift cmp fuel a es st pl) (λ _ m', ∃ S, m' = arr (S ++ R) ∧ S ≡ₚ A ++ x :: B ∧ StronglySorted le S) (arr (A ++ x :: B ++ R)).
Proof.
  revert B fuel pl. induction A as [|y A IH] using rev_ind; intros B fuel pl Hs Hsort HB Hf ->; (destruct fuel as [|fuel]; [lia|]); cbn [sift].
  { rewrite zsize_nil Z.add_0_r Z.gtb_ltb Z.ltb_irrefl. apply wp_ret. exists (x :: B). split_and!; [done..|by constructor]. }
  rewrite length_app /= in Hf. rewrite -assoc /= in Hs |- *. pose proof (zsize_nonneg A).
  assert (zlen y = es) as Hy by (by apply Forall_app in Hs as [_ Hs]; apply Forall_cons in Hs as [? _]).
  assert (zsize (A ++ [y]) = zsize A + es) as Hz by (rewrite zsize_app zsize_cons zsize_nil; lia).
  rewrite (proj2 (Z.gtb_lt _ _)); [|lia]. apply wp_bind. eapply wp_mono; [apply (wp_cmp _ A y (x :: B ++ R) (A ++ [y]) x (B ++ R)); [done|done|by rewrite -assoc|lia|done]|].
  intros r m' [-> ->]. destruct (Z.gtb_spec (c y x) 0) as [Hgt|Hle].
  - apply wp_bind. eapply wp_mono; [apply (wp_exchange a es m Hes A y [] x (B ++ R)); [done|right; split; [lia|done]]|]. intros _ m' ->.
    eapply wp_mono; [apply (IH (y :: B)); [|by rewrite -assoc in Hsort|constructor; [by apply c_gt|done]|lia|lia]|].
    + eapply sized_perm; [|done]. apply Permutation_app_head. apply perm_swap.
    + intros _ m' (S & -> & HS & ?). exists S. split_and!; [done| |done]. rewrite HS -assoc. apply Permutation_app_head, perm_swap.
  - apply wp_ret. exists ((A ++ [y]) ++ x :: B). split_and!; [by rewrite -!assoc|done|by apply sorted_sift].
Qed.

Lemma wp_insertion S R fuel n pm :
  sized es (S ++ R) → StronglySorted le S → (length R < fuel)%nat → pm = a + zsize S → zlen (S ++ R) = n → zsize (S ++ R) < 2 ^ 31 →
  wp (insertion cmp fuel a n es st pm) (λ _ m', ∃ L, m' = arr L ∧ L ≡ₚ S ++ R ∧ StronglySorted le L) (arr (S ++ R)).
Proof.
  intros Hs Hsort Hf -> Hn Hsz. revert S fuel Hs Hsort Hf Hn Hsz. induction R as [|x R IH]; intros S fuel Hs Hsort Hf Hn Hsz; (destruct fuel as [|fuel]; [lia|]); cbn [insertion].
  - rewrite app_nil_r in Hs Hn Hsz |- *. rewrite u64_small -Hn -(sized_zsize es S) //; [|pose proof (zsize_nonneg S); lia].
    rewrite Z.ltb_irrefl. apply wp_ret. by exists S.
  - assert (zlen x = es) as Hx by (by apply Forall_app in Hs as [_ Hs]; apply Forall_cons in Hs as [? _]).
    pose proof (zsize_nonneg S). pose proof (zsize_nonneg R). rewrite zsize_app zsize_cons in Hsz.
    rewrite u64_small -Hn -(sized_zsize es (S ++ x :: R)) ?zsize_app ?zsize_cons //; [|lia].
    rewrite (proj2 (Z.ltb_lt _ _)); [|lia]. apply wp_bind.
    eapply wp_mono; [apply (wp_sift S x [] R); [done|by rewrite app_nil_r|done| |done]|].
    { rewrite length_app in Hn |- *. simpl. lia. }
    intros _ m' (S' & -> & HS & Hsort'). assert (zsize S' = zsize S + es) as E by (rewrite (zsize_perm _ _ HS) zsize_app zsize_cons zsize_nil; lia).
    rewrite (_ : a + zsize S + es = a + zsize S'); [|lia]. assert (S' ++ R ≡ₚ S ++ x :: R) as P by (rewrite HS -assoc //).
    rewrite Hn. eapply wp_mono; [apply IH|].
    + by eapply sized_perm.
    + done.
    + simpl in Hf. lia.
    + rewrite P. done.
    + rewrite zsize_app. lia.
    + intros _ m' (L & -> & HL & ?). exists L. split_and!; [done|by rewrite HL|done].
Qed.

(** ** The pivot *)

(** An address of an element *)
Definition elem (L : list (list Z)) (p : Z) : Prop := ∃ i, p = a + i * es ∧ 0 ≤ i < zlen L.

Lemma elem_split L p : sized es L → elem L p → ∃ A x C, L = A ++ x :: C ∧ p = a + zsize A.
Proof.
  intros Hs (i & -> & Hi). destruct (lookup_lt_is_Some_2 L (Z.to_nat i)) as [x Hx]; [lia|].
  exists (take (Z.to_nat i) L), x, (drop (S (Z.to_nat i)) L). split; [by rewrite take_drop_middle|].
  rewrite (sized_zsize es); [|by apply Forall_take]. rewrite length_take. f_equal. f_equal. lia.
Qed.

Lemma wp_cmp_elem L p q : sized es L → elem L p → elem L q → wp (cmp p q) (λ _ m', m' = arr L) (arr L).
Proof.
  intros Hs (A & x & C & E1 & Ep)%elem_split (A' & y & C' & E2 & Eq)%elem_split; [|done..].
  eapply wp_mono; [by eapply (wp_cmp L A x C A' y C')|]. by intros r m' [_ ->].
Qed.

Lemma wp_med3 L p q r : sized es L → elem L p → elem L q → elem L r → wp (med3 cmp p q r) (λ s m', elem L s ∧ m' = arr L) (arr L).
Proof.
  intros Hs Hp Hq Hr. rewrite /med3. apply wp_bind. eapply wp_mono; [by eapply (wp_cmp_elem L)|]. intros ? ? ->.
  destruct (_ <? 0); apply wp_bind; (eapply wp_mono; [by eapply (wp_cmp_elem L)|]); intros ? ? ->; (case_match; [by apply wp_ret|]);
    apply wp_bind; (eapply wp_mono; [by eapply (wp_cmp_elem L)|]); intros ? ? ->; apply wp_ret; by case_match.
Qed.

Lemma elem_at L i p : p = a + i * es → 0 ≤ i < zlen L → elem L p.
Proof. intros ->. by exists i. Qed.

Lemma wp_pivot L n : sized es L → zlen L = n → 7 ≤ n → zsize L < 2 ^ 31 →
  wp (pivot cmp a n es) (λ p m', elem L p ∧ m' = arr L) (arr L).
Proof.
  intros Hs Hn H7 Hsz. rewrite (sized_zsize es L) // Hn in Hsz. rewrite /pivot.
  assert (0 ≤ n / 2 < n) as H2 by (split; [apply Z.div_pos; lia|apply Z.div_lt; lia]).
  rewrite (u64_small (n / 2 * es)); [|nia]. rewrite (u64_small ((n - 1) * es)); [|nia].
  assert (elem L (a + n / 2 * es)) as Em by (apply (elem_at _ (n / 2)); lia).
  case_match; [|by apply wp_ret]. assert (elem L a) as El by (apply (elem_at _ 0); lia).
  assert (elem L (a + (n - 1) * es)) as En by (apply (elem_at _ (n - 1)); lia).
  apply wp_bind. case_match eqn:H40; [|apply wp_ret; by apply wp_med3]. to_prop.
  assert (0 ≤ n / 8 ∧ 8 * (n / 8) ≤ n) as [H8 H8'] by (split; [apply Z.div_pos; lia|apply Z.mul_div_le; lia]).
  assert (2 * (n / 2) ≤ n ≤ 2 * (n / 2) + 1) as Hh by (pose proof (Z.div_mod n 2); pose proof (Z.mod_pos_bound n 2); lia).
  rewrite (u64_small (n / 8 * es)); [|nia]. rewrite (s32_small (n / 8 * es)); [|nia]. rewrite (s32_small (2 * _)); [|nia].
  set (k := n / 8) in *. set (h := n / 2) in *. cbv zeta.
  apply wp_bind. eapply wp_mono; [apply (wp_med3 L); [done|done|apply (elem_at _ k); lia|apply (elem_at _ (2 * k)); lia]|]. intros pl m' [Hpl ->].
  apply wp_bind. eapply wp_mono; [apply (wp_med3 L); [done|apply (elem_at _ (h - k)); lia|done|apply (elem_at _ (h + k)); lia]|]. intros pm m' [Hpm ->].
  apply wp_bind. eapply wp_mono; [apply (wp_med3 L); [done|apply (elem_at _ (n - 1 - 2 * k)); lia|apply (elem_at _ (n - 1 - k)); lia|done]|]. intros pn m' [Hpn ->].
  apply wp_ret. by apply wp_med3.
Qed.

(** ** Partition *)

Context (v : list Z) (Hv : zlen v = es).

(** Elements against the pivot [v] *)
Abbreviation eqs := (Forall (λ x, c x v = 0)).
Abbreviation lts := (Forall (λ x, c x v < 0)).
Abbreviation gts := (Forall (λ x, 0 < c x v)).

(** [scan_up] stops at an element [U] begins with that is greater than the pivot. *)
Definition scanned_up (E Lo U R : list (list Z)) (r : Z * Z * Z) (m' : mem) : Prop :=
  ∃ E' Lo' U', m' = arr (v :: E' ++ Lo' ++ U' ++ R) ∧ E' ++ Lo' ++ U' ≡ₚ E ++ Lo ++ U ∧ eqs E' ∧ lts Lo' ∧ (length U' ≤ length U)%nat ∧
    (∀ x, head U' = Some x → 0 < c x v) ∧ r.1.1 = a + zsize (v :: E') ∧ r.1.2 = a + zsize (v :: E' ++ Lo').

Lemma scanned_up_perm E Lo U R E1 Lo1 U1 r m' :
  scanned_up E1 Lo1 U1 R r m' → E1 ++ Lo1 ++ U1 ≡ₚ E ++ Lo ++ U → (length U1 ≤ length U)%nat → scanned_up E Lo U R r m'.
Proof.
  intros (E' & Lo' & U' & -> & HP & HE & HL & HU & Hh & Hr) HP1 Hlen. exists E', Lo', U'. rewrite HP. destruct Hr. split_and!; (done || lia).
Qed.

(** An element equal to the pivot joins those at the beginning. *)
Lemma wp_equal_up E Lo x R pa pb :
  sized es (E ++ Lo ++ x :: R) → pa = a + zsize (v :: E) → pb = a + zsize (v :: E ++ Lo) →
  wp (swap es st pa pb) (λ _ m', ∃ Lo', m' = arr (v :: (E ++ [x]) ++ Lo' ++ R) ∧ Lo' ≡ₚ Lo) (arr (v :: E ++ Lo ++ x :: R)).
Proof.
  intros Hs Ha Hb. destruct Lo as [|y Lo].
  - rewrite app_nil_r in Hb. rewrite Hb -Ha. eapply wp_mono; [apply (wp_exchange_self a es m Hes (v :: E) x R); [by constructor|done]|].
    intros _ m' ->. exists []. by rewrite /= -assoc.
  - eapply wp_mono; [apply (wp_exchange a es m Hes (v :: E) y Lo x R); [by constructor|by left]|].
    intros _ m' ->. exists (Lo ++ [y]). split; [by rewrite /= -!assoc /=|by rewrite Permutation_app_comm].
Qed.

Lemma wp_scan_up E Lo U R fuel pa pb pc k :
  sized es (E ++ Lo ++ U ++ R) → eqs E → lts Lo → (length U < fuel)%nat →
  pa = a + zsize (v :: E) → pb = a + zsize (v :: E ++ Lo) → pc = a + zsize (v :: E ++ Lo ++ U) - es →
  wp (scan_up cmp fuel a es st pc pa pb k) (scanned_up E Lo U R) (arr (v :: E ++ Lo ++ U ++ R)).
Proof.
  revert E Lo fuel pa pb k. induction U as [|x U IH]; intros E Lo fuel pa pb k Hs HE HL Hf Ha Hb Hc; (destruct fuel as [|fuel]; [lia|]); cbn [scan_up].
  { rewrite (proj2 (Z.leb_gt pb pc)); [|rewrite app_nil_r in Hc; lia]. apply wp_ret. exists E, Lo, []. split_and!; done. }
  assert (zlen x = es) as Hx by (move: Hs; rewrite /sized !Forall_app !Forall_cons; naive_solver).
  pose proof (zsize_nonneg U). assert (pb ≤ pc) as Hbc by (rewrite Hb Hc !zsize_cons !zsize_app zsize_cons; lia).
  rewrite (proj2 (Z.leb_le pb pc)) //. apply wp_bind.
  eapply wp_mono; [apply (wp_cmp _ (v :: E ++ Lo) x (U ++ R) [] v (E ++ Lo ++ x :: U ++ R)); [by constructor|by rewrite /= -!assoc|done|done|rewrite zsize_nil; lia]|].
  intros r m' [-> ->]. destruct (Z.leb_spec (c x v) 0) as [Hle|Hgt].
  2: { apply wp_ret. exists E, Lo, (x :: U). split_and!; try done. by intros ? [= <-]. }
  simpl in Hf. destruct (Z.eqb_spec (c x v) 0) as [Heq|Hne].
  - apply wp_bind.
    eapply wp_mono; [by apply wp_equal_up|]. intros _ m' (Lo' & -> & HLo).
    assert ((E ++ [x]) ++ Lo' ++ U ≡ₚ E ++ Lo ++ x :: U) as HP by (rewrite HLo; solve_Permutation).
    eapply wp_mono; [apply (IH (E ++ [x]) Lo')|].
    + eapply sized_perm; [|exact Hs]. rewrite HLo. solve_Permutation.
    + rewrite Forall_app Forall_singleton. done.
    + by rewrite HLo.
    + lia.
    + rewrite Ha !zsize_cons zsize_app zsize_cons zsize_nil. lia.
    + rewrite Hb !zsize_cons !zsize_app (zsize_perm _ _ HLo) zsize_cons zsize_nil. lia.
    + rewrite Hc !zsize_cons (zsize_perm _ _ HP). done.
    + intros r m' Hr. eapply scanned_up_perm; [exact Hr|done|simpl; lia].
  - rewrite (_ : E ++ Lo ++ x :: U ++ R = E ++ (Lo ++ [x]) ++ U ++ R); [|by rewrite -!assoc].
    eapply wp_mono; [apply (IH E (Lo ++ [x]))|].
    + by rewrite -!assoc.
    + done.
    + rewrite Forall_app Forall_singleton. split; [done|lia].
    + lia.
    + done.
    + rewrite Hb !zsize_cons !zsize_app zsize_cons zsize_nil. lia.
    + by rewrite Hc -!assoc.
    + intros r m' Hr. eapply scanned_up_perm; [exact Hr|by rewrite -!assoc|simpl; lia].
Qed.

(** [scan_down] stops at an element [U] ends with that is less than the pivot. *)
Definition scanned_down (P U G F : list (list Z)) (r : Z * Z * Z) (m' : mem) : Prop :=
  ∃ U' G' F', m' = arr (v :: P ++ U' ++ G' ++ F') ∧ U' ++ G' ++ F' ≡ₚ U ++ G ++ F ∧ gts G' ∧ eqs F' ∧ U' `prefix_of` U ∧
    (∀ x, last U' = Some x → c x v < 0) ∧ r.1.1 = a + zsize (v :: P ++ U') - es ∧ r.1.2 = a + zsize (v :: P ++ U' ++ G') - es.

Lemma scanned_down_perm P U G F U1 G1 F1 r m' :
  scanned_down P U1 G1 F1 r m' → U1 ++ G1 ++ F1 ≡ₚ U ++ G ++ F → U1 `prefix_of` U → scanned_down P U G F r m'.
Proof.
  intros (U' & G' & F' & -> & HP & HG & HF & HU & Hl & Hr) HP1 Hpre. exists U', G', F'. destruct Hr.
  split_and!; try done; by etrans.
Qed.

(** An element equal to the pivot joins those at the end. *)
Lemma wp_equal_down P G x F pc pd :
  sized es (P ++ x :: G ++ F) → pc = a + zsize (v :: P) → pd = a + zsize (v :: P ++ x :: G) - es →
  wp (swap es st pc pd) (λ _ m', ∃ G', m' = arr (v :: P ++ G' ++ x :: F) ∧ G' ≡ₚ G) (arr (v :: P ++ x :: G ++ F)).
Proof.
  intros Hs Hc Hd. destruct G as [|y G _] using rev_ind.
  - assert (zlen x = es) as Hx by (move: Hs; rewrite /sized !Forall_app !Forall_cons; naive_solver).
    rewrite (_ : pd = pc); [|rewrite Hd Hc !zsize_cons zsize_app zsize_cons zsize_nil; lia].
    eapply wp_mono; [apply (wp_exchange_self a es m Hes (v :: P) x F); [by constructor|done]|]. intros _ m' ->. by exists [].
  - rewrite -assoc in Hs |- *. assert (zlen y = es) as Hy by (move: Hs; rewrite /sized !Forall_app !Forall_cons !Forall_app !Forall_cons; naive_solver).
    eapply wp_mono; [apply (wp_exchange a es m Hes (v :: P) x G y F); [by constructor|left; split; [done|]]|].
    { rewrite Hd app_comm_cons !zsize_app !zsize_cons !zsize_app zsize_cons zsize_nil. lia. }
    intros _ m' ->. exists (y :: G). split; [done|]. by rewrite Permutation_app_comm.
Qed.

Lemma wp_scan_down P U G F fuel pb pc pd k :
  sized es (P ++ U ++ G ++ F) → gts G → eqs F → (length U < fuel)%nat →
  pb = a + zsize (v :: P) → pc = a + zsize (v :: P ++ U) - es → pd = a + zsize (v :: P ++ U ++ G) - es →
  wp (scan_down cmp fuel a es st pb pc pd k) (scanned_down P U G F) (arr (v :: P ++ U ++ G ++ F)).
Proof.
  revert G F fuel pc pd k. induction U as [|x U IH] using rev_ind; intros G F fuel pc pd k Hs HG HF Hf Hb Hc Hd; (destruct fuel as [|fuel]; [lia|]); cbn [scan_down].
  { rewrite (proj2 (Z.leb_gt pb pc)); [|rewrite app_nil_r in Hc; lia]. apply wp_ret. exists [], G, F. split_and!; done. }
  rewrite -assoc in Hs Hd |- *. simpl in Hs. assert (zlen x = es) as Hx by (move: Hs; rewrite /sized !Forall_app !Forall_cons; naive_solver).
  pose proof (zsize_nonneg U). assert (pc = a + zsize (v :: P ++ U)) as Hc' by (rewrite Hc; autorewrite with zsize; lia).
  assert (pb ≤ pc) as Hbc by (rewrite Hb Hc'; autorewrite with zsize; lia).
  rewrite (proj2 (Z.leb_le pb pc)) //. rewrite length_app /= in Hf. apply wp_bind.
  eapply wp_mono; [apply (wp_cmp _ (v :: P ++ U) x (G ++ F) [] v (P ++ U ++ x :: G ++ F)); [by constructor|by rewrite /= -!assoc|done|done|rewrite zsize_nil; lia]|].
  intros r m' [-> ->]. rewrite Z.geb_leb. destruct (Z.leb_spec 0 (c x v)) as [Hge|Hlt].
  2: { apply wp_ret. exists (U ++ [x]), G, F. split_and!; try done; [by rewrite -!assoc|intros ?; by rewrite last_snoc => -[= <-]]. }
  destruct (Z.eqb_spec (c x v) 0) as [Heq|Hne].
  - apply wp_bind. rewrite (_ : P ++ U ++ [x] ++ G ++ F = (P ++ U) ++ x :: G ++ F); [|by rewrite -assoc]. eapply wp_mono; [apply (wp_equal_down (P ++ U) G x F); [by rewrite -assoc|done|rewrite Hd; autorewrite with zsize; lia]|]. intros _ m' (G' & -> & HG').
    rewrite -assoc. assert (U ++ G' ++ x :: F ≡ₚ (U ++ [x]) ++ G ++ F) as HP by (rewrite HG'; solve_Permutation).
    eapply wp_mono; [apply (IH G' (x :: F))|].
    + eapply sized_perm; [|exact Hs]. rewrite HG'. solve_Permutation.
    + by rewrite HG'.
    + by constructor.
    + lia.
    + done.
    + by rewrite Hc'.
    + rewrite Hd. autorewrite with zsize. rewrite (zsize_perm _ _ HG'). lia.
    + intros r m' Hr. eapply scanned_down_perm; [exact Hr|done|by eexists].
  - eapply wp_mono; [apply (IH (x :: G) F)|].
    + done.
    + constructor; [lia|done].
    + done.
    + lia.
    + done.
    + by rewrite Hc'.
    + rewrite Hd. autorewrite with zsize. lia.
    + intros r m' Hr. eapply scanned_down_perm; [exact Hr|by rewrite -!assoc|by eexists].
Qed.

(** The array partitioned: the elements equal to the pivot at both ends, the lesser ones
    and the greater ones between *)
Definition partitioned (U : list (list Z)) (r : Z * Z * Z * Z * Z) (m' : mem) : Prop :=
  ∃ E Lo G F, m' = arr (v :: E ++ Lo ++ G ++ F) ∧ E ++ Lo ++ G ++ F ≡ₚ U ∧ eqs E ∧ lts Lo ∧ gts G ∧ eqs F ∧
    let '(pa, pb, pc, pd, _) := r in
    pa = a + zsize (v :: E) ∧ pb = a + zsize (v :: E ++ Lo) ∧ pc = pb - es ∧ pd = a + zsize (v :: E ++ Lo ++ G) - es.

(** What is left between the two scans begins with an element to move up and ends with
    one to move down. *)
Lemma between U U1 : U1 `prefix_of` U → (∀ x, head U = Some x → 0 < c x v) → (∀ x, last U1 = Some x → c x v < 0) →
  U1 = [] ∨ ∃ x W y, U1 = x :: W ++ [y] ∧ 0 < c x v ∧ c y v < 0.
Proof.
  intros [k ->] Hh Hl. destruct U1 as [|x U1]; [by left|]. right. specialize (Hh x eq_refl).
  destruct U1 as [|y W _] using rev_ind; [specialize (Hl x eq_refl); lia|]. exists x, W, y. split_and!; [done..|].
  apply Hl. by rewrite app_comm_cons last_snoc.
Qed.

Lemma sized_ends P x W y R : sized es (P ++ (x :: W ++ [y]) ++ R) → zlen x = es ∧ zlen y = es.
Proof. rewrite /sized !Forall_app Forall_cons Forall_app Forall_singleton. naive_solver. Qed.

Lemma wp_exchange_ends E Lo x W y G F p q :
  sized es ((E ++ Lo) ++ (x :: W ++ [y]) ++ G ++ F) → p = a + zsize (v :: E ++ Lo) → q = a + zsize (v :: E ++ Lo ++ x :: W) →
  wp (swap es st p q) (λ _ m', m' = arr (v :: E ++ (Lo ++ [y]) ++ W ++ (x :: G) ++ F)) (arr (v :: (E ++ Lo) ++ (x :: W ++ [y]) ++ G ++ F)).
Proof.
  intros Hs -> ->. rewrite (_ : (x :: W ++ [y]) ++ G ++ F = x :: W ++ y :: G ++ F) in Hs |- *; [|by rewrite /= -assoc].
  eapply wp_mono; [apply (wp_exchange a es m Hes (v :: E ++ Lo) x W y (G ++ F)); [by constructor|left; split; [done|by rewrite /= -assoc]]|].
  intros _ m' ->. by rewrite /= -!assoc.
Qed.

Lemma wp_partition_loop E Lo U G F n fuel pa pb pc pd k :
  sized es (E ++ Lo ++ U ++ G ++ F) → eqs E → lts Lo → gts G → eqs F → (length U < fuel)%nat → zlen U ≤ n →
  pa = a + zsize (v :: E) → pb = a + zsize (v :: E ++ Lo) → pc = a + zsize (v :: E ++ Lo ++ U) - es → pd = a + zsize (v :: E ++ Lo ++ U ++ G) - es →
  wp (partition_loop cmp fuel n a es st pa pb pc pd k) (partitioned (E ++ Lo ++ U ++ G ++ F)) (arr (v :: E ++ Lo ++ U ++ G ++ F)).
Proof.
  revert E Lo U G F pa pb pc pd k. induction fuel as [|fuel IH]; intros E Lo U G F pa pb pc pd k Hs HE HL HG HF Hf Hn Ha Hb Hc Hd; [lia|]; cbn [partition_loop].
  apply wp_bind. eapply wp_mono; [apply (wp_scan_up E Lo U (G ++ F)); [done..|lia|done|done|done]|].
  intros [[pa1 pb1] k1] m' (E1 & Lo1 & U1 & -> & HP1 & HE1 & HL1 & HU1 & Hh & Ha1 & Hb1). simpl in Ha1, Hb1.
  assert (E1 ++ Lo1 ++ U1 ++ G ++ F ≡ₚ E ++ Lo ++ U ++ G ++ F) as HP by (rewrite !assoc -(assoc _ E1) -(assoc _ E) HP1 //).
  pose proof (sized_perm _ _ _ (symmetry HP) Hs) as Hs1. rewrite !zsize_cons -(zsize_perm _ _ HP1) -!zsize_cons in Hc.
  assert (pd = a + zsize (v :: E1 ++ Lo1 ++ U1 ++ G) - es) as Hd1.
  { rewrite Hd !zsize_cons. pose proof (zsize_perm _ _ HP) as X. autorewrite with zsize in X |- *. lia. }
  clear Hd. apply wp_bind. rewrite (assoc _ E1 Lo1) in Hs1, Hc, Hd1 |- *.
  eapply wp_mono; [apply (wp_scan_down (E1 ++ Lo1) U1 G F); [done..|lia|done|by rewrite Hc -assoc|by rewrite Hd1 -assoc]|].
  intros [[pc1 pd1] k2] m' (U2 & G2 & F2 & -> & HP2 & HG2 & HF2 & HU2 & Hl & Hc2 & Hd2). simpl in Hc2, Hd2.
  assert ((E1 ++ Lo1) ++ U2 ++ G2 ++ F2 ≡ₚ E ++ Lo ++ U ++ G ++ F) as HP3 by (rewrite HP2 -assoc //).
  pose proof (sized_perm _ _ _ (symmetry HP3) Hs) as Hs3. destruct (between U1 U2) as [->|(x & W & y & -> & Hx & Hy)]; [done..| |].
  - rewrite (proj2 (Z.gtb_lt _ _)); [|rewrite app_nil_r in Hc2; lia]. apply wp_ret. exists E1, Lo1, G2, F2.
    rewrite -assoc in HP3 Hd2 Hc2 |- *. rewrite app_nil_r in Hc2. split_and!; try done; [lia|by rewrite Hd2 -assoc].
  - destruct (sized_ends _ _ _ _ _ Hs3) as [Hx' Hy']. pose proof (zsize_nonneg W). rewrite Hc2 Hd2. autorewrite with zsize.
    rewrite Z.gtb_ltb (proj2 (Z.ltb_ge _ _)); [|rewrite Hb1; autorewrite with zsize; lia].
    apply wp_bind. eapply wp_mono; [apply wp_exchange_ends; [done|done|autorewrite with zsize; lia]|]. intros _ m' ->.
    assert (E1 ++ (Lo1 ++ [y]) ++ W ++ (x :: G2) ++ F2 ≡ₚ E ++ Lo ++ U ++ G ++ F) as HP5 by (rewrite -HP3; solve_Permutation).
    eapply wp_mono; [apply (IH E1 (Lo1 ++ [y]) W (x :: G2) F2)|].
    + by eapply sized_perm.
    + done.
    + by rewrite Forall_app Forall_singleton.
    + by constructor.
    + done.
    + apply prefix_length in HU2. rewrite /= length_app /= in HU2. lia.
    + apply prefix_length in HU2. rewrite /= length_app /= in HU2. lia.
    + done.
    + rewrite Hb1. autorewrite with zsize. lia.
    + autorewrite with zsize. lia.
    + autorewrite with zsize. lia.
    + intros [[[[pa' pb'] pc'] pd'] k'] m' (E' & Lo' & G' & F' & -> & HP' & Hr). exists E', Lo', G', F'. split_and!; [done|by rewrite HP'|apply Hr..].
Qed.

(** The partition from the beginning *)
Lemma wp_partition U n pe : sized es (v :: U) → zlen (v :: U) = n → pe = a + zsize U →
  wp (partition_loop cmp (S (Z.to_nat n)) n a es st (a + es) (a + es) pe pe 0) (partitioned U) (arr (v :: U)).
Proof.
  intros Hs Hn ->. apply Forall_cons in Hs as [_ Hs]. simpl in Hn. pose proof (wp_partition_loop [] [] U [] [] n) as W.
  rewrite /= !app_nil_r in W. apply W; try done; try constructor; rewrite ?zsize_cons ?zsize_nil; lia.
Qed.
End loops.
