(* ===== verification/SortRun.v ===== *)
(** * Sorting and searching: [qsort], [bsearch] and [rand]

    [qsort] sorts, for every total order; [bsearch] finds, and where it does not; and
    runs of them. *)

From S2P Require Import Prelude Bytes Mem Libc LibcMem Sort SortSpec SortLoops.

(** ** [qsort] *)

Section qsort.
Context (cmp : Z → Z → M mem Z) (c : list Z → list Z → Z) (es : Z) `{!Ordering c} `{!Compares es cmp c} (Hes : 0 < es < 2 ^ 31).
Implicit Types (x y v : list Z) (A B C L : list (list Z)).

Abbreviation le := (λ x y, c x y ≤ 0).

Section array.
Context (a : Z) (m : mem).

Abbreviation arr L := (blit a (concat L) m).
Abbreviation st := (SWAPINIT a es).

(** Two blocks of the same number of elements exchanged *)
Lemma wp_blocks A X Y W C p q n :
  sized es (A ++ X ++ Y ++ W ++ C) → zsize X = zsize W → 0 < zsize X < 2 ^ 31 → p = a + zsize A → q = a + zsize (A ++ X ++ Y) → n = zsize X →
  wp (swapfunc p q n st) (λ _ m', m' = arr (A ++ W ++ Y ++ X ++ C)) (arr (A ++ X ++ Y ++ W ++ C)).
Proof.
  intros Hs Hl Hn -> -> ->. rewrite /sized !Forall_app in Hs. destruct Hs as (HA & HX & HY & HW & HC).
  eapply wp_mono; [apply (wp_swap_ends (concat X) (concat Y) (concat W))|].
  - rewrite /zsize in Hl. lia.
  - done.
  - by apply movable_at.
  - apply movable_at; [|done]. by rewrite /sized !Forall_app.
  - rewrite -concat_app. fold (zsize (X ++ Y)). rewrite zsize_app. lia.
  - rewrite -!concat_app (_ : A ++ X ++ Y ++ W ++ C = A ++ (X ++ Y ++ W) ++ C); [apply has_part|by rewrite -!assoc].
  - intros _ m' ->. rewrite -!concat_app (_ : A ++ X ++ Y ++ W ++ C = A ++ (X ++ Y ++ W) ++ C); [|by rewrite -!assoc].
    rewrite arr_mid; [by rewrite -!assoc|]. rewrite !zsize_app. lia.
Qed.

(** [vecswap] brings one part of the array in front of the one before it. *)
Lemma wp_vecswap A X Y C r p q :
  sized es (A ++ X ++ Y ++ C) → zsize (A ++ X ++ Y ++ C) < 2 ^ 31 → r = Z.min (zsize X) (zsize Y) → p = a + zsize A → q = a + zsize (A ++ X ++ Y) - r →
  wp (vecswap st p q r) (λ _ m', ∃ X' Y', m' = arr (A ++ Y' ++ X' ++ C) ∧ X' ≡ₚ X ∧ Y' ≡ₚ Y) (arr (A ++ X ++ Y ++ C)).
Proof.
  intros Hs Hsz Hr -> Hq. pose proof Hs as Hs'. rewrite /sized !Forall_app in Hs'. destruct Hs' as (HA & HX & HY & HC).
  rewrite !zsize_app in Hsz. pose proof (zsize_nonneg A). pose proof (zsize_nonneg C). pose proof (zsize_nonneg X). pose proof (zsize_nonneg Y).
  assert (zsize X = zlen X * es) as EX by (by apply sized_zsize). assert (zsize Y = zlen Y * es) as EY by (by apply sized_zsize).
  rewrite /vecswap Z.gtb_ltb. apply wp_when; intros Hpos; to_prop.
  2: { assert (X = [] ∨ Y = []) as [-> | ->] by (destruct X, Y; auto; simpl in EX, EY; lia); [by exists [], Y|by exists X, []]. }
  destruct (decide (length X ≤ length Y)%nat) as [Hle|Hgt].
  - rewrite Z.min_l in Hr; [|nia]. rewrite -(take_drop (length Y - length X) Y) in Hs |- *.
    set (Y1 := take _ Y) in *. set (Y2 := drop _ Y) in *. assert (Y = Y1 ++ Y2) as EYY by (by rewrite take_drop).
    assert (zsize Y2 = zlen X * es) as EY2 by (rewrite (sized_zsize es); [rewrite length_drop; f_equal; lia|by apply Forall_drop]).
    rewrite -assoc in Hs |- *. eapply wp_mono; [apply wp_blocks; [done|lia|lia|done| |done]|].
    { rewrite Hq EYY Hr !zsize_app. lia. }
    intros _ m' ->. exists X, (Y2 ++ Y1). split_and!; [by rewrite -!assoc|done|by rewrite Permutation_app_comm].
  - rewrite Z.min_r in Hr; [|nia]. rewrite -(take_drop (length Y) X) in Hs Hq |- *. set (X1 := take _ X) in *. set (X2 := drop _ X) in *.
    assert (zsize X1 = zlen Y * es) as EX1 by (rewrite (sized_zsize es); [rewrite length_take; f_equal; lia|by apply Forall_take]).
    rewrite -assoc in Hs Hq |- *. eapply wp_mono; [apply wp_blocks; [done|lia|lia|done| |lia]|].
    { rewrite Hq Hr !zsize_app. lia. }
    intros _ m' ->. exists (X2 ++ X1), Y. split_and!; [by rewrite -!assoc|by rewrite Permutation_app_comm|done].
Qed.

(** The chosen element becomes the first. *)
Lemma wp_take_pivot L p : sized es L → elem es a L p →
  wp (swap es st a p) (λ _ m', ∃ v U, m' = arr (v :: U) ∧ v :: U ≡ₚ L) (arr L).
Proof.
  intros Hs (A & x & C & -> & ->)%elem_split; [|done]. destruct A as [|y A].
  - rewrite zsize_nil Z.add_0_r. eapply wp_mono; [apply (wp_exchange_self a es m Hes [] x C); [done|rewrite zsize_nil; lia]|].
    intros _ m' ->. by exists x, C.
  - eapply wp_mono; [apply (wp_exchange a es m Hes [] y A x C); [done|left; rewrite zsize_nil; split; [lia|done]]|].
    intros _ m' ->. exists x, (A ++ y :: C). split; [done|]. solve_Permutation.
Qed.

(** ** The recursive calls *)

(** [qsort] sorts any array of at most [k] elements. *)
Definition sorts (fuel k : nat) : Prop := ∀ b L (m : mem),
  sized es L → (length L ≤ k)%nat → zsize L < 2 ^ 31 → has m b (concat L) →
  wp (qsort cmp fuel b (zlen L) es) (λ _ m', ∃ L', m' = blit b (concat L') m ∧ L' ≡ₚ L ∧ StronglySorted le L') m.

Lemma wp_part fuel k A P C p r n : sorts fuel k → (length P ≤ k)%nat → zsize P < 2 ^ 31 → sized es P → p = a + zsize A → r = zsize P → n = u64 r / es →
  wp (when (r >? es) (qsort cmp fuel p n es))
    (λ _ m', ∃ P', m' = arr (A ++ P' ++ C) ∧ P' ≡ₚ P ∧ StronglySorted le P') (arr (A ++ P ++ C)).
Proof.
  intros IH Hk Hsz HP -> -> ->. pose proof (zsize_nonneg P). rewrite u64_small; [|lia]. apply wp_when; intros Hr; to_prop.
  - rewrite (_ : zsize P / es = zlen P); [|rewrite (sized_zsize es) // Z.div_mul; lia].
    eapply wp_mono; [apply IH; [done..|apply has_part]|]. intros _ m' (P' & -> & HP' & Hs). exists P'. split_and!; [|done..].
    apply arr_mid. by rewrite (zsize_perm _ _ HP').
  - exists P. split_and!; [done..|]. rewrite (sized_zsize es) // in Hr. destruct P as [|x [|y P]]; [constructor|by repeat constructor|simpl in Hr; nia].
Qed.

Lemma sorted_blocks v A B C :
  Forall (λ x, c x v < 0) A → Forall (λ x, c x v = 0) B → Forall (λ x, 0 < c x v) C →
  StronglySorted le A → StronglySorted le C → StronglySorted le (A ++ B ++ C).
Proof.
  rewrite !Forall_forall. intros HA HB HC SA SC.
  assert (∀ x y, x ∈ B → y ∈ B → c x y ≤ 0) as HBB.
  { intros x y Hx Hy. apply (c_trans _ v); [by rewrite HB|]. by rewrite (c_eq c) ?HB. }
  apply StronglySorted_app. split_and!; [|done|apply StronglySorted_app; split_and!; [| |done]].
  - intros x y Hx [Hy|Hy]%elem_of_app; apply (c_trans _ v); try (by apply Z.lt_le_incl, HA); [by rewrite (c_eq c) ?HB|by apply (c_gt c), HC].
  - intros x y Hx Hy. apply (c_trans _ v); [by rewrite HB|by apply (c_gt c), HC].
  - clear HB. induction B as [|x B IH]; [constructor|]. constructor; [apply IH; intros; apply HBB; set_solver|].
    apply Forall_forall. intros y Hy. apply HBB; set_solver.
Qed.

Lemma wp_calls fuel k v A B C r s p :
  sorts fuel k → sized es (A ++ B ++ C) → (length A ≤ k)%nat → (length C ≤ k)%nat → zsize (A ++ B ++ C) < 2 ^ 31 →
  Forall (λ x, c x v < 0) A → Forall (λ x, c x v = 0) B → Forall (λ x, 0 < c x v) C → r = zsize A → s = zsize C → p = a + zsize (A ++ B) →
  wp (when (r >? es) (qsort cmp fuel a (u64 r / es) es);; when (s >? es) (qsort cmp fuel p (u64 s / es) es))
    (λ _ m', ∃ L, m' = arr L ∧ L ≡ₚ A ++ B ++ C ∧ StronglySorted le L) (arr (A ++ B ++ C)).
Proof.
  intros IH Hs HkA HkC Hsz HA HB HC -> -> ->. rewrite /sized !Forall_app in Hs. destruct Hs as (SA & SB & SC).
  rewrite !zsize_app in Hsz. pose proof (zsize_nonneg A). pose proof (zsize_nonneg B). pose proof (zsize_nonneg C). apply wp_bind.
  eapply wp_mono; [apply (wp_part fuel k [] A (B ++ C)); [done|done|lia|done|rewrite zsize_nil; lia|done|done]|].
  intros _ m' (A' & -> & PA & HsA). rewrite (_ : [] ++ A' ++ B ++ C = (A' ++ B) ++ C ++ []); [|by rewrite app_nil_r -assoc].
  eapply wp_mono; [apply (wp_part fuel k (A' ++ B) C []); [done|done|lia|done|by rewrite !zsize_app (zsize_perm _ _ PA)|done|done]|].
  intros _ m' (C' & -> & PC & HsC). exists (A' ++ B ++ C'). rewrite app_nil_r -assoc. split_and!; [done|by rewrite PA PC|].
  apply (sorted_blocks v); [by rewrite PA|done|by rewrite PC|done|done].
Qed.

(** What follows the partition: the lesser elements, the equal ones, the greater ones, and
    the two calls *)
Definition finish (fuel : nat) (n : Z) (r : Z * Z * Z * Z * Z) : M mem unit :=
  let '(pa, pb, pc, pd, _) := r in
  let pn := a + u64 (n * es) in
  let r := s32 (Z.min (pa - a) (pb - pa)) in
  vecswap st a (pb - r) r;;
  let r := s32 (Z.min (pd - pc) (pn - pd - s32 es)) in
  vecswap st pb (pn - r) r;;
  let r := s32 (pb - pa) in
  when (r >? s32 es) (qsort cmp fuel a (u64 r / es) es);;
  let r := s32 (pd - pc) in
  when (r >? s32 es) (qsort cmp fuel (pn - r) (u64 r / es) es).

Lemma wp_finish fuel k v U n r m1 :
  sorts fuel k → sized es (v :: U) → (length U ≤ k)%nat → zlen (v :: U) = n → zsize (v :: U) < 2 ^ 31 → partitioned c es a m v U r m1 →
  wp (finish fuel n r) (λ _ m', ∃ L, m' = arr L ∧ L ≡ₚ v :: U ∧ StronglySorted le L) m1.
Proof.
  intros IH Hs Hk Hn Hsz (E & Lo & G & F & -> & HP & HE & HL & HG & HF & Hr). destruct r as [[[[pa pb] pc] pd] cnt]. destruct Hr as (-> & -> & -> & ->).
  pose proof (Permutation_length HP) as Hlen. rewrite !length_app in Hlen. assert (v :: E ++ Lo ++ G ++ F ≡ₚ v :: U) as HP' by (by rewrite HP).
  pose proof (sized_perm _ _ _ (symmetry HP') Hs) as Hs'. assert (zlen v = es) as Hv by (by apply Forall_cons in Hs as [? _]).
  assert (n * es = zsize (v :: E ++ Lo ++ G ++ F)) as En by (rewrite (zsize_perm _ _ HP') (sized_zsize es) // Hn //).
  rewrite -(zsize_perm _ _ HP') in Hsz. set (L0 := v :: E ++ Lo ++ G ++ F) in *.
  pose proof (zsize_nonneg E). pose proof (zsize_nonneg Lo). pose proof (zsize_nonneg G). pose proof (zsize_nonneg F).
  assert (zsize L0 = zsize (v :: E) + zsize Lo + zsize G + zsize F) as EL by (rewrite /L0; autorewrite with zsize; lia).
  assert (zsize (v :: E) = es + zsize E) as EE by (rewrite zsize_cons Hv //).
  rewrite /finish En. rewrite (u64_small (zsize L0)); [|lia]. rewrite (s32_small es); [|lia].
  rewrite (_ : a + zsize (v :: E) - a = zsize (v :: E)); [|lia].
  rewrite (_ : a + zsize (v :: E ++ Lo) - (a + zsize (v :: E)) = zsize Lo); [|rewrite app_comm_cons zsize_app; lia].
  rewrite (_ : a + zsize (v :: E ++ Lo ++ G) - es - (a + zsize (v :: E ++ Lo) - es) = zsize G); [|rewrite !app_comm_cons !zsize_app; lia].
  rewrite (_ : a + zsize L0 - (a + zsize (v :: E ++ Lo ++ G) - es) - es = zsize F); [|rewrite !app_comm_cons !zsize_app; lia].
  rewrite !s32_small; [|lia..]. cbv zeta. rewrite /L0. apply wp_bind.
  eapply wp_mono; [apply (wp_vecswap [] (v :: E) Lo (G ++ F)); [done|exact Hsz|done|rewrite zsize_nil; lia|done]|].
  intros _ m' (X & Lo1 & -> & HX & HLo). apply wp_bind. rewrite (_ : [] ++ Lo1 ++ X ++ G ++ F = (Lo1 ++ X) ++ G ++ F ++ []); [|by rewrite app_nil_r -assoc].
  assert (L0 ≡ₚ (Lo1 ++ X) ++ G ++ F ++ []) as HP1 by (rewrite HLo HX /L0; solve_Permutation).
  eapply wp_mono; [apply wp_vecswap; [by eapply sized_perm|rewrite -(zsize_perm _ _ HP1); lia|done| |]|].
  { rewrite app_comm_cons !zsize_app (zsize_perm _ _ HLo) (zsize_perm _ _ HX). lia. }
  { rewrite (zsize_perm _ _ HP1) app_nil_r. lia. }
  intros _ m' (G1 & F1 & -> & HG1 & HF1). rewrite app_nil_r -assoc (assoc _ X).
  assert (L0 ≡ₚ Lo1 ++ (X ++ F1) ++ G1) as HP2 by (rewrite HP1 HG1 HF1; solve_Permutation).
  rewrite (_ : a + zsize (v :: E ++ Lo ++ G ++ F) - zsize G = a + zsize (Lo1 ++ X ++ F1)).
  2: { fold L0. rewrite (zsize_perm _ _ HP2) !zsize_app (zsize_perm _ _ HG1). lia. }
  eapply wp_mono; [apply (wp_calls fuel k v Lo1 (X ++ F1) G1); try done|].
  - by eapply sized_perm.
  - rewrite (Permutation_length HLo). lia.
  - rewrite (Permutation_length HG1). lia.
  - rewrite -(zsize_perm _ _ HP2). lia.
  - by rewrite HLo.
  - rewrite HX HF1 Forall_app Forall_cons. split_and!; [|done..]. pose proof (c_flip v v). lia.
  - by rewrite HG1.
  - by rewrite (zsize_perm _ _ HLo).
  - by rewrite (zsize_perm _ _ HG1).
  - intros _ m' (L & -> & HL' & ?). exists L. split_and!; [done|by rewrite HL' -HP2|done].
Qed.

(** Insertion sort of the whole array *)
Lemma wp_insertion_all L n : sized es L → zlen L = n → zsize L < 2 ^ 31 →
  wp (insertion cmp (S (Z.to_nat n)) a n es st (a + es)) (λ _ m', ∃ L', m' = arr L' ∧ L' ≡ₚ L ∧ StronglySorted le L') (arr L).
Proof.
  intros Hs Hn Hsz. destruct L as [|x L].
  - rewrite -Hn /=. rewrite (proj2 (Z.ltb_ge _ _)); [|rewrite u64_small; lia]. apply wp_ret. exists []. split_and!; [done..|constructor].
  - apply (wp_insertion cmp c es a m Hes [x] L); [done|by repeat constructor|simpl in Hn; lia| |done|done].
    apply Forall_cons in Hs as [Hx _]. rewrite zsize_cons zsize_nil. lia.
Qed.
End array.

Lemma wp_qsort fuel k : (k < fuel)%nat → sorts fuel k.
Proof.
  revert k. induction fuel as [|fuel IH]; intros k Hk; [lia|]. intros a L m Hs Hlen Hsz Hm. rewrite -{2}(blit_same a (concat L) m Hm). cbn [qsort].
  case_match eqn:H7; to_prop; [by apply wp_insertion_all|].
  apply wp_bind. eapply wp_mono; [apply (wp_pivot cmp c es a m Hes L); [done|done|lia|done]|]. intros pm m' [Hpm ->].
  apply wp_bind. eapply wp_mono; [by apply wp_take_pivot|]. intros _ m' (v & U & -> & HP).
  pose proof (sized_perm _ _ _ (symmetry HP) Hs) as Hs'. pose proof (Permutation_length HP) as Hl. rewrite -(zsize_perm _ _ HP) in Hsz.
  assert (zlen v = es) as Hv by (by apply Forall_cons in Hs' as [? _]). pose proof (sized_zsize _ _ Hs') as Hz. pose proof (zsize_nonneg U). rewrite zsize_cons in Hsz Hz.
  rewrite -Hl (_ : u64 ((zlen (v :: U) - 1) * es) = zsize U); [|rewrite u64_small; lia]. cbv zeta. apply wp_bind.
  eapply wp_mono; [by apply (wp_partition cmp c es a m Hes v Hv)|]. intros [[[[pa pb] pc] pd] cnt] m1 Hpart.
  destruct (cnt =? 0).
  - destruct Hpart as (E & Lo & G & F & -> & HU & _). assert (v :: E ++ Lo ++ G ++ F ≡ₚ v :: U) as HV by (by rewrite HU).
    eapply wp_mono; [apply (wp_insertion_all a m (v :: E ++ Lo ++ G ++ F)); [by eapply sized_perm|by rewrite HV|rewrite (zsize_perm _ _ HV) zsize_cons; lia]|].
    intros _ m' (L' & -> & HL' & ?). exists L'. split_and!; [done|by rewrite HL' HV|done].
  - eapply wp_mono; [apply (wp_finish a m fuel (length U) v U _ (pa, pb, pc, pd, cnt)); [|done|lia|done|by rewrite zsize_cons|done]|].
    + apply IH. simpl in Hl. lia.
    + intros _ m' (L' & -> & HL' & ?). exists L'. split_and!; [done|by rewrite HL'|done].
Qed.
End qsort.

(** ** [bsearch]

    On a sorted array [bsearch] finds an element that compares equal to the key.  When there
    is none, the search can end with an empty range, and then the next element it looks at
    is [2 ^ 63 - 1] elements further on; the address is inside the array again only when the
    size of the elements is even. *)

Section bsearch.
Context (cmp : Z → Z → M mem Z) (c : list Z → list Z → Z) (es : Z) `{!Ordering c} `{!Compares es cmp c} (Hes : 0 < es < 2 ^ 31).
Context (m : mem) (key base : Z) (k : list Z) (L : list (list Z)).
Context (Hk : zlen k = es) (Hkey : has m key k).
Context (Hs : sized es L) (HL : has m base (concat L)) (Hbase : 0 ≤ base) (Hend : base + zsize L ≤ 2 ^ 64) (Hn : zlen L < 2 ^ 63).
Context (Hsorted : StronglySorted (λ x y, c x y ≤ 0) L).

Lemma sorted_lookup i j x y : L !! i = Some x → L !! j = Some y → (i < j)%nat → c x y ≤ 0.
Proof.
  intros Hi Hj Hij. pose proof Hsorted as H. rewrite -(take_drop_middle L i x Hi) in H. apply StronglySorted_app in H as (_ & _ & H).
  apply StronglySorted_cons in H as [H _]. rewrite Forall_forall in H. apply H. apply list_elem_of_lookup. exists (j - S i)%nat. rewrite lookup_drop -Hj. f_equal. lia.
Qed.

(** The key is before the elements that follow one that it is before. *)
Lemma before_mono i j x y : L !! i = Some x → L !! j = Some y → (i ≤ j)%nat → c k x < 0 → c k y < 0.
Proof.
  intros Hi Hj Hij Hx. destruct (decide (i = j)) as [->|]; [congruence|]. pose proof (sorted_lookup i j x y Hi Hj ltac:(lia)).
  apply c_flip in Hx. destruct (decide (c k y < 0)) as [|Hge]; [done|]. rewrite c_flip in Hge.
  pose proof (c_trans x y k). lia.
Qed.

Lemma after_mono i j x y : L !! i = Some x → L !! j = Some y → (i ≤ j)%nat → 0 < c k y → 0 < c k x.
Proof.
  intros Hi Hj Hij Hy. destruct (decide (i = j)) as [->|]; [congruence|]. pose proof (sorted_lookup i j x y Hi Hj ltac:(lia)).
  apply c_flip in Hy. apply c_flip. destruct (decide (c x k < 0)) as [|Hge]; [done|].
  pose proof (c_flip k x). pose proof (c_flip x k). pose proof (c_trans k x y). pose proof (c_flip k y). pose proof (c_flip y k). lia.
Qed.

Lemma has_lookup i x : L !! i = Some x → has m (base + Z.of_nat i * es) x ∧ zlen x = es ∧ base + Z.of_nat i * es < 2 ^ 64.
Proof.
  intros Hi. pose proof (lookup_lt_Some _ _ _ Hi). assert (zlen x = es) as Hx by (apply (Forall_lookup_1 _ L i x Hs Hi)).
  assert (zsize (take i L) = Z.of_nat i * es) as Ht by (rewrite (sized_zsize es); [rewrite length_take; f_equal; lia|by apply Forall_take]).
  pose proof Hend as He. rewrite (sized_zsize es L) // in He. split_and!; [|done|nia].
  pose proof HL as H1. rewrite -(take_drop_middle L i x Hi) concat_app /= in H1. apply has_app in H1 as [_ H2]. apply has_app in H2 as [H2 _]. by rewrite -Ht.
Qed.

(** What [bsearch] is to return *)
Definition search_result (r : option Z) : Prop :=
  match r with
  | Some p => ∃ i x, L !! i = Some x ∧ p = base + Z.of_nat i * es ∧ c k x = 0
  | None => ∀ x, x ∈ L → c k x ≠ 0
  end.

Lemma nothing_left low high :
  low = high + 1 → (∀ i x, L !! i = Some x → Z.of_nat i < low → 0 < c k x) → (∀ i x, L !! i = Some x → high < Z.of_nat i → c k x < 0) →
  search_result None.
Proof.
  intros -> Hlo Hhi x [i Hi]%list_elem_of_lookup. destruct (decide (Z.of_nat i < high + 1)) as [H|H]; [specialize (Hlo i x Hi H)|specialize (Hhi i x Hi ltac:(lia))]; lia.
Qed.

(** A look at the element [i] *)
Lemma wp_look i x p : L !! i = Some x → p = base + Z.of_nat i * es → wp (cmp key p) (λ r m', r = c k x ∧ m' = m) m.
Proof. intros Hi ->. destruct (has_lookup i x Hi) as (? & ? & _). by apply compares. Qed.

(** With nothing left, an even size brings the address back to the element before. *)
Lemma wp_empty_round fuel low high :
  Z.even es = true → low = high + 1 → 0 ≤ high < zlen L →
  (∀ i x, L !! i = Some x → Z.of_nat i < low → 0 < c k x) → (∀ i x, L !! i = Some x → high < Z.of_nat i → c k x < 0) →
  wp (bsearch_loop cmp (S fuel) key base es low high) (λ r m', search_result r ∧ m' = m) m.
Proof.
  intros [h Eh]%Z.even_spec Hlow Hhigh Hlo Hhi. destruct (lookup_lt_is_Some_2 L (Z.to_nat high)) as [x Hx]; [lia|].
  destruct (has_lookup _ x Hx) as (_ & _ & Hlt). rewrite Z2Nat.id in Hlt; [|lia]. cbn [bsearch_loop]. cbv zeta.
  assert (u64 (low + u64 (high - low) / 2) = low + 2 ^ 63 - 1) as Em.
  { rewrite (_ : high - low = -1); [|lia]. change (u64 (-1) / 2) with (2 ^ 63 - 1). rewrite u64_small; lia. }
  assert (u64 ((low + 2 ^ 63 - 1) * es) = high * es) as Ea.
  { rewrite /u64 (_ : (low + 2 ^ 63 - 1) * es = high * es + h * 2 ^ 64); [|lia]. rewrite Z.mod_add // Z.mod_small //. nia. }
  rewrite Em Ea. rewrite (u64_small (base + _)); [|nia]. rewrite (u64_small (low + 2 ^ 63 - 1 + 1)); [|lia].
  apply wp_bind. eapply wp_mono; [apply (wp_look (Z.to_nat high) x); [done|lia]|]. intros r m' [-> ->].
  specialize (Hlo _ x Hx ltac:(lia)) as Hr. rewrite (proj2 (Z.ltb_ge _ _)); [|lia]. rewrite (proj2 (Z.gtb_lt _ _)) //.
  rewrite (proj2 (Z.gtb_lt (_ + 1) high)); [|lia]. rewrite orb_true_r. apply wp_ret. split; [|done]. by eapply nothing_left.
Qed.

Lemma wp_bsearch_loop (b : nat) fuel low high :
  Z.even es = true ∨ (∃ x, x ∈ L ∧ c k x = 0) → (b < fuel)%nat → high - low + 1 < 2 ^ Z.of_nat b → 0 ≤ low ≤ high + 1 → 0 ≤ high < zlen L →
  (∀ i x, L !! i = Some x → Z.of_nat i < low → 0 < c k x) → (∀ i x, L !! i = Some x → high < Z.of_nat i → c k x < 0) →
  wp (bsearch_loop cmp fuel key base es low high) (λ r m', search_result r ∧ m' = m) m.
Proof.
  intros Hev. revert fuel low high. induction b as [|b IH]; intros [|fuel] low high Hf Hb Hlow Hhigh Hlo Hhi; try lia;
    (destruct (decide (low = high + 1)) as [He|Hne];
      [destruct Hev as [Hev|(x & Hx & Hc)]; [by apply wp_empty_round|by destruct (nothing_left low high He Hlo Hhi x Hx)]|]); [simpl in Hb; lia|].
  rewrite Nat2Z.inj_succ Z.pow_succ_r in Hb; [|lia]. cbn [bsearch_loop]. cbv zeta. rewrite (u64_small (high - low)); [|lia].
  set (d := (high - low) / 2). assert (2 * d ≤ high - low ≤ 2 * d + 1) as Hd by (pose proof (Z.div_mod (high - low) 2); pose proof (Z.mod_pos_bound (high - low) 2); lia).
  rewrite (u64_small (low + d)); [|lia]. destruct (lookup_lt_is_Some_2 L (Z.to_nat (low + d))) as [x Hx]; [lia|].
  destruct (has_lookup _ x Hx) as (_ & _ & Hlt). rewrite Z2Nat.id in Hlt; [|lia].
  assert (0 ≤ (low + d) * es) by (apply Z.mul_nonneg_nonneg; lia). clearbody d.
  rewrite (u64_small ((low + d) * es)); [|lia]. rewrite (u64_small (base + _)); [|lia]. rewrite (u64_small (low + d + 1)); [|lia].
  apply wp_bind. eapply wp_mono; [apply (wp_look (Z.to_nat (low + d)) x); [done|rewrite Z2Nat.id; lia]|]. intros r m' [-> ->].
  destruct (Z.ltb_spec (c k x) 0) as [Hneg|Hge]; [|destruct (Z.gtb_spec (c k x) 0) as [Hpos|Hz]].
  - assert (∀ i y, L !! i = Some y → low + d - 1 < Z.of_nat i → c k y < 0) as Hhi' by (intros i y Hi ?; eapply before_mono; [exact Hx|done|lia|done]).
    destruct (Z.eqb_spec (low + d) 0) as [Hz|Hz].
    + apply wp_ret. split; [|done]. apply (nothing_left 0 (-1)); [done|intros; lia|]. intros i y Hi ?. apply (Hhi' i y Hi). lia.
    + apply IH; (done || lia).
  - assert (∀ i y, L !! i = Some y → Z.of_nat i < low + d + 1 → 0 < c k y) as Hlo' by (intros i y Hi ?; eapply after_mono; [done|exact Hx|lia|done]).
    rewrite (proj2 (Z.ltb_ge _ _)) /=; [|lia]. destruct (Z.gtb_spec (low + d + 1) high) as [Hgt|Hle].
    + apply wp_ret. split; [|done]. apply (nothing_left (low + d + 1) high); [lia|done|done].
    + apply IH; (done || lia).
  - apply wp_ret. split; [|done]. exists (Z.to_nat (low + d)), x. split_and!; [done| |lia]. rewrite Z2Nat.id; lia.
Qed.

Lemma wp_bsearch (b : nat) fuel : Z.even es = true ∨ (∃ x, x ∈ L ∧ c k x = 0) → (b < fuel)%nat → zlen L < 2 ^ Z.of_nat b →
  wp (bsearch cmp fuel key base (zlen L) es) (λ r m', search_result r ∧ m' = m) m.
Proof.
  intros Hev Hf Hb. rewrite /bsearch. destruct (Z.eqb_spec (zlen L) 0) as [Hz|Hz].
  - apply wp_ret. split; [|done]. intros x. destruct L; [set_solver|simpl in Hz; lia].
  - apply (wp_bsearch_loop b); try done; try lia. intros i x Hi ?. apply lookup_lt_Some in Hi. lia.
Qed.
End bsearch.

(** ** Theorems *)

Section theorems.
Context (cmp : Z → Z → M mem Z) (c : list Z → list Z → Z) (es : Z).

(** C35: [qsort] sorts: for every total order that the comparison implements, and every
    array of less than 2 GiB, it ends with a permutation of the elements in ascending
    order in the place of the array, and changes nothing else. *)
Theorem qsort_spec a L (m : mem) :
  Ordering c → Compares es cmp c → 0 < es < 2 ^ 31 → sized es L → zsize L < 2 ^ 31 → has m a (concat L) →
  wp (qsort cmp (S (length L)) a (zlen L) es)
    (λ _ m', ∃ L', m' = blit a (concat L') m ∧ L' ≡ₚ L ∧ StronglySorted (λ x y, c x y ≤ 0) L') m.
Proof. intros Hc Hcmp Hes Hs Hsz Hm. by apply (wp_qsort cmp c es Hes _ (length L)); [lia|..]. Qed.

(** [bsearch] in a sorted array returns an element that compares equal to the key,
    and [NULL] only if there is none, within one look more than there are bits in the
    number of elements; if there may be none, the size of the elements must be even. *)
Theorem bsearch_spec key base k L (bits : nat) (m : mem) :
  Ordering c → Compares es cmp c → 0 < es < 2 ^ 31 → zlen k = es → has m key k → sized es L → has m base (concat L) →
  0 ≤ base → base + zsize L ≤ 2 ^ 64 → zlen L < 2 ^ Z.of_nat bits → (bits ≤ 63)%nat → StronglySorted (λ x y, c x y ≤ 0) L →
  Z.even es = true ∨ (∃ x, x ∈ L ∧ c k x = 0) →
  wp (bsearch cmp (S bits) key base (zlen L) es)
    (λ r m', m' = m ∧ match r with
                      | Some p => ∃ i x, L !! i = Some x ∧ p = base + Z.of_nat i * es ∧ c k x = 0
                      | None => ∀ x, x ∈ L → c k x ≠ 0
                      end) m.
Proof.
  intros Hc Hcmp Hes Hk Hkey Hs Hm Hb Hend Hbits H63 Hsort Hev. assert (zlen L < 2 ^ 63) as Hn.
  { eapply Z.lt_le_trans; [done|]. apply Z.pow_le_mono_r; lia. }
  eapply wp_mono; [by apply (wp_bsearch cmp c es Hes m key base k L Hk Hkey Hs Hm Hb Hend Hn Hsort bits); [..|lia|]|]. intros r m' [Hr ->]. done.
Qed.

End theorems.

(** ** Runs *)

(** Numbers of [es] bytes, lowest byte first *)
Fixpoint number (l : list Z) : Z := match l with [] => 0 | b :: l => b + 256 * number l end.

Definition by_number (x y : list Z) : Z := Z.sgn (number x - number y).

(** A comparison of the caller: it reads two numbers and compares them. *)
Definition compare_numbers (es : nat) (a b : Z) : M mem Z :=
  x ← load_bytes es a; y ← load_bytes es b; mret (by_number x y).

#[export] Instance by_number_ordering : Ordering by_number.
Proof. split; rewrite /by_number; lia. Qed.

#[export] Instance compare_numbers_compares (es : nat) : Compares (Z.of_nat es) (compare_numbers es) by_number.
Proof.
  intros a b x y m Hx Hy Ha Hb. apply Nat2Z.inj in Hx, Hy. rewrite /compare_numbers. apply wp_bind. rewrite -{1}Hx. apply wp_load_bytes; [done|].
  apply wp_bind. rewrite -Hy. apply wp_load_bytes; [done|]. by apply wp_ret.
Qed.

(** Ten numbers of two bytes at 64, and the number 77 at 200 *)
Definition numbers : list (list Z) := [[9; 1]; [77; 0]; [3; 0]; [0; 2]; [77; 0]; [1; 0]; [250; 0]; [8; 0]; [6; 0]; [5; 0]].

Definition numbers_mem : mem := blit 64 (concat numbers) (blit 200 [77; 0] ∅).

Lemma numbers_sized : sized 2 numbers.
Proof. by repeat constructor. Qed.

Lemma qsort_spec_witness :
  wp (qsort (compare_numbers 2) 11 64 10 2) (λ _ m', ∃ L', L' ≡ₚ numbers ∧ StronglySorted (λ x y, by_number x y ≤ 0) L' ∧ m' = blit 64 (concat L') numbers_mem) numbers_mem.
Proof.
  eapply wp_mono; [apply (qsort_spec (compare_numbers 2) by_number 2 64 numbers numbers_mem)|].
  - apply _.
  - apply (compare_numbers_compares 2).
  - lia.
  - apply numbers_sized.
  - vm_compute. reflexivity.
  - apply has_blit_eq.
  - intros _ m' (L' & ? & ? & ?). by exists L'.
Defined.

(** Four numbers in order at 64 *)
Definition ordered : list (list Z) := [[3; 0]; [77; 0]; [250; 0]; [9; 1]].

Lemma ordered_sorted : StronglySorted (λ x y, by_number x y ≤ 0) ordered.
Proof. repeat constructor; vm_compute; discriminate. Qed.

Lemma bsearch_spec_witness :
  wp (bsearch (compare_numbers 2) 4 200 64 4 2) (λ r _, ∃ i, r = Some (64 + 2 * Z.of_nat i)) (blit 64 (concat ordered) (blit 200 [77; 0] ∅)).
Proof.
  eapply wp_mono; [apply (bsearch_spec (compare_numbers 2) by_number 2 200 64 [77; 0] ordered 3)|].
  - apply _.
  - apply (compare_numbers_compares 2).
  - lia.
  - reflexivity.
  - apply has_blit_ne; [left; vm_compute; discriminate|apply has_blit_eq].
  - by repeat constructor.
  - apply has_blit_eq.
  - lia.
  - vm_compute. discriminate.
  - vm_compute. reflexivity.
  - lia.
  - apply ordered_sorted.
  - by left.
  - intros [p|] m' [_ Hr]; [|by destruct (Hr [77; 0]); [set_solver|]]. destruct Hr as (i & _ & _ & -> & _). exists i. f_equal. lia.
Defined.


(** ** At the limits *)

(** Elements of one byte, 1 and 3, and the key 2: the range is empty after two looks, and
    the third is at the address [2 ^ 63 + 64]. *)
Lemma bsearch_wild : bsearch (compare_numbers 1) 10 200 64 2 1 (blit 64 [1; 3] (blit 200 [2] ∅)) = None.
Proof. vm_compute. reflexivity. Qed.

(** The same with elements of two bytes: the address comes back to the first element. *)
Lemma bsearch_wrap : wp (bsearch (compare_numbers 2) 10 200 64 2 2) (λ r _, r = None) (blit 64 [1; 0; 3; 0] (blit 200 [2; 0] ∅)).
Proof. vm_compute. reflexivity. Qed.

(** No state of the random numbers is reached from two. *)
Lemma rand_injective s t : 0 ≤ s < 2 ^ 32 → 0 ≤ t < 2 ^ 32 → (rand s).2 = (rand t).2 → s = t.
Proof.
  rewrite /rand /u32 /=. intros Hs Ht E. rewrite !Zplus_mod_idemp_l in E.
  assert (∀ z, ((z * 1664525 + 1013904223) * 4276115653 - 1013904223 * 4276115653) mod 2 ^ 32 = z mod 2 ^ 32) as Inv.
  { intros z. rewrite (_ : _ - _ = z + z * 1657219 * 2 ^ 32); [apply Z.mod_add; lia|lia]. }
  rewrite -(Z.mod_small s (2 ^ 32)) // -(Z.mod_small t (2 ^ 32)) // -(Inv s) -(Inv t).
  rewrite Zminus_mod Zmult_mod E -Zmult_mod -Zminus_mod //.
Qed.
