(* ===== verification/Net.v ===== *)
(** * The network stack below TCP

    [src/mk/lib/minip]: packet buffers ([pktbuf.c]), checksums ([chksum.c]), the cache
    of addresses ([arp.c]), the configuration and the way of a packet to the driver
    ([minip.c]), UDP ([udp.c]), and [src/mk/lib/iovec/iovec.c].  A packet is an array of
    bytes with a window of data in it.  The frames given to the driver are recorded. *)

From S2P Require Import Prelude Bytes.

(** ** Integers in memory *)

(** The [n] bytes of an integer, lowest first, and the integer of some bytes *)
Fixpoint le (n : nat) (v : Z) : list Z :=
  match n with O => [] | S n => v mod 256 :: le n (v / 256) end.

Fixpoint value (l : list Z) : Z := match l with [] => 0 | b :: l => b + 256 * value l end.

Definition SWAP_16 (x : Z) : Z := value (reverse (le 2 x)).

Definition SWAP_32 (x : Z) : Z := value (reverse (le 4 x)).

Definition htons (x : Z) : Z := SWAP_16 (u16 x).

Definition htonl (x : Z) : Z := SWAP_32 (u32 x).

(** The field of [n] bytes at [o] of a packet *)
Definition field (o : Z) (n : nat) (l : list Z) : Z := value (slice o (Z.of_nat n) l).

(** ** Packet buffers *)

Definition PKTBUF_SIZE : Z := 1536.
Definition PKTBUF_MAX_HDR : Z := 64.

Definition PKTBUF_FLAG_CKSUM_TCP_GOOD : Z := Z.shiftl 1 1.
Definition PKTBUF_FLAG_EOF : Z := Z.shiftl 1 3.

(** [p_data] is the distance of [data] from [buffer], [p_obj] the pool object that the
    structure itself is in. *)
Record pktbuf := Pktbuf { p_obj : list Z; p_buffer : list Z; p_data : Z; p_dlen : Z; p_flags : Z }.

Definition p_blen (p : pktbuf) : Z := zlen (p_buffer p).

(** The bytes of the packet *)
Definition contents (p : pktbuf) : list Z := slice (p_data p) (p_dlen p) (p_buffer p).

Definition set_window (data dlen : Z) (p : pktbuf) : pktbuf := Pktbuf (p_obj p) (p_buffer p) data dlen (p_flags p).

Definition set_bytes (b : list Z) (p : pktbuf) : pktbuf := Pktbuf (p_obj p) b (p_data p) (p_dlen p) (p_flags p).

Definition pktbuf_avail_head (p : pktbuf) : Z := u32 (p_data p).

Definition pktbuf_avail_tail (p : pktbuf) : Z := u32 (p_blen p - p_data p - p_dlen p).

(** No result is a [panic]. *)
Definition pktbuf_append (p : pktbuf) (sz : Z) : option (Z * pktbuf) :=
  if pktbuf_avail_tail p <? sz then None
  else Some (p_data p + p_dlen p, set_window (p_data p) (u32 (p_dlen p + sz)) p).

(** Bytes stored at a place in the buffer *)
Definition pktbuf_store (at_ : Z) (bytes : list Z) (p : pktbuf) : option pktbuf :=
  b ← copy_in at_ bytes (p_buffer p); Some (set_bytes b p).

Definition pktbuf_append_data (p : pktbuf) (data : list Z) : option pktbuf :=
  if pktbuf_avail_tail p <? zlen data then None
  else p' ← pktbuf_store (p_data p + p_dlen p) data p;
       Some (set_window (p_data p) (u32 (p_dlen p + zlen data)) p').

Definition pktbuf_prepend (p : pktbuf) (sz : Z) : option pktbuf :=
  if pktbuf_avail_head p <? sz then None
  else Some (set_window (p_data p - sz) (u32 (p_dlen p + sz)) p).

(** The place of the bytes removed, [None] for [NULL] *)
Definition pktbuf_consume (p : pktbuf) (sz : Z) : option Z * pktbuf :=
  if p_dlen p <? sz then (None, p)
  else (Some (p_data p), set_window (p_data p + sz) (p_dlen p - sz) p).

Definition pktbuf_consume_tail (p : pktbuf) (sz : Z) : pktbuf :=
  if p_dlen p <? sz then set_window (p_data p) 0 p else set_window (p_data p) (p_dlen p - sz) p.

(** A failed assertion has no result. *)
Definition pktbuf_add_buffer (obj buf : list Z) (header_sz flags : Z) : option pktbuf :=
  if header_sz <? zlen buf then Some (Pktbuf obj buf header_sz 0 (Z.lor PKTBUF_FLAG_EOF flags)) else None.

Definition pktbuf_reset (p : pktbuf) (header_sz : Z) : option pktbuf :=
  if header_sz <? p_blen p then Some (set_window header_sz 0 p) else None.

(** ** Checksums *)

(** [while (sum >> 16)]: twice at most *)
Fixpoint fold16 (n : nat) (sum : Z) : Z :=
  match n with
  | O => sum
  | S n => if Z.shiftr sum 16 =? 0 then sum else fold16 n (u32 (Z.land sum 0xffff + Z.shiftr sum 16))
  end.

(** [while (len >= 2)], and the last byte of an odd number *)
Fixpoint ones_loop (sum : Z) (buf : list Z) : Z :=
  match buf with
  | [] => sum
  | [c] => u32 (sum + htons (Z.shiftl c 8))
  | c :: d :: buf =>
    let sum := u32 (sum + value [c; d]) in
    ones_loop (if negb (Z.land sum 0x80000000 =? 0) then u32 (Z.land sum 0xffff + Z.shiftr sum 16) else sum) buf
  end.

Definition ones_sum16 (sum : Z) (buf : list Z) : Z := u16 (fold16 3 (ones_loop sum buf)).

(** [for (i = 0; i < len / 2; i++) total += p[i]] *)
Fixpoint words_total (total : Z) (buf : list Z) : Z :=
  match buf with
  | c :: d :: buf => words_total (u32 (total + value [c; d])) buf
  | _ => total
  end.

Definition rfc1701_chksum (buf : list Z) : Z :=
  let total := words_total 0 buf in
  let chksum := u16 (Z.land total 0xffff + Z.shiftr total 16) in
  u16 (Z.lnot chksum).

(** ** State *)

Definition IPV4_BCAST : Z := 0xffffffff.
Definition IPV4_NONE : Z := 0.

Definition EINVAL : Z := 22.
Definition ENOMEM : Z := 12.
Definition EHOSTUNREACH : Z := 118.

Definition bcast_mac : list Z := [0xff; 0xff; 0xff; 0xff; 0xff; 0xff].

(** [l_callback] stands for the function and its argument. *)
Record udp_listener := Listener { l_port : Z; l_callback : Z }.

(** A call of a callback: the listener's, the data, the source address and port *)
Record udp_call := UdpCall { u_callback : Z; u_data : list Z; u_addr : Z; u_port : Z }.

Record net := Net {
  n_ip : Z;
  n_netmask : Z;
  n_broadcast : Z;
  n_gateway : Z;
  n_mac : list Z;
  n_configured : bool;
  n_hostname : list Z;
  n_driver : bool; (** whether a driver has set the handler for packets to send *)
  n_arp : list (Z * list Z); (** the most recently used first *)
  n_replies : list (option (list Z)); (** what the waits for an address will bring, [None] for a timeout *)
  n_udp : list udp_listener;
  n_calls : list udp_call; (** the calls made to the callbacks of listeners, the last one first *)
  n_pool : list (list Z); (** the free objects of the pool, with what they hold *)
  n_sent : list (list Z); (** the frames given to the driver, the last one first *)
}.

Definition set_n_ip (v : Z) (s : net) : net := Net v (n_netmask s) (n_broadcast s) (n_gateway s) (n_mac s) (n_configured s) (n_hostname s) (n_driver s) (n_arp s) (n_replies s) (n_udp s) (n_calls s) (n_pool s) (n_sent s).
Definition set_n_netmask (v : Z) (s : net) : net := Net (n_ip s) v (n_broadcast s) (n_gateway s) (n_mac s) (n_configured s) (n_hostname s) (n_driver s) (n_arp s) (n_replies s) (n_udp s) (n_calls s) (n_pool s) (n_sent s).
Definition set_n_broadcast (v : Z) (s : net) : net := Net (n_ip s) (n_netmask s) v (n_gateway s) (n_mac s) (n_configured s) (n_hostname s) (n_driver s) (n_arp s) (n_replies s) (n_udp s) (n_calls s) (n_pool s) (n_sent s).
Definition set_n_gateway (v : Z) (s : net) : net := Net (n_ip s) (n_netmask s) (n_broadcast s) v (n_mac s) (n_configured s) (n_hostname s) (n_driver s) (n_arp s) (n_replies s) (n_udp s) (n_calls s) (n_pool s) (n_sent s).
Definition set_n_mac (v : list Z) (s : net) : net := Net (n_ip s) (n_netmask s) (n_broadcast s) (n_gateway s) v (n_configured s) (n_hostname s) (n_driver s) (n_arp s) (n_replies s) (n_udp s) (n_calls s) (n_pool s) (n_sent s).
Definition set_n_configured (v : bool) (s : net) : net := Net (n_ip s) (n_netmask s) (n_broadcast s) (n_gateway s) (n_mac s) v (n_hostname s) (n_driver s) (n_arp s) (n_replies s) (n_udp s) (n_calls s) (n_pool s) (n_sent s).
Definition set_n_hostname (v : list Z) (s : net) : net := Net (n_ip s) (n_netmask s) (n_broadcast s) (n_gateway s) (n_mac s) (n_configured s) v (n_driver s) (n_arp s) (n_replies s) (n_udp s) (n_calls s) (n_pool s) (n_sent s).
Definition set_n_driver (v : bool) (s : net) : net := Net (n_ip s) (n_netmask s) (n_broadcast s) (n_gateway s) (n_mac s) (n_configured s) (n_hostname s) v (n_arp s) (n_replies s) (n_udp s) (n_calls s) (n_pool s) (n_sent s).
Definition set_n_arp (v : list (Z * list Z)) (s : net) : net := Net (n_ip s) (n_netmask s) (n_broadcast s) (n_gateway s) (n_mac s) (n_configured s) (n_hostname s) (n_driver s) v (n_replies s) (n_udp s) (n_calls s) (n_pool s) (n_sent s).
Definition set_n_replies (v : list (option (list Z))) (s : net) : net := Net (n_ip s) (n_netmask s) (n_broadcast s) (n_gateway s) (n_mac s) (n_configured s) (n_hostname s) (n_driver s) (n_arp s) v (n_udp s) (n_calls s) (n_pool s) (n_sent s).
Definition set_n_udp (v : list udp_listener) (s : net) : net := Net (n_ip s) (n_netmask s) (n_broadcast s) (n_gateway s) (n_mac s) (n_configured s) (n_hostname s) (n_driver s) (n_arp s) (n_replies s) v (n_calls s) (n_pool s) (n_sent s).
Definition set_n_calls (v : list udp_call) (s : net) : net := Net (n_ip s) (n_netmask s) (n_broadcast s) (n_gateway s) (n_mac s) (n_configured s) (n_hostname s) (n_driver s) (n_arp s) (n_replies s) (n_udp s) v (n_pool s) (n_sent s).
Definition set_n_pool (v : list (list Z)) (s : net) : net := Net (n_ip s) (n_netmask s) (n_broadcast s) (n_gateway s) (n_mac s) (n_configured s) (n_hostname s) (n_driver s) (n_arp s) (n_replies s) (n_udp s) (n_calls s) v (n_sent s).
Definition set_n_sent (v : list (list Z)) (s : net) : net := Net (n_ip s) (n_netmask s) (n_broadcast s) (n_gateway s) (n_mac s) (n_configured s) (n_hostname s) (n_driver s) (n_arp s) (n_replies s) (n_udp s) (n_calls s) (n_pool s) v.

Abbreviation N := (M net).

Definition lift_opt {A} (o : option A) : N A := deref (λ _, o).

(** [sem_wait] on an empty pool waits, and the call does not return. *)
Definition get_pool_object : N (list Z) :=
  l ← gets n_pool;
  match l with [] => fail | o :: l => modify (set_n_pool l);; mret o end.

Definition free_pool_object (o : list Z) : N unit := modify (λ s, set_n_pool (o :: n_pool s) s).

Definition pktbuf_alloc : N pktbuf :=
  p ← get_pool_object;
  buf ← get_pool_object;
  lift_opt (pktbuf_add_buffer p buf PKTBUF_MAX_HDR 0).

Definition pktbuf_free (p : pktbuf) : N unit := free_pool_object (p_buffer p);; free_pool_object (p_obj p).

(** [minip_tx_handler(minip_tx_arg, p)]: the buffer belongs to the driver from then on. *)
Definition tx_handler (p : pktbuf) : N unit :=
  d ← gets n_driver; assert d;; modify (λ s, set_n_sent (contents p :: n_sent s) s).

(** ** Configuration *)

Definition minip_set_configured : N unit := modify (set_n_configured true).

Definition check_and_set_configured : N unit :=
  s ← gets id;
  if n_ip s =? IPV4_NONE then mret ()
  else if n_netmask s =? IPV4_NONE then mret ()
  else if n_broadcast s =? IPV4_BCAST then mret ()
  else if bool_decide (n_mac s = [0xcc; 0xcc; 0xcc; 0xcc; 0xcc; 0xcc]) then mret ()
  else minip_set_configured.

Definition compute_broadcast_address : N unit :=
  modify (λ s, set_n_broadcast (Z.lor (Z.land (n_ip s) (n_netmask s)) (Z.land IPV4_BCAST (u32 (Z.lnot (n_netmask s))))) s).

(** [strlcpy] into an array of 32 bytes *)
Definition minip_set_hostname (name : list Z) : N unit := modify (set_n_hostname (take 31 name));; check_and_set_configured.

Definition minip_set_ipaddr (addr : Z) : N unit := modify (set_n_ip addr);; compute_broadcast_address;; check_and_set_configured.

Definition minip_set_netmask (mask : Z) : N unit := modify (set_n_netmask mask);; compute_broadcast_address;; check_and_set_configured.

Definition minip_set_gateway (addr : Z) : N unit := modify (set_n_gateway addr);; check_and_set_configured.

Definition minip_start_static (ip mask gateway : Z) : N unit := minip_set_ipaddr ip;; minip_set_netmask mask;; minip_set_gateway gateway.

Definition minip_set_eth (macaddr : list Z) : N unit :=
  d ← gets n_driver; assert (negb d);; modify (set_n_driver true);; modify (set_n_mac macaddr).

Definition minip_get_ipaddr : N Z := gets n_ip.

(** ** Headers *)

Definition ETH_TYPE_IPV4 : Z := 0x0800.
Definition ETH_TYPE_ARP : Z := 0x0806.
Definition IP_PROTO_ICMP : Z := 1.
Definition IP_PROTO_TCP : Z := 6.
Definition IP_PROTO_UDP : Z := 17.
Definition ARP_OPER_REQUEST : Z := 1.
Definition ARP_OPER_REPLY : Z := 2.
Definition ICMP_ECHO_REPLY : Z := 0.
Definition ICMP_ECHO_REQUEST : Z := 8.

Definition SIZEOF_ETH : Z := 14.
Definition SIZEOF_IPV4 : Z := 20.
Definition SIZEOF_ARP : Z := 28.
Definition SIZEOF_ICMP : Z := 8.
Definition SIZEOF_UDP : Z := 8.

Definition minip_build_mac_hdr (mac dst : list Z) (type : Z) : list Z := dst ++ mac ++ le 2 (htons type).

(** The header with a given checksum *)
Definition ipv4_hdr (src dst proto len chksum : Z) : list Z :=
  [0x45; 0] ++ le 2 (htons (20 + len)) ++ le 2 0 ++ le 2 0x40 ++ [64; proto] ++ le 2 chksum ++ le 4 src ++ le 4 dst.

Definition minip_build_ipv4_hdr (src dst proto len : Z) : list Z :=
  ipv4_hdr src dst proto len (rfc1701_chksum (ipv4_hdr src dst proto len 0)).

Definition arp_pkt (oper : Z) (sha : list Z) (spa : Z) (tha : list Z) (tpa : Z) : list Z :=
  le 2 (htons 1) ++ le 2 (htons 0x0800) ++ [6; 4] ++ le 2 (htons oper) ++ sha ++ le 4 spa ++ tha ++ le 4 tpa.

(** ** The cache of addresses *)

(** The first entry for an address, and the list without it *)
Fixpoint arp_take (addr : Z) (l : list (Z * list Z)) : option (Z * list Z * list (Z * list Z)) :=
  match l with
  | [] => None
  | e :: l => if e.1 =? addr then Some (e, l) else '(x, r) ← arp_take addr l; Some (x, e :: r)
  end.

(** [alloc]: whether [malloc] returns an entry.  The entry of a known address only moves
    to the head. *)
Definition arp_cache_update (alloc : bool) (addr : Z) (mac : list Z) : N unit :=
  if (addr =? 0) || (Z.land (Z.shiftr addr 24) 0xff =? 0xff) then mret ()
  else
    l ← gets n_arp;
    match arp_take addr l with
    | Some (e, r) => modify (set_n_arp (e :: r))
    | None => when alloc (modify (set_n_arp ((addr, mac) :: l)))
    end.

Definition arp_cache_lookup (addr : Z) : N (option (list Z)) :=
  l ← gets n_arp;
  match arp_take addr l with
  | Some (e, r) => modify (set_n_arp (e :: r));; mret (Some e.2)
  | None => mret None
  end.

Definition arp_send_request (addr : Z) : N unit :=
  p ← pktbuf_alloc;
  p ← lift_opt (pktbuf_prepend p SIZEOF_ETH);
  '(arp, p) ← lift_opt (pktbuf_append p SIZEOF_ARP);
  s ← gets id;
  p ← lift_opt (pktbuf_store (p_data p) (minip_build_mac_hdr (n_mac s) bcast_mac ETH_TYPE_ARP) p);
  p ← lift_opt (pktbuf_store arp (arp_pkt ARP_OPER_REQUEST (n_mac s) (n_ip s) bcast_mac addr) p);
  tx_handler p.

(** The wait for an answer: the thread that receives packets puts it in the cache, or the
    timer of 100 ms fires. *)
Definition arp_wait (host : Z) : N (option (list Z)) :=
  l ← gets n_replies;
  modify (set_n_replies (tail l));;
  match l with
  | Some mac :: _ => arp_cache_update true host mac;; arp_cache_lookup host
  | _ => mret None
  end.

Definition arp_get_dest_mac (host : Z) : N (option (list Z)) :=
  if host =? IPV4_BCAST then mret (Some bcast_mac)
  else
    dst_mac ← arp_cache_lookup host;
    match dst_mac with
    | Some mac => mret (Some mac)
    | None => arp_send_request host;; arp_wait host
    end.

(** ** Sending *)

(** Where to send the frame: [inr] an error to return, the packet freed or not *)
Definition route (dest_addr : Z) : N (list Z + Z * bool) :=
  s ← gets id;
  if (dest_addr =? IPV4_BCAST) || (dest_addr =? n_broadcast s) then mret (inl bcast_mac)
  else
    let local := Z.land dest_addr (n_netmask s) =? Z.land (n_ip s) (n_netmask s) in
    if negb local && (n_gateway s =? IPV4_NONE) then mret (inr (ERR_NOT_FOUND, false))
    else
      dst_mac ← arp_get_dest_mac (if local then dest_addr else n_gateway s);
      mret (match dst_mac with Some mac => inl mac | None => inr (- EHOSTUNREACH, true) end).

Definition minip_ipv4_send (p : pktbuf) (dest_addr proto : Z) : N Z :=
  let data_len := p_dlen p in
  p ← lift_opt (pktbuf_prepend p SIZEOF_IPV4);
  let ip := p_data p in
  p ← lift_opt (pktbuf_prepend p SIZEOF_ETH);
  let eth := p_data p in
  r ← route dest_addr;
  match r with
  | inr (err, freed) => when freed (pktbuf_free p);; mret err
  | inl dst_mac =>
    s ← gets id;
    p ← lift_opt (pktbuf_store eth (minip_build_mac_hdr (n_mac s) dst_mac ETH_TYPE_IPV4) p);
    p ← lift_opt (pktbuf_store ip (minip_build_ipv4_hdr (n_ip s) dest_addr proto (u16 data_len)) p);
    tx_handler p;;
    mret 0
  end.

(** [None] for the hardware address is a [NULL] pointer, whose bytes cannot be copied. *)
Definition send_ping_reply (ipaddr : Z) (hdr_data data : list Z) : N unit :=
  p ← pktbuf_alloc;
  p ← lift_opt (pktbuf_prepend p SIZEOF_ICMP);
  let icmp := p_data p in
  p ← lift_opt (pktbuf_prepend p SIZEOF_IPV4);
  let ip := p_data p in
  p ← lift_opt (pktbuf_prepend p SIZEOF_ETH);
  let eth := p_data p in
  p ← lift_opt (pktbuf_append_data p data);
  let len := SIZEOF_ICMP + zlen data in
  mac ← arp_cache_lookup ipaddr;
  mac ← lift_opt mac;
  s ← gets id;
  p ← lift_opt (pktbuf_store eth (minip_build_mac_hdr (n_mac s) mac ETH_TYPE_IPV4) p);
  p ← lift_opt (pktbuf_store ip (minip_build_ipv4_hdr (n_ip s) ipaddr IP_PROTO_ICMP (u16 len)) p);
  p ← lift_opt (pktbuf_store icmp ([ICMP_ECHO_REPLY; 0] ++ le 2 0 ++ hdr_data) p);
  p ← lift_opt (pktbuf_store (icmp + 2) (le 2 (rfc1701_chksum (slice icmp len (p_buffer p)))) p);
  tx_handler p.

(** The answer to a request for our address *)
Definition arp_reply (src_mac sha : list Z) (spa : Z) : N unit :=
  rp ← pktbuf_alloc;
  rp ← lift_opt (pktbuf_prepend rp SIZEOF_ETH);
  '(rarp, rp) ← lift_opt (pktbuf_append rp SIZEOF_ARP);
  s ← gets id;
  rp ← lift_opt (pktbuf_store (p_data rp) (minip_build_mac_hdr (n_mac s) src_mac ETH_TYPE_ARP) rp);
  rp ← lift_opt (pktbuf_store rarp (arp_pkt ARP_OPER_REPLY (n_mac s) (n_ip s) sha spa) rp);
  tx_handler rp.

(** [eth->src_mac] is in the bytes before the data. *)
Definition handle_arp_pkt (alloc : bool) (p : pktbuf) : N Z :=
  let src_mac := slice (p_data p - SIZEOF_ETH + 6) 6 (p_buffer p) in
  match pktbuf_consume p SIZEOF_ARP with
  | (None, _) => mret (-1)
  | (Some at_, _) =>
    let arp := slice at_ SIZEOF_ARP (p_buffer p) in
    let oper := htons (field 6 2 arp) in
    s ← gets id;
    (if oper =? ARP_OPER_REQUEST then
       when (field 24 4 arp =? n_ip s) (arp_reply src_mac (slice 8 6 arp) (field 14 4 arp))
     else when (oper =? ARP_OPER_REPLY) (arp_cache_update alloc (field 14 4 arp) (slice 8 6 arp)));;
    mret 0
  end.

(** ** UDP *)

(** A gather list: the bytes of each element *)
Definition iovec_size (iov : list (list Z)) : Z := foldl (λ c v, u64 (c + zlen v)) 0 iov.

Fixpoint iovec_to_membuf (buf_len : Z) (iov : list (list Z)) (iov_pos : Z) : list Z :=
  match iov with
  | [] => []
  | v :: iov =>
    if zlen v <=? iov_pos then iovec_to_membuf buf_len iov (iov_pos - zlen v)
    else
      let to_copy := Z.min (zlen v - iov_pos) buf_len in
      slice iov_pos to_copy v ++ (if buf_len - to_copy =? 0 then [] else iovec_to_membuf (buf_len - to_copy) iov 0)
  end.

Record udp_socket := UdpSocket { u_host : Z; u_sport : Z; u_dport : Z; u_mac : list Z }.

(** The listener for a port taken out of the list *)
Fixpoint udp_take (port : Z) (l : list udp_listener) : option (list udp_listener) :=
  match l with
  | [] => None
  | e :: l => if l_port e =? port then Some l else r ← udp_take port l; Some (e :: r)
  end.

(** [cb] is [None] for [NULL]; the listener that is then stored is of no use. *)
Definition udp_listen (alloc : bool) (port : Z) (cb : option Z) : N Z :=
  l ← gets n_udp;
  match udp_take port l, cb with
  | Some r, None => modify (set_n_udp r);; mret 0
  | Some _, Some _ => mret (-1)
  | None, _ => if alloc then modify (set_n_udp (l ++ [Listener port (default 0 cb)]));; mret 0 else mret (-1)
  end.

Definition udp_open (alloc : bool) (host sport dport : Z) : N (Z + udp_socket) :=
  if negb alloc then mret (inl (- ENOMEM))
  else
    dst_mac ← arp_get_dest_mac host;
    mret (match dst_mac with Some mac => inr (UdpSocket host sport dport mac) | None => inl (- EHOSTUNREACH) end).

Definition udp_hdr (sport dport len : Z) : list Z :=
  le 2 (htons sport) ++ le 2 (htons dport) ++ le 2 (htons (SIZEOF_UDP + len)) ++ le 2 0.

Definition udp_send_iovec (iov : list (list Z)) (handle : udp_socket) : N Z :=
  if bool_decide (iov = []) then mret (- EINVAL)
  else
    p ← pktbuf_alloc;
    let len := iovec_size iov in
    '(buf, p) ← lift_opt (pktbuf_append p len);
    p ← lift_opt (pktbuf_prepend p SIZEOF_UDP);
    let udp := p_data p in
    p ← lift_opt (pktbuf_prepend p SIZEOF_IPV4);
    let ip := p_data p in
    p ← lift_opt (pktbuf_prepend p SIZEOF_ETH);
    let eth := p_data p in
    p ← lift_opt (pktbuf_store buf (iovec_to_membuf (u32 len) iov 0) p);
    p ← lift_opt (pktbuf_store udp (udp_hdr (u_sport handle) (u_dport handle) len) p);
    s ← gets id;
    p ← lift_opt (pktbuf_store eth (minip_build_mac_hdr (n_mac s) (u_mac handle) ETH_TYPE_IPV4) p);
    p ← lift_opt (pktbuf_store ip (minip_build_ipv4_hdr (n_ip s) (u_host handle) IP_PROTO_UDP (u16 (len + SIZEOF_UDP))) p);
    tx_handler p;;
    mret NO_ERROR.

Definition udp_send (buf : list Z) (handle : udp_socket) : N Z :=
  if zlen buf =? 0 then mret (- EINVAL) else udp_send_iovec [buf] handle.

Definition udp_input (p : pktbuf) (src_ip : Z) : N unit :=
  match pktbuf_consume p SIZEOF_UDP with
  | (None, _) => mret ()
  | (Some at_, p) =>
    let udp := slice at_ SIZEOF_UDP (p_buffer p) in
    let port := htons (field 2 2 udp) in
    l ← gets n_udp;
    match List.find (λ e, l_port e =? port) l with
    | Some e => modify (λ s, set_n_calls (UdpCall (l_callback e) (contents p) src_ip (htons (field 0 2 udp)) :: n_calls s) s)
    | None => mret ()
    end
  end.

(** ** Addresses as text *)

(** The loop of [minip_parse_ipaddr]: [pos] is 8 bits wide, and [ip] has four bytes. *)
Fixpoint parse_ip_loop (fuel : nat) (str : list Z) (len pos i : Z) (ip : list Z) : option (list Z) :=
  match fuel with
  | O => None
  | S fuel =>
    if pos <? len then
      c ← str !! Z.to_nat pos;
      let next := u8 (pos + 1) in
      if c =? 46 then parse_ip_loop fuel str len next (u8 (i + 1)) ip
      else if c =? 0 then Some ip
      else
        b ← ip !! Z.to_nat i;
        parse_ip_loop fuel str len next i (<[Z.to_nat i := u8 (u8 (b * 10) + (c - 48))]> ip)
    else Some ip
  end.

Definition minip_parse_ipaddr (str : list Z) (len : Z) : option Z :=
  ip ← parse_ip_loop 257 str len 0 0 [0; 0; 0; 0]; Some (value ip).
