(* ===== verification/NetSpec.v ===== *)
(** * Packets, checksums and the way to the driver

    A packet buffer is the list of its bytes: headers are put in front, data behind,
    and consumed again.  The sums of [chksum.c] are sums of 16-bit words modulo
    [2 ^ 16 - 1].  What [minip_ipv4_send] gives to the driver is the packet with its
    two headers. *)

From S2P Require Import Prelude Bytes Net.

(** ** Integers in memory *)

Definition octets (l : list Z) : Prop := Forall (λ b, 0 ≤ b < 256) l.

Lemma length_le n v : length (le n v) = n.
Proof. revert v. induction n as [|n IH]; intros v; [done|]. simpl. by rw IH. Qed.

Lemma octets_le n v : octets (le n v).
Proof. revert v. induction n as [|n IH]; intros v; constructor; [by apply Z.mod_pos_bound|apply IH]. Qed.

Lemma value_le n v : value (le n v) = v mod 2 ^ (8 * Z.of_nat n).
Proof.
  revert v. induction n as [|n IH]; intros v; [by rewrite Z.mod_1_r|]. cbn [le value]. rewrite IH.
  rewrite (_ : 8 * Z.of_nat (S n) = 8 + 8 * Z.of_nat n); [|lia]. rewrite Z.pow_add_r; [|lia..]. change (2 ^ 8) with 256.
  rewrite Z.rem_mul_r; [lia|lia|lia].
Qed.

Lemma value_range l : octets l → 0 ≤ value l < 2 ^ (8 * zlen l).
Proof.
  induction 1 as [|b l Hb _ IH]; [done|]. cbn [value length]. rewrite (_ : 8 * Z.of_nat (S (length l)) = 8 + 8 * zlen l); [|lia].
  rewrite Z.pow_add_r; [|lia..]. change (2 ^ 8) with 256. lia.
Qed.

Lemma le_value l : octets l → le (length l) (value l) = l.
Proof.
  induction 1 as [|b l Hb _ IH]; [done|]. cbn [value length le].
  rewrite (_ : (b + 256 * value l) mod 256 = b); [|rewrite Z.mul_comm Z.mod_add; [by apply Z.mod_small|lia]].
  by rewrite (_ : (b + 256 * value l) / 256 = value l) ?IH; [|rewrite Z.mul_comm Z.div_add; [rewrite Z.div_small; lia|lia]].
Qed.

Lemma octets_reverse l : octets l → octets (reverse l).
Proof. rewrite /octets. by rewrite reverse_Permutation. Qed.

Lemma SWAP_16_range x : 0 ≤ SWAP_16 x < 2 ^ 16.
Proof. apply (value_range (reverse (le 2 x))). apply octets_reverse, octets_le. Qed.

Lemma SWAP_16_twice x : 0 ≤ x < 2 ^ 16 → SWAP_16 (SWAP_16 x) = x.
Proof.
  intros Hx. rewrite /SWAP_16. rewrite -{1}(length_le 2 x) -(length_reverse (le 2 x)) le_value; [|apply octets_reverse, octets_le].
  rewrite reverse_involutive value_le. by apply Z.mod_small.
Qed.

Lemma SWAP_32_range x : 0 ≤ SWAP_32 x < 2 ^ 32.
Proof. apply (value_range (reverse (le 4 x))). apply octets_reverse, octets_le. Qed.

Lemma SWAP_32_twice x : 0 ≤ x < 2 ^ 32 → SWAP_32 (SWAP_32 x) = x.
Proof.
  intros Hx. rewrite /SWAP_32. rewrite -{1}(length_le 4 x) -(length_reverse (le 4 x)) le_value; [|apply octets_reverse, octets_le].
  rewrite reverse_involutive value_le. by apply Z.mod_small.
Qed.

Lemma u16_range z : 0 ≤ u16 z < 2 ^ 16.
Proof. by apply Z.mod_pos_bound. Qed.

Lemma u16_small z : 0 ≤ z < 2 ^ 16 → u16 z = z.
Proof. apply Z.mod_small. Qed.

Lemma htons_range x : 0 ≤ htons x < 2 ^ 16.
Proof. apply SWAP_16_range. Qed.

Lemma htons_twice x : htons (htons x) = u16 x.
Proof. rewrite /htons (u16_small (SWAP_16 _)); [|apply SWAP_16_range]. apply SWAP_16_twice, u16_range. Qed.

Lemma htonl_range x : 0 ≤ htonl x < 2 ^ 32.
Proof. apply SWAP_32_range. Qed.

Lemma htonl_twice x : htonl (htonl x) = u32 x.
Proof. rewrite /htonl (u32_small (SWAP_32 _)); [|apply SWAP_32_range]. apply SWAP_32_twice, u32_range. Qed.

(** A field that was stored is read back. *)
Lemma field_app o n v l k : 0 ≤ v < 2 ^ (8 * Z.of_nat n) → o = zlen l → field o n (l ++ le n v ++ k) = v.
Proof.
  intros Hv ->. rewrite /field /slice !Nat2Z.id drop_app_length -{1}(length_le n v) take_app_length value_le. by apply Z.mod_small.
Qed.

(** ** Packet buffers *)

(** The window of data is inside the buffer. *)
Record pkt_ok (p : pktbuf) : Prop := {
  po_data : 0 ≤ p_data p;
  po_dlen : 0 ≤ p_dlen p;
  po_end : p_data p + p_dlen p ≤ p_blen p;
  po_size : p_blen p < 2 ^ 31;
}.

Lemma length_contents p : pkt_ok p → zlen (contents p) = p_dlen p.
Proof. intros []. by apply length_slice. Qed.

Lemma avail_tail_ok p : pkt_ok p → pktbuf_avail_tail p = p_blen p - p_data p - p_dlen p.
Proof. intros []. apply u32_small. lia. Qed.

Lemma avail_head_ok p : pkt_ok p → pktbuf_avail_head p = p_data p.
Proof. intros []. apply u32_small. lia. Qed.

Lemma slice_app_r o n l (k : list Z) : 0 ≤ o → 0 ≤ n → o + n ≤ zlen l → slice o n (l ++ k) = slice o n l.
Proof. intros. rewrite /slice drop_app_le; [|lia]. rewrite take_app_le //. rewrite length_drop. lia. Qed.

(** Data behind *)
Lemma pktbuf_append_data_ok p data : pkt_ok p → zlen data ≤ p_blen p - p_data p - p_dlen p →
  ∃ p', pktbuf_append_data p data = Some p' ∧ pkt_ok p' ∧ contents p' = contents p ++ data ∧ p_data p' = p_data p ∧
    p_dlen p' = p_dlen p + zlen data ∧ p_blen p' = p_blen p ∧ p_obj p' = p_obj p ∧ p_flags p' = p_flags p.
Proof.
  intros Hp Hd. pose proof (length_contents p Hp). rewrite /pktbuf_append_data avail_tail_ok //. destruct Hp. unfold p_blen in *.
  rewrite (proj2 (Z.ltb_ge _ _)); [|lia]. rewrite /pktbuf_store copy_in_splice; [|lia]. cbn [mbind option_bind]. rewrite u32_small; [|lia].
  eexists. split; [done|]. rewrite /contents /p_blen /=. rewrite length_splice.
  split_and!; [|rewrite (slice_app (p_data p)); [|rewrite ?length_splice; lia..]|done..].
  - split; rewrite /p_blen /= ?length_splice; lia.
  - rewrite slice_splice_same; [|lia..]. rewrite slice_splice_other; [done|lia..].
Qed.

(** A header in front: room is made for it, and it is filled in *)
Lemma pktbuf_prepend_ok p sz : pkt_ok p → 0 ≤ sz ≤ p_data p →
  pktbuf_prepend p sz = Some (set_window (p_data p - sz) (p_dlen p + sz) p) ∧ pkt_ok (set_window (p_data p - sz) (p_dlen p + sz) p).
Proof.
  intros Hp Hsz. rewrite /pktbuf_prepend avail_head_ok // (proj2 (Z.ltb_ge _ _)); [|lia]. destruct Hp. unfold p_blen in *.
  rewrite u32_small; [|lia]. split; [done|]. split; rewrite /p_blen /=; lia.
Qed.

Lemma pktbuf_store_ok p at_ bytes : pkt_ok p → 0 ≤ at_ → at_ + zlen bytes ≤ p_blen p →
  pktbuf_store at_ bytes p = Some (set_bytes (splice at_ bytes (p_buffer p)) p) ∧ pkt_ok (set_bytes (splice at_ bytes (p_buffer p)) p).
Proof.
  intros [] Ha Hb. rewrite /pktbuf_store copy_in_splice // /=. split; [done|]. unfold p_blen in *. split; rewrite /p_blen /= ?length_splice //.
Qed.

(** Storing inside the window *)
Lemma contents_store p o bytes : pkt_ok p → 0 ≤ o → o + zlen bytes ≤ p_dlen p →
  contents (set_bytes (splice (p_data p + o) bytes (p_buffer p)) p) = splice o bytes (contents p).
Proof. intros [] Ho Hb. rewrite /contents /=. apply slice_splice_in; unfold p_blen in *; lia. Qed.

(** What is in front of the window is where a header goes. *)
Lemma contents_prepend p hdr : pkt_ok p → zlen hdr ≤ p_data p →
  contents (set_bytes (splice (p_data p - zlen hdr) hdr (p_buffer p)) (set_window (p_data p - zlen hdr) (p_dlen p + zlen hdr) p)) = hdr ++ contents p.
Proof.
  intros [] Hh. unfold p_blen in *. rewrite /contents /= Z.add_comm slice_app; rewrite ?length_splice; [|lia..]. f_equal.
  - apply slice_splice_same; lia.
  - rewrite slice_splice_other; [f_equal; lia|lia..].
Qed.

(** Bytes taken from the front and from the end *)
Lemma pktbuf_consume_ok p sz : pkt_ok p → 0 ≤ sz ≤ p_dlen p →
  ∃ p', pktbuf_consume p sz = (Some (p_data p), p') ∧ pkt_ok p' ∧ contents p' = drop (Z.to_nat sz) (contents p) ∧
    p_dlen p' = p_dlen p - sz ∧ p_buffer p' = p_buffer p ∧ p_flags p' = p_flags p ∧ p_data p' = p_data p + sz.
Proof.
  intros [] Hsz. rewrite /pktbuf_consume (proj2 (Z.ltb_ge _ _)); [|lia]. eexists. split; [done|]. unfold p_blen in *.
  split_and!; [split; rewrite /p_blen /=; lia| |done..]. rewrite /contents /= /slice.
  rewrite skipn_firstn_comm drop_drop. f_equal; [lia|]. f_equal. lia.
Qed.

Lemma pktbuf_consume_tail_ok p sz : pkt_ok p → 0 ≤ sz ≤ p_dlen p →
  pkt_ok (pktbuf_consume_tail p sz) ∧ contents (pktbuf_consume_tail p sz) = take (Z.to_nat (p_dlen p - sz)) (contents p) ∧
    p_dlen (pktbuf_consume_tail p sz) = p_dlen p - sz ∧ p_buffer (pktbuf_consume_tail p sz) = p_buffer p.
Proof.
  intros [] Hsz. rewrite /pktbuf_consume_tail (proj2 (Z.ltb_ge _ _)); [|lia]. unfold p_blen in *.
  split_and!; [split; rewrite /p_blen /=; lia| |done..]. rewrite /contents /= /slice take_take. f_equal. lia.
Qed.

(** ** Checksums *)

(** The sum of the 16-bit words, an odd byte at the end counted as a word *)
Fixpoint word_sum (l : list Z) : Z :=
  match l with [] => 0 | [c] => c | c :: d :: l => value [c; d] + word_sum l end.

(** A sum with the carries added in: zero only for zero *)
Definition ones (n : Z) : Z := if n =? 0 then 0 else (n - 1) mod 65535 + 1.

Lemma ones_range n : 0 ≤ n → 0 ≤ ones n ≤ 65535.
Proof. intros. rewrite /ones. case_match; [lia|]. pose proof (Z.mod_pos_bound (n - 1) 65535). lia. Qed.

Lemma ones_small n : 0 ≤ n ≤ 65535 → ones n = n.
Proof. intros. rewrite /ones. case_match eqn:E; to_prop; [done|]. rewrite Z.mod_small; lia. Qed.

Lemma ones_mod n : 0 ≤ n → ones n mod 65535 = n mod 65535.
Proof.
  intros. rewrite /ones. case_match eqn:E; to_prop; [by subst|]. rewrite Zplus_mod_idemp_l. f_equal. lia.
Qed.

(** One fold keeps the sum. *)
Lemma ones_fold n : 0 ≤ n → ones (n mod 2 ^ 16 + n / 2 ^ 16) = ones n.
Proof.
  intros Hn. pose proof (Z.div_mod n (2 ^ 16) ltac:(lia)). pose proof (Z.mod_pos_bound n (2 ^ 16) ltac:(lia)). pose proof (Z.div_pos n (2 ^ 16) Hn ltac:(lia)).
  rewrite /ones. case_match eqn:E1; case_match eqn:E2; to_prop; try lia. f_equal.
  rewrite (_ : n - 1 = n mod 2 ^ 16 + n / 2 ^ 16 - 1 + n / 2 ^ 16 * 65535); [|lia]. by rewrite Z.mod_add.
Qed.

Lemma fold_bits n : 0 ≤ n → Z.land n 0xffff + Z.shiftr n 16 = n mod 2 ^ 16 + n / 2 ^ 16.
Proof. intros. by rewrite (land_ones_mod n 16) // Z.shiftr_div_pow2. Qed.

Lemma ones_add a b : 0 ≤ a → 0 ≤ b → ones (ones a + b) = ones (a + b).
Proof.
  intros Ha Hb. rewrite /ones. destruct (Z.eqb_spec a 0) as [->|Hne]; [done|]. pose proof (Z.mod_pos_bound (a - 1) 65535 ltac:(lia)).
  case_match eqn:E1; case_match eqn:E2; to_prop; try lia. f_equal.
  rewrite (_ : (a - 1) mod 65535 + 1 + b - 1 = (a - 1) mod 65535 + b); [|lia]. rewrite Zplus_mod_idemp_l. f_equal. lia.
Qed.

Lemma bit31 n : 0 ≤ n < 2 ^ 32 → (Z.land n 0x80000000 =? 0) = (n <? 2 ^ 31).
Proof.
  intros Hn. assert (Z.land n 0x80000000 = (n / 2 ^ 31) * 2 ^ 31) as ->.
  { change 0x80000000 with (Z.shiftl 1 31). rewrite -Z.shiftl_mul_pow2 // -Z.shiftr_div_pow2 //. apply Z.bits_inj'. intros i Hi.
    rewrite Z.land_spec (Z.shiftl_spec 1) // (Z.shiftl_spec (Z.shiftr n 31)) //. destruct (decide (i < 31)).
    - rewrite !(Z.testbit_neg_r _ (i - 31)); [by rewrite andb_false_r|lia..].
    - rewrite Z.shiftr_spec; [|lia]. rewrite Z.sub_add. destruct (decide (i = 31)) as [->|]; [by rewrite andb_true_r|].
      rewrite (Z.bits_above_log2 1); [|lia|simpl; lia]. rewrite andb_false_r. symmetry.
      apply Z.testbit_false; [lia|]. rewrite Z.div_small //. split; [lia|]. eapply Z.lt_le_trans; [apply Hn|]. apply Z.pow_le_mono_r; lia. }
  destruct (Z.ltb_spec n (2 ^ 31)).
  - rewrite Z.div_small //. lia.
  - apply Z.eqb_neq. assert (1 ≤ n / 2 ^ 31); [|lia]. apply Z.div_le_lower_bound; lia.
Qed.

Lemma htons_byte c : 0 ≤ c < 256 → htons (Z.shiftl c 8) = c.
Proof.
  intros Hc. rewrite /htons Z.shiftl_mul_pow2 // u16_small; [|lia]. rewrite /SWAP_16. change (2 ^ 8) with 256. simpl.
  rewrite Z.mod_mul // Z.div_mul // Z.mod_small; lia.
Qed.

Lemma word_sum_nonneg l : octets l → 0 ≤ word_sum l.
Proof.
  remember (length l) as n eqn:E. revert l E. induction n as [n IH] using lt_wf_ind. intros [|c [|d l]] -> Hl; [done|by apply Forall_cons in Hl as [? _]; simpl; lia|].
  apply Forall_cons in Hl as [Hc Hl]. apply Forall_cons in Hl as [Hd Hl]. cbn [word_sum]. specialize (IH (length l) ltac:(simpl; lia) l eq_refl Hl). simpl. lia.
Qed.

Lemma ones_loop_spec l sum : octets l → 0 ≤ sum < 2 ^ 31 → 0 ≤ ones_loop sum l < 2 ^ 32 ∧ ones (ones_loop sum l) = ones (sum + word_sum l).
Proof.
  remember (length l) as n eqn:E. revert l sum E. induction n as [n IH] using lt_wf_ind. intros l sum -> Hl Hs. destruct l as [|c [|d l]].
  - rewrite /= Z.add_0_r. split; [lia|done].
  - apply Forall_cons in Hl as [Hc _]. cbn [ones_loop word_sum]. rewrite htons_byte // u32_small; [|lia]. split; [lia|done].
  - apply Forall_cons in Hl as [Hc Hl]. apply Forall_cons in Hl as [Hd Hl]. pose proof (word_sum_nonneg l Hl). cbn [ones_loop word_sum]. cbv zeta.
    assert (0 ≤ value [c; d] < 2 ^ 16) as Hv by (simpl; lia). rewrite (u32_small (sum + _)); [|lia]. rewrite bit31; [|lia].
    set (s1 := sum + value [c; d]) in *. rewrite (_ : sum + (value [c; d] + word_sum l) = s1 + word_sum l); [|lia].
    destruct (Z.ltb_spec s1 (2 ^ 31)); simpl; [apply (IH (length l)); (done || simpl; lia)|].
    rewrite fold_bits; [|lia]. pose proof (Z.mod_pos_bound s1 (2 ^ 16)). assert (0 ≤ s1 / 2 ^ 16 < 2 ^ 16) by (split; [apply Z.div_pos; lia|apply Z.div_lt_upper_bound; lia]).
    rewrite u32_small; [|lia]. destruct (IH (length l) ltac:(simpl; lia) l (s1 mod 2 ^ 16 + s1 / 2 ^ 16) eq_refl Hl ltac:(lia)) as [? ->]. split; [done|].
    rewrite -(ones_add (_ + _)); [|lia|lia]. rewrite ones_fold; [|lia]. by rewrite ones_add; [|lia|lia].
Qed.

Lemma fold16_spec n s : 0 ≤ s < 2 ^ 32 → (3 ≤ n)%nat → fold16 n s = ones s.
Proof.
  assert (∀ n s, 0 ≤ s ≤ 0xffff → fold16 (S n) s = ones s) as H1.
  { intros k z Hz. cbn [fold16]. rewrite Z.shiftr_div_pow2 // Z.div_small; [|lia]. rewrite ones_small; [done|lia]. }
  assert (∀ n s, 0 ≤ s < 2 ^ 32 → Z.shiftr s 16 ≠ 0 → fold16 (S n) s = fold16 n (s mod 2 ^ 16 + s / 2 ^ 16)) as H2.
  { intros k z Hz Hne. cbn [fold16]. rewrite (proj2 (Z.eqb_neq _ _)) //. rewrite fold_bits; [|lia]. pose proof (Z.mod_pos_bound z (2 ^ 16)).
    assert (0 ≤ z / 2 ^ 16 < 2 ^ 16) by (split; [apply Z.div_pos; lia|apply Z.div_lt_upper_bound; lia]). rewrite u32_small; [done|lia]. }
  intros Hs Hn. destruct n as [|[|[|n]]]; try lia.
  destruct (decide (s ≤ 0xffff)); [apply H1; lia|]. pose proof (Z.mod_pos_bound s (2 ^ 16)).
  assert (0 < s / 2 ^ 16 < 2 ^ 16) by (split; [apply Z.div_str_pos; lia|apply Z.div_lt_upper_bound; lia]).
  rewrite H2; [|lia|rewrite Z.shiftr_div_pow2; lia]. rewrite -ones_fold; [|lia]. set (s1 := s mod 2 ^ 16 + s / 2 ^ 16) in *.
  destruct (decide (s1 ≤ 0xffff)); [apply H1; lia|]. assert (s1 / 2 ^ 16 = 1) as E1 by (symmetry; apply (Z.div_unique _ _ _ (s1 - 2 ^ 16)); lia).
  assert (s1 mod 2 ^ 16 = s1 - 2 ^ 16) as E2 by (symmetry; apply (Z.mod_unique _ _ 1); lia).
  rewrite H2; [|lia|rewrite Z.shiftr_div_pow2; lia]. rewrite -(ones_fold s1); [|lia]. apply H1. lia.
Qed.

(** [ones_sum16] is the sum of the words with the carries added in. *)
Lemma ones_sum16_ones sum l : octets l → 0 ≤ sum < 2 ^ 31 → ones_sum16 sum l = ones (sum + word_sum l).
Proof.
  intros Hl Hs. destruct (ones_loop_spec l sum Hl Hs) as [Hr E]. rewrite /ones_sum16 fold16_spec // E. pose proof (word_sum_nonneg l Hl).
  pose proof (ones_range (sum + word_sum l)). rewrite u16_small; lia.
Qed.

Lemma even_two (c d : Z) l : Z.even (zlen (c :: d :: l)) = Z.even (zlen l).
Proof. rewrite (_ : zlen (c :: d :: l) = zlen l + 2 * 1); [apply Z.even_add_mul_2|simpl length; lia]. Qed.

Lemma word_sum_app a b : Z.even (zlen a) = true → word_sum (a ++ b) = word_sum a + word_sum b.
Proof.
  remember (length a) as n eqn:E. revert a E. induction n as [n IH] using lt_wf_ind. intros [|c [|d a]] -> Hev; [done|done|].
  cbn [word_sum app]. rewrite (IH (length a)); [lia|simpl; lia|done|by rewrite even_two in Hev].
Qed.

Lemma word_sum_le k : 0 ≤ k < 2 ^ 16 → word_sum (le 2 k) = k.
Proof. intros Hk. pose proof (value_le 2 k) as H. rewrite Z.mod_small // in H. cbn [le word_sum] in *. lia. Qed.

Lemma u16_lnot z : 0 ≤ z < 2 ^ 16 → u16 (Z.lnot z) = 65535 - z.
Proof. intros Hz. rewrite /u16 -(Z.mod_unique (Z.lnot z) (2 ^ 16) (-1) (65535 - z)) //; unfold Z.lnot; lia. Qed.

(** The complement of the sum, put into the field that was zero, makes the sum all ones. *)
Lemma ones_complete S : 0 ≤ S → ones (S + (65535 - ones S)) = 65535.
Proof.
  intros HS. pose proof (ones_range S HS). pose proof (ones_mod S HS) as E. rewrite /ones in E |- *. case_match eqn:E0; to_prop.
  - subst S. done.
  - pose proof (Z.mod_pos_bound (S - 1) 65535). case_match eqn:E1; to_prop; [lia|].
    rewrite (_ : S + _ - 1 = (S - 1 - (S - 1) mod 65535) + 65534); [|lia].
    rewrite {1}(Z.div_mod (S - 1) 65535); [|lia]. rewrite (_ : _ + 65534 = 65534 + (S - 1) / 65535 * 65535); [|lia]. by rewrite Z.mod_add.
Qed.

(** *** The header of IP *)

Lemma octets_ipv4_hdr src dst proto len k : 0 ≤ proto < 256 → octets (ipv4_hdr src dst proto len k).
Proof.
  intros Hp. rewrite /octets /ipv4_hdr !Forall_app. split_and!; try apply octets_le; repeat constructor; lia.
Qed.

Lemma length_ipv4_hdr src dst proto len k : length (ipv4_hdr src dst proto len k) = 20%nat.
Proof. by rewrite /ipv4_hdr !length_app !length_le. Qed.

Lemma words_total_sum l total : octets l → 0 ≤ total → Z.even (zlen l) = true → total + 2 ^ 16 * zlen l < 2 ^ 32 → words_total total l = total + word_sum l.
Proof.
  remember (length l) as n eqn:E. revert l total E. induction n as [n IH] using lt_wf_ind. intros [|c [|d l]] total -> Hl Ht Hev Hb; [simpl; lia|done|].
  apply Forall_cons in Hl as [Hc Hl]. apply Forall_cons in Hl as [Hd Hl]. assert (0 ≤ value [c; d] < 2 ^ 16) by (simpl; lia).
  rewrite even_two in Hev. cbn [words_total word_sum length] in *. rewrite u32_small; [|lia]. rewrite (IH (length l)); (done || lia).
Qed.

Lemma word_sum_bound l : octets l → word_sum l ≤ 2 ^ 16 * zlen l.
Proof.
  remember (length l) as n eqn:E. revert l E. induction n as [n IH] using lt_wf_ind. intros [|c [|d l]] -> Hl; [done|apply Forall_cons in Hl as [? _]; simpl; lia|].
  apply Forall_cons in Hl as [Hc Hl]. apply Forall_cons in Hl as [Hd Hl]. specialize (IH (length l) ltac:(simpl; lia) l eq_refl Hl). cbn [word_sum length]. simpl value. lia.
Qed.

(** One fold of the sum, as [rfc1701_chksum] does it *)
Definition folded (l : list Z) : Z := word_sum l mod 2 ^ 16 + word_sum l / 2 ^ 16.

Lemma rfc1701_folded l : octets l → Z.even (zlen l) = true → zlen l ≤ 60 → rfc1701_chksum l = 65535 - u16 (folded l).
Proof.
  intros Hl Hev Hn. pose proof (word_sum_nonneg l Hl). rewrite /rfc1701_chksum words_total_sum //; [|lia..]. rewrite Z.add_0_l fold_bits // u16_lnot //. apply u16_range.
Qed.

Lemma ipv4_hdr_sum src dst proto len k : 0 ≤ proto < 256 → 0 ≤ k < 2 ^ 16 →
  word_sum (ipv4_hdr src dst proto len k) = word_sum (ipv4_hdr src dst proto len 0) + k.
Proof.
  intros Hp Hk. set (A := [0x45; 0] ++ le 2 (htons (20 + len)) ++ le 2 0 ++ le 2 0x40 ++ [64; proto]).
  assert (∀ k, ipv4_hdr src dst proto len k = A ++ le 2 k ++ le 4 src ++ le 4 dst) as E by (intros; rewrite /ipv4_hdr /A -!app_assoc //).
  assert (Z.even (zlen A) = true) as HA by (rewrite /A !length_app !length_le //).
  clearbody A. revert E. generalize (le 4 src ++ le 4 dst). intros B E. pose proof (word_sum_app (le 2 k) B) as E1. pose proof (word_sum_app (le 2 0) B) as E2.
  rewrite !E (word_sum_app A (le 2 k ++ B)) // (word_sum_app A (le 2 0 ++ B)) // E1 // E2 // (word_sum_le k) // (word_sum_le 0) //. lia.
Qed.

(** The checksum of a header that is sent is right exactly if one fold is enough. *)
Lemma ipv4_chksum_iff src dst proto len : 0 ≤ proto < 256 →
  rfc1701_chksum (minip_build_ipv4_hdr src dst proto len) = 0 ↔ folded (ipv4_hdr src dst proto len 0) < 2 ^ 16.
Proof.
  intros Hp. rewrite /minip_build_ipv4_hdr. pose proof (octets_ipv4_hdr src dst proto len 0 Hp) as Ho.
  rewrite (rfc1701_folded (ipv4_hdr src dst proto len 0)); [|done|by rewrite length_ipv4_hdr|rewrite length_ipv4_hdr; lia].
  set (S := word_sum (ipv4_hdr src dst proto len 0)). set (F := folded (ipv4_hdr src dst proto len 0)). assert (F = S mod 2 ^ 16 + S / 2 ^ 16) as EF by done.
  pose proof (word_sum_nonneg _ Ho) as HS. pose proof (word_sum_bound _ Ho) as HB. rewrite length_ipv4_hdr in HB. fold S in HS, HB. pose proof (u16_range F) as HF.
  rewrite rfc1701_folded; [|by apply octets_ipv4_hdr|by rewrite length_ipv4_hdr|rewrite length_ipv4_hdr; lia].
  rewrite {1}/folded ipv4_hdr_sum //; [|lia]. fold S. clearbody S F. pose proof (Z.div_mod S (2 ^ 16) ltac:(lia)) as HD. pose proof (Z.mod_pos_bound S (2 ^ 16) ltac:(lia)).
  assert (0 ≤ S / 2 ^ 16 ≤ 20) by (split; [apply Z.div_pos; lia|apply Z.div_le_upper_bound; lia]). set (q := S / 2 ^ 16) in *. set (r := S mod 2 ^ 16) in *. clearbody q r.
  destruct (decide (F < 2 ^ 16)) as [Hlt|Hge].
  - rewrite (u16_small F); [|lia]. split; [done|intros _].
    rewrite -(Z.div_unique (S + (65535 - F)) (2 ^ 16) q (65535 - q)); [|lia|lia]. rewrite -(Z.mod_unique (S + (65535 - F)) (2 ^ 16) q (65535 - q)); [|lia|lia].
    rewrite u16_small; lia.
  - split; [|lia]. assert (u16 F = F - 2 ^ 16) as -> by (symmetry; apply (Z.mod_unique _ _ 1); lia).
    rewrite -(Z.div_unique (S + (65535 - (F - 2 ^ 16))) (2 ^ 16) (q + 1) (65535 - q)); [|lia|lia].
    rewrite -(Z.mod_unique (S + (65535 - (F - 2 ^ 16))) (2 ^ 16) (q + 1) (65535 - q)); [|lia|lia].
    rewrite (_ : 65535 - q + (q + 1) = 2 ^ 16); [|lia]. change (u16 (2 ^ 16)) with 0. lia.
Qed.

(** ** Sending *)

(** The driver is there, the pool has [k] objects or more, and hardware addresses have
    six bytes. *)
Record net_ok (k : nat) (n : net) : Prop := {
  no_driver : n_driver n = true;
  no_pool : Forall (λ o, zlen o = PKTBUF_SIZE) (n_pool n);
  no_free : (k ≤ length (n_pool n))%nat;
  no_mac : length (n_mac n) = 6%nat;
  no_arp : Forall (λ e, length e.2 = 6%nat) (n_arp n);
  no_replies : Forall (λ r, ∀ mac, r = Some mac → length mac = 6%nat) (n_replies n);
}.

(** What sending does not change *)
Record same_config (n n' : net) : Prop := {
  sc_ip : n_ip n' = n_ip n;
  sc_netmask : n_netmask n' = n_netmask n;
  sc_broadcast : n_broadcast n' = n_broadcast n;
  sc_gateway : n_gateway n' = n_gateway n;
  sc_mac : n_mac n' = n_mac n;
  sc_udp : n_udp n' = n_udp n;
  sc_calls : n_calls n' = n_calls n;
}.

#[export] Instance same_config_refl : Reflexive same_config.
Proof. by split. Qed.

#[export] Instance same_config_trans : Transitive same_config.
Proof. intros n1 n2 n3 [] []. split; congruence. Qed.

Lemma net_ok_weaken k k' n : (k' ≤ k)%nat → net_ok k n → net_ok k' n.
Proof. intros Hk []. split; (done || lia). Qed.

Lemma wp_lift_opt {A} (o : option A) a (Q : A → net → Prop) n : o = Some a → Q a n → wp (lift_opt o) Q n.
Proof. intros -> HQ. exact HQ. Qed.

(** A packet of the pool: [d] bytes of room in front, and the bytes [l] *)
Record packet (p : pktbuf) (d : Z) (l : list Z) : Prop := {
  pk_ok : pkt_ok p;
  pk_data : p_data p = d;
  pk_contents : contents p = l;
  pk_blen : p_blen p = 1536;
  pk_obj : zlen (p_obj p) = 1536;
}.

Lemma packet_dlen p d l : packet p d l → p_dlen p = zlen l.
Proof. intros [Hp _ <- _ _]. by rewrite length_contents. Qed.

Lemma packet_room p d l : packet p d l → 0 ≤ d ∧ d + zlen l ≤ 1536.
Proof. intros Hp. pose proof (packet_dlen _ _ _ Hp). destruct Hp as [[] <- _ E _]. lia. Qed.

Lemma wp_pktbuf_prepend p d l sz (Q : pktbuf → net → Prop) n : packet p d l → 0 ≤ sz ≤ d →
  (∀ p' h, zlen h = sz → packet p' (d - sz) (h ++ l) → Q p' n) → wp (lift_opt (pktbuf_prepend p sz)) Q n.
Proof.
  intros Hp Hsz HQ. pose proof (packet_dlen _ _ _ Hp) as El. destruct Hp as [Hp <- <- Hb Ho].
  destruct (pktbuf_prepend_ok p sz Hp Hsz) as [E Hp']. eapply wp_lift_opt; [exact E|].
  apply (HQ _ (slice (p_data p - sz) sz (p_buffer p))); destruct Hp; unfold p_blen in *; [apply length_slice; lia|].
  split; try done. rewrite /contents /= (Z.add_comm (p_dlen p)) slice_app; [|lia..]. by rewrite Z.sub_add.
Qed.

Lemma wp_pktbuf_append p d l sz (Q : Z * pktbuf → net → Prop) n : packet p d l → 0 ≤ sz → d + zlen l + sz ≤ 1536 →
  (∀ p' t, zlen t = sz → packet p' d (l ++ t) → Q (d + zlen l, p') n) → wp (lift_opt (pktbuf_append p sz)) Q n.
Proof.
  intros Hp Hsz Hb HQ. pose proof (packet_dlen _ _ _ Hp) as El. destruct Hp as [Hp <- <- Hb' Ho]. rewrite -El in HQ, Hb.
  eapply wp_lift_opt; [rewrite /pktbuf_append avail_tail_ok // Hb' (proj2 (Z.ltb_ge _ _)); [done|lia]|].
  apply (HQ _ (slice (p_data p + p_dlen p) sz (p_buffer p))); destruct Hp; unfold p_blen in *; [apply length_slice; lia|].
  rewrite u32_small; [|lia]. split; try done; [split; rewrite /p_blen /=; lia|]. rewrite /contents /= slice_app //.
Qed.

Lemma wp_pktbuf_append_data p d l data (Q : pktbuf → net → Prop) n : packet p d l → d + zlen l + zlen data ≤ 1536 →
  (∀ p', packet p' d (l ++ data) → Q p' n) → wp (lift_opt (pktbuf_append_data p data)) Q n.
Proof.
  intros Hp Hb HQ. pose proof (packet_dlen _ _ _ Hp) as El. destruct Hp as [Hp <- <- Hb' Ho].
  destruct (pktbuf_append_data_ok p data Hp) as (p'&E&Hp'&Ec&Ed&El'&Eb&Eo&_); [lia|]. eapply wp_lift_opt; [exact E|].
  apply HQ. split; congruence.
Qed.

Lemma splice_mid (a x b bytes : list Z) : length x = length bytes → splice (zlen a) bytes (a ++ x ++ b) = a ++ bytes ++ b.
Proof.
  intros E. rewrite -splice_drop; [|lia|rewrite !length_app; lia]. rewrite Nat2Z.id take_app_length drop_app_length. f_equal.
  apply list_eq. intros i. rewrite lookup_splice; [|lia|rewrite !length_app; lia]. rewrite Nat.sub_0_r. case_decide.
  - by rewrite lookup_app_l; [|lia].
  - rewrite !lookup_app_r; [|lia..]. by rewrite E.
Qed.

Lemma wp_pktbuf_store p d a x b at_ bytes (Q : pktbuf → net → Prop) n : packet p d (a ++ x ++ b) → at_ = d + zlen a →
  length x = length bytes → (∀ p', packet p' d (a ++ bytes ++ b) → Q p' n) → wp (lift_opt (pktbuf_store at_ bytes p)) Q n.
Proof.
  intros Hp -> Ex HQ. pose proof (packet_room _ _ _ Hp) as Hr. pose proof (packet_dlen _ _ _ Hp) as El. rewrite !length_app in Hr, El.
  destruct Hp as [Hp <- Ec Hb Ho]. destruct (pktbuf_store_ok p (p_data p + zlen a) bytes Hp) as [E Hp']; [lia..|].
  eapply wp_lift_opt; [exact E|]. apply HQ. split; try done; [|by rewrite /p_blen /= length_splice].
  rewrite contents_store; [|done|lia|lia]. by rewrite Ec splice_mid.
Qed.

Lemma wp_pktbuf_alloc k n : net_ok (2 + k) n →
  wp pktbuf_alloc (λ p n', packet p 64 [] ∧ net_ok k n' ∧ same_config n n' ∧ n_sent n' = n_sent n) n.
Proof.
  intros []. rewrite /pktbuf_alloc /get_pool_object. destruct (n_pool n) as [|o [|b l]] eqn:E; [simpl in *; lia..|].
  apply Forall_cons in no_pool0 as [Ho Hp]. apply Forall_cons in Hp as [Hb Hp]. rewrite /PKTBUF_SIZE in Ho, Hb.
  apply wp_bind, wp_bind, wp_gets. rewrite E. apply wp_bind, wp_modify, wp_ret.
  apply wp_bind, wp_bind, wp_gets. apply wp_bind, wp_modify, wp_ret.
  eapply wp_lift_opt; [rewrite /pktbuf_add_buffer Hb //|].
  split_and!; [split; [split|..]; rewrite /p_blen /PKTBUF_MAX_HDR /=; (done || lia)|split; (done || simpl in *; lia)|by split|done].
Qed.

Lemma wp_tx_handler p d l n (Q : unit → net → Prop) : packet p d l → n_driver n = true →
  Q () (set_n_sent (l :: n_sent n) n) → wp (tx_handler p) Q n.
Proof. intros [_ _ <- _ _] Hd HQ. apply wp_bind, wp_gets. rewrite Hd. apply wp_bind, wp_assert; [done|]. by apply wp_modify. Qed.

Lemma wp_pktbuf_free k p d l n (Q : unit → net → Prop) : packet p d l → net_ok k n →
  (∀ n', net_ok (2 + k) n' → same_config n n' → n_sent n' = n_sent n → Q () n') → wp (pktbuf_free p) Q n.
Proof.
  intros [_ _ _ Hb Ho] [] HQ. rewrite /pktbuf_free /free_pool_object. apply wp_bind, wp_modify, wp_modify, HQ; [|by split|done].
  split; try done; [apply Forall_cons_2; [done|by apply Forall_cons_2]|]. simpl. lia.
Qed.

(** The frame of a request for an address *)
Definition arp_frame (n : net) (addr : Z) : list Z :=
  minip_build_mac_hdr (n_mac n) bcast_mac ETH_TYPE_ARP ++ arp_pkt ARP_OPER_REQUEST (n_mac n) (n_ip n) bcast_mac addr.

Lemma length_mac_hdr mac dst type : length mac = 6%nat → length dst = 6%nat → length (minip_build_mac_hdr mac dst type) = 14%nat.
Proof. intros H1 H2. by rewrite /minip_build_mac_hdr !length_app H1 H2 length_le. Qed.

Lemma length_arp_pkt oper sha spa tha tpa : length sha = 6%nat → length tha = 6%nat → length (arp_pkt oper sha spa tha tpa) = 28%nat.
Proof. intros H1 H2. by rewrite /arp_pkt !length_app H1 H2 !length_le. Qed.

(** A packet with two headers is filled in and sent. *)
Lemma wp_arp_tx k oper dst tha tpa n (Q : unit → net → Prop) : net_ok (2 + k) n → length dst = 6%nat → length tha = 6%nat →
  (∀ n', net_ok k n' → same_config n n' →
    n_sent n' = (minip_build_mac_hdr (n_mac n) dst ETH_TYPE_ARP ++ arp_pkt oper (n_mac n) (n_ip n) tha tpa) :: n_sent n → Q () n') →
  wp (p ← pktbuf_alloc;
      p ← lift_opt (pktbuf_prepend p SIZEOF_ETH);
      '(arp, p) ← lift_opt (pktbuf_append p SIZEOF_ARP);
      s ← gets id;
      p ← lift_opt (pktbuf_store (p_data p) (minip_build_mac_hdr (n_mac s) dst ETH_TYPE_ARP) p);
      p ← lift_opt (pktbuf_store arp (arp_pkt oper (n_mac s) (n_ip s) tha tpa) p);
      tx_handler p) Q n.
Proof.
  intros Hn Hm Hs HQ. apply wp_bind. eapply wp_mono; [by apply (wp_pktbuf_alloc k)|]. intros p n1 (Hp&Hn1&Hc&Es).
  apply wp_bind. eapply wp_pktbuf_prepend; [done|by rewrite /SIZEOF_ETH|]. intros p1 h Hh Hp1. rewrite app_nil_r in Hp1.
  apply wp_bind. eapply wp_pktbuf_append; [done|done|rewrite Hh /SIZEOF_ETH /SIZEOF_ARP; lia|]. intros p2 t Ht Hp2. cbn beta iota.
  apply wp_bind, wp_gets. rewrite /id. destruct (Hn1). destruct (Hc).
  apply wp_bind, (wp_pktbuf_store _ (64 - SIZEOF_ETH) [] h t); [done|rewrite (pk_data _ _ _ Hp2) /=; lia| |].
  { rewrite length_mac_hdr //. rewrite /SIZEOF_ETH in Hh. lia. }
  intros p3 Hp3. cbn [app] in Hp3. rewrite -(app_nil_r t) in Hp3.
  apply wp_bind; eapply (wp_pktbuf_store _ (64 - SIZEOF_ETH) _ t []); [exact Hp3|rewrite Hh length_mac_hdr //| |].
  { rewrite length_arp_pkt //. rewrite /SIZEOF_ARP in Ht. lia. }
  intros p4 Hp4. rewrite app_nil_r in Hp4. eapply wp_tx_handler; [exact Hp4|done|]. apply HQ; [by split|by split|].
  by rewrite /= Es sc_ip0 sc_mac0.
Qed.

(** Sending a request *)
Lemma wp_arp_send_request k addr n (Q : unit → net → Prop) : net_ok (2 + k) n →
  (∀ n', net_ok k n' → same_config n n' → n_sent n' = arp_frame n addr :: n_sent n → Q () n') → wp (arp_send_request addr) Q n.
Proof. intros Hn HQ. exact (wp_arp_tx k ARP_OPER_REQUEST bcast_mac bcast_mac addr n Q Hn eq_refl eq_refl HQ). Qed.

Lemma arp_take_elem addr l e r : arp_take addr l = Some (e, r) → l ≡ₚ e :: r ∧ e.1 = addr.
Proof.
  revert r. induction l as [|x l IH]; intros r; [done|]. simpl. case_match eqn:E; [intros [= -> ->]; split; [done|lia]|].
  destruct (arp_take addr l) as [[y r']|]; [|done]. intros [= -> <-]. destruct (IH r') as [-> ?]; [done|]. split; [apply perm_swap|done].
Qed.

Lemma arp_take_None addr l : arp_take addr l = None ↔ Forall (λ e, e.1 ≠ addr) l.
Proof.
  induction l as [|x l IH]; [done|]. simpl. rewrite Forall_cons -IH. case_match eqn:E; [split; [done|intros []; lia]|].
  destruct (arp_take addr l) as [[y r']|]; naive_solver lia.
Qed.

(** A lookup finds an address of six bytes, and changes only the order of the entries. *)
Lemma wp_arp_cache_lookup k addr n (Q : option (list Z) → net → Prop) : net_ok k n →
  (∀ o n', net_ok k n' → same_config n n' → n_sent n' = n_sent n → n_arp n' ≡ₚ n_arp n →
    match o with Some mac => length mac = 6%nat ∧ (addr, mac) ∈ n_arp n | None => Forall (λ e, e.1 ≠ addr) (n_arp n) end → Q o n') →
  wp (arp_cache_lookup addr) Q n.
Proof.
  intros Hn HQ. apply wp_bind, wp_gets. destruct (arp_take addr (n_arp n)) as [[e r]|] eqn:E; [|apply wp_ret, HQ; [done..|by apply arp_take_None]].
  apply arp_take_elem in E as [E Ea]. apply wp_bind, wp_modify, wp_ret. destruct Hn.
  assert (Forall (λ e, length e.2 = 6%nat) (e :: r)) as HF by by rewrite -E.
  apply HQ; [by split|by split|done|done|]. apply Forall_cons in HF as [? _]. split; [done|]. rewrite E -Ea. destruct e. constructor.
Qed.

Lemma wp_arp_cache_update k alloc addr mac n (Q : unit → net → Prop) : net_ok k n → length mac = 6%nat →
  (∀ n', net_ok k n' → same_config n n' → n_sent n' = n_sent n → Q () n') → wp (arp_cache_update alloc addr mac) Q n.
Proof.
  intros Hn Hm HQ. rewrite /arp_cache_update. case_match; [by apply wp_ret, HQ|]. apply wp_bind, wp_gets. destruct (Hn).
  destruct (arp_take addr (n_arp n)) as [[e r]|] eqn:E.
  - apply arp_take_elem in E as [E _]. apply wp_modify, HQ; [|by split|done]. split; try done. simpl. by rewrite -E.
  - apply wp_when; [|intros _; by apply HQ]. intros _. apply wp_modify, HQ; [|by split|done]. split; try done. by apply Forall_cons_2.
Qed.

(** The cache is all that changes. *)
Lemma wp_arp_cache_update_any alloc addr mac n (Q : unit → net → Prop) : (∀ l, Q () (set_n_arp l n)) → wp (arp_cache_update alloc addr mac) Q n.
Proof.
  intros HQ. assert (Q () n) as Hn by (specialize (HQ (n_arp n)); by destruct n). rewrite /arp_cache_update. case_match; [by apply wp_ret|].
  apply wp_bind, wp_gets. destruct (arp_take addr (n_arp n)) as [[e r]|]; [by apply wp_modify|]. apply wp_when; intros _; [by apply wp_modify|done].
Qed.

(** What was sent on the way to a hardware address: nothing, or one request *)
Definition requests (n : net) (reqs : list (list Z)) : Prop := reqs = [] ∨ ∃ addr, reqs = [arp_frame n addr].

Lemma wp_arp_wait k host n (Q : option (list Z) → net → Prop) : net_ok k n →
  (∀ o n', net_ok k n' → same_config n n' → n_sent n' = n_sent n → (∀ mac, o = Some mac → length mac = 6%nat) → Q o n') →
  wp (arp_wait host) Q n.
Proof.
  intros Hn HQ. apply wp_bind, wp_gets. apply wp_bind, wp_modify. assert (net_ok k (set_n_replies (tail (n_replies n)) n)) as Hn'.
  { destruct Hn. split; try done. simpl. destruct (n_replies n); [done|]. by apply Forall_cons in no_replies0 as [_ ?]. }
  destruct (n_replies n) as [|[mac|] l] eqn:E; [by apply wp_ret, HQ..| |by apply wp_ret, HQ].
  apply wp_bind. eapply wp_arp_cache_update; [done| |].
  { destruct Hn. rewrite E in no_replies0. apply Forall_cons in no_replies0 as [? _]. naive_solver. }
  intros n1 Hn1 Hc1 Es1. eapply wp_arp_cache_lookup; [done|]. intros o n2 Hn2 Hc2 Es2 _ Ho. apply HQ; [done| |by rewrite Es2 Es1|].
  - rewrite <-Hc2, <-Hc1. by split.
  - intros mac' ->. naive_solver.
Qed.

Lemma wp_arp_get_dest_mac k host n (Q : option (list Z) → net → Prop) : net_ok (2 + k) n →
  (∀ o n' reqs, net_ok k n' → same_config n n' → requests n reqs → n_sent n' = reqs ++ n_sent n →
    (∀ mac, o = Some mac → length mac = 6%nat) → Q o n') → wp (arp_get_dest_mac host) Q n.
Proof.
  intros Hn HQ. rewrite /arp_get_dest_mac. case_match.
  { apply wp_ret, (HQ _ _ []); [by eapply net_ok_weaken, Hn; lia|done|by left|done|by intros ? [= <-]]. }
  apply wp_bind. eapply wp_arp_cache_lookup; [done|]. intros [mac|] n1 Hn1 Hc1 Es1 _ Ho.
  { apply wp_ret, (HQ _ _ []); [by eapply net_ok_weaken, Hn1; lia|done|by left|done|intros ? [= <-]; by apply Ho]. }
  apply wp_bind. eapply wp_arp_send_request; [exact Hn1|]. intros n2 Hn2 Hc2 Es2. eapply wp_arp_wait; [done|]. intros o n3 Hn3 Hc3 Es3 Ho3.
  apply (HQ _ _ [arp_frame n host]); [done|by rewrite <-Hc3, <-Hc2|right; by eexists| |done].
  destruct Hc1. by rewrite Es3 Es2 Es1 /arp_frame sc_ip0 sc_mac0.
Qed.

(** The frame of an IP packet *)
Definition ip_frame (n : net) (mac : list Z) (dst proto : Z) (data : list Z) : list Z :=
  minip_build_mac_hdr (n_mac n) mac ETH_TYPE_IPV4 ++ minip_build_ipv4_hdr (n_ip n) dst proto (zlen data) ++ data.

(** [r = 0], and the last frame sent is the packet; or an error, and it was not sent. *)
Definition ip_sent (n : net) (dst proto : Z) (data : list Z) (r : Z) (n' : net) : Prop :=
  ∃ reqs, requests n reqs ∧
    (r = 0 ∧ (∃ mac, length mac = 6%nat ∧ n_sent n' = ip_frame n mac dst proto data :: reqs ++ n_sent n) ∨
     (r = ERR_NOT_FOUND ∨ r = - EHOSTUNREACH) ∧ n_sent n' = reqs ++ n_sent n).

Lemma ip_sent_config n n1 dst proto data r n' : same_config n n1 → n_sent n1 = n_sent n → ip_sent n1 dst proto data r n' → ip_sent n dst proto data r n'.
Proof. intros [Ei _ _ _ Em _ _] Es. by rewrite /ip_sent /requests /ip_frame /arp_frame Ei Em Es. Qed.

Lemma wp_route k dst n (Q : list Z + Z * bool → net → Prop) : net_ok (2 + k) n →
  (∀ r n' reqs, net_ok k n' → same_config n n' → requests n reqs → n_sent n' = reqs ++ n_sent n →
    match r with inl mac => length mac = 6%nat | inr (e, _) => e = ERR_NOT_FOUND ∨ e = - EHOSTUNREACH end → Q r n') → wp (route dst) Q n.
Proof.
  intros Hn HQ. apply wp_bind, wp_gets. rewrite /id. assert (net_ok k n) by (eapply net_ok_weaken, Hn; lia).
  case_match; [by apply wp_ret, (HQ _ _ []); [..|left| |]|]. cbv zeta.
  case_match; [apply wp_ret, (HQ _ _ []); (done || by left)|].
  apply wp_bind. eapply wp_arp_get_dest_mac; [done|]. intros o n' reqs ? ? ? ? Ho. apply wp_ret, (HQ _ _ reqs); try done.
  destruct o; [by apply Ho|by right].
Qed.

Lemma length_build_ipv4_hdr src dst proto len : length (minip_build_ipv4_hdr src dst proto len) = 20%nat.
Proof. apply length_ipv4_hdr. Qed.

(** A packet with room for the two headers is sent whole behind them. *)
Lemma wp_minip_ipv4_send k p d data dst proto n (Q : Z → net → Prop) : net_ok (2 + k) n → packet p d data → 34 ≤ d →
  (∀ r n', net_ok k n' → same_config n n' → ip_sent n dst proto data r n' → Q r n') → wp (minip_ipv4_send p dst proto) Q n.
Proof.
  intros Hn Hp Hd HQ. pose proof (packet_dlen _ _ _ Hp) as El. pose proof (packet_room _ _ _ Hp). rewrite /minip_ipv4_send. cbv zeta.
  apply wp_bind. eapply wp_pktbuf_prepend; [done|rewrite /SIZEOF_IPV4; lia|]. intros p1 h1 Hh1 Hp1.
  apply wp_bind. eapply wp_pktbuf_prepend; [done|rewrite /SIZEOF_IPV4 /SIZEOF_ETH; lia|]. intros p2 h2 Hh2 Hp2.
  rewrite (pk_data _ _ _ Hp1) (pk_data _ _ _ Hp2) El. rewrite /SIZEOF_IPV4 /SIZEOF_ETH in Hh1, Hh2, Hp1, Hp2 |- *.
  apply wp_bind. eapply wp_route; [done|]. intros [mac|[e freed]] n1 reqs Hn1 Hc1 Hr Es1 Hm.
  - apply wp_bind, wp_gets. rewrite /id. destruct (Hc1), (Hn1).
    apply wp_bind. eapply (wp_pktbuf_store _ _ [] h2); [exact Hp2|simpl; lia|rewrite length_mac_hdr //; lia|]. intros p3 Hp3.
    apply wp_bind. eapply (wp_pktbuf_store _ _ (minip_build_mac_hdr _ _ _) h1 data); [exact Hp3|rewrite length_mac_hdr //; lia|rewrite length_build_ipv4_hdr; lia|].
    intros p4 Hp4. rewrite u16_small in Hp4; [|lia]. apply wp_bind. eapply wp_tx_handler; [exact Hp4|done|]. apply wp_ret, HQ; [by split|by split|].
    exists reqs. split; [done|]. left. split; [done|]. exists mac. by rewrite /ip_frame /= Es1 sc_ip0 sc_mac0.
  - destruct freed; cbn [when].
    + apply wp_bind. eapply wp_pktbuf_free; [exact Hp2|done|]. intros n2 Hn2 Hc2 Es2. apply wp_ret, HQ; [eapply net_ok_weaken, Hn2; lia|by rewrite <-Hc2|].
      exists reqs. split; [done|]. right. by rewrite Es2.
    + apply wp_bind, wp_ret, wp_ret, HQ; [done..|]. exists reqs. split; [done|]. by right.
Qed.

(** ** Answering requests for addresses *)

(** A frame of the protocol for addresses *)
Definition arp_typed (n : net) (f : list Z) : Prop :=
  ∃ mac body, length mac = 6%nat ∧ f = minip_build_mac_hdr (n_mac n) mac ETH_TYPE_ARP ++ body.

Lemma requests_typed n reqs : requests n reqs → Forall (arp_typed n) reqs.
Proof. intros [->|[addr ->]]; [done|]. constructor; [|done]. by eexists bcast_mac, _. Qed.

Lemma wp_arp_reply k src_mac sha spa n (Q : unit → net → Prop) : net_ok (2 + k) n → length src_mac = 6%nat → length sha = 6%nat →
  (∀ n', net_ok k n' → same_config n n' →
    n_sent n' = (minip_build_mac_hdr (n_mac n) src_mac ETH_TYPE_ARP ++ arp_pkt ARP_OPER_REPLY (n_mac n) (n_ip n) sha spa) :: n_sent n → Q () n') →
  wp (arp_reply src_mac sha spa) Q n.
Proof. exact (wp_arp_tx k ARP_OPER_REPLY src_mac sha spa n Q). Qed.

(** Every packet of the protocol is handled; a request for our address is answered. *)
Lemma wp_handle_arp_pkt k alloc p n (Q : Z → net → Prop) : net_ok (2 + k) n → pkt_ok p → SIZEOF_ETH ≤ p_data p →
  (∀ r n' fs, net_ok k n' → same_config n n' → Forall (arp_typed n) fs → n_sent n' = fs ++ n_sent n → Q r n') →
  wp (handle_arp_pkt alloc p) Q n.
Proof.
  intros Hn Hp Hd HQ. assert (net_ok k n) as Hk by (eapply net_ok_weaken, Hn; lia). rewrite /handle_arp_pkt. cbv zeta.
  rewrite /pktbuf_consume. destruct (p_dlen p <? SIZEOF_ARP) eqn:E; [by apply wp_ret, (HQ _ _ [])|]. to_prop. rewrite /SIZEOF_ARP /SIZEOF_ETH in E, Hd |- *.
  destruct Hp. unfold p_blen in *. assert (length (slice (p_data p - 14 + 6) 6 (p_buffer p)) = 6%nat) by (apply (inj Z.of_nat), length_slice; lia).
  set (arp := slice (p_data p) 28 (p_buffer p)). assert (zlen arp = 28) as Ea by (apply length_slice; lia). clearbody arp.
  assert (length (slice 8 6 arp) = 6%nat) by (apply (inj Z.of_nat), length_slice; lia).
  apply wp_bind, wp_gets, wp_bind. rewrite /id. apply wp_if.
  - intros _. apply wp_when; [|intros _; by apply wp_ret, (HQ _ _ [])]. intros _. eapply wp_arp_reply; [done..|]. intros n' Hn' Hc' Es'.
    apply wp_ret. refine (HQ _ _ [_] Hn' Hc' _ Es'). constructor; [|done]. eexists _, _. split; [|done]. done.
  - intros _. apply wp_when; [|intros _; by apply wp_ret, (HQ _ _ [])]. intros _. eapply wp_arp_cache_update; [done..|].
    intros n' Hn' Hc' Es'. by apply wp_ret, (HQ _ _ []).
Qed.

(** ** UDP *)

Lemma iovec_to_membuf_all iov n : n = zlen (concat iov) → iovec_to_membuf n iov 0 = concat iov.
Proof.
  revert n. induction iov as [|v iov IH]; intros n Hn; [done|]. cbn [iovec_to_membuf concat]. simpl in Hn. rewrite length_app in Hn.
  destruct (Z.leb_spec (zlen v) 0); [destruct v; [|simpl in *; lia]; by apply IH|]. cbv zeta. rewrite Z.sub_0_r Z.min_l; [|lia].
  rewrite (_ : slice 0 (zlen v) v = v); [|rewrite /slice drop_0 take_ge //; lia]. f_equal.
  destruct (Z.eqb_spec (n - zlen v) 0); [by rewrite (nil_length_inv (concat iov)); [|lia]|]. apply IH. lia.
Qed.

Lemma iovec_size_total iov : zlen (concat iov) < 2 ^ 64 → iovec_size iov = zlen (concat iov).
Proof.
  rewrite /iovec_size. assert (∀ a, 0 ≤ a → a + zlen (concat iov) < 2 ^ 64 → foldl (λ c v, u64 (c + zlen v)) a iov = a + zlen (concat iov)) as H; [|by intros; apply H].
  induction iov as [|v iov IH]; intros a Ha Hb; simpl in *; [lia|]. rewrite length_app in Hb |- *. rewrite u64_small; [|lia]. rewrite IH; lia.
Qed.

Lemma length_udp_hdr sport dport len : length (udp_hdr sport dport len) = 8%nat.
Proof. by rewrite /udp_hdr !length_app !length_le. Qed.

(** The bytes of the gather list, behind three headers *)
Definition udp_frame (n : net) (h : udp_socket) (data : list Z) : list Z :=
  minip_build_mac_hdr (n_mac n) (u_mac h) ETH_TYPE_IPV4 ++
  minip_build_ipv4_hdr (n_ip n) (u_host h) IP_PROTO_UDP (SIZEOF_UDP + zlen data) ++ udp_hdr (u_sport h) (u_dport h) (zlen data) ++ data.

Lemma wp_udp_send_iovec k iov h n (Q : Z → net → Prop) : net_ok (2 + k) n → iov ≠ [] → zlen (concat iov) ≤ 1472 → length (u_mac h) = 6%nat →
  (∀ n', net_ok k n' → same_config n n' → n_sent n' = udp_frame n h (concat iov) :: n_sent n → Q NO_ERROR n') → wp (udp_send_iovec iov h) Q n.
Proof.
  intros Hn Hne Hlen Hm HQ. rewrite /udp_send_iovec bool_decide_eq_false_2 //. apply wp_bind. eapply wp_mono; [by apply (wp_pktbuf_alloc k)|].
  intros p n1 (Hp&Hn1&Hc&Es). cbv zeta. rewrite iovec_size_total; [|lia]. rewrite u32_small; [|lia]. rewrite iovec_to_membuf_all //.
  set (data := concat iov) in *. clearbody data.
  apply wp_bind. eapply wp_pktbuf_append; [done|lia|simpl; lia|]. intros p1 t Ht Hp1. cbn beta iota. rewrite app_nil_l in Hp1. change (64 + zlen []) with 64.
  apply wp_bind. eapply wp_pktbuf_prepend; [done|by rewrite /SIZEOF_UDP|]. intros p2 h2 H2 Hp2. rewrite (pk_data _ _ _ Hp2).
  apply wp_bind. eapply wp_pktbuf_prepend; [done|by rewrite /SIZEOF_UDP /SIZEOF_IPV4|]. intros p3 h3 H3 Hp3. rewrite (pk_data _ _ _ Hp3).
  apply wp_bind. eapply wp_pktbuf_prepend; [done|by rewrite /SIZEOF_UDP /SIZEOF_IPV4 /SIZEOF_ETH|]. intros p4 h4 H4 Hp4. rewrite (pk_data _ _ _ Hp4).
  rewrite /SIZEOF_UDP in H2, Hp4 |- *. rewrite /SIZEOF_IPV4 in H3, Hp4 |- *. rewrite /SIZEOF_ETH in H4, Hp4 |- *. destruct (Hn1), (Hc).
  rewrite (_ : h4 ++ h3 ++ h2 ++ t = (h4 ++ h3 ++ h2) ++ t ++ []) in Hp4; [|by rewrite app_nil_r -!app_assoc].
  apply wp_bind. eapply (wp_pktbuf_store _ _ (h4 ++ h3 ++ h2) t []); [exact Hp4|rewrite !length_app; lia|lia|]. intros p5 Hp5. rewrite app_nil_r -!app_assoc (app_assoc h4) in Hp5.
  apply wp_bind. eapply (wp_pktbuf_store _ _ (h4 ++ h3) h2 data); [exact Hp5|rewrite !length_app; lia|rewrite length_udp_hdr; lia|]. intros p6 Hp6. rewrite -!app_assoc in Hp6.
  apply wp_bind, wp_gets. rewrite /id.
  apply wp_bind. eapply (wp_pktbuf_store _ _ [] h4); [exact Hp6|simpl; lia|rewrite length_mac_hdr //; lia|]. intros p7 Hp7. rewrite app_nil_l in Hp7.
  apply wp_bind. eapply (wp_pktbuf_store _ _ _ h3); [exact Hp7|rewrite length_mac_hdr //; lia|rewrite length_build_ipv4_hdr; lia|]. intros p8 Hp8.
  apply wp_bind. eapply wp_tx_handler; [exact Hp8|done|]. apply wp_ret, HQ; [by split|by split|].
  rewrite /udp_frame /SIZEOF_UDP /= Es sc_ip0 sc_mac0 u16_small; [|lia]. by rewrite (Z.add_comm 8).
Qed.

(** A datagram is given to the first listener on its port, without its header. *)
Lemma wp_udp_input p src sport dport data n (Q : unit → net → Prop) : pkt_ok p → contents p = udp_hdr sport dport (zlen data) ++ data →
  Q () (match List.find (λ e, l_port e =? u16 dport) (n_udp n) with
        | Some e => set_n_calls (UdpCall (l_callback e) data src (u16 sport) :: n_calls n) n
        | None => n
        end) → wp (udp_input p src) Q n.
Proof.
  intros Hp Ec HQ. pose proof (length_contents p Hp) as El. rewrite Ec length_app length_udp_hdr in El.
  destruct (pktbuf_consume_ok p SIZEOF_UDP Hp) as (p'&E&_&Ec'&_&Eb&_); [unfold SIZEOF_UDP; lia|]. rewrite /udp_input E Eb. cbv zeta.
  rewrite Ec drop_app_length' // in Ec'. assert (slice (p_data p) SIZEOF_UDP (p_buffer p) = udp_hdr sport dport (zlen data)) as ->.
  { rewrite -(take_app_length' (udp_hdr sport dport (zlen data)) data 8) // -Ec /contents /slice take_take. f_equal. unfold SIZEOF_UDP. lia. }
  assert (∀ v, 0 ≤ htons v < 2 ^ (8 * Z.of_nat 2)) by (intros; apply htons_range).
  assert (htons (field 2 2 (udp_hdr sport dport (zlen data))) = u16 dport) as -> by (rewrite /udp_hdr field_app // htons_twice //).
  assert (htons (field 0 2 (udp_hdr sport dport (zlen data))) = u16 sport) as -> by (rewrite /udp_hdr (field_app 0 2 _ []) // htons_twice //).
  apply wp_bind, wp_gets. rewrite Ec'. destruct (List.find _ _); [by apply wp_modify|by apply wp_ret].
Qed.
