(* ===== verification/Tcp.v ===== *)
(** * TCP, timers of the network stack, and the reception of packets

    [src/mk/lib/minip]: [tcp.c], [net_timer.c] and the receiving side of [minip.c].
    Sockets are records in a heap; taking the lock of a socket while it is held has no
    result, since nobody would release it.  The events of a socket are flags: a call
    that waits for one ends, and continues with a definition of its own when the event
    is signaled, so that packets, timers and other calls can come in between. *)

From S2P Require Import Prelude Timer Bits Bytes Cbuf Sort Net.

(** ** Data *)

Inductive tcp_state :=
  | STATE_CLOSED | STATE_LISTEN | STATE_SYN_SENT | STATE_SYN_RCVD | STATE_ESTABLISHED | STATE_CLOSE_WAIT
  | STATE_LAST_ACK | STATE_CLOSING | STATE_FIN_WAIT_1 | STATE_FIN_WAIT_2 | STATE_TIME_WAIT.

#[export] Instance tcp_state_eq_dec : EqDecision tcp_state.
Proof. solve_decision. Defined.

Definition PKT_FIN : Z := 1.
Definition PKT_SYN : Z := 2.
Definition PKT_RST : Z := 4.
Definition PKT_PSH : Z := 8.
Definition PKT_ACK : Z := 16.

(** The timers inside the sockets *)
Inductive net_timer := ack_delay_timer (s : positive) | retransmit_timer (s : positive) | time_wait_timer (s : positive).

#[export] Instance net_timer_eq_dec : EqDecision net_timer.
Proof. solve_decision. Defined.

Record tcp_socket := Socket {
  s_lock : bool; (** held *)
  s_ref : Z;
  s_state : tcp_state;
  local_ip : Z;
  remote_ip : Z;
  local_port : Z;
  remote_port : Z;
  mss : Z;
  rx_win_size : Z;
  rx_win_low : Z;
  rx_win_high : Z;
  rx_buffer : cbuf;
  rx_event : bool; (** signaled *)
  rx_full_mss_count : Z;
  tx_win_low : Z;
  tx_win_high : Z;
  tx_highest_seq : Z;
  tx_buffer : list Z;
  tx_buffer_size : Z;
  tx_buffer_offset : Z;
  tx_event : bool;
  accept_sem : Z; (** its count *)
  accepted : option positive;
  connect_event : bool;
}.

Definition set_s_lock (v : bool) (s : tcp_socket) : tcp_socket :=
  Socket v (s_ref s) (s_state s) (local_ip s) (remote_ip s) (local_port s) (remote_port s) (mss s) (rx_win_size s) (rx_win_low s) (rx_win_high s) (rx_buffer s) (rx_event s) (rx_full_mss_count s) (tx_win_low s) (tx_win_high s) (tx_highest_seq s) (tx_buffer s) (tx_buffer_size s) (tx_buffer_offset s) (tx_event s) (accept_sem s) (accepted s) (connect_event s).
Definition set_s_ref (v : Z) (s : tcp_socket) : tcp_socket :=
  Socket (s_lock s) v (s_state s) (local_ip s) (remote_ip s) (local_port s) (remote_port s) (mss s) (rx_win_size s) (rx_win_low s) (rx_win_high s) (rx_buffer s) (rx_event s) (rx_full_mss_count s) (tx_win_low s) (tx_win_high s) (tx_highest_seq s) (tx_buffer s) (tx_buffer_size s) (tx_buffer_offset s) (tx_event s) (accept_sem s) (accepted s) (connect_event s).
Definition set_s_state (v : tcp_state) (s : tcp_socket) : tcp_socket :=
  Socket (s_lock s) (s_ref s) v (local_ip s) (remote_ip s) (local_port s) (remote_port s) (mss s) (rx_win_size s) (rx_win_low s) (rx_win_high s) (rx_buffer s) (rx_event s) (rx_full_mss_count s) (tx_win_low s) (tx_win_high s) (tx_highest_seq s) (tx_buffer s) (tx_buffer_size s) (tx_buffer_offset s) (tx_event s) (accept_sem s) (accepted s) (connect_event s).
Definition set_local_ip (v : Z) (s : tcp_socket) : tcp_socket :=
  Socket (s_lock s) (s_ref s) (s_state s) v (remote_ip s) (local_port s) (remote_port s) (mss s) (rx_win_size s) (rx_win_low s) (rx_win_high s) (rx_buffer s) (rx_event s) (rx_full_mss_count s) (tx_win_low s) (tx_win_high s) (tx_highest_seq s) (tx_buffer s) (tx_buffer_size s) (tx_buffer_offset s) (tx_event s) (accept_sem s) (accepted s) (connect_event s).
Definition set_remote_ip (v : Z) (s : tcp_socket) : tcp_socket :=
  Socket (s_lock s) (s_ref s) (s_state s) (local_ip s) v (local_port s) (remote_port s) (mss s) (rx_win_size s) (rx_win_low s) (rx_win_high s) (rx_buffer s) (rx_event s) (rx_full_mss_count s) (tx_win_low s) (tx_win_high s) (tx_highest_seq s) (tx_buffer s) (tx_buffer_size s) (tx_buffer_offset s) (tx_event s) (accept_sem s) (accepted s) (connect_event s).
Definition set_local_port (v : Z) (s : tcp_socket) : tcp_socket :=
  Socket (s_lock s) (s_ref s) (s_state s) (local_ip s) (remote_ip s) v (remote_port s) (mss s) (rx_win_size s) (rx_win_low s) (rx_win_high s) (rx_buffer s) (rx_event s) (rx_full_mss_count s) (tx_win_low s) (tx_win_high s) (tx_highest_seq s) (tx_buffer s) (tx_buffer_size s) (tx_buffer_offset s) (tx_event s) (accept_sem s) (accepted s) (connect_event s).
Definition set_remote_port (v : Z) (s : tcp_socket) : tcp_socket :=
  Socket (s_lock s) (s_ref s) (s_state s) (local_ip s) (remote_ip s) (local_port s) v (mss s) (rx_win_size s) (rx_win_low s) (rx_win_high s) (rx_buffer s) (rx_event s) (rx_full_mss_count s) (tx_win_low s) (tx_win_high s) (tx_highest_seq s) (tx_buffer s) (tx_buffer_size s) (tx_buffer_offset s) (tx_event s) (accept_sem s) (accepted s) (connect_event s).
Definition set_rx_win_low (v : Z) (s : tcp_socket) : tcp_socket :=
  Socket (s_lock s) (s_ref s) (s_state s) (local_ip s) (remote_ip s) (local_port s) (remote_port s) (mss s) (rx_win_size s) v (rx_win_high s) (rx_buffer s) (rx_event s) (rx_full_mss_count s) (tx_win_low s) (tx_win_high s) (tx_highest_seq s) (tx_buffer s) (tx_buffer_size s) (tx_buffer_offset s) (tx_event s) (accept_sem s) (accepted s) (connect_event s).
Definition set_rx_win_high (v : Z) (s : tcp_socket) : tcp_socket :=
  Socket (s_lock s) (s_ref s) (s_state s) (local_ip s) (remote_ip s) (local_port s) (remote_port s) (mss s) (rx_win_size s) (rx_win_low s) v (rx_buffer s) (rx_event s) (rx_full_mss_count s) (tx_win_low s) (tx_win_high s) (tx_highest_seq s) (tx_buffer s) (tx_buffer_size s) (tx_buffer_offset s) (tx_event s) (accept_sem s) (accepted s) (connect_event s).
Definition set_rx_buffer (v : cbuf) (s : tcp_socket) : tcp_socket :=
  Socket (s_lock s) (s_ref s) (s_state s) (local_ip s) (remote_ip s) (local_port s) (remote_port s) (mss s) (rx_win_size s) (rx_win_low s) (rx_win_high s) v (rx_event s) (rx_full_mss_count s) (tx_win_low s) (tx_win_high s) (tx_highest_seq s) (tx_buffer s) (tx_buffer_size s) (tx_buffer_offset s) (tx_event s) (accept_sem s) (accepted s) (connect_event s).
Definition set_rx_event (v : bool) (s : tcp_socket) : tcp_socket :=
  Socket (s_lock s) (s_ref s) (s_state s) (local_ip s) (remote_ip s) (local_port s) (remote_port s) (mss s) (rx_win_size s) (rx_win_low s) (rx_win_high s) (rx_buffer s) v (rx_full_mss_count s) (tx_win_low s) (tx_win_high s) (tx_highest_seq s) (tx_buffer s) (tx_buffer_size s) (tx_buffer_offset s) (tx_event s) (accept_sem s) (accepted s) (connect_event s).
Definition set_rx_full_mss_count (v : Z) (s : tcp_socket) : tcp_socket :=
  Socket (s_lock s) (s_ref s) (s_state s) (local_ip s) (remote_ip s) (local_port s) (remote_port s) (mss s) (rx_win_size s) (rx_win_low s) (rx_win_high s) (rx_buffer s) (rx_event s) v (tx_win_low s) (tx_win_high s) (tx_highest_seq s) (tx_buffer s) (tx_buffer_size s) (tx_buffer_offset s) (tx_event s) (accept_sem s) (accepted s) (connect_event s).
Definition set_tx_win_low (v : Z) (s : tcp_socket) : tcp_socket :=
  Socket (s_lock s) (s_ref s) (s_state s) (local_ip s) (remote_ip s) (local_port s) (remote_port s) (mss s) (rx_win_size s) (rx_win_low s) (rx_win_high s) (rx_buffer s) (rx_event s) (rx_full_mss_count s) v (tx_win_high s) (tx_highest_seq s) (tx_buffer s) (tx_buffer_size s) (tx_buffer_offset s) (tx_event s) (accept_sem s) (accepted s) (connect_event s).
Definition set_tx_win_high (v : Z) (s : tcp_socket) : tcp_socket :=
  Socket (s_lock s) (s_ref s) (s_state s) (local_ip s) (remote_ip s) (local_port s) (remote_port s) (mss s) (rx_win_size s) (rx_win_low s) (rx_win_high s) (rx_buffer s) (rx_event s) (rx_full_mss_count s) (tx_win_low s) v (tx_highest_seq s) (tx_buffer s) (tx_buffer_size s) (tx_buffer_offset s) (tx_event s) (accept_sem s) (accepted s) (connect_event s).
Definition set_tx_highest_seq (v : Z) (s : tcp_socket) : tcp_socket :=
  Socket (s_lock s) (s_ref s) (s_state s) (local_ip s) (remote_ip s) (local_port s) (remote_port s) (mss s) (rx_win_size s) (rx_win_low s) (rx_win_high s) (rx_buffer s) (rx_event s) (rx_full_mss_count s) (tx_win_low s) (tx_win_high s) v (tx_buffer s) (tx_buffer_size s) (tx_buffer_offset s) (tx_event s) (accept_sem s) (accepted s) (connect_event s).
Definition set_tx_buffer (v : list Z) (s : tcp_socket) : tcp_socket :=
  Socket (s_lock s) (s_ref s) (s_state s) (local_ip s) (remote_ip s) (local_port s) (remote_port s) (mss s) (rx_win_size s) (rx_win_low s) (rx_win_high s) (rx_buffer s) (rx_event s) (rx_full_mss_count s) (tx_win_low s) (tx_win_high s) (tx_highest_seq s) v (tx_buffer_size s) (tx_buffer_offset s) (tx_event s) (accept_sem s) (accepted s) (connect_event s).
Definition set_tx_buffer_offset (v : Z) (s : tcp_socket) : tcp_socket :=
  Socket (s_lock s) (s_ref s) (s_state s) (local_ip s) (remote_ip s) (local_port s) (remote_port s) (mss s) (rx_win_size s) (rx_win_low s) (rx_win_high s) (rx_buffer s) (rx_event s) (rx_full_mss_count s) (tx_win_low s) (tx_win_high s) (tx_highest_seq s) (tx_buffer s) (tx_buffer_size s) v (tx_event s) (accept_sem s) (accepted s) (connect_event s).
Definition set_tx_event (v : bool) (s : tcp_socket) : tcp_socket :=
  Socket (s_lock s) (s_ref s) (s_state s) (local_ip s) (remote_ip s) (local_port s) (remote_port s) (mss s) (rx_win_size s) (rx_win_low s) (rx_win_high s) (rx_buffer s) (rx_event s) (rx_full_mss_count s) (tx_win_low s) (tx_win_high s) (tx_highest_seq s) (tx_buffer s) (tx_buffer_size s) (tx_buffer_offset s) v (accept_sem s) (accepted s) (connect_event s).
Definition set_accept_sem (v : Z) (s : tcp_socket) : tcp_socket :=
  Socket (s_lock s) (s_ref s) (s_state s) (local_ip s) (remote_ip s) (local_port s) (remote_port s) (mss s) (rx_win_size s) (rx_win_low s) (rx_win_high s) (rx_buffer s) (rx_event s) (rx_full_mss_count s) (tx_win_low s) (tx_win_high s) (tx_highest_seq s) (tx_buffer s) (tx_buffer_size s) (tx_buffer_offset s) (tx_event s) v (accepted s) (connect_event s).
Definition set_accepted (v : option positive) (s : tcp_socket) : tcp_socket :=
  Socket (s_lock s) (s_ref s) (s_state s) (local_ip s) (remote_ip s) (local_port s) (remote_port s) (mss s) (rx_win_size s) (rx_win_low s) (rx_win_high s) (rx_buffer s) (rx_event s) (rx_full_mss_count s) (tx_win_low s) (tx_win_high s) (tx_highest_seq s) (tx_buffer s) (tx_buffer_size s) (tx_buffer_offset s) (tx_event s) (accept_sem s) v (connect_event s).
Definition set_connect_event (v : bool) (s : tcp_socket) : tcp_socket :=
  Socket (s_lock s) (s_ref s) (s_state s) (local_ip s) (remote_ip s) (local_port s) (remote_port s) (mss s) (rx_win_size s) (rx_win_low s) (rx_win_high s) (rx_buffer s) (rx_event s) (rx_full_mss_count s) (tx_win_low s) (tx_win_high s) (tx_highest_seq s) (tx_buffer s) (tx_buffer_size s) (tx_buffer_offset s) (tx_event s) (accept_sem s) (accepted s) v.

Record tcp := Tcp {
  t_net : net;
  t_socks : gmap positive tcp_socket;
  t_list : list positive; (** [tcp_socket_list] *)
  t_timers : list (net_timer * Z); (** [net_timer_list], with the times *)
  t_now : Z;
  t_seed : Z; (** [randseed] *)
}.

Definition set_t_net (v : net) (s : tcp) : tcp :=
  Tcp v (t_socks s) (t_list s) (t_timers s) (t_now s) (t_seed s).
Definition set_t_socks (v : gmap positive tcp_socket) (s : tcp) : tcp :=
  Tcp (t_net s) v (t_list s) (t_timers s) (t_now s) (t_seed s).
Definition set_t_list (v : list positive) (s : tcp) : tcp :=
  Tcp (t_net s) (t_socks s) v (t_timers s) (t_now s) (t_seed s).
Definition set_t_timers (v : list (net_timer * Z)) (s : tcp) : tcp :=
  Tcp (t_net s) (t_socks s) (t_list s) v (t_now s) (t_seed s).
Definition set_t_seed (v : Z) (s : tcp) : tcp :=
  Tcp (t_net s) (t_socks s) (t_list s) (t_timers s) (t_now s) v.

Abbreviation T := (M tcp).

Definition ERR_CHANNEL_CLOSED : Z := -15.

Definition DEFAULT_MSS : Z := 1460.
Definition DEFAULT_RX_WINDOW_SIZE : Z := 8192.
Definition DEFAULT_TX_BUFFER_SIZE : Z := 8192.
Definition RETRANSMIT_TIMEOUT : Z := 50.
Definition DELAYED_ACK_TIMEOUT : Z := 50.
Definition TIME_WAIT_TIMEOUT : Z := 60000.

Definition SEQUENCE_GTE (a b : Z) : bool := 0 <=? s32 (a - b).
Definition SEQUENCE_LTE (a b : Z) : bool := s32 (a - b) <=? 0.
Definition SEQUENCE_GT (a b : Z) : bool := 0 <? s32 (a - b).
Definition SEQUENCE_LT (a b : Z) : bool := s32 (a - b) <? 0.

Definition flag (flags f : Z) : bool := negb (Z.land flags f =? 0).

Definition on_net {A} (m : N A) : T A :=
  λ s, match m (t_net s) with Some (a, n) => Some (a, set_t_net n s) | None => None end.

Definition get_socket (s : positive) : T tcp_socket := deref (λ t, t_socks t !! s).

Definition put_socket (s : positive) (x : tcp_socket) : T unit := modify (λ t, set_t_socks (<[s := x]> (t_socks t)) t).

(** [s->field = ...] *)
Definition upd (s : positive) (f : tcp_socket → tcp_socket) : T unit := x ← get_socket s; put_socket s (f x).

(** [mutex_acquire(&s->lock)] and [mutex_release] *)
Definition acquire (s : positive) : T unit := x ← get_socket s; assert (negb (s_lock x));; put_socket s (set_s_lock true x).

Definition release (s : positive) : T unit := x ← get_socket s; assert (s_lock x);; put_socket s (set_s_lock false x).

(** [rand()] *)
Definition next_rand : T Z := z ← gets t_seed; let '(r, z') := rand z in modify (set_t_seed z');; mret r.

(** The calls on the circular buffer of a socket; nobody waits for its event. *)
Definition ring_write (c : cbuf) (src : list Z) (len : Z) : option cbuf :=
  if len <? valpow2 (c_len_pow2 c) then '(_, c') ← write_loop passes c (Some (take (Z.to_nat len) src)) len 0; Some c' else None.

Definition ring_read (c : cbuf) (buflen : Z) : option (list Z * cbuf) :=
  if negb (c_tail c =? c_head c) then read_loop passes c buflen [] else Some ([], c).

(** ** Timers *)

Definition in_queue (x : net_timer) (l : list (net_timer * Z)) : bool := existsb (λ e, bool_decide (e.1 = x)) l.

Definition off_queue (x : net_timer) (l : list (net_timer * Z)) : list (net_timer * Z) := filter (λ e, e.1 ≠ x) l.

Fixpoint add_to_queue (x : net_timer) (at_ : Z) (l : list (net_timer * Z)) : list (net_timer * Z) :=
  match l with
  | [] => [(x, at_)]
  | e :: r => if TIME_GT e.2 at_ then (x, at_) :: l else e :: add_to_queue x at_ r
  end.

(** Whether the timer was not set before *)
Definition net_timer_set (x : net_timer) (delay : Z) : T bool :=
  t ← gets id;
  modify (set_t_timers (add_to_queue x (u32 (t_now t + delay)) (off_queue x (t_timers t))));;
  mret (negb (in_queue x (t_timers t))).

Definition net_timer_cancel (x : net_timer) : T bool :=
  l ← gets t_timers;
  modify (set_t_timers (off_queue x l));;
  mret (in_queue x l).

(** ** Sockets *)

Definition inc_socket_ref (s : positive) : T unit :=
  x ← get_socket s; put_socket s (set_s_ref (s_ref x + 1) x);; assert (0 <? s_ref x).

(** The last reference frees the socket and its buffers. *)
Definition dec_socket_ref (s : positive) : T bool :=
  x ← get_socket s;
  if s_ref x =? 1 then modify (λ t, set_t_socks (delete s (t_socks t)) t);; mret true
  else put_socket s (set_s_ref (s_ref x - 1) x);; mret false.

(** What the search of the list needs of every socket in it *)
Fixpoint socket_list (l : list positive) : T (list (positive * tcp_socket)) :=
  match l with
  | [] => mret []
  | s :: l => x ← get_socket s; r ← socket_list l; mret ((s, x) :: r)
  end.

Definition lookup_socket (remote_ip local_ip remote_port local_port : Z) : T (option positive) :=
  l ← gets t_list;
  l ← socket_list l;
  let open (e : positive * tcp_socket) :=
    negb (bool_decide (s_state e.2 = STATE_CLOSED)) && negb (bool_decide (s_state e.2 = STATE_LISTEN)) &&
    (Tcp.remote_ip e.2 =? remote_ip) && (Tcp.local_ip e.2 =? local_ip) &&
    (Tcp.remote_port e.2 =? remote_port) && (Tcp.local_port e.2 =? local_port) in
  let listens (e : positive * tcp_socket) :=
    bool_decide (s_state e.2 = STATE_LISTEN) && (Tcp.local_port e.2 =? local_port) in
  match (match List.find open l with Some e => Some e | None => List.find listens l end) with
  | Some (s, _) => inc_socket_ref s;; mret (Some s)
  | None => mret None
  end.

Definition add_socket_to_list (s : positive) : T unit :=
  x ← get_socket s; assert (0 <? s_ref x);; modify (λ t, set_t_list (s :: t_list t) t).

Definition remove_socket_from_list (s : positive) : T unit :=
  x ← get_socket s;
  assert (0 <? s_ref x);;
  l ← gets t_list;
  assert (bool_decide (s ∈ l));;
  modify (set_t_list (list_without s l)).

Definition tcp_timer_set (s : positive) (x : net_timer) (delay : Z) : T unit :=
  b ← net_timer_set x delay; when b (inc_socket_ref s).

Definition tcp_timer_cancel (s : positive) (x : net_timer) : T unit :=
  b ← net_timer_cancel x; when b (dec_socket_ref s;; mret ()).

(** ** Sending *)

Definition SIZEOF_TCP : Z := 20.

Definition tcp_pseudo_header (src_ip dst_ip len : Z) : list Z := le 4 src_ip ++ le 4 dst_ip ++ [0; IP_PROTO_TCP] ++ le 2 (htons len).

Definition cksum_pheader (pheader buf : list Z) : Z := u16 (Z.lnot (ones_sum16 (ones_sum16 0 pheader) buf)).

Definition tcp_header (source_port dest_port seq_num ack_num length_flags win_size checksum : Z) : list Z :=
  le 2 (htons source_port) ++ le 2 (htons dest_port) ++ le 4 (htonl seq_num) ++ le 4 (htonl ack_num) ++
  le 2 (htons length_flags) ++ le 2 (htons win_size) ++ le 2 checksum ++ le 2 0.

Definition tcp_send (dest_ip dest_port src_ip src_port : Z) (buf : list Z) (flags : Z) (options : list Z)
    (ack sequence window_size : Z) : N Z :=
  assert (zlen options mod 4 =? 0);;
  p ← pktbuf_alloc;
  p ← lift_opt (pktbuf_prepend p (SIZEOF_TCP + zlen options));
  let header := p_data p in
  let length_flags := Z.lor (Z.shiftl ((SIZEOF_TCP + zlen options) / 4) 12) flags in
  p ← lift_opt (pktbuf_store header (tcp_header src_port dest_port sequence ack length_flags window_size 0 ++ options) p);
  p ← (if 0 <? zlen buf then lift_opt (pktbuf_append_data p buf) else mret p);
  let checksum := cksum_pheader (tcp_pseudo_header src_ip dest_ip (p_dlen p)) (contents p) in
  p ← lift_opt (pktbuf_store (header + 16) (le 2 checksum) p);
  minip_ipv4_send p dest_ip IP_PROTO_TCP.

Definition is_mutex_held (s : positive) : T unit := x ← get_socket s; assert (s_lock x).

Definition tcp_socket_send (s : positive) (data : list Z) (flags : Z) (options : list Z) (sequence : Z) : T Z :=
  is_mutex_held s;;
  assert (zlen options mod 4 =? 0);;
  x ← get_socket s;
  let high := u32 (rx_win_low x + rx_win_size x - cbuf_space_used (rx_buffer x) - 1) in
  let win_size := if SEQUENCE_GTE high (rx_win_high x) then u16 (high - rx_win_low x) else u16 (rx_win_high x - rx_win_low x) in
  when (SEQUENCE_GTE high (rx_win_high x)) (upd s (set_rx_win_high high));;
  when (flag flags PKT_ACK) (tcp_timer_cancel s (ack_delay_timer s));;
  x ← get_socket s;
  on_net (tcp_send (remote_ip x) (remote_port x) (local_ip x) (local_port x) data flags options
    (if flag flags PKT_ACK then rx_win_low x else 0) sequence win_size).

Definition send_ack (s : positive) : T unit :=
  is_mutex_held s;;
  x ← get_socket s;
  match s_state x with
  | STATE_ESTABLISHED | STATE_CLOSE_WAIT | STATE_FIN_WAIT_2 => tcp_socket_send s [] PKT_ACK [] (tx_win_low x);; mret ()
  | _ => mret ()
  end.

(** ** Receiving *)

(** An overlap with what was received before gives an [offset] that wraps. *)
Definition handle_data (s : positive) (data : list Z) (sequence : Z) : T unit :=
  is_mutex_held s;;
  let len := zlen data in
  assert (0 <? len);;
  x ← get_socket s;
  let sequence_top := u32 (sequence + len - 1) in
  if SEQUENCE_LTE sequence (rx_win_low x) && SEQUENCE_GTE sequence_top (rx_win_low x) then
    let offset := u32 (sequence - rx_win_low x) in
    let copy_len := Z.min (u32 (rx_win_high x - rx_win_low x)) (u64 (len - offset)) in
    assert (offset <? len);;
    c ← deref (λ _, ring_write (rx_buffer x) (drop (Z.to_nat offset) data) copy_len);
    let low := u32 (rx_win_low x + copy_len) in
    let count := if mss x <=? copy_len then rx_full_mss_count x + 1 else 0 in
    upd s (λ x, set_rx_full_mss_count count (set_rx_event true (set_rx_buffer c (set_rx_win_low low x))));;
    if (2 <=? count) || (Z.quot (rx_win_size x) 2 <? s32 (low + rx_win_size x - rx_win_high x)) then
      send_ack s;; upd s (set_rx_full_mss_count 0)
    else tcp_timer_set s (ack_delay_timer s) DELAYED_ACK_TIMEOUT
  else send_ack s.

Definition handle_ack (s : positive) (sequence win_size : Z) : T unit :=
  is_mutex_held s;;
  x ← get_socket s;
  if SEQUENCE_LTE sequence (tx_win_low x) then mret ()
  else if SEQUENCE_GT sequence (tx_highest_seq x) then mret ()
  else
    let acked_len := u32 (sequence - tx_win_low x) in
    assert (acked_len <=? tx_buffer_size x);;
    assert (acked_len <=? tx_buffer_offset x);;
    rest ← deref (λ _, copy_out acked_len (tx_buffer_offset x - acked_len) (tx_buffer x));
    b ← deref (λ _, copy_in 0 rest (tx_buffer x));
    let low := u32 (tx_win_low x + acked_len) in
    upd s (λ x, set_tx_buffer b (set_tx_buffer_offset (u32 (tx_buffer_offset x - acked_len))
      (set_tx_win_high (u32 (low + win_size)) (set_tx_win_low low x))));;
    (if low =? tx_highest_seq x then tcp_timer_cancel s (retransmit_timer s)
     else tcp_timer_set s (retransmit_timer s) RETRANSMIT_TIMEOUT);;
    upd s (set_tx_event true).

Definition tcp_wakeup_waiters (s : positive) : T unit :=
  is_mutex_held s;; upd s (λ x, set_connect_event true (set_tx_event true (set_rx_event true x))).

Definition tcp_remote_close (s : positive) : T unit :=
  is_mutex_held s;;
  x ← get_socket s;
  assert (0 <? s_ref x);;
  if bool_decide (s_state x = STATE_CLOSED) then mret ()
  else
    upd s (set_s_state STATE_CLOSED);;
    tcp_timer_cancel s (retransmit_timer s);;
    tcp_timer_cancel s (ack_delay_timer s);;
    tcp_wakeup_waiters s.

(** The memory that [create_tcp_socket] gets: a socket, and the two buffers, which it
    does not check *)
Record alloc := Alloc { a_ptr : positive; a_rx : list Z; a_tx : list Z }.

Definition create_tcp_socket (mem : option alloc) (alloc_buffers : bool) : T (option positive) :=
  match mem with
  | None => mret None
  | Some a =>
    r ← next_rand;
    let low := u32 r in
    let '(ring, txb, size) :=
      if alloc_buffers then (Cbuf 0 0 (log2_uint DEFAULT_RX_WINDOW_SIZE) (a_rx a) false, a_tx a, DEFAULT_TX_BUFFER_SIZE)
      else (Cbuf 0 0 0 [] false, [], 0) in
    put_socket (a_ptr a) (Socket false 1 STATE_CLOSED 0 0 0 0 DEFAULT_MSS
      DEFAULT_RX_WINDOW_SIZE 0 0 ring false 0 low low low txb size 0 true 0 None false);;
    mret (Some (a_ptr a))
  end.

Definition mss_option (mss : Z) : list Z := [2; 4] ++ le 2 (htons mss).

(** A header after the swap to the order of the machine *)
Record header := Header { source_port : Z; dest_port : Z; seq_num : Z; ack_num : Z; length_flags : Z; h_win_size : Z }.

Definition parse_header (l : list Z) : header :=
  Header (htons (field 0 2 l)) (htons (field 2 2 l)) (htonl (field 4 4 l)) (htonl (field 8 4 l))
    (htons (field 12 2 l)) (htons (field 14 2 l)).

(** The header as it is left in the packet *)
Definition swapped_header (l : list Z) : list Z :=
  let h := parse_header l in
  le 2 (source_port h) ++ le 2 (dest_port h) ++ le 4 (seq_num h) ++ le 4 (ack_num h) ++
  le 2 (length_flags h) ++ le 2 (h_win_size h) ++ slice 16 2 l ++ le 2 (htons (field 18 2 l)).

Definition packet_flags (h : header) : Z := Z.land (length_flags h) 0x3f.

(** A connection for a listening socket: whether to send a reset *)
Definition input_listen (s : positive) (h : header) (src_ip : Z) (mem : option alloc) : T bool :=
  x ← get_socket s;
  if negb (flag (packet_flags h) PKT_SYN) then mret true
  else if bool_decide (accepted x ≠ None) then mret false
  else
    a ← create_tcp_socket mem true;
    match a with
    | None => mret false
    | Some a =>
      ip ← on_net minip_get_ipaddr;
      upd a (λ y, set_s_state STATE_SYN_RCVD (set_remote_port (source_port h) (set_remote_ip src_ip
        (set_local_port (local_port x) (set_local_ip ip y)))));;
      acquire a;;
      add_socket_to_list a;;
      let low := u32 (seq_num h + 1) in
      upd a (λ y, set_rx_win_high (u32 (low + rx_win_size y - 1)) (set_rx_win_low low y));;
      upd s (λ x, set_accept_sem (accept_sem x + 1) (set_accepted (Some a) x));;
      y ← get_socket a;
      tcp_socket_send a [] (Z.lor PKT_ACK PKT_SYN) (mss_option (mss x)) (tx_win_low y);;
      upd a (λ y, set_tx_win_low (u32 (tx_win_low y + 1)) y);;
      release a;;
      mret false
    end.

Definition input_syn_rcvd (s : positive) (h : header) : T bool :=
  x ← get_socket s;
  if flag (packet_flags h) PKT_SYN then mret true
  else if flag (packet_flags h) PKT_ACK then
    if negb (ack_num h =? tx_win_low x) then mret true
    else
      upd s (λ x, set_s_state STATE_ESTABLISHED (set_tx_highest_seq (tx_win_low x)
        (set_tx_win_high (u32 (tx_win_low x + h_win_size h)) x)));;
      mret false
  else mret true.

Definition input_syn_sent (s : positive) (h : header) : T bool :=
  x ← get_socket s;
  if negb (flag (packet_flags h) PKT_SYN) then mret true
  else if negb (flag (packet_flags h) PKT_ACK) then mret true
  else if negb (ack_num h =? u32 (tx_win_low x + 1)) then mret true
  else
    let low := u32 (seq_num h + 1) in
    let tx := u32 (tx_win_low x + 1) in
    upd s (λ x, set_s_state STATE_ESTABLISHED (set_tx_highest_seq tx (set_tx_win_high (u32 (tx + h_win_size h))
      (set_tx_win_low tx (set_rx_win_high (u32 (low + rx_win_size x - 1)) (set_rx_win_low low x))))));;
    send_ack s;;
    upd s (set_connect_event true);;
    mret false.

(** [data] is what follows the header. *)
Definition input_established (s : positive) (h : header) (data : list Z) : T unit :=
  let data_len := zlen data in
  let highest_sequence := u32 (seq_num h + (if 0 <? data_len then data_len - 1 else 0)) in
  when (flag (packet_flags h) PKT_ACK) (handle_ack s (ack_num h) (h_win_size h));;
  when (0 <? data_len) (handle_data s data (seq_num h));;
  x ← get_socket s;
  when (flag (packet_flags h) PKT_FIN && SEQUENCE_GTE (rx_win_low x) highest_sequence)
    (upd s (λ x, set_rx_win_low (u32 (rx_win_low x + 1)) x);;
     send_ack s;;
     upd s (λ x, set_rx_event true (set_s_state STATE_CLOSE_WAIT x))).

Definition input_close_wait (s : positive) (h : header) : T unit :=
  when (flag (packet_flags h) PKT_ACK) (handle_ack s (ack_num h) (h_win_size h));;
  when (flag (packet_flags h) PKT_FIN) (send_ack s).

Definition input_last_ack (s : positive) (h : header) : T unit :=
  when (flag (packet_flags h) PKT_ACK)
    (tcp_remote_close s;; remove_socket_from_list s;; dec_socket_ref s;; mret ()).

(** The label [fin_wait_2] *)
Definition input_fin_wait_2 (s : positive) (h : header) : T unit :=
  when (flag (packet_flags h) PKT_FIN)
    (upd s (λ x, set_rx_win_low (u32 (rx_win_low x + 1)) x);;
     send_ack s;;
     upd s (set_s_state STATE_TIME_WAIT);;
     tcp_timer_set s (time_wait_timer s) TIME_WAIT_TIMEOUT).

Definition input_fin_wait_1 (s : positive) (h : header) : T unit :=
  if flag (packet_flags h) PKT_ACK then upd s (set_s_state STATE_FIN_WAIT_2);; input_fin_wait_2 s h
  else when (flag (packet_flags h) PKT_FIN)
    (upd s (λ x, set_rx_win_low (u32 (rx_win_low x + 1)) x);;
     send_ack s;;
     upd s (set_s_state STATE_CLOSING)).

Definition input_closing (s : positive) (h : header) : T unit :=
  when (flag (packet_flags h) PKT_ACK)
    (upd s (set_s_state STATE_TIME_WAIT);; tcp_timer_set s (time_wait_timer s) TIME_WAIT_TIMEOUT).

(** The [switch] on the state, under the lock of the socket: whether to send a reset *)
Definition input_switch (s : positive) (h : header) (data : list Z) (src_ip : Z) (mem : option alloc) : T bool :=
  x ← get_socket s;
  if flag (packet_flags h) PKT_RST then
    (if bool_decide (s_state x = STATE_CLOSED) || bool_decide (s_state x = STATE_LISTEN) then mret () else tcp_remote_close s);;
    mret false
  else
    match s_state x with
    | STATE_CLOSED => mret true
    | STATE_LISTEN => input_listen s h src_ip mem
    | STATE_SYN_RCVD => input_syn_rcvd s h
    | STATE_SYN_SENT => input_syn_sent s h
    | STATE_ESTABLISHED => input_established s h data;; mret false
    | STATE_CLOSE_WAIT => input_close_wait s h;; mret false
    | STATE_LAST_ACK => input_last_ack s h;; mret false
    | STATE_FIN_WAIT_1 => input_fin_wait_1 s h;; mret false
    | STATE_FIN_WAIT_2 => input_fin_wait_2 s h;; mret false
    | STATE_CLOSING => input_closing s h;; mret false
    | STATE_TIME_WAIT => mret false
    end.

Definition send_reset (h : header) (src_ip dst_ip : Z) : T unit :=
  when (negb (flag (packet_flags h) PKT_RST))
    (on_net (tcp_send src_ip (source_port h) dst_ip (dest_port h) [] PKT_RST [] 0 (ack_num h) 0);; mret ()).

Definition tcp_input (p : pktbuf) (src_ip dst_ip : Z) (mem : option alloc) : T unit :=
  let l := contents p in
  let h := parse_header l in
  let header_len := Z.land (Z.shiftr (length_flags h) 12) 0xf * 4 in
  if p_dlen p <? SIZEOF_TCP then mret ()
  else if p_dlen p <? header_len then mret ()
  else if (Z.land (p_flags p) PKTBUF_FLAG_CKSUM_TCP_GOOD =? 0) &&
          negb (cksum_pheader (tcp_pseudo_header src_ip dst_ip (p_dlen p)) l =? 0) then mret ()
  else
    p ← on_net (lift_opt (pktbuf_store (p_data p) (swapped_header l) p));
    s ← lookup_socket src_ip dst_ip (source_port h) (dest_port h);
    match s with
    | None => send_reset h src_ip dst_ip
    | Some s =>
      acquire s;;
      reset ← input_switch s h (contents (pktbuf_consume p header_len).2) src_ip mem;
      release s;;
      dec_socket_ref s;;
      when reset (send_reset h src_ip dst_ip)
    end.

(** ** Data to send *)

(** [while (offset < pending)]: the pending data in packets of at most [mss] bytes *)
Fixpoint send_pending (fuel : nat) (s : positive) (outstanding pending offset : Z) : T Z :=
  if offset <? pending then
    match fuel with
    | O => fail
    | S fuel =>
      x ← get_socket s;
      let tosend := Z.min (mss x) (u32 (pending - offset)) in
      data ← deref (λ _, copy_out (outstanding + offset) tosend (tx_buffer x));
      tcp_socket_send s data (Z.lor PKT_ACK PKT_PSH) [] (tx_highest_seq x);;
      upd s (λ x, set_tx_highest_seq (u32 (tx_highest_seq x + tosend)) x);;
      send_pending fuel s outstanding pending (u32 (offset + tosend))
    end
  else mret offset.

Definition tcp_write_pending_data (s : positive) : T Z :=
  is_mutex_held s;;
  x ← get_socket s;
  assert (0 <? tx_buffer_size x);;
  assert (tx_buffer_offset x <=? tx_buffer_size x);;
  let outstanding := u32 (tx_highest_seq x - tx_win_low x) in
  let pending := u32 (tx_buffer_offset x - outstanding) in
  offset ← send_pending (Z.to_nat pending) s outstanding pending 0;
  when (0 <? offset) (tcp_timer_set s (retransmit_timer s) RETRANSMIT_TIMEOUT);;
  mret offset.

Definition tcp_retransmit (s : positive) : T Z :=
  is_mutex_held s;;
  x ← get_socket s;
  if negb (bool_decide (s_state x = STATE_ESTABLISHED)) && negb (bool_decide (s_state x = STATE_CLOSE_WAIT)) then mret 0
  else
    let outstanding := u32 (tx_highest_seq x - tx_win_low x) in
    if outstanding =? 0 then mret 0
    else
      let tosend := Z.min (mss x) outstanding in
      data ← deref (λ _, copy_out 0 tosend (tx_buffer x));
      tcp_socket_send s data (Z.lor PKT_ACK PKT_PSH) [] (tx_win_low x);;
      mret tosend.

(** ** Timeouts *)

Definition handle_retransmit_timeout (s : positive) : T unit :=
  acquire s;;
  n ← tcp_retransmit s;
  when (negb (n =? 0)) (tcp_timer_set s (retransmit_timer s) RETRANSMIT_TIMEOUT);;
  release s;;
  dec_socket_ref s;;
  mret ().

Definition handle_delayed_ack_timeout (s : positive) : T unit :=
  acquire s;; send_ack s;; release s;; dec_socket_ref s;; mret ().

Definition handle_time_wait_timeout (s : positive) : T unit :=
  acquire s;;
  x ← get_socket s;
  assert (bool_decide (s_state x = STATE_TIME_WAIT));;
  remove_socket_from_list s;;
  dec_socket_ref s;;
  release s;;
  dec_socket_ref s;;
  mret ().

(** [e->cb(e->arg)] *)
Definition fire (x : net_timer) : T unit :=
  match x with
  | ack_delay_timer s => handle_delayed_ack_timeout s
  | retransmit_timer s => handle_retransmit_timeout s
  | time_wait_timer s => handle_time_wait_timeout s
  end.

(** The timers that are due, one after the other: the delay to the next, [None] for
    [INFINITE_TIME] *)
Fixpoint net_timer_work_routine (fuel : nat) : T (option Z) :=
  match fuel with
  | O => fail
  | S fuel =>
    t ← gets id;
    match t_timers t with
    | [] => mret None
    | (x, at_) :: l =>
      if TIME_GT at_ (t_now t) then mret (Some (u32 (at_ - t_now t)))
      else modify (set_t_timers l);; fire x;; net_timer_work_routine fuel
    end
  end.

(** ** Calls of the user *)

(** [tcp_connect] up to the wait for [connect_event]: an error, or the socket *)
Definition tcp_connect (addr port entropy : Z) (mem : option alloc) : T (Z + positive) :=
  a ← create_tcp_socket mem true;
  match a with
  | None => mret (inl ERR_NO_MEMORY)
  | Some s =>
    modify (λ t, set_t_seed (rand_add_entropy (le 8 entropy) (t_seed t)) t);;
    ip ← on_net minip_get_ipaddr;
    r ← next_rand;
    upd s (λ x, set_remote_port port (set_remote_ip addr (set_local_port (Z.land (r + 1024) 0xffff) (set_local_ip ip x))));;
    acquire s;;
    upd s (set_s_state STATE_SYN_SENT);;
    add_socket_to_list s;;
    x ← get_socket s;
    on_net (tcp_send (remote_ip x) (remote_port x) (local_ip x) (local_port x) [] PKT_SYN (mss_option (mss x)) 0
      (tx_win_low x) (u16 (rx_win_size x)));;
    release s;;
    mret (inr s)
  end.

(** When [connect_event] has been signaled *)
Definition tcp_connect_resume (s : positive) : T Z :=
  acquire s;;
  x ← get_socket s;
  release s;;
  mret (if bool_decide (s_state x = STATE_ESTABLISHED) then NO_ERROR else ERR_CHANNEL_CLOSED).

Definition tcp_open_listen (port : Z) (mem : option alloc) : T (Z + positive) :=
  a ← create_tcp_socket mem false;
  match a with
  | None => mret (inl ERR_NO_MEMORY)
  | Some s =>
    upd s (λ x, set_s_state STATE_LISTEN (set_local_port port x));;
    add_socket_to_list s;;
    mret (inr s)
  end.

(** [tcp_accept_timeout] up to the wait, and after it *)
Definition tcp_accept_timeout (s : positive) : T unit := inc_socket_ref s.

Definition tcp_accept_resume (s : positive) (timed_out : bool) : T (Z + positive) :=
  if timed_out then dec_socket_ref s;; mret (inl ERR_TIMED_OUT)
  else
    x ← get_socket s;
    assert (0 <? accept_sem x);;
    upd s (λ x, set_accept_sem (accept_sem x - 1) x);;
    acquire s;;
    x ← get_socket s;
    a ← deref (λ _, accepted x);
    upd s (set_accepted None);;
    release s;;
    dec_socket_ref s;;
    mret (inr a).

(** [tcp_read] up to the wait for [rx_event], with something to read into *)
Definition tcp_read (s : positive) : T unit := inc_socket_ref s.

(** After the wait: the bytes read or an error; [None] when it has to wait again *)
Definition tcp_read_resume (s : positive) (len : Z) : T (option (list Z + Z)) :=
  acquire s;;
  x ← get_socket s;
  '(bytes, c) ← deref (λ _, ring_read (rx_buffer x) len);
  upd s (set_rx_buffer c);;
  if zlen bytes =? 0 then
    if negb (bool_decide (s_state x = STATE_ESTABLISHED)) then
      release s;; dec_socket_ref s;; mret (Some (inr ERR_CHANNEL_CLOSED))
    else upd s (set_rx_event false);; release s;; mret None
  else
    let remaining_bytes := cbuf_space_used c in
    when (bool_decide (s_state x = STATE_ESTABLISHED) && (remaining_bytes =? 0)) (upd s (set_rx_event false));;
    let new_rx_win_size := u32 (rx_win_size x - remaining_bytes) in
    when ((mss x <=? new_rx_win_size) && (u32 (rx_win_high x - rx_win_low x) <? mss x)) (send_ack s);;
    release s;;
    dec_socket_ref s;;
    mret (Some (inl bytes)).

Definition tcp_write (s : positive) : T unit := inc_socket_ref s.

(** One round of [tcp_write] after the wait for [tx_event], [off] bytes done: how many
    are done then, or an error *)
Definition tcp_write_resume (s : positive) (buf : list Z) (off : Z) : T (Z + Z) :=
  acquire s;;
  x ← get_socket s;
  if negb (bool_decide (s_state x = STATE_ESTABLISHED)) && negb (bool_decide (s_state x = STATE_CLOSE_WAIT)) then
    release s;; dec_socket_ref s;; mret (inr ERR_CHANNEL_CLOSED)
  else
    assert (0 <? tx_buffer_size x);;
    assert (tx_buffer_offset x <=? tx_buffer_size x);;
    let to_copy := Z.min (tx_buffer_size x - tx_buffer_offset x) (zlen buf - off) in
    if to_copy =? 0 then release s;; mret (inl off)
    else
      b ← deref (λ _, copy_in (tx_buffer_offset x) (slice off to_copy buf) (tx_buffer x));
      let offset := u32 (tx_buffer_offset x + to_copy) in
      upd s (λ x, set_tx_buffer_offset offset (set_tx_buffer b x));;
      assert (offset <=? tx_buffer_size x);;
      when (offset =? tx_buffer_size x) (upd s (set_tx_event false));;
      tcp_write_pending_data s;;
      release s;;
      mret (inl (off + to_copy)).

(** The end of [tcp_write], when all is done *)
Definition tcp_write_done (s : positive) (len : Z) : T Z := dec_socket_ref s;; mret len.

(** The error path leaves without releasing the lock. *)
Definition tcp_close (s : positive) : T Z :=
  inc_socket_ref s;;
  acquire s;;
  x ← get_socket s;
  let closed := tcp_wakeup_waiters s;; release s;; dec_socket_ref s;; mret NO_ERROR in
  let fin (state : tcp_state) :=
    upd s (set_s_state state);;
    tcp_socket_send s [] (Z.lor PKT_ACK PKT_FIN) [] (tx_win_low x);;
    upd s (λ x, set_tx_win_low (u32 (tx_win_low x + 1)) x);;
    closed in
  match s_state x with
  | STATE_CLOSED | STATE_LISTEN =>
    remove_socket_from_list s;;
    tcp_timer_cancel s (ack_delay_timer s);;
    tcp_timer_cancel s (retransmit_timer s);;
    upd s (set_s_state STATE_CLOSED);;
    dec_socket_ref s;;
    closed
  | STATE_SYN_RCVD | STATE_ESTABLISHED => fin STATE_FIN_WAIT_1
  | STATE_CLOSE_WAIT => fin STATE_LAST_ACK
  | _ => dec_socket_ref s;; mret ERR_CHANNEL_CLOSED
  end.

(** ** Reception *)

(** [m_arp]: whether there is memory for an entry of the cache *)
Record mallocs := Mallocs { m_arp : bool; m_sock : option alloc }.

Definition handle_ipv4_packet (p : pktbuf) (src_mac : list Z) (mem : mallocs) : T unit :=
  let ip := contents p in
  let ver_ihl := field 0 1 ip in
  let header_len := Z.land ver_ihl 0xf * 4 in
  let len := htons (field 2 2 ip) in
  if p_dlen p <? SIZEOF_IPV4 then mret ()
  else if negb (Z.land (Z.shiftr ver_ihl 4) 0xf =? 4) then mret ()
  else if p_dlen p <? header_len then mret ()
  else if negb (rfc1701_chksum (take (Z.to_nat header_len) ip) =? 0) then mret ()
  else if p_dlen p <? len then mret ()
  else
    let p := if len <? p_dlen p then pktbuf_consume_tail p (p_dlen p - len) else p in
    match pktbuf_consume p header_len with
    | (None, _) => mret ()
    | (Some _, p) =>
      let src_addr := field 12 4 ip in
      let dst_addr := field 16 4 ip in
      let proto := field 9 1 ip in
      on_net (arp_cache_update (m_arp mem) src_addr src_mac);;
      s ← on_net (gets id);
      if negb (dst_addr =? IPV4_BCAST) && negb (n_ip s =? IPV4_NONE) && negb (dst_addr =? n_ip s) &&
         negb (dst_addr =? n_broadcast s) then mret ()
      else if proto =? IP_PROTO_ICMP then
        match pktbuf_consume p SIZEOF_ICMP with
        | (None, _) => mret ()
        | (Some at_, p) =>
          let icmp := slice at_ SIZEOF_ICMP (p_buffer p) in
          when (field 0 1 icmp =? ICMP_ECHO_REQUEST) (on_net (send_ping_reply src_addr (slice 4 4 icmp) (contents p)))
        end
      else if proto =? IP_PROTO_UDP then on_net (udp_input p src_addr)
      else when (proto =? IP_PROTO_TCP) (tcp_input p src_addr dst_addr (m_sock mem))
    end.

Definition minip_rx_driver_callback (p : pktbuf) (mem : mallocs) : T unit :=
  match pktbuf_consume p SIZEOF_ETH with
  | (None, _) => mret ()
  | (Some at_, p) =>
    let eth := slice at_ SIZEOF_ETH (p_buffer p) in
    s ← on_net (gets id);
    if negb (bool_decide (slice 0 6 eth = n_mac s)) && negb (bool_decide (slice 0 6 eth = bcast_mac)) then mret ()
    else
      let type := htons (field 12 2 eth) in
      if type =? ETH_TYPE_IPV4 then handle_ipv4_packet p (slice 6 6 eth) mem
      else when (type =? ETH_TYPE_ARP) (on_net (handle_arp_pkt (m_arp mem) p);; mret ())
  end.
