(* ===== verification/TcpSpec.v ===== *)
(** * Segments, sockets and the stream of a connection

    What [tcp_send] gives to the driver and what [tcp_input] makes of it, the handlers of
    an established connection against the streams of bytes in both directions. *)

From S2P Require Import Prelude Timer Bits Bytes Ring Cbuf CbufRing CbufSpec Sort Net NetSpec Tcp.

(** ** Segments *)

Definition tcp_body (sport dport seq ack lf win : Z) (opts data : list Z) (cksum : Z) : list Z :=
  tcp_header sport dport seq ack lf win cksum ++ opts ++ data.

(** A segment with its checksum *)
Definition tcp_segment (sip dip sport dport seq ack lf win : Z) (opts data : list Z) : list Z :=
  let body := tcp_body sport dport seq ack lf win opts data in
  body (cksum_pheader (tcp_pseudo_header sip dip (zlen (body 0))) (body 0)).

Lemma length_tcp_header sport dport seq ack lf win c : length (tcp_header sport dport seq ack lf win c) = 20%nat.
Proof. by rewrite /tcp_header !length_app !length_le. Qed.

Lemma length_tcp_body sport dport seq ack lf win opts data c : zlen (tcp_body sport dport seq ack lf win opts data c) = 20 + zlen opts + zlen data.
Proof.
  rewrite /tcp_body. pose proof (length_tcp_header sport dport seq ack lf win c) as E. generalize dependent (tcp_header sport dport seq ack lf win c).
  intros h E. rewrite !length_app E. lia.
Qed.

Lemma length_tcp_segment sip dip sport dport seq ack lf win opts data :
  zlen (tcp_segment sip dip sport dport seq ack lf win opts data) = 20 + zlen opts + zlen data.
Proof. apply length_tcp_body. Qed.

Lemma octets_tcp_body sport dport seq ack lf win opts data c : octets opts → octets data → octets (tcp_body sport dport seq ack lf win opts data c).
Proof. intros. rewrite /octets /tcp_body /tcp_header !Forall_app. split_and!; (done || apply octets_le). Qed.

(** The part of a header in front of the checksum *)
Definition header_front (sport dport seq ack lf win : Z) : list Z :=
  le 2 (htons sport) ++ le 2 (htons dport) ++ le 4 (htonl seq) ++ le 4 (htonl ack) ++ le 2 (htons lf) ++ le 2 (htons win).

Lemma length_header_front sport dport seq ack lf win : length (header_front sport dport seq ack lf win) = 16%nat.
Proof. by rewrite /header_front !length_app !length_le. Qed.

Lemma tcp_body_split sport dport seq ack lf win opts data c :
  tcp_body sport dport seq ack lf win opts data c = header_front sport dport seq ack lf win ++ le 2 c ++ le 2 0 ++ opts ++ data.
Proof. by rewrite /tcp_body /tcp_header /header_front -!app_assoc. Qed.

Lemma tcp_body_sum sport dport seq ack lf win opts data c : 0 ≤ c < 2 ^ 16 →
  word_sum (tcp_body sport dport seq ack lf win opts data c) = word_sum (tcp_body sport dport seq ack lf win opts data 0) + c.
Proof.
  intros Hc. rewrite !tcp_body_split. set (A := header_front sport dport seq ack lf win).
  assert (Z.even (zlen A) = true) as HA by by rewrite /A length_header_front.
  set (B := le 2 0 ++ opts ++ data). clearbody A B. rewrite !(word_sum_app A) //. rewrite (word_sum_app (le 2 c) B) // (word_sum_app (le 2 0) B) //.
  rewrite !word_sum_le //. lia.
Qed.

Lemma octets_pseudo sip dip len : octets (tcp_pseudo_header sip dip len).
Proof. rewrite /octets /tcp_pseudo_header !Forall_app. split_and!; try apply octets_le. by repeat constructor. Qed.

Lemma cksum_pheader_ones ph buf : octets ph → octets buf → cksum_pheader ph buf = 65535 - ones (word_sum ph + word_sum buf).
Proof.
  intros Hp Hb. pose proof (word_sum_nonneg ph Hp). pose proof (word_sum_nonneg buf Hb). pose proof (ones_range (word_sum ph)).
  rewrite /cksum_pheader (ones_sum16_ones 0) // Z.add_0_l ones_sum16_ones //; [|lia]. rewrite ones_add // u16_lnot //.
  pose proof (ones_range (word_sum ph + word_sum buf)). lia.
Qed.

(** The checksum of a segment is found right. *)
Lemma tcp_segment_cksum sip dip sport dport seq ack lf win opts data :
  octets opts → octets data →
  cksum_pheader (tcp_pseudo_header sip dip (zlen (tcp_segment sip dip sport dport seq ack lf win opts data)))
    (tcp_segment sip dip sport dport seq ack lf win opts data) = 0.
Proof.
  intros Ho Hd. rewrite /tcp_segment. cbv zeta. set (body := tcp_body sport dport seq ack lf win opts data).
  assert (∀ c, octets (body c)) as Hb by (intros; by apply octets_tcp_body).
  assert (∀ c, zlen (body c) = zlen (body 0)) as -> by (intros; by rewrite /body !length_tcp_body).
  set (ph := tcp_pseudo_header _ _ _). assert (octets ph) as Hp by apply octets_pseudo.
  rewrite !cksum_pheader_ones //. pose proof (word_sum_nonneg ph Hp). pose proof (word_sum_nonneg (body 0) (Hb 0)).
  pose proof (ones_range (word_sum ph + word_sum (body 0)) ltac:(lia)). set (S := word_sum ph + word_sum (body 0)) in *. rewrite (_ : word_sum (body (65535 - ones S)) = word_sum (body 0) + (65535 - ones S)); [|apply tcp_body_sum; lia].
  rewrite Z.add_assoc -/S ones_complete; lia.
Qed.

(** The header is read back. *)
Lemma parse_tcp_segment sip dip sport dport seq ack lf win opts data :
  parse_header (tcp_segment sip dip sport dport seq ack lf win opts data) = Header (u16 sport) (u16 dport) (u32 seq) (u32 ack) (u16 lf) (u16 win).
Proof.
  rewrite /tcp_segment. cbv zeta. generalize (cksum_pheader (tcp_pseudo_header sip dip (zlen (tcp_body sport dport seq ack lf win opts data 0))) (tcp_body sport dport seq ack lf win opts data 0)).
  intros c. rewrite tcp_body_split /header_front. set (rest := le 2 c ++ _). clearbody rest.
  assert (∀ v, 0 ≤ htons v < 2 ^ (8 * Z.of_nat 2)) by (intros; apply htons_range). assert (∀ v, 0 ≤ htonl v < 2 ^ (8 * Z.of_nat 4)) by (intros; apply htonl_range).
  rewrite /parse_header -!app_assoc. f_equal.
  - rewrite (field_app 0 2 _ []) // htons_twice //.
  - rewrite (field_app 2 2 _ (le 2 (htons sport))) // htons_twice //.
  - rewrite (app_assoc (le 2 (htons sport))) field_app // htonl_twice //.
  - rewrite (app_assoc (le 2 (htons sport))) (app_assoc (_ ++ _)) field_app // htonl_twice //.
  - rewrite (app_assoc (le 2 (htons sport))) (app_assoc (_ ++ _)) (app_assoc (_ ++ _)) field_app // htons_twice //.
  - rewrite (app_assoc (le 2 (htons sport))) (app_assoc (_ ++ _)) (app_assoc (_ ++ _)) (app_assoc (_ ++ _)) field_app // htons_twice //.
Qed.

(** ** Sending a segment *)

Definition flags_of (opts : list Z) (flags : Z) : Z := Z.lor (Z.shiftl ((SIZEOF_TCP + zlen opts) / 4) 12) flags.

(** A segment of a size that the buffers have room for goes to [minip_ipv4_send] whole. *)
Lemma wp_tcp_send k dip dport sip sport data flags opts ack seq win n (Q : Z → net → Prop) :
  net_ok (4 + k) n → zlen opts mod 4 = 0 → zlen opts ≤ 10 → zlen data ≤ 1472 →
  (∀ r n', net_ok k n' → same_config n n' →
    ip_sent n dip IP_PROTO_TCP (tcp_segment sip dip sport dport seq ack (flags_of opts flags) win opts data) r n' → Q r n') →
  wp (tcp_send dip dport sip sport data flags opts ack seq win) Q n.
Proof.
  intros Hn Ho4 Ho Hd HQ. rewrite /tcp_send. apply wp_bind, wp_assert; [lia|].
  apply wp_bind. eapply wp_mono; [by apply (wp_pktbuf_alloc (2 + k))|]. intros p n1 (Hp&Hn1&Hc1&Es1). rewrite /SIZEOF_TCP.
  apply wp_bind. eapply wp_pktbuf_prepend; [done|lia|]. intros p1 h Hh Hp1. cbv zeta. rewrite (pk_data _ _ _ Hp1).
  rewrite -/SIZEOF_TCP -/(flags_of opts flags). set (hd := tcp_header sport dport seq ack (flags_of opts flags) win 0).
  assert (length hd = 20%nat) as Ehd by apply length_tcp_header. change SIZEOF_TCP with 20.
  apply wp_bind, (wp_pktbuf_store _ (64 - (20 + zlen opts)) [] h []); [done|simpl; lia|rewrite length_app Ehd; lia|].
  intros p2 Hp2. rewrite app_nil_r app_nil_l in Hp2. apply wp_bind.
  assert (∀ p3, packet p3 (64 - (20 + zlen opts)) ((hd ++ opts) ++ data) →
    wp (p ← lift_opt (pktbuf_store (64 - (20 + zlen opts) + 16) (le 2 (cksum_pheader (tcp_pseudo_header sip dip (p_dlen p3)) (contents p3))) p3);
        minip_ipv4_send p dip IP_PROTO_TCP) Q n1) as Hrest.
  { intros p3 Hp3. rewrite (packet_dlen _ _ _ Hp3) (pk_contents _ _ _ Hp3). rewrite -app_assoc in Hp3 |- *.
    change (hd ++ opts ++ data) with (tcp_body sport dport seq ack (flags_of opts flags) win opts data 0) in Hp3 |- *.
    set (c := cksum_pheader _ _). rewrite tcp_body_split in Hp3.
    apply wp_bind. eapply (wp_pktbuf_store _ _ _ (le 2 0)); [exact Hp3|rewrite length_header_front; lia|done|]. intros p4 Hp4.
    rewrite -tcp_body_split in Hp4. eapply wp_minip_ipv4_send; [done|exact Hp4|lia|]. intros r n' Hn' Hc' Hs. apply HQ; [done|by rewrite <-Hc'|].
    by eapply ip_sent_config. }
  apply wp_if; intros Hz; to_prop.
  - eapply wp_pktbuf_append_data; [exact Hp2|rewrite length_app Ehd; lia|]. intros p3 Hp3. by apply Hrest.
  - apply wp_ret, Hrest. by rewrite (nil_length_inv data ltac:(lia)) app_nil_r.
Qed.

(** ** Sequence numbers *)

Lemma u32_add_l b i : u32 (u32 b + i) = u32 (b + i).
Proof. apply Zplus_mod_idemp_l. Qed.

Lemma u32_seq b i k : u32 (u32 (b + i) + k) = u32 (b + (i + k)).
Proof. rewrite u32_add_l. f_equal. lia. Qed.

Lemma u32_seq_sub b i j : 0 ≤ i - j < 2 ^ 32 → u32 (u32 (b + i) - u32 (b + j)) = i - j.
Proof. intros. rewrite /u32 -Zminus_mod. rewrite (_ : b + i - (b + j) = i - j); [by apply Z.mod_small|lia]. Qed.

Lemma s32_seq_sub b i j : - 2 ^ 31 ≤ i - j < 2 ^ 31 → s32 (u32 (b + i) - u32 (b + j)) = i - j.
Proof.
  intros. rewrite -(s32_small (i - j)) // /s32 /u32. f_equal. rewrite Zplus_mod -Zminus_mod -Zplus_mod. do 2 f_equal. lia.
Qed.

(** A first step that always has the same result *)
Lemma bind_step {S A B} (m : M S A) (k : A → M S B) a (s s' : S) : (∀ Q : A → S → Prop, Q a s' → wp m Q s) → (m ≫= k) s = k a s'.
Proof. intros H. destruct (proj1 (wp_run _ _ _) (H (λ b z, b = a ∧ z = s') (conj eq_refl eq_refl))) as (b&z&E&->&->). by rewrite /mbind /M_bind E. Qed.

(** [wp], but if [ok] holds there may be no result *)
Definition wpx {S A} (ok : Prop) (m : M S A) (Q : A → S → Prop) (s : S) : Prop := match m s with Some (a, s') => Q a s' | None => ok end.

Lemma wpx_of_wp {S A} ok (m : M S A) Q (s : S) : wp m Q s → wpx ok m Q s.
Proof. rewrite /wp /wpx. by destruct (m s) as [[]|]. Qed.

Lemma wpx_bind {S A B} ok (m : M S A) (k : A → M S B) Q (s : S) : wpx ok m (λ a, wpx ok (k a) Q) s → wpx ok (m ≫= k) Q s.
Proof. rewrite /wpx /mbind /M_bind. by destruct (m s) as [[]|]. Qed.

Lemma wpx_step {S A B} ok (m : M S A) (k : A → M S B) Q (s : S) : wp m (λ a, wpx ok (k a) Q) s → wpx ok (m ≫= k) Q s.
Proof. intros H. by apply wpx_bind, wpx_of_wp. Qed.

Lemma wpx_when {S} ok (b : bool) (m : M S unit) Q (s : S) : (b = true → wpx ok m Q s) → (b = false → Q () s) → wpx ok (when b m) Q s.
Proof. destruct b; intros H1 H2; [by apply H1|by apply H2]. Qed.

Lemma wpx_if {S A} ok (b : bool) (m1 m2 : M S A) Q (s : S) : (b = true → wpx ok m1 Q s) → (b = false → wpx ok m2 Q s) → wpx ok (if b then m1 else m2) Q s.
Proof. destruct b; auto. Qed.

Lemma wpx_mono {S A} ok (m : M S A) Q Q' (s : S) : wpx ok m Q s → (∀ a s', Q a s' → Q' a s') → wpx ok m Q' s.
Proof. rewrite /wpx. destruct (m s) as [[]|]; auto. Qed.

Lemma wpx_wp {S A} (m : M S A) Q (s : S) : wpx False m Q s → wp m Q s.
Proof. done. Qed.

(** ** Primitives on the socket of a connection *)

(** [t] with the socket [s], the network and the timers given *)
Definition St (t : tcp) (s : positive) (x : tcp_socket) (n : net) (l : list (net_timer * Z)) : tcp :=
  Tcp n (<[s := x]> (t_socks t)) (t_list t) l (t_now t) (t_seed t).

Lemma St_self t s x : t_socks t !! s = Some x → St t s x (t_net t) (t_timers t) = t.
Proof. intros E. rewrite /St insert_id //. by destruct t. Qed.

Section st.
Context (t : tcp) (s : positive) (x : tcp_socket) (n : net) (l : list (net_timer * Z)).

Lemma wp_get (Q : tcp_socket → tcp → Prop) : Q x (St t s x n l) → wp (get_socket s) Q (St t s x n l).
Proof. intros HQ. eapply wp_deref; [apply lookup_insert_eq|done]. Qed.

Lemma wp_put x' (Q : unit → tcp → Prop) : Q () (St t s x' n l) → wp (put_socket s x') Q (St t s x n l).
Proof. intros HQ. apply wp_modify. by rewrite /St /set_t_socks /= insert_insert_eq. Qed.

Lemma wp_upd f (Q : unit → tcp → Prop) : Q () (St t s (f x) n l) → wp (upd s f) Q (St t s x n l).
Proof. intros HQ. by apply wp_bind, wp_get, wp_put. Qed.

Lemma wp_acquire (Q : unit → tcp → Prop) : s_lock x = false → Q () (St t s (set_s_lock true x) n l) → wp (acquire s) Q (St t s x n l).
Proof. intros Hl HQ. apply wp_bind, wp_get. rewrite Hl. by apply wp_bind, wp_assert, wp_put. Qed.

Lemma wp_release (Q : unit → tcp → Prop) : s_lock x = true → Q () (St t s (set_s_lock false x) n l) → wp (release s) Q (St t s x n l).
Proof. intros Hl HQ. apply wp_bind, wp_get. rewrite Hl. by apply wp_bind, wp_assert, wp_put. Qed.

Lemma wp_held (Q : unit → tcp → Prop) : s_lock x = true → Q () (St t s x n l) → wp (is_mutex_held s) Q (St t s x n l).
Proof. intros Hl HQ. by apply wp_bind, wp_get, wp_assert. Qed.

Lemma wp_inc (Q : unit → tcp → Prop) : 0 < s_ref x → Q () (St t s (set_s_ref (s_ref x + 1) x) n l) → wp (inc_socket_ref s) Q (St t s x n l).
Proof. intros Hr HQ. apply wp_bind, wp_get, wp_bind, wp_put, wp_assert; [lia|done]. Qed.

Lemma wp_dec (Q : bool → tcp → Prop) : s_ref x ≠ 1 → Q false (St t s (set_s_ref (s_ref x - 1) x) n l) → wp (dec_socket_ref s) Q (St t s x n l).
Proof. intros Hr HQ. apply wp_bind, wp_get. rewrite (proj2 (Z.eqb_neq _ _)) //. by apply wp_bind, wp_put, wp_ret. Qed.

Lemma wp_on_net {A} (m : N A) (Q : A → tcp → Prop) : wp m (λ a n', Q a (St t s x n' l)) n → wp (on_net m) Q (St t s x n l).
Proof. intros (a&n'&E&HQ)%wp_run. apply wp_run. exists a, (St t s x n' l). split; [|done]. by rewrite /on_net /= E. Qed.

End st.

(** ** Timers *)

Lemma add_to_queue_perm x a l : add_to_queue x a l ≡ₚ (x, a) :: l.
Proof. induction l as [|e l IH]; [done|]. simpl. case_match; [done|]. rewrite IH. apply perm_swap. Qed.

Lemma in_queue_spec x l : in_queue x l = true ↔ x ∈ l.*1.
Proof.
  rewrite /in_queue existsb_exists. setoid_rewrite bool_decide_eq_true. rewrite list_elem_of_fmap.
  split; intros (e&H1&H2); exists e; [split; [done|by apply list_elem_of_In]|split; [by apply list_elem_of_In|done]].
Qed.

Lemma off_queue_id x l : x ∉ l.*1 → off_queue x l = l.
Proof.
  induction l as [|e l IH]; [done|]. intros [H1 H2]%not_elem_of_cons. rewrite /off_queue filter_cons decide_True //. f_equal. by apply IH.
Qed.

Lemma off_queue_perm x l : NoDup l.*1 → x ∈ l.*1 → ∃ a, l ≡ₚ (x, a) :: off_queue x l.
Proof.
  induction l as [|[y a] l IH]; intros HN Hx; [by apply elem_of_nil in Hx|]. apply NoDup_cons in HN as [Hy HN]. rewrite /off_queue filter_cons /=.
  destruct (decide (y = x)) as [->|Hne]; case_decide as E; try done.
  - exists a. fold (off_queue x l). by rewrite off_queue_id.
  - apply elem_of_cons in Hx as [->|Hx]; [done|]. destruct (IH HN Hx) as [b Hb]. exists b. rewrite {1}Hb. apply perm_swap.
Qed.

(** The timers of a connection: the one for acknowledgements and the one for sending
    again, each at most once *)
Record timers_ok (s : positive) (l : list (net_timer * Z)) : Prop := {
  to_nodup : NoDup l.*1;
  to_mine : Forall (λ e, e.1 = ack_delay_timer s ∨ e.1 = retransmit_timer s) l;
}.

#[export] Instance timers_ok_perm s : Proper ((≡ₚ) ==> iff) (timers_ok s).
Proof.
  intros l l' E. split; intros [H1 H2]; split; [by rewrite -E|by rewrite -E|by rewrite E|by rewrite E].
Qed.

Lemma timers_ok_off s x l : timers_ok s l → timers_ok s (off_queue x l).
Proof.
  intros Hl. destruct (decide (x ∈ l.*1)) as [Hx|Hx]; [|by rewrite off_queue_id].
  destruct (off_queue_perm x l (to_nodup _ _ Hl) Hx) as [a E]. rewrite {1}E in Hl. destruct Hl as [[_ H1]%NoDup_cons [_ H2]%Forall_cons]. by split.
Qed.

Lemma off_queue_notin x l : x ∉ (off_queue x l).*1.
Proof. intros ([y a]&E&H)%list_elem_of_fmap. apply list_elem_of_filter in H as [H _]. by apply H. Qed.

(** How setting and cancelling a timer changes the number of entries *)
Lemma off_queue_length x l : NoDup l.*1 → zlen (off_queue x l) = zlen l - (if in_queue x l then 1 else 0).
Proof.
  intros HN. destruct (in_queue x l) eqn:E.
  - apply in_queue_spec in E. destruct (off_queue_perm x l HN E) as [a Ha]. apply Permutation_length in Ha. simpl in Ha. lia.
  - rewrite off_queue_id; [lia|]. by rewrite -in_queue_spec E.
Qed.

Section timers.
Context (t : tcp) (s : positive) (y : tcp_socket) (n : net) (l : list (net_timer * Z)).

(** The socket holds one reference for each of its timers that is set. *)
Lemma wp_tcp_timer_set x delay (Q : unit → tcp → Prop) : timers_ok s l → 0 < s_ref y → x = ack_delay_timer s ∨ x = retransmit_timer s →
  (∀ r l', timers_ok s l' → r - zlen l' = s_ref y - zlen l → x ∈ l'.*1 →
    l' = add_to_queue x (u32 (t_now t + delay)) (off_queue x l) → Q () (St t s (set_s_ref r y) n l')) →
  wp (tcp_timer_set s x delay) Q (St t s y n l).
Proof.
  intros Hl Hr Hx HQ. apply wp_bind, wp_bind, wp_gets, wp_bind, wp_modify, wp_ret. rewrite /id /=.
  set (l' := add_to_queue _ _ _). assert (l' ≡ₚ (x, u32 (t_now t + delay)) :: off_queue x l) as E by apply add_to_queue_perm.
  assert (timers_ok s l') as Hl'.
  { rewrite E. destruct (timers_ok_off s x l Hl). split; [|by constructor]. apply NoDup_cons. split; [apply off_queue_notin|done]. }
  assert (x ∈ l'.*1) as Hin by (rewrite E; constructor).
  assert (zlen l' = 1 + zlen l - (if in_queue x l then 1 else 0)) as El.
  { apply Permutation_length in E. pose proof (off_queue_length x l (to_nodup _ _ Hl)). simpl in E. lia. }
  change (set_t_timers l' (St t s y n l)) with (St t s y n l').
  apply wp_when; intros Hq; destruct (in_queue x l); simpl in Hq; try done.
  - apply wp_inc; [done|]. apply HQ; (done || lia).
  - replace y with (set_s_ref (s_ref y) y) by by destruct y. apply HQ; (done || lia).
Qed.

Lemma wp_tcp_timer_cancel x (Q : unit → tcp → Prop) : timers_ok s l → 1 + zlen l ≤ s_ref y →
  (∀ r, timers_ok s (off_queue x l) → r - zlen (off_queue x l) = s_ref y - zlen l → Q () (St t s (set_s_ref r y) n (off_queue x l))) →
  wp (tcp_timer_cancel s x) Q (St t s y n l).
Proof.
  intros Hl Hr HQ. apply wp_bind, wp_bind, wp_gets, wp_bind, wp_modify, wp_ret. cbn [t_timers St].
  pose proof (timers_ok_off s x l Hl) as Hl'. pose proof (off_queue_length x l (to_nodup _ _ Hl)) as El.
  change (set_t_timers (off_queue x l) (St t s y n l)) with (St t s y n (off_queue x l)).
  apply wp_when; intros Hq; rewrite Hq in El.
  - apply wp_bind, wp_dec; [lia|]. apply wp_ret, HQ; (done || lia).
  - replace y with (set_s_ref (s_ref y) y) by by destruct y. apply HQ; (done || lia).
Qed.

End timers.

(** ** The ring of a socket *)

Lemma ring_write_repr c q src len : cbuf_repr c q → 0 ≤ len ≤ zlen src → zlen q + len < 2 ^ c_len_pow2 c →
  ∃ c', ring_write c src len = Some c' ∧ cbuf_repr c' (q ++ take (Z.to_nat len) src) ∧ c_len_pow2 c' = c_len_pow2 c.
Proof.
  intros R Hl Hf. destruct (R) as [Hp _ _ _ _ _]. rewrite /ring_write valpow2_spec; [|lia]. rewrite (proj2 (Z.ltb_lt _ _)); [|lia].
  assert (zlen (take (Z.to_nat len) src) = len) as El by (rewrite length_take; lia).
  rewrite (write_loop_chars passes c q); [|done|done|lia|left; rewrite /passes; lia]. rewrite drop_0 /=.
  destruct (put_chars_repr (take (Z.to_nat len) src) c q R) as (c'&->&R'&E&_). eexists. split; [done|]. split; [|done].
  rewrite El Z.min_l in R'; [|lia]. by rewrite take_take Nat.min_id in R'.
Qed.

Lemma ring_read_repr c q buflen : cbuf_repr c q →
  ∃ c', ring_read c buflen = Some (take (Z.to_nat buflen) q, c') ∧ cbuf_repr c' (drop (Z.to_nat buflen) q) ∧ c_len_pow2 c' = c_len_pow2 c.
Proof.
  intros R. rewrite /ring_read. destruct (Z.eqb_spec (c_tail c) (c_head c)) as [E|E]; cbn [negb].
  - apply (cr_empty c q R) in E as ->. exists c. by rewrite take_nil drop_nil.
  - destruct (read_loop_repr passes c q buflen [] R) as (t&->&R'); [left; rewrite /passes; lia|]. rewrite Z.sub_0_r in R' |- *. by eexists.
Qed.

(** ** An established connection *)

(** One end: the socket, the addresses, and the numbers of the first bytes sent and
    received *)
Record conn := Conn { c_s : positive; c_lip : Z; c_rip : Z; c_lport : Z; c_rport : Z; c_iss : Z; c_irs : Z }.

(** The streams at one end: the bytes written, how many of them were acknowledged and
    sent, the bytes read, those that wait in the ring, and the end of the window *)
Record ghost := Ghost { g_wr : list Z; g_acked : Z; g_sent : Z; g_rd : list Z; g_q : list Z; g_high : Z }.

Definition g_got (g : ghost) : Z := zlen (g_rd g) + zlen (g_q g).

Definition set_g_wr (v : list Z) (g : ghost) : ghost := Ghost v (g_acked g) (g_sent g) (g_rd g) (g_q g) (g_high g).
Definition set_g_acked (v : Z) (g : ghost) : ghost := Ghost (g_wr g) v (g_sent g) (g_rd g) (g_q g) (g_high g).
Definition set_g_sent (v : Z) (g : ghost) : ghost := Ghost (g_wr g) (g_acked g) v (g_rd g) (g_q g) (g_high g).
Definition set_g_rd (v w : list Z) (g : ghost) : ghost := Ghost (g_wr g) (g_acked g) (g_sent g) v w (g_high g).
Definition set_g_high (v : Z) (g : ghost) : ghost := Ghost (g_wr g) (g_acked g) (g_sent g) (g_rd g) (g_q g) v.

Record sock_ok (c : conn) (g : ghost) (x : tcp_socket) : Prop := {
  so_state : s_state x = STATE_ESTABLISHED;
  so_lip : local_ip x = c_lip c;
  so_rip : remote_ip x = c_rip c;
  so_lport : local_port x = c_lport c;
  so_rport : remote_port x = c_rport c;
  so_mss : mss x = DEFAULT_MSS;
  so_size : rx_win_size x = DEFAULT_RX_WINDOW_SIZE;
  so_ring : cbuf_repr (rx_buffer x) (g_q g);
  so_pow : c_len_pow2 (rx_buffer x) = 13;
  so_low : rx_win_low x = u32 (c_irs c + g_got g);
  so_high : rx_win_high x = u32 (c_irs c + g_high g);
  so_window : g_got g ≤ g_high g ≤ g_got g + 8191 - zlen (g_q g);
  so_tx_size : tx_buffer_size x = DEFAULT_TX_BUFFER_SIZE;
  so_tx_len : length (tx_buffer x) = Z.to_nat DEFAULT_TX_BUFFER_SIZE;
  so_tx_low : tx_win_low x = u32 (c_iss c + g_acked g);
  so_tx_high : tx_highest_seq x = u32 (c_iss c + g_sent g);
  so_tx_offset : tx_buffer_offset x = zlen (g_wr g) - g_acked g;
  so_tx_fits : zlen (g_wr g) - g_acked g ≤ DEFAULT_TX_BUFFER_SIZE;
  so_tx_data : take (Z.to_nat (zlen (g_wr g) - g_acked g)) (tx_buffer x) = drop (Z.to_nat (g_acked g)) (g_wr g);
  so_tx_order : 0 ≤ g_acked g ≤ g_sent g ∧ g_sent g ≤ zlen (g_wr g);
  so_octets : octets (g_wr g);
}.

(** The segments of a connection carry the bytes written, each under its number, and
    acknowledge what was received. *)
Definition data_segment (c : conn) (i k flags win : Z) (data : list Z) : list Z :=
  tcp_segment (c_lip c) (c_rip c) (c_lport c) (c_rport c) (u32 (c_iss c + i)) (u32 (c_irs c + k)) (flags_of [] flags) win [] data.

Definition data_flags (flags : Z) : Prop := flags = PKT_ACK ∨ flags = Z.lor PKT_ACK PKT_PSH.

(** The segments that opened the connection stay in the network. *)
Definition syn_flags (c : conn) (ack flags : Z) : Prop := flags = PKT_SYN ∨ flags = Z.lor PKT_ACK PKT_SYN ∧ ack = u32 (c_irs c).

Inductive frame_ok (c : conn) (g : ghost) : list Z → Prop :=
  | frame_arp smac dmac body : length smac = 6%nat → length dmac = 6%nat →
      frame_ok c g (minip_build_mac_hdr smac dmac ETH_TYPE_ARP ++ body)
  | frame_syn smac dmac seq ack flags win opts
      (seg := tcp_segment (c_lip c) (c_rip c) (c_lport c) (c_rport c) seq ack (flags_of opts flags) win opts []) :
      length smac = 6%nat → length dmac = 6%nat → octets opts → zlen opts = 4 → syn_flags c ack flags →
      frame_ok c g (minip_build_mac_hdr smac dmac ETH_TYPE_IPV4 ++ minip_build_ipv4_hdr (c_lip c) (c_rip c) IP_PROTO_TCP (zlen seg) ++ seg)
  | frame_data smac dmac i k flags win data (seg := data_segment c i k flags win data) :
      length smac = 6%nat → length dmac = 6%nat → 0 ≤ i → i + zlen data ≤ zlen (g_wr g) → data = slice i (zlen data) (g_wr g) →
      zlen data ≤ DEFAULT_MSS → 0 ≤ k ≤ g_got g → data_flags flags →
      frame_ok c g (minip_build_mac_hdr smac dmac ETH_TYPE_IPV4 ++ minip_build_ipv4_hdr (c_lip c) (c_rip c) IP_PROTO_TCP (zlen seg) ++ seg).

(** What was sent stays right when more is written and received. *)
Lemma frame_ok_mono c g g' f : g_wr g `prefix_of` g_wr g' → g_got g ≤ g_got g' → frame_ok c g f → frame_ok c g' f.
Proof.
  intros [w Ew] Hg []; [by apply frame_arp|by apply frame_syn|]. apply frame_data; try done; rewrite ?Ew ?length_app; [lia| |lia].
  by rewrite slice_app_r; [..|lia|lia].
Qed.

Definition due (now : Z) (l : list (net_timer * Z)) : nat := length (filter (λ e, TIME_GT e.2 now = false) l).

(** The state of an end: [own] references are held beside those of the timers, and at
    most [d] timers are due. *)
Record live (c : conn) (now : Z) (d : nat) (lk : bool) (own : Z) (g : ghost) (k : nat) (x : tcp_socket) (n : net) (l : list (net_timer * Z)) : Prop := {
  lv_lock : s_lock x = lk;
  lv_own : 1 ≤ own;
  lv_ref : s_ref x = own + zlen l;
  lv_sock : sock_ok c g x;
  lv_timers : timers_ok (c_s c) l;
  lv_due : (due now l ≤ d)%nat;
  lv_net : net_ok k n;
  lv_ip : n_ip n = c_lip c;
  lv_frames : Forall (frame_ok c g) (n_sent n);
}.

Lemma due_off now x l : (due now (off_queue x l) ≤ due now l)%nat.
Proof.
  rewrite /due /off_queue. induction l as [|e l IH]; [done|]. rewrite !filter_cons. repeat case_decide; rewrite ?filter_cons; repeat case_decide; simpl; (lia || done).
Qed.

Lemma TIME_GT_later now delay : 0 < delay < 2 ^ 31 → TIME_GT (u32 (now + delay)) now = true.
Proof.
  intros Hd. rewrite /TIME_GT /u32 /s32. apply Z.ltb_lt.
  rewrite -(Zplus_mod_idemp_l (_ - now)) -Zminus_mod_idemp_l Z.mod_mod // Zminus_mod_idemp_l Zplus_mod_idemp_l.
  rewrite (_ : now + delay - now + 2 ^ 31 = delay + 2 ^ 31); [|lia]. rewrite Z.mod_small; lia.
Qed.

Lemma due_add now x a l : TIME_GT a now = true → due now (add_to_queue x a l) = due now l.
Proof. intros Ha. rewrite /due. rewrite add_to_queue_perm filter_cons decide_False //=. by rewrite Ha. Qed.

Lemma live_own c now d lk own g k x n l : live c now d lk own g k x n l → 0 < s_ref x.
Proof. intros []. lia. Qed.

Lemma live_weaken {c now d lk own g k} k' {x n l} : live c now d lk own g k x n l → (k' ≤ k)%nat → live c now d lk own g k' x n l.
Proof. intros [] Hk. split; try done. by eapply net_ok_weaken. Qed.

(** Fields that do not matter to the streams *)
Lemma live_set {c now d lk own g g' k x x' n l} : live c now d lk own g k x n l → sock_ok c g' x' → s_lock x' = s_lock x → s_ref x' = s_ref x →
  g_wr g `prefix_of` g_wr g' → g_got g ≤ g_got g' → live c now d lk own g' k x' n l.
Proof.
  intros [] Hs Hl Hr Hp Hg. split; (done || congruence || idtac). eapply Forall_impl; [done|]. intros f. by apply frame_ok_mono.
Qed.

Lemma live_tx_event {c now d lk own g k x n l} v : live c now d lk own g k x n l → live c now d lk own g k (set_tx_event v x) n l.
Proof. intros Hl. eapply (live_set Hl); try done. destruct Hl as [_ _ _ [] _ _ _ _ _]. by split. Qed.

Lemma live_rx_event {c now d lk own g k x n l} v : live c now d lk own g k x n l → live c now d lk own g k (set_rx_event v x) n l.
Proof. intros Hl. eapply (live_set Hl); try done. destruct Hl as [_ _ _ [] _ _ _ _ _]. by split. Qed.

Lemma live_count {c now d lk own g k x n l} v : live c now d lk own g k x n l → live c now d lk own g k (set_rx_full_mss_count v x) n l.
Proof. intros Hl. eapply (live_set Hl); try done. destruct Hl as [_ _ _ [] _ _ _ _ _]. by split. Qed.

Lemma live_lock {c now d lk own g k x n l} v : live c now d lk own g k x n l → live c now d v own g k (set_s_lock v x) n l.
Proof. intros []. split; try done. by destruct lv_sock0; split. Qed.

Lemma live_ref {c now d lk own g k x n l} v : live c now d lk own g k x n l → 1 ≤ own + v → live c now d lk (own + v) g k (set_s_ref (s_ref x + v) x) n l.
Proof. intros [] Hv. split; try done; [simpl; lia|]. by destruct lv_sock0; split. Qed.

Lemma live_retimed c now d lk own g k x n l r l' : live c now d lk own g k x n l → timers_ok (c_s c) l' → r - zlen l' = s_ref x - zlen l →
  (due now l' ≤ due now l)%nat → live c now d lk own g k (set_s_ref r x) n l'.
Proof. intros [] Ht Hr Hd. split; try done; [simpl; lia|by destruct lv_sock0; split|lia]. Qed.

Lemma requests_frames c g n reqs : length (n_mac n) = 6%nat → requests n reqs → Forall (frame_ok c g) reqs.
Proof.
  intros Hm H%requests_typed. eapply Forall_impl; [exact H|]. intros f (mac&body&Hl&->). by apply frame_arp.
Qed.

Section live.
Context (t : tcp) (c : conn) (d : nat).

#[local] Notation Live := (live c (t_now t) d).
#[local] Notation ST := (St t (c_s c)).

Lemma wp_live_timer_set lk own g k x n l y delay (Q : unit → tcp → Prop) : Live lk own g k x n l →
  y = ack_delay_timer (c_s c) ∨ y = retransmit_timer (c_s c) → 0 < delay < 2 ^ 31 →
  (∀ r l', Live lk own g k (set_s_ref r x) n l' → y ∈ l'.*1 → Q () (ST (set_s_ref r x) n l')) → wp (tcp_timer_set (c_s c) y delay) Q (ST x n l).
Proof.
  intros Hl Hy Hd HQ. apply wp_tcp_timer_set; [apply Hl|by eapply live_own|done|]. intros r l' Ht Hr Hin El. apply HQ; [|done].
  eapply live_retimed; [done..|]. rewrite El due_add; [apply due_off|by apply TIME_GT_later].
Qed.

Lemma wp_live_timer_cancel lk own g k x n l y (Q : unit → tcp → Prop) : Live lk own g k x n l →
  (∀ r l', Live lk own g k (set_s_ref r x) n l' → Q () (ST (set_s_ref r x) n l')) → wp (tcp_timer_cancel (c_s c) y) Q (ST x n l).
Proof.
  intros Hl HQ. apply wp_tcp_timer_cancel; [apply Hl|destruct Hl; lia|]. intros r Ht Hr. apply HQ. eapply live_retimed; [done..|apply due_off].
Qed.

(** The end of a call: the lock and a reference are given back. *)
Lemma wp_leave {A} own g k x n l (m : T A) (Q : A → tcp → Prop) : 1 ≤ own → Live true (own + 1) g k x n l →
  (∀ x', Live false own g k x' n l → wp m Q (ST x' n l)) → wp (release (c_s c);; dec_socket_ref (c_s c);; m) Q (ST x n l).
Proof.
  intros Ho Hl HQ. apply wp_bind, wp_release; [by destruct Hl|]. apply (live_lock false) in Hl. apply wp_bind, wp_dec; [destruct Hl; simpl in *; lia|].
  apply HQ. pose proof (live_ref (-1) Hl) as H. rewrite (_ : own + 1 + -1 = own) in H; [|lia]. by apply H.
Qed.

(** The window that is announced: what the ring has room for *)
Definition announced (g : ghost) : ghost := set_g_high (g_got g + 8191 - zlen (g_q g)) g.

Lemma wp_tcp_socket_send own g k x n l i data flags (Q : Z → tcp → Prop) : Live true own g (4 + k) x n l → data_flags flags →
  0 ≤ i → i + zlen data ≤ zlen (g_wr g) → data = slice i (zlen data) (g_wr g) → zlen data ≤ DEFAULT_MSS →
  (∀ r x' n' l', Live true own (announced g) k x' n' l' →
    rx_event x' = rx_event x → tx_event x' = tx_event x → Q r (ST x' n' l')) →
  wp (tcp_socket_send (c_s c) data flags [] (u32 (c_iss c + i))) Q (ST x n l).
Proof.
  intros Hl Hf Hi Hi' Hd Hm HQ. destruct (Hl) as [Hlk _ _ Hs _ _ _ _ _]. apply wp_bind, wp_held; [done|]. apply wp_bind, wp_assert; [done|].
  apply wp_bind, wp_get. cbv zeta. destruct (Hs). pose proof (cr_fits _ _ so_ring0) as Hq. rewrite so_pow0 in Hq.
  rewrite so_low0 so_high0 so_size0 (cbuf_space_used_repr _ _ so_ring0) /DEFAULT_RX_WINDOW_SIZE.
  rewrite (_ : u32 (c_irs c + g_got g) + 8192 - zlen (g_q g) - 1 = u32 (c_irs c + g_got g) + (8191 - zlen (g_q g))); [|lia].
  rewrite u32_seq Z.add_sub_assoc -/(g_high (announced g)). rewrite /SEQUENCE_GTE s32_seq_sub; [|simpl; lia].
  rewrite (proj2 (Z.leb_le _ _)); [|simpl; lia]. apply wp_bind, wp_upd.
  assert (sock_ok c (announced g) (set_rx_win_high (u32 (c_irs c + g_high (announced g))) x)) as Hs1 by (split; try done; rewrite /announced /g_got /set_g_high; cbn [g_rd g_q g_high]; rewrite /g_got; lia).
  pose proof (live_set Hl Hs1 eq_refl eq_refl ltac:(done) ltac:(done)) as Hl1. set (x1 := set_rx_win_high _ x) in *.
  assert (flag flags PKT_ACK = true) as -> by by destruct Hf as [-> | ->]. apply wp_bind; cbn [when].
  eapply wp_live_timer_cancel; [exact Hl1|]. intros r l' Hl2. apply wp_bind, wp_get, wp_on_net. destruct (Hl2) as [_ _ _ Hs2 _ _ Hn Hip Hfr].
  destruct (Hs2). eapply wp_tcp_send; [exact Hn|done|done|rewrite /DEFAULT_MSS in Hm; lia|]. intros r' n' Hn' Hc Hsent. apply HQ; [|done..].
  destruct Hl2. split; try done; [by rewrite (sc_ip _ _ Hc)|]. rewrite so_lip1 so_rip1 so_lport1 so_rport1 so_low1 in Hsent.
  pose proof (requests_frames c (announced g) n) as Hrf. destruct Hn. destruct Hsent as (reqs&Hr&[[_ (mac&Hmac&->)]|[_ ->]]).
  - constructor; [|apply Forall_app; auto]. rewrite /ip_frame Hip. apply frame_data; (done || unfold g_got; simpl; lia).
  - apply Forall_app; auto.
Qed.

Lemma wp_send_ack own g k x n l (Q : unit → tcp → Prop) : Live true own g (4 + k) x n l →
  (∀ x' n' l', Live true own (announced g) k x' n' l' → rx_event x' = rx_event x → tx_event x' = tx_event x → Q () (ST x' n' l')) →
  wp (send_ack (c_s c)) Q (ST x n l).
Proof.
  intros Hl HQ. destruct (Hl) as [Hlk _ _ [] _ _ _ _ _]. apply wp_bind, wp_held; [done|]. apply wp_bind, wp_get. rewrite so_state0 so_tx_low0.
  apply wp_bind. eapply wp_tcp_socket_send; [done|by left|lia|simpl; lia|by rewrite /slice /=|done|]. intros r x' n' l' Hl' E1 E2. by apply wp_ret, HQ.
Qed.

(** Data that starts where the window does is taken, as far as the window goes. *)
Definition accept (g : ghost) (i : Z) (data : list Z) : ghost :=
  if i =? g_got g then set_g_rd (g_rd g) (g_q g ++ take (Z.to_nat (Z.min (g_high g - g_got g) (zlen data))) data) g else g.

(** Some of the data is new and some is not. *)
Definition overlaps (g : ghost) (i : Z) (data : list Z) : Prop := i < g_got g < i + zlen data.

Lemma wp_handle_data own g k x n l i data (Q : unit → tcp → Prop) : Live true own g (4 + k) x n l →
  0 < zlen data < 2 ^ 30 → - 2 ^ 30 ≤ i - g_got g < 2 ^ 30 → ¬ overlaps g i data →
  (∀ g' x' n' l', Live true own g' k x' n' l' → g' = accept g i data ∨ g' = announced (accept g i data) →
    (i = g_got g → rx_event x' = true) → tx_event x' = tx_event x → Q () (ST x' n' l')) →
  wp (handle_data (c_s c) data (u32 (c_irs c + i))) Q (ST x n l).
Proof.
  intros Hl Hd Hi Hov HQ. destruct (Hl) as [Hlk _ _ Hs _ _ _ _ _]. destruct (Hs). apply wp_bind, wp_held; [done|]. cbv zeta.
  apply wp_bind, wp_assert; [lia|]. apply wp_bind, wp_get. rewrite so_low0.
  rewrite (_ : u32 (c_irs c + i) + zlen data - 1 = u32 (c_irs c + i) + (zlen data - 1)); [|lia]. rewrite u32_seq.
  rewrite /SEQUENCE_LTE /SEQUENCE_GTE !s32_seq_sub; [|lia..]. rewrite /overlaps in Hov.
  destruct (Z.leb_spec (i - g_got g) 0); [destruct (Z.leb_spec 0 (i + (zlen data - 1) - g_got g))|]; cbn [andb]; cycle 1.
  1, 2: assert (accept g i data = g) as Ea by (rewrite /accept (proj2 (Z.eqb_neq _ _)) //; lia);
    eapply wp_send_ack; [done|]; intros x' n' l' Hl' _ Et; eapply HQ; [exact Hl'|right; by rewrite Ea|lia|done].
  assert (i = g_got g) as -> by lia. clear Hi Hov. rewrite so_high0 !u32_seq_sub; [|lia..]. rewrite Z.sub_diag Z.sub_0_r.
  rewrite u64_small; [|lia]. set (len := Z.min _ (zlen data)). apply wp_bind, wp_assert; [lia|].
  destruct (ring_write_repr (rx_buffer x) (g_q g) data len) as (r&Er&Rr&Ep); [done|lia|rewrite so_pow0; lia|].
  rewrite drop_0. apply wp_bind, (wp_deref _ r); [done|]. rewrite u32_seq. apply wp_bind, wp_upd. set (x1 := set_rx_full_mss_count _ _).
  assert (zlen (take (Z.to_nat len) data) = len) as El by (rewrite length_take; lia).
  set (g1 := set_g_rd (g_rd g) (g_q g ++ take (Z.to_nat len) data) g).
  assert (accept g (g_got g) data = g1) as Ea by by rewrite /accept Z.eqb_refl. rewrite Ea in HQ.
  assert (g_got g1 = g_got g + len) as Eg by (rewrite {1}/g_got /= length_app /g_got; lia).
  assert (Live true own g1 (4 + k) x1 n l) as Hl1.
  { eapply (live_set Hl); [|done|done|done|lia]. split; try done; rewrite ?Eg //; [by rewrite /= Ep|]. rewrite /= length_app. lia. }
  assert (rx_event x1 = true ∧ tx_event x1 = tx_event x) as [Ee Et] by done. clearbody x1 g1. apply wp_if; intros _.
  - apply wp_bind. eapply wp_send_ack; [done|]. intros x2 n2 l2 Hl2 E1 E2. apply wp_upd. eapply HQ; [|by right|intros _; simpl; congruence|simpl; congruence].
    by apply live_count.
  - eapply wp_live_timer_set; [by apply (live_weaken k Hl1 ltac:(lia))|by left|done|]. intros r' l' Hl2 _. eapply HQ; [exact Hl2|by left|by intros _|done].
Qed.

(** Data that begins before the window and ends in it fails the assertion of
    [handle_data]. *)
Lemma handle_data_overlap own g k x n l i data : Live true own g k x n l → 0 < zlen data < 2 ^ 30 → - 2 ^ 30 ≤ i - g_got g →
  overlaps g i data → handle_data (c_s c) data (u32 (c_irs c + i)) (ST x n l) = None.
Proof.
  intros [Hlk _ _ [] _ _ _ _ _] Hd Hi Hov. rewrite /overlaps in Hov.
  rewrite /handle_data. rewrite (bind_step _ _ () _ (ST x n l)); [|intros; by apply wp_held]. cbv zeta.
  rewrite (bind_step _ _ () _ (ST x n l)); [|intros; by apply wp_assert; [lia|]]. rewrite (bind_step _ _ x _ (ST x n l)); [|intros; by apply wp_get].
  rewrite so_low0. rewrite (_ : u32 (c_irs c + i) + zlen data - 1 = u32 (c_irs c + i) + (zlen data - 1)); [|lia]. rewrite u32_seq.
  rewrite /SEQUENCE_LTE /SEQUENCE_GTE !s32_seq_sub; [|lia..]. rewrite (proj2 (Z.leb_le _ _)); [|lia]. rewrite (proj2 (Z.leb_le _ _)); [|lia]. cbn [andb].
  assert (u32 (u32 (c_irs c + i) - u32 (c_irs c + g_got g)) = 2 ^ 32 + (i - g_got g)) as ->.
  { rewrite /u32 -Zminus_mod -(Z.mod_add _ 1) // Z.mod_small; lia. }
  by rewrite (proj2 (Z.ltb_ge (2 ^ 32 + (i - g_got g)) (zlen data))); [|lia].
Qed.

(** An acknowledgement of bytes that were sent takes them out of the buffer; any other
    is ignored. *)
Definition acknowledge (g : ghost) (j : Z) : ghost := if (g_acked g <? j) && (j <=? g_sent g) then set_g_acked j g else g.

Lemma wp_handle_ack own g k x n l j win (Q : unit → tcp → Prop) : Live true own g k x n l → - 2 ^ 31 < j - g_acked g < 2 ^ 31 → g_sent g - g_acked g < 2 ^ 30 →
  - 2 ^ 31 < j - g_sent g < 2 ^ 31 →
  (∀ x' l', Live true own (acknowledge g j) k x' n l' → rx_event x' = rx_event x → Q () (ST x' n l')) →
  wp (handle_ack (c_s c) (u32 (c_iss c + j)) win) Q (ST x n l).
Proof.
  intros Hl Hj Hs' Hj' HQ. destruct (Hl) as [Hlk _ _ Hs _ _ _ _ _]. destruct (Hs). apply wp_bind, wp_held; [done|]. apply wp_bind, wp_get.
  rewrite so_tx_low0 so_tx_high0 /SEQUENCE_LTE /SEQUENCE_GT !s32_seq_sub; [|lia..]. rewrite /acknowledge in HQ.
  apply wp_if; intros H1; to_prop; [rewrite (proj2 (Z.ltb_ge _ _)) in HQ; [|lia]; by apply wp_ret, HQ|].
  apply wp_if; intros H2; to_prop; [rewrite (proj2 (Z.leb_gt _ _)) in HQ; [|lia]; rewrite andb_false_r in HQ; by apply wp_ret, HQ|].
  rewrite (proj2 (Z.ltb_lt _ _)) in HQ; [|lia]. rewrite (proj2 (Z.leb_le _ _)) in HQ; [|lia]. cbn [andb] in HQ. cbv zeta.
  rewrite !u32_seq_sub; [|lia..]. rewrite so_tx_size0 so_tx_offset0 u32_seq. rewrite (_ : g_acked g + (j - g_acked g) = j); [|lia].
  unfold DEFAULT_TX_BUFFER_SIZE in *. apply wp_bind, wp_assert; [lia|]. apply wp_bind, wp_assert; [lia|].
  set (rest := drop (Z.to_nat j) (g_wr g)). assert (zlen rest = zlen (g_wr g) - j) as Er by (rewrite length_drop; lia).
  apply wp_bind, (wp_deref _ rest).
  { rewrite copy_out_slice; [|lia]. f_equal. rewrite /slice /rest. rewrite (_ : Z.to_nat j = Z.to_nat (g_acked g) + Z.to_nat (j - g_acked g))%nat; [|lia].
    rewrite -drop_drop -so_tx_data0 skipn_firstn_comm. f_equal. lia. }
  apply wp_bind; eapply wp_deref; [apply copy_in_splice; lia|]. apply wp_bind, wp_upd. set (x1 := set_tx_buffer _ _).
  assert (Live true own (set_g_acked j g) k x1 n l) as Hl1.
  { eapply (live_set Hl); try done. split; try done; simpl; rewrite ?length_splice //; try lia; [rewrite so_tx_offset0 u32_small; lia|rewrite /DEFAULT_TX_BUFFER_SIZE; lia|].
    rewrite -/rest -Er -{1}(drop_0 (splice _ _ _)). apply (slice_splice_same 0 rest); lia. }
  assert (rx_event x1 = rx_event x) as Ee by done. clearbody x1. apply wp_bind. apply wp_if; intros _.
  - eapply wp_live_timer_cancel; [done|]. intros r l' Hl2. by apply wp_upd, HQ; [apply live_tx_event|].
  - eapply wp_live_timer_set; [done|by right|done|]. intros r l' Hl2 _. by apply wp_upd, HQ; [apply live_tx_event|].
Qed.

(** What a segment of the peer does: its acknowledgement, then its data *)
Definition receive (g : ghost) (i j : Z) (data : list Z) : ghost :=
  if 0 <? zlen data then accept (acknowledge g j) i data else acknowledge g j.

Definition data_header (i j flags win : Z) : header :=
  Header (c_rport c) (c_lport c) (u32 (c_irs c + i)) (u32 (c_iss c + j)) (u16 (flags_of [] flags)) (u16 win).

(** The numbers of a segment are within [2 ^ 30] of those of the socket. *)
Record near (g : ghost) (i j : Z) (data : list Z) : Prop := {
  nr_data : zlen data < 2 ^ 30;
  nr_seq : - 2 ^ 30 ≤ i - g_got g < 2 ^ 30;
  nr_ack : - 2 ^ 30 < j - g_acked g < 2 ^ 30;
  nr_sent : - 2 ^ 30 < j - g_sent g < 2 ^ 30;
  nr_out : g_sent g - g_acked g < 2 ^ 30;
}.

Lemma acknowledge_got g j : g_got (acknowledge g j) = g_got g.
Proof. rewrite /acknowledge. by case_match. Qed.

Lemma acknowledge_live own g k x n l j win (Q : unit → tcp → Prop) i data : near g i j data → Live true own g k x n l →
  (∀ x' l', Live true own (acknowledge g j) k x' n l' → rx_event x' = rx_event x → Q () (ST x' n l')) →
  wp (handle_ack (c_s c) (u32 (c_iss c + j)) win) Q (ST x n l).
Proof. intros [] Hl HQ. eapply wp_handle_ack; [done|lia..|done]. Qed.

Lemma wpx_handle_data ok own g k x n l i data (Q : unit → tcp → Prop) : Live true own g (4 + k) x n l →
  0 < zlen data < 2 ^ 30 → - 2 ^ 30 ≤ i - g_got g < 2 ^ 30 → (overlaps g i data → ok) →
  (∀ g' x' n' l', Live true own g' k x' n' l' → g' = accept g i data ∨ g' = announced (accept g i data) → Q () (ST x' n' l')) →
  wpx ok (handle_data (c_s c) data (u32 (c_irs c + i))) Q (ST x n l).
Proof.
  intros Hl Hd Hi Hok HQ. assert (Decision (overlaps g i data)) as [Hov|Hov] by (rewrite /overlaps; apply _).
  - rewrite /wpx. erewrite handle_data_overlap; [by apply Hok|done|done|lia|done].
  - apply wpx_of_wp. eapply wp_handle_data; [done..|]. intros. by eapply HQ.
Qed.

Lemma wpx_input_established ok own g k x n l i j flags win data (Q : unit → tcp → Prop) : Live true own g (4 + k) x n l →
  near g i j data → data_flags flags → (overlaps g i data → ok) →
  (∀ g' x' n' l', Live true own g' k x' n' l' → g' = receive g i j data ∨ g' = announced (receive g i j data) → Q () (ST x' n' l')) →
  wpx ok (input_established (c_s c) (data_header i j flags win) data) Q (ST x n l).
Proof.
  intros Hl Hn Hf Hov HQ. rewrite /input_established. cbv zeta.
  assert (flag (packet_flags (data_header i j flags win)) PKT_ACK = true ∧ flag (packet_flags (data_header i j flags win)) PKT_FIN = false) as [-> ->].
  { rewrite /packet_flags /=. by destruct Hf as [-> | ->]. }
  apply wpx_step. cbn [when ack_num data_header h_win_size]. eapply acknowledge_live; [done..|]. intros x1 l1 Hl1 _.
  apply wpx_bind, wpx_when; intros Hz; rewrite /receive Hz in HQ; to_prop.
  - eapply wpx_handle_data; [exact Hl1|destruct Hn; lia|rewrite acknowledge_got; destruct Hn; lia|by rewrite /overlaps acknowledge_got|].
    intros g' x' n' l' Hl' Hg'. apply wpx_step, wp_get. cbn [andb when]. apply wpx_of_wp, wp_ret. by eapply HQ.
  - apply wpx_step, wp_get. cbn [andb when]. apply wpx_of_wp, wp_ret. eapply HQ; [by apply (live_weaken k Hl1); lia|by left].
Qed.

Lemma wpx_input_switch ok own g k x n l i j flags win data src mem (Q : bool → tcp → Prop) : Live true own g (4 + k) x n l →
  near g i j data → data_flags flags → (overlaps g i data → ok) →
  (∀ g' x' n' l', Live true own g' k x' n' l' → g' = receive g i j data ∨ g' = announced (receive g i j data) → Q false (ST x' n' l')) →
  wpx ok (input_switch (c_s c) (data_header i j flags win) data src mem) Q (ST x n l).
Proof.
  intros Hl Hn Hf Hov HQ. destruct (Hl) as [_ _ _ [Hst] _ _ _ _ _]. apply wpx_step, wp_get. rewrite Hst.
  assert (flag (packet_flags (data_header i j flags win)) PKT_RST = false) as ->.
  { rewrite /packet_flags /=. by destruct Hf as [-> | ->]. }
  apply wpx_bind. eapply wpx_input_established; [done..|]. intros g' x' n' l' Hl' Hg'. apply wpx_of_wp, wp_ret. by eapply HQ.
Qed.

(** ** The search for the socket *)

Definition matches (y : tcp_socket) : bool :=
  negb (bool_decide (s_state y = STATE_CLOSED)) && negb (bool_decide (s_state y = STATE_LISTEN)) &&
  (remote_ip y =? c_rip c) && (local_ip y =? c_lip c) && (remote_port y =? c_rport c) && (local_port y =? c_lport c).

(** The socket is in the list, and no other one there is for the same connection. *)
Definition only_match : Prop :=
  c_s c ∈ t_list t ∧ ∀ s', s' ∈ t_list t → s' ≠ c_s c → ∃ y, t_socks t !! s' = Some y ∧ matches y = false.

Lemma wp_socket_list l z (Q : list (positive * tcp_socket) → tcp → Prop) : (∀ s', s' ∈ l → is_Some (t_socks z !! s')) →
  (∀ r, Forall2 (λ s' e, e.1 = s' ∧ t_socks z !! s' = Some e.2) l r → Q r z) → wp (socket_list l) Q z.
Proof.
  revert Q. induction l as [|s' l IH]; intros Q Hl HQ; [by apply wp_ret, HQ|]. destruct (Hl s') as [y Hy]; [constructor|].
  cbn [socket_list]. apply wp_bind, (wp_deref _ y); [done|]. apply wp_bind, IH; [intros; apply Hl; by constructor|]. intros r Hr. by apply wp_ret, HQ; constructor.
Qed.

Lemma find_unique {A} (f : A → bool) e l : e ∈ l → f e = true → (∀ e', e' ∈ l → f e' = true → e' = e) → List.find f l = Some e.
Proof.
  induction l as [|y l IH]; intros He Hf Hu; [by apply elem_of_nil in He|]. simpl. destruct (f y) eqn:E; [f_equal; apply Hu; [constructor|done]|].
  apply IH; [|done|intros; apply Hu; [by constructor|done]]. apply elem_of_cons in He as [->|He]; [congruence|done].
Qed.

Lemma wp_lookup_socket lk own g k x n l (Q : option positive → tcp → Prop) : only_match → Live lk own g k x n l →
  (∀ x', Live lk (own + 1) g k x' n l → Q (Some (c_s c)) (ST x' n l)) →
  wp (lookup_socket (c_rip c) (c_lip c) (c_rport c) (c_lport c)) Q (ST x n l).
Proof.
  intros [Hin Hu] Hl HQ. apply wp_bind, wp_gets, wp_bind. cbn [t_list St]. apply wp_socket_list.
  { intros s' Hs'. simpl. destruct (decide (s' = c_s c)) as [->|Hne]; [rewrite lookup_insert_eq; by eexists|]. rewrite lookup_insert_ne //.
    destruct (Hu s' Hs' Hne) as (y&Hy&_). by eexists. }
  intros r Hr. cbv zeta. simpl in Hr. destruct (Hl) as [_ _ _ [] _ _ _ _ _].
  rewrite (find_unique _ (c_s c, x)).
  - apply wp_bind, wp_inc; [by eapply live_own|]. apply wp_ret, HQ. by apply (live_ref 1 Hl); destruct Hl; lia.
  - apply list_elem_of_lookup in Hin as [m Hm]. destruct (Forall2_lookup_l _ _ _ _ _ Hr Hm) as ([s' y]&He&Es&Ey). simpl in *. subst s'.
    rewrite lookup_insert_eq in Ey. simplify_eq. by eapply list_elem_of_lookup_2.
  - simpl. rewrite so_state0 so_rip0 so_lip0 so_rport0 so_lport0 !Z.eqb_refl. done.
  - intros [s' y] He Hm. apply list_elem_of_lookup in He as [m He]. destruct (Forall2_lookup_r _ _ _ _ _ Hr He) as (s''&Hs''%list_elem_of_lookup_2&Es&Ey). simpl in *. subst s''.
    destruct (decide (s' = c_s c)) as [->|Hne]; [rewrite lookup_insert_eq in Ey; by simplify_eq|]. rewrite lookup_insert_ne // in Ey.
    destruct (Hu s' Hs'' Hne) as (y'&Hy'&Hf). assert (y' = y) as -> by congruence. rewrite /matches in Hf. congruence.
Qed.

(** ** A segment from the peer *)

Definition peer_segment (i j flags win : Z) (data : list Z) : list Z :=
  tcp_segment (c_rip c) (c_lip c) (c_rport c) (c_lport c) (u32 (c_irs c + i)) (u32 (c_iss c + j)) (flags_of [] flags) win [] data.

Lemma length_swapped_header l : 20 ≤ zlen l → length (swapped_header l) = 20%nat.
Proof.
  intros Hl. rewrite /swapped_header. cbv zeta. assert (length (slice 16 2 l) = 2%nat) as E by (apply (inj Z.of_nat), length_slice; lia).
  generalize dependent (slice 16 2 l). intros w E. by rewrite !length_app !length_le E.
Qed.

(** The header in the packet is overwritten, the data behind it is not. *)
Lemma swapped_data p hl : pkt_ok p → 20 ≤ hl ≤ p_dlen p →
  ∃ p', pktbuf_store (p_data p) (swapped_header (contents p)) p = Some p' ∧ contents (pktbuf_consume p' hl).2 = drop (Z.to_nat hl) (contents p).
Proof.
  intros Hp Hd. pose proof (length_contents p Hp) as El. pose proof (length_swapped_header (contents p) ltac:(lia)) as Es.
  set (w := swapped_header (contents p)) in *. clearbody w. destruct (pktbuf_store_ok p (p_data p) w Hp) as [E Hp']; [by destruct Hp|destruct Hp; lia|].
  eexists. split; [exact E|]. destruct (pktbuf_consume_ok _ hl Hp') as (p''&->&_&Ec&_); [simpl; lia|]. simpl. rewrite Ec.
  rewrite -{1}(Z.add_0_r (p_data p)) contents_store; [|done|lia|lia]. rewrite -{1}(take_drop 20 (contents p)).
  rewrite (splice_mid [] (take 20 (contents p))); [|rewrite length_take; lia]. rewrite app_nil_l drop_app_ge; [|lia]. rewrite drop_drop. f_equal. lia.
Qed.

Definition ports_ok : Prop := 0 ≤ c_lport c < 2 ^ 16 ∧ 0 ≤ c_rport c < 2 ^ 16.

(** A segment with the addresses of the connection and the right checksum gets to the
    [switch] with the socket locked. *)
Lemma wpx_tcp_input ok own g k k' x n l p seq ack flags win opts data mem (P : ghost → Prop) (Q : unit → tcp → Prop) :
  only_match → ports_ok → Live false own g k x n l → pkt_ok p →
  contents p = tcp_segment (c_rip c) (c_lip c) (c_rport c) (c_lport c) seq ack (flags_of opts flags) win opts data → octets opts → octets data →
  Z.land (Z.shiftr (u16 (flags_of opts flags)) 12) 15 * 4 = 20 + zlen opts →
  (∀ x1, Live true (own + 1) g k x1 n l →
    wpx ok (input_switch (c_s c) (Header (c_rport c) (c_lport c) (u32 seq) (u32 ack) (u16 (flags_of opts flags)) (u16 win)) data (c_rip c) mem)
      (λ r z, r = false ∧ ∃ g' x' n' l', z = ST x' n' l' ∧ Live true (own + 1) g' k' x' n' l' ∧ P g') (ST x1 n l)) →
  (∀ g' x' n' l', Live false own g' k' x' n' l' → P g' → Q () (ST x' n' l')) →
  wpx ok (tcp_input p (c_rip c) (c_lip c) mem) Q (ST x n l).
Proof.
  intros Hm [Hlp Hrp] Hl Hp Ec Hop Ho Hh Hsw HQ. pose proof (length_contents p Hp) as El.
  assert (zlen (contents p) = 20 + zlen opts + zlen data) as Es by (rewrite Ec length_tcp_segment; lia).
  rewrite /tcp_input. cbv zeta. rewrite -El Ec parse_tcp_segment -Ec. cbn [length_flags source_port dest_port]. rewrite Hh.
  rewrite (proj2 (Z.ltb_ge _ SIZEOF_TCP)); [|rewrite /SIZEOF_TCP; lia]. rewrite (proj2 (Z.ltb_ge _ (20 + zlen opts))); [|lia].
  assert (cksum_pheader (tcp_pseudo_header (c_rip c) (c_lip c) (zlen (contents p))) (contents p) = 0) as ->.
  { rewrite Ec. exact (tcp_segment_cksum (c_rip c) (c_lip c) _ _ _ _ _ _ opts data Hop Ho). }
  rewrite Z.eqb_refl andb_false_r. destruct (swapped_data p (20 + zlen opts) Hp ltac:(lia)) as (p'&Ep&Ed).
  apply wpx_step, wp_on_net, (wp_lift_opt _ p'); [done|]. rewrite (u16_small (c_rport c)) // (u16_small (c_lport c)) //.
  apply wpx_step. eapply wp_lookup_socket; [done..|]. intros x1 Hl1.
  apply wpx_step, wp_acquire; [by destruct Hl1|]. apply (live_lock true) in Hl1. rewrite Ed.
  assert (drop (Z.to_nat (20 + zlen opts)) (contents p) = data) as ->.
  { rewrite Ec /tcp_segment /tcp_body app_assoc. apply drop_app_length'. rewrite length_app length_tcp_header. lia. }
  apply wpx_bind. eapply wpx_mono; [by apply Hsw|]. intros r z (->&g'&x'&n'&l'&->&Hl'&Hg').
  apply wpx_of_wp. eapply wp_leave; [by destruct Hl|done|]. intros x2 Hl2. apply wp_ret. by eapply HQ.
Qed.

(** Segments of the connection: data and acknowledgements *)
Lemma wpx_data_input ok own g k x n l p i j flags win data mem (Q : unit → tcp → Prop) : only_match → ports_ok → Live false own g (4 + k) x n l →
  pkt_ok p → contents p = peer_segment i j flags win data → octets data → near g i j data → data_flags flags → (overlaps g i data → ok) →
  (∀ g' x' n' l', Live false own g' k x' n' l' → g' = receive g i j data ∨ g' = announced (receive g i j data) → Q () (ST x' n' l')) →
  wpx ok (tcp_input p (c_rip c) (c_lip c) mem) Q (ST x n l).
Proof.
  intros Hm Hports Hl Hp Ec Ho Hn Hf Hov HQ. apply (wpx_tcp_input ok own g (4 + k) k x n l p _ _ flags win [] data mem
    (λ g', g' = receive g i j data ∨ g' = announced (receive g i j data)) Q Hm Hports Hl Hp Ec (Forall_nil_2 _) Ho); [by destruct Hf as [-> | ->]| |exact HQ].
  intros x1 Hl1. rewrite -!/(u32 (u32 _)) /u32 !Z.mod_mod // -!/(u32 _). eapply (wpx_input_switch ok (own + 1) g k x1 n l i j flags win data); [done..|].
  intros g' x' n' l' Hl' Hg'. split; [done|]. by exists g', x', n', l'.
Qed.

(** Duplicates of the segments that opened the connection change nothing. *)
Lemma wpx_syn_input ok own g k x n l p seq ack flags win opts mem (Q : unit → tcp → Prop) : only_match → ports_ok → Live false own g k x n l →
  pkt_ok p → contents p = tcp_segment (c_rip c) (c_lip c) (c_rport c) (c_lport c) seq ack (flags_of opts flags) win opts [] → octets opts → zlen opts = 4 →
  flags = PKT_SYN ∨ flags = Z.lor PKT_ACK PKT_SYN ∧ ack = u32 (c_iss c) → near g 0 0 [] →
  (∀ x' n' l', Live false own g k x' n' l' → Q () (ST x' n' l')) →
  wpx ok (tcp_input p (c_rip c) (c_lip c) mem) Q (ST x n l).
Proof.
  intros Hm Hports Hl Hp Ec Hop Eo Hf Hn HQ. apply (wpx_tcp_input ok own g k k x n l p seq ack flags win opts [] mem
    (λ g', g' = g) Q Hm Hports Hl Hp Ec Hop (Forall_nil_2 _)); rewrite ?/flags_of ?Eo; [by destruct Hf as [-> | [-> _]]| |intros g' x' n' l' Hl' ->; by apply HQ].
  intros x1 Hl1. destruct (Hl1) as [_ _ _ [Hst] _ _ _ _ _]. apply wpx_step, wp_get. rewrite Hst.
  assert (acknowledge g 0 = g) as Ea.
  { rewrite /acknowledge (proj2 (Z.ltb_ge _ _)) //. destruct Hl1 as [_ _ _ [] _ _ _ _ _]. lia. }
  destruct Hf as [-> | [-> ->]]; (apply wpx_of_wp, wp_bind, wp_bind).
  - apply wp_ret, wp_bind, wp_ret, wp_bind, wp_get, wp_ret, wp_ret. split; [done|]. by eexists _, _, _, _.
  - match goal with |- wp (when ?b _) _ _ => replace b with true by reflexivity end.
    cbn [when ack_num h_win_size]. rewrite (_ : u32 (u32 (c_iss c)) = u32 (c_iss c + 0)); [|rewrite Z.add_0_r; by apply Z.mod_mod].
    apply (acknowledge_live (own + 1) g k x1 n l 0 _ _ 0 [] Hn Hl1). intros x' l' Hl' _. rewrite Ea in Hl'.
    apply wp_bind, wp_ret, wp_bind, wp_get, wp_ret, wp_ret. split; [done|]. by eexists _, _, _, _.
Qed.

(** ** Writing *)

(** The bytes behind those acknowledged are in the buffer. *)
Lemma tx_slice g x o len : sock_ok c g x → 0 ≤ o → 0 ≤ len → o + len ≤ zlen (g_wr g) - g_acked g →
  copy_out o len (tx_buffer x) = Some (slice (g_acked g + o) len (g_wr g)).
Proof.
  intros [] Ho Hl Hb. unfold DEFAULT_TX_BUFFER_SIZE in *. rewrite copy_out_slice; [|lia]. f_equal. rewrite /slice.
  rewrite (_ : Z.to_nat (g_acked g + o) = Z.to_nat (g_acked g) + Z.to_nat o)%nat; [|lia]. rewrite -drop_drop -so_tx_data0.
  rewrite skipn_firstn_comm take_take. f_equal. lia.
Qed.

Definition all_sent (h : Z) (g : ghost) : ghost := set_g_high h (set_g_sent (zlen (g_wr g)) g).

Lemma all_sent_id g : g_sent g = zlen (g_wr g) → all_sent (g_high g) g = g.
Proof. destruct g. rewrite /all_sent /set_g_high /set_g_sent /=. by intros ->. Qed.

Lemma live_sent {own g k x n l} v : Live true own g k x n l → 0 ≤ v → g_sent g + v ≤ zlen (g_wr g) →
  Live true own (set_g_sent (g_sent g + v) g) k (set_tx_highest_seq (u32 (tx_highest_seq x + v)) x) n l.
Proof.
  intros Hl Hv Hb. eapply (live_set Hl); try done. destruct Hl as [_ _ _ [] _ _ _ _ _]. split; try done; simpl; [|lia]. by rewrite so_tx_high0 u32_seq.
Qed.

Lemma wp_send_pending m fuel own g k x n l out pending f (Q : Z → tcp → Prop) : Live true own g (4 * m + k) x n l →
  0 ≤ f ≤ pending → pending - f ≤ DEFAULT_MSS * Z.of_nat m → pending - f ≤ Z.of_nat fuel → pending < 2 ^ 31 → 0 ≤ out →
  g_sent g = g_acked g + out + f → g_acked g + out + pending = zlen (g_wr g) →
  (∀ h x' n' l', Live true own (all_sent h g) k x' n' l' → Q pending (ST x' n' l')) →
  wp (send_pending fuel (c_s c) out pending f) Q (ST x n l).
Proof.
  unfold DEFAULT_MSS. revert fuel g x n l f. induction m as [|m IH]; intros fuel g x n l f Hl Hf Hm Hfu Hp Ho Hs Hw HQ; destruct fuel as [|fuel]; cbn [send_pending].
  all: destruct (Z.ltb_spec f pending) as [Hlt|Hge]; [try lia|].
  all: try (assert (f = pending) as -> by lia; apply wp_ret, (HQ (g_high g)); rewrite all_sent_id; [apply (live_weaken k Hl)|]; lia).
  destruct (Hl) as [_ _ _ Hsk _ _ _ _ _]. destruct (Hsk). apply wp_bind, wp_get. cbv zeta. rewrite so_mss0 (u32_small (pending - f)); [|lia].
  set (len := Z.min _ _). assert (0 < len ≤ 1460 ∧ len ≤ pending - f ∧ (len = 1460 ∨ len = pending - f)) as Hlen by (rewrite /len /DEFAULT_MSS; lia). clearbody len.
  apply wp_bind; eapply wp_deref; [apply (tx_slice g x); [done|lia..]|]. rewrite (_ : g_acked g + (out + f) = g_sent g); [|lia]. rewrite so_tx_high0.
  assert (zlen (slice (g_sent g) len (g_wr g)) = len) as El by (apply length_slice; lia).
  rewrite (_ : (4 * S m + k)%nat = (4 + (4 * m + k))%nat) in Hl; [|lia].
  apply wp_bind. eapply wp_tcp_socket_send; [exact Hl|by right|lia|lia|by rewrite El|rewrite /DEFAULT_MSS; lia|].
  intros r x1 n1 l1 Hl1 _ _. apply wp_bind, wp_upd. rewrite (u32_small (f + len)); [|lia]. eapply (live_sent len) in Hl1; [|lia|simpl; lia].
  eapply IH; [exact Hl1|simpl; lia..|]. intros h x' n' l' Hl'. apply (HQ h). by destruct g.
Qed.

Lemma wp_tcp_write_pending_data own g k x n l (Q : Z → tcp → Prop) : Live true own g (24 + k) x n l → zlen (g_wr g) < 2 ^ 31 →
  (∀ r h x' n' l', Live true own (all_sent h g) k x' n' l' → Q r (ST x' n' l')) →
  wp (tcp_write_pending_data (c_s c)) Q (ST x n l).
Proof.
  intros Hl Hw HQ. destruct (Hl) as [Hlk _ _ Hsk _ _ _ _ _]. destruct (Hsk). unfold DEFAULT_TX_BUFFER_SIZE in *.
  apply wp_bind, wp_held; [done|]. apply wp_bind, wp_get. rewrite so_tx_size0 so_tx_offset0 so_tx_high0 so_tx_low0.
  apply wp_bind, wp_assert; [done|]. apply wp_bind, wp_assert; [lia|]. cbv zeta. rewrite u32_seq_sub; [|lia]. rewrite u32_small; [|lia].
  apply wp_bind. eapply (wp_send_pending 6); [exact Hl|unfold DEFAULT_MSS; lia..|]. intros h x' n' l' Hl'.
  apply wp_bind, wp_when; intros _; [|by apply wp_ret, (HQ _ h)]. eapply wp_live_timer_set; [done|by right|done|]. intros r' l2 Hl2 _. by apply wp_ret, (HQ _ h).
Qed.

(** Bytes are put behind those in the buffer. *)
Lemma live_append {own g k x n l} bytes : Live true own g k x n l → octets bytes → bytes ≠ [] → zlen (g_wr g) - g_acked g + zlen bytes ≤ DEFAULT_TX_BUFFER_SIZE →
  Live true own (set_g_wr (g_wr g ++ bytes) g) k
    (set_tx_buffer_offset (u32 (tx_buffer_offset x + zlen bytes)) (set_tx_buffer (splice (tx_buffer_offset x) bytes (tx_buffer x)) x)) n l.
Proof.
  intros Hl Hb Hne Hf. eapply (live_set Hl); [|done..|by eexists|done]. destruct Hl as [_ _ _ [] _ _ _ _ _].
  unfold DEFAULT_TX_BUFFER_SIZE in *. set (o := zlen (g_wr g) - g_acked g) in *.
  split; try done; cbn [g_wr set_g_wr g_acked g_sent tx_buffer set_tx_buffer set_tx_buffer_offset tx_buffer_offset]; rewrite ?length_app ?length_splice //; unfold DEFAULT_TX_BUFFER_SIZE; try lia.
  - rewrite so_tx_offset0 u32_small; lia.
  - rewrite drop_app_le; [|lia]. rewrite -so_tx_data0 so_tx_offset0.
    rewrite (_ : Z.of_nat (length (g_wr g) + length bytes) - g_acked g = o + zlen bytes); [|lia].
    pose proof (slice_app 0 o (zlen bytes) (splice o bytes (tx_buffer x))) as E. rewrite length_splice in E. rewrite {1}/slice drop_0 in E.
    rewrite E; [|lia..]. rewrite slice_splice_other; [|lia..]. by rewrite /= slice_splice_same; [|lia..].
  - apply Forall_app. done.
Qed.

(** A round of [tcp_write]: what fits is taken and all of it sent. *)
Lemma wp_tcp_write_resume own g k x n l buf off (Q : Z + Z → tcp → Prop) : Live false own g (24 + k) x n l → octets buf → 0 ≤ off ≤ zlen buf →
  zlen (g_wr g) + zlen buf < 2 ^ 31 →
  (∀ off' g' x' n' l', Live false own g' k x' n' l' → off ≤ off' ≤ zlen buf → g_wr g' = g_wr g ++ slice off (off' - off) buf →
    g_acked g' = g_acked g → g_sent g' = (if off =? off' then g_sent g else zlen (g_wr g')) → g_rd g' = g_rd g → g_q g' = g_q g →
    (off < zlen buf → zlen (g_wr g) - g_acked g < DEFAULT_TX_BUFFER_SIZE → off < off') → Q (inl off') (ST x' n' l')) →
  wp (tcp_write_resume (c_s c) buf off) Q (ST x n l).
Proof.
  intros Hl Ho Hoff Hw HQ. apply wp_bind, wp_acquire; [by destruct Hl|]. apply (live_lock true) in Hl. set (x0 := set_s_lock true x) in *. clearbody x0. clear x.
  apply wp_bind, wp_get. destruct (Hl) as [_ _ _ Hsk _ _ _ _ _]. destruct (Hsk). rewrite so_state0 so_tx_size0. rewrite (bool_decide_eq_true_2 (STATE_ESTABLISHED = STATE_ESTABLISHED)) //; cbn [negb andb].
  unfold DEFAULT_TX_BUFFER_SIZE in *. apply wp_bind, wp_assert; [done|]. apply wp_bind, wp_assert; [lia|]. cbv zeta. set (len := Z.min _ _).
  assert (0 ≤ len ∧ len ≤ zlen buf - off ∧ zlen (g_wr g) - g_acked g + len ≤ 8192 ∧
    (off < zlen buf → zlen (g_wr g) - g_acked g < 8192 → 0 < len)) as Hlen by (rewrite /len so_tx_offset0; lia). clearbody len.
  apply wp_if; intros E; to_prop.
  { apply wp_bind, wp_release; [by destruct Hl|]. apply (live_lock false) in Hl. apply wp_ret. eapply (HQ off g); try done; [by apply (live_weaken k Hl); lia|lia|..].
    - by rewrite Z.sub_diag /slice take_0 app_nil_r.
    - by rewrite Z.eqb_refl.
    - lia. }
  set (bytes := slice off len buf). assert (zlen bytes = len) as Eb by (apply length_slice; lia).
  assert (octets bytes) as Hob by (rewrite /bytes /slice; by apply Forall_take, Forall_drop).
  apply wp_bind; eapply wp_deref; [apply copy_in_splice; lia|]. rewrite -Eb. apply wp_bind, wp_upd.
  apply (live_append bytes) in Hl; [|done|intros E0; rewrite E0 /= in Eb; lia|unfold DEFAULT_TX_BUFFER_SIZE; lia].
  set (x1 := set_tx_buffer_offset _ _) in *. clearbody x1. apply wp_bind, wp_assert; [rewrite so_tx_offset0 u32_small; lia|].
  assert (∀ x2, Live true own (set_g_wr (g_wr g ++ bytes) g) (24 + k) x2 n l →
    wp (tcp_write_pending_data (c_s c);; release (c_s c);; mret (inl (off + zlen bytes))) Q (ST x2 n l)) as Hrest.
  { intros x2 Hl2. apply wp_bind. eapply wp_tcp_write_pending_data; [exact Hl2|simpl; rewrite length_app; lia|]. intros r h x3 n3 l3 Hl3.
    apply wp_bind, wp_release; [by destruct Hl3|]. apply (live_lock false) in Hl3. apply wp_ret. eapply HQ; [exact Hl3|lia|..]; try done.
    - rewrite (_ : off + zlen bytes - off = len) //. lia.
    - rewrite (proj2 (Z.eqb_neq _ _)) //. lia.
    - lia. }
  apply wp_bind, wp_when; intros _; [|by apply Hrest]. apply wp_upd, Hrest. by apply live_tx_event.
Qed.

(** ** Timeouts *)

(** The oldest bytes that were not acknowledged are sent again. *)
Lemma wp_tcp_retransmit own g k x n l (Q : Z → tcp → Prop) : Live true own g (4 + k) x n l → zlen (g_wr g) < 2 ^ 31 →
  (∀ r g' x' n' l', Live true own g' k x' n' l' → g' = g ∨ g' = announced g → r = Z.min DEFAULT_MSS (g_sent g - g_acked g) → Q r (ST x' n' l')) →
  wp (tcp_retransmit (c_s c)) Q (ST x n l).
Proof.
  intros Hl Hw HQ. destruct (Hl) as [Hlk _ _ Hsk _ _ _ _ _]. destruct (Hsk). apply wp_bind, wp_held; [done|]. apply wp_bind, wp_get.
  rewrite so_state0 so_tx_high0 so_tx_low0 so_mss0. rewrite (bool_decide_eq_true_2 (STATE_ESTABLISHED = STATE_ESTABLISHED)) //; cbn [negb andb]. cbv zeta. rewrite u32_seq_sub; [|lia].
  apply wp_if; intros E; to_prop; [apply wp_ret; eapply HQ; [by apply (live_weaken k Hl); lia|by left|unfold DEFAULT_MSS; lia]|].
  set (len := Z.min _ _). assert (0 < len ≤ DEFAULT_MSS ∧ len ≤ g_sent g - g_acked g) as Hlen by (rewrite /len /DEFAULT_MSS; lia).
  apply wp_bind; eapply wp_deref; [apply (tx_slice g x); [done|lia..]|]. rewrite Z.add_0_r.
  assert (zlen (slice (g_acked g) len (g_wr g)) = len) as El by (apply length_slice; lia).
  apply wp_bind. eapply wp_tcp_socket_send; [exact Hl|by right|lia|lia|by rewrite El|lia|]. intros r x1 n1 l1 Hl1 _ _. apply wp_ret. by eapply HQ; [|right|].
Qed.

(** The reference of the timer that fires is given back in the end. *)
Lemma wp_handle_retransmit_timeout own g k x n l (Q : unit → tcp → Prop) : 1 ≤ own → Live false (own + 1) g (4 + k) x n l → zlen (g_wr g) < 2 ^ 31 →
  (∀ g' x' n' l', Live false own g' k x' n' l' → g' = g ∨ g' = announced g → Q () (ST x' n' l')) →
  wp (handle_retransmit_timeout (c_s c)) Q (ST x n l).
Proof.
  intros Ho Hl Hw HQ. apply wp_bind, wp_acquire; [by destruct Hl|]. apply (live_lock true) in Hl. apply wp_bind. eapply wp_tcp_retransmit; [done..|].
  intros r g' x1 n1 l1 Hl1 Hg _. apply wp_bind. assert (∀ x2 l2, Live true (own + 1) g' k x2 n1 l2 →
    wp (release (c_s c);; dec_socket_ref (c_s c);; mret ()) Q (ST x2 n1 l2)) as Hrest.
  { intros x2 l2 Hl2. eapply wp_leave; [done..|]. intros x3 Hl3. apply wp_ret. by eapply HQ. }
  apply wp_when; intros _; [|by apply Hrest]. eapply wp_live_timer_set; [done|by right|done|]. intros r' l' Hl2 _. by apply Hrest.
Qed.

Lemma wp_handle_delayed_ack_timeout own g k x n l (Q : unit → tcp → Prop) : 1 ≤ own → Live false (own + 1) g (4 + k) x n l →
  (∀ g' x' n' l', Live false own g' k x' n' l' → g' = g ∨ g' = announced g → Q () (ST x' n' l')) →
  wp (handle_delayed_ack_timeout (c_s c)) Q (ST x n l).
Proof.
  intros Ho Hl HQ. apply wp_bind, wp_acquire; [by destruct Hl|]. apply (live_lock true) in Hl. apply wp_bind. eapply wp_send_ack; [done..|].
  intros x1 n1 l1 Hl1 _ _. eapply wp_leave; [done..|]. intros x2 Hl2. apply wp_ret. by eapply HQ, or_intror.
Qed.

(** ** Reading *)

(** Bytes from the ring, or nothing and the call waits again *)
Lemma wp_tcp_read_resume own g k x n l len (Q : option (list Z + Z) → tcp → Prop) : 1 ≤ own → Live false (own + 1) g (4 + k) x n l →
  (∀ x' n' l', take (Z.to_nat len) (g_q g) = [] → Live false (own + 1) g k x' n' l' → rx_event x' = false → Q None (ST x' n' l')) →
  (∀ g1 g' x' n' l' (bytes := take (Z.to_nat len) (g_q g)), bytes ≠ [] → g1 = set_g_rd (g_rd g ++ bytes) (drop (Z.to_nat len) (g_q g)) g →
    Live false own g' k x' n' l' → g' = g1 ∨ g' = announced g1 → Q (Some (inl bytes)) (ST x' n' l')) →
  wp (tcp_read_resume (c_s c) len) Q (ST x n l).
Proof.
  intros Ho Hl HQ1 HQ2. apply wp_bind, wp_acquire; [by destruct Hl|]. apply (live_lock true) in Hl. set (x0 := set_s_lock true x) in *. clearbody x0. clear x.
  apply wp_bind, wp_get. destruct (Hl) as [_ _ _ Hsk _ _ _ _ _]. destruct (Hsk). destruct (ring_read_repr (rx_buffer x0) (g_q g) len so_ring0) as (r&Er&Rr&Ep).
  apply wp_bind; eapply wp_deref; [exact Er|]. cbn beta iota. apply wp_bind, wp_upd. set (x1 := set_rx_buffer r x0).
  set (bytes := take _ (g_q g)) in *. set (rest := drop _ (g_q g)) in *. assert (bytes ++ rest = g_q g) as Eq by apply take_drop.
  set (g1 := set_g_rd (g_rd g ++ bytes) rest g) in *. assert (g_got g1 = g_got g) as Eg by (rewrite /g_got -Eq /= !length_app; lia).
  assert (Live true (own + 1) g1 (4 + k) x1 n l) as Hl1.
  { eapply (live_set Hl); [|done|done|done|lia]. rewrite -Eq length_app in so_window0. split; try done; rewrite ?Eg //; [by rewrite /= Ep|]. cbn [g_high g1 set_g_rd g_q]. lia. }
  rewrite so_state0. rewrite (bool_decide_eq_true_2 (STATE_ESTABLISHED = STATE_ESTABLISHED)) //; cbn [negb andb]. apply wp_if; intros Ez; to_prop.
  - assert (bytes = []) as Eb by (destruct bytes; [done|simpl in Ez; lia]). assert (g1 = g) as Eg1.
    { rewrite /g1. rewrite Eb app_nil_l in Eq. rewrite Eb Eq app_nil_r. by destruct g. }
    rewrite Eg1 in Hl1. clearbody x1. apply wp_bind, wp_upd. apply (live_rx_event false) in Hl1. apply wp_bind, wp_release; [by destruct Hl1|].
    apply wp_ret, HQ1; [done| |done]. apply (live_lock false) in Hl1. by apply (live_weaken k Hl1); lia.
  - assert (∀ g' x2 n2 l2, Live true (own + 1) g' k x2 n2 l2 → g' = g1 ∨ g' = announced g1 →
      wp (release (c_s c);; dec_socket_ref (c_s c);; mret (Some (inl bytes))) Q (ST x2 n2 l2)) as Hrest.
    { intros g' x2 n2 l2 Hl2 Hg'. eapply wp_leave; [done..|]. intros x3 Hl3. apply wp_ret. eapply HQ2; [by intros E; rewrite E in Ez|done|done|exact Hg']. }
    assert (∀ x2, Live true (own + 1) g1 (4 + k) x2 n l → ∀ b,
      wp (when b (send_ack (c_s c));; release (c_s c);; dec_socket_ref (c_s c);; mret (Some (inl bytes))) Q (ST x2 n l)) as Hack.
    { intros x2 Hl2 b. apply wp_bind, wp_when; intros _; [|eapply Hrest; [by apply (live_weaken k Hl2); lia|by left]].
      eapply wp_send_ack; [exact Hl2|]. intros x3 n3 l3 Hl3 _ _. by eapply Hrest, or_intror. }
    clearbody x1 g1. apply wp_bind. apply wp_when; intros _; [|by apply Hack]. apply wp_upd, Hack. by apply live_rx_event.
Qed.

End live.

(** ** The timer thread *)

Lemma live_pop c now d own g k x n y a l : live c now d false own g k x n ((y, a) :: l) → TIME_GT a now = false →
  ∃ d', d = S d' ∧ live c now d' false (own + 1) g k x n l ∧ (y = ack_delay_timer (c_s c) ∨ y = retransmit_timer (c_s c)).
Proof.
  intros [] Ha. destruct lv_timers0 as [[_ H1]%NoDup_cons [H2 H3]%Forall_cons]. unfold due in lv_due0. rewrite filter_cons decide_True // in lv_due0. simpl in *.
  destruct d as [|d']; [lia|]. exists d'. split; [done|]. split; [|done]. split; try done; [lia|lia|rewrite /due; lia].
Qed.

(** The streams are the same, the window that was announced may be another. *)
Definition same_streams (g g' : ghost) : Prop := g' = set_g_high (g_high g') g.

Lemma same_streams_refl g : same_streams g g.
Proof. by destruct g. Qed.

Lemma same_streams_announced g : same_streams g (announced g).
Proof. done. Qed.

Lemma same_streams_trans g g1 g2 : same_streams g g1 → same_streams g1 g2 → same_streams g g2.
Proof. rewrite /same_streams. intros -> ->. done. Qed.

#[export] Hint Resolve same_streams_refl same_streams_announced : mk.

(** All timers that are due fire, one after the other; a timer that is set meanwhile is
    not due. *)
Lemma wp_net_timer_work_routine t c d fuel own g k x n l (Q : option Z → tcp → Prop) : (d < fuel)%nat →
  live c (t_now t) d false own g (4 * d + k) x n l → zlen (g_wr g) < 2 ^ 31 →
  (∀ r g' x' n' l', live c (t_now t) d false own g' k x' n' l' → same_streams g g' → Q r (St t (c_s c) x' n' l')) →
  wp (net_timer_work_routine fuel) Q (St t (c_s c) x n l).
Proof.
  revert fuel g x n l. induction d as [d IH] using lt_wf_ind. intros fuel g x n l Hfu Hl Hw HQ. destruct fuel as [|fuel]; [lia|].
  cbn [net_timer_work_routine]. apply wp_bind, wp_gets. cbn [id t_timers St t_now].
  destruct l as [|[y a] l]; [apply wp_ret; eapply HQ; [by apply (live_weaken k Hl); lia|auto with mk]|].
  apply wp_if; intros E; [apply wp_ret; eapply HQ; [by apply (live_weaken k Hl); lia|auto with mk]|].
  destruct (live_pop _ _ _ _ _ _ _ _ _ _ _ Hl E) as (d'&->&Hl1&Hy). apply wp_bind, wp_modify.
  change (set_t_timers l (St t (c_s c) x n ((y, a) :: l))) with (St t (c_s c) x n l). apply wp_bind.
  rewrite (_ : (4 * S d' + k)%nat = (4 + (4 * d' + k))%nat) in Hl1; [|lia].
  assert (∀ g' x' n' l', live c (t_now t) d' false own g' (4 * d' + k) x' n' l' → g' = g ∨ g' = announced g →
    wp (net_timer_work_routine fuel) Q (St t (c_s c) x' n' l')) as Hrest.
  { intros g' x' n' l' Hl' Hg. assert (same_streams g g') as Hs by (destruct Hg as [-> | ->]; auto with mk).
    eapply (IH d'); [lia|lia|done|by rewrite Hs|]. intros r g'' x'' n'' l'' Hl'' Hs''. eapply HQ; [|by eapply same_streams_trans].
    destruct Hl''. split; try done. lia. }
  destruct Hl as [_ Ho _ _ _ _ _ _ _]. destruct Hy as [-> | ->]; simpl; [by eapply wp_handle_delayed_ack_timeout|by eapply wp_handle_retransmit_timeout].
Qed.
