(* ===== verification/TcpRun.v ===== *)
(** * Connections

    Frames that come from the other end of a connection, two hosts with everything that
    can happen to them, and runs of the stack. *)

From S2P Require Import Prelude Timer Bits Bytes Ring Cbuf CbufRing Sort Net NetSpec Tcp TcpSpec.

(** ** Frames from the peer *)

(** The two ends of a connection *)
Record peers (c c' : conn) : Prop := {
  pe_lip : c_lip c' = c_rip c;
  pe_rip : c_rip c' = c_lip c;
  pe_lport : c_lport c' = c_rport c;
  pe_rport : c_rport c' = c_lport c;
  pe_iss : c_iss c' = c_irs c;
  pe_irs : c_irs c' = c_iss c;
}.

Lemma peers_sym c c' : peers c c' → peers c' c.
Proof. by intros []. Qed.

Lemma peer_data_segment c c' i k flags win data : peers c c' → data_segment c' i k flags win data = peer_segment c i k flags win data.
Proof. intros [E1 E2 E3 E4 E5 E6]. by rewrite /data_segment /peer_segment E1 E2 E3 E4 E5 E6. Qed.

(** The fields of an IP header *)
Lemma ip_fields src dst proto len rest (l := minip_build_ipv4_hdr src dst proto len ++ rest) :
  0 ≤ src < 2 ^ 32 → 0 ≤ dst < 2 ^ 32 → 0 ≤ len < 2 ^ 15 →
  field 0 1 l = 0x45 ∧ htons (field 2 2 l) = 20 + len ∧ field 9 1 l = proto ∧ field 12 4 l = src ∧ field 16 4 l = dst.
Proof.
  intros Hs Hd Hl. rewrite /l /minip_build_ipv4_hdr. generalize (rfc1701_chksum (ipv4_hdr src dst proto len 0)). clear l. intros ck.
  rewrite /ipv4_hdr -!app_assoc. split_and!; [done| | |..].
  - rewrite (field_app 2 2 _ [0x45; 0]) //; [|apply htons_range]. rewrite htons_twice u16_small; lia.
  - change (proto + 256 * 0 = proto). lia.
  - rewrite !(app_assoc _ _ (le 4 src ++ _)). rewrite field_app //.
  - rewrite !(app_assoc _ _ (le 4 dst ++ _)). rewrite field_app //.
Qed.

(** The Ethernet header of a frame *)
Lemma eth_header p smac dmac type rest : pkt_ok p → length smac = 6%nat → length dmac = 6%nat → 0 ≤ type < 2 ^ 16 →
  contents p = minip_build_mac_hdr smac dmac type ++ rest →
  ∃ p', pktbuf_consume p SIZEOF_ETH = (Some (p_data p), p') ∧ pkt_ok p' ∧ contents p' = rest ∧ p_data p' = p_data p + 14 ∧
    length (slice 6 6 (slice (p_data p) SIZEOF_ETH (p_buffer p'))) = 6%nat ∧ htons (field 12 2 (slice (p_data p) SIZEOF_ETH (p_buffer p'))) = type ∧
    slice 0 6 (slice (p_data p) SIZEOF_ETH (p_buffer p')) = dmac.
Proof.
  intros Hp Hs Hd Ht Ec. pose proof (length_contents p Hp) as El. pose proof (length_mac_hdr smac dmac type Hs Hd) as Eh.
  assert (14 ≤ p_dlen p) as Hlen by (rewrite -El Ec length_app Eh; lia).
  destruct (pktbuf_consume_ok p SIZEOF_ETH Hp) as (p'&->&Hp'&Ec'&_&Eb&_&Ed); [unfold SIZEOF_ETH; lia|]. exists p'. split; [done|]. split; [done|].
  rewrite Ec drop_app_length' // in Ec'. split; [done|]. split; [done|]. rewrite Eb.
  assert (slice (p_data p) SIZEOF_ETH (p_buffer p) = minip_build_mac_hdr smac dmac type) as ->.
  { rewrite -(take_app_length' (minip_build_mac_hdr smac dmac type) rest 14) // -Ec /contents /slice take_take. f_equal. unfold SIZEOF_ETH. lia. }
  split; [apply (inj Z.of_nat), length_slice; lia|]. rewrite /minip_build_mac_hdr. split; [|by rewrite /slice drop_0 take_app_length'].
  rewrite -(app_nil_r (le 2 _)) app_assoc field_app; [|apply htons_range|rewrite length_app; lia]. by rewrite htons_twice u16_small.
Qed.

Section reception.
Context (t : tcp) (c : conn) (d : nat).

#[local] Notation Live := (live c (t_now t) d).
#[local] Notation ST := (St t (c_s c)).

(** The network changed, but not the frames sent. *)
Lemma live_net {lk own g k x n l} n' fs : Live lk own g k x n l → net_ok k n' → same_config n n' → n_sent n' = fs ++ n_sent n →
  Forall (frame_ok c g) fs → Live lk own g k x n' l.
Proof. intros [] Hn Hc Es Hf. split; try done; [by rewrite (sc_ip _ _ Hc)|]. rewrite Es. by apply Forall_app. Qed.

Definition addresses_ok : Prop := 0 ≤ c_rip c < 2 ^ 32 ∧ 0 ≤ c_lip c < 2 ^ 32.

(** An IP packet with a segment of the peer: it reaches [tcp_input], or it is dropped
    because the sum over its header is found wrong. *)
Lemma wpx_handle_ipv4_packet ok own g k x n l p src_mac seg mem (Q : unit → tcp → Prop) :
  addresses_ok → Live false own g k x n l → pkt_ok p →
  contents p = minip_build_ipv4_hdr (c_rip c) (c_lip c) IP_PROTO_TCP (zlen seg) ++ seg → length src_mac = 6%nat → zlen seg < 2 ^ 15 →
  Q () (ST x n l) →
  (∀ p' n1, pkt_ok p' → contents p' = seg → Live false own g k x n1 l → wpx ok (tcp_input p' (c_rip c) (c_lip c) (m_sock mem)) Q (ST x n1 l)) →
  wpx ok (handle_ipv4_packet p src_mac mem) Q (ST x n l).
Proof.
  intros [Hr Hlo] Hl Hp Ec Hmac Hseg Hdrop HQ. pose proof (length_contents p Hp) as El.
  destruct (ip_fields (c_rip c) (c_lip c) IP_PROTO_TCP (zlen seg) seg) as (F1&F2&F3&F4&F5); [done..|lia|]. rewrite -Ec in F1, F2, F3, F4, F5.
  assert (zlen (contents p) = 20 + zlen seg) as Ez by (rewrite Ec length_app length_build_ipv4_hdr; lia).
  rewrite /handle_ipv4_packet. cbv zeta. rewrite F1 F2 F3 F4 F5 -El Ez. change (Z.land 69 15 * 4) with 20. change (Z.land (Z.shiftr 69 4) 15 =? 4) with true. cbn [negb].
  rewrite /SIZEOF_IPV4 (proj2 (Z.ltb_ge _ 20)); [|lia]. apply wpx_if; intros _; [done|].
  rewrite !Z.ltb_irrefl. destruct (pktbuf_consume_ok p 20 Hp) as (p'&->&Hp'&Ec'&_); [lia|].
  rewrite Ec drop_app_length' in Ec'; [|by rewrite length_build_ipv4_hdr].
  apply wpx_step, wp_on_net. eapply wp_arp_cache_update; [by destruct Hl|done|]. intros n1 Hn1 Hc1 Es1.
  apply wpx_step, wp_on_net, wp_gets. rewrite /id. eapply (live_net n1 []) in Hl; [|done..|constructor]. assert (n_ip n1 = c_lip c) as -> by by destruct Hl.
  rewrite Z.eqb_refl. cbn [negb]. rewrite andb_false_r. cbn [andb]. change (IP_PROTO_TCP =? IP_PROTO_ICMP) with false. change (IP_PROTO_TCP =? IP_PROTO_UDP) with false.
  apply wpx_when; [|done]. intros _. by apply HQ.
Qed.

(** Streams of less than [2 ^ 30] bytes: sequence numbers do not come back to the ones
    in use. *)
Definition short (g : ghost) : Prop := zlen (g_wr g) < 2 ^ 30 ∧ g_got g < 2 ^ 30.

Definition data_frame (c' : conn) (smac dmac : list Z) (i k flags win : Z) (data : list Z) : list Z :=
  let seg := data_segment c' i k flags win data in
  minip_build_mac_hdr smac dmac ETH_TYPE_IPV4 ++ minip_build_ipv4_hdr (c_lip c') (c_rip c') IP_PROTO_TCP (zlen seg) ++ seg.

(** A frame with data of which the receiver has a part already *)
Definition frame_overlaps (c' : conn) (g : ghost) (f : list Z) : Prop :=
  ∃ smac dmac i k flags win data, f = data_frame c' smac dmac i k flags win data ∧ overlaps g i data.

(** What a frame of the peer can do to the streams of an end *)
Definition brings (gp g g' : ghost) : Prop :=
  g' = g ∨ ∃ i j data, 0 ≤ i ∧ i + zlen data ≤ zlen (g_wr gp) ∧ data = slice i (zlen data) (g_wr gp) ∧ 0 ≤ j ≤ g_got gp ∧
    (g' = receive g i j data ∨ g' = announced (receive g i j data)).

Lemma short_near gp g x i j data : sock_ok c g x → short gp → short g → 0 ≤ i → i + zlen data ≤ zlen (g_wr gp) → 0 ≤ j ≤ g_got gp → near g i j data.
Proof. intros [] [] [] ? ? ?. split; unfold g_got in *; lia. Qed.

(** A frame with a segment of the peer *)
Lemma frame_in ok own g k x n l p smac dmac seg mem (Q : unit → tcp → Prop) : addresses_ok → Live false own g k x n l → pkt_ok p →
  contents p = minip_build_mac_hdr smac dmac ETH_TYPE_IPV4 ++ minip_build_ipv4_hdr (c_rip c) (c_lip c) IP_PROTO_TCP (zlen seg) ++ seg →
  length smac = 6%nat → length dmac = 6%nat → zlen seg < 2 ^ 15 → Q () (ST x n l) →
  (∀ p' n1, pkt_ok p' → contents p' = seg → Live false own g k x n1 l → wpx ok (tcp_input p' (c_rip c) (c_lip c) (m_sock mem)) Q (ST x n1 l)) →
  wpx ok (minip_rx_driver_callback p mem) Q (ST x n l).
Proof.
  intros Haddr Hl Hp Ec H1 H2 Hseg Hdrop HQ. assert (0 ≤ ETH_TYPE_IPV4 < 2 ^ 16) as Ht by (unfold ETH_TYPE_IPV4; lia). rewrite /minip_rx_driver_callback.
  pose proof (eth_header p smac dmac ETH_TYPE_IPV4 _ Hp H1 H2 Ht Ec) as HE. destruct HE as (p'&HE&Hp'&Ec'&_&Hmac&Ety&_). rewrite HE Ety.
  apply wpx_step, wp_on_net, wp_gets, wpx_if; intros _; [by apply wpx_of_wp, wp_ret|]. change (ETH_TYPE_IPV4 =? ETH_TYPE_IPV4) with true. cbn iota.
  by eapply wpx_handle_ipv4_packet.
Qed.

(** Any frame that the peer sent can arrive at any time. *)
Lemma wpx_minip_rx_driver_callback ok c' gp own g k x n l p f mem (Q : unit → tcp → Prop) :
  only_match t c → ports_ok c → addresses_ok → peers c c' → Live false own g (4 + k) x n l → pkt_ok p → contents p = f → frame_ok c' gp f →
  octets (g_wr gp) → short gp → short g → (frame_overlaps c' g f → ok) →
  (∀ g' x' n' l', Live false own g' k x' n' l' → brings gp g g' → Q () (ST x' n' l')) →
  wpx ok (minip_rx_driver_callback p mem) Q (ST x n l).
Proof.
  intros Hm Hports Haddr Hpe Hl Hp Ec Hf Ho Hsp Hsg Hov HQ. assert (Live false own g k x n l) as Hlk by (apply (live_weaken k Hl); lia).
  assert (wpx ok (mret ()) Q (ST x n l)) as Hdrop by (apply wpx_of_wp, wp_ret; by eapply HQ, or_introl).
  destruct Hf as [smac dmac body H1 H2|smac dmac seq ack flags win opts seg H1 H2 Hoc Hol Hsyn|smac dmac i j flags win data seg H1 H2 Hi Hid Ed Hmss Hj Hfl].
  - rewrite /minip_rx_driver_callback. destruct (eth_header p smac dmac ETH_TYPE_ARP body) as (p'&->&Hp'&_&Edata&_&->&_); [done..|]. apply wpx_step, wp_on_net, wp_gets, wpx_if; intros _; [done|].
    change (ETH_TYPE_ARP =? ETH_TYPE_IPV4) with false. change (ETH_TYPE_ARP =? ETH_TYPE_ARP) with true. cbn [when]. apply wpx_step, wp_on_net.
    eapply (wp_handle_arp_pkt (2 + k)); [by destruct Hl|done|destruct Hp; unfold SIZEOF_ETH; lia|]. intros r n' fs Hn' Hc' Hfs Es'. apply wpx_of_wp, wp_ret.
    eapply HQ; [|by left]. eapply (live_net n' fs); [exact Hlk|by eapply net_ok_weaken, Hn'; lia|done|done|]. eapply Forall_impl; [exact Hfs|].
    intros h (mac&b&Hmac&->). apply frame_arp; [by destruct Hl as [_ _ _ _ _ _ [] _ _]|done].
  - assert (seg = tcp_segment (c_lip c') (c_rip c') (c_lport c') (c_rport c') seq ack (flags_of opts flags) win opts []) as Es by reflexivity. clearbody seg.
    destruct (Hpe). rewrite pe_lip0 pe_rip0 pe_lport0 pe_rport0 in Es, Ec. apply (frame_in ok own g (4 + k) x n l p smac dmac seg); [done..|rewrite Es length_tcp_segment /=; lia|by eapply HQ, or_introl|].
    intros p' n1 Hp' Ec' Hl'. apply (wpx_syn_input t c d ok own g (4 + k) x n1 l p' seq ack flags win opts); try done; [by rewrite Ec' Es|by rewrite -pe_irs0| |].
    + destruct Hsg, Hl as [_ _ _ [] _ _ _ _ _]. split; unfold g_got in *; simpl; lia.
    + intros x' n' l' Hl2. eapply HQ; [by apply (live_weaken k Hl2); lia|by left].
  - pose proof (peer_data_segment c c' i j flags win data Hpe) as Eseg. assert (seg = data_segment c' i j flags win data) as Es by reflexivity. clearbody seg.
    destruct (Hpe). rewrite pe_lip0 pe_rip0 in Ec. unfold DEFAULT_MSS in Hmss. apply (frame_in ok own g (4 + k) x n l p smac dmac seg); [done..|rewrite Es length_tcp_segment /=; lia|by eapply HQ, or_introl|].
    intros p' n1 Hp' Ec' Hl'. apply (wpx_data_input t c d ok own g k x n1 l p' i j flags win data); [exact Hm|exact Hports|exact Hl'|exact Hp'|by rewrite Ec' Es Eseg| |apply (short_near gp g x); [by destruct Hl|done..]|exact Hfl| |].
    + rewrite Ed. rewrite /slice. by apply Forall_take, Forall_drop.
    + intros Hv. apply Hov. exists smac, dmac, i, j, flags, win, data. split; [by rewrite /data_frame -Es|exact Hv].
    + intros g' x' n' l' Hl2 Hg'. eapply HQ; [exact Hl2|]. right. exists i, j, data. exact (conj Hi (conj Hid (conj Ed (conj Hj Hg')))).
Qed.

End reception.

(** ** Datagrams *)

Lemma wp_on_net_at {A} (m : N A) (Q : A → tcp → Prop) t : wp m (λ a n', Q a (set_t_net n' t)) (t_net t) → wp (on_net m) Q t.
Proof. intros (a&n'&E&HQ)%wp_run. apply wp_run. exists a, (set_t_net n' t). split; [|done]. by rewrite /on_net E. Qed.

(** A datagram that arrives at the host it was sent to, when the sum of the IP header did
    not lose its carry *)
Lemma wp_udp_frame p n h data t mem (Q : unit → tcp → Prop) : pkt_ok p → contents p = udp_frame n h data → length (n_mac n) = 6%nat → length (u_mac h) = 6%nat →
  zlen data ≤ 1472 → 0 ≤ n_ip n < 2 ^ 32 → 0 ≤ u_host h < 2 ^ 32 → n_mac (t_net t) = u_mac h → n_ip (t_net t) = u_host h →
  folded (ipv4_hdr (n_ip n) (u_host h) IP_PROTO_UDP (SIZEOF_UDP + zlen data) 0) < 2 ^ 16 →
  (∀ l, Q () (set_t_net (match List.find (λ e, l_port e =? u16 (u_dport h)) (n_udp (t_net t)) with
      | Some e => set_n_calls (UdpCall (l_callback e) data (n_ip n) (u16 (u_sport h)) :: n_calls (t_net t)) (set_n_arp l (t_net t))
      | None => set_n_arp l (t_net t)
      end) t)) → wp (minip_rx_driver_callback p mem) Q t.
Proof.
  intros Hp Ec Hs Hd Hlen Hsrc Hdst Em Ei Hck HQ. assert (0 ≤ ETH_TYPE_IPV4 < 2 ^ 16) as Ht by (unfold ETH_TYPE_IPV4; lia).
  destruct (eth_header p _ _ _ _ Hp Hs Hd Ht Ec) as (p'&E&Hp'&Ec'&_&_&Ety&Edst). rewrite /minip_rx_driver_callback E. apply wp_bind, wp_on_net_at, wp_gets.
  rewrite /id Ety Edst Em bool_decide_eq_true_2 //. cbn [negb andb]. change (ETH_TYPE_IPV4 =? ETH_TYPE_IPV4) with true. cbn iota.
  change (set_t_net (t_net t) t) with (Tcp (t_net t) (t_socks t) (t_list t) (t_timers t) (t_now t) (t_seed t)).
  pose proof (length_contents p' Hp') as El. assert (zlen (contents p') = 28 + zlen data) as Ez.
  { rewrite Ec' length_app length_build_ipv4_hdr length_app length_udp_hdr. lia. }
  unfold SIZEOF_UDP in *. destruct (ip_fields (n_ip n) (u_host h) IP_PROTO_UDP (8 + zlen data) (udp_hdr (u_sport h) (u_dport h) (zlen data) ++ data)) as (F1&F2&F3&F4&F5); [done..|lia|].
  rewrite -Ec' in F1, F2, F3, F4, F5. rewrite /handle_ipv4_packet. cbv zeta. rewrite F1 F2 F3 F4 F5 -El Ez.
  change (Z.land 69 15 * 4) with 20. change (Z.land (Z.shiftr 69 4) 15 =? 4) with true. cbn [negb].
  rewrite /SIZEOF_IPV4 (proj2 (Z.ltb_ge _ 20)); [|lia]. rewrite Ec' take_app_length'; [|by rewrite length_build_ipv4_hdr].
  rewrite (proj2 (ipv4_chksum_iff _ _ _ _ _)) //. rewrite Z.eqb_refl. cbn [negb]. rewrite (_ : 20 + (8 + zlen data) = 28 + zlen data); [|lia]. rewrite !Z.ltb_irrefl.
  destruct (pktbuf_consume_ok p' 20 Hp') as (p2&->&Hp2&Ec2&_); [lia|]. rewrite Ec' drop_app_length' in Ec2; [|by rewrite length_build_ipv4_hdr].
  apply wp_bind, wp_on_net_at, wp_arp_cache_update_any. intros l. apply wp_bind, wp_on_net_at, wp_gets. rewrite /id /= Ei Z.eqb_refl. cbn [negb]. rewrite andb_false_r.
  cbn [andb]. apply wp_on_net_at. eapply wp_udp_input; [done|exact Ec2|]. simpl. apply HQ.
Qed.

(** ** Two hosts *)

(** A host with its end of the connection, the calls in progress, and what was written
    and read so far *)
Record host := Host { h_conn : conn; h_tcp : tcp; h_calls : nat; h_wr : list Z; h_rd : list Z }.

Inductive event :=
  | ev_call (** [tcp_read] or [tcp_write] is called *)
  | ev_read (len : Z) (** a call of [tcp_read] goes on *)
  | ev_write (buf : list Z) (off : Z) (** a call of [tcp_write] goes on *)
  | ev_done (len : Z) (** a call of [tcp_write] ends *)
  | ev_frame (p : pktbuf) (mem : mallocs) (** a frame arrives *)
  | ev_timers (** the timer thread runs *)
  | ev_env (now : Z) (pool : list (list Z)) (replies : list (option (list Z))). (** time, the driver, answers for the ARP cache *)

Definition set_env (now : Z) (pool : list (list Z)) (replies : list (option (list Z))) (t : tcp) : tcp :=
  Tcp (set_n_replies replies (set_n_pool pool (t_net t))) (t_socks t) (t_list t) (t_timers t) now (t_seed t).

Definition host_run (e : event) (h : host) : option host :=
  let '(Host c t calls wr rd) := h in
  match e with
  | ev_call => '(_, t) ← tcp_read (c_s c) t; Some (Host c t (S calls) wr rd)
  | ev_read len =>
    '(r, t) ← tcp_read_resume (c_s c) len t;
    Some (match r with
          | None => Host c t calls wr rd
          | Some (inl bytes) => Host c t (pred calls) wr (rd ++ bytes)
          | Some (inr _) => Host c t (pred calls) wr rd
          end)
  | ev_write buf off =>
    '(r, t) ← tcp_write_resume (c_s c) buf off t;
    Some (match r with inl off' => Host c t calls (wr ++ slice off (off' - off) buf) rd | inr _ => Host c t (pred calls) wr rd end)
  | ev_done len => '(_, t) ← tcp_write_done (c_s c) len t; Some (Host c t (pred calls) wr rd)
  | ev_frame p mem => '(_, t) ← minip_rx_driver_callback p mem t; Some (Host c t calls wr rd)
  | ev_timers => '(_, t) ← net_timer_work_routine 3 t; Some (Host c t calls wr rd)
  | ev_env now pool replies => Some (Host c (set_env now pool replies t) calls wr rd)
  end.

(** The events that can happen: a frame that the peer sent, at any time and any number
    of times; calls that go on were made before; streams stay below [2 ^ 30] bytes. *)
Definition allowed (peer h : host) (e : event) : Prop :=
  match e with
  | ev_call => True
  | ev_read _ | ev_done _ => h_calls h ≠ 0%nat
  | ev_write buf off => h_calls h ≠ 0%nat ∧ octets buf ∧ 0 ≤ off ≤ zlen buf ∧ zlen (h_wr h) + zlen buf < 2 ^ 30
  | ev_frame p _ => pkt_ok p ∧ contents p ∈ n_sent (t_net (h_tcp peer))
  | ev_timers => True
  | ev_env _ pool replies =>
    Forall (λ o, zlen o = PKTBUF_SIZE) pool ∧ Forall (λ r, ∀ mac, r = Some mac → length mac = 6%nat) replies
  end.

(** Enough of the 256 objects of the pool are free for the longest of the operations. *)
Definition roomy (h : host) : Prop := (32 ≤ length (n_pool (t_net (h_tcp h))))%nat.

Inductive sys_step : host * host → host * host → Prop :=
  | step_left a b a' e : allowed b a e → roomy a → host_run e a = Some a' → sys_step (a, b) (a', b)
  | step_right a b b' e : allowed a b e → roomy b → host_run e b = Some b' → sys_step (a, b) (a, b').

(** ** The invariant *)

Record host_ok (h : host) (g : ghost) : Prop := {
  ho_live : ∃ x, t_socks (h_tcp h) !! c_s (h_conn h) = Some x ∧
    live (h_conn h) (t_now (h_tcp h)) 2 false (1 + Z.of_nat (h_calls h)) g 0 x (t_net (h_tcp h)) (t_timers (h_tcp h));
  ho_match : only_match (h_tcp h) (h_conn h);
  ho_ports : ports_ok (h_conn h);
  ho_addresses : addresses_ok (h_conn h);
  ho_wr : h_wr h = g_wr g;
  ho_rd : h_rd h = g_rd g;
  ho_short : zlen (g_wr g) < 2 ^ 30;
}.

(** The stream from [g] to [g']: what was received is a prefix of what was written, and
    only bytes that were received have been acknowledged. *)
Record flow (g g' : ghost) : Prop := {
  fl_prefix : g_rd g' ++ g_q g' `prefix_of` g_wr g;
  fl_acked : g_acked g ≤ g_got g';
}.

Record system (a b : host) (ga gb : ghost) : Prop := {
  sy_a : host_ok a ga;
  sy_b : host_ok b gb;
  sy_peers : peers (h_conn a) (h_conn b);
  sy_ab : flow ga gb;
  sy_ba : flow gb ga;
}.

Lemma system_sym a b ga gb : system a b ga gb → system b a gb ga.
Proof. intros []. split; try done. by apply peers_sym. Qed.

Lemma flow_same {ga gb ga'} : flow ga gb → flow gb ga → same_streams ga ga' → flow ga' gb ∧ flow gb ga'.
Proof. intros [] [] ->. by split; split. Qed.

(** A frame of the peer adds the next bytes of its stream, or nothing. *)
Lemma flow_brings {ga gb ga'} : flow ga gb → flow gb ga → brings gb ga ga' → flow ga' gb ∧ flow gb ga'.
Proof.
  intros Hab Hba [->|(i&j&data&Hi&Hid&Ed&Hj&Hg')]; [done|]. assert (flow (acknowledge ga j) gb ∧ flow gb (acknowledge ga j)) as [H1 H2].
  { rewrite /acknowledge. case_match; [|done]. destruct Hab, Hba. split; split; (done || simpl; lia). }
  assert (flow (receive ga i j data) gb ∧ flow gb (receive ga i j data)) as [H3 H4].
  { rewrite /receive. case_match; [|done]. rewrite /accept. destruct (Z.eqb_spec i (g_got (acknowledge ga j))) as [->|]; [|done].
    set (g := acknowledge ga j) in *. destruct H1 as [P1 A1], H2 as [P2 A2]. set (m := Z.to_nat _). split; split; try done.
    - simpl. rewrite app_assoc. destruct P2 as [w Ew]. rewrite Ed Ew. rewrite /slice drop_app_length'; [|rewrite length_app /g_got; lia].
      apply prefix_app. rewrite take_take. eexists. symmetry. apply take_drop.
    - rewrite /g_got /= length_app. unfold g_got in A2. lia. }
  destruct Hg' as [->| ->]; [done|]. by apply (flow_same H3 H4).
Qed.

Lemma flow_read {ga gb} bytes rest : flow ga gb → flow gb ga → bytes ++ rest = g_q ga →
  flow (set_g_rd (g_rd ga ++ bytes) rest ga) gb ∧ flow gb (set_g_rd (g_rd ga ++ bytes) rest ga).
Proof.
  intros [] [] E. split; split; try done; simpl.
  - by rewrite -app_assoc E.
  - unfold g_got in *. rewrite -E length_app in fl_acked1. simpl. rewrite length_app. lia.
Qed.

Lemma flow_write {ga gb ga'} w : flow ga gb → flow gb ga → g_wr ga' = g_wr ga ++ w → g_acked ga' = g_acked ga → g_rd ga' = g_rd ga → g_q ga' = g_q ga →
  flow ga' gb ∧ flow gb ga'.
Proof.
  intros [] [] Ew Ea Er Eq. split; split; rewrite ?Ew ?Ea /g_got ?Er ?Eq //. by apply prefix_app_r.
Qed.

Lemma timers_two s l : timers_ok s l → (length l ≤ 2)%nat.
Proof.
  intros [H1 H2]. rewrite -(length_fmap fst). assert (l.*1 ⊆ [ack_delay_timer s; retransmit_timer s]) as Hs.
  { intros x (e&->&He)%list_elem_of_fmap. rewrite Forall_forall in H2. destruct (H2 e He) as [-> | ->]; set_solver. }
  by apply (submseteq_length _ [ack_delay_timer s; retransmit_timer s]), NoDup_submseteq.
Qed.

Lemma only_match_St t c x n l : only_match t c → only_match (St t (c_s c) x n l) c.
Proof. intros [H1 H2]. split; [done|]. intros s' Hs Hne. destruct (H2 s' Hs Hne) as (y&Hy&Hm). exists y. by rewrite /= lookup_insert_ne. Qed.

(** The host after an operation on its socket *)
Lemma host_after {c t calls wr rd g} calls' g' x' n' l' : host_ok (Host c t calls wr rd) g →
  live c (t_now t) 2 false (1 + Z.of_nat calls') g' 0 x' n' l' → zlen (g_wr g') < 2 ^ 30 →
  host_ok (Host c (St t (c_s c) x' n' l') calls' (g_wr g') (g_rd g')) g'.
Proof.
  intros [] Hl Hs. split; try done; [|by apply only_match_St]. exists x'. split; [|done]. apply lookup_insert_eq.
Qed.

Lemma live_room {c now d lk own g x n l} : live c now d lk own g 0 x n l → (32 ≤ length (n_pool n))%nat → live c now d lk own g 32 x n l.
Proof. intros [? ? ? ? ? ? [] ? ?] Hp. by split. Qed.

(** ** Steps *)

(** What an event leads to: a good state again.  An event that has no result is a frame
    whose data overlaps. *)
Definition outcome (a b : host) (ga gb : ghost) (e : event) (r : option host) : Prop :=
  match r with
  | Some a' => ∃ ga', system a' b ga' gb ∧ h_conn a' = h_conn a
  | None => ∃ p mem, e = ev_frame p mem ∧ frame_overlaps (h_conn b) ga (contents p)
  end.

Section step.
Context (c : conn) (t : tcp) (calls : nat) (wr rd : list Z) (b : host) (ga gb : ghost).
Context (Hs : system (Host c t calls wr rd) b ga gb) (Hr : roomy (Host c t calls wr rd)).

#[local] Notation a := (Host c t calls wr rd).

Lemma start : ∃ x, t = St t (c_s c) x (t_net t) (t_timers t) ∧ live c (t_now t) 2 false (1 + Z.of_nat calls) ga 32 x (t_net t) (t_timers t).
Proof using Hs Hr.
  destruct Hs as [[(x&Hx&Hl)] _ _ _ _]. exists x. split; [by rewrite St_self|]. by apply live_room.
Qed.

(** The end of an operation *)
Lemma finish e calls' wr' rd' g' x' n' l' : wr' = g_wr g' → rd' = g_rd g' → live c (t_now t) 2 false (1 + Z.of_nat calls') g' 0 x' n' l' → zlen (g_wr g') < 2 ^ 30 →
  flow g' gb ∧ flow gb g' → outcome a b ga gb e (Some (Host c (St t (c_s c) x' n' l') calls' wr' rd')).
Proof using Hs.
  intros -> -> Hl Hw [H1 H2]. destruct Hs. exists g'. split; [|done]. split; try done. by eapply host_after.
Qed.
Lemma written : wr = g_wr ga ∧ rd = g_rd ga ∧ zlen (g_wr ga) < 2 ^ 30.
Proof using Hs. by destruct Hs as [[] _ _ _ _]. Qed.

(** An operation with a specification at the state [t] *)
Lemma run_at {A} (m : T A) (Q : A → tcp → Prop) :
  (∀ x, live c (t_now t) 2 false (1 + Z.of_nat calls) ga 32 x (t_net t) (t_timers t) → wp m Q (St t (c_s c) x (t_net t) (t_timers t))) →
  ∃ r t', m t = Some (r, t') ∧ Q r t'.
Proof using Hs Hr. intros H. destruct start as (x&Et&Hl). rewrite Et. by apply wp_run, H. Qed.

Lemma call_ok : outcome a b ga gb ev_call (host_run ev_call a).
Proof using Hs Hr.
  destruct written as (Ew&Er&Hw). destruct (run_at (tcp_read (c_s c)) (λ _ z, outcome a b ga gb ev_call (Some (Host c z (S calls) wr rd)))) as (r&t'&E&HQ);
    [|by rewrite /host_run E].
  intros x Hl. apply wp_inc; [by eapply live_own|]. eapply (finish ev_call); [done|done| |done|by destruct Hs].
  apply (live_ref 1) in Hl; [|lia]. rewrite (_ : 1 + Z.of_nat (S calls) = 1 + Z.of_nat calls + 1); [|lia]. by apply (live_weaken 0 Hl); lia.
Qed.

Lemma read_ok len : calls ≠ 0%nat → outcome a b ga gb (ev_read len) (host_run (ev_read len) a).
Proof using Hs Hr.
  intros Hc. destruct written as (Ew&Er&Hw). rewrite /host_run.
  destruct (run_at (tcp_read_resume (c_s c) len) (λ r z, outcome a b ga gb (ev_read len) (Some
    (match r with None => Host c z calls wr rd | Some (inl bytes) => Host c z (pred calls) wr (rd ++ bytes) | Some (inr _) => Host c z (pred calls) wr rd end))))
    as (r&t'&E&HQ); [|by rewrite E].
  intros x Hl. rewrite Z.add_comm in Hl. eapply (wp_tcp_read_resume _ _ _ _ _ 28); [|exact Hl|..]; [lia|..].
  - intros x' n' l' _ Hl' _. rewrite Z.add_comm in Hl'. eapply (finish (ev_read len)); [done|done| |done|by destruct Hs]. by apply (live_weaken 0 Hl'); lia.
  - intros g1 g' x' n' l' bytes Hb Eg1 Hl' Hg'. assert (same_streams g1 g') as Hss by (destruct Hg' as [->| ->]; auto with mk).
    assert (wr = g_wr g' ∧ rd ++ bytes = g_rd g') as [E1 E2] by (rewrite Hss Eg1 /= Ew Er //). eapply (finish (ev_read len)); [exact E1|exact E2| |rewrite Hss Eg1 //|].
    + rewrite (_ : 1 + Z.of_nat (pred calls) = Z.of_nat calls); [|lia]. by apply (live_weaken 0 Hl'); lia.
    + destruct Hs. destruct (flow_read bytes (drop (Z.to_nat len) (g_q ga)) sy_ab0 sy_ba0) as [H1 H2]; [apply take_drop|]. rewrite -Eg1 in H1, H2. by apply (flow_same H1 H2).
Qed.

Lemma write_ok buf off : allowed b a (ev_write buf off) → outcome a b ga gb (ev_write buf off) (host_run (ev_write buf off) a).
Proof using Hs Hr.
  intros (Hc&Hb&Hoff&Hlen). destruct written as (Ew&Er&Hw). rewrite /host_run. simpl in Hlen. rewrite Ew in Hlen.
  destruct (run_at (tcp_write_resume (c_s c) buf off) (λ r z, outcome a b ga gb (ev_write buf off) (Some
    (match r with inl off' => Host c z calls (wr ++ slice off (off' - off) buf) rd | inr _ => Host c z (pred calls) wr rd end))))
    as (r&t'&E&HQ); [|by rewrite E].
  intros x Hl. eapply (wp_tcp_write_resume _ _ _ _ _ 8); [exact Hl|done|done|lia|]. intros off' g' x' n' l' Hl' Hoff' Ew' Ea' _ Er' Eq' _.
  assert (wr ++ slice off (off' - off) buf = g_wr g' ∧ rd = g_rd g') as [E1 E2] by (rewrite Ew' Ew Er Er' //).
  eapply (finish (ev_write buf off)); [exact E1|exact E2|by apply (live_weaken 0 Hl'); lia| |].
  - rewrite Ew' length_app. rewrite /slice length_take length_drop. lia.
  - destruct Hs. by eapply flow_write.
Qed.

Lemma done_ok len : calls ≠ 0%nat → outcome a b ga gb (ev_done len) (host_run (ev_done len) a).
Proof using Hs Hr.
  intros Hc. destruct written as (Ew&Er&Hw). rewrite /host_run.
  destruct (run_at (tcp_write_done (c_s c) len) (λ _ z, outcome a b ga gb (ev_done len) (Some (Host c z (pred calls) wr rd)))) as (r&t'&E&HQ); [|by rewrite E].
  intros x Hl. apply wp_bind, wp_dec; [destruct Hl; lia|]. apply wp_ret. eapply (finish (ev_done len)); [done|done| |done|by destruct Hs].
  apply (live_ref (-1)) in Hl; [|lia]. rewrite (_ : 1 + Z.of_nat (pred calls) = 1 + Z.of_nat calls + -1); [|lia]. by apply (live_weaken 0 Hl); lia.
Qed.

Lemma timers_step_ok : outcome a b ga gb ev_timers (host_run ev_timers a).
Proof using Hs Hr.
  destruct written as (Ew&Er&Hw). rewrite /host_run.
  destruct (run_at (net_timer_work_routine 3) (λ _ z, outcome a b ga gb ev_timers (Some (Host c z calls wr rd)))) as (r&t'&E&HQ); [|by rewrite E].
  intros x Hl. eapply (wp_net_timer_work_routine t c 2 3 _ _ 24); [lia|exact Hl|lia|]. intros r g' x' n' l' Hl' Hss.
  assert (wr = g_wr g' ∧ rd = g_rd g') as [E1 E2] by (rewrite Hss /= Ew Er //). eapply (finish ev_timers); [exact E1|exact E2|by apply (live_weaken 0 Hl'); lia|by rewrite Hss|].
  destruct Hs. by apply (flow_same sy_ab0 sy_ba0).
Qed.

Lemma short_flow g g' : flow g g' → zlen (g_wr g) < 2 ^ 30 → zlen (g_wr g') < 2 ^ 30 → short g'.
Proof. intros [Hp%prefix_length _] H1 H2. split; [done|]. rewrite length_app in Hp. rewrite /g_got. lia. Qed.

Lemma frame_step_ok p mem : allowed b a (ev_frame p mem) → outcome a b ga gb (ev_frame p mem) (host_run (ev_frame p mem) a).
Proof using Hs Hr.
  intros [Hp Hin]. destruct written as (Ew&Er&Hw). rewrite /host_run. destruct start as (x&Et&Hl). destruct (Hs) as [[_ Hm Hpo Had _ _ _] Hb Hpe Hab Hba].
  destruct Hb as [(y&Hy&Hlb) _ _ _ _ _ Hwb]. simpl in *. pose proof (lv_frames _ _ _ _ _ _ _ _ _ _ Hlb) as Hfr. rewrite Forall_forall in Hfr.
  assert (octets (g_wr gb)) as Ho by by destruct Hlb as [_ _ _ [] _ _ _ _ _].
  assert (∀ g' x' n' l', live c (t_now t) 2 false (1 + Z.of_nat calls) g' 28 x' n' l' → brings gb ga g' →
    outcome a b ga gb (ev_frame p mem) (Some (Host c (St t (c_s c) x' n' l') calls wr rd))) as Hfin.
  { intros g' x' n' l' Hl' Hbr. assert (g_wr g' = g_wr ga ∧ g_rd g' = g_rd ga) as [E1 E2].
    { destruct Hbr as [->|(i&j&data&_&_&_&_&Hg)]; [done|]. assert (g_wr (receive ga i j data) = g_wr ga ∧ g_rd (receive ga i j data) = g_rd ga) as [? ?].
      { rewrite /receive /accept /acknowledge. by repeat case_match. }
      by destruct Hg as [->| ->]. }
    apply (finish (ev_frame p mem) calls wr rd g'); [by rewrite E1|by rewrite E2|by apply (live_weaken 0 Hl'); lia|by rewrite E1|]. by apply (flow_brings Hab Hba). }
  pose proof (wpx_minip_rx_driver_callback t c 2 (frame_overlaps (h_conn b) ga (contents p)) (h_conn b) gb (1 + Z.of_nat calls) ga 28 x (t_net t) (t_timers t) p (contents p) mem
    (λ _ z, outcome a b ga gb (ev_frame p mem) (Some (Host c z calls wr rd))) Hm Hpo Had Hpe Hl Hp eq_refl (Hfr _ Hin) Ho (short_flow _ _ Hab Hw Hwb) (short_flow _ _ Hba Hwb Hw) (λ H, H) Hfin) as H.
  rewrite -Et in H. rewrite /wpx in H. destruct (minip_rx_driver_callback p mem t) as [[r t']|]; simpl; [exact H|]. by exists p, mem.
Qed.

Lemma env_ok now pool replies : allowed b a (ev_env now pool replies) → outcome a b ga gb (ev_env now pool replies) (host_run (ev_env now pool replies) a).
Proof using Hs.
  intros [Hp Hrep]. destruct Hs as [[(x&Hx&Hl) Hm] ? ? ? ?]. exists ga. split; [|done]. split; try done. split; try done. exists x. split; [done|].
  simpl in *. destruct Hl as [? ? ? ? Ht ? Hn ? ?]. split; try done; [|by destruct Hn; split; try done; simpl; lia].
  pose proof (timers_two _ _ Ht). simpl. rewrite /due. etrans; [apply length_filter|done].
Qed.

Lemma step_ok e : allowed b a e → outcome a b ga gb e (host_run e a).
Proof using Hs Hr.
  destruct e; intros He; [by apply call_ok|by apply read_ok|by apply write_ok|by apply done_ok|by apply frame_step_ok|by apply timers_step_ok|by apply env_ok].
Qed.

End step.

Lemma outcome_run {a b ga gb e} : system a b ga gb → allowed b a e → roomy a → outcome a b ga gb e (host_run e a).
Proof. destruct a as [c t calls wr rd]. intros Hs He Hr. by apply step_ok. Qed.

(** The invariant holds in every run. *)
Lemma run_system s s' : rtc sys_step s s' → ∀ ga gb, system s.1 s.2 ga gb → ∃ ga' gb', system s'.1 s'.2 ga' gb'.
Proof.
  induction 1 as [s|s1 s2 s3 Hstep _ IH]; [by eauto|]. intros ga gb Hs. destruct Hstep as [a b a' e He Hr E|a b b' e He Hr E]; simpl in *.
  - pose proof (outcome_run Hs He Hr) as Ho. rewrite E in Ho. destruct Ho as (ga'&Hs'&_). by eapply IH.
  - pose proof (outcome_run (system_sym _ _ _ _ Hs) He Hr) as Ho. rewrite E in Ho. destruct Ho as (gb'&Hs'%system_sym&_). by eapply IH.
Qed.

Lemma system_delivered a b ga gb : system a b ga gb → h_rd b `prefix_of` h_wr a.
Proof. intros [[_ _ _ _ Ewr _ _] [_ _ _ _ _ Erd _] _ [Hp _] _]. rewrite Ewr Erd. etrans; [|exact Hp]. by eexists. Qed.

(** What an end still holds of the bytes written to it, and what waits to be read *)
Definition unacknowledged (h : host) : list Z :=
  match t_socks (h_tcp h) !! c_s (h_conn h) with Some x => take (Z.to_nat (tx_buffer_offset x)) (tx_buffer x) | None => [] end.

Definition unread (h : host) (q : list Z) : Prop := ∃ x, t_socks (h_tcp h) !! c_s (h_conn h) = Some x ∧ cbuf_repr (rx_buffer x) q.

Lemma system_kept a b ga gb : system a b ga gb → ∃ w q, h_wr a = w ++ unacknowledged a ∧ unread b q ∧ w `prefix_of` h_rd b ++ q.
Proof.
  intros [[(x&Hx&Hl) _ _ _ Ewr _ _] [(y&Hy&Hlb) _ _ _ _ Erd _] _ [Hp Ha] _]. exists (take (Z.to_nat (g_acked ga)) (g_wr ga)), (g_q gb).
  split_and!; [|exists y; split; [done|by destruct Hlb as [_ _ _ [] _ _ _ _ _]]|].
  - rewrite /unacknowledged Hx Ewr. destruct Hl as [_ _ _ Hsk _ _ _ _ _]. by rewrite (so_tx_offset _ _ _ Hsk) (so_tx_data _ _ _ Hsk) take_drop.
  - rewrite Erd. destruct Hp as [w Ew]. rewrite Ew. destruct Hl as [_ _ _ [] _ _ _ _ _]. rewrite take_app_le; [eexists; symmetry; apply take_drop|].
    rewrite length_app. unfold g_got in Ha. lia.
Qed.

(** ** A run: two hosts connect *)

Definition ip_a : Z := value [10; 0; 0; 1].
Definition ip_b : Z := value [10; 0; 0; 2].
Definition mac_a : list Z := [2; 0; 0; 0; 0; 1].
Definition mac_b : list Z := [2; 0; 0; 0; 0; 2].

Definition booted (ip : Z) (mac : list Z) (arp : list (Z * list Z)) : net :=
  Net ip (value [255; 255; 255; 0]) (value [10; 0; 0; 255]) 0 mac true [] true arp [] [] [] (replicate 64 (replicate 1536 0)) [].

Definition memory (s : positive) : alloc := Alloc s (replicate 8192 0) (replicate 8192 0).

(** A buffer of the driver with a frame in it *)
Definition in_buffer (f : list Z) : pktbuf := Pktbuf [] f 0 (zlen f) 0.

Definition last_frame (t : tcp) : list Z := hd [] (n_sent (t_net t)).

Definition arrive (f : list Z) (s : option positive) (t : tcp) : option tcp :=
  '(_, t) ← minip_rx_driver_callback (in_buffer f) (Mallocs true (memory <$> s)) t; Some t.

(** SYN, SYN and ACK, ACK *)
Definition handshake : option (tcp * tcp) :=
  '(_, tb) ← tcp_open_listen 80 (Some (memory 1)) (Tcp (booted ip_b mac_b [(ip_a, mac_a)]) ∅ [] [] 0 2);
  '(_, ta) ← tcp_connect ip_b 80 5 (Some (memory 1)) (Tcp (booted ip_a mac_a [(ip_b, mac_b)]) ∅ [] [] 0 1);
  tb ← arrive (last_frame ta) (Some 2%positive) tb;
  ta ← arrive (last_frame tb) None ta;
  tb ← arrive (last_frame ta) None tb;
  Some (ta, tb).

Definition no_tcp : tcp := Tcp (booted 0 mac_a []) ∅ [] [] 0 0.

Definition tcp_a : tcp := default no_tcp (fst <$> handshake).
Definition tcp_b : tcp := default no_tcp (snd <$> handshake).

Definition conn_a : conn := Conn 1 ip_a ip_b 35291 80 1015568749 1975575173.
Definition conn_b : conn := Conn 2 ip_b ip_a 80 35291 1975575173 1015568749.

Definition host_a : host := Host conn_a tcp_a 0 [] [].
Definition host_b : host := Host conn_b tcp_b 0 [] [].

Definition fresh : ghost := Ghost [] 0 0 [] [] 8191.

(** A socket as the handshake leaves it *)
Definition fresh_socket (c : conn) (x : tcp_socket) : bool :=
  bool_decide (s_state x = STATE_ESTABLISHED) && (local_ip x =? c_lip c) && (remote_ip x =? c_rip c) && (local_port x =? c_lport c) &&
  (remote_port x =? c_rport c) && (mss x =? DEFAULT_MSS) && (rx_win_size x =? DEFAULT_RX_WINDOW_SIZE) &&
  (c_head (rx_buffer x) =? 0) && (c_tail (rx_buffer x) =? 0) && (c_len_pow2 (rx_buffer x) =? 13) && (zlen (c_buf (rx_buffer x)) =? 8192) &&
  (rx_win_low x =? u32 (c_irs c)) && (rx_win_high x =? u32 (c_irs c + 8191)) && (tx_buffer_size x =? DEFAULT_TX_BUFFER_SIZE) &&
  (zlen (tx_buffer x) =? DEFAULT_TX_BUFFER_SIZE) && (tx_win_low x =? u32 (c_iss c)) && (tx_highest_seq x =? u32 (c_iss c)) && (tx_buffer_offset x =? 0) &&
  negb (s_lock x) && (s_ref x =? 1).

Lemma fresh_sock_ok c x : fresh_socket c x = true → sock_ok c fresh x ∧ s_lock x = false ∧ s_ref x = 1.
Proof.
  rewrite /fresh_socket !andb_true_iff bool_decide_eq_true !Z.eqb_eq negb_true_iff. intros H. destruct_and! H. split; [|done].
  unfold DEFAULT_TX_BUFFER_SIZE in *. split; try done; simpl; rewrite ?Z.add_0_r //; try lia.
  - split; rewrite ?H11 ?H12 ?H13 //=; [by rewrite -(Nat2Z.id (length _)) H10|apply ring_nil].
  - by rewrite -(Nat2Z.id (length _)) H6.
  - constructor.
Qed.

Definition fresh_net (c : conn) (n : net) : bool :=
  n_driver n && forallb (λ o, zlen o =? PKTBUF_SIZE) (n_pool n) && (length (n_mac n) =? 6)%nat && forallb (λ e, (length e.2 =? 6)%nat) (n_arp n) &&
  bool_decide (n_replies n = []) && (n_ip n =? c_lip c).

Lemma forallb_Forall {A} (f : A → bool) (P : A → Prop) l : (∀ x, f x = true → P x) → forallb f l = true → Forall P l.
Proof. intros H. rewrite forallb_forall Forall_forall. intros Hl x Hx. by apply H, Hl, list_elem_of_In. Qed.

Lemma fresh_host c t : fresh_socket c <$> t_socks t !! c_s c = Some true → t_timers t = [] → fresh_net c (t_net t) = true →
  Forall (frame_ok c fresh) (n_sent (t_net t)) → only_match t c → ports_ok c → addresses_ok c → host_ok (Host c t 0 [] []) fresh.
Proof.
  intros Hf Et Hn Hfr Hm Hp Ha. destruct (t_socks t !! c_s c) as [x|] eqn:Ex; [|done]. injection Hf as Hf. destruct (fresh_sock_ok _ _ Hf) as (Hsk&Hlk&Href).
  rewrite /fresh_net !andb_true_iff bool_decide_eq_true Z.eqb_eq Nat.eqb_eq in Hn. destruct_and! Hn. split; try done. exists x. split; [done|].
  simpl. rewrite Et. split; try done; [by split; constructor|rewrite /due /=; lia|]. split; try done; [|lia|..].
  - eapply forallb_Forall; [|done]. intros o. by rewrite Z.eqb_eq.
  - eapply forallb_Forall; [|done]. intros o. by rewrite Nat.eqb_eq.
  - match goal with E : n_replies _ = [] |- _ => rewrite E end. constructor.
Qed.

Definition syn_frame (c : conn) (smac dmac : list Z) (seq ack flags win : Z) : list Z :=
  let opts := mss_option DEFAULT_MSS in
  let seg := tcp_segment (c_lip c) (c_rip c) (c_lport c) (c_rport c) seq ack (flags_of opts flags) win opts [] in
  minip_build_mac_hdr smac dmac ETH_TYPE_IPV4 ++ minip_build_ipv4_hdr (c_lip c) (c_rip c) IP_PROTO_TCP (zlen seg) ++ seg.

Lemma syn_frame_ok c smac dmac seq ack flags win : length smac = 6%nat → length dmac = 6%nat → syn_flags c ack flags →
  frame_ok c fresh (syn_frame c smac dmac seq ack flags win).
Proof.
  intros H1 H2 Hf. assert (octets (mss_option DEFAULT_MSS)) as Ho by by repeat constructor.
  exact (frame_syn c fresh smac dmac seq ack flags win (mss_option DEFAULT_MSS) H1 H2 Ho eq_refl Hf).
Qed.

Lemma ack_frame_ok c smac dmac win : length smac = 6%nat → length dmac = 6%nat → frame_ok c fresh (data_frame c smac dmac 0 0 PKT_ACK win []).
Proof. intros H1 H2. apply (frame_data c fresh smac dmac 0 0 PKT_ACK win []); try done. by left. Qed.

(** The two hosts are connected, and nothing was written yet. *)
Lemma connected_a : host_ok host_a fresh.
Proof.
  apply fresh_host; [vm_compute; reflexivity..| | |done|done].
  - assert (n_sent (t_net tcp_a) = [data_frame conn_a mac_a mac_b 0 0 PKT_ACK 8191 []; syn_frame conn_a mac_a mac_b 1015568748 0 PKT_SYN 8192]) as ->
      by (vm_compute; reflexivity).
    constructor; [by apply ack_frame_ok|]. constructor; [|constructor]. apply syn_frame_ok; [done..|by left].
  - split; [rewrite (_ : t_list tcp_a = [1%positive]); [constructor|vm_compute; reflexivity]|].
    intros s' Hs Hne. assert (t_list tcp_a = [1%positive]) as E by (vm_compute; reflexivity). rewrite E in Hs. apply list_elem_of_singleton in Hs as ->. by destruct Hne.
Qed.

Lemma connected_b : host_ok host_b fresh.
Proof.
  apply fresh_host; [vm_compute; reflexivity..| | |done|done].
  - assert (n_sent (t_net tcp_b) = [syn_frame conn_b mac_b mac_a 1975575172 1015568749 (Z.lor PKT_ACK PKT_SYN) 8191]) as -> by (vm_compute; reflexivity).
    constructor; [|constructor]. apply syn_frame_ok; [done..|by right].
  - assert (t_list tcp_b = [2%positive; 1%positive]) as E by (vm_compute; reflexivity). split; rewrite E; [constructor|]. intros s' Hs Hne.
    apply elem_of_cons in Hs as [->|Hs]; [by destruct Hne|]. apply list_elem_of_singleton in Hs as ->. assert (matches conn_b <$> t_socks tcp_b !! 1%positive = Some false) as Hm by (vm_compute; reflexivity).
    destruct (t_socks tcp_b !! 1%positive) as [y|]; [|done]. injection Hm as Hm. exists y. split; [reflexivity|exact Hm].
Qed.

Lemma connected : system host_a host_b fresh fresh.
Proof. split; [exact connected_a|exact connected_b|split; reflexivity|split; [by apply prefix_nil|done]..]. Qed.

(** ** A session *)

Definition hello : list Z := [104; 101; 108; 108; 111].

Definition after (e : event) (h : host) : host := default h (host_run e h).

Definition from_driver (f : list Z) : event := ev_frame (in_buffer f) (Mallocs true None).

Definition a_call : host := after ev_call host_a.
Definition a_wrote : host := after (ev_write hello 0) a_call.
Definition b_got : host := after (from_driver (last_frame (h_tcp a_wrote))) host_b.
Definition b_call : host := after ev_call b_got.
Definition b_read : host := after (ev_read 100) b_call.

Lemma step_a a b e : allowed b a e → roomy a → bool_decide (is_Some (host_run e a)) = true → sys_step (a, b) (after e a, b).
Proof. intros He Hr [a' E]%bool_decide_eq_true. rewrite /after E. by eapply step_left. Qed.

Lemma step_b a b e : allowed a b e → roomy b → bool_decide (is_Some (host_run e b)) = true → sys_step (a, b) (a, after e b).
Proof. intros He Hr [b' E]%bool_decide_eq_true. rewrite /after E. by eapply step_right. Qed.

Lemma roomy_check h : (32 <=? length (n_pool (t_net (h_tcp h))))%nat = true → roomy h.
Proof. apply Nat.leb_le. Qed.

Lemma last_frame_allowed a b : (zlen (last_frame (h_tcp a)) <? 2 ^ 31) && (0 <? zlen (last_frame (h_tcp a))) = true → allowed a b (from_driver (last_frame (h_tcp a))).
Proof.
  intros [H1 H2]%andb_true_iff. to_prop. set (f := last_frame _) in *. assert (contents (in_buffer f) = f) as E.
  { rewrite /contents /in_buffer /slice /= Nat2Z.id. apply take_ge. lia. }
  split; [split; rewrite /p_blen /=; lia|]. rewrite E. rewrite /f /last_frame in H2 |- *. destruct (n_sent _); [done|constructor].
Qed.

(** The first host writes, and the frame is delivered. *)
Lemma session_got : rtc sys_step (host_a, host_b) (a_wrote, b_got).
Proof.
  eapply rtc_l; [apply (step_a _ _ ev_call); [done|by apply roomy_check; vm_compute|by vm_compute]|].
  eapply rtc_l; [apply (step_a _ _ (ev_write hello 0))|].
  { split_and!; [done|by repeat constructor|done|done|vm_compute; reflexivity]. }
  { by apply roomy_check; vm_compute. }
  { by vm_compute. }
  apply rtc_once, (step_b _ _ (from_driver (last_frame (h_tcp a_wrote)))); [by apply last_frame_allowed; vm_compute|by apply roomy_check; vm_compute|by vm_compute].
Qed.

(** The second host reads. *)
Lemma session : rtc sys_step (host_a, host_b) (a_wrote, b_read).
Proof.
  etrans; [exact session_got|]. eapply rtc_l; [apply (step_b _ _ ev_call); [done|by apply roomy_check; vm_compute|by vm_compute]|].
  apply rtc_once, (step_b _ _ (ev_read 100)); [done|by apply roomy_check; vm_compute|by vm_compute].
Qed.

Lemma session_read : h_wr a_wrote = hello ∧ h_rd b_read = hello.
Proof. by vm_compute. Qed.

(** ** What holds of every connection *)

(** C3: In every run of two connected hosts, over a network that loses, repeats and
    reorders frames, what a host has read is a prefix of what the other has written. *)
Theorem connection_streams a b ga gb s : system a b ga gb → rtc sys_step (a, b) s →
  h_rd s.2 `prefix_of` h_wr s.1 ∧ h_rd s.1 `prefix_of` h_wr s.2.
Proof.
  intros Hs Hr. destruct (run_system _ _ Hr ga gb Hs) as (ga'&gb'&Hs'). split; [by eapply system_delivered|]. by eapply system_delivered, system_sym.
Qed.

Lemma connection_streams_witness : system host_a host_b fresh fresh ∧ rtc sys_step (host_a, host_b) (a_wrote, b_read) ∧ hello `prefix_of` hello.
Proof.
  split; [exact connected|]. split; [exact session|]. rewrite -{1}(proj2 session_read) -(proj1 session_read).
  exact (proj1 (connection_streams host_a host_b fresh fresh (a_wrote, b_read) connected session)).
Defined.

(** C14: In every such run no byte is lost: what was written is what the other host has
    received, read or still in its ring, followed by what is in the send buffer. *)
Theorem connection_kept a b ga gb s : system a b ga gb → rtc sys_step (a, b) s →
  ∃ w q, h_wr s.1 = w ++ unacknowledged s.1 ∧ unread s.2 q ∧ w `prefix_of` h_rd s.2 ++ q.
Proof. intros Hs Hr. destruct (run_system _ _ Hr ga gb Hs) as (ga'&gb'&Hs'). by eapply system_kept. Qed.

Lemma connection_kept_witness : ∃ w q, hello = w ++ unacknowledged a_wrote ∧ unread b_read q ∧ w `prefix_of` hello ++ q.
Proof.
  destruct (connection_kept host_a host_b fresh fresh (a_wrote, b_read) connected session) as (w&q&H). simpl fst in H. simpl snd in H.
  rewrite (proj1 session_read) (proj2 session_read) in H. by exists w, q.
Defined.



(** C15: A segment that [tcp_send] builds is sent whole behind the headers for IP and
    Ethernet, or an error is returned; the receiver finds its checksum right and reads
    back every field. *)
Theorem segment_roundtrip k dip dport sip sport data flags opts ack seq win n
    (seg := tcp_segment sip dip sport dport seq ack (flags_of opts flags) win opts data) :
  net_ok (4 + k) n → zlen opts mod 4 = 0 → zlen opts ≤ 10 → zlen data ≤ 1472 → octets opts → octets data →
  wp (tcp_send dip dport sip sport data flags opts ack seq win)
    (λ r n', net_ok k n' ∧ same_config n n' ∧ ip_sent n dip IP_PROTO_TCP seg r n') n ∧
  cksum_pheader (tcp_pseudo_header sip dip (zlen seg)) seg = 0 ∧
  parse_header seg = Header (u16 sport) (u16 dport) (u32 seq) (u32 ack) (u16 (flags_of opts flags)) (u16 win) ∧
  drop (Z.to_nat (20 + zlen opts)) seg = data.
Proof.
  intros Hn H4 H10 Hd Ho Hod. split; [by eapply wp_tcp_send|]. split; [exact (tcp_segment_cksum sip dip _ _ _ _ _ _ opts data Ho Hod)|].
  split; [apply parse_tcp_segment|]. rewrite /seg /tcp_segment /tcp_body app_assoc. apply drop_app_length'. rewrite length_app length_tcp_header. lia.
Qed.

Lemma booted_ok ip mac arp : length mac = 6%nat → Forall (λ e, length e.2 = 6%nat) arp → net_ok 64 (booted ip mac arp).
Proof. intros Hm Ha. split; try done. by apply Forall_replicate. Qed.

Lemma segment_roundtrip_witness :
  parse_header (tcp_segment ip_a ip_b 35291 80 7 9 (flags_of [] PKT_ACK) 8191 [] hello) = Header 35291 80 7 9 0x5010 8191.
Proof.
  exact (proj1 (proj2 (proj2 (segment_roundtrip 0 ip_b 80 ip_a 35291 hello PKT_ACK [] 9 7 8191 (booted ip_a mac_a [])
    (net_ok_weaken 64 4 _ ltac:(lia) (booted_ok ip_a mac_a [] eq_refl (Forall_nil_2 _))) eq_refl ltac:(done) ltac:(done) (Forall_nil_2 _)
    ltac:(by repeat constructor))))).
Defined.


Definition listening : tcp := Tcp (set_n_udp [Listener 53 7] (booted ip_b mac_b [])) ∅ [] [] 0 0.


(** C18: The checksum of an IP header that is sent is found right exactly if the sum of its
    words, folded once, fits in 16 bits; the carry of the fold is lost. *)
Theorem ipv4_chksum_fold src dst proto len : 0 ≤ proto < 256 →
  rfc1701_chksum (minip_build_ipv4_hdr src dst proto len) = 0 ↔ folded (ipv4_hdr src dst proto len 0) < 2 ^ 16.
Proof. apply ipv4_chksum_iff. Qed.

(** From 192.168.1.10 to 192.168.185.117 *)
Lemma ipv4_chksum_fold_witness : rfc1701_chksum (minip_build_ipv4_hdr (value [192; 168; 1; 10]) (value [192; 168; 185; 117]) IP_PROTO_TCP 20) ≠ 0.
Proof.
  intros H. assert (0 ≤ IP_PROTO_TCP < 256) as Hp by (unfold IP_PROTO_TCP; lia).
  pose proof (proj1 (ipv4_chksum_fold (value [192; 168; 1; 10]) (value [192; 168; 185; 117]) IP_PROTO_TCP 20 Hp) H) as H'. vm_compute in H'. discriminate H'.
Defined.



(** C19: Data that begins before the receive window and ends in it, as a retransmission
    does when only a part of it was received, fails the assertion of [handle_data]. *)
Theorem overlap_panics t c d own g k x n l i data : live c (t_now t) d true own g k x n l → 0 < zlen data < 2 ^ 30 → - 2 ^ 30 ≤ i - g_got g →
  i < g_got g < i + zlen data → handle_data (c_s c) data (u32 (c_irs c + i)) (St t (c_s c) x n l) = None.
Proof. intros. by eapply handle_data_overlap. Qed.

(** Ten bytes from the beginning, when five were received *)
Lemma overlap_panics_witness : ∃ x, t_socks (h_tcp b_got) !! 2%positive = Some x ∧
  handle_data 2 (replicate 10 0) (u32 (1015568749 + 0)) (St (h_tcp b_got) 2 (set_s_lock true x) (t_net (h_tcp b_got)) (t_timers (h_tcp b_got))) = None.
Proof.
  destruct (run_system _ _ session_got fresh fresh connected) as (ga&gb&[_ [(x&Hx&Hl) _ _ _ _ Erd _] _ _ _]). simpl snd in *.
  assert (h_conn b_got = conn_b) as Ec by (vm_compute; reflexivity). rewrite Ec in Hx, Hl. exists x. split; [exact Hx|].
  assert (g_got gb = 5) as Eg.
  { assert ((λ x, cbuf_space_used (rx_buffer x)) <$> t_socks (h_tcp b_got) !! 2%positive = Some 5) as E by (vm_compute; reflexivity).
    change (c_s conn_b) with 2%positive in Hx. rewrite Hx in E. injection E as E. destruct Hl as [_ _ _ Hsk _ _ _ _ _].
    rewrite (cbuf_space_used_repr _ _ (so_ring _ _ _ Hsk)) in E. assert (h_rd b_got = []) as E0 by (vm_compute; reflexivity). rewrite E0 in Erd. rewrite /g_got -Erd. exact E. }
  apply (live_lock true) in Hl. apply (overlap_panics (h_tcp b_got) conn_b 2 _ gb 0 _ _ _ 0 _ Hl); rewrite ?Eg ?length_replicate; lia.
Defined.

(** ** Runs that end badly *)

Definition later (ms : Z) (t : tcp) : tcp := Tcp (t_net t) (t_socks t) (t_list t) (t_timers t) (t_now t + ms) (t_seed t).

Definition nth_frame (i : nat) (t : tcp) : list Z := nth i (n_sent (t_net t)) [].

Definition exec {A} (m : T A) (t : tcp) : option tcp := '(_, t) ← m t; Some t.

Definition state_of (s : positive) (t : tcp) : option tcp_state := s_state <$> t_socks t !! s.

(** Two writes of 100 bytes; the second frame is lost, and after 50 ms both are sent again
    in one: the receiver fails an assertion. *)
Lemma lost_frame_panics :
  (ta ← exec (tcp_write 1;; tcp_write_resume 1 (replicate 100 7) 0;; tcp_write_resume 1 (replicate 100 8) 0) tcp_a;
   tb ← arrive (nth_frame 1 ta) None tcp_b;
   ta ← exec (net_timer_work_routine 3) (later 50 ta);
   Some (zlen (last_frame ta), bool_decide (arrive (last_frame ta) None tb = None))) = Some (54 + 200, true).
Proof. by vm_compute. Qed.

(** Both ends close *)
Definition closed_both : option (tcp * tcp) :=
  ta ← exec (tcp_close 1) tcp_a;
  tb ← arrive (last_frame ta) None tcp_b;
  ta ← arrive (last_frame tb) None ta;
  tb ← exec (tcp_close 2) tb;
  ta ← arrive (last_frame tb) None ta;
  tb ← arrive (last_frame ta) None tb;
  Some (ta, tb).

Lemma closed_both_states : (λ '(ta, tb), (state_of 1 ta, state_of 2 tb, state_of 1 tb)) <$> closed_both = Some (Some STATE_TIME_WAIT, None, Some STATE_LISTEN).
Proof. by vm_compute. Qed.

(** A segment of the connection that comes late is answered with a reset, which closes
    the socket in [TIME_WAIT]; the timer then finds it in the wrong state. *)
Lemma reset_in_time_wait_panics :
  ('(ta, tb) ← closed_both;
   tb ← arrive (nth_frame 1 ta) None tb;
   ta ← arrive (last_frame tb) None ta;
   Some (state_of 1 ta, bool_decide (exec (net_timer_work_routine 3) (later 60000 ta) = None))) = Some (Some STATE_CLOSED, true).
Proof. by vm_compute. Qed.

(** The second [tcp_close] returns with the lock held: the next call waits for ever. *)
Lemma close_twice_locks :
  (ta ← exec (tcp_close 1;; tcp_close 1) tcp_a; Some (s_lock <$> t_socks ta !! 1%positive, bool_decide (exec (tcp_write_resume 1 hello 0) ta = None))) =
  Some (Some true, true).
Proof. by vm_compute. Qed.

(** What was written before [tcp_close] is lost with its frame: the FIN has the number of
    the first of the bytes, and nothing is sent again. *)
Lemma close_loses_data :
  (ta ← exec (tcp_write 1;; tcp_write_resume 1 hello 0;; tcp_write_done 1 5;; tcp_close 1) tcp_a;
   tb ← arrive (last_frame ta) None tcp_b;
   '(r, tb) ← (tcp_read 2;; tcp_read_resume 2 100) tb;
   ta' ← exec (net_timer_work_routine 3) (later 50 ta);
   Some (r, state_of 2 tb, t_timers ta', bool_decide (n_sent (t_net ta') = n_sent (t_net ta)))) =
  Some (Some (inr ERR_CHANNEL_CLOSED), Some STATE_CLOSE_WAIT, [], true).
Proof. by vm_compute. Qed.

(** Any acknowledgement in [FIN_WAIT_1] is taken for the one of the FIN. *)
Lemma old_ack_in_fin_wait :
  (ta ← exec (tcp_close 1) tcp_a; ta ← arrive (data_frame conn_b mac_b mac_a 0 0 PKT_ACK 8191 []) None ta; Some (state_of 1 ta)) = Some (Some STATE_FIN_WAIT_2).
Proof. by vm_compute. Qed.

(** A header that claims to have no length: its 20 bytes are taken as data. *)
Definition no_length : list Z :=
  let seg := tcp_segment ip_a ip_b 35291 80 1015568749 1975575173 PKT_ACK 8191 [] [] in
  minip_build_mac_hdr mac_a mac_b ETH_TYPE_IPV4 ++ minip_build_ipv4_hdr ip_a ip_b IP_PROTO_TCP (zlen seg) ++ seg.

Lemma header_as_data :
  (tb ← arrive no_length None tcp_b; Some ((λ x, cbuf_space_used (rx_buffer x)) <$> t_socks tb !! 2%positive)) = Some (Some 20).
Proof. by vm_compute. Qed.

(** To an address that is not local, without a gateway: the packet is not sent, and its two
    objects do not come back to the pool. *)
Lemma no_gateway_leaks :
  (ta ← exec (tcp_connect (value [8; 8; 8; 8]) 80 5 (Some (memory 3))) tcp_a;
   Some (zlen (n_pool (t_net tcp_a)) - zlen (n_pool (t_net ta)), zlen (n_sent (t_net ta)) - zlen (n_sent (t_net tcp_a)))) = Some (2, 0).
Proof. by vm_compute. Qed.

(** A ping from an address that ends in 255, which the cache does not take *)
Definition ping (src : Z) : list Z :=
  minip_build_mac_hdr mac_a mac_b ETH_TYPE_IPV4 ++ minip_build_ipv4_hdr src ip_b IP_PROTO_ICMP 8 ++ [ICMP_ECHO_REQUEST; 0; 0; 0; 0; 1; 0; 1].

Lemma ping_255_faults : bool_decide (arrive (ping ip_a) None tcp_b = None) = false ∧ bool_decide (arrive (ping (value [10; 0; 0; 255])) None tcp_b = None) = true.
Proof. by vm_compute. Qed.

(** A host that comes back with another hardware address keeps the old one in the cache. *)
Lemma arp_keeps_old_mac : n_arp <$> (snd <$> arp_cache_update true ip_b [1; 1; 1; 1; 1; 1] (booted ip_a mac_a [(ip_b, mac_b)])) = Some [(ip_b, mac_b)].
Proof. by vm_compute. Qed.

(** [1.2.3.4] is an address, a fourth dot leads out of the array. *)
Lemma parse_ipaddr_dots :
  minip_parse_ipaddr [49; 46; 50; 46; 51; 46; 52] 7 = Some (value [1; 2; 3; 4]) ∧ minip_parse_ipaddr [49; 46; 50; 46; 51; 46; 52; 46; 53] 9 = None.
Proof. by vm_compute. Qed.

(** The assertion on the size of a buffer stops a datagram of more than 1472 bytes. *)
Lemma udp_send_large :
  bool_decide (udp_send (replicate 1472 0) (UdpSocket ip_b 1 2 mac_b) (t_net tcp_a) = None) = false ∧
  bool_decide (udp_send (replicate 1473 0) (UdpSocket ip_b 1 2 mac_b) (t_net tcp_a) = None) = true.
Proof. by vm_compute. Qed.
